(* ===== verification/_CoqProject ===== *)
-Q . S2P
Prelude.v
Interleave.v
Text.v
Env.v
Demo.v
Store.v
Events.v
Reconcile.v
Runtime.v
Instances.v
FakeRuntime.v
Scheduler.v
SchedulerSpec.v
Sweeps.v
Docker.v
DockerRules.v
DockerSystem.v
DockerLife.v
Scoring.v
Binary64.v
DynamicExact.v
Submissions.v
SubmissionRules.v
Scoreboard.v
StandingsSpec.v
ScoreboardRules.v
BoardFresh.v
Teams.v
TeamRules.v
Users.v
Redis.v
Tokens.v
Sessions.v
Passwords.v
PasswordRules.v
SessionRules.v
ExternalAuth.v
ExternalAuthRules.v
Accounts.v
AuthApi.v
AuthDemo.v
AuthRules.v
TokenRules.v
EventBus.v
EventBusRules.v
Hub.v
HubRules.v
HubLimits.v
Challenges.v
ChallengeRules.v
Relate.v
Views.v
Endpoints.v
AdminLists.v
Secrets.v
FreezeRules.v
AdminRules.v
TickRules.v
PluginFiles.v
Plugins.v
PluginFileRules.v
PluginRules.v
PluginLife.v
PluginBudget.v
FdBudget.v
Http.v
Authoring.v
AuthorRules.v
Cli.v
CliRules.v
CliLogin.v
CliServer.v
Oidc.v
Settings.v
HttpServer.v
