(* ===== verification/Prelude.v ===== *)
(** * OSCTF: a verification development of the platform's core services

    OSCTF is a platform for running capture-the-flag events: players form teams, read
    challenges, start containers, submit flags and watch a scoreboard, while
    administrators author challenges, ban accounts and run the event.  This library
    models the server process, its plugins and its command line (Go, under [src/]) and
    proves what makes them correct.

    ** How the program is modelled

    The services are stateless code over shared state: PostgreSQL, Redis, the
    container daemon, and a few in-process structures (the scheduler's team locks,
    the cached board, the password gate).  The model is one such state, [Env.World],
    and each Go function is a program over it:
    - [Prelude.M] is one atomic step: a SQL statement, a transaction, a Redis
      pipeline, a compare-and-swap, a read of the clock.  [Env.query] and [Env.WithTx]
      make a statement or a transaction such a step, which may fail on its connection
      ([w_faults]); a transaction that fails leaves the tables as they were.
    - [Prelude.prog] is a sequence of steps with errors as values; [atomic] embeds a
      step.  A handler or service method is a [prog], so other requests run
      between any two of its steps.
    - [Prelude.pool_step] interleaves any number of programs; [Prelude.solo] runs one
      alone; [exec] runs a pool under a given schedule, for concrete witnesses.
    - What the outside decides (clock readings, generated ids, entropy, connection
      failures, which branch of a [select] fires) is an explicit input of the world,
      so a theorem over all worlds covers every such choice.
    - Times and durations are nanoseconds in Z; machine integers carry their width
      where the code converts ([int32_of], [wrap], [clampI32]); floating point is IEEE 754
      binary64 ([Scoring], and the scores of the rate limiter); strings are byte strings.
    - The unfolding of the interleaving semantics into invariants is [Interleave]: the
      rules [all_steps] (an invariant of the state) and [holds] (one with a ghost
      value per thread and a guarantee), with the theorems that they are sound for a
      pool and for a program amid an environment.

    ** The parts, and where they are

    - Shared state and statements: [Env] ([db/gen/models.go], [db/db.go], the structs of
      the in-process state), [Store], [Users] and the statement sections of [Tokens] and
      [Challenges] ([db/gen/*.sql.go] on the constraints of [db/migrations]), [Redis] (the
      commands of the session store, login state and rate limiter), [Text].
    - The event window: [Events] ([events/service.go]).
    - Challenge containers: [Reconcile] ([runtime/reconcile.go]), [Runtime]
      ([runtime/manager.go], [runtime/runtime.go], [flags/flags.go]), [FakeRuntime]
      ([runtime/fake.go]), [Scheduler] ([scheduler/scheduler.go]).  The manager is written
      against the class [ChallengeRuntime], of which [FakeRuntime] and [Docker]
      ([runtime/docker.go]) give the instances.  What the Docker daemon answers is the class
      [DockerDaemon], any function of the world; each call is journalled with its answer in
      the outputs of the world, so theorems speak of what was asked after what was answered.
    - Scoring and the registries: [Scoring] ([scoring/engine.go], [scoring/registry.go]).
    - Submissions: [Submissions] ([submissions/service.go], [scorerepair.go]).
    - The scoreboard: [Scoreboard] ([scoreboard/compute.go], [service.go]).
    - Teams: [Teams] ([teams/*.go], [handlers/teams.go]).
    - Identity: [Passwords], [Sessions], [Tokens], [ExternalAuth], [Accounts], [AuthApi]
      ([auth/*.go], [users/*.go], [redisx/ratelimit.go], the auth handlers and middleware).
    - The event bus: [EventBus] ([events/bus.go]), on a state of its own.
    - Challenge authoring: [Challenges] ([challenges/*.go], [handlers/admin_challenges.go]).
    - Pages and endpoints: [Views] ([challenges/participant.go], the pages of challenges, teams
      and users, [handlers/guards.go]), [Endpoints] (submitting, the controls of instances,
      the administrators' endpoints, the board, and the loops of [cmd/platform/main.go]).
      [AdminLists]: the administrators' lists and counters ([handlers/admin_*.go], the [admin.go] of the services).
    - The websocket hub: [Hub] ([ws/*.go], [handlers/ws.go]), on a state of its own.
    - The plugin host: [PluginFiles] (manifests, config, discovery, the sweep: [plugin/manifest.go],
      [config.go], [discovery.go], [sweep.go]) and [Plugins] (the loader, the in-flight budget,
      the supervisor of each plugin, the registrar: the other files of [internal/plugin],
      [cmd/platform/plugin_registrar.go]), on a state of its own.  What a plugin process does is the
      class [PluginProcesses]; the host's theorems need only [PluginLaws], that a call
      to another process changes nothing of the host.
    - The descriptor budget: [FdBudget] ([fdbudget/budget.go], [cmd/platform/budget.go]), which sizes the hub and
      the plugin host.
    - The OIDC plugin: [Oidc] ([plugins/oidc-plugin/main.go]), on the state of its own process.
    - The HTTP server: [Http] (problems, exit codes: [httpx/httpx.go], [cmd/osctf/exit.go]) and
      [HttpServer] ([httpserver/*.go]), the middleware around the endpoints in the order of [New].
    - Challenge files: [Authoring] ([challengespec/spec.go], [cmd/osctf/authoring.go], [seed/examples.go]).
    - The command line: [Cli] ([cmd/osctf/*.go]), on the state of the user's machine ([Cli.Machine]); the server is a
      function of the request and the network, and [CliServer] puts the modelled endpoints there.
    - Settings and boot: [Settings] ([config/config.go], [seed/admin.go], the wiring of [cmd/platform/main.go]).
    Definitions keep the name of the Go function; a method whose name would clash has a
    prefix ([token_Create], [chal_Update], [h_Login] for an HTTP handler), a transaction
    body the suffix [_tx].

    ** What the theorems show

    - Instances ([Instances], [SchedulerSpec], [Sweeps], [Reconcile]): under every interleaving
      host ports, team slots and per-instance flags stay unique; the port scan
      returns the lowest free port; each sweep destroys exactly what it should; an
      extension is bounded; a team container is refused while isolation is not established;
      the reconcile decision refines its specification.
    - The daemon ([DockerRules], [DockerSystem], [DockerLife]): under every interleaving each call to
      it is justified by its earlier answers, and no team's container is created before the
      isolation check succeeded; a deploy settles its row; the check leaves nothing behind; the
      Docker runtime keeps what the manager's and the sweeps' theorems ask of a runtime.
    - Submissions ([SubmissionRules]): one correct solve per team and challenge, attempt
      limits; the row a submission logs is the attempt that was judged, against the event,
      the challenge and the flag of the tables; flags of instances are never written.
    - Scoreboard ([StandingsSpec], [ScoreboardRules], [BoardFresh]): the standings are those of
      a specification of the order, the points and the ranks; the published board never
      falls behind; a live read gives the right board for the log at some moment during the
      read; the frozen board is captured once.
    - Teams ([TeamRules]), scoring ([Binary64], [DynamicExact]): sizes, captains, and names
      under every interleaving; the binary64 decay is the exact formula, rounded, by error
      bounds of the format proved over the reals.
    - Identity ([PasswordRules], [SessionRules], [AuthRules], [TokenRules], [ExternalAuthRules]):
      hash and verify, the bound of the derivation gate, a ban reaches every session, a
      bearer request gets no more than its token allows, an external login grants nothing.
    - Event bus ([EventBusRules]): publishing never blocks, delivery in order, accounting
      for what is dropped, silence after a cancel.
    - Authoring ([ChallengeRules]): challenges stay well formed; validation against the
      constraints of the table.
    - Websocket hub ([HubRules], [HubLimits]): each client is shown the stream in order,
      missing only what a newer snapshot replaces; connections and handshakes are bounded.
    - Pages ([Secrets], [FreezeRules], [AdminRules]): the challenge pages answer alike on two
      databases that differ only in secrets ([Relate] has the rules of two runs side by
      side); the freeze hides the solves after it; no administrators' endpoint lets a stranger in.
    - The loops ([TickRules]): after the end of the event one calm round tears every team's
      instance down.
    - The plugin host ([PluginRules], [PluginLife]): no illegal transition, a provider is reachable
      only while its plugin is in service, no process outlives its supervisor, crash loops
      end in quarantine, forgiven only after the configured streak of readiness; ([PluginBudget]) calls in flight are bounded and every slot comes
      back; ([PluginFileRules]) what is launched, with which config, and what is swept.
    - [FdBudget]: the shares of the descriptors never exceed what there is.
    - The HTTP server ([HttpServer]): nothing of the API runs for a request that has not shown a
      session or a good token for its caller, and an allowed origin or a token for a change;
      ([Http]) an error keeps its meaning from the handler to the exit code of the shell.
    - The OIDC plugin ([Oidc]): an identity answers the login whose state it came back with.
    - Challenge files ([AuthorRules]): what the offline verdict is worth on the server, the
      canonical bundle, the seeder's idempotence.
    - The command line: ([CliRules]) one JSON value on standard output; ([CliLogin]) what [login] sends and stores, and that it
      is found again; ([CliServer]) the token commands against the server's endpoints.
    - Settings ([Settings]): which configurations are accepted, and what the first boot leaves.
    Every property with hypotheses has a witness: a theorem of the same name with the
    suffix [_witness] that applies it to a concrete world ([Demo], [AuthDemo]).  Theorems
    that exhibit a flaw of the code run it on such a world too.

    ** Bounds and fuel

    The retry loops of the code are bounded by the code's own constants and written as
    recursion over them.  [EventBus.run_loop] and [EventBus.drain] take fuel: running out
    is the outcome [stuck], which changes nothing; the invariants hold for every fuel,
    and [drain] has as much as the queue can hold.  The loops of a plugin's supervisor ([Plugins.run])
    take as many turns as they are given and then wait for ever, for every number of turns; the
    polls of a plugin's drain ([Plugins.drain_fuel]) are as many as fit before its deadline.
    Scans of the port range recurse on its length.

    ** Assumptions

    The class [Env.Libs] holds what the repository calls but does not contain and the
    services share: the text of a uuid, the Unicode tables of [strings.ToLower], the
    folding of the database's case-insensitive text, the hex of a SHA-256 digest, and the check of a
    mail address.  Argon2id, the URL parser, JSON, YAML, tar, the OIDC and OAuth2 libraries, the answers of plugins and
    the stored objects are parameters of the definitions that ask for them.  Laws are named
    hypotheses of the theorems that need them, and [Demo.demo_libs] is an instance.
    Messages that quote their input are abbreviated: no code inspects them.

    ** Not modelled

    - The client libraries of Docker, S3 ([internal/storage]), PostgreSQL and Redis, the listener and the shutdown
      of the process, metrics and tracing: processes and I/O.  Where a service calls them, it does so through a
      parameter.
    - The side of the plugin process (the SDK under [plugin/], the protocol of [plugin/pluginpb]) and the
      example plugins but for OIDC.
    - The migrations, beyond the constraints that [Store] states; embedded assets and the helpers of tests.
    - In the client: escapes of quoted text, and answers that are more than one JSON object; standard input is a list
      of lines.  In the server: the durations of requests, and [chi]'s choice of a route, which is a parameter.
    - [internal/apigen] and [internal/apiclient], which are generated; the translation of
      rows to API types in [internal/handlers] where it only copies fields.
    - Redis resolves expiry to the millisecond, the model to the nanosecond.  The peak
      watermark of the password gate is observability only. *)

From stdpp Require Export base gmap sets list strings option sorting.
From stdpp Require Export fin_maps.
From Stdlib Require Export ZArith Lia.

#[export] Set Default Goal Selector "!".

(** Replace a closed term of the goal by its value. *)
Ltac evaluate t := let v := eval vm_compute in t in change t with v.

(** ** Scalars *)

(** A [uuid.UUID] is a 128-bit value; only its identity matters here. *)
Abbreviation uuid := N (only parsing).
Definition uuid_Nil : uuid := 0%N.

(** [time.Time] is nanoseconds since the epoch, [time.Duration] nanoseconds. *)
Abbreviation time := Z (only parsing).
Abbreviation duration := Z (only parsing).

Definition Nanosecond : duration := 1%Z.
Definition Second : duration := 1000000000%Z.
Definition Minute : duration := (60 * Second)%Z.
Definition Hour : duration := (60 * Minute)%Z.

(** Go's conversion to a [w]-bit two's complement integer. *)
Definition wrap (w : Z) (x : Z) : Z :=
  ((x + 2 ^ (w - 1)) mod 2 ^ w - 2 ^ (w - 1))%Z.
Definition int32_of (x : Z) : Z := wrap 32 x.

(** ** Errors

    The domain error vocabulary of [internal/apperr/apperr.go] (sentinels and
    the detail-carrying structs), the driver errors the services inspect
    ([pgx.ErrNoRows], [pgconn.PgError]), and [fmt.Errorf]'s [%w] wrapping. *)

Inductive error :=
  | ErrNotFound | ErrForbidden | ErrConflict | ErrUnauthenticated
  | ErrBadRequest | ErrUnavailable | ErrNotImplemented
  | NotImplemented (detail : string)
  | Unavailable (detail : string) (retry_after : duration)
  | Validation (fields : gmap string (list string))
  | Forbidden (detail : string)
  | Conflict (detail : string)
  | NotFound (detail : string)
  | RateLimited (retry_after : duration) (scope : string)
  | ErrNoRows
  | PgError (code constraint : string)
  | ErrConn                       (* a driver/connection failure *)
  | ErrRand                       (* crypto/rand failure *)
  | ErrCtx                        (* ctx.Err() *)
  | RuntimeUnavailable (cause : error)   (* runtime.unavailableError *)
  | Rejection (reason : string)          (* auth.RejectionError *)
  | ErrOther (msg : string)
  | Wrap (prefix : string) (cause : error).

(** A Go [(value, error)] pair: the value is meaningful only when the error is
    nil. *)
Inductive res (A : Type) :=
  | Ok (a : A)
  | Err (e : error).
Arguments Ok {A} a.
Arguments Err {A} e.

#[export] Instance error_eq_dec : EqDecision error.
Proof. solve_decision. Defined.
#[export] Instance res_eq_dec `{EqDecision A} : EqDecision (res A).
Proof. solve_decision. Defined.

Definition is_ok {A} (r : res A) : bool :=
  match r with Ok _ => true | Err _ => false end.

(** [errors.As]-style search of a wrapped chain: the innermost cause. *)
Fixpoint cause (e : error) : error :=
  match e with Wrap _ e' => cause e' | RuntimeUnavailable e' => cause e' | _ => e end.

(** [errors.Is(err, pgx.ErrNoRows)]. *)
Definition is_no_rows (e : error) : bool :=
  match cause e with ErrNoRows => true | _ => false end.

(** [errors.As(err, &pgErr) && pgErr.Code == "23505"]: the violated unique
    constraint. *)
Definition unique_violation (e : error) : option string :=
  match cause e with
  | PgError code c => if decide (code = "23505"%string) then Some c else None
  | _ => None
  end.

(** ** Monads

    [M S] is a state-and-error monad: one atomic action on the shared state, or
    the body of one database transaction.  [prog S] is a program made of atomic
    actions, each a step of its own, so that other programs can interleave
    between two of them; a step returning [None] is blocked (a lock or a
    channel that is not ready); [Fork] is a [go] statement. *)

Definition M (S A : Type) : Type := S → res A * S.

Inductive prog (S : Type) (A : Type) : Type :=
  | Ret (a : A)
  | Step (X : Type) (f : S → option (X * S)) (k : X → prog S A)
  | Fork (child : prog S unit) (k : prog S A).
Arguments Ret {S A} a.
Arguments Step {S A X} f k.
Arguments Fork {S A} child k.

Definition P (S A : Type) : Type := prog S (res A).

(** What both layers offer: raising, and looking at the error of a call. *)
Class MonadErr (F : Type → Type) := {
  throw : ∀ {A}, error → F A;
  try : ∀ {A}, F A → F (res A)
}.

#[export] Instance M_ret {S} : MRet (M S) := λ A a s, (Ok a, s).
#[export] Instance M_bind {S} : MBind (M S) := λ A B k m s,
  match m s with
  | (Ok a, s') => k a s'
  | (Err e, s') => (Err e, s')
  end.
Definition M_throw {S A} (e : error) : M S A := λ s, (Err e, s).
Definition M_try {S A} (m : M S A) : M S (res A) :=
  λ s, let '(r, s') := m s in (Ok r, s').
#[export] Instance M_err {S} : MonadErr (M S) :=
  {| throw := @M_throw S; try := @M_try S |}.

Fixpoint prog_bind {S A B : Type} (p : prog S A) (k : A → prog S B) : prog S B :=
  match p with
  | Ret a => k a
  | Step f c => Step f (λ x, prog_bind (c x) k)
  | Fork child c => Fork child (prog_bind c k)
  end.

(** A program run for its effect. *)
Definition forget {S A} (p : prog S A) : prog S unit := prog_bind p (λ _, Ret tt).

#[export] Instance P_ret {S} : MRet (P S) := λ A a, Ret (Ok a).
#[export] Instance P_bind {S} : MBind (P S) := λ A B k p,
  prog_bind p (λ r, match r with Ok a => k a | Err e => Ret (Err e) end).
Definition P_throw {S A} (e : error) : P S A := Ret (Err e).
Definition P_try {S A} (p : P S A) : P S (res A) :=
  prog_bind p (λ r, Ret (Ok r)).
#[export] Instance P_err {S} : MonadErr (P S) :=
  {| throw := @P_throw S; try := @P_try S |}.

(** One atomic action as a program. *)
Definition atomic {S A} (m : M S A) : P S A := Step (λ s, Some (m s)) Ret.

(** One action that waits until it is enabled. *)
Definition blocking {S A} (f : S → option (A * S)) : P S A := Step f (λ a, Ret (Ok a)).

(** [go child()], and [defer d] before [body]: [d] runs on every path out. *)
Definition go {S A} (child : P S A) : P S unit := Fork (forget child) (Ret (Ok tt)).
Definition defer {S A} (d : P S unit) (body : P S A) : P S A :=
  r ← try body; d;; match r with Ok a => mret a | Err e => throw e end.

(** [if err := m; err != nil { return f(err) }]. *)
Definition map_err {F} `{MBind F, MRet F, MonadErr F} {A}
    (f : error → error) (m : F A) : F A :=
  r ← try m;
  match r with Ok a => mret a | Err e => throw (f e) end.

(** [x, err := m; if errors.Is(err, pgx.ErrNoRows) ... else wrap]. *)
Definition no_rows_as (e' : error) (prefix : string) (e : error) : error :=
  if is_no_rows e then e' else Wrap prefix e.

(** Reading and updating the state. *)
Definition gets {S A} (f : S → A) : M S A := λ s, (Ok (f s), s).
Definition modify {S} (f : S → S) : M S unit := λ s, (Ok tt, f s).

Fixpoint for_each {F} `{MBind F, MRet F} {A} (f : A → F unit) (l : list A) : F unit :=
  match l with
  | [] => mret tt
  | a :: l => f a;; for_each f l
  end.

(** [apperr.Validation]: messages by field ([Add], [HasErrors], [OrNil]). *)
Definition NewValidation : gmap string (list string) := ∅.
Definition Add (field msg : string) (v : gmap string (list string)) :=
  <[field := default [] (v !! field) ++ [msg]]> v.
Definition OrNil {F} `{MRet F, MonadErr F} (v : gmap string (list string)) : F unit :=
  if decide (v = ∅) then mret tt else throw (Validation v).

Lemma Add_ne_empty f m v : Add f m v ≠ ∅.
Proof. apply insert_non_empty. Qed.

(** ** Sequential semantics *)

(** Running a program alone, a forked child to its end at once; [None] when a
    step is blocked. *)
Fixpoint run {S A : Type} (p : prog S A) (s : S) : option (A * S) :=
  match p with
  | Ret a => Some (a, s)
  | Step f k => match f s with Some (x, s') => run (k x) s' | None => None end
  | Fork child k => match run child s with Some (_, s') => run k s' | None => None end
  end.

(** Total correctness: [p] run alone from [s] terminates (no step blocks) with
    a result and state satisfying [Q]. *)
Definition wp {S A} (p : prog S A) (Q : A → S → Prop) (s : S) : Prop :=
  match run p s with Some (a, s') => Q a s' | None => False end.

Section Wp.
Context {S : Type}.

Lemma run_prog_bind {A B} (p : prog S A) (k : A → prog S B) s :
  run (prog_bind p k) s =
  match run p s with Some (a, s') => run (k a) s' | None => None end.
Proof.
  revert s; induction p as [A a|A X f c IH|A child _ c IH]; intros s; simpl; [done| |].
  - destruct (f s) as [[x s']|]; auto.
  - destruct (run child s) as [[? s']|]; auto.
Qed.

Lemma run_bind {A B} (p : P S A) (k : A → P S B) s :
  run (p ≫= k) s =
  match run p s with
  | Some (Ok a, s') => run (k a) s'
  | Some (Err e, s') => Some (Err e, s')
  | None => None
  end.
Proof.
  unfold mbind, P_bind. rewrite run_prog_bind.
  destruct (run p s) as [[[a|e] s']|]; done.
Qed.

Lemma run_bind_inv {A B} (p : P S A) (k : A → P S B) s r s' :
  run (p ≫= k) s = Some (r, s') →
  (∃ a s1, run p s = Some (Ok a, s1) ∧ run (k a) s1 = Some (r, s')) ∨
  (∃ e, run p s = Some (Err e, s') ∧ r = Err e).
Proof. rewrite run_bind. destruct (run p s) as [[[a|e] s1]|]; naive_solver. Qed.

Lemma run_try {A} (p : P S A) s :
  run (try p) s =
  match run p s with Some (r, s') => Some (Ok r, s') | None => None end.
Proof. simpl; unfold P_try. rewrite run_prog_bind. by destruct (run p s) as [[]|]. Qed.

Lemma run_atomic {A} (m : M S A) s : run (atomic m) s = Some (m s).
Proof. simpl. by destruct (m s). Qed.

Lemma run_blocking {A} (f : S → option (A * S)) s :
  run (blocking f) s = match f s with Some (a, s') => Some (Ok a, s') | None => None end.
Proof. simpl. by destruct (f s) as [[]|]. Qed.

Lemma run_go {A} (p : P S A) s :
  run (go p) s = match run p s with Some (_, s') => Some (Ok tt, s') | None => None end.
Proof. simpl. unfold forget. rewrite run_prog_bind. by destruct (run p s) as [[]|]. Qed.

Lemma run_defer {A} d (p : P S A) s :
  run (defer d p) s =
  match run p s with
  | Some (r, s1) =>
      match run d s1 with
      | Some (Ok _, s2) => Some (r, s2)
      | Some (Err e, s2) => Some (Err e, s2)
      | None => None
      end
  | None => None
  end.
Proof.
  unfold defer. rewrite run_bind, run_try. destruct (run p s) as [[r s1]|]; [|done].
  rewrite run_bind. destruct (run d s1) as [[[[]|e] s2]|]; [|done..]. by destruct r.
Qed.

(** The common shapes: an action whose error is looked at, wrapped, or passed on. *)
Lemma run_bind_try {A B} (m : M S A) (k : res A → P S B) s r s' :
  run (try (atomic m) ≫= k) s = Some (r, s') →
  ∃ r0 s1, m s = (r0, s1) ∧ run (k r0) s1 = Some (r, s').
Proof. rewrite run_bind, run_try, run_atomic. destruct (m s) as [r0 s1]. eauto. Qed.

Lemma run_bind_map_err {A B} f (m : M S A) (k : A → P S B) s r s' :
  run (map_err f (atomic m) ≫= k) s = Some (r, s') →
  (∃ a s1, m s = (Ok a, s1) ∧ run (k a) s1 = Some (r, s')) ∨
  (∃ e, m s = (Err e, s') ∧ r = Err (f e)).
Proof.
  rewrite run_bind. unfold map_err. rewrite run_bind, run_try, run_atomic.
  destruct (m s) as [[a|e] s1]; simpl; [eauto|]. intros [= <- <-]. eauto.
Qed.

Lemma run_bind_atomic {A B} (m : M S A) (k : A → P S B) s r s' :
  run (atomic m ≫= k) s = Some (r, s') →
  (∃ a s1, m s = (Ok a, s1) ∧ run (k a) s1 = Some (r, s')) ∨ (∃ e, m s = (Err e, s') ∧ r = Err e).
Proof.
  rewrite run_bind, run_atomic. destruct (m s) as [[a|e] s1]; [eauto|]. intros [= <- <-]. eauto.
Qed.

Lemma wp_bind {A B} (p : P S A) (k : A → P S B) Q s :
  wp (p ≫= k) Q s ↔
  wp p (λ r s', match r with Ok a => wp (k a) Q s' | Err e => Q (Err e) s' end) s.
Proof.
  unfold wp. rewrite run_bind.
  destruct (run p s) as [[[a|e] s']|]; done.
Qed.

Lemma wp_try {A} (p : P S A) Q s :
  wp (try p) Q s ↔ wp p (λ r s', Q (Ok r) s') s.
Proof. unfold wp. rewrite run_try. by destruct (run p s) as [[]|]. Qed.

Lemma wp_ret {A} (a : A) (Q : res A → S → Prop) s : wp (mret a : P S A) Q s ↔ Q (Ok a) s.
Proof. done. Qed.

Lemma wp_throw {A} e (Q : res A → S → Prop) s : wp (throw e : P S A) Q s ↔ Q (Err e) s.
Proof. done. Qed.

Lemma wp_atomic {A} (m : M S A) Q s : wp (atomic m) Q s ↔ Q (m s).1 (m s).2.
Proof. unfold wp. rewrite run_atomic. by destruct (m s). Qed.

Lemma wp_mono {A} (p : prog S A) (Q Q' : A → S → Prop) s :
  wp p Q s → (∀ a s', Q a s' → Q' a s') → wp p Q' s.
Proof. unfold wp. destruct (run p s) as [[]|]; auto. Qed.

Lemma M_bind_eq {A B} (m : M S A) (k : A → M S B) s :
  (m ≫= k) s =
  match m s with (Ok a, s') => k a s' | (Err e, s') => (Err e, s') end.
Proof. done. Qed.
End Wp.

(** A program that always returns: none of its steps can block. *)
Fixpoint total {S A : Type} (p : prog S A) : Prop :=
  match p with
  | Ret _ => True
  | Step f k => (∀ s, is_Some (f s)) ∧ (∀ x, total (k x))
  | Fork child k => total child ∧ total k
  end.

Create HintDb total discriminated.

Section Total.
Context {S : Type}.

Lemma total_run {A} (p : prog S A) s : total p → ∃ r s', run p s = Some (r, s').
Proof.
  revert s; induction p as [A a|A X f k IH|A child IHc k IH]; intros s Hp; simpl in *; [eauto| |].
  - destruct Hp as [Hf Hk]. destruct (Hf s) as [[x s1] ->]. by apply IH.
  - destruct Hp as [Hc Hk]. destruct (IHc s Hc) as (u & s1 & ->). by apply IH.
Qed.
Lemma total_prog_bind {A B} (p : prog S A) (k : A → prog S B) :
  total p → (∀ a, total (k a)) → total (prog_bind p k).
Proof.
  intros Hp Hk. induction p as [A a|A X f c IH|A child _ c IH]; simpl in *; [done| |].
  - destruct Hp as [Hf Hc]. split; [done|]. auto.
  - destruct Hp as [Hc Hk']. auto.
Qed.
Lemma total_ret {A} (a : A) : total (mret a : P S A).
Proof. done. Qed.
Lemma total_throw {A} e : total (throw e : P S A).
Proof. done. Qed.
Lemma total_bind {A B} (p : P S A) (k : A → P S B) : total p → (∀ a, total (k a)) → total (p ≫= k).
Proof. intros Hp Hk. apply total_prog_bind; [done|]. by intros [a|e]. Qed.
Lemma total_try {A} (p : P S A) : total p → total (try p).
Proof. intros Hp. by apply total_prog_bind. Qed.
Lemma total_map_err {A} f (p : P S A) : total p → total (map_err f p).
Proof. intros Hp. apply total_bind; [by apply total_try|]. by intros [a|e]. Qed.
Lemma total_atomic {A} (m : M S A) : total (atomic m).
Proof. split; [eauto|done]. Qed.
End Total.
#[export] Hint Resolve total_ret total_throw total_atomic : total.

(** Walk through a program none of whose steps blocks. *)
Ltac totals :=
  repeat (intros;
    lazymatch goal with
    | |- total (mret _) => apply total_ret
    | |- total (throw _) => apply total_throw
    | |- total (atomic _) => apply total_atomic
    | _ => first
      [ solve [auto 3 with total]
      | lazymatch goal with
        | |- total (_ ≫= _) => apply total_bind
        | |- total (try _) => apply total_try
        | |- total (map_err _ _) => apply total_map_err
        | |- total (match ?x with _ => _ end) => destruct x
        end ]
    end).

(** A program that never returns an error. *)
Definition infallible {S A} (p : P S A) : Prop :=
  ∀ s r s', run p s = Some (r, s') → is_ok r = true.

Section Infallible.
Context {S : Type}.

Lemma infallible_ret {A} (a : A) : infallible (mret a : P S A).
Proof. by intros s r s' [= <- <-]. Qed.
Lemma infallible_bind {A B} (p : P S A) (k : A → P S B) :
  infallible p → (∀ a, infallible (k a)) → infallible (p ≫= k).
Proof.
  intros Hp Hk s r s' E. apply run_bind_inv in E as [(a & s1 & _ & E)|(e & E & ->)].
  - by eapply Hk.
  - by apply Hp in E.
Qed.
Lemma infallible_atomic {A} (m : M S A) : (∀ s, is_ok (m s).1 = true) → infallible (atomic m).
Proof. intros Hm s r s' E. rewrite run_atomic in E. injection E as E. specialize (Hm s). by rewrite E in Hm. Qed.
Lemma infallible_try {A} (p : P S A) : infallible (try p).
Proof. intros s r s'. rewrite run_try. destruct (run p s) as [[]|]; naive_solver. Qed.
End Infallible.

(** ** Concurrent semantics

    A pool of programs shares one state; any enabled program takes the next
    step; a forked child joins the pool. *)

Inductive pool_step {S} : list (prog S unit) * S → list (prog S unit) * S → Prop :=
  | pool_step_at ps s i X (f : S → option (X * S)) k x s' :
      ps !! i = Some (Step f k) →
      f s = Some (x, s') →
      pool_step (ps, s) (<[i := k x]> ps, s')
  | pool_step_fork ps s i child k :
      ps !! i = Some (Fork child k) →
      pool_step (ps, s) (<[i := k]> ps ++ [child], s).

(** One schedule, executed: the index of the program that takes each step. *)
Fixpoint exec {S : Type} (schedule : list nat) (ps : list (prog S unit)) (s : S)
    : option (list (prog S unit) * S) :=
  match schedule with
  | [] => Some (ps, s)
  | i :: schedule =>
      match ps !! i with
      | Some (Step f k) =>
          match f s with Some (x, s') => exec schedule (<[i := k x]> ps) s' | None => None end
      | Some (Fork child k) => exec schedule (<[i := k]> ps ++ [child]) s
      | _ => None
      end
  end.

Lemma exec_sound {S} schedule (ps ps' : list (prog S unit)) s s' :
  exec schedule ps s = Some (ps', s') → rtc pool_step (ps, s) (ps', s').
Proof.
  revert ps s; induction schedule as [|i sch IH]; intros ps s E; simpl in E.
  - by simplify_eq.
  - destruct (ps !! i) as [[|X f k|child k]|] eqn:Ei; try done.
    + destruct (f s) as [[x s1]|] eqn:Ef; [|done].
      eapply rtc_l; [by eapply pool_step_at|by apply IH].
    + eapply rtc_l; [by eapply pool_step_fork|by apply IH].
Qed.

Lemma exec_one {S} i (ps ps' : list (prog S unit)) s s' :
  exec [i] ps s = Some (ps', s') → pool_step (ps, s) (ps', s').
Proof.
  simpl. destruct (ps !! i) as [[|X f k|child k]|] eqn:Ei; try done.
  - destruct (f s) as [[x s1]|] eqn:Ef; [|done]. intros [= <- <-]. by eapply pool_step_at.
  - intros [= <- <-]. by eapply pool_step_fork.
Qed.

(** Every atomic action of [p], on every path it can take, preserves [I]. *)
Fixpoint all_steps {S A : Type} (I : S → Prop) (p : prog S A) : Prop :=
  match p with
  | Ret _ => True
  | Step f k =>
      (∀ s x s', I s → f s = Some (x, s') → I s') ∧ (∀ x, all_steps I (k x))
  | Fork child k => all_steps I child ∧ all_steps I k
  end.

(** The same for one atomic action. *)
Definition preserves {S A} (I : S → Prop) (m : M S A) : Prop :=
  ∀ s, I s → I (m s).2.

Create HintDb pres discriminated.

Section AllSteps.
Context {S : Type} (I : S → Prop).

Lemma all_steps_prog_bind {A B} (p : prog S A) (k : A → prog S B) :
  all_steps I p → (∀ a, all_steps I (k a)) → all_steps I (prog_bind p k).
Proof.
  intros Hp Hk; induction p as [A a|A X f c IH|A child _ c IH]; simpl in *; [done| |].
  - destruct Hp as [Hf Hc]; split; [done|]. auto.
  - destruct Hp as [Hch Hc]; auto.
Qed.

Lemma all_steps_forget {A} (p : prog S A) : all_steps I p → all_steps I (forget p).
Proof. intros Hp. by apply all_steps_prog_bind. Qed.

Lemma all_steps_bind {A B} (p : P S A) (k : A → P S B) :
  all_steps I p → (∀ a, all_steps I (k a)) → all_steps I (p ≫= k).
Proof. intros Hp Hk. apply all_steps_prog_bind; [done|]. by intros [a|e]. Qed.

Lemma all_steps_ret {A} (a : A) : all_steps I (mret a : P S A).
Proof. done. Qed.
Lemma all_steps_throw {A} e : all_steps I (throw e : P S A).
Proof. done. Qed.
Lemma all_steps_try {A} (p : P S A) : all_steps I p → all_steps I (try p).
Proof. intros Hp. by apply all_steps_prog_bind. Qed.

Lemma all_steps_atomic {A} (m : M S A) : preserves I m → all_steps I (atomic m).
Proof.
  intros Hm; split; [|done]. intros s x s' HI [= E].
  specialize (Hm s HI). by rewrite E in Hm.
Qed.

Lemma all_steps_blocking {A} (f : S → option (A * S)) :
  (∀ s a s', I s → f s = Some (a, s') → I s') → all_steps I (blocking f).
Proof. by intros Hf; split. Qed.

Lemma all_steps_go {A} (p : P S A) : all_steps I p → all_steps I (go p).
Proof. intros Hp. split; [by apply all_steps_forget|done]. Qed.

Lemma all_steps_defer {A} d (p : P S A) :
  all_steps I d → all_steps I p → all_steps I (defer d p).
Proof.
  intros Hd Hp. apply all_steps_bind; [by apply all_steps_try|]. intros r.
  apply all_steps_bind; [done|]. by intros _; destruct r.
Qed.

Lemma all_steps_map_err {A} f (p : P S A) : all_steps I p → all_steps I (map_err f p).
Proof. intros Hp. apply all_steps_bind; [by apply all_steps_try|]. by intros [a|e]. Qed.

Lemma all_steps_for_each {A} (f : A → P S unit) l :
  (∀ a, all_steps I (f a)) → all_steps I (for_each f l).
Proof. intros Hf; induction l as [|a l IH]; [done|]. by apply all_steps_bind. Qed.

Lemma preserves_ret {A} (a : A) : preserves I (mret a : M S A).
Proof. intros s HI; apply HI. Qed.
Lemma preserves_throw {A} e : preserves I (throw e : M S A).
Proof. intros s HI; apply HI. Qed.
Lemma preserves_bind {A B} (m : M S A) (k : A → M S B) :
  preserves I m → (∀ a, preserves I (k a)) → preserves I (m ≫= k).
Proof.
  intros Hm Hk s HI. specialize (Hm s HI). rewrite M_bind_eq.
  destruct (m s) as [[a|e] s']; [by apply Hk|done].
Qed.
Lemma preserves_try {A} (m : M S A) : preserves I m → preserves I (try m).
Proof. intros Hm s HI. specialize (Hm s HI). simpl; unfold M_try. by destruct (m s). Qed.
Lemma preserves_map_err {A} f (m : M S A) : preserves I m → preserves I (map_err f m).
Proof.
  intros Hm. apply preserves_bind; [by apply preserves_try|].
  intros [a|e]; [apply preserves_ret|apply preserves_throw].
Qed.
Lemma preserves_gets {A} (f : S → A) : preserves I (gets f).
Proof. intros s HI; apply HI. Qed.
Lemma preserves_for_each {A} (f : A → M S unit) l :
  (∀ a, preserves I (f a)) → preserves I (for_each f l).
Proof. intros Hf; induction l as [|a l IH]; [apply preserves_ret|]. by apply preserves_bind. Qed.

(** A sequential run of a program whose steps preserve [I] ends in [I]. *)
Lemma all_steps_run {A} (p : prog S A) s a s' :
  all_steps I p → I s → run p s = Some (a, s') → I s'.
Proof.
  revert s a s'; induction p as [A b|A X f k IH|A child IHc k IH]; intros s a s' Hp HI E; simpl in *.
  - by simplify_eq.
  - destruct Hp as [Hf Hk]. destruct (f s) as [[x s1]|] eqn:Ef; [|done].
    eapply IH; [apply Hk|eapply Hf|]; eauto.
  - destruct Hp as [Hc Hk]. destruct (run child s) as [[? s1]|] eqn:Ec; [|done]. eauto.
Qed.

(** So does every interleaving of any number of such programs. *)
Lemma all_steps_pool (ps ps' : list (prog S unit)) s s' :
  Forall (all_steps I) ps → I s → rtc pool_step (ps, s) (ps', s') →
  I s' ∧ Forall (all_steps I) ps'.
Proof.
  intros Hps HI Hr.
  remember (ps, s) as c eqn:Ec; remember (ps', s') as c' eqn:Ec'.
  revert ps s Hps HI Ec; induction Hr as [|x y z Hstep Hr IH]; intros ps s Hps HI Ec.
  - subst; by simplify_eq.
  - subst. inversion Hstep as [ps0 s0 i X f k v s1 Hi Hf|ps0 s0 i child k Hi]; subst.
    + pose proof (Forall_lookup_1 _ _ _ _ Hps Hi) as [Hpf Hpk].
      eapply IH; [done| |by eapply Hpf|done]. apply Forall_insert; [done|apply Hpk].
    + pose proof (Forall_lookup_1 _ _ _ _ Hps Hi) as [Hc Hk].
      eapply IH; [done| |done|done]. apply Forall_app; split; [by apply Forall_insert|].
      by apply Forall_singleton.
Qed.
End AllSteps.

#[export] Hint Resolve all_steps_ret all_steps_throw all_steps_try all_steps_atomic
  all_steps_map_err all_steps_for_each all_steps_forget all_steps_go all_steps_defer preserves_ret preserves_throw preserves_try
  preserves_map_err preserves_gets preserves_for_each : pres.

(** Walk through a program, leaving the goals about its atomic actions that the
    [pres] database does not close. *)
Ltac steps_one :=
  intros;
  lazymatch goal with
  | |- all_steps _ (Ret _) => exact I
  | |- all_steps _ (mret _) => apply all_steps_ret
  | |- all_steps _ (throw _) => apply all_steps_throw
  | _ => first
    [ solve [auto 3 with pres]
    | lazymatch goal with
      | |- all_steps _ (_ ≫= _) => apply all_steps_bind
      | |- all_steps _ (try _) => apply all_steps_try
      | |- all_steps _ (map_err _ _) => apply all_steps_map_err
      | |- all_steps _ (defer _ _) => apply all_steps_defer
      | |- all_steps _ (go _) => apply all_steps_go
      | |- all_steps _ (forget _) => apply all_steps_forget
      | |- all_steps _ (for_each _ _) => apply all_steps_for_each
      | |- all_steps _ (atomic _) => apply all_steps_atomic
      | |- all_steps _ (match ?x with _ => _ end) => destruct x
      | |- preserves _ (mret _) => apply preserves_ret
      | |- preserves _ (throw _) => apply preserves_throw
      | |- preserves _ (_ ≫= _) => apply preserves_bind
      | |- preserves _ (try _) => apply preserves_try
      | |- preserves _ (map_err _ _) => apply preserves_map_err
      | |- preserves _ (for_each _ _) => apply preserves_for_each
      | |- preserves _ (match ?x with _ => _ end) => destruct x
      end ]
  end.
Ltac steps := repeat steps_one; intros.
