(* ===== verification/Interleave.v ===== *)
(** * Reasoning about interleaved programs

    Two readings of "[p] runs while other programs run": as one thread of a pool,
    and alone against an environment that may change the state between any two
    of its steps.  [holds] is the proof rule for both: every thread owns a ghost
    value, and an invariant over the state and the ghosts of all the threads is
    kept by each step of each thread, which may change its own ghost only; the
    step itself satisfies a guarantee relating the states before and after. *)

From S2P Require Import Prelude.

Lemma insert_delete_Permutation {A} (l : list A) i x y :
  l !! i = Some x → <[i:=y]> l ≡ₚ y :: delete i l.
Proof.
  revert i; induction l as [|z l IH]; intros [|i] E; simplify_eq/=; [done|].
  by rewrite (IH i E), Permutation_swap.
Qed.

Section Ghost.
(** [Fin]: what a thread's ghost is once the thread has ended. *)
Context {S G : Type} (Fin : G → Prop) (Inv : list G → S → Prop) (Gua : S → S → Prop).

Fixpoint holds {A : Type} (p : prog S A) (Q : A → G → Prop) (g : G) : Prop :=
  match p with
  | Ret a => Q a g
  | Step f k => ∀ gs s x s', Inv (g :: gs) s → f s = Some (x, s') →
      ∃ g', Inv (g' :: gs) s' ∧ Gua s s' ∧ holds (k x) Q g'
  | Fork child k => ∀ gs s, Inv (g :: gs) s →
      ∃ g' gc, Inv (g' :: gc :: gs) s ∧ holds k Q g' ∧ holds child (λ _, Fin) gc
  end.

Lemma holds_mono {A} (p : prog S A) (Q Q' : A → G → Prop) g :
  holds p Q g → (∀ a g, Q a g → Q' a g) → holds p Q' g.
Proof.
  intros Hp HQ. revert g Hp; induction p as [A a|A X f k IH|A child _ k IH]; intros g Hp; simpl in *.
  - by apply HQ.
  - intros gs s x s' HI E. destruct (Hp gs s x s' HI E) as (g' & HI' & Hg & Hk). exists g'. eauto.
  - intros gs s HI. destruct (Hp gs s HI) as (g' & gc & HI' & Hk & Hc). exists g', gc. eauto.
Qed.

Lemma holds_prog_bind {A B} (p : prog S A) (k : A → prog S B) (Q : B → G → Prop) g :
  holds p (λ a g, holds (k a) Q g) g → holds (prog_bind p k) Q g.
Proof.
  revert g; induction p as [A a|A X f c IH|A child _ c IH]; intros g Hp; simpl in *; [done| |].
  - intros gs s x s' HI E. destruct (Hp gs s x s' HI E) as (g' & HI' & Hg & Hk). exists g'. eauto.
  - intros gs s HI. destruct (Hp gs s HI) as (g' & gc & HI' & Hk & Hc). exists g', gc. eauto.
Qed.

(** A ghost that promises more. *)
Lemma holds_weaken {A} (p : prog S A) (Q : A → G → Prop) g g' :
  holds p Q g → (∀ a, Q a g → Q a g') → (∀ gs s, Inv (g' :: gs) s → Inv (g :: gs) s) → holds p Q g'.
Proof. destruct p; simpl; intros Hp HQ HI; [auto|intros gs s x s' Hi; eauto|intros gs s Hi; eauto]. Qed.

Lemma holds_ret {A} (a : A) (Q : res A → G → Prop) g : Q (Ok a) g → holds (mret a : P S A) Q g.
Proof. done. Qed.
Lemma holds_throw {A} e (Q : res A → G → Prop) g : Q (Err e) g → holds (throw e : P S A) Q g.
Proof. done. Qed.

(** One action: the invariant is restored for some new ghost of the thread. *)
Lemma holds_atomic {A} (m : M S A) (Q : res A → G → Prop) g :
  (∀ gs s, Inv (g :: gs) s →
    ∃ g', Inv (g' :: gs) (m s).2 ∧ Gua s (m s).2 ∧ Q (m s).1 g') → holds (atomic m) Q g.
Proof. intros Hm gs s x s' HI [= E]. specialize (Hm gs s HI). by rewrite E in Hm. Qed.

Lemma holds_blocking {A} (f : S → option (A * S)) (Q : res A → G → Prop) g :
  (∀ gs s a s', Inv (g :: gs) s → f s = Some (a, s') →
    ∃ g', Inv (g' :: gs) s' ∧ Gua s s' ∧ Q (Ok a) g') → holds (blocking f) Q g.
Proof. intros Hf gs s x s' HI E. exact (Hf gs s x s' HI E). Qed.

Lemma holds_bind {A B} (p : P S A) (k : A → P S B) (Q : res B → G → Prop) g :
  holds p (λ r g, match r with Ok a => holds (k a) Q g | Err e => Q (Err e) g end) g →
  holds (p ≫= k) Q g.
Proof. intros Hp. apply holds_prog_bind. eapply holds_mono; [exact Hp|]. by intros [a|e] g'. Qed.

Lemma holds_try {A} (p : P S A) (Q : res (res A) → G → Prop) g :
  holds p (λ r, Q (Ok r)) g → holds (try p) Q g.
Proof. intros Hp. apply holds_prog_bind. exact Hp. Qed.

Lemma holds_map_err {A} f (p : P S A) (Q : res A → G → Prop) g :
  holds p (λ r g, Q (match r with Ok a => Ok a | Err e => Err (f e) end) g) g →
  holds (map_err f p) Q g.
Proof.
  intros Hp. apply holds_bind, holds_try. eapply holds_mono; [exact Hp|]. by intros [a|e] g'.
Qed.

Lemma holds_forget {A} (p : prog S A) g : holds p (λ _, Fin) g → holds (forget p) (λ _, Fin) g.
Proof. intros Hp. by apply holds_prog_bind. Qed.

Lemma holds_defer {A} (d : P S unit) (p : P S A) (Q : res A → G → Prop) g :
  holds p (λ r g, holds d (λ rd g,
    match rd with Ok _ => Q r g | Err e => Q (Err e) g end) g) g →
  holds (defer d p) Q g.
Proof.
  intros Hp. apply holds_bind, holds_try. eapply holds_mono; [exact Hp|].
  intros r g' Hd. apply holds_bind. eapply holds_mono; [exact Hd|].
  intros [u|e] g''; destruct r; done.
Qed.

(** Every interleaving of the threads of a pool keeps the invariant, whatever
    order the ghosts are listed in. *)
Context (Inv_perm : ∀ gs gs' s, gs ≡ₚ gs' → Inv gs s → Inv gs' s).

Lemma holds_pool_step ps gs s ps' s' :
  Forall2 (λ p g, holds p (λ _, Fin) g) ps gs → Inv gs s → pool_step (ps, s) (ps', s') →
  ∃ gs', Forall2 (λ p g, holds p (λ _, Fin) g) ps' gs' ∧ Inv gs' s' ∧ (s = s' ∨ Gua s s').
Proof.
  intros Hps HI Hst. inversion Hst as [ps0 s0 i X f k x s1 Hi Hf|ps0 s0 i child k Hi]; subst.
  - destruct (Forall2_lookup_l _ _ _ _ _ Hps Hi) as (g & Hg & Hp).
    destruct (Hp (delete i gs) s x s' (Inv_perm _ _ _ (delete_Permutation _ _ _ Hg) HI) Hf)
      as (g' & HI' & HG & Hk).
    exists (<[i:=g']> gs). split_and!; [by apply Forall2_insert| |by right].
    eapply Inv_perm, HI'. symmetry. by eapply insert_delete_Permutation.
  - destruct (Forall2_lookup_l _ _ _ _ _ Hps Hi) as (g & Hg & Hp).
    destruct (Hp (delete i gs) s' (Inv_perm _ _ _ (delete_Permutation _ _ _ Hg) HI))
      as (g' & gc & HI' & Hk & Hc).
    exists (<[i:=g']> gs ++ [gc]). split_and!; [| |by left].
    { apply Forall2_app; [by apply Forall2_insert|]. by constructor. }
    eapply Inv_perm, HI'. symmetry.
    by rewrite (insert_delete_Permutation _ _ _ _ Hg), <- Permutation_cons_append, Permutation_swap.
Qed.

Lemma holds_pool ps gs s ps' s' :
  Forall2 (λ p g, holds p (λ _, Fin) g) ps gs → Inv gs s → rtc pool_step (ps, s) (ps', s') →
  ∃ gs', Forall2 (λ p g, holds p (λ _, Fin) g) ps' gs' ∧ Inv gs' s' ∧ rtc Gua s s'.
Proof.
  intros Hps HI Hr. remember (ps, s) as c eqn:Ec; remember (ps', s') as c' eqn:Ec'.
  revert ps gs s Hps HI Ec; induction Hr as [|x [ps1 s1] z Hst Hr IH]; intros ps gs s Hps HI Ec.
  - subst; simplify_eq. exists gs. by split_and!.
  - subst. destruct (holds_pool_step _ _ _ _ _ Hps HI Hst) as (gs1 & Hps1 & HI1 & HG1).
    destruct (IH eq_refl _ _ _ Hps1 HI1 eq_refl) as (gs2 & Hps2 & HI2 & HG2).
    exists gs2. split_and!; [done..|]. destruct HG1 as [->|]; [done|]. by eapply rtc_l.
Qed.

(** Once every thread has ended, every ghost is a final one. *)
Lemma holds_ended ps gs :
  Forall2 (λ p g, holds p (λ _, Fin) g) ps gs → Forall (λ p, p = Ret tt) ps → Forall Fin gs.
Proof. intros Hps. induction Hps as [|p g ps gs Hp _ IH]; intros H; inv H; constructor; auto. Qed.
End Ghost.

(** ** Without ghosts: an invariant of the state and a postcondition *)

Section Safe.
Context {S : Type} (I : S → Prop).

Definition safe {A} (p : prog S A) (Q : A → Prop) : Prop :=
  holds (λ _ : unit, True) (λ _ : list unit, I) (λ _ _, True) p (λ a _, Q a) tt.

Lemma safe_mono {A} (p : prog S A) (Q Q' : A → Prop) :
  safe p Q → (∀ a, Q a → Q' a) → safe p Q'.
Proof. intros Hp HQ. eapply holds_mono; [exact Hp|]. auto. Qed.

Lemma safe_ret {A} (a : A) (Q : res A → Prop) : Q (Ok a) → safe (mret a : P S A) Q.
Proof. done. Qed.
Lemma safe_throw {A} e (Q : res A → Prop) : Q (Err e) → safe (throw e : P S A) Q.
Proof. done. Qed.

Lemma safe_step {A} (f : S → option (A * S)) (Q : res A → Prop) :
  (∀ s a s', I s → f s = Some (a, s') → I s' ∧ Q (Ok a)) → safe (blocking f) Q.
Proof. intros Hf gs s x s' HI E. exists tt. destruct (Hf s x s' HI E). done. Qed.

Lemma safe_atomic {A} (m : M S A) (Q : res A → Prop) :
  (∀ s, I s → I (m s).2 ∧ Q (m s).1) → safe (atomic m) Q.
Proof.
  intros Hm gs s x s' HI [= E]. exists tt. specialize (Hm s HI). rewrite E in Hm. by destruct Hm.
Qed.

Lemma safe_bind {A B} (p : P S A) (k : A → P S B) (Q : res B → Prop) :
  safe p (λ r, match r with Ok a => safe (k a) Q | Err e => Q (Err e) end) → safe (p ≫= k) Q.
Proof.
  intros Hp. apply holds_bind. eapply holds_mono; [exact Hp|]. by intros [a|e] [].
Qed.
Lemma safe_try {A} (p : P S A) (Q : res (res A) → Prop) : safe p (λ r, Q (Ok r)) → safe (try p) Q.
Proof. intros Hp. by apply holds_try. Qed.
Lemma safe_map_err {A} f (p : P S A) (Q : res A → Prop) :
  safe p (λ r, Q (match r with Ok a => Ok a | Err e => Err (f e) end)) → safe (map_err f p) Q.
Proof. intros Hp. by apply holds_map_err. Qed.

Lemma safe_defer {A} (d : P S unit) (p : P S A) (Q : res A → Prop) :
  safe p (λ r, safe d (λ rd, match rd with Ok _ => Q r | Err e => Q (Err e) end)) → safe (defer d p) Q.
Proof. intros Hp. apply holds_defer. eapply holds_mono; [exact Hp|]. by intros r []. Qed.

Lemma safe_forget {A} (p : prog S A) Q : safe p Q → safe (forget p) (λ _, True).
Proof. intros Hp. apply (holds_forget (λ _ : unit, True)). eapply holds_mono; [exact Hp|done]. Qed.

(** A program whose every action keeps [I] is safe. *)
Lemma all_steps_safe {A} (p : prog S A) : all_steps I p → safe p (λ _, True).
Proof.
  unfold safe. induction p as [A a|A X f k IH|A child IHc k IH]; simpl; [done| |].
  - intros [Hf Hk] gs s x s' HI E. exists tt. eauto.
  - intros [Hc Hk] gs s HI. exists tt, tt. split_and!; auto.
Qed.

Lemma safe_pool (ps ps' : list (prog S unit)) s s' :
  Forall (λ p, safe p (λ _, True)) ps → I s → rtc pool_step (ps, s) (ps', s') → I s'.
Proof.
  intros Hps HI Hr.
  destruct (holds_pool (λ _ : unit, True) (λ _ : list unit, I) (λ _ _, True) (λ _ _ _ _ H, H) ps (replicate (length ps) tt) s ps' s')
    as (gs' & _ & HI' & _); [|done|done|done].
  clear Hr. induction Hps; simpl; by constructor.
Qed.

Lemma safe_run {A} (p : prog S A) (Q : A → Prop) s a s' :
  safe p Q → I s → run p s = Some (a, s') → I s' ∧ Q a.
Proof.
  unfold safe. revert s a s' Q; induction p as [A b|A X f k IH|A child IHc k IH];
    intros s a s' Q Hp HI E; simpl in *.
  - by simplify_eq.
  - destruct (f s) as [[x s1]|] eqn:Ef; [|done].
    destruct (Hp [] s x s1 HI Ef) as ([] & HI1 & _ & Hk). eauto.
  - destruct (run child s) as [[u s1]|] eqn:Ec; [|done].
    destruct (Hp [] s HI) as ([] & [] & _ & Hk & Hc).
    destruct (IHc _ _ _ _ Hc HI Ec) as [HI1 _]. eauto.
Qed.
End Safe.

(** ** Steps that satisfy a relation *)

Section Respects.
Context {S : Type} (I : S → Prop) (R : S → S → Prop).

(** From a state in [I], the action stays in [I] and moves along [R]. *)
Definition respects {A} (m : M S A) : Prop := ∀ s, I s → I (m s).2 ∧ R s (m s).2.

(** So does every step of the program. *)
Definition all_respect {A} (p : prog S A) : Prop :=
  holds (λ _ : unit, True) (λ _ : list unit, I) R p (λ _ _, True) tt.

Lemma all_respect_ret {A} (a : A) : all_respect (mret a : P S A).
Proof. done. Qed.
Lemma all_respect_throw {A} e : all_respect (throw e : P S A).
Proof. done. Qed.
Lemma all_respect_bind {A B} (p : P S A) (k : A → P S B) :
  all_respect p → (∀ a, all_respect (k a)) → all_respect (p ≫= k).
Proof.
  intros Hp Hk. apply holds_bind. eapply holds_mono; [exact Hp|].
  intros [a|e] [] _; [apply Hk|done].
Qed.
Lemma all_respect_try {A} (p : P S A) : all_respect p → all_respect (try p).
Proof. intros Hp. apply holds_try. eapply holds_mono; [exact Hp|done]. Qed.
Lemma all_respect_map_err {A} f (p : P S A) : all_respect p → all_respect (map_err f p).
Proof. intros Hp. apply holds_map_err. eapply holds_mono; [exact Hp|done]. Qed.
Lemma all_respect_forget {A} (p : prog S A) : all_respect p → all_respect (forget p).
Proof. intros Hp. apply (holds_forget (λ _ : unit, True)). eapply holds_mono; [exact Hp|done]. Qed.
Lemma all_respect_atomic {A} (m : M S A) : respects m → all_respect (atomic m).
Proof. intros Hm. apply holds_atomic. intros gs s HI. exists tt. destruct (Hm s HI). done. Qed.

Lemma all_respect_blocking {A} (f : S → option (A * S)) :
  (∀ s a s', I s → f s = Some (a, s') → I s' ∧ R s s') → all_respect (blocking f).
Proof. intros Hf. apply holds_blocking. intros gs s a s' HI E. exists tt. destruct (Hf s a s' HI E). done. Qed.
Lemma all_respect_defer {A} (d : P S unit) (p : P S A) :
  all_respect d → all_respect p → all_respect (defer d p).
Proof.
  intros Hd Hp. apply all_respect_bind; [by apply all_respect_try|]. intros r.
  apply all_respect_bind; [done|]. intros _. by destruct r.
Qed.

Lemma all_respect_weaken (R' : S → S → Prop) {A} (p : prog S A) :
  (∀ s s', I s → R' s s' → R s s') → holds (λ _ : unit, True) (λ _ : list unit, I) R' p (λ _ _, True) tt → all_respect p.
Proof.
  unfold all_respect. intros HR. induction p as [A a|A X f k IH|A child IHc k IH]; intros Hp; [done| |].
  - intros gs s x s' HI E. destruct (Hp gs s x s' HI E) as ([] & HI' & HR' & Hk). exists tt. eauto.
  - intros gs s HI. destruct (Hp gs s HI) as ([] & [] & HI' & Hk & Hc). exists tt, tt. eauto.
Qed.

(** A program whose actions keep a relation to any earlier state. *)
Lemma all_steps_respect `{!Reflexive R} {A} (p : prog S A) :
  (∀ s s', I s → R s s' → I s') → (∀ s0, all_steps (R s0) p) → all_respect p.
Proof.
  unfold all_respect. intros HIR. induction p as [A a|A X f k IH|A child IHc k IH]; intros Hp; [done| |].
  - intros gs s x s' HI E. exists tt.
    assert (R s s') as HR by (eapply (proj1 (Hp s)); [reflexivity|exact E]).
    split_and!; [by eapply HIR|done|]. apply IH. intros s0. by apply Hp.
  - intros gs s HI. exists tt, tt. split_and!; [done|apply IH|apply IHc]; intros s0; by apply Hp.
Qed.

(** In a pool of such programs [I] holds throughout and every step that changes
    the state moves along [R]. *)
Lemma all_respect_pool (ps ps1 ps2 : list (prog S unit)) s s1 s2 :
  Forall all_respect ps → I s → rtc pool_step (ps, s) (ps1, s1) → pool_step (ps1, s1) (ps2, s2) →
  I s2 ∧ (s1 = s2 ∨ R s1 s2).
Proof.
  intros Hps HI Hr Hst.
  destruct (holds_pool (λ _ : unit, True) (λ _ : list unit, I) R (λ _ _ _ _ H, H) ps (replicate (length ps) tt) s ps1 s1)
    as (gs1 & Hps1 & HI1 & _); [|done|done|].
  { clear -Hps. induction Hps; simpl; by constructor. }
  destruct (holds_pool_step (λ _ : unit, True) (λ _ : list unit, I) R (λ _ _ _ _ H, H) _ _ _ _ _ Hps1 HI1 Hst)
    as (gs2 & _ & HI2 & HR). done.
Qed.
End Respects.

(** A program whose steps move along [R] keeps any ghost invariant that [R] keeps. *)
Lemma holds_frame {S G A} (Fin : G → Prop) (Inv : list G → S → Prop) (Gua R : S → S → Prop) (g0 : G)
    (p : prog S A) g :
  all_respect (λ _, True) R p →
  (∀ gs s s', Inv gs s → R s s' → Inv gs s' ∧ Gua s s') →
  (∀ gs s g1, Inv (g1 :: gs) s → Inv (g1 :: g0 :: gs) s) → Fin g0 →
  holds Fin Inv Gua p (λ _ g', g' = g) g.
Proof.
  intros Hp HR H0 HF. revert g.
  assert (∀ (B : Type) (q : prog S B) g (Q : B → G → Prop), all_respect (λ _, True) R q →
    (∀ b, Q b g) → holds Fin Inv Gua q Q g) as Hall.
  { clear p Hp. intros B q. induction q as [B b|B X f k IH|B child IHc k IH]; intros g Q Hq HQ; [by apply HQ| |].
    - intros gs s x s' HI E. destruct (Hq [] s x s' Logic.I E) as ([] & _ & HRs & Hk).
      exists g. destruct (HR _ _ _ HI HRs) as [HI' HG]. split_and!; [done..|]. by apply IH.
    - intros gs s HI. destruct (Hq [] s Logic.I) as ([] & [] & _ & Hk & Hc).
      exists g, g0. split_and!; [by apply H0|by apply IH|by apply IHc]. }
  intros g. by apply Hall.
Qed.

Create HintDb resp discriminated.
#[export] Hint Resolve all_respect_ret all_respect_throw : resp.

(** Walk through a program, leaving the goals about its actions. *)
Ltac respects_one :=
  intros;
  lazymatch goal with
  | |- all_respect _ _ (mret _) => apply all_respect_ret
  | |- all_respect _ _ (throw _) => apply all_respect_throw
  | _ => first
    [ solve [auto 3 with resp]
    | lazymatch goal with
      | |- all_respect _ _ (_ ≫= _) => apply all_respect_bind
      | |- all_respect _ _ (try _) => apply all_respect_try
      | |- all_respect _ _ (map_err _ _) => apply all_respect_map_err
      | |- all_respect _ _ (forget _) => apply all_respect_forget
      | |- all_respect _ _ (defer _ _) => apply all_respect_defer
      | |- all_respect _ _ (atomic _) => apply all_respect_atomic
      | |- all_respect _ _ (match ?x with _ => _ end) => destruct x
      end ]
  end.
Ltac respect := repeat respects_one; intros.

(** ** One program against an environment

    [amid E p s a s']: [p], started in [s], returns [a] in [s'], when before each
    of its steps the rest of the system may move the state along [E] (its own
    forked children are part of that rest). *)
Inductive amid {S A : Type} (E : S → S → Prop) : prog S A → S → A → S → Prop :=
  | amid_ret a s : amid E (Ret a) s a s
  | amid_env p s s1 a s' : E s s1 → amid E p s1 a s' → amid E p s a s'
  | amid_step X (f : S → option (X * S)) k s x s1 a s' :
      f s = Some (x, s1) → amid E (k x) s1 a s' → amid E (Step f k) s a s'
  | amid_fork child k s a s' : amid E k s a s' → amid E (Fork child k) s a s'.

Lemma safe_amid {S A} (I : S → Prop) (E : S → S → Prop) (p : prog S A) (Q : A → Prop) s a s' :
  safe I p Q → (∀ s s', I s → E s s' → I s') → I s → amid E p s a s' → I s' ∧ Q a.
Proof.
  unfold safe. intros Hp HE HI Hr. induction Hr as [a s|p s s1 a s' He Hr IH|X f k s x s1 a s' Hf Hr IH|child k s a s' Hr IH]; simpl in *.
  - done.
  - apply IH; [done|]. by eapply HE.
  - destruct (Hp [] s x s1 HI Hf) as ([] & HI1 & _ & Hk). auto.
  - destruct (Hp [] s HI) as ([] & [] & _ & Hk & _). auto.
Qed.

(** A ghost invariant that the rest of the system keeps holds along the run; a child is
    among the rest once it is forked. *)
Lemma holds_amid {S G A} (Fin : G → Prop) (Inv : list G → S → Prop) (Gua E : S → S → Prop) (p : prog S A)
    (Q : A → G → Prop) g s a s' :
  (∀ gs s s1, Inv gs s → E s s1 → Inv gs s1) → (∀ g gc s, Inv [g; gc] s → Inv [g] s) →
  holds Fin Inv Gua p Q g → Inv [g] s → amid E p s a s' → ∃ g', Inv [g'] s' ∧ Q a g'.
Proof.
  intros HE Hdrop Hp HI Hr. revert g Hp HI.
  induction Hr as [a s|p s s1 a s' He Hr IH|X f k s x s1 a s' Hf Hr IH|child k s a s' Hr IH]; intros g Hp HI; simpl in *.
  - eauto.
  - eapply IH; [done|]. by eapply HE.
  - destruct (Hp [] s x s1 HI Hf) as (g' & HI1 & _ & Hk). eauto.
  - destruct (Hp [] s HI) as (g' & gc & HI' & Hk & _). eauto.
Qed.

(** The next step of a disturbed program, and its end. *)
Lemma amid_inv {S A} (E : S → S → Prop) (p : prog S A) s a s' :
  amid E p s a s' →
  match p with
  | Ret b => a = b ∧ rtc E s s'
  | Step f k => ∃ s1 x s2, rtc E s s1 ∧ f s1 = Some (x, s2) ∧ amid E (k x) s2 a s'
  | Fork child k => ∃ s1, rtc E s s1 ∧ amid E k s1 a s'
  end.
Proof.
  induction 1 as [a s|p s s1 a s' He Hr IH|X f k s x s1 a s' Hf Hr IH|child k s a s' Hr IH].
  - done.
  - destruct p as [b|X f k|child k].
    + destruct IH as [-> IH]. split; [done|by eapply rtc_l].
    + destruct IH as (s2 & x & s3 & H1 & H2 & H3). exists s2, x, s3. split_and!; [by eapply rtc_l|done..].
    + destruct IH as (s2 & H1 & H2). exists s2. split; [by eapply rtc_l|done].
  - exists s. eauto using rtc_refl.
  - exists s. eauto using rtc_refl.
Qed.

(** Running a program that starts no other, undisturbed. *)
Fixpoint solo {S A : Type} (p : prog S A) (s : S) : option (A * S) :=
  match p with
  | Ret a => Some (a, s)
  | Step f k => match f s with Some (x, s') => solo (k x) s' | None => None end
  | Fork _ _ => None
  end.

Lemma solo_amid {S A} (E : S → S → Prop) (p : prog S A) s a s' :
  solo p s = Some (a, s') → amid E p s a s'.
Proof.
  revert s; induction p as [A b|A X f k IH|A child _ k _]; intros s; simpl; [|..|done].
  - intros [= <- <-]. constructor.
  - destruct (f s) as [[x s1]|] eqn:Ef; [|done]. intros Hr. econstructor; [exact Ef|auto].
Qed.

Lemma solo_prog_bind {S A B} (p : prog S A) (k : A → prog S B) w :
  solo (prog_bind p k) w = match solo p w with Some (a, w') => solo (k a) w' | None => None end.
Proof.
  revert k w; induction p as [A r|A X f c IH|A child _ c _]; intros k w; simpl; [done| |done].
  destruct (f w) as [[x w']|]; [apply IH|done].
Qed.
Lemma solo_bind {S A B} (p : P S A) (k : A → P S B) w :
  solo (p ≫= k) w = match solo p w with
                    | Some (Ok a, w') => solo (k a) w'
                    | Some (Err e, w') => Some (Err e, w')
                    | None => None
                    end.
Proof. unfold mbind, P_bind. rewrite solo_prog_bind. by destruct (solo p w) as [[[a|e] w']|]. Qed.
Lemma solo_try {S A} (p : P S A) w :
  solo (try p) w = match solo p w with Some (r, w') => Some (Ok r, w') | None => None end.
Proof. unfold try, P_err, P_try. by rewrite solo_prog_bind. Qed.
Lemma solo_map_err {S A} f (p : P S A) w :
  solo (map_err f p) w = match solo p w with
                         | Some (Ok a, w') => Some (Ok a, w')
                         | Some (Err e, w') => Some (Err (f e), w')
                         | None => None
                         end.
Proof. unfold map_err. rewrite solo_bind, solo_try. by destruct (solo p w) as [[[a|e] w']|]. Qed.
Lemma solo_atomic {S A} (m : M S A) w : solo (atomic m) w = Some (m w).
Proof. unfold atomic. simpl. by destruct (m w). Qed.

(** ** Inverting a disturbed run *)

Lemma amid_rtc {S A} (E : S → S → Prop) (p : prog S A) s s1 a s' : rtc E s s1 → amid E p s1 a s' → amid E p s a s'.
Proof. induction 1; [done|]. intros. econstructor; eauto. Qed.
Lemma amid_prog_bind {S A B} (E : S → S → Prop) (p : prog S A) (k : A → prog S B) s b s' :
  amid E (prog_bind p k) s b s' → ∃ a s1, amid E p s a s1 ∧ amid E (k a) s1 b s'.
Proof.
  revert k s; induction p as [A a|A X f c IH|A child _ c IH]; intros k s; cbn [prog_bind].
  - intros Hr. exists a, s. by split; [constructor|].
  - intros (s1 & x & s2 & He & Hf & (a & s3 & H1 & H2)%IH)%amid_inv. exists a, s3.
    split; [|done]. eapply amid_rtc; [exact He|]. by econstructor.
  - intros (s1 & He & (a & s3 & H1 & H2)%IH)%amid_inv. exists a, s3.
    split; [|done]. eapply amid_rtc; [exact He|]. by econstructor.
Qed.
Lemma amid_bind {S A B} (E : S → S → Prop) (p : P S A) (k : A → P S B) s r s' :
  amid E (p ≫= k) s r s' →
  ∃ a s1, amid E p s a s1 ∧
    match a with Ok a => amid E (k a) s1 r s' | Err e => r = Err e ∧ rtc E s1 s' end.
Proof.
  intros (a & s1 & Hp & Hk)%amid_prog_bind. exists a, s1. split; [done|].
  destruct a as [a|e]; [done|]. by apply amid_inv in Hk as [-> ?].
Qed.
Lemma amid_try {S A} (E : S → S → Prop) (p : P S A) s r s' :
  amid E (try p) s r s' → ∃ a s1, amid E p s a s1 ∧ r = Ok a ∧ rtc E s1 s'.
Proof. intros (a & s1 & Hp & [-> ?]%amid_inv)%amid_prog_bind. eauto. Qed.
Lemma amid_map_err {S A} (E : S → S → Prop) f (p : P S A) s r s' :
  amid E (map_err f p) s r s' →
  ∃ a s1, amid E p s a s1 ∧ r = match a with Ok a => Ok a | Err e => Err (f e) end ∧ rtc E s1 s'.
Proof.
  intros (x & s1 & (a & s0 & Hp & -> & H0)%amid_try & Hk)%amid_bind. exists a, s0. split; [done|].
  destruct a as [a|e]; apply amid_inv in Hk as [-> ?]; (split; [done|]); by etrans.
Qed.
Lemma amid_atomic {S A} (E : S → S → Prop) (m : M S A) s r s' :
  amid E (atomic m) s r s' → ∃ s1 s2, rtc E s s1 ∧ m s1 = (r, s2) ∧ rtc E s2 s'.
Proof. intros (s1 & x & s2 & H1 & [= H2] & [-> H3]%amid_inv)%amid_inv. eauto. Qed.

(** A thread that has ended, decidably. *)
Definition ended {St} (p : prog St unit) : bool := match p with Ret _ => true | _ => false end.
Lemma ended_all {St} (ps : list (prog St unit)) : forallb ended ps = true → Forall (λ p, p = Ret tt) ps.
Proof.
  induction ps as [|p ps IH]; simpl; [by constructor|]. intros [Hp Hps]%andb_prop.
  constructor; [|by apply IH]. by destruct p as [[]| |].
Qed.

(** ** What a program ends with, whatever runs beside it *)

Fixpoint ends {S B} (Q : B → Prop) (p : prog S B) : Prop :=
  match p with
  | Ret b => Q b
  | Step f k => ∀ s x s', f s = Some (x, s') → ends Q (k x)
  | Fork _ k => ends Q k
  end.
Lemma ends_prog_bind {S A B} Q (p : prog S A) (k : A → prog S B) : ends (λ a, ends Q (k a)) p → ends Q (prog_bind p k).
Proof. induction p as [A a|A X f c IH|A child _ c IH]; simpl; eauto. Qed.
Lemma ends_mono {S B} (Q Q' : B → Prop) (p : prog S B) : ends Q p → (∀ b, Q b → Q' b) → ends Q' p.
Proof. intros Hp HQ. induction p as [B b|B X f c IH|B child _ c IH]; simpl in *; eauto. Qed.
Lemma holds_ends {S G A} Fin Inv Gua (p : prog S A) Q Q0 (g : G) :
  holds Fin Inv Gua p Q g → ends Q0 p → holds Fin Inv Gua p (λ a g, Q a g ∧ Q0 a) g.
Proof.
  revert g. induction p as [A a|A X f k IH|A child _ k IH]; intros g Hp He; simpl in *; [done| |].
  - intros gs s x s' HI E. destruct (Hp gs s x s' HI E) as (g' & ? & ? & Hk). exists g'. eauto.
  - intros gs s HI. destruct (Hp gs s HI) as (g' & gc & ? & Hk & ?). exists g', gc. eauto.
Qed.
Definition unfailing {S A} (p : P S A) : Prop := ends (λ r, is_ok r = true) p.
Section Unfailing.
Context {S : Type}.
Lemma unfailing_ret {A} (a : A) : unfailing (mret a : P S A).
Proof. done. Qed.
Lemma unfailing_bind {A B} (p : P S A) (k : A → P S B) : unfailing p → (∀ a, unfailing (k a)) → unfailing (p ≫= k).
Proof. intros Hp Hk. apply ends_prog_bind. eapply ends_mono; [exact Hp|]. intros [a|e] E; [apply Hk|done]. Qed.
Lemma unfailing_try {A} (p : P S A) : unfailing (try p).
Proof. apply ends_prog_bind. induction p as [A' a|A' X f c IH|A' child _ c IH]; simpl; eauto. Qed.
Lemma unfailing_gets {A} (f : S → A) : unfailing (atomic (gets f)).
Proof. by intros s x s' [= <- _]. Qed.
Lemma unfailing_modify (f : S → S) : unfailing (atomic (modify f)).
Proof. by intros s x s' [= <- _]. Qed.
Lemma unfailing_blocking {A} (f : S → option (A * S)) : unfailing (blocking f).
Proof. by intros s x s' _. Qed.
Lemma unfailing_go {A} (p : P S A) : unfailing (go p).
Proof. done. Qed.
End Unfailing.

(** ** Letting threads run *)

(** Thread [i] takes at most [n] steps, as far as it gets. *)
Fixpoint advance {S} (n i : nat) (ps : list (prog S unit)) (s : S) : list (prog S unit) * S :=
  match n with
  | 0 => (ps, s)
  | Datatypes.S n =>
      match ps !! i with
      | Some (Step f k) => match f s with Some (x, s') => advance n i (<[i := k x]> ps) s' | None => (ps, s) end
      | Some (Fork child k) => advance n i (<[i := k]> ps ++ [child]) s
      | _ => (ps, s)
      end
  end.
Fixpoint advances {S} (turns : list (nat * nat)) (ps : list (prog S unit)) (s : S) : list (prog S unit) * S :=
  match turns with
  | [] => (ps, s)
  | (i, n) :: turns => let '(ps, s) := advance n i ps s in advances turns ps s
  end.
Lemma advance_sound {S} n i (ps : list (prog S unit)) s : rtc pool_step (ps, s) (advance n i ps s).
Proof.
  revert ps s. induction n as [|n IH]; intros ps s; [done|]. simpl. destruct (ps !! i) as [[|X f k|child k]|] eqn:E; try done.
  - destruct (f s) as [[x s']|] eqn:Ef; [|done]. eapply rtc_l; [by eapply pool_step_at|apply IH].
  - eapply rtc_l; [by eapply pool_step_fork|apply IH].
Qed.
Lemma advances_sound {S} turns (ps : list (prog S unit)) s : rtc pool_step (ps, s) (advances turns ps s).
Proof.
  revert ps s. induction turns as [|[i n] turns IH]; intros ps s; [done|]. simpl.
  pose proof (advance_sound n i ps s) as Hr. destruct (advance n i ps s) as [ps1 s1]. etrans; [exact Hr|apply IH].
Qed.
