(* ===== verification/Text.v ===== *)
(** * Text

    The string functions the services use ([strings], [fmt], [encoding/base32],
    [encoding/base64]), on byte strings, with the round trips of the encodings. *)

From Stdlib Require Import Ascii.
From S2P Require Import Prelude.

Abbreviation bytes := (list ascii) (only parsing).
Definition to_bytes : string → list ascii := String.list_ascii_of_string.
Definition of_bytes : list ascii → string := String.string_of_list_ascii.

Lemma of_to_bytes s : of_bytes (to_bytes s) = s.
Proof. apply String.string_of_list_ascii_of_string. Qed.
Lemma to_of_bytes l : to_bytes (of_bytes l) = l.
Proof. apply String.list_ascii_of_string_of_list_ascii. Qed.
Lemma to_bytes_app a b : to_bytes (a +:+ b) = to_bytes a ++ to_bytes b.
Proof. induction a as [|c a IH]; simpl; [done|]. by rewrite IH. Qed.

Fixpoint strip {A} `{EqDecision A} (p l : list A) : option (list A) :=
  match p, l with
  | [], _ => Some l
  | x :: p, y :: l => if decide (x = y) then strip p l else None
  | _ :: _, [] => None
  end.

Lemma strip_app {A} `{EqDecision A} (p l : list A) : strip p (p ++ l) = Some l.
Proof. induction p as [|x p IH]; simpl; [done|]. by rewrite decide_True. Qed.

(** [strings.CutPrefix], [strings.HasPrefix], [strings.ContainsAny]. *)
Definition CutPrefix (s prefix : string) : option string :=
  of_bytes <$> strip (to_bytes prefix) (to_bytes s).
Definition HasPrefix (s prefix : string) : bool :=
  match CutPrefix s prefix with Some _ => true | None => false end.
Definition ContainsAny (s chars : string) : bool :=
  existsb (λ c, existsb (Ascii.eqb c) (to_bytes chars)) (to_bytes s).

(** [strings.TrimSpace]: the Unicode white space characters, as UTF-8. *)
Definition spaces : list (list ascii) :=
  map (map ascii_of_nat)
    ([[9]; [10]; [11]; [12]; [13]; [32]; [194; 133]; [194; 160]; [225; 154; 128];
      [226; 128; 168]; [226; 128; 169]; [226; 128; 175]; [226; 129; 159]; [227; 128; 128]] ++
     map (λ n, [226; 128; n]) (seq 128 11)).
Fixpoint first_strip (ps : list (list ascii)) (l : list ascii) : option (list ascii) :=
  match ps with
  | [] => None
  | p :: ps => match strip p l with Some r => Some r | None => first_strip ps l end
  end.
Fixpoint trim_left (fuel : nat) (ps : list (list ascii)) (l : list ascii) : list ascii :=
  match fuel with
  | O => l
  | S fuel => match first_strip ps l with Some r => trim_left fuel ps r | None => l end
  end.
Definition trim (ps : list (list ascii)) (l : list ascii) : list ascii :=
  trim_left (length l) ps l.
Definition TrimSpace (s : string) : string :=
  of_bytes (rev (trim (map (@rev ascii) spaces) (rev (trim spaces (to_bytes s))))).

(** [strings.Split] on one byte. *)
Fixpoint split_on (sep : ascii) (l : list ascii) : list (list ascii) :=
  match l with
  | [] => [[]]
  | c :: l =>
      if Ascii.eqb c sep then [] :: split_on sep l
      else match split_on sep l with
           | w :: ws => (c :: w) :: ws
           | [] => [[c]]
           end
  end.
Definition Split (s : string) (sep : ascii) : list string := map of_bytes (split_on sep (to_bytes s)).

Lemma split_on_nosep sep w l :
  Forall (λ c, c ≠ sep) w → split_on sep (w ++ sep :: l) = w :: split_on sep l.
Proof.
  induction 1 as [|c w Hc Hw IH]; simpl.
  - by rewrite Ascii.eqb_refl.
  - rewrite (proj2 (Ascii.eqb_neq c sep) Hc). by rewrite IH.
Qed.
Lemma split_on_last sep w : Forall (λ c, c ≠ sep) w → split_on sep w = [w].
Proof.
  induction 1 as [|c w Hc Hw IH]; simpl; [done|].
  rewrite (proj2 (Ascii.eqb_neq c sep) Hc). by rewrite IH.
Qed.

(** ** Decimal numbers *)

Definition digit (n : N) : ascii := ascii_of_N (48 + n mod 10).
Fixpoint decimal_rev (fuel : nat) (n : N) : list ascii :=
  match fuel with
  | O => []
  | S fuel => digit n :: (if (n <? 10)%N then [] else decimal_rev fuel (n / 10))
  end.
(** [%d] of a non-negative number. *)
Definition decimal (n : N) : list ascii := rev (decimal_rev (S (N.to_nat (N.size n))) n).

Definition digit_value (c : ascii) : option N :=
  let n := N_of_ascii c in if ((48 <=? n) && (n <=? 57))%N then Some (n - 48)%N else None.
(** Scanning digits: the value, and what follows the last digit. *)
Fixpoint scan_digits (acc : N) (l : list ascii) : N * list ascii :=
  match l with
  | c :: l' => match digit_value c with
               | Some d => scan_digits (acc * 10 + d) l'
               | None => (acc, l)
               end
  | [] => (acc, [])
  end%N.
(** [%d] of [fmt.Sscanf] into an unsigned of [w] bits: leading blanks are skipped,
    at least one digit is needed, and an overflow is an error. *)
Fixpoint skip_blanks (l : list ascii) : list ascii :=
  match l with
  | c :: l' => if existsb (Ascii.eqb c) [" "; "009"; "013"]%char then skip_blanks l' else l
  | [] => []
  end.
Definition scan_uint (w : N) (l : list ascii) : option (N * list ascii) :=
  let l := skip_blanks l in
  match l with
  | c :: _ =>
      match digit_value c with
      | Some _ => let '(n, r) := scan_digits 0 l in if (n <? 2 ^ w)%N then Some (n, r) else None
      | None => None
      end
  | [] => None
  end.

Lemma digit_value_digit n : digit_value (digit n) = Some (n mod 10)%N.
Proof.
  unfold digit_value, digit. pose proof (N.mod_lt n 10 ltac:(done)) as Hm.
  generalize dependent (n mod 10)%N. intros m Hm. rewrite N_ascii_embedding by lia.
  rewrite (proj2 (N.leb_le 48 (48 + m))), (proj2 (N.leb_le (48 + m) 57)) by lia.
  cbn [andb]. f_equal. lia.
Qed.

Definition no_digit (l : list ascii) : Prop := match l with c :: _ => digit_value c = None | [] => True end.

Lemma scan_digits_stop acc l : no_digit l → scan_digits acc l = (acc, l).
Proof. destruct l as [|c l]; simpl; [done|]. by intros ->. Qed.

Lemma decimal_rev_S f n :
  decimal_rev (S f) n = digit n :: (if (n <? 10)%N then [] else decimal_rev f (n / 10)).
Proof. done. Qed.

(** Scanning the rendering of a number, then whatever follows. *)
Lemma scan_decimal_rev f n acc l :
  (n < 2 ^ N.of_nat f)%N →
  ∃ k, scan_digits acc (rev (decimal_rev (S f) n) ++ l) = scan_digits (acc * 10 ^ k + n)%N l.
Proof.
  revert n acc l. induction f as [|f IH]; intros n acc l Hn.
  - assert (n = 0%N) as -> by (simpl in Hn; lia). exists 1%N. simpl.
    change (digit_value (digit 0)) with (Some 0%N). rewrite N.pow_1_r. done.
  - rewrite decimal_rev_S. cbn [rev]. rewrite <- app_assoc. cbn [app].
    destruct (N.ltb_spec n 10).
    + exists 1%N. simpl. rewrite digit_value_digit, N.mod_small, N.pow_1_r by done. done.
    + destruct (IH (n / 10)%N acc (digit n :: l)) as [k Hk].
      { apply N.Div0.div_lt_upper_bound. rewrite Nat2N.inj_succ, N.pow_succ_r' in Hn. lia. }
      exists (k + 1)%N. rewrite Hk. cbn [scan_digits].
      rewrite digit_value_digit. f_equal. rewrite N.pow_add_r, N.pow_1_r.
      pose proof (N.div_mod n 10). lia.
Qed.

Lemma decimal_first n : ∃ c l, decimal n = c :: l ∧ is_Some (digit_value c).
Proof.
  unfold decimal. generalize (N.to_nat (N.size n)) as f. intros f. revert n.
  induction f as [|f IH]; intros n; rewrite decimal_rev_S; cbn [rev].
  - exists (digit n), []. destruct (n <? 10)%N; simpl; rewrite digit_value_digit; eauto.
  - destruct (n <? 10)%N; [simpl; rewrite ?digit_value_digit; eauto 6|].
    + eexists _, _. split; [done|]. rewrite digit_value_digit. eauto.
    + destruct (IH (n / 10)%N) as (c & l & E & Hc).
      exists c, (l ++ [digit n]). by rewrite E.
Qed.

Lemma digit_not_blank c : is_Some (digit_value c) → existsb (Ascii.eqb c) [" "; "009"; "013"]%char = false.
Proof.
  intros [d Hd]. destruct (existsb _ _) eqn:E; [|done]. apply existsb_exists in E as (x & Hx & Ex).
  apply Ascii.eqb_eq in Ex as ->. simpl in Hx.
  destruct Hx as [<-|[<-|[<-|[]]]]; by vm_compute in Hd.
Qed.

(** A rendered number that fits is scanned back. *)
Lemma scan_uint_decimal w n l :
  (n < 2 ^ w)%N → no_digit l → scan_uint w (decimal n ++ l) = Some (n, l).
Proof.
  intros Hw Hl. unfold scan_uint. destruct (decimal_first n) as (c & r & E & Hc).
  assert (skip_blanks (decimal n ++ l) = decimal n ++ l) as ->.
  { rewrite E. cbn [app skip_blanks]. by rewrite digit_not_blank. }
  rewrite E at 1. cbn [app]. destruct Hc as [d ->].
  unfold decimal. destruct (scan_decimal_rev (N.to_nat (N.size n)) n 0 l) as [k ->].
  { rewrite N2Nat.id. apply N.size_gt. }
  rewrite N.mul_0_l, N.add_0_l, scan_digits_stop by done.
  by rewrite (proj2 (N.ltb_lt n (2 ^ w)) Hw).
Qed.

(** ** Base 32 and base 64

    Both are: the bits of the bytes, most significant first, in groups of five (or
    six), the last one padded with zero bits, each group a letter of the alphabet;
    no padding characters. *)

Fixpoint bits_of (k : nat) (n : N) : list bool :=
  match k with O => [] | S k => N.testbit n (N.of_nat k) :: bits_of k n end.
Definition bits_value (l : list bool) : N := foldl (λ a b, 2 * a + N.b2n b)%N 0%N l.

(** The list in groups of [k]; the last one may be short. *)
Fixpoint chunks {A} (fuel k : nat) (l : list A) : list (list A) :=
  match fuel, l with
  | O, _ | _, [] => []
  | S fuel, _ => take k l :: chunks fuel k (drop k l)
  end.
Definition pad (k : nat) (l : list bool) : list bool := take k (l ++ replicate k false).

Definition letter (alphabet : string) (n : N) : ascii :=
  default "000"%char (String.get (N.to_nat n) alphabet).
Definition encode (alphabet : string) (k : nat) (bytes : list N) : string :=
  let bs := flat_map (bits_of 8) bytes in
  of_bytes (map (λ g, letter alphabet (bits_value (pad k g))) (chunks (length bs) k bs)).

Fixpoint position (c : ascii) (alphabet : list ascii) : option N :=
  match alphabet with
  | [] => None
  | a :: l => if Ascii.eqb a c then Some 0%N else N.succ <$> position c l
  end.
(** The bytes of a text over the alphabet; the bits short of a byte are dropped. *)
Definition decode (alphabet : string) (k : nat) (s : string) : option (list N) :=
  gs ← mapM (λ c, position c (to_bytes alphabet)) (to_bytes s);
  let bs := flat_map (bits_of k) gs in
  Some (map bits_value (List.filter (λ g, (length g =? 8)%nat) (chunks (length bs) 8 bs))).

(** [encoding/base64]: carriage returns and newlines are skipped, and a single
    letter left over is an error. *)
Definition base64_alphabet : string := "ABCDEFGHIJKLMNOPQRSTUVWXYZabcdefghijklmnopqrstuvwxyz0123456789+/".
Definition base64url_alphabet : string := "ABCDEFGHIJKLMNOPQRSTUVWXYZabcdefghijklmnopqrstuvwxyz0123456789-_".
Definition base32_alphabet : string := "ABCDEFGHIJKLMNOPQRSTUVWXYZ234567".
Definition RawStd_EncodeToString (b : list N) : string := encode base64_alphabet 6 b.
Definition RawURL_EncodeToString (b : list N) : string := encode base64url_alphabet 6 b.
Definition Raw_DecodeString (alphabet s : string) : option (list N) :=
  let l := List.filter (λ c, negb (Ascii.eqb c "010" || Ascii.eqb c "013"))%char (to_bytes s) in
  if (length l mod 4 =? 1)%nat then None else decode alphabet 6 (of_bytes l).
Definition RawStd_DecodeString (s : string) : option (list N) := Raw_DecodeString base64_alphabet s.
Definition RawURL_DecodeString (s : string) : option (list N) := Raw_DecodeString base64url_alphabet s.

Lemma bits_of_length k n : length (bits_of k n) = k.
Proof. induction k as [|k IH]; simpl; [done|]. by rewrite IH. Qed.

Lemma bits_of_snoc k n : bits_of (S k) n = bits_of k (n / 2) ++ [N.odd n].
Proof.
  induction k as [|k IH]; [by rewrite <- N.bit0_odd|].
  change (bits_of (S (S k)) n) with (N.testbit n (N.of_nat (S k)) :: bits_of (S k) n).
  rewrite IH. cbn [bits_of app]. f_equal. rewrite <- N.div2_div, N.div2_spec, N.shiftr_spec'.
  f_equal. lia.
Qed.

Lemma bits_value_snoc l b : bits_value (l ++ [b]) = (2 * bits_value l + N.b2n b)%N.
Proof. unfold bits_value. by rewrite foldl_app. Qed.

Lemma b2n_div2 n b : ((2 * n + N.b2n b) / 2 = n)%N.
Proof. rewrite N.mul_comm, N.div_add_l by lia. destruct b; apply N.add_0_r. Qed.
Lemma b2n_odd n b : N.odd (2 * n + N.b2n b) = b.
Proof. rewrite N.add_comm, N.odd_add_mul_2. by destruct b. Qed.

Lemma bits_of_value l : bits_of (length l) (bits_value l) = l.
Proof.
  induction l as [|b l IH] using rev_ind; [done|].
  rewrite length_app, Nat.add_1_r, bits_of_snoc, bits_value_snoc, b2n_div2, b2n_odd. by rewrite IH.
Qed.

Lemma bits_value_of k n : (n < 2 ^ N.of_nat k)%N → bits_value (bits_of k n) = n.
Proof.
  revert n; induction k as [|k IH]; intros n Hn; [by assert (n = 0%N) as -> by (simpl in Hn; lia)|].
  rewrite bits_of_snoc, bits_value_snoc, IH.
  - rewrite <- N.div2_div. symmetry. apply N.div2_odd.
  - apply N.Div0.div_lt_upper_bound. by rewrite Nat2N.inj_succ, N.pow_succ_r' in Hn.
Qed.

Lemma bits_value_lt l : (bits_value l < 2 ^ N.of_nat (length l))%N.
Proof.
  induction l as [|b l IH] using rev_ind; [done|].
  rewrite bits_value_snoc, length_app, Nat.add_1_r, Nat2N.inj_succ, N.pow_succ_r'.
  destruct b; simpl; lia.
Qed.

Lemma pad_length k l : length (pad k l) = k.
Proof. unfold pad. rewrite length_take, length_app, length_replicate. lia. Qed.
Lemma pad_full k l : length l = k → pad k l = l.
Proof. intros <-. unfold pad. by rewrite take_app_length. Qed.

Lemma chunks_cons {A} fuel k (l : list A) :
  l ≠ [] → chunks (S fuel) k l = take k l :: chunks fuel k (drop k l).
Proof. by destruct l. Qed.

Section Encoding.
Context (alphabet : string) (k : nat) (Hk : 0 < k).
Context (Hletters : ∀ n, (n < 2 ^ N.of_nat k)%N → position (letter alphabet n) (to_bytes alphabet) = Some n).

(** The groups, padded, are the bits followed by fewer zeros than a group. *)
Lemma chunks_pad fuel l :
  length l ≤ fuel → ∃ z, z < k ∧ flat_map (pad k) (chunks fuel k l) = l ++ replicate z false.
Proof.
  revert l; induction fuel as [|fuel IH]; intros l Hl.
  { destruct l; [|simpl in Hl; lia]. by exists 0. }
  destruct l as [|x l]; [by exists 0|]. cbn [chunks flat_map].
  destruct (decide (length (x :: l) < k)) as [Hlt|Hge].
  - exists (k - length (x :: l)). split; [simpl; lia|].
    rewrite take_ge, drop_ge by lia. replace (chunks fuel k []) with (@nil (list bool)) by (by destruct fuel).
    cbn [flat_map]. rewrite app_nil_r. unfold pad. rewrite take_app_ge by lia. f_equal.
    rewrite take_replicate. f_equal. lia.
  - destruct (IH (drop k (x :: l))) as (z & Hz & E); [rewrite length_drop; simpl in *; lia|].
    exists z. split; [done|]. rewrite E, pad_full by (rewrite length_take; lia).
    by rewrite app_assoc, take_drop.
Qed.

Lemma mapM_letters gs :
  mapM (λ c, position c (to_bytes alphabet)) (map (λ g, letter alphabet (bits_value (pad k g))) gs) =
  Some (map (λ g, bits_value (pad k g)) gs).
Proof using Hletters.
  rewrite mapM_Some. induction gs as [|g gs IH]; [done|]. cbn [map]. constructor; [|done].
  apply Hletters. rewrite <- (pad_length k g) at 2. apply bits_value_lt.
Qed.

Lemma flat_bits gs :
  flat_map (bits_of k) (map (λ g, bits_value (pad k g)) gs) = flat_map (pad k) gs.
Proof.
  induction gs as [|g gs IH]; [done|]. cbn [map flat_map]. rewrite IH. f_equal.
  rewrite <- (pad_length k g) at 1. apply bits_of_value.
Qed.

(** Cutting into bytes the bits of some bytes followed by fewer than eight more. *)
Lemma chunks_bytes fuel bs l :
  Forall (λ b, b < 256)%N bs → length l < 8 → length (flat_map (bits_of 8) bs ++ l) ≤ fuel →
  map bits_value (List.filter (λ g, (length g =? 8)%nat) (chunks fuel 8 (flat_map (bits_of 8) bs ++ l))) = bs.
Proof.
  intros Hbs Hl. revert fuel; induction Hbs as [|b bs Hb Hbs IH]; intros fuel Hf.
  - cbn [flat_map app] in *. destruct fuel, l as [|x l]; try done. cbn [chunks].
    rewrite take_ge, drop_ge by lia. replace (chunks fuel 8 []) with (@nil (list bool)) by (by destruct fuel).
    cbn [List.filter]. by rewrite (proj2 (Nat.eqb_neq (length (x :: l)) 8)) by lia.
  - cbn [flat_map] in *. rewrite <- app_assoc in *.
    destruct fuel as [|fuel]; [rewrite length_app, bits_of_length in Hf; lia|].
    assert (chunks (S fuel) 8 (bits_of 8 b ++ flat_map (bits_of 8) bs ++ l) =
      bits_of 8 b :: chunks fuel 8 (flat_map (bits_of 8) bs ++ l)) as ->.
    { rewrite chunks_cons by (intros E%(f_equal length); rewrite length_app, bits_of_length in E; simpl in E; lia).
      by rewrite take_app_length', drop_app_length' by (by rewrite bits_of_length). }
    cbn [List.filter]. rewrite bits_of_length. cbn [Nat.eqb map]. f_equal.
    + by apply bits_value_of.
    + apply IH. rewrite length_app, bits_of_length in Hf. lia.
Qed.

(** Encoding loses nothing. *)
Lemma decode_encode bs :
  k ≤ 8 → Forall (λ b, b < 256)%N bs → decode alphabet k (encode alphabet k bs) = Some bs.
Proof using Hk Hletters.
  intros Hk8 Hbs. unfold decode, encode. rewrite to_of_bytes, mapM_letters. cbn [mbind option_bind]. f_equal.
  rewrite flat_bits. destruct (chunks_pad (length (flat_map (bits_of 8) bs)) (flat_map (bits_of 8) bs))
    as (z & Hz & ->); [lia|].
  apply chunks_bytes; [done| |lia]. rewrite length_replicate. lia.
Qed.
End Encoding.

(** A property of every number below a bound, checked by computation. *)
Lemma below_check (f : N → bool) (n : nat) :
  forallb f (map N.of_nat (seq 0 n)) = true → ∀ m, (m < N.of_nat n)%N → f m = true.
Proof.
  intros Hf m Hm. rewrite forallb_forall in Hf. apply Hf, in_map_iff.
  exists (N.to_nat m). split; [lia|]. apply in_seq. lia.
Qed.

Lemma letters_ok alphabet k :
  forallb (λ n, bool_decide (position (letter alphabet n) (to_bytes alphabet) = Some n))
    (map N.of_nat (seq 0 (2 ^ k))) = true →
  ∀ n, (n < 2 ^ N.of_nat k)%N → position (letter alphabet n) (to_bytes alphabet) = Some n.
Proof.
  intros Hc n Hn. assert (n < N.of_nat (2 ^ k))%N as Hn' by (by rewrite Nat2N.inj_pow).
  pose proof (below_check _ _ Hc n Hn') as Hb. by apply bool_decide_eq_true in Hb.
Qed.

Lemma base64_letters n : (n < 2 ^ N.of_nat 6)%N → position (letter base64_alphabet n) (to_bytes base64_alphabet) = Some n.
Proof. apply letters_ok. vm_compute. reflexivity. Qed.
Lemma base64url_letters n : (n < 2 ^ N.of_nat 6)%N → position (letter base64url_alphabet n) (to_bytes base64url_alphabet) = Some n.
Proof. apply letters_ok. vm_compute. reflexivity. Qed.
Lemma base32_letters n : (n < 2 ^ N.of_nat 5)%N → position (letter base32_alphabet n) (to_bytes base32_alphabet) = Some n.
Proof. apply letters_ok. vm_compute. reflexivity. Qed.

(** Encoded text: its length, and no character outside the alphabet. *)
Lemma chunks_length {A} fuel k (l : list A) :
  0 < k → length l ≤ fuel → length (chunks fuel k l) = (length l + (k - 1)) / k.
Proof.
  intros Hk. revert l; induction fuel as [|fuel IH]; intros l Hl.
  { destruct l; [|simpl in Hl; lia]. simpl. symmetry. apply Nat.div_small. lia. }
  destruct l as [|x l]; [simpl; symmetry; apply Nat.div_small; lia|].
  cbn [chunks length]. rewrite IH; rewrite length_drop; cbn [length] in *; [|lia].
  destruct (Nat.le_gt_cases k (S (length l))) as [Hle|Hgt].
  - replace (S (length l) + (k - 1)) with (S (length l) - k + (k - 1) + 1 * k) by lia.
    rewrite Nat.div_add by lia. lia.
  - replace (S (length l) - k) with 0 by lia.
    rewrite (Nat.div_small (0 + (k - 1))) by lia.
    apply (Nat.div_unique _ _ 1 (length l)); lia.
Qed.

Lemma flat_bits_length bs : length (flat_map (bits_of 8) bs) = 8 * length bs.
Proof.
  induction bs as [|b bs IH]; [done|]. cbn [flat_map length]. rewrite length_app, bits_of_length, IH. lia.
Qed.

Lemma encode_letters (P : ascii → Prop) alphabet k bs :
  (∀ n, (n < 2 ^ N.of_nat k)%N → P (letter alphabet n)) → Forall P (to_bytes (encode alphabet k bs)).
Proof.
  intros HP. unfold encode. rewrite to_of_bytes. apply Forall_fmap, Forall_true. intros g.
  apply HP. pose proof (bits_value_lt (pad k g)) as Hlt. by rewrite pad_length in Hlt.
Qed.

(** No letter of base 64 separates or ends a line. *)
Definition plain (c : ascii) : bool := negb (existsb (Ascii.eqb c) ["$"; "010"; "013"]%char).
Lemma RawStd_plain bs : Forall (λ c, plain c = true) (to_bytes (RawStd_EncodeToString bs)).
Proof.
  apply encode_letters. intros n Hn.
  assert (∀ m, (m < N.of_nat 64)%N → plain (letter base64_alphabet m) = true) as Hall
    by (apply (below_check (λ m, plain (letter base64_alphabet m))); vm_compute; reflexivity).
  by apply Hall.
Qed.

Lemma Raw_roundtrip alphabet bs :
  (∀ n, (n < 2 ^ N.of_nat 6)%N → position (letter alphabet n) (to_bytes alphabet) = Some n) →
  Forall (λ c, plain c = true) (to_bytes (encode alphabet 6 bs)) →
  Forall (λ b, b < 256)%N bs → Raw_DecodeString alphabet (encode alphabet 6 bs) = Some bs.
Proof.
  intros Hletters Hp Hbs. unfold Raw_DecodeString.
  assert (List.filter (λ c, negb (Ascii.eqb c "010" || Ascii.eqb c "013"))%char
            (to_bytes (encode alphabet 6 bs)) = to_bytes (encode alphabet 6 bs)) as ->.
  { induction Hp as [|c l Hc Hl IH]; [done|]. simpl.
    unfold plain in Hc. simpl in Hc. apply negb_true_iff in Hc. rewrite !orb_false_iff in Hc.
    destruct Hc as (_ & -> & -> & _). simpl. by f_equal. }
  assert (length (to_bytes (encode alphabet 6 bs)) = (8 * length bs + 5) / 6) as Hlen.
  { unfold encode. rewrite to_of_bytes, length_map, chunks_length by lia. by rewrite flat_bits_length. }
  rewrite Hlen, of_to_bytes.
  replace (((8 * length bs + 5) / 6) mod 4 =? 1) with false.
  - apply (decode_encode alphabet 6); [lia|apply Hletters|lia|done].
  - symmetry. apply Nat.eqb_neq. intros Hmod.
    pose proof (Nat.div_mod_eq (8 * length bs + 5) 6). pose proof (Nat.mod_upper_bound (8 * length bs + 5) 6).
    pose proof (Nat.div_mod_eq ((8 * length bs + 5) / 6) 4). lia.
Qed.

Lemma RawStd_roundtrip bs :
  Forall (λ b, b < 256)%N bs → RawStd_DecodeString (RawStd_EncodeToString bs) = Some bs.
Proof. apply Raw_roundtrip; [apply base64_letters|apply RawStd_plain]. Qed.
Lemma RawURL_plain bs : Forall (λ c, plain c = true) (to_bytes (RawURL_EncodeToString bs)).
Proof.
  apply encode_letters. intros n Hn.
  assert (∀ m, (m < N.of_nat 64)%N → plain (letter base64url_alphabet m) = true) as Hall
    by (apply (below_check (λ m, plain (letter base64url_alphabet m))); vm_compute; reflexivity).
  by apply Hall.
Qed.
Lemma RawURL_roundtrip bs :
  Forall (λ b, b < 256)%N bs → RawURL_DecodeString (RawURL_EncodeToString bs) = Some bs.
Proof. apply Raw_roundtrip; [apply base64url_letters|apply RawURL_plain]. Qed.

(** A rendered number is digits. *)
Lemma decimal_digits n : Forall (λ c, is_Some (digit_value c)) (decimal n).
Proof.
  unfold decimal. apply Forall_rev. generalize (S (N.to_nat (N.size n))) as f.
  intros f. revert n; induction f as [|f IH]; intros n; simpl; [constructor|].
  constructor; [by rewrite digit_value_digit|]. destruct (n <? 10)%N; [constructor|apply IH].
Qed.
