(* ===== verification/Env.v ===== *)
(** * The environment of the services

    The shared state every service works on: the rows of the database
    ([internal/db/gen/models.go]), the simulated container daemon, the clocks,
    and the outcomes the environment chooses (connection failures, generated
    ids, entropy), each an explicit input of the model.  Library code that is
    not in the repository enters as the class [Libs]. *)

From S2P Require Import Prelude.

(** ** Libraries outside the repository *)

(** ASCII text, and Go's [strings.ToLower] on it. *)
Fixpoint string_forall (f : Ascii.ascii → bool) (s : string) : bool :=
  match s with EmptyString => true | String c s => f c && string_forall f s end.
Fixpoint string_map (f : Ascii.ascii → Ascii.ascii) (s : string) : string :=
  match s with EmptyString => EmptyString | String c s => String (f c) (string_map f s) end.
Definition is_ascii (s : string) : bool :=
  string_forall (λ c, bool_decide (Ascii.nat_of_ascii c < 128)) s.
Definition lower_char (c : Ascii.ascii) : Ascii.ascii :=
  let n := Ascii.nat_of_ascii c in
  if bool_decide (65 ≤ n ≤ 90) then Ascii.ascii_of_nat (n + 32) else c.
Definition ascii_lower : string → string := string_map lower_char.

(** [github.com/google/uuid] renders and parses an id; [strings.ToLower] is
    Unicode case mapping (the tables are not modelled, only that it is the ASCII
    mapping on ASCII text); [citext] columns compare case-insensitively;
    [sha256_hex] is [crypto/sha256] in hexadecimal; [mail_ParseAddress] says whether
    [net/mail] accepts an address (its grammar is not modelled). *)
Class Libs := {
  uuid_String : uuid → string;
  uuid_Parse : string → option uuid;
  uuid_Parse_String : ∀ u, uuid_Parse (uuid_String u) = Some u;
  ToLower : string → string;
  ToLower_ascii : ∀ s, is_ascii s = true → ToLower s = ascii_lower s;
  citext_lower : string → string;
  sha256_hex : string → string;
  mail_ParseAddress : string → bool
}.

#[export] Instance uuid_String_inj `{Libs} : Inj (=) (=) uuid_String.
Proof. intros u v E. apply (f_equal uuid_Parse) in E. rewrite !uuid_Parse_String in E. by simplify_eq. Qed.

(** ** Rows *)

Inductive State :=
  | StatePending | StateStarting | StateRunning | StateUnhealthy
  | StateStopped | StateError | StateLost
  | StateNone (* the zero value, "" *).

#[export] Instance State_eq_dec : EqDecision State.
Proof. solve_decision. Defined.

Definition State_string (s : State) : string :=
  match s with
  | StatePending => "pending" | StateStarting => "starting"
  | StateRunning => "running" | StateUnhealthy => "unhealthy"
  | StateStopped => "stopped" | StateError => "error" | StateLost => "lost"
  | StateNone => ""
  end.

Record User := {
  u_ID : uuid; u_Username : string; u_Email : string; u_PasswordHash : string;
  u_Role : string; u_Banned : bool; u_Hidden : bool
}.

Record Team := {
  t_ID : uuid; t_Name : string; t_InviteCode : string; t_CaptainID : uuid;
  t_Banned : bool; t_Hidden : bool; t_CreatedAt : time
}.

Record TeamMember := { tm_TeamID : uuid; tm_UserID : uuid; tm_JoinedAt : time }.

Record Event := {
  e_ID : uuid; e_Name : string; e_Description : string;
  e_StartsAt : time; e_EndsAt : time; e_FreezeAt : option time
}.

(** [jsonb] columns are held decoded: the value [json.Unmarshal] leaves in the
    Go map or slice that receives it. *)
Record Challenge := {
  c_ID : uuid; c_Slug : string; c_Title : string; c_Category : string; c_Description : string;
  c_Difficulty : option string; c_Kind : string; c_Flag : string;
  c_FlagCaseInsensitive : bool; c_Scoring : string; c_PointsInitial : Z;
  c_PointsMin : option Z; c_Decay : option Z; c_MaxAttempts : option Z;
  c_Visible : bool; c_Image : option string; c_InternalPort : option Z;
  c_MemLimitMb : Z; c_CpuMillis : Z; c_ContainerEnv : gmap string string;
  c_ConnectionTemplate : option string; c_CreatedAt : time; c_UpdatedAt : time;
  c_Instancing : string; c_FlagMode : string; c_InstanceTtlSeconds : option Z;
  c_Egress : bool; c_WritablePaths : list string; c_Type : string;
  c_TypeConfig : gmap string string
}.

Record Submission := {
  s_ID : uuid; s_ChallengeID : uuid; s_TeamID : uuid; s_UserID : uuid;
  s_Provided : string; s_Correct : bool; s_CreatedAt : time;
  s_ScoredValue : option Z; s_ScoredBy : option string
}.

Record Instance_ := {
  i_ID : uuid; i_ChallengeID : uuid; i_State : State;
  i_ContainerID : option string; i_HostPort : option Z; i_Error : option string;
  i_StartedAt : option time; i_LastHealthAt : option time;
  i_CreatedAt : time; i_UpdatedAt : time; i_TeamID : option uuid;
  i_Flag : option string; i_ExpiresAt : option time; i_Network : option string
}.

Record AuthIdentity := { ai_Provider : string; ai_Subject : string; ai_UserID : uuid }.

Record ApiToken := {
  k_ID : uuid; k_UserID : uuid; k_Name : string; k_TokenHash : string;
  k_Prefix : string; k_Scopes : list string; k_LastUsedAt : option time;
  k_ExpiresAt : option time; k_CreatedAt : time
}.

Record ChallengeAttachment := {
  at_ID : uuid; at_ChallengeID : uuid; at_Filename : string; at_SizeBytes : Z;
  at_ContentType : string; at_ObjectKey : string; at_CreatedAt : time
}.

Record AuditRow := {
  a_ActorID : option uuid; a_Action : string; a_SubjectType : string;
  a_SubjectID : string; a_Meta : gmap string string
}.

(** The tables.  [submissions] and [team_members] keep insertion order. *)
Record DB := {
  users : gmap uuid User;
  teams : gmap uuid Team;
  members : list TeamMember;
  event : option Event;
  challenges : gmap uuid Challenge;
  submissions : list Submission;
  instances : gmap uuid Instance_;
  identities : gmap (string * string) AuthIdentity;
  tokens : gmap uuid ApiToken;
  attachments : gmap uuid ChallengeAttachment;
  audit : list AuditRow
}.

Definition set_users v d := {| users := v; teams := teams d; members := members d; event := event d; challenges := challenges d; submissions := submissions d; instances := instances d; identities := identities d; tokens := tokens d; attachments := attachments d; audit := audit d |}.
Definition set_teams v d := {| users := users d; teams := v; members := members d; event := event d; challenges := challenges d; submissions := submissions d; instances := instances d; identities := identities d; tokens := tokens d; attachments := attachments d; audit := audit d |}.
Definition set_members v d := {| users := users d; teams := teams d; members := v; event := event d; challenges := challenges d; submissions := submissions d; instances := instances d; identities := identities d; tokens := tokens d; attachments := attachments d; audit := audit d |}.
Definition set_event v d := {| users := users d; teams := teams d; members := members d; event := v; challenges := challenges d; submissions := submissions d; instances := instances d; identities := identities d; tokens := tokens d; attachments := attachments d; audit := audit d |}.
Definition set_challenges v d := {| users := users d; teams := teams d; members := members d; event := event d; challenges := v; submissions := submissions d; instances := instances d; identities := identities d; tokens := tokens d; attachments := attachments d; audit := audit d |}.
Definition set_submissions v d := {| users := users d; teams := teams d; members := members d; event := event d; challenges := challenges d; submissions := v; instances := instances d; identities := identities d; tokens := tokens d; attachments := attachments d; audit := audit d |}.
Definition set_instances v d := {| users := users d; teams := teams d; members := members d; event := event d; challenges := challenges d; submissions := submissions d; instances := v; identities := identities d; tokens := tokens d; attachments := attachments d; audit := audit d |}.
Definition set_identities v d := {| users := users d; teams := teams d; members := members d; event := event d; challenges := challenges d; submissions := submissions d; instances := instances d; identities := v; tokens := tokens d; attachments := attachments d; audit := audit d |}.
Definition set_tokens v d := {| users := users d; teams := teams d; members := members d; event := event d; challenges := challenges d; submissions := submissions d; instances := instances d; identities := identities d; tokens := v; attachments := attachments d; audit := audit d |}.
Definition set_attachments v d := {| users := users d; teams := teams d; members := members d; event := event d; challenges := challenges d; submissions := submissions d; instances := instances d; identities := identities d; tokens := tokens d; attachments := v; audit := audit d |}.
Definition set_audit v d := {| users := users d; teams := teams d; members := members d; event := event d; challenges := challenges d; submissions := submissions d; instances := instances d; identities := identities d; tokens := tokens d; attachments := attachments d; audit := v |}.

(** ** The rest of the shared state *)

(** A [chan struct{}]: its capacity and how many values it buffers. *)
Record chan := { ch_cap : nat; ch_len : nat }.

(** The simulated daemon ([runtime/fake.go]). *)
Record fakeContainer := { fc_id : string; fc_running : bool }.
Record FakeState := {
  fk_containers : gmap uuid fakeContainer; fk_deployed : list uuid;
  fk_destroyed : list uuid; fk_lastReconcileActions : nat
}.

(** The mutable part of [runtime.Manager]: the isolation gate. *)
Inductive isolationVerdict := isolationUnknown | isolationEnforced | isolationUnenforced.
Record ManagerState := {
  gateArmed : bool; allowUnisolated : bool; isolation : isolationVerdict;
  lastUnisoWarn : Z; secLog : bool
}.

(** The mutable part of [scheduler.Scheduler]: the registry of team locks (by
    address), the locks, and the sweep offset (a [uint64]). *)
Record teamLock := { tl_ch : nat; tl_refs : Z }.
Record SchedState := {
  teamMu : gmap uuid nat; locks : list teamLock; expireOffset : Z
}.

(** One standings row, one full board ([scoreboard/compute.go]), and the mutable
    part of [scoreboard.Service]: the two Redis keys (held decoded), the write
    guard, and what was broadcast. *)
Record Entry := {
  b_Banned : bool; b_LastSolveAt : option time; b_Name : string; b_Points : Z;
  b_Rank : option nat; b_Solves : nat; b_TeamID : uuid
}.
Record Snapshot := {
  sn_Frozen : bool; sn_GeneratedAt : time; sn_Standings : list Entry; sn_SolveCount : nat
}.
Record BoardState := {
  bd_current : option Snapshot; bd_frozen : option Snapshot; bd_lastCount : nat;
  bd_sent : list Snapshot; bd_mu : bool (* the mutex is held *)
}.

(** What Redis holds besides the board, each key with its expiry if it has one: sessions
    ([sess:{token}]), the index of a user's sessions ([sess:user:{id}]), logins in
    flight ([login:state:{token}]), and rate-limit windows ([rl:{scope}:{key}], the
    score of each member). *)
Record SessHash := {
  sh_UserID : string; sh_Role : string; sh_CreatedAt : time; sh_IP : string; sh_UA : string
}.
Record LoginState := { ls_Provider : string; ls_ProviderState : string }.
Record RedisState := {
  rd_sess : gmap string (SessHash * option time);
  rd_users : gmap uuid (gset string * option time);
  rd_login : gmap string (LoginState * option time);
  rd_zsets : gmap string (gmap Z Z * option time)
}.
Definition redis_empty : RedisState :=
  {| rd_sess := ∅; rd_users := ∅; rd_login := ∅; rd_zsets := ∅ |}.

(** What the Docker daemon is told and shows ([runtime/docker.go]): a container to create, and the
    summaries and details it lists.  [ct_Health] is the status of a container that has a health
    check, [ct_Networks] its address on each network. *)
Record container_request := {
  cr_Name : string; cr_Image : string; cr_Cmd : list string; cr_Env : list string;
  cr_ExposedPorts : list string; cr_Labels : gmap string string;
  cr_PortBindings : list (string * (string * string)) (* port: host address and port *);
  cr_RestartPolicy : option (string * Z); cr_Memory : Z; cr_MemorySwap : Z; cr_NanoCPUs : Z;
  cr_PidsLimit : option Z; cr_SecurityOpt : list string; cr_CapDrop : list string;
  cr_ReadonlyRootfs : bool; cr_Tmpfs : gmap string string; cr_Networks : list string
}.
Record network_summary := { ns_ID : string; ns_Name : string; ns_Labels : gmap string string }.
Record network_details := { nd_Internal : bool; nd_Containers : nat }.
Record container_summary := {
  cs_ID : string; cs_Labels : gmap string string; cs_State : string; cs_Image : string; cs_Created : Z (* Unix seconds *)
}.
Record container_details := {
  ct_Running : bool; ct_Health : option string; ct_Networks : gmap string string
}.

(** A call to the daemon: its arguments, and the answer it got. *)
Inductive docker_call :=
  | NetworkList (filter value : string) (r : res (list network_summary))
  | NetworkInspect (id : string) (r : res network_details)
  | NetworkCreate (name : string) (options labels : gmap string string) (r : res unit)
  | NetworkRemove (id : string) (r : res unit)
  | ImageInspect (ref : string) (r : res unit)
  | ImagePull (ref : string) (r : res unit)
  | ContainerList (label value : string) (r : res (list container_summary))
  | ContainerInspect (id : string) (r : res container_details)
  | ContainerCreate (c : container_request) (r : res string)
  | ContainerStart (id : string) (r : res unit)
  | ContainerStop (id : string) (timeout : Z) (r : res unit)
  | ContainerRemove (id : string) (r : res unit)
  | ContainerLogs (id : string) (tail : Z) (r : res (list string))
  | ContainerWait (id : string) (r : res Z).

(** What a step emits besides database writes. *)
Inductive effect :=
  | Docker (c : docker_call)
  | AddTo (metric : string) (n : Z)
  | Inc (metric : string) (labels : list string)
  | MarkSuccess (gauge : string)
  | ResetGauge (metric : string)
  | SetGauge (metric label : string) (v : Z)
  | Publish (name id : string) (at_ : time) (data : gmap string string)
  | SetCookie (name value : string) (max_age : duration)
  | Log (level msg : string).

Record World := {
  w_db : DB;
  w_clock : time (* the injected clock.Clock *);
  w_dbnow : time (* Postgres now() *);
  w_wall : time (* time.Now() *);
  w_faults : list bool (*  does the next query or wait fail? *);
  w_uuids : list (option uuid) (* outcomes of uuid.NewV7 *);
  w_rand : list (option (list N)) (* outcomes of rand.Read *);
  w_chans : list chan (* channels, by address *);
  w_wgs : list Z (* wait groups, by address *);
  w_mgr : ManagerState;
  w_fake : FakeState;
  w_sched : SchedState;
  w_board : BoardState;
  w_redis : RedisState;
  w_hash : Z (* hashInFlight: password derivations past the gate *);
  w_freeze : option (bool * time) (* lastFreeze: the last freeze decision read *);
  w_out : list effect
}.

Definition set_db v w := {| w_db := v; w_clock := w_clock w; w_dbnow := w_dbnow w; w_wall := w_wall w; w_faults := w_faults w; w_uuids := w_uuids w; w_rand := w_rand w; w_chans := w_chans w; w_wgs := w_wgs w; w_mgr := w_mgr w; w_fake := w_fake w; w_sched := w_sched w; w_board := w_board w; w_redis := w_redis w; w_hash := w_hash w; w_freeze := w_freeze w; w_out := w_out w |}.
Definition set_clock v w := {| w_db := w_db w; w_clock := v; w_dbnow := w_dbnow w; w_wall := w_wall w; w_faults := w_faults w; w_uuids := w_uuids w; w_rand := w_rand w; w_chans := w_chans w; w_wgs := w_wgs w; w_mgr := w_mgr w; w_fake := w_fake w; w_sched := w_sched w; w_board := w_board w; w_redis := w_redis w; w_hash := w_hash w; w_freeze := w_freeze w; w_out := w_out w |}.
Definition set_dbnow v w := {| w_db := w_db w; w_clock := w_clock w; w_dbnow := v; w_wall := w_wall w; w_faults := w_faults w; w_uuids := w_uuids w; w_rand := w_rand w; w_chans := w_chans w; w_wgs := w_wgs w; w_mgr := w_mgr w; w_fake := w_fake w; w_sched := w_sched w; w_board := w_board w; w_redis := w_redis w; w_hash := w_hash w; w_freeze := w_freeze w; w_out := w_out w |}.
Definition set_wall v w := {| w_db := w_db w; w_clock := w_clock w; w_dbnow := w_dbnow w; w_wall := v; w_faults := w_faults w; w_uuids := w_uuids w; w_rand := w_rand w; w_chans := w_chans w; w_wgs := w_wgs w; w_mgr := w_mgr w; w_fake := w_fake w; w_sched := w_sched w; w_board := w_board w; w_redis := w_redis w; w_hash := w_hash w; w_freeze := w_freeze w; w_out := w_out w |}.
Definition set_faults v w := {| w_db := w_db w; w_clock := w_clock w; w_dbnow := w_dbnow w; w_wall := w_wall w; w_faults := v; w_uuids := w_uuids w; w_rand := w_rand w; w_chans := w_chans w; w_wgs := w_wgs w; w_mgr := w_mgr w; w_fake := w_fake w; w_sched := w_sched w; w_board := w_board w; w_redis := w_redis w; w_hash := w_hash w; w_freeze := w_freeze w; w_out := w_out w |}.
Definition set_uuids v w := {| w_db := w_db w; w_clock := w_clock w; w_dbnow := w_dbnow w; w_wall := w_wall w; w_faults := w_faults w; w_uuids := v; w_rand := w_rand w; w_chans := w_chans w; w_wgs := w_wgs w; w_mgr := w_mgr w; w_fake := w_fake w; w_sched := w_sched w; w_board := w_board w; w_redis := w_redis w; w_hash := w_hash w; w_freeze := w_freeze w; w_out := w_out w |}.
Definition set_rand v w := {| w_db := w_db w; w_clock := w_clock w; w_dbnow := w_dbnow w; w_wall := w_wall w; w_faults := w_faults w; w_uuids := w_uuids w; w_rand := v; w_chans := w_chans w; w_wgs := w_wgs w; w_mgr := w_mgr w; w_fake := w_fake w; w_sched := w_sched w; w_board := w_board w; w_redis := w_redis w; w_hash := w_hash w; w_freeze := w_freeze w; w_out := w_out w |}.
Definition set_chans v w := {| w_db := w_db w; w_clock := w_clock w; w_dbnow := w_dbnow w; w_wall := w_wall w; w_faults := w_faults w; w_uuids := w_uuids w; w_rand := w_rand w; w_chans := v; w_wgs := w_wgs w; w_mgr := w_mgr w; w_fake := w_fake w; w_sched := w_sched w; w_board := w_board w; w_redis := w_redis w; w_hash := w_hash w; w_freeze := w_freeze w; w_out := w_out w |}.
Definition set_wgs v w := {| w_db := w_db w; w_clock := w_clock w; w_dbnow := w_dbnow w; w_wall := w_wall w; w_faults := w_faults w; w_uuids := w_uuids w; w_rand := w_rand w; w_chans := w_chans w; w_wgs := v; w_mgr := w_mgr w; w_fake := w_fake w; w_sched := w_sched w; w_board := w_board w; w_redis := w_redis w; w_hash := w_hash w; w_freeze := w_freeze w; w_out := w_out w |}.
Definition set_mgr v w := {| w_db := w_db w; w_clock := w_clock w; w_dbnow := w_dbnow w; w_wall := w_wall w; w_faults := w_faults w; w_uuids := w_uuids w; w_rand := w_rand w; w_chans := w_chans w; w_wgs := w_wgs w; w_mgr := v; w_fake := w_fake w; w_sched := w_sched w; w_board := w_board w; w_redis := w_redis w; w_hash := w_hash w; w_freeze := w_freeze w; w_out := w_out w |}.
Definition set_fake v w := {| w_db := w_db w; w_clock := w_clock w; w_dbnow := w_dbnow w; w_wall := w_wall w; w_faults := w_faults w; w_uuids := w_uuids w; w_rand := w_rand w; w_chans := w_chans w; w_wgs := w_wgs w; w_mgr := w_mgr w; w_fake := v; w_sched := w_sched w; w_board := w_board w; w_redis := w_redis w; w_hash := w_hash w; w_freeze := w_freeze w; w_out := w_out w |}.
Definition set_sched v w := {| w_db := w_db w; w_clock := w_clock w; w_dbnow := w_dbnow w; w_wall := w_wall w; w_faults := w_faults w; w_uuids := w_uuids w; w_rand := w_rand w; w_chans := w_chans w; w_wgs := w_wgs w; w_mgr := w_mgr w; w_fake := w_fake w; w_sched := v; w_board := w_board w; w_redis := w_redis w; w_hash := w_hash w; w_freeze := w_freeze w; w_out := w_out w |}.
Definition set_board v w := {| w_db := w_db w; w_clock := w_clock w; w_dbnow := w_dbnow w; w_wall := w_wall w; w_faults := w_faults w; w_uuids := w_uuids w; w_rand := w_rand w; w_chans := w_chans w; w_wgs := w_wgs w; w_mgr := w_mgr w; w_fake := w_fake w; w_sched := w_sched w; w_board := v; w_redis := w_redis w; w_hash := w_hash w; w_freeze := w_freeze w; w_out := w_out w |}.
Definition set_out v w := {| w_db := w_db w; w_clock := w_clock w; w_dbnow := w_dbnow w; w_wall := w_wall w; w_faults := w_faults w; w_uuids := w_uuids w; w_rand := w_rand w; w_chans := w_chans w; w_wgs := w_wgs w; w_mgr := w_mgr w; w_fake := w_fake w; w_sched := w_sched w; w_board := w_board w; w_redis := w_redis w; w_hash := w_hash w; w_freeze := w_freeze w; w_out := v |}.

Definition set_redis v w := {| w_db := w_db w; w_clock := w_clock w; w_dbnow := w_dbnow w; w_wall := w_wall w; w_faults := w_faults w; w_uuids := w_uuids w; w_rand := w_rand w; w_chans := w_chans w; w_wgs := w_wgs w; w_mgr := w_mgr w; w_fake := w_fake w; w_sched := w_sched w; w_board := w_board w; w_redis := v; w_hash := w_hash w; w_freeze := w_freeze w; w_out := w_out w |}.
Definition set_hash v w := {| w_db := w_db w; w_clock := w_clock w; w_dbnow := w_dbnow w; w_wall := w_wall w; w_faults := w_faults w; w_uuids := w_uuids w; w_rand := w_rand w; w_chans := w_chans w; w_wgs := w_wgs w; w_mgr := w_mgr w; w_fake := w_fake w; w_sched := w_sched w; w_board := w_board w; w_redis := w_redis w; w_hash := v; w_freeze := w_freeze w; w_out := w_out w |}.
Definition set_freeze v w := {| w_db := w_db w; w_clock := w_clock w; w_dbnow := w_dbnow w; w_wall := w_wall w; w_faults := w_faults w; w_uuids := w_uuids w; w_rand := w_rand w; w_chans := w_chans w; w_wgs := w_wgs w; w_mgr := w_mgr w; w_fake := w_fake w; w_sched := w_sched w; w_board := w_board w; w_redis := w_redis w; w_hash := w_hash w; w_freeze := v; w_out := w_out w |}.

(** ** Actions on the world *)

(** The environment's choice for the next query or wait: [true] when it fails
    (connection lost, statement timeout, context cancelled). *)
Definition next_fault : M World bool := λ w,
  match w_faults w with
  | [] => (Ok false, w)
  | b :: bs => (Ok b, set_faults bs w)
  end.

(** One SQL statement outside a transaction, or one statement of one. A failing
    statement changes no table. *)
Definition query {A} (f : time → DB → res A * DB) : M World A :=
  b ← next_fault;
  if b : bool then throw ErrConn
  else λ w,
    match f (w_dbnow w) (w_db w) with
    | (Ok a, d) => (Ok a, set_db d w)
    | (Err e, _) => (Err e, w)
    end.

(** A read: it cannot change the tables. *)
Definition select {A} (f : DB → res A) : M World A :=
  query (λ _ d, (f d, d)).

(** [uuid.NewV7()]. *)
Definition NewV7 : M World uuid := λ w,
  match w_uuids w with
  | Some u :: us => (Ok u, set_uuids us w)
  | None :: us => (Err ErrRand, set_uuids us w)
  | [] => (Err ErrRand, w)
  end.

(** [rand.Read(buf)] for a buffer of [n] bytes. *)
Definition rand_Read (n : nat) : M World (list N) := λ w,
  match w_rand w with
  | Some bs :: rs => (Ok (take n (bs ++ replicate n 0%N)), set_rand rs w)
  | None :: rs => (Err ErrRand, set_rand rs w)
  | [] => (Err ErrRand, w)
  end.

Definition emit (e : effect) : M World unit := modify (λ w, set_out (w_out w ++ [e]) w).
Definition clock_now : M World time := gets w_clock.
Definition wall_now : M World time := gets w_wall.

(** [db.WithTx]: begin, run the body, commit on nil and roll back otherwise.
    The body runs as one atomic step: the row lock its first statement takes
    serializes it against the other transactions on the same anchor. *)
Definition WithTx {A} (body : M World A) : M World A := λ w,
  match next_fault w with
  | (Ok true, w) => (Err (Wrap "db: begin tx" ErrConn), w)
  | (_, w) =>
      match body w with
      | (Err e, w') => (Err e, set_db (w_db w) w')
      | (Ok a, w') =>
          match next_fault w' with
          | (Ok true, w') => (Err (Wrap "db: commit tx" ErrConn), set_db (w_db w) w')
          | (_, w') => (Ok a, w')
          end
      end
  end.

(** ** Go's synchronisation primitives *)

Definition make_chan (cap : nat) : P World nat :=
  atomic (λ w, (Ok (length (w_chans w)),
                set_chans (w_chans w ++ [{| ch_cap := cap; ch_len := 0 |}]) w)).

Definition chan_full (c : chan) : bool := (ch_cap c <=? ch_len c)%nat.
Definition chan_push (c : chan) : chan := {| ch_cap := ch_cap c; ch_len := S (ch_len c) |}.
Definition chan_pop (c : chan) : chan := {| ch_cap := ch_cap c; ch_len := pred (ch_len c) |}.

(** [ch <- struct{}{}] waits while the buffer is full, [<-ch] while it is empty. *)
Definition try_send (c : nat) (w : World) : option World :=
  match w_chans w !! c with
  | Some ch => if chan_full ch then None else Some (set_chans (<[c := chan_push ch]> (w_chans w)) w)
  | None => None
  end.
Definition try_recv (c : nat) (w : World) : option World :=
  match w_chans w !! c with
  | Some ch => if (ch_len ch =? 0)%nat then None
               else Some (set_chans (<[c := chan_pop ch]> (w_chans w)) w)
  | None => None
  end.
Definition send (c : nat) : P World unit := blocking (λ w, pair tt <$> try_send c w).
Definition recv (c : nat) : P World unit := blocking (λ w, pair tt <$> try_recv c w).

(** [select { case ch <- struct{}{}: true; case <-ctx.Done(): false }]. *)
Definition send_or_done (c : nat) : P World bool :=
  blocking (λ w, match next_fault w with
    | (Ok true, w') => Some (false, w')
    | (_, w') => pair true <$> try_send c w'
    end).

(** [select { case ch <- struct{}{}: true; default: false }]. *)
Definition send_or_default (c : nat) : P World bool :=
  blocking (λ w, match try_send c w with Some w' => Some (true, w') | None => Some (false, w) end).

(** [sync.WaitGroup]. *)
Definition new_wg : P World nat :=
  atomic (λ w, (Ok (length (w_wgs w)), set_wgs (w_wgs w ++ [0%Z]) w)).
Definition wg_Add (g : nat) (d : Z) : P World unit :=
  atomic (modify (λ w, set_wgs (alter (Z.add d) g (w_wgs w)) w)).
Definition wg_Done (g : nat) : P World unit := wg_Add g (-1).
Definition wg_Wait (g : nat) : P World unit :=
  blocking (λ w, if decide (w_wgs w !! g = Some 0%Z) then Some (tt, w) else None).

(** ** Reasoning about the actions *)

(** An invariant of the tables alone. *)
Definition dbi (J : DB → Prop) : World → Prop := λ w, J (w_db w).

Section DbInv.
Context (J : DB → Prop).

(** An action that leaves the tables alone. *)
Lemma preserves_dbi_same {A} (m : M World A) :
  (∀ w, w_db (m w).2 = w_db w) → preserves (dbi J) m.
Proof. intros Hm w HJ. unfold dbi. by rewrite Hm. Qed.

Lemma next_fault_db w : w_db (next_fault w).2 = w_db w.
Proof. unfold next_fault. by destruct (w_faults w). Qed.

Lemma preserves_dbi_query {A} (f : time → DB → res A * DB) :
  (∀ now d a d', J d → f now d = (Ok a, d') → J d') → preserves (dbi J) (query f).
Proof.
  intros Hf w HJ. unfold query, mbind, M_bind.
  pose proof (next_fault_db w) as Hd.
  destruct (next_fault w) as [[[]|e] w']; simpl in *; unfold dbi; try congruence.
  - by rewrite Hd.
  - destruct (f _ _) as [[a|e] d] eqn:E; simpl; [|by rewrite Hd].
    eapply Hf; [|exact E]. by rewrite Hd.
  - by rewrite Hd.
Qed.

Lemma preserves_dbi_select {A} (f : DB → res A) : preserves (dbi J) (select f).
Proof. apply preserves_dbi_query. intros now d a d' HJ E. by simplify_eq. Qed.

Lemma preserves_dbi_NewV7 : preserves (dbi J) NewV7.
Proof. apply preserves_dbi_same. intros w. unfold NewV7. by destruct (w_uuids w) as [|[]]. Qed.
Lemma preserves_dbi_rand n : preserves (dbi J) (rand_Read n).
Proof. apply preserves_dbi_same. intros w. unfold rand_Read. by destruct (w_rand w) as [|[]]. Qed.
Lemma preserves_dbi_emit e : preserves (dbi J) (emit e).
Proof. by apply preserves_dbi_same. Qed.
Lemma preserves_dbi_modify f : (∀ w, w_db (f w) = w_db w) → preserves (dbi J) (modify f).
Proof. intros Hf. by apply preserves_dbi_same. Qed.

Lemma try_send_db c w w' : try_send c w = Some w' → w_db w' = w_db w.
Proof.
  unfold try_send. destruct (w_chans w !! c); [|done].
  destruct (chan_full _); naive_solver.
Qed.
Lemma try_recv_db c w w' : try_recv c w = Some w' → w_db w' = w_db w.
Proof.
  unfold try_recv. destruct (w_chans w !! c); [|done].
  destruct (_ =? _)%nat; naive_solver.
Qed.

Lemma all_steps_dbi_blocking {A} (f : World → option (A * World)) :
  (∀ w a w', f w = Some (a, w') → w_db w' = w_db w) → all_steps (dbi J) (blocking f).
Proof. intros Hf. apply all_steps_blocking. intros w a w' HJ E. unfold dbi. by erewrite Hf. Qed.

Lemma all_steps_dbi_send c : all_steps (dbi J) (send c).
Proof.
  apply all_steps_dbi_blocking. intros w a w' E. apply fmap_Some in E as (w1 & E & [= -> ->]).
  by eapply try_send_db.
Qed.
Lemma all_steps_dbi_recv c : all_steps (dbi J) (recv c).
Proof.
  apply all_steps_dbi_blocking. intros w a w' E. apply fmap_Some in E as (w1 & E & [= -> ->]).
  by eapply try_recv_db.
Qed.
Lemma all_steps_dbi_send_or_done c : all_steps (dbi J) (send_or_done c).
Proof.
  apply all_steps_dbi_blocking. intros w a w' E. pose proof (next_fault_db w) as Hd.
  destruct (next_fault w) as [[[]|e] w1]; simpl in *;
    [simplify_eq; done|apply fmap_Some in E as (w2 & E & [= -> ->])..];
    by rewrite (try_send_db _ _ _ E).
Qed.
Lemma all_steps_dbi_send_or_default c : all_steps (dbi J) (send_or_default c).
Proof.
  apply all_steps_dbi_blocking. intros w a w' E.
  destruct (try_send c w) as [w1|] eqn:E1; simplify_eq; [by eapply try_send_db|done].
Qed.
Lemma all_steps_dbi_wg_Wait g : all_steps (dbi J) (wg_Wait g).
Proof. apply all_steps_dbi_blocking. intros w a w' E. case_decide; naive_solver. Qed.

Lemma preserves_dbi_WithTx {A} (m : M World A) : preserves (dbi J) m → preserves (dbi J) (WithTx m).
Proof.
  intros Hm w HJ. unfold WithTx. pose proof (next_fault_db w) as Hd.
  destruct (next_fault w) as [r w1]; simpl in Hd.
  assert (dbi J w1) as HJ1 by (unfold dbi in *; congruence).
  specialize (Hm w1 HJ1).
  assert (dbi J (match m w1 with
    | (Err e, w') => (Err e, set_db (w_db w1) w')
    | (Ok a, w') => match next_fault w' with
        | (Ok true, w') => (Err (Wrap "db: commit tx" ErrConn), set_db (w_db w1) w')
        | (_, w') => (Ok a, w')
        end
    end).2) as Hgoal.
  { destruct (m w1) as [[a|e] w2]; [|exact HJ1]. pose proof (next_fault_db w2) as Hd2.
    destruct (next_fault w2) as [[[]|e] w3]; [exact HJ1|..];
      unfold dbi in *; simpl in *; congruence. }
  destruct r as [[]|e]; [exact HJ1|exact Hgoal..].
Qed.
End DbInv.

#[export] Hint Resolve preserves_dbi_select preserves_dbi_NewV7 preserves_dbi_rand
  preserves_dbi_emit all_steps_dbi_send all_steps_dbi_recv all_steps_dbi_send_or_done
  all_steps_dbi_send_or_default all_steps_dbi_wg_Wait preserves_dbi_WithTx : pres.
#[export] Hint Extern 1 (preserves _ clock_now) => (apply preserves_gets) : pres.
#[export] Hint Extern 1 (preserves _ wall_now) => (apply preserves_gets) : pres.
#[export] Hint Extern 5 (preserves (dbi _) _) => (apply preserves_dbi_select) : pres.
#[export] Hint Extern 1 (preserves (dbi _) (modify _)) => (apply preserves_dbi_modify; reflexivity) : pres.

(** Without faults a query is its effect on the tables. *)
Lemma query_nofault {A} (f : time → DB → res A * DB) w :
  w_faults w = [] →
  query f w = match f (w_dbnow w) (w_db w) with
              | (Ok a, d) => (Ok a, set_db d w) | (Err e, _) => (Err e, w) end.
Proof. intros E. unfold query, mbind, M_bind. unfold next_fault. by rewrite E. Qed.

Lemma set_db_same w : set_db (w_db w) w = w.
Proof. by destruct w. Qed.

Lemma select_nofault {A} (f : DB → res A) w : w_faults w = [] → select f w = (f (w_db w), w).
Proof.
  intros E. unfold select. rewrite query_nofault by done.
  destruct (f (w_db w)); by rewrite ?set_db_same.
Qed.

(** ** Inverting successful actions *)

Lemma M_bind_ok {S A B} (m : M S A) (k : A → M S B) s b s' :
  (m ≫= k) s = (Ok b, s') → ∃ a s1, m s = (Ok a, s1) ∧ k a s1 = (Ok b, s').
Proof. unfold mbind, M_bind. destruct (m s) as [[a|e] s1]; [eauto|done]. Qed.

Lemma map_err_ok {S A} f (m : M S A) s a s' : map_err f m s = (Ok a, s') ↔ m s = (Ok a, s').
Proof.
  unfold map_err, mbind, M_bind. simpl. unfold M_try.
  destruct (m s) as [[x|e] s1]; simpl; [|done]. unfold mret, M_ret. naive_solver.
Qed.

(** A statement that succeeded, and one that read without changing anything. *)
Lemma query_ok {A} (f : time → DB → res A * DB) w a w' :
  query f w = (Ok a, w') →
  f (w_dbnow w) (w_db w) = (Ok a, w_db w') ∧ w_dbnow w' = w_dbnow w ∧ w_clock w' = w_clock w ∧
  w_uuids w' = w_uuids w ∧ w_out w' = w_out w.
Proof.
  unfold query, mbind, M_bind, next_fault.
  destruct (w_faults w) as [|[] fs]; simpl; try done;
    (destruct (f _ _) as [[x|e] d]; [|done]); by intros [= -> <-].
Qed.

Lemma select_ok {A} (f : DB → res A) w a w' :
  select f w = (Ok a, w') →
  f (w_db w) = Ok a ∧ w_db w' = w_db w ∧ w_dbnow w' = w_dbnow w ∧ w_clock w' = w_clock w ∧
  w_uuids w' = w_uuids w ∧ w_out w' = w_out w.
Proof. intros (E & H1 & H2 & H3 & H4)%query_ok. injection E as E1 E2. by split_and!. Qed.

(** A failed statement left the tables alone. *)
Lemma query_err {A} (f : time → DB → res A * DB) w e w' : query f w = (Err e, w') → w_db w' = w_db w.
Proof.
  unfold query, mbind, M_bind, next_fault.
  destruct (w_faults w) as [|[] fs]; simpl; [|by intros [= <- <-]|];
    (destruct (f _ _) as [[x|e'] d]; [done|]); by intros [= <- <-].
Qed.

(** The tables after a statement that failed. *)
Ltac head_of t := lazymatch t with ?f _ => head_of f | _ => t end.
Tactic Notation "same_tables" hyp(H) "as" ident(Hd) :=
  lazymatch type of H with
  | ?m ?w = (Err _, ?w') =>
      let h := head_of m in
      assert (w_db w' = w_db w) as Hd by (unfold h in H; try unfold select in H; eapply query_err; exact H)
  end.

(** A transaction commits its body's tables, or changes none. *)
Lemma WithTx_spec {A} (m : M World A) w r w' :
  WithTx m w = (r, w') →
  match r with
  | Ok a => ∃ w1 w2, w_db w1 = w_db w ∧ w_dbnow w1 = w_dbnow w ∧ w_clock w1 = w_clock w ∧
                     m w1 = (Ok a, w2) ∧ w_db w' = w_db w2
  | Err _ => w_db w' = w_db w
  end.
Proof.
  unfold WithTx, next_fault.
  destruct (w_faults w) as [|[] fs]; simpl; [|by intros [= <- <-]|];
    (destruct (m _) as [[a|e] w2] eqn:Em; simpl; [|by intros [= <- <-]]);
    (destruct (w_faults w2) as [|[] fs2]; simpl; intros [= <- <-]; try done);
    refine (ex_intro _ _ (ex_intro _ w2 (conj _ (conj _ (conj _ (conj Em _)))))); done.
Qed.

Lemma NewV7_ok w a w' :
  NewV7 w = (Ok a, w') → w_db w' = w_db w ∧ w_dbnow w' = w_dbnow w ∧ w_clock w' = w_clock w.
Proof. unfold NewV7. destruct (w_uuids w) as [|[u|] us]; intros [= <- <-]; done. Qed.
