(* ===== verification/Demo.v ===== *)
(** * Concrete inputs

    An instance of the library class and a small world (a running event, two
    teams, a per-team challenge) on which the theorems' hypotheses are checked. *)

From Stdlib Require Import Ascii.
From S2P Require Import Prelude Env.

(** A rendering of ids that can be parsed back: their binary digits. *)
Fixpoint pos_string (p : positive) : string :=
  match p with
  | xH => "1" | xO p => String "0" (pos_string p) | xI p => String "1" (pos_string p)
  end.
Fixpoint pos_parse (s : string) : option positive :=
  match s with
  | EmptyString => None
  | String c EmptyString => if decide (c = "1"%char) then Some xH else None
  | String c s =>
      p ← pos_parse s;
      if decide (c = "1"%char) then Some (xI p)
      else if decide (c = "0"%char) then Some (xO p) else None
  end.
Definition N_string (n : N) : string :=
  "uuid-000" +:+ match n with N0 => "" | Npos p => pos_string p end.
Definition N_parse (s : string) : option N :=
  match s with
  | String _ (String _ (String _ (String _ (String _ (String _ (String _ (String _ r))))))) =>
      match r with EmptyString => Some 0%N | _ => Npos <$> pos_parse r end
  | _ => None
  end.

Lemma pos_string_cons p : ∃ c s, pos_string p = String c s.
Proof. destruct p; simpl; eauto. Qed.

Lemma pos_parse_string p : pos_parse (pos_string p) = Some p.
Proof.
  induction p as [p IH|p IH|]; simpl; [..|done];
    destruct (pos_string_cons p) as (c & s & E); rewrite E in *; cbn [pos_parse] in *;
    by rewrite IH.
Qed.

Lemma N_parse_string n : N_parse (N_string n) = Some n.
Proof.
  destruct n as [|p]; [done|]. unfold N_string, N_parse. cbn [String.append].
  pose proof (pos_parse_string p) as Hp.
  destruct (pos_string_cons p) as (c & s & E). rewrite E in *. cbv [N_string N_parse String.append]. by rewrite Hp.
Qed.

Definition demo_libs : Libs :=
  {| uuid_String := N_string; uuid_Parse := N_parse; uuid_Parse_String := N_parse_string;
     ToLower := ascii_lower; ToLower_ascii := λ s _, eq_refl; citext_lower := ascii_lower;
     sha256_hex := λ s, "hash-of-" +:+ s; mail_ParseAddress := λ s, match String.index 0 "@" s with Some _ => true | None => false end |}.

(** ** A world *)

Definition demo_user (id : uuid) : User :=
  {| u_ID := id; u_Username := "user" +:+ N_string id; u_Email := N_string id +:+ "@x.org";
     u_PasswordHash := ""; u_Role := "player"; u_Banned := false; u_Hidden := false |}.
Definition demo_team (id captain : uuid) : Team :=
  {| t_ID := id; t_Name := "team" +:+ N_string id; t_InviteCode := "inv" +:+ N_string id;
     t_CaptainID := captain; t_Banned := false; t_Hidden := false; t_CreatedAt := 0 |}.
Definition demo_challenge (id : uuid) (kind instancing flag_mode : string) : Challenge :=
  {| c_ID := id; c_Slug := "chal-" +:+ N_string id; c_Title := "Chal"; c_Category := "pwn"; c_Description := ""; c_Difficulty := None;
     c_Kind := kind; c_Flag := "osctf{static}"; c_FlagCaseInsensitive := false;
     c_Scoring := "static"; c_PointsInitial := 100; c_PointsMin := None; c_Decay := None;
     c_MaxAttempts := Some 3%Z; c_Visible := true; c_Image := Some "img";
     c_InternalPort := Some 80%Z; c_MemLimitMb := 128; c_CpuMillis := 500; c_ContainerEnv := ∅;
     c_ConnectionTemplate := None; c_CreatedAt := 0; c_UpdatedAt := 0; c_Instancing := instancing;
     c_FlagMode := flag_mode; c_InstanceTtlSeconds := None; c_Egress := true;
     c_WritablePaths := []; c_Type := "standard"; c_TypeConfig := ∅ |}.
Definition demo_event : Event :=
  {| e_ID := 1%N; e_Name := "Demo"; e_Description := ""; e_StartsAt := 0;
     e_EndsAt := (10 * Hour)%Z; e_FreezeAt := None |}.
Definition demo_db : DB :=
  {| users := {[ 11%N := demo_user 11; 12%N := demo_user 12 ]};
     teams := {[ 21%N := demo_team 21 11; 22%N := demo_team 22 12 ]};
     members := [ {| tm_TeamID := 21%N; tm_UserID := 11%N; tm_JoinedAt := 0 |};
                  {| tm_TeamID := 22%N; tm_UserID := 12%N; tm_JoinedAt := 1 |} ];
     event := Some demo_event;
     challenges := {[ 31%N := demo_challenge 31 "container" "per_team" "per_instance";
                      32%N := demo_challenge 32 "standard" "shared" "static" ]};
     submissions := []; instances := ∅; identities := ∅; tokens := ∅; attachments := ∅; audit := [] |}.

Definition demo_instance (id team : uuid) (port : Z) (st : State) (expires : option time) : Instance_ :=
  {| i_ID := id; i_ChallengeID := 31%N; i_State := st; i_ContainerID := None;
     i_HostPort := Some port; i_Error := None; i_StartedAt := None; i_LastHealthAt := None;
     i_CreatedAt := 0; i_UpdatedAt := 0; i_TeamID := Some team; i_Flag := None;
     i_ExpiresAt := expires; i_Network := None |}.

Definition demo_world (d : DB) (clock : time) : World :=
  {| w_db := d; w_clock := clock; w_dbnow := clock; w_wall := clock; w_faults := [];
     w_uuids := map (λ n, Some (N.of_nat n)) (seq 100 50); w_rand := map (λ i, Some (map N.of_nat (seq i 24))) (seq 1 10);
     w_chans := []; w_wgs := [];
     w_mgr := {| gateArmed := false; allowUnisolated := false; isolation := isolationUnknown;
                 lastUnisoWarn := 0; secLog := false |};
     w_fake := {| fk_containers := ∅; fk_deployed := []; fk_destroyed := [];
                  fk_lastReconcileActions := 0 |};
     w_sched := {| teamMu := ∅; locks := []; expireOffset := 0 |};
     w_board := {| bd_current := None; bd_frozen := None; bd_lastCount := 0; bd_sent := []; bd_mu := false |};
     w_redis := redis_empty;
     w_hash := 0;
     w_freeze := None;
     w_out := [] |}.
