(* ===== verification/Store.v ===== *)
(** * The SQL statements the services run

    One definition per statement of [internal/db/gen/*.sql.go], over the tables
    of [Env.DB], with the constraints of [internal/db/migrations] that an
    insert or update can violate.  A statement that violates one returns the
    [pgconn.PgError] the services look at and changes no table. *)

From S2P Require Import Prelude Interleave Env.

(** ** Rows, orders and constraints *)

(** [ORDER BY key ASC]. *)
Definition key_le {A} (key : A → Z) (a b : A) : Prop := (key a ≤ key b)%Z.
#[export] Instance key_le_dec {A} (key : A → Z) : RelDecision (key_le key).
Proof. intros a b. unfold key_le. apply _. Defined.
Definition order_by {A} (key : A → Z) (l : list A) : list A :=
  merge_sort (key_le key) l.

(** A constraint list: the first violated one is reported. *)
Fixpoint first_violation (cs : list (bool * error)) : option error :=
  match cs with
  | [] => None
  | (bad, e) :: cs => if bad then Some e else first_violation cs
  end.

Definition unique (bad : bool) (name : string) : bool * error := (bad, PgError "23505" name).
Definition foreign (bad : bool) (name : string) : bool * error := (bad, PgError "23503" name).
Definition checked (bad : bool) (name : string) : bool * error := (bad, PgError "23514" name).

Definition guarded {A} (cs : list (bool * error)) (ok : res A * DB) (d : DB) : res A * DB :=
  match first_violation cs with Some e => (Err e, d) | None => ok end.

Definition is_Some_b {A} (o : option A) : bool := match o with Some _ => true | None => false end.

Definition one {A} (o : option A) : res A :=
  match o with Some a => Ok a | None => Err ErrNoRows end.

(** Postgres [char_length] of a UTF-8 text: the bytes that are not
    continuation bytes. *)
Fixpoint char_length (s : string) : nat :=
  match s with
  | EmptyString => 0
  | String c s =>
      (if bool_decide (128 ≤ Ascii.nat_of_ascii c < 192) then 0 else 1) + char_length s
  end.

(** [coalesce($n, column)] for a nullable column and for a non-null one. *)
Definition coalesce {A} (a b : option A) : option A := match a with Some _ => a | None => b end.
Definition coalesce1 {A} (a : option A) (b : A) : A := match a with Some x => x | None => b end.

(** ** instances *)

Definition inst_rows (d : DB) : list Instance_ := (map_to_list (instances d)).*2.

Definition owned_by (team : uuid) (i : Instance_) : bool := bool_decide (i_TeamID i = Some team).
Definition is_state (s : State) (i : Instance_) : bool := bool_decide (i_State i = s).

Definition CountTeamRunningInstances (team : uuid) : M World nat :=
  select (λ d, Ok (length (List.filter
    (λ i, owned_by team i && is_state StateRunning i) (inst_rows d)))).

Definition inst_conflicts (r : Instance_) (d : DB) : list (bool * error) :=
  let any f := existsb f (inst_rows d) in
  [ checked (match i_HostPort r with
             | Some p => negb ((30000 <=? p) && (p <=? 32767))%Z | None => false end)
            "chk_instances_host_port_range";
    unique (is_Some_b (instances d !! i_ID r)) "instances_pkey";
    unique (any (λ i, is_Some_b (i_HostPort r) && bool_decide (i_HostPort i = i_HostPort r)))
           "uq_instances_host_port";
    unique (negb (is_Some_b (i_TeamID r)) &&
            any (λ i, negb (is_Some_b (i_TeamID i)) &&
                      bool_decide (i_ChallengeID i = i_ChallengeID r))) "uq_instances_shared";
    unique (is_Some_b (i_TeamID r) &&
            any (λ i, bool_decide (i_TeamID i = i_TeamID r) &&
                      bool_decide (i_ChallengeID i = i_ChallengeID r))) "uq_instances_per_team";
    unique (is_Some_b (i_Flag r) && any (λ i, bool_decide (i_Flag i = i_Flag r)))
           "uq_instances_flag";
    foreign (negb (is_Some_b (challenges d !! i_ChallengeID r))) "instances_challenge_id_fkey";
    foreign (match i_TeamID r with
             | Some t => negb (is_Some_b (teams d !! t)) | None => false end)
            "instances_team_id_fkey" ].

Definition new_instance (now : time) (id challenge : uuid) (team : option uuid) (st : State)
    (port : option Z) (flag : option string) (expires : option time)
    (network : option string) : Instance_ :=
  {| i_ID := id; i_ChallengeID := challenge; i_State := st; i_ContainerID := None;
     i_HostPort := port; i_Error := None; i_StartedAt := None; i_LastHealthAt := None;
     i_CreatedAt := now; i_UpdatedAt := now; i_TeamID := team; i_Flag := flag;
     i_ExpiresAt := expires; i_Network := network |}.

Definition CreateInstance (id challenge : uuid) (team : option uuid) (st : State)
    (port : option Z) (flag : option string) (expires : option time)
    (network : option string) : M World Instance_ :=
  query (λ now d,
    let r := new_instance now id challenge team st port flag expires network in
    guarded (inst_conflicts r d) (Ok r, set_instances (<[id := r]> (instances d)) d) d).

Definition DeleteInstance (id : uuid) : M World unit :=
  query (λ _ d, (Ok tt, set_instances (delete id (instances d)) d)).

Definition FindInstanceByFlag (challenge : uuid) (flag : string) : M World Instance_ :=
  select (λ d, one (List.find (λ i, bool_decide (i_ChallengeID i = challenge) &&
      bool_decide (i_Flag i = Some flag) && is_Some_b (i_TeamID i)) (inst_rows d))).

Definition GetInstanceByID (id : uuid) : M World Instance_ :=
  select (λ d, one (instances d !! id)).

Definition GetSharedInstance (challenge : uuid) : M World Instance_ :=
  select (λ d, one (List.find (λ i, bool_decide (i_ChallengeID i = challenge) &&
      negb (is_Some_b (i_TeamID i))) (inst_rows d))).

Definition is_team_instance (challenge team : uuid) (i : Instance_) : bool :=
  bool_decide (i_ChallengeID i = challenge) && owned_by team i.

Definition GetTeamInstance (challenge team : uuid) : M World Instance_ :=
  select (λ d, one (List.find (is_team_instance challenge team) (inst_rows d))).

Definition is_expired (now : time) (i : Instance_) : bool :=
  match i_ExpiresAt i with Some e => (e <? now)%Z | None => false end &&
  negb (is_state StateStopped i || is_state StateError i || is_state StateLost i).

Definition ListExpiredInstances (now : time) : M World (list Instance_) :=
  select (λ d, Ok (List.filter (is_expired now) (inst_rows d))).

Definition ListInstances : M World (list Instance_) :=
  select (λ d, Ok (order_by i_CreatedAt (inst_rows d))).

Definition is_per_team (i : Instance_) : bool := is_Some_b (i_TeamID i).

Definition ListPerTeamInstances : M World (list Instance_) :=
  select (λ d, Ok (List.filter is_per_team (inst_rows d))).

Definition is_stale (cutoff : time) (i : Instance_) : bool :=
  (is_state StatePending i || is_state StateError i || is_state StateLost i) &&
  (i_UpdatedAt i <? cutoff)%Z.

Definition ListStaleInstances (cutoff : time) : M World (list Instance_) :=
  select (λ d, Ok (order_by i_UpdatedAt (List.filter (is_stale cutoff) (inst_rows d)))).

Definition ListTeamInstances (team : uuid) : M World (list Instance_) :=
  select (λ d, Ok (order_by i_CreatedAt (List.filter (owned_by team) (inst_rows d)))).

Definition ListUsedPorts : M World (list Z) :=
  select (λ d, Ok (order_by id (omap i_HostPort (inst_rows d)))).

Definition ReconcileClock : M World time := query (λ now d, (Ok now, d)).

Definition SetInstanceExpiry (id : uuid) (expires : option time) : M World Instance_ :=
  query (λ now d,
    match instances d !! id with
    | None => (Err ErrNoRows, d)
    | Some i =>
        let r := {| i_ID := i_ID i; i_ChallengeID := i_ChallengeID i; i_State := i_State i;
                    i_ContainerID := i_ContainerID i; i_HostPort := i_HostPort i;
                    i_Error := i_Error i; i_StartedAt := i_StartedAt i;
                    i_LastHealthAt := i_LastHealthAt i; i_CreatedAt := i_CreatedAt i;
                    i_UpdatedAt := now; i_TeamID := i_TeamID i; i_Flag := i_Flag i;
                    i_ExpiresAt := expires; i_Network := i_Network i |} in
        (Ok r, set_instances (<[id := r]> (instances d)) d)
    end).

Record UpdateInstanceParams := {
  up_State : option State; up_ContainerID : option string; up_SetError : bool;
  up_Error : option string; up_StartedAt : option time; up_LastHealthAt : option time
}.

Definition updated_instance (now : time) (p : UpdateInstanceParams) (i : Instance_) : Instance_ :=
  {| i_ID := i_ID i; i_ChallengeID := i_ChallengeID i;
     i_State := coalesce1 (up_State p) (i_State i);
     i_ContainerID := coalesce (up_ContainerID p) (i_ContainerID i);
     i_HostPort := i_HostPort i;
     i_Error := if up_SetError p then up_Error p else i_Error i;
     i_StartedAt := coalesce (up_StartedAt p) (i_StartedAt i);
     i_LastHealthAt := coalesce (up_LastHealthAt p) (i_LastHealthAt i);
     i_CreatedAt := i_CreatedAt i; i_UpdatedAt := now; i_TeamID := i_TeamID i;
     i_Flag := i_Flag i; i_ExpiresAt := i_ExpiresAt i; i_Network := i_Network i |}.

Definition UpdateInstance (id : uuid) (p : UpdateInstanceParams) : M World Instance_ :=
  query (λ now d,
    match instances d !! id with
    | None => (Err ErrNoRows, d)
    | Some i => let r := updated_instance now p i in
                (Ok r, set_instances (<[id := r]> (instances d)) d)
    end).

(** ** events *)

Definition GetEvent : M World Event := select (λ d, one (event d)).
Definition CountEvents : M World nat :=
  select (λ d, Ok (match event d with Some _ => 1 | None => 0 end)).

Definition event_checks (e : Event) : list (bool * error) :=
  [ checked (negb (e_StartsAt e <? e_EndsAt e)%Z) "chk_events_window";
    checked (match e_FreezeAt e with
             | Some f => negb ((e_StartsAt e <? f) && (f <=? e_EndsAt e))%Z | None => false end)
            "chk_events_freeze" ].

(** The table holds at most one row in v0.1: [EnsureDefault] is the only insert
    and runs only when [CountEvents] is zero. *)
Definition CreateEvent (e : Event) : M World Event :=
  query (λ _ d, guarded (event_checks e) (Ok e, set_event (Some e) d) d).

Definition UpdateEvent (id : uuid) (name description : option string)
    (starts ends : option time) (set_freeze : bool) (freeze : option time) : M World Event :=
  query (λ _ d,
    match event d with
    | None => (Err ErrNoRows, d)
    | Some e =>
        if decide (e_ID e = id) then
          let r := {| e_ID := e_ID e; e_Name := coalesce1 name (e_Name e);
                      e_Description := coalesce1 description (e_Description e);
                      e_StartsAt := coalesce1 starts (e_StartsAt e);
                      e_EndsAt := coalesce1 ends (e_EndsAt e);
                      e_FreezeAt := if set_freeze then freeze else e_FreezeAt e |} in
          guarded (event_checks r) (Ok r, set_event (Some r) d) d
        else (Err ErrNoRows, d)
    end).

(** ** challenges *)

Definition GetChallengeByID (id : uuid) : M World Challenge :=
  select (λ d, one (challenges d !! id)).
Definition GetChallengeForUpdate (id : uuid) : M World Challenge := GetChallengeByID id.
Definition chal_rows (d : DB) : list Challenge := (map_to_list (challenges d)).*2.
Definition GetChallengeBySlug (slug : string) : M World Challenge :=
  select (λ d, one (List.find (λ c, bool_decide (c_Slug c = slug)) (chal_rows d))).

(** ** submissions *)

Definition for_pair (challenge team : uuid) (s : Submission) : bool :=
  bool_decide (s_ChallengeID s = challenge) && bool_decide (s_TeamID s = team).

Definition solved_b (challenge team : uuid) (l : list Submission) : bool :=
  existsb (λ s, for_pair challenge team s && s_Correct s) l.

Definition HasTeamSolved (challenge team : uuid) : M World bool :=
  select (λ d, Ok (solved_b challenge team (submissions d))).

Definition attempts_of (challenge team : uuid) (l : list Submission) : nat :=
  length (List.filter (for_pair challenge team) l).

Definition CountTeamAttempts (challenge team : uuid) : M World nat :=
  select (λ d, Ok (attempts_of challenge team (submissions d))).

Definition CountTeamSubmissions (team : uuid) : M World nat :=
  select (λ d, Ok (length (List.filter (λ s, bool_decide (s_TeamID s = team)) (submissions d)))).

Definition sub_conflicts (r : Submission) (d : DB) : list (bool * error) :=
  [ unique (existsb (λ s, bool_decide (s_ID s = s_ID r)) (submissions d)) "submissions_pkey";
    unique (s_Correct r && solved_b (s_ChallengeID r) (s_TeamID r) (submissions d))
           "uq_submissions_solve";
    foreign (negb (is_Some_b (challenges d !! s_ChallengeID r))) "submissions_challenge_id_fkey";
    foreign (negb (is_Some_b (teams d !! s_TeamID r))) "submissions_team_id_fkey";
    foreign (negb (is_Some_b (users d !! s_UserID r))) "submissions_user_id_fkey" ].

Definition CreateSubmission (id challenge team user : uuid) (provided : string)
    (correct : bool) : M World Submission :=
  query (λ now d,
    let r := {| s_ID := id; s_ChallengeID := challenge; s_TeamID := team; s_UserID := user;
                s_Provided := provided; s_Correct := correct; s_CreatedAt := now;
                s_ScoredValue := None; s_ScoredBy := None |} in
    guarded (sub_conflicts r d) (Ok r, set_submissions (submissions d ++ [r]) d) d).

Definition has_member_not_hidden (d : DB) (team : uuid) : bool :=
  existsb (λ m, bool_decide (tm_TeamID m = team) &&
    match users d !! tm_UserID m with Some u => negb (u_Hidden u) | None => false end)
    (members d).

(** Every correct row of the challenge, whichever team it belongs to. *)
Definition solves_of (challenge : uuid) (l : list Submission) : nat :=
  length (List.filter (λ s, bool_decide (s_ChallengeID s = challenge) && s_Correct s) l).

Definition CountChallengeSolves (challenge : uuid) : M World nat :=
  select (λ d, Ok (solves_of challenge (submissions d))).

Definition score_record (by_ : option string) (v : option Z) (s : Submission)
    : Submission :=
  {| s_ID := s_ID s; s_ChallengeID := s_ChallengeID s; s_TeamID := s_TeamID s;
     s_UserID := s_UserID s; s_Provided := s_Provided s; s_Correct := s_Correct s;
     s_CreatedAt := s_CreatedAt s; s_ScoredValue := v; s_ScoredBy := by_ |}.

Definition unrecorded (id : uuid) (s : Submission) : bool :=
  bool_decide (s_ID s = id) && s_Correct s && negb (is_Some_b (s_ScoredValue s)).

Definition RecordScore (id : uuid) (by_ : option string) (v : option Z) : M World nat :=
  query (λ _ d,
    (Ok (length (List.filter (unrecorded id) (submissions d))),
     set_submissions (map (λ s, if unrecorded id s then score_record by_ v s else s)
       (submissions d)) d)).

(** ** audit_log *)

(** [audit.Logger.Log]: a failed write is logged, never propagated. *)
Definition InsertAuditLog (r : AuditRow) : M World unit :=
  query (λ _ d,
    guarded [ foreign (match a_ActorID r with
                       | Some u => negb (is_Some_b (users d !! u)) | None => false end)
                      "audit_log_actor_id_fkey" ]
      (Ok tt, set_audit (audit d ++ [r]) d) d).

Definition audit_Log (actor : uuid) (action subject_type subject_id : string)
    (meta : gmap string string) : M World unit :=
  r ← try (InsertAuditLog
    {| a_ActorID := if decide (actor = uuid_Nil) then None else Some actor;
       a_Action := action; a_SubjectType := subject_type; a_SubjectID := subject_id;
       a_Meta := meta |});
  match r with
  | Ok _ => mret tt
  | Err _ => emit (Log "ERROR" "audit write failed")
  end.

(** An invariant that does not read the audit log is kept by writing to it. *)
Lemma audit_Log_dbi (J : DB → Prop) actor action st sid meta :
  (∀ a d, J d → J (set_audit a d)) → preserves (dbi J) (audit_Log actor action st sid meta).
Proof.
  intros HJ. unfold audit_Log. apply preserves_bind.
  - apply preserves_try, preserves_dbi_query. intros now d a d' Hd E. unfold guarded in E.
    destruct (first_violation _); simplify_eq. by apply HJ.
  - intros [[]|e]; [apply preserves_ret|apply preserves_dbi_emit].
Qed.
#[export] Hint Extern 1 (preserves (dbi _) (audit_Log _ _ _ _ _)) =>
  (apply audit_Log_dbi; intros; assumption) : pres.

Lemma audit_Log_total actor action st sid meta w : (audit_Log actor action st sid meta w).1 = Ok tt.
Proof.
  unfold audit_Log, mbind, M_bind. simpl. unfold M_try.
  destruct (InsertAuditLog _ w) as [[[]|e] w']; done.
Qed.

(** ** Reading off an accepted statement *)

Lemma first_violation_none cs :
  first_violation cs = None ↔ Forall (λ c, c.1 = false) cs.
Proof.
  induction cs as [|[b e] cs IH]; simpl; [done|]. rewrite Forall_cons; simpl.
  destruct b; naive_solver.
Qed.

Lemma solo_select {A} (f : DB → res A) w : w_faults w = [] → solo (atomic (select f)) w = Some (f (w_db w), w).
Proof. intros E. by rewrite solo_atomic, select_nofault. Qed.

Lemma elem_of_rows `{Countable K} {V} (m : gmap K V) v : v ∈ (map_to_list m).*2 ↔ ∃ k, m !! k = Some v.
Proof.
  rewrite list_elem_of_fmap. split.
  - intros ([k v'] & -> & Hin). apply elem_of_map_to_list in Hin. eauto.
  - intros [k Hk]. exists (k, v). split; [done|]. by apply elem_of_map_to_list.
Qed.

Lemma is_Some_b_true {A} (o : option A) : is_Some_b o = true ↔ is_Some o.
Proof. destruct o; simpl; split; eauto; [done|intros [? [=]]]. Qed.
Lemma is_Some_b_false {A} (o : option A) : is_Some_b o = false ↔ o = None.
Proof. by destruct o. Qed.

(** An accepted insert or update violates no constraint. *)
Lemma guarded_ok {A} cs (a b : A) d d' d'' :
  guarded cs (Ok a, d') d = (Ok b, d'') → Forall (λ c, c.1 = false) cs ∧ b = a ∧ d'' = d'.
Proof.
  unfold guarded. destruct (first_violation cs) eqn:E; [done|]. intros [= <- <-].
  by apply first_violation_none in E.
Qed.

(** A transaction keeps an invariant its successful body keeps. *)
Lemma preserves_dbi_WithTx_ok {A} (J : DB → Prop) (m : M World A) :
  (∀ w a w', J (w_db w) → m w = (Ok a, w') → J (w_db w')) → preserves (dbi J) (WithTx m).
Proof.
  intros Hm w HJ. destruct (WithTx m w) as [r w'] eqn:E. apply WithTx_spec in E. unfold dbi in *. simpl.
  destruct r as [a|e]; [|by rewrite E].
  destruct E as (w1 & w2 & E1 & _ & _ & Em & ->). eapply Hm, Em. by rewrite E1.
Qed.

(** A relation on the tables that each action satisfies. *)
Definition dbr (R : DB → DB → Prop) (w w' : World) : Prop := R (w_db w) (w_db w').

Section Respects.
Context (J : DB → Prop) (R : DB → DB → Prop) `{!Reflexive R}.

Lemma respects_same {A} (m : M World A) :
  (∀ w, w_db (m w).2 = w_db w) → respects (dbi J) (dbr R) m.
Proof. intros Hm w HJ. unfold dbi, dbr in *. by rewrite Hm. Qed.

Lemma respects_query {A} (f : time → DB → res A * DB) :
  (∀ now d a d', J d → f now d = (Ok a, d') → J d' ∧ R d d') → respects (dbi J) (dbr R) (query f).
Proof.
  intros Hf w HJ. unfold dbi, dbr in *. destruct (query f w) as [[a|e] w'] eqn:E.
  - apply query_ok in E as (E & _). by eapply Hf.
  - apply query_err in E. simpl. by rewrite E.
Qed.

Lemma respects_select {A} (f : DB → res A) : respects (dbi J) (dbr R) (select f).
Proof. apply respects_query. by intros now d a d' HJ [= _ <-]. Qed.

Lemma respects_WithTx {A} (m : M World A) :
  (∀ w a w', J (w_db w) → m w = (Ok a, w') → J (w_db w') ∧ R (w_db w) (w_db w')) →
  respects (dbi J) (dbr R) (WithTx m).
Proof.
  intros Hm w HJ. destruct (WithTx m w) as [r w'] eqn:E. apply WithTx_spec in E.
  unfold dbi, dbr in *. simpl. destruct r as [a|e]; [|by rewrite E].
  destruct E as (w1 & w2 & E1 & _ & _ & Em & ->). rewrite <- E1. eapply Hm, Em. by rewrite E1.
Qed.

Lemma respects_NewV7 : respects (dbi J) (dbr R) NewV7.
Proof. apply respects_same. intros w. unfold NewV7. by destruct (w_uuids w) as [|[]]. Qed.

(** A write to the audit log, for what does not read it. *)
Lemma respects_audit actor action st sid meta :
  (∀ a d, J d → J (set_audit a d) ∧ R d (set_audit a d)) →
  respects (dbi J) (dbr R) (audit_Log actor action st sid meta).
Proof.
  intros Hset w HJ. unfold audit_Log, mbind, M_bind. simpl. unfold M_try, InsertAuditLog.
  destruct (query _ w) as [[a|e] w'] eqn:E; simpl.
  - apply query_ok in E as (E & _). apply guarded_ok in E as (_ & _ & E).
    unfold dbi, dbr in *. rewrite E. by apply Hset.
  - apply query_err in E. unfold dbi, dbr in *. simpl. by rewrite E.
Qed.
End Respects.
