(* ===== verification/Events.v ===== *)
(** * The event window ([internal/events/service.go])

    The single event's phase, its freeze point, and the validated update of the
    window. *)

From S2P Require Import Prelude Env Store.

Inductive Phase := PhasePre | PhaseRunning | PhaseEnded.
#[export] Instance Phase_eq_dec : EqDecision Phase.
Proof. solve_decision. Defined.

(** The phase at a clock reading. *)
Definition phase_at (now : time) (e : Event) : Phase :=
  if (now <? e_StartsAt e)%Z then PhasePre
  else if (now <? e_EndsAt e)%Z then PhaseRunning
  else PhaseEnded.

Definition frozen_at (now : time) (e : Event) : bool :=
  match e_FreezeAt e with Some f => negb (now <? f)%Z | None => false end.

Definition Get : P World Event :=
  map_err (no_rows_as ErrNotFound "events: get") (atomic GetEvent).

Definition Phase_ (e : Event) : P World Phase :=
  now ← atomic clock_now; mret (phase_at now e).

Definition Frozen (e : Event) : P World bool :=
  now ← atomic clock_now; mret (frozen_at now e).

Record UpdateInput := {
  ui_Name : option string; ui_Description : option string;
  ui_StartsAt : option time; ui_EndsAt : option time;
  ui_SetFreeze : bool; ui_FreezeAt : option time
}.

Definition after (a b : time) : bool := (b <? a)%Z.

(** The checks of [Update] on the window the update would produce. *)
Definition validate_update (cur : Event) (u : UpdateInput) : gmap string (list string) :=
  let starts := coalesce1 (ui_StartsAt u) (e_StartsAt cur) in
  let ends := coalesce1 (ui_EndsAt u) (e_EndsAt cur) in
  let freeze := if ui_SetFreeze u then ui_FreezeAt u else e_FreezeAt cur in
  let v := NewValidation in
  let v := if negb (starts <? ends)%Z then Add "ends_at" "must be after starts_at" v else v in
  let v := match freeze with
           | Some f => if negb (after f starts) || after f ends
                       then Add "freeze_at" "must be within the event window" v else v
           | None => v end in
  match ui_Name u with
  | Some n => if (String.length n <? 1) || (200 <? String.length n)
              then Add "name" "must be between 1 and 200 characters" v else v
  | None => v
  end%nat.

Definition Update (u : UpdateInput) : P World Event :=
  cur ← Get;
  OrNil (validate_update cur u);;
  map_err (Wrap "events: update")
    (atomic (UpdateEvent (e_ID cur) (ui_Name u) (ui_Description u) (ui_StartsAt u)
      (ui_EndsAt u) (ui_SetFreeze u) (ui_FreezeAt u))).

Definition EnsureDefault : P World unit :=
  n ← map_err (Wrap "events: counting") (atomic CountEvents);
  if decide (0 < n) then mret tt
  else
    id ← map_err (Wrap "events: generating id") (atomic NewV7);
    now ← atomic clock_now;
    map_err (Wrap "events: creating default") (atomic (CreateEvent
      {| e_ID := id; e_Name := "My CTF";
         e_Description := "Welcome! An admin can edit this event's name, description, and schedule in the admin panel.";
         e_StartsAt := now + 7 * 24 * Hour; e_EndsAt := now + 9 * 24 * Hour;
         e_FreezeAt := None |}));;
    mret tt.
