(* ===== verification/Reconcile.v ===== *)
(** * The reconcile decision ([internal/runtime/reconcile.go])

    A pure function from what the daemon shows and what the database believes to
    the list of actions that aligns them. *)

From S2P Require Import Prelude Env.

(** [deployTimeout + 30*time.Second] ([runtime/docker.go]). *)
Definition deployTimeout : duration := (120 * Second)%Z.
Definition reconcileGrace : duration := (deployTimeout + 30 * Second)%Z.

Record ContainerView := { cv_ContainerID : string; cv_InstanceID : string; cv_Running : bool }.

Record InstanceRow := {
  ir_InstanceID : string; ir_TeamID : string; ir_State : State;
  ir_ContainerID : string; ir_UpdatedAt : time
}.

Record NetworkView := {
  nv_NetworkID : string; nv_Name : string; nv_TeamID : string;
  nv_TeamNetwork : bool; nv_Attached : Z
}.

Inductive ActionKind :=
  | ActionMarkLost | ActionRemoveContainer | ActionRemoveNetwork
  | ActionFlagUnadopted | ActionFlagUnadoptedNetwork.
#[export] Instance ActionKind_eq_dec : EqDecision ActionKind.
Proof. solve_decision. Defined.

Definition metricLabel (k : ActionKind) : string :=
  match k with
  | ActionMarkLost => "mark_lost" | ActionRemoveContainer => "remove_container"
  | ActionRemoveNetwork => "remove_network" | ActionFlagUnadopted => "flag_unadopted"
  | ActionFlagUnadoptedNetwork => "flag_unadopted_network"
  end.

Record Action := {
  ac_Kind : ActionKind; ac_InstanceID : string; ac_ContainerID : string;
  ac_NetworkID : string; ac_Reason : string
}.
#[export] Instance Action_eq_dec : EqDecision Action.
Proof. solve_decision. Defined.

Record ReconcileStats := { SkippedGrace : nat; FutureRows : nat }.

Definition age (now : time) (r : InstanceRow) : duration := (now - ir_UpdatedAt r)%Z.
Definition in_grace (now : time) (r : InstanceRow) : bool := (age now r <? reconcileGrace)%Z.

(** The three indexes built before the decisions; a later entry for the same key
    replaces an earlier one, as a Go map assignment does. *)
Definition byInstance (observed : list ContainerView) : gmap string ContainerView :=
  foldl (λ m c, if decide (cv_InstanceID c = "") then m else <[cv_InstanceID c := c]> m) ∅ observed.

Definition rowByID (rows : list InstanceRow) : gmap string InstanceRow :=
  foldl (λ m r, <[ir_InstanceID r := r]> m) ∅ rows.

Definition protects (now : time) (r : InstanceRow) : bool :=
  negb (bool_decide (ir_TeamID r = "")) &&
  (bool_decide (ir_State r = StatePending) || in_grace now r).

Definition protectedTeams (now : time) (rows : list InstanceRow) : gset string :=
  foldl (λ s r, if protects now r then {[ir_TeamID r]} ∪ s else s) ∅ rows.

(** Rows with no container at all are marked lost (states that should have one). *)
Definition row_actions (now : time) (by_ : gmap string ContainerView) (r : InstanceRow) : list Action :=
  if in_grace now r then []
  else match by_ !! ir_InstanceID r with
  | Some _ => []
  | None =>
      match ir_State r with
      | StateRunning | StateStarting | StateUnhealthy =>
          [{| ac_Kind := ActionMarkLost; ac_InstanceID := ir_InstanceID r; ac_ContainerID := "";
              ac_NetworkID := ""; ac_Reason := "container vanished" |}]
      | _ => []
      end
  end.

Definition remove_container (cid reason : string) : Action :=
  {| ac_Kind := ActionRemoveContainer; ac_InstanceID := ""; ac_ContainerID := cid;
     ac_NetworkID := ""; ac_Reason := reason |}.

(** Unresolvable id: flag.  No row: orphan.  Another container than the one the
    row recorded: stale. *)
Definition container_actions (now : time) (rows : gmap string InstanceRow) (c : ContainerView)
    : list Action :=
  if decide (cv_InstanceID c = "") then
    [{| ac_Kind := ActionFlagUnadopted; ac_InstanceID := ""; ac_ContainerID := cv_ContainerID c;
        ac_NetworkID := "";
        ac_Reason := "managed container with missing/unparseable instance_id label" |}]
  else match rows !! cv_InstanceID c with
  | None => [remove_container (cv_ContainerID c)
               ("orphan container (no row) for instance " +:+ cv_InstanceID c)]
  | Some r =>
      if in_grace now r || bool_decide (ir_ContainerID r = "") then []
      else if decide (ir_ContainerID r = cv_ContainerID c) then []
      else [remove_container (cv_ContainerID c)
              ("stale container superseded for instance " +:+ cv_InstanceID c)]
  end.

(** Empty per-team bridges are collected unless the team is protected. *)
Definition network_actions (protected : gset string) (n : NetworkView) : list Action :=
  if negb (nv_TeamNetwork n) || negb (nv_Attached n =? 0)%Z then []
  else if decide (nv_TeamID n = "") then
    [{| ac_Kind := ActionFlagUnadoptedNetwork; ac_InstanceID := ""; ac_ContainerID := "";
        ac_NetworkID := nv_NetworkID n;
        ac_Reason := "team network with no resolvable team_id " +:+ nv_Name n |}]
  else if decide (nv_TeamID n ∈ protected) then []
  else [{| ac_Kind := ActionRemoveNetwork; ac_InstanceID := ""; ac_ContainerID := "";
           ac_NetworkID := nv_NetworkID n; ac_Reason := "empty team network " +:+ nv_Name n |}].

Definition stats_of (now : time) (rows : list InstanceRow) : ReconcileStats :=
  {| SkippedGrace := length (List.filter (in_grace now) rows);
     FutureRows := length (List.filter (λ r, (age now r <? 0)%Z) rows) |}.

Definition Reconcile (observed : list ContainerView) (rows : list InstanceRow)
    (networks : list NetworkView) (now : time) : list Action * ReconcileStats :=
  let by_ := byInstance observed in
  let rowBy := rowByID rows in
  let protected := protectedTeams now rows in
  (flat_map (row_actions now by_) rows ++
   flat_map (container_actions now rowBy) observed ++
   flat_map (network_actions protected) networks,
   stats_of now rows).

(** ** The declarative specification

    [justified observed rows networks now a]: why action [a] may be taken. *)

Definition owns_container (observed : list ContainerView) (id : string) : Prop :=
  ∃ c, c ∈ observed ∧ cv_InstanceID c = id ∧ id ≠ "".

Definition should_have_container (s : State) : Prop :=
  s = StateRunning ∨ s = StateStarting ∨ s = StateUnhealthy.

Inductive justified (observed : list ContainerView) (rows : list InstanceRow)
    (networks : list NetworkView) (now : time) : Action → Prop :=
  | JMarkLost r :
      r ∈ rows → (reconcileGrace ≤ age now r)%Z → should_have_container (ir_State r) →
      ¬ owns_container observed (ir_InstanceID r) →
      justified observed rows networks now
        {| ac_Kind := ActionMarkLost; ac_InstanceID := ir_InstanceID r; ac_ContainerID := "";
           ac_NetworkID := ""; ac_Reason := "container vanished" |}
  | JOrphan c :
      c ∈ observed → cv_InstanceID c ≠ "" →
      (∀ r, r ∈ rows → ir_InstanceID r ≠ cv_InstanceID c) →
      justified observed rows networks now
        (remove_container (cv_ContainerID c)
           ("orphan container (no row) for instance " +:+ cv_InstanceID c))
  | JSuperseded c r :
      c ∈ observed → cv_InstanceID c ≠ "" → r ∈ rows → ir_InstanceID r = cv_InstanceID c →
      (reconcileGrace ≤ age now r)%Z → ir_ContainerID r ≠ "" →
      ir_ContainerID r ≠ cv_ContainerID c →
      justified observed rows networks now
        (remove_container (cv_ContainerID c)
           ("stale container superseded for instance " +:+ cv_InstanceID c))
  | JUnadopted c :
      c ∈ observed → cv_InstanceID c = "" →
      justified observed rows networks now
        {| ac_Kind := ActionFlagUnadopted; ac_InstanceID := "";
           ac_ContainerID := cv_ContainerID c; ac_NetworkID := "";
           ac_Reason := "managed container with missing/unparseable instance_id label" |}
  | JEmptyNetwork n :
      n ∈ networks → nv_TeamNetwork n = true → nv_Attached n = 0%Z → nv_TeamID n ≠ "" →
      (∀ r, r ∈ rows → ir_TeamID r = nv_TeamID n →
            ir_State r ≠ StatePending ∧ (reconcileGrace ≤ age now r)%Z) →
      justified observed rows networks now
        {| ac_Kind := ActionRemoveNetwork; ac_InstanceID := ""; ac_ContainerID := "";
           ac_NetworkID := nv_NetworkID n; ac_Reason := "empty team network " +:+ nv_Name n |}
  | JUnadoptedNetwork n :
      n ∈ networks → nv_TeamNetwork n = true → nv_Attached n = 0%Z → nv_TeamID n = "" →
      justified observed rows networks now
        {| ac_Kind := ActionFlagUnadoptedNetwork; ac_InstanceID := ""; ac_ContainerID := "";
           ac_NetworkID := nv_NetworkID n;
           ac_Reason := "team network with no resolvable team_id " +:+ nv_Name n |}.

(** ** The indexes *)

Lemma byInstance_lookup observed id :
  is_Some (byInstance observed !! id) ↔ owns_container observed id.
Proof.
  unfold byInstance, owns_container.
  induction observed as [|c l IH] using rev_ind.
  - simpl. rewrite lookup_empty. split; [intros [? [=]]|].
    intros (c & Hc & _). by apply elem_of_nil in Hc.
  - rewrite foldl_app; simpl. setoid_rewrite elem_of_app.
    setoid_rewrite list_elem_of_singleton.
    destruct (decide (cv_InstanceID c = "")) as [E|NE]; [rewrite IH; naive_solver|].
    rewrite lookup_insert. case_decide; [naive_solver|]. rewrite IH. naive_solver.
Qed.

Lemma rowByID_lookup rows r id :
  NoDup (ir_InstanceID <$> rows) →
  rowByID rows !! id = Some r ↔ r ∈ rows ∧ ir_InstanceID r = id.
Proof.
  unfold rowByID. induction rows as [|r' l IH] using rev_ind; intros Hnd.
  - simpl. rewrite lookup_empty. split; [done|]. intros [Hr _]. by apply elem_of_nil in Hr.
  - rewrite foldl_app; simpl. rewrite fmap_app in Hnd.
    apply NoDup_app in Hnd as (Hnd & Hni & _). rewrite elem_of_app, list_elem_of_singleton.
    rewrite lookup_insert. case_decide as E; [|rewrite (IH Hnd); naive_solver].
    split; [intros [= ->]; auto|]. intros [[Hr| ->] Hid]; [|done].
    exfalso. eapply Hni; [apply (list_elem_of_fmap_2 ir_InstanceID), Hr|].
    rewrite Hid, <- E. set_solver.
Qed.

Lemma rowByID_none rows id :
  rowByID rows !! id = None ↔ ∀ r, r ∈ rows → ir_InstanceID r ≠ id.
Proof.
  unfold rowByID. induction rows as [|r' l IH] using rev_ind.
  - simpl. rewrite lookup_empty. split; [|done]. intros _ r Hr. by apply elem_of_nil in Hr.
  - rewrite foldl_app; simpl. setoid_rewrite elem_of_app.
    setoid_rewrite list_elem_of_singleton. rewrite lookup_insert. case_decide as E.
    + split; [done|]. intros H. exfalso. eapply H; eauto.
    + rewrite IH. naive_solver.
Qed.

Lemma protectedTeams_spec now rows t :
  t ∈ protectedTeams now rows ↔ ∃ r, r ∈ rows ∧ protects now r = true ∧ ir_TeamID r = t.
Proof.
  unfold protectedTeams. induction rows as [|r l IH] using rev_ind.
  - split; [intros H; by apply not_elem_of_empty in H|].
    intros (r & Hr & _). by apply elem_of_nil in Hr.
  - rewrite foldl_app; simpl. setoid_rewrite elem_of_app.
    setoid_rewrite list_elem_of_singleton.
    destruct (protects now r) eqn:E; [rewrite elem_of_union, elem_of_singleton|]; rewrite IH;
      [naive_solver|].
    split; [naive_solver|]. intros (r' & [Hr| ->] & Hp & Ht); [eauto|congruence].
Qed.

Lemma in_grace_false now r : in_grace now r = false ↔ (reconcileGrace ≤ age now r)%Z.
Proof. unfold in_grace. rewrite Z.ltb_ge. done. Qed.

Lemma protects_true now r :
  protects now r = true ↔ ir_TeamID r ≠ "" ∧ (ir_State r = StatePending ∨ in_grace now r = true).
Proof.
  unfold protects. rewrite andb_true_iff, orb_true_iff, negb_true_iff.
  rewrite bool_decide_eq_false, bool_decide_eq_true. done.
Qed.

(** ** The three decisions *)

Section Decisions.
Context (observed : list ContainerView) (rows : list InstanceRow)
        (networks : list NetworkView) (now : time).
Context (Hpk : NoDup (ir_InstanceID <$> rows)).
Abbreviation just := (justified observed rows networks now).

Lemma row_actions_sound r a :
  r ∈ rows → In a (row_actions now (byInstance observed) r) → just a.
Proof using Type.
  unfold row_actions. intros Hr. destruct (in_grace now r) eqn:Eg; [intros []|].
  apply in_grace_false in Eg.
  destruct (byInstance observed !! ir_InstanceID r) eqn:Eb; [intros []|].
  assert (¬ owns_container observed (ir_InstanceID r)) as Hno.
  { rewrite <- byInstance_lookup, Eb. by intros [? [=]]. }
  destruct (ir_State r) eqn:Es; intros []; subst; try done;
    (apply JMarkLost; [done|done| |done]); unfold should_have_container; auto.
Qed.

Lemma container_actions_sound c a :
  c ∈ observed → In a (container_actions now (rowByID rows) c) → just a.
Proof using Hpk.
  unfold container_actions. intros Hc. case_decide as Ei.
  { intros [<-|[]]. by apply JUnadopted. }
  destruct (rowByID rows !! cv_InstanceID c) as [r|] eqn:Er.
  - apply rowByID_lookup in Er as [Hr Hid]; [|done].
    destruct (in_grace now r) eqn:Eg; [intros []|]. apply in_grace_false in Eg. simpl.
    case_bool_decide as Ec; [intros []|]. case_decide as Ecc; [intros []|].
    intros [<-|[]]. by eapply JSuperseded.
  - rewrite rowByID_none in Er. intros [<-|[]]. by apply JOrphan.
Qed.

Lemma network_actions_sound n a :
  n ∈ networks → In a (network_actions (protectedTeams now rows) n) → just a.
Proof using Type.
  unfold network_actions. intros Hn. destruct (nv_TeamNetwork n) eqn:Et; [|intros []]. simpl.
  destruct (nv_Attached n =? 0)%Z eqn:Ea; [|intros []]. apply Z.eqb_eq in Ea. simpl.
  case_decide as Ei; [intros [<-|[]]; by apply JUnadoptedNetwork|].
  case_decide as Ep; [intros []|]. intros [<-|[]]. apply JEmptyNetwork; [done..|].
  intros r Hr Ht. rewrite protectedTeams_spec in Ep.
  split; [|apply in_grace_false; destruct (in_grace now r) eqn:Eg; [|done]];
    [intros Es|exfalso]; apply Ep; exists r; rewrite protects_true; (split_and!; [done| |auto|done]);
    congruence.
Qed.

Lemma justified_complete a :
  just a →
  In a (flat_map (row_actions now (byInstance observed)) rows) ∨
  In a (flat_map (container_actions now (rowByID rows)) observed) ∨
  In a (flat_map (network_actions (protectedTeams now rows)) networks).
Proof using Hpk.
  rewrite !in_flat_map.
  intros [r Hr Hg Hs Hno|c Hc Hi Hr|c r Hc Hi Hr Hid Hg Hne Hcc|c Hc Hi|n Hn Ht Ha Hi Hr|n Hn Ht Ha Hi].
  - left. exists r. split; [by apply list_elem_of_In|]. unfold row_actions.
    apply in_grace_false in Hg. rewrite Hg.
    destruct (byInstance observed !! ir_InstanceID r) eqn:Eb.
    { exfalso. apply Hno, byInstance_lookup. eauto. }
    destruct Hs as [->|[->| ->]]; simpl; auto.
  - right; left. exists c. split; [by apply list_elem_of_In|]. unfold container_actions.
    rewrite decide_False by done. apply rowByID_none in Hr. rewrite Hr. simpl; auto.
  - right; left. exists c. split; [by apply list_elem_of_In|]. unfold container_actions.
    rewrite decide_False by done. rewrite (proj2 (rowByID_lookup rows r _ Hpk) (conj Hr Hid)).
    apply in_grace_false in Hg. rewrite Hg, bool_decide_eq_false_2, decide_False by done.
    simpl; auto.
  - right; left. exists c. split; [by apply list_elem_of_In|]. unfold container_actions.
    rewrite decide_True by done. simpl; auto.
  - right; right. exists n. split; [by apply list_elem_of_In|]. unfold network_actions.
    rewrite Ht, Ha, decide_False by done. simpl. rewrite decide_False; [simpl; auto|].
    rewrite protectedTeams_spec. intros (r & Hin & Hp & E). apply protects_true in Hp as [_ Hp].
    destruct (Hr r Hin E) as [Hnp Hg]. apply in_grace_false in Hg. destruct Hp; congruence.
  - right; right. exists n. split; [by apply list_elem_of_In|]. unfold network_actions.
    rewrite Ht, Ha, decide_True by done. simpl; auto.
Qed.
End Decisions.

(** C3: [Reconcile] takes exactly the justified actions: with the primary key on
    the rows, an action is returned if and only if the declarative
    specification justifies it.  So it never marks lost a row that is pending,
    fresh, or still has a container; never removes a container whose row is
    fresh, has not recorded a container, or recorded this one; never collects
    the network of a team with a pending or fresh row; and misses none of the
    actions it should take. *)
Theorem Reconcile_exact observed rows networks now a :
  NoDup (ir_InstanceID <$> rows) →
  In a (Reconcile observed rows networks now).1 ↔ justified observed rows networks now a.
Proof.
  intros Hpk. simpl. rewrite !in_app_iff. split.
  - rewrite !in_flat_map. intros [(x & Hx & Ha)|[(x & Hx & Ha)|(x & Hx & Ha)]];
      apply list_elem_of_In in Hx;
      [eapply row_actions_sound|eapply container_actions_sound|eapply network_actions_sound]; eauto.
  - by apply justified_complete.
Qed.

Definition demo_rows : list InstanceRow :=
  [ {| ir_InstanceID := "i1"; ir_TeamID := "t1"; ir_State := StateRunning;
       ir_ContainerID := "c1"; ir_UpdatedAt := 0 |};
    {| ir_InstanceID := "i2"; ir_TeamID := "t2"; ir_State := StatePending;
       ir_ContainerID := ""; ir_UpdatedAt := 0 |} ].

Lemma Reconcile_exact_witness :
  NoDup (ir_InstanceID <$> demo_rows) ∧
  justified [] demo_rows [] (200 * Second)
    {| ac_Kind := ActionMarkLost; ac_InstanceID := "i1"; ac_ContainerID := "";
       ac_NetworkID := ""; ac_Reason := "container vanished" |}.
Proof.
  assert (NoDup (ir_InstanceID <$> demo_rows)) as Hnd.
  { apply NoDup_cons; split; [intros ?%list_elem_of_singleton; done|apply NoDup_singleton]. }
  split; [exact Hnd|].
  apply (proj1 (Reconcile_exact [] demo_rows [] (200 * Second) _ Hnd)).
  evaluate ((Reconcile [] demo_rows [] (200 * Second)).1). left. reflexivity.
Defined.
