(* ===== verification/Runtime.v ===== *)
(** * Challenge instances ([internal/runtime/manager.go], [internal/flags/flags.go])

    The interface a container runtime offers ([ChallengeRuntime]), and the
    [Manager] layered over it: instance rows, port allocation, the isolation
    gate, the specs handed to the runtime. *)

From S2P Require Import Prelude Text Env Store.

(** ** Data *)

Record InstanceSpec := {
  is_InstanceID : uuid; is_ChallengeID : uuid; is_Slug : string; is_Image : string;
  is_InternalPort : Z; is_HostPort : Z; is_MemLimitMB : Z; is_CPUMillis : Z;
  is_Env : gmap string string; is_TeamID : option uuid; is_NetworkName : string;
  is_NoEgress : bool; is_ReadonlyRootfs : bool; is_Tmpfs : list string
}.

(** [runtime.Instance]: absent text is [""], an absent port is 0. *)
Record Instance := {
  in_ID : uuid; in_ChallengeID : uuid; in_TeamID : option uuid; in_State : State;
  in_ContainerID : string; in_HostPort : Z; in_Network : string;
  in_StartedAt : option time; in_LastHealthAt : option time;
  in_ExpiresAt : option time; in_Err : string
}.

Definition rowToInstance (r : Instance_) : Instance :=
  {| in_ID := i_ID r; in_ChallengeID := i_ChallengeID r; in_TeamID := i_TeamID r;
     in_State := i_State r; in_ContainerID := default "" (i_ContainerID r);
     in_HostPort := default 0%Z (i_HostPort r); in_Network := default "" (i_Network r);
     in_StartedAt := i_StartedAt r; in_LastHealthAt := i_LastHealthAt r;
     in_ExpiresAt := i_ExpiresAt r; in_Err := default "" (i_Error r) |}.

(** What the reconciler cannot resolve, as the fleet view shows it. *)
Record UnadoptedContainer := { uc_ContainerID : string; uc_Image : string; uc_CreatedAt : time }.
Record UnadoptedNetwork := { un_NetworkID : string; un_Name : string }.

Definition derefPortRow (r : Instance_) : Z := default 0%Z (i_HostPort r).

(** ** The runtime interface *)

Class ChallengeRuntime := {
  rt_Deploy : InstanceSpec → P World Instance;
  rt_Stop : uuid → P World unit;
  rt_Destroy : uuid → P World unit;
  rt_Status : uuid → P World Instance;
  rt_Logs : uuid → Z → P World string;
  rt_Reconcile : P World unit
}.

Fixpoint IsUnavailable (e : error) : bool :=
  match e with RuntimeUnavailable _ => true | Wrap _ e => IsUnavailable e | _ => false end.

(** ** Pure helpers *)

(** [container_env] over the injected [FLAG]: the challenge's own keys win. *)
Definition decodeEnv (extra : gmap string string) (flag : string) : gmap string string :=
  extra ∪ {[ "FLAG" := flag ]}.

Definition last_n (n : nat) (s : string) : string :=
  String.substring (String.length s - n) n s.

Definition teamNetworkName `{Libs} (team : uuid) (internal : bool) : string :=
  let n := "osctf-team-" +:+ last_n 8 (uuid_String team) in
  if internal then n +:+ "-int" else n.

Definition challengeNetwork : string := "osctf-challenges".
Definition sharedNetworkName (internal : bool) : string :=
  if internal then challengeNetwork +:+ "-int" else challengeNetwork.

(** [strconv.Itoa]. *)
Definition digit (d : Z) : Ascii.ascii := Ascii.ascii_of_N (48 + Z.to_N d).
Fixpoint itoa_pos (fuel : nat) (n : Z) (acc : string) : string :=
  match fuel with
  | O => acc
  | S fuel =>
      let acc := String (digit (n mod 10)%Z) acc in
      if (n <? 10)%Z then acc else itoa_pos fuel (n / 10)%Z acc
  end.
Definition Itoa (n : Z) : string :=
  if (n <? 0)%Z then "-" +:+ itoa_pos 20 (- n)%Z "" else itoa_pos 20 n "".

(** [strings.NewReplacer(o1, n1, o2, n2, ...).Replace]: at each position the first
    pattern that matches is replaced; replaced text is not looked at again. *)
Fixpoint drop_prefix (p s : string) : option string :=
  match p, s with
  | EmptyString, _ => Some s
  | String a p, String b s => if decide (a = b) then drop_prefix p s else None
  | _, _ => None
  end.
Fixpoint first_match (rs : list (string * string)) (s : string) : option (string * string) :=
  match rs with
  | [] => None
  | (o, n) :: rs =>
      match drop_prefix o s with Some rest => Some (n, rest) | None => first_match rs s end
  end.
Fixpoint replace_with (fuel : nat) (rs : list (string * string)) (s : string) : string :=
  match fuel with
  | O => s
  | S fuel =>
      match first_match rs s with
      | Some (n, rest) => n +:+ replace_with fuel rs rest
      | None => match s with
                | EmptyString => EmptyString
                | String c s => String c (replace_with fuel rs s)
                end
      end
  end.
(** Every pattern used is non-empty, so the length of the text is enough fuel. *)
Definition Replace (rs : list (string * string)) (s : string) : string :=
  replace_with (S (String.length s)) rs s.

(** ** Flags *)

(** Five bits at a time, most significant first; the last group is padded with
    zero bits and no padding characters are written. *)
Definition crockford : string := "0123456789ABCDEFGHJKMNPQRSTVWXYZ".
Definition EncodeToString (bytes : list N) : string := encode crockford 5 bytes.

Definition flags_New `{Libs} (prefix : string) : P World string :=
  b ← map_err (Wrap "flags: reading entropy") (atomic (rand_Read 24));
  mret (prefix +:+ "{" +:+ ToLower (EncodeToString b) +:+ "}").

(** ** The isolation gate *)

Definition unisolatedWarnEvery : Z := 60.
Definition set_manager (f : ManagerState → ManagerState) : M World unit :=
  modify (λ w, set_mgr (f (w_mgr w)) w).

Definition ConfigureIsolationGate (allow log : bool) : P World unit :=
  atomic (set_manager (λ m, {| gateArmed := true; allowUnisolated := allow;
    isolation := isolation m; lastUnisoWarn := lastUnisoWarn m; secLog := log |}));;
  if allow && log then atomic (emit (Log "WARN" "SECURITY: OSCTF_ALLOW_UNISOLATED_INSTANCES is set"))
  else mret tt.

Definition RecordIsolationVerdict (isolated : bool) : P World unit :=
  atomic (set_manager (λ m, {| gateArmed := gateArmed m; allowUnisolated := allowUnisolated m;
    isolation := if isolated then isolationEnforced else isolationUnenforced;
    lastUnisoWarn := lastUnisoWarn m; secLog := secLog m |})).

Definition Unix (t : time) : Z := (t / Second)%Z.

Definition CompareAndSwap_warn (last now : Z) : M World bool := λ w,
  let m := w_mgr w in
  if decide (lastUnisoWarn m = last) then
    (Ok true, set_mgr {| gateArmed := gateArmed m; allowUnisolated := allowUnisolated m;
       isolation := isolation m; lastUnisoWarn := now; secLog := secLog m |} w)
  else (Ok false, w).

Definition throttledSecWarn (msg : string) : P World unit :=
  has_log ← atomic (gets (λ w, secLog (w_mgr w)));
  if negb has_log then mret tt else
  now ← atomic (gets (λ w, Unix (w_wall w)));
  last ← atomic (gets (λ w, lastUnisoWarn (w_mgr w)));
  if (now - last <? unisolatedWarnEvery)%Z then mret tt else
  swapped ← atomic (CompareAndSwap_warn last now);
  if swapped : bool then atomic (emit (Log "WARN" msg)) else mret tt.

Definition isolationRefusalDetail : string :=
  "container challenges are disabled on this deployment: the Docker daemon does not enforce per-team network isolation, so one team could reach another team's instance. Run on native Linux Docker, or set OSCTF_ALLOW_UNISOLATED_INSTANCES=true to accept the risk for a local trial (docs/v0.2/03-runtime.md).".

Definition isolationGate : P World unit :=
  armed ← atomic (gets (λ w, gateArmed (w_mgr w)));
  if negb armed then mret tt else
  verdict ← atomic (gets (λ w, isolation (w_mgr w)));
  match verdict with
  | isolationEnforced => mret tt
  | _ =>
      allow ← atomic (gets (λ w, allowUnisolated (w_mgr w)));
      if allow : bool then
        throttledSecWarn "SECURITY: starting a container instance WITHOUT enforced per-team network isolation (OSCTF_ALLOW_UNISOLATED_INSTANCES is set). One team can reach another team's instance. This must not be a real event."
      else
        throttledSecWarn "refused a container deploy: per-team network isolation is not enforced on this Docker daemon and OSCTF_ALLOW_UNISOLATED_INSTANCES is not set (docs/v0.2/03-runtime.md).";;
        throw (Unavailable isolationRefusalDetail 0)
  end.

(** ** The manager *)

Record DeployReq := {
  dr_ChallengeID : uuid; dr_TeamID : uuid; dr_Flag : string; dr_ExpiresAt : option time
}.

Section Manager.
Context `{Libs} `{ChallengeRuntime}.
Context (publicHost : string) (portStart portEnd : Z).

(** Rows read back from a lookup that may find nothing. *)
Definition or_absent {A} (prefix : string) (m : M World A) : P World (option A) :=
  r ← try (atomic m);
  match r with
  | Ok a => mret (Some a)
  | Err e => if is_no_rows e then mret None else throw (Wrap prefix e)
  end.

Definition getContainerChallenge (challenge : uuid) : P World Challenge :=
  ch ← map_err (no_rows_as ErrNotFound "runtime: get challenge") (atomic (GetChallengeByID challenge));
  if bool_decide (c_Kind ch ≠ "container"%string) || negb (is_Some_b (c_Image ch)) ||
     negb (is_Some_b (c_InternalPort ch))
  then throw (Forbidden "this challenge is not a container challenge")
  else mret ch.

(** The candidate ports, and the loop over them: ports already used are
    skipped; a port taken between the listing and the insert is skipped too;
    an owner conflict returns the row that won. *)
Definition candidates : list Z := seqZ portStart (portEnd - portStart + 1).

Fixpoint try_ports (ports : list Z) (used : list Z) (challenge : uuid) (team : option uuid)
    (flag : option string) (expires : option time) (network : option string) : P World Instance_ :=
  match ports with
  | [] => throw (Conflict ("no free challenge ports in range " +:+ Itoa portStart +:+ "-" +:+ Itoa portEnd))
  | port :: ports =>
      if decide (port ∈ used) then try_ports ports used challenge team flag expires network
      else
        id ← map_err (Wrap "runtime: generating id") (atomic NewV7);
        r ← try (atomic (CreateInstance id challenge team StatePending
               (Some (int32_of port)) flag expires network));
        match r with
        | Ok row => mret row
        | Err e =>
            match unique_violation e with
            | Some c =>
                if decide (c = "uq_instances_shared"%string) then atomic (GetSharedInstance challenge)
                else if decide (c = "uq_instances_per_team"%string) then
                  atomic (match team with
                          | Some t => GetTeamInstance challenge t
                          | None => select (λ _, Err ErrNoRows)   (* team_id = NULL selects nothing *)
                          end)
                else try_ports ports used challenge team flag expires network
            | None => throw (Wrap "runtime: creating instance row" e)
            end
        end
  end.

Definition allocateRow (challenge : uuid) (team : option uuid) (flag : option string)
    (expires : option time) (network : option string) : P World Instance_ :=
  used ← map_err (Wrap "runtime: listing ports") (atomic ListUsedPorts);
  try_ports candidates used challenge team flag expires network.

Definition ensureSharedRow (ch : Challenge) : P World Instance_ :=
  o ← or_absent "runtime: get instance" (GetSharedInstance (c_ID ch));
  match o with
  | Some row => mret row
  | None => allocateRow (c_ID ch) None None None (Some (sharedNetworkName (negb (c_Egress ch))))
  end.

Definition ensureTeamRow (ch : Challenge) (req : DeployReq) : P World Instance_ :=
  o ← or_absent "runtime: get team instance" (GetTeamInstance (c_ID ch) (dr_TeamID req));
  match o with
  | Some row => mret row
  | None =>
      let net := teamNetworkName (dr_TeamID req) (negb (c_Egress ch)) in
      let flag := if bool_decide (dr_Flag req ≠ ""%string) &&
                     bool_decide (c_FlagMode ch = "per_instance"%string)
                  then Some (dr_Flag req) else None in
      allocateRow (c_ID ch) (Some (dr_TeamID req)) flag (dr_ExpiresAt req) (Some net)
  end.

Definition buildSpec (ch : Challenge) (row : Instance_) (flag : string) : InstanceSpec :=
  {| is_InstanceID := i_ID row; is_ChallengeID := c_ID ch; is_Slug := c_Slug ch;
     is_Image := default "" (c_Image ch); is_InternalPort := default 0%Z (c_InternalPort ch);
     is_HostPort := derefPortRow row; is_MemLimitMB := c_MemLimitMb ch;
     is_CPUMillis := c_CpuMillis ch; is_Env := decodeEnv (c_ContainerEnv ch) flag;
     is_TeamID := i_TeamID row; is_NetworkName := default "" (i_Network row);
     is_NoEgress := negb (c_Egress ch); is_ReadonlyRootfs := true;
     is_Tmpfs := "/tmp" :: c_WritablePaths ch |}.

Definition Deploy (challenge : uuid) : P World Instance :=
  ch ← getContainerChallenge challenge;
  row ← ensureSharedRow ch;
  if decide (i_State row = StateRunning) then mret (rowToInstance row)
  else rt_Deploy (buildSpec ch row (c_Flag ch)).

Definition DeployForTeam (req : DeployReq) : P World Instance :=
  isolationGate;;
  ch ← getContainerChallenge (dr_ChallengeID req);
  row ← ensureTeamRow ch req;
  if decide (i_State row = StateRunning) then mret (rowToInstance row)
  else rt_Deploy (buildSpec ch row (default (c_Flag ch) (i_Flag row))).

(** [Status] reflects the runtime's fields; owner, expiry and network are the
    row's.  An unreachable runtime leaves the last known state. *)
Definition refresh (row : Instance_) : P World (option Instance) :=
  r ← try (rt_Status (i_ID row));
  match r with
  | Err e => if IsUnavailable e then mret (Some (rowToInstance row)) else throw e
  | Ok inst => mret (Some
      {| in_ID := in_ID inst; in_ChallengeID := in_ChallengeID inst;
         in_TeamID := i_TeamID row; in_State := in_State inst;
         in_ContainerID := in_ContainerID inst; in_HostPort := in_HostPort inst;
         in_Network := default (in_Network inst) (i_Network row);
         in_StartedAt := in_StartedAt inst; in_LastHealthAt := in_LastHealthAt inst;
         in_ExpiresAt := i_ExpiresAt row; in_Err := in_Err inst |})
  end.

Definition Get (challenge : uuid) : P World (option Instance) :=
  o ← or_absent "runtime: get instance" (GetSharedInstance challenge);
  match o with None => mret None | Some row => refresh row end.

(** The shared row of a challenge, or 404. *)
Definition shared_row (challenge : uuid) : P World Instance_ :=
  map_err (no_rows_as ErrNotFound "runtime: get instance") (atomic (GetSharedInstance challenge)).

Definition DestroyInstance (id : uuid) : P World unit :=
  rt_Destroy id;;
  map_err (Wrap "runtime: delete instance row") (atomic (DeleteInstance id)).

Definition Restart (challenge : uuid) : P World Instance :=
  row ← shared_row challenge;
  rt_Stop (i_ID row);;
  Deploy challenge.

Definition Destroy (challenge : uuid) : P World unit :=
  row ← shared_row challenge;
  DestroyInstance (i_ID row).

Definition DestroyForChallenge (challenge : uuid) : P World unit :=
  o ← or_absent "runtime: get instance" (GetSharedInstance challenge);
  match o with None => mret tt | Some _ => Destroy challenge end.

Definition Logs (challenge : uuid) (tail : Z) : P World string :=
  row ← shared_row challenge;
  rt_Logs (i_ID row) tail.

Definition InstanceForChallenge (challenge : uuid) : P World (option Instance) :=
  r ← try (atomic (GetSharedInstance challenge));
  match r with Err _ => mret None | Ok row => mret (Some (rowToInstance row)) end.

Definition ManagerGetTeamInstance (challenge team : uuid) : P World (option Instance) :=
  o ← or_absent "runtime: get team instance" (GetTeamInstance challenge team);
  mret (rowToInstance <$> o).

Definition ManagerListTeamInstances (team : uuid) : P World (list Instance) :=
  rows ← map_err (Wrap "runtime: list team instances") (atomic (ListTeamInstances team));
  mret (map rowToInstance rows).

Definition ListAll : P World (list Instance) :=
  rows ← map_err (Wrap "runtime: list instances") (atomic ListInstances);
  mret (map rowToInstance rows).

Definition CountTeamRunning (team : uuid) : P World nat :=
  map_err (Wrap "runtime: count team running") (atomic (CountTeamRunningInstances team)).

Definition ListStale (olderThan : duration) : P World (list Instance) :=
  now ← atomic wall_now;
  rows ← map_err (Wrap "runtime: listing stale instances")
           (atomic (ListStaleInstances (now - olderThan)%Z));
  mret (map rowToInstance rows).

Definition ConnectionInfo (ch : Challenge) (inst : Instance) : string :=
  if negb (bool_decide (in_State inst = StateRunning)) || (in_HostPort inst =? 0)%Z then ""
  else
    let tmpl := match c_ConnectionTemplate ch with
                | Some t => if decide (t = ""%string) then "nc {host} {port}" else t
                | None => "nc {host} {port}" end in
    Replace [("{host}", publicHost); ("{port}", Itoa (in_HostPort inst))] tmpl.
End Manager.
