(* ===== verification/Instances.v ===== *)
(** * The integrity of the instance table

    The invariant every operation on instances keeps, under every interleaving:
    rows are stored under their own id, no two rows share a host port, ports lie
    in the configured range, a challenge has at most one shared row and a team at
    most one row per challenge, and per-instance flags are unique. *)

From S2P Require Import Prelude Env Demo Store Runtime.

Record inst_inv (lo hi : Z) (d : DB) : Prop := {
  inv_id : ∀ u i, instances d !! u = Some i → i_ID i = u;
  inv_range : ∀ u i p, instances d !! u = Some i → i_HostPort i = Some p → (lo ≤ p ≤ hi)%Z;
  inv_port : ∀ u v i j p, instances d !! u = Some i → instances d !! v = Some j →
    i_HostPort i = Some p → i_HostPort j = Some p → u = v;
  inv_shared : ∀ u v i j, instances d !! u = Some i → instances d !! v = Some j →
    i_TeamID i = None → i_TeamID j = None → i_ChallengeID i = i_ChallengeID j → u = v;
  inv_team : ∀ u v i j t, instances d !! u = Some i → instances d !! v = Some j →
    i_TeamID i = Some t → i_TeamID j = Some t → i_ChallengeID i = i_ChallengeID j → u = v;
  inv_flag : ∀ u v i j f, instances d !! u = Some i → instances d !! v = Some j →
    i_Flag i = Some f → i_Flag j = Some f → u = v
}.

(** ** Rows and constraints *)

Lemma elem_of_inst_rows d i : In i (inst_rows d) ↔ ∃ u, instances d !! u = Some i.
Proof. unfold inst_rows. rewrite <- list_elem_of_In. apply elem_of_rows. Qed.

Lemma existsb_rows_false d f u i :
  existsb f (inst_rows d) = false → instances d !! u = Some i → f i = false.
Proof.
  intros He Hu. destruct (f i) eqn:E; [|done].
  rewrite <- He. symmetry. apply existsb_exists. exists i. split; [|done].
  apply elem_of_inst_rows. eauto.
Qed.

(** What an accepted insert says of the new row and of each existing one. *)
Lemma inst_conflicts_none r d :
  first_violation (inst_conflicts r d) = None →
  instances d !! i_ID r = None ∧
  (∀ u i, instances d !! u = Some i →
     (∀ p, i_HostPort r = Some p → i_HostPort i ≠ Some p) ∧
     (i_TeamID r = None → i_TeamID i = None → i_ChallengeID i ≠ i_ChallengeID r) ∧
     (∀ t, i_TeamID r = Some t → i_TeamID i = Some t → i_ChallengeID i ≠ i_ChallengeID r) ∧
     (∀ f, i_Flag r = Some f → i_Flag i ≠ Some f)).
Proof.
  rewrite first_violation_none. unfold inst_conflicts.
  rewrite !Forall_cons. cbn [fst checked unique foreign].
  intros (_ & Hid & Hport & Hsh & Hteam & Hflag & _).
  apply is_Some_b_false in Hid. split; [done|]. intros u i Hu. split_and!.
  - intros p Hp Hi. apply (existsb_rows_false _ _ _ _ Hport) in Hu.
    rewrite Hp, Hi in Hu. simpl in Hu. by rewrite bool_decide_eq_true_2 in Hu.
  - intros Hr Hi Hc. rewrite Hr in Hsh. simpl in Hsh.
    apply (existsb_rows_false _ _ _ _ Hsh) in Hu. rewrite Hi in Hu. simpl in Hu.
    by rewrite bool_decide_eq_true_2 in Hu.
  - intros t Hr Hi Hc. rewrite Hr in Hteam. simpl in Hteam.
    apply (existsb_rows_false _ _ _ _ Hteam) in Hu. rewrite Hi in Hu.
    by rewrite !bool_decide_eq_true_2 in Hu.
  - intros f Hf Hi. rewrite Hf in Hflag. simpl in Hflag.
    apply (existsb_rows_false _ _ _ _ Hflag) in Hu. by rewrite bool_decide_eq_true_2 in Hu.
Qed.

Section Inv.
Context (lo hi : Z).
Abbreviation inv := (inst_inv lo hi).

Lemma inv_insert r d :
  inv d → first_violation (inst_conflicts r d) = None →
  (∀ p, i_HostPort r = Some p → (lo ≤ p ≤ hi)%Z) →
  inv (set_instances (<[i_ID r := r]> (instances d)) d).
Proof.
  intros [Hid Hra Hpo Hsh Hte Hfl] Hc Hr.
  apply inst_conflicts_none in Hc as [Hnew Hrow].
  split; simpl; intros *; rewrite !lookup_insert_Some; intros;
    repeat match goal with
      | H : _ ∨ _ |- _ => destruct H as [[? ?]|[? ?]]
      end; subst; try done; eauto;
    match goal with
    | H : instances d !! _ = Some _ |- _ =>
        apply Hrow in H as (? & ? & ? & ?); exfalso; naive_solver congruence
    end.
Qed.

Lemma inv_delete u d : inv d → inv (set_instances (delete u (instances d)) d).
Proof.
  intros [Hid Hra Hpo Hsh Hte Hfl].
  split; simpl; intros *; rewrite !lookup_delete_Some; naive_solver.
Qed.

(** An update that keeps the row's identity, owner, port and flag. *)
Definition same_key (i j : Instance_) : Prop :=
  i_ID i = i_ID j ∧ i_ChallengeID i = i_ChallengeID j ∧ i_TeamID i = i_TeamID j ∧
  i_HostPort i = i_HostPort j ∧ i_Flag i = i_Flag j.

Lemma inv_update u i r d :
  inv d → instances d !! u = Some i → same_key r i →
  inv (set_instances (<[u := r]> (instances d)) d).
Proof.
  intros [Hid Hra Hpo Hsh Hte Hfl] Hu (E1 & E2 & E3 & E4 & E5).
  split; simpl; intros *; rewrite !lookup_insert_Some; intros;
    repeat match goal with
      | H : _ ∨ _ |- _ => destruct H as [[? ?]|[? ?]]
      end; subst; rewrite ?E1, ?E2, ?E3, ?E4, ?E5 in *; eauto.
Qed.

(** ** The statements *)

Lemma CreateInstance_inv id ch team st port flag exp net :
  (∀ p, port = Some p → (lo ≤ p ≤ hi)%Z) →
  preserves (dbi inv) (CreateInstance id ch team st port flag exp net).
Proof.
  intros Hp. apply preserves_dbi_query. intros now d a d' Hinv E. unfold guarded in E.
  destruct (first_violation _) eqn:Ev; simplify_eq.
  by apply (inv_insert (new_instance now id ch team st port flag exp net)).
Qed.

Lemma DeleteInstance_inv id : preserves (dbi inv) (DeleteInstance id).
Proof. apply preserves_dbi_query. intros now d a d' Hinv E; simplify_eq. by apply inv_delete. Qed.

Lemma SetInstanceExpiry_inv id e : preserves (dbi inv) (SetInstanceExpiry id e).
Proof.
  apply preserves_dbi_query. intros now d a d' Hinv E.
  destruct (instances d !! id) as [i|] eqn:Ei; simplify_eq/=. by eapply inv_update.
Qed.

Lemma UpdateInstance_inv id p : preserves (dbi inv) (UpdateInstance id p).
Proof.
  apply preserves_dbi_query. intros now d a d' Hinv E.
  destruct (instances d !! id) as [i|] eqn:Ei; simplify_eq/=. by eapply inv_update.
Qed.

Lemma InsertAuditLog_inv r : preserves (dbi inv) (InsertAuditLog r).
Proof.
  apply preserves_dbi_query. intros now d a d' [] E. unfold guarded in E.
  destruct (first_violation _); simplify_eq. by split.
Qed.
End Inv.

#[export] Hint Resolve DeleteInstance_inv SetInstanceExpiry_inv UpdateInstance_inv
  InsertAuditLog_inv : pres.

(** ** The manager *)

(** What the manager needs of its runtime for an invariant: every operation
    keeps it. *)
Class RuntimeKeeps `{ChallengeRuntime} (J : World → Prop) := {
  Deploy_keeps spec : all_steps J (rt_Deploy spec);
  Stop_keeps id : all_steps J (rt_Stop id);
  Destroy_keeps id : all_steps J (rt_Destroy id);
  Status_keeps id : all_steps J (rt_Status id);
  Logs_keeps id n : all_steps J (rt_Logs id n);
  Reconcile_keeps : all_steps J rt_Reconcile
}.
#[export] Hint Resolve Deploy_keeps Stop_keeps Destroy_keeps Status_keeps Logs_keeps
  Reconcile_keeps : pres.

Section Manager.
Context `{Libs} `{!ChallengeRuntime}.
Context (portStart portEnd : Z).
Context (Hrange : (0 ≤ portStart ∧ portEnd ≤ 65535)%Z).
Abbreviation J := (dbi (inst_inv portStart portEnd)).
Context `{!RuntimeKeeps J}.

Lemma int32_of_port p : (0 ≤ p ≤ 65535)%Z → int32_of p = p.
Proof using Type. intros Hp. unfold int32_of, wrap. rewrite Z.mod_small; lia. Qed.

Lemma elem_of_candidates p : p ∈ candidates portStart portEnd ↔ (portStart ≤ p ≤ portEnd)%Z.
Proof using Type. unfold candidates. rewrite elem_of_seqZ. lia. Qed.

Lemma or_absent_inv {A} prefix (m : M World A) :
  preserves J m → all_steps J (or_absent prefix m).
Proof using Type. intros Hm. unfold or_absent. steps. Qed.
Hint Resolve or_absent_inv : pres.

Lemma try_ports_inv ports used ch team flag exp net :
  (∀ p, p ∈ ports → (portStart ≤ p ≤ portEnd)%Z) →
  all_steps J (try_ports portStart portEnd ports used ch team flag exp net).
Proof using Hrange.
  induction ports as [|p ports IH]; intros Hp; cbn [try_ports]; [apply all_steps_throw|].
  assert (all_steps J (try_ports portStart portEnd ports used ch team flag exp net)) as Hrec.
  { apply IH. intros q Hq. apply Hp. by right. }
  assert (∀ id, preserves J (CreateInstance id ch team StatePending (Some (int32_of p)) flag exp net)).
  { intros id. apply CreateInstance_inv. intros q [= <-].
    specialize (Hp p ltac:(by left)). rewrite int32_of_port; lia. }
  steps.
Qed.

Lemma allocateRow_inv ch team flag exp net :
  all_steps J (allocateRow portStart portEnd ch team flag exp net).
Proof using Hrange.
  unfold allocateRow. steps. apply try_ports_inv. intros p. apply elem_of_candidates.
Qed.
Hint Resolve allocateRow_inv : pres.

Lemma getContainerChallenge_inv id : all_steps J (getContainerChallenge id).
Proof using Type. unfold getContainerChallenge. steps. Qed.
Hint Resolve getContainerChallenge_inv : pres.

Lemma throttledSecWarn_inv msg : all_steps J (throttledSecWarn msg).
Proof using Type.
  unfold throttledSecWarn. steps. apply preserves_dbi_same.
  intros w. unfold CompareAndSwap_warn. by case_decide.
Qed.
Hint Resolve throttledSecWarn_inv : pres.

Lemma isolationGate_inv : all_steps J isolationGate.
Proof using Type. unfold isolationGate. steps. Qed.
Hint Resolve isolationGate_inv : pres.

Lemma Deploy_inv ch : all_steps J (Deploy portStart portEnd ch).
Proof. unfold Deploy, ensureSharedRow. steps. Qed.
Hint Resolve Deploy_inv : pres.

Lemma DeployForTeam_inv req : all_steps J (DeployForTeam portStart portEnd req).
Proof. unfold DeployForTeam, ensureTeamRow. steps. Qed.

Lemma DestroyInstance_inv id : all_steps J (DestroyInstance id).
Proof using RuntimeKeeps0. unfold DestroyInstance. steps. Qed.
Hint Resolve DestroyInstance_inv : pres.

Lemma Destroy_inv ch : all_steps J (Destroy ch).
Proof using RuntimeKeeps0. unfold Destroy, shared_row. steps. Qed.
Hint Resolve Destroy_inv : pres.

Lemma Restart_inv ch : all_steps J (Restart portStart portEnd ch).
Proof. unfold Restart, shared_row. steps. Qed.

Lemma DestroyForChallenge_inv ch : all_steps J (DestroyForChallenge ch).
Proof using RuntimeKeeps0. unfold DestroyForChallenge. steps. Qed.

Lemma ManagerGetTeamInstance_inv ch t : all_steps J (ManagerGetTeamInstance ch t).
Proof using Type. unfold ManagerGetTeamInstance. steps. Qed.

Lemma CountTeamRunning_inv t : all_steps J (CountTeamRunning t).
Proof using Type. unfold CountTeamRunning. steps. Qed.

Lemma ListStale_inv o : all_steps J (ListStale o).
Proof using Type. unfold ListStale. steps. Qed.
End Manager.

(** ** Port allocation *)

Definition used_ports (d : DB) : list Z := order_by id (omap i_HostPort (inst_rows d)).

Lemma elem_of_used_ports d p :
  p ∈ used_ports d ↔ ∃ u i, instances d !! u = Some i ∧ i_HostPort i = Some p.
Proof.
  unfold used_ports, order_by. rewrite (merge_sort_Permutation _ (omap _ _)).
  rewrite list_elem_of_omap. split.
  - intros (i & Hi & Hp). apply list_elem_of_In, elem_of_inst_rows in Hi as [u Hu]. eauto.
  - intros (u & i & Hu & Hp). exists i. split; [|done].
    apply list_elem_of_In, elem_of_inst_rows. eauto.
Qed.

(** An owner that may get a row: the challenge and team exist, there is no row
    for them yet, and the flag is new. *)
Record insertable (ch : uuid) (team : option uuid) (flag : option string) (d : DB) : Prop := {
  ins_challenge : is_Some (challenges d !! ch);
  ins_team : ∀ t, team = Some t → is_Some (teams d !! t);
  ins_owner : ∀ u i, instances d !! u = Some i → i_TeamID i = team → i_ChallengeID i ≠ ch;
  ins_flag : ∀ u i f, instances d !! u = Some i → flag = Some f → i_Flag i ≠ Some f
}.

Lemma existsb_rows_none d f :
  (∀ u i, instances d !! u = Some i → f i = false) → existsb f (inst_rows d) = false.
Proof.
  intros Hf. apply not_true_is_false. rewrite existsb_exists.
  intros (i & Hi & E). apply elem_of_inst_rows in Hi as [u Hu]. by rewrite (Hf u i Hu) in E.
Qed.

Lemma insertable_ok now id ch team st p flag exp net d :
  insertable ch team flag d → instances d !! id = None → p ∉ used_ports d →
  (30000 ≤ p ≤ 32767)%Z →
  first_violation (inst_conflicts (new_instance now id ch team st (Some p) flag exp net) d) = None.
Proof.
  intros [Hch Ht Ho Hf] Hid Hp Hr. rewrite elem_of_used_ports in Hp.
  apply first_violation_none. unfold inst_conflicts.
  repeat (apply Forall_cons; split); [..|by apply Forall_nil]; cbn -[bool_decide].
  - apply negb_false_iff, andb_true_iff. lia.
  - by rewrite Hid.
  - apply existsb_rows_none. intros u i Hu. apply bool_decide_eq_false. naive_solver.
  - destruct team; [done|]. simpl. apply existsb_rows_none. intros u i Hu.
    destruct (i_TeamID i) eqn:E; [done|]. apply bool_decide_eq_false. eauto.
  - destruct team as [t|]; [|done]. apply existsb_rows_none. intros u i Hu.
    destruct (decide (i_TeamID i = Some t)) as [E|E]; [|by rewrite bool_decide_eq_false_2].
    apply andb_false_iff. right. apply bool_decide_eq_false. eauto.
  - destruct flag as [f|]; [|done]. apply existsb_rows_none. intros u i Hu.
    apply bool_decide_eq_false. eauto.
  - apply negb_false_iff, is_Some_b_true. done.
  - destruct team as [t|]; [|done]. apply negb_false_iff, is_Some_b_true. eauto.
Qed.

(** The lowest candidate that no row holds. *)
Definition lowest_free (ports used : list Z) : option Z :=
  List.find (λ p, negb (bool_decide (p ∈ used))) ports.

Lemma lowest_free_spec lo hi used p :
  lowest_free (candidates lo hi) used = Some p →
  (lo ≤ p ≤ hi)%Z ∧ p ∉ used ∧ ∀ q, (lo ≤ q < p)%Z → q ∈ used.
Proof.
  unfold lowest_free, candidates. remember (hi - lo + 1)%Z as n eqn:En.
  destruct (decide (0 ≤ n)%Z) as [Hn|Hn];
    [|by rewrite seqZ_nil by lia]. revert lo En; pattern n; apply natlike_ind; [..|done].
  - intros lo _. by rewrite seqZ_nil.
  - intros m Hm IH lo En. rewrite seqZ_cons by lia. simpl.
    case_bool_decide as Hin; simpl.
    + rewrite Z.pred_succ. intros Hf. apply IH in Hf as (Hb & Hp & Hq); [|lia].
      split_and!; [lia|lia|done|]. intros q Hlt.
      destruct (decide (q = lo)) as [->|]; [done|]. apply Hq. lia.
    + intros [= <-]. split_and!; [lia|lia|done|lia].
Qed.

Section Allocation.
Context (lo hi : Z) (Hrange : (30000 ≤ lo ∧ hi ≤ 32767)%Z).
Context (ch : uuid) (team : option uuid) (flag : option string) (exp : option time)
        (net : option string).

Definition allocated (w : World) (id : uuid) (us : list (option uuid)) (p : Z) : Instance_ * World :=
  let r := new_instance (w_dbnow w) id ch team StatePending (Some p) flag exp net in
  (r, set_db (set_instances (<[id := r]> (instances (w_db w))) (w_db w)) (set_uuids us w)).

Lemma try_ports_run w id us ports :
  w_faults w = [] → w_uuids w = Some id :: us → instances (w_db w) !! id = None →
  insertable ch team flag (w_db w) → (∀ p, p ∈ ports → (lo ≤ p ≤ hi)%Z) →
  run (try_ports lo hi ports (used_ports (w_db w)) ch team flag exp net) w =
  Some (match lowest_free ports (used_ports (w_db w)) with
        | Some p => let '(r, w') := allocated w id us p in (Ok r, w')
        | None => (Err (Conflict ("no free challenge ports in range " +:+ Itoa lo +:+ "-" +:+ Itoa hi)), w)
        end).
Proof using Hrange.
  intros Hf Hu Hid Hins. induction ports as [|p ports IH]; intros Hp; [done|].
  cbn [try_ports lowest_free List.find].
  destruct (decide (p ∈ used_ports (w_db w))) as [Hin|Hin].
  - rewrite bool_decide_eq_true_2 by done. apply IH. intros q Hq. apply Hp. by right.
  - rewrite bool_decide_eq_false_2 by done. cbn [negb].
    specialize (Hp p ltac:(by left)).
    rewrite run_bind. unfold map_err. rewrite run_bind, run_try, run_atomic.
    unfold NewV7. rewrite Hu. cbn [run mret P_ret].
    rewrite run_bind, run_try, run_atomic. unfold CreateInstance.
    rewrite query_nofault by done. rewrite int32_of_port by lia. unfold guarded.
    rewrite insertable_ok by (done || lia). done.
Qed.

(** Run alone with the database up, [allocateRow] picks the lowest port of
    the configured range that no row holds: it inserts exactly one pending row
    with it, under the next generated id, and changes nothing else; when every
    port of the range is held it reports the conflict and changes nothing. *)
Theorem allocateRow_lowest_free w id us :
  w_faults w = [] → w_uuids w = Some id :: us → instances (w_db w) !! id = None →
  insertable ch team flag (w_db w) →
  run (allocateRow lo hi ch team flag exp net) w =
  Some (match lowest_free (candidates lo hi) (used_ports (w_db w)) with
        | Some p => let '(r, w') := allocated w id us p in (Ok r, w')
        | None => (Err (Conflict ("no free challenge ports in range " +:+ Itoa lo +:+ "-" +:+ Itoa hi)), w)
        end).
Proof using Hrange.
  intros Hf Hu Hid Hins. unfold allocateRow, map_err.
  rewrite !run_bind, run_try, run_atomic. unfold ListUsedPorts.
  rewrite select_nofault by done. cbn [run mret P_ret].
  apply try_ports_run; try done. intros p. apply elem_of_candidates.
Qed.
End Allocation.

Lemma allocateRow_lowest_free_witness :
  let w := demo_world demo_db 0 in
  insertable 31%N (Some 21%N) None (w_db w) ∧
  lowest_free (candidates 30000 30001) (used_ports (w_db w)) = (Some 30000%Z) ∧
  run (allocateRow 30000 30001 31%N (Some 21%N) None None None) w =
  Some (let '(r, w') := allocated 31%N (Some 21%N) None None None w 100%N (tail (w_uuids w)) 30000 in
        (Ok r, w')).
Proof.
  assert (insertable 31%N (Some 21%N) None (w_db (demo_world demo_db 0))) as Hins.
  { split; [by eexists| |by intros ? ? ?|done]. intros t [= <-]. by eexists. }
  split; [exact Hins|]. split; [reflexivity|].
  rewrite (allocateRow_lowest_free 30000 30001 ltac:(lia) 31%N (Some 21%N) None None None
    (demo_world demo_db 0) 100%N (tail (w_uuids (demo_world demo_db 0)))
    eq_refl eq_refl eq_refl Hins).
  reflexivity.
Defined.

(** ** The isolation gate *)

(** What the gate lets through. *)
Definition gate_open (m : ManagerState) : bool :=
  negb (gateArmed m) || match isolation m with isolationEnforced => true | _ => allowUnisolated m end.

(** Warnings only touch the manager's throttle and the log. *)
Definition only_warned (w w' : World) : Prop :=
  w_db w' = w_db w ∧ w_fake w' = w_fake w ∧ w_sched w' = w_sched w ∧
  w_chans w' = w_chans w ∧ w_uuids w' = w_uuids w ∧ w_faults w' = w_faults w ∧
  gate_open (w_mgr w') = gate_open (w_mgr w).

Lemma throttledSecWarn_run msg w :
  wp (throttledSecWarn msg) (λ r w', r = Ok tt ∧ only_warned w w') w.
Proof.
  unfold throttledSecWarn, wp. rewrite run_bind, run_atomic. cbn [gets].
  destruct (secLog (w_mgr w)); cbn [negb]; [|done].
  rewrite !run_bind, run_atomic. cbn [gets]. rewrite run_bind, run_atomic. cbn [gets].
  destruct (_ <? _)%Z; [done|]. rewrite run_bind, run_atomic. unfold CompareAndSwap_warn.
  case_decide; done.
Qed.

Lemma isolationGate_run w :
  wp isolationGate
    (λ r w', only_warned w w' ∧
             r = if gate_open (w_mgr w) then Ok tt else Err (Unavailable isolationRefusalDetail 0)) w.
Proof.
  unfold isolationGate, wp. rewrite run_bind, run_atomic. cbn [gets]. unfold gate_open at 1.
  destruct (gateArmed (w_mgr w)) eqn:Ea; cbn [negb orb]; [|done].
  rewrite run_bind, run_atomic. cbn [gets].
  assert (∀ msg r, (∀ w', run r w' = Some (if allowUnisolated (w_mgr w) then Ok tt
                     else Err (Unavailable isolationRefusalDetail 0), w')) →
    match run (throttledSecWarn msg;; r) w with
    | Some (a, s') => only_warned w s' ∧
        a = if allowUnisolated (w_mgr w) then Ok tt else Err (Unavailable isolationRefusalDetail 0)
    | None => False end) as Hwarn.
  { intros msg r Hr. rewrite run_bind. pose proof (throttledSecWarn_run msg w) as Hw.
    unfold wp in Hw. destruct (run _ w) as [[r' w']|]; [|done]. destruct Hw as [-> Hw].
    by rewrite Hr. }
  assert (∀ msg, run (throttledSecWarn msg;; mret tt) w = run (throttledSecWarn msg) w) as Hret.
  { intros msg. rewrite run_bind. by destruct (run _ w) as [[[[]|] ]|]. }
  destruct (isolation (w_mgr w)); [|done|];
    rewrite run_bind, run_atomic; cbn [gets];
    (destruct (allowUnisolated (w_mgr w)); [rewrite <- Hret|]); by apply Hwarn.
Qed.

(** C7: The isolation gate decides every per-team deploy: on an armed gate
    whose verdict is not "enforced" (unknown included) and with no override,
    [DeployForTeam] fails with the refusal having touched neither the database
    nor the runtime; on an open gate it goes on. *)
Theorem DeployForTeam_gated `{Libs} `{!ChallengeRuntime} lo hi req w :
  if gate_open (w_mgr w) then
    ∃ w', only_warned w w' ∧ run isolationGate w = Some (Ok tt, w')
  else
    wp (DeployForTeam lo hi req)
      (λ r w', r = Err (Unavailable isolationRefusalDetail 0) ∧ only_warned w w') w.
Proof.
  pose proof (isolationGate_run w) as Hg. unfold wp in Hg.
  destruct (run isolationGate w) as [[r w']|] eqn:E; [|done]. destruct Hg as [Hw Hr].
  destruct (gate_open (w_mgr w)); [subst; eauto|].
  unfold DeployForTeam, wp. rewrite run_bind, E, Hr. done.
Qed.
