(* ===== verification/FakeRuntime.v ===== *)
(** * The in-memory runtime ([internal/runtime/fake.go])

    A [ChallengeRuntime] over the instance rows and a simulated daemon.  Its
    [Reconcile] gathers the daemon's containers and the rows, runs the decision
    of [Reconcile.v], and executes the actions. *)

From S2P Require Import Prelude Env Store Runtime Instances.
From S2P Require Reconcile.

(** The knobs a test turns; nil hooks are [λ _, mret tt] and [λ _, false]. *)
Record FakeConf := {
  FailDeploy : bool;
  fk_Unavailable : bool;
  DeployFault : option error;
  BeforeDeploy : InstanceSpec → P World unit;
  FailReconcileActionFor : Reconcile.Action → bool;
  fk_now : World → time
}.

Definition set_fake_state (f : FakeState → FakeState) : M World unit :=
  modify (λ w, set_fake (f (w_fake w)) w).

Definition with_containers (g : gmap uuid fakeContainer → gmap uuid fakeContainer) (s : FakeState) :=
  {| fk_containers := g (fk_containers s); fk_deployed := fk_deployed s;
     fk_destroyed := fk_destroyed s; fk_lastReconcileActions := fk_lastReconcileActions s |}.
Definition add_deployed (id : uuid) (s : FakeState) :=
  {| fk_containers := fk_containers s; fk_deployed := fk_deployed s ++ [id];
     fk_destroyed := fk_destroyed s; fk_lastReconcileActions := fk_lastReconcileActions s |}.
Definition add_destroyed (id : uuid) (s : FakeState) :=
  {| fk_containers := delete id (fk_containers s); fk_deployed := fk_deployed s;
     fk_destroyed := fk_destroyed s ++ [id];
     fk_lastReconcileActions := fk_lastReconcileActions s |}.
Definition set_lastActions (n : nat) (s : FakeState) :=
  {| fk_containers := fk_containers s; fk_deployed := fk_deployed s;
     fk_destroyed := fk_destroyed s; fk_lastReconcileActions := n |}.

(** The faults a test injects between operations. *)
Definition VanishContainer (id : uuid) : P World unit :=
  atomic (set_fake_state (with_containers (delete id))).
Definition ExitContainer (id : uuid) : P World unit :=
  atomic (set_fake_state (with_containers
    (alter (λ c, {| fc_id := fc_id c; fc_running := false |}) id))).
Definition InjectContainer (id : uuid) (cid : string) : P World unit :=
  atomic (set_fake_state (with_containers <[id := {| fc_id := cid; fc_running := true |}]>)).

Definition no_update : UpdateInstanceParams :=
  {| up_State := None; up_ContainerID := None; up_SetError := false; up_Error := None;
     up_StartedAt := None; up_LastHealthAt := None |}.
Definition to_state (s : State) : UpdateInstanceParams :=
  {| up_State := Some s; up_ContainerID := None; up_SetError := false; up_Error := None;
     up_StartedAt := None; up_LastHealthAt := None |}.
Definition to_running (cid : string) (now : time) : UpdateInstanceParams :=
  {| up_State := Some StateRunning; up_ContainerID := Some cid; up_SetError := false;
     up_Error := None; up_StartedAt := Some now; up_LastHealthAt := Some now |}.
Definition to_error (msg : string) : UpdateInstanceParams :=
  {| up_State := Some StateError; up_ContainerID := None; up_SetError := true;
     up_Error := Some msg; up_StartedAt := None; up_LastHealthAt := None |}.

Section Fake.
Context `{Libs} (conf : FakeConf).

Definition unavailable : error := RuntimeUnavailable (ErrOther "fake unavailable").

Definition update (id : uuid) (p : UpdateInstanceParams) : P World Instance_ :=
  map_err (Wrap "fake: update instance") (atomic (UpdateInstance id p)).

Definition fake_cid (id : uuid) : string := "fake-" +:+ uuid_String id.

Definition fake_Deploy (spec : InstanceSpec) : P World Instance :=
  if fk_Unavailable conf then throw unavailable else
  BeforeDeploy conf spec;;
  atomic (set_fake_state (add_deployed (is_InstanceID spec)));;
  match DeployFault conf with
  | Some e => throw e
  | None =>
      now ← atomic (gets (fk_now conf));
      if FailDeploy conf then
        row ← update (is_InstanceID spec) (to_error "fake deploy failure");
        mret (rowToInstance row)
      else
        let cid := fake_cid (is_InstanceID spec) in
        row ← update (is_InstanceID spec) (to_running cid now);
        atomic (set_fake_state (with_containers
          <[is_InstanceID spec := {| fc_id := cid; fc_running := true |}]>));;
        mret (rowToInstance row)
  end.

Definition fake_Stop (id : uuid) : P World unit :=
  if fk_Unavailable conf then throw unavailable else
  update id (to_state StateStopped);; mret tt.

Definition fake_Destroy (id : uuid) : P World unit :=
  if fk_Unavailable conf then throw unavailable else
  atomic (set_fake_state (add_destroyed id)).

Definition fake_Status (id : uuid) : P World Instance :=
  row ← map_err (Wrap "fake: get instance") (atomic (GetInstanceByID id));
  mret (rowToInstance row).

Definition fake_Logs (id : uuid) (_ : Z) : P World string :=
  if fk_Unavailable conf then throw unavailable
  else mret ("fake logs for " +:+ uuid_String id).

(** The gathered views.  A Go map is ranged over in an unspecified order; the
    order of the containers only orders the actions. *)
Definition observe (s : FakeState) : list Reconcile.ContainerView :=
  map (λ '(id, c), {| Reconcile.cv_ContainerID := fc_id c;
                      Reconcile.cv_InstanceID := uuid_String id;
                      Reconcile.cv_Running := fc_running c |})
      (map_to_list (fk_containers s)).

Definition view_row (r : Instance_) : Reconcile.InstanceRow :=
  {| Reconcile.ir_InstanceID := uuid_String (i_ID r);
     Reconcile.ir_TeamID := match i_TeamID r with Some t => uuid_String t | None => "" end;
     Reconcile.ir_State := i_State r;
     Reconcile.ir_ContainerID := default "" (i_ContainerID r);
     Reconcile.ir_UpdatedAt := i_UpdatedAt r |}.

Definition drop_container (cid : string) (m : gmap uuid fakeContainer) : gmap uuid fakeContainer :=
  filter (λ p, fc_id p.2 ≠ cid) m.

Definition execute (a : Reconcile.Action) : P World unit :=
  if FailReconcileActionFor conf a then mret tt else
  match Reconcile.ac_Kind a with
  | Reconcile.ActionMarkLost =>
      match uuid_Parse (Reconcile.ac_InstanceID a) with
      | None => mret tt
      | Some id => try (update id (to_state StateLost));; mret tt
      end
  | Reconcile.ActionRemoveContainer =>
      atomic (set_fake_state (with_containers (drop_container (Reconcile.ac_ContainerID a))))
  | _ => mret tt
  end.

Definition fake_Reconcile : P World unit :=
  if fk_Unavailable conf then mret tt else
  observed ← atomic (gets (λ w, observe (w_fake w)));
  dbRows ← map_err (Wrap "fake: list instances") (atomic ListInstances);
  now ← map_err (Wrap "fake: db clock") (atomic ReconcileClock);
  let actions := (Reconcile.Reconcile observed (map view_row dbRows) [] now).1 in
  atomic (set_fake_state (set_lastActions (length actions)));;
  for_each execute actions.

#[export] Instance FakeRuntime : ChallengeRuntime :=
  {| rt_Deploy := fake_Deploy; rt_Stop := fake_Stop; rt_Destroy := fake_Destroy;
     rt_Status := fake_Status; rt_Logs := fake_Logs; rt_Reconcile := fake_Reconcile |}.

(** It keeps the integrity of the instance table. *)
Section Keeps.
Context (lo hi : Z).
Abbreviation J := (dbi (inst_inv lo hi)).
Context (Hbefore : ∀ spec, all_steps J (BeforeDeploy conf spec)).
Hint Resolve Hbefore : pres.

Lemma set_fake_state_inv f : preserves J (set_fake_state f).
Proof using Type. by apply preserves_dbi_modify. Qed.
Hint Resolve set_fake_state_inv : pres.

Lemma update_inv id p : all_steps J (update id p).
Proof using Type. unfold update. steps. Qed.
Hint Resolve update_inv : pres.

#[export] Instance FakeRuntime_keeps : RuntimeKeeps (H:=FakeRuntime) J.
Proof using Hbefore.
  split; cbn [rt_Deploy rt_Stop rt_Destroy rt_Status rt_Logs rt_Reconcile FakeRuntime]; intros.
  - unfold fake_Deploy. steps.
  - unfold fake_Stop. steps.
  - unfold fake_Destroy. steps.
  - unfold fake_Status. steps.
  - unfold fake_Logs. steps.
  - unfold fake_Reconcile, execute. steps. apply preserves_dbi_query.
    intros; by simplify_eq.
Qed.
End Keeps.
End Fake.
