(* ===== verification/Scheduler.v ===== *)
(** * The instance scheduler ([internal/scheduler/scheduler.go])

    Per-team instance lifecycle: start with quota, flag and TTL; stop; extend;
    expire; event-end cleanup; reaping of stuck rows.  Everything that touches a
    team's instances runs under that team's lock. *)

From S2P Require Import Prelude Env Store Events Runtime.

Record Config := {
  cfg_TTL : duration; cfg_Extend : duration; cfg_MaxTTL : duration;
  cfg_Quota : Z; cfg_ReapAfter : duration
}.

(** ** Team locks

    A lock is a capacity-1 channel and a reference count; the registry maps a
    team to the address of its lock while the count is positive.  [teamGuard]
    makes each of the two registry updates one step. *)

Definition set_scheduler (f : SchedState → SchedState) (w : World) : World :=
  set_sched (f (w_sched w)) w.
Definition with_locks (l : list teamLock) (s : SchedState) : SchedState :=
  {| teamMu := teamMu s; locks := l; expireOffset := expireOffset s |}.
Definition with_teamMu (m : gmap uuid nat) (s : SchedState) : SchedState :=
  {| teamMu := m; locks := locks s; expireOffset := expireOffset s |}.
Definition add_ref (d : Z) (l : teamLock) : teamLock :=
  {| tl_ch := tl_ch l; tl_refs := (tl_refs l + d)%Z |}.

(** What the caller of [refTeamLock] holds: the team, the lock's address and its
    channel. *)
Record lockRef := { lr_team : uuid; lr_lock : nat; lr_ch : nat }.

Definition refTeamLock_step (team : uuid) (w : World) : lockRef * World :=
  let s := w_sched w in
  match teamMu s !! team with
  | Some a =>
      ({| lr_team := team; lr_lock := a;
          lr_ch := match locks s !! a with Some l => tl_ch l | None => 0 end |},
       set_scheduler (with_locks (alter (add_ref 1) a (locks s))) w)
  | None =>
      let a := length (locks s) in
      let c := length (w_chans w) in
      ({| lr_team := team; lr_lock := a; lr_ch := c |},
       set_chans (w_chans w ++ [{| ch_cap := 1; ch_len := 0 |}])
         (set_scheduler (λ s, with_teamMu (<[team := a]> (teamMu s))
            (with_locks (locks s ++ [{| tl_ch := c; tl_refs := 1 |}]) s)) w))
  end.
Definition refTeamLock (team : uuid) : P World lockRef :=
  atomic (λ w, let '(r, w') := refTeamLock_step team w in (Ok r, w')).

Definition release_step (r : lockRef) (w : World) : World :=
  let s := w_sched w in
  let ls := alter (add_ref (-1)) (lr_lock r) (locks s) in
  let mu := match ls !! lr_lock r with
            | Some l => if decide (tl_refs l = 0%Z) then delete (lr_team r) (teamMu s) else teamMu s
            | None => teamMu s end in
  set_scheduler (λ s, with_teamMu mu (with_locks ls s)) w.
Definition release (r : lockRef) : P World unit := atomic (modify (release_step r)).

Definition unlock (r : lockRef) : P World unit := recv (lr_ch r);; release r.

(** [None] is the failed acquisition: context done, or lock busy. *)
Definition lockTeam (team : uuid) : P World (option lockRef) :=
  r ← refTeamLock team;
  got ← send_or_done (lr_ch r);
  if got : bool then mret (Some r) else release r;; mret None.

Definition tryLockTeam (team : uuid) : P World (option lockRef) :=
  r ← refTeamLock team;
  got ← send_or_default (lr_ch r);
  if got : bool then mret (Some r) else release r;; mret None.

(** [unlock, ok := s.lockTeam(ctx, teamID); if !ok { return ctx.Err() }; defer unlock()]. *)
Definition with_team_lock {A} (team : uuid) (body : P World A) : P World A :=
  l ← lockTeam team;
  match l with
  | None => throw ErrCtx
  | Some r => defer (unlock r) body
  end.

(** ** Helpers *)

(** The items from [offset mod n] on, then those before. *)
Definition rotate {A} (items : list A) (offset : Z) : list A :=
  match length items with
  | O => items
  | n => let start := Z.to_nat (offset mod Z.of_nat n)%Z in
         drop start items ++ take start items
  end.

(** [expireOffset.Add(1)] on a [uint64]. *)
Definition next_offset : P World Z :=
  atomic (λ w,
    let n := ((expireOffset (w_sched w) + 1) mod 2 ^ 64)%Z in
    (Ok n, set_scheduler (λ s, {| teamMu := teamMu s; locks := locks s; expireOffset := n |}) w)).

Definition metaOf `{Libs} (row : Instance_) (reason : option string) : gmap string string :=
  let m := {[ "challenge_id" := uuid_String (i_ChallengeID row) ]} in
  let m := match i_TeamID row with Some t => <["team_id" := uuid_String t]> m | None => m end in
  match reason with Some r => <["reason" := r]> m | None => m end.

Section Scheduler.
Context `{Libs} `{ChallengeRuntime}.
Context (portStart portEnd : Z) (cfg : Config) (prefix : string).
Context (afterList : P World unit).   (* nil is [mret tt] *)

Definition ttlFor (ch : Challenge) : P World (option time) :=
  let ttl := match c_InstanceTtlSeconds ch with
             | Some s => (s * Second)%Z | None => cfg_TTL cfg end in
  if (ttl <=? 0)%Z then mret None
  else now ← atomic clock_now; mret (Some (now + ttl)%Z).

Definition requireRunning : P World unit :=
  e ← Events.Get;
  p ← Phase_ e;
  if decide (p = PhaseRunning) then mret tt
  else throw (Conflict "instances are available while the event is running").

Definition Start_locked (actor team challenge : uuid) : P World (Instance * bool) :=
  ch ← map_err (λ e, if is_no_rows e then ErrNotFound else e) (atomic (GetChallengeByID challenge));
  if negb (c_Visible ch) then throw ErrNotFound else
  if bool_decide (c_Kind ch ≠ "container"%string) || bool_decide (c_Instancing ch ≠ "per_team"%string)
  then throw (Conflict "this challenge does not have per-team instances") else
  requireRunning;;
  existing ← ManagerGetTeamInstance challenge team;
  match existing with
  | Some i =>
      if decide (in_State i = StateRunning) then mret (Some (i, false)) else mret None
  | None => mret None
  end ≫= λ running,
  match running with
  | Some r => mret r
  | None =>
      n ← CountTeamRunning team;
      if (cfg_Quota cfg <=? Z.of_nat n)%Z then
        throw (Conflict ("your team is at its instance limit (" +:+ Itoa (Z.of_nat n) +:+ "/" +:+
                         Itoa (cfg_Quota cfg) +:+ ") — stop one to start another"))
      else
        flag ← (if decide (c_FlagMode ch = "per_instance"%string) then flags_New prefix
                else mret (c_Flag ch));
        exp ← ttlFor ch;
        r ← try (DeployForTeam portStart portEnd
              {| dr_ChallengeID := challenge; dr_TeamID := team; dr_Flag := flag; dr_ExpiresAt := exp |});
        match r with
        | Err e => atomic (emit (Log "WARN" "instance start: deploy failed"));; throw e
        | Ok inst =>
            atomic (emit (Inc "InstanceSpawns" []));;
            atomic (audit_Log actor "instance.spawn" "instance" (uuid_String (in_ID inst))
              {[ "challenge_id" := uuid_String challenge; "team_id" := uuid_String team ]});;
            mret (inst, true)
        end
  end.

Definition Start (actor team challenge : uuid) : P World (Instance * bool) :=
  with_team_lock team (Start_locked actor team challenge).

Definition Stop_locked (actor team challenge : uuid) : P World unit :=
  o ← ManagerGetTeamInstance challenge team;
  match o with
  | None => throw ErrNotFound
  | Some inst =>
      DestroyInstance (in_ID inst);;
      atomic (emit (Inc "InstanceCleanups" ["stop"]));;
      atomic (audit_Log actor "instance.cleanup" "instance" (uuid_String (in_ID inst))
        {[ "challenge_id" := uuid_String challenge; "team_id" := uuid_String team;
           "reason" := "stop" ]})
  end.

Definition Stop (actor team challenge : uuid) : P World unit :=
  with_team_lock team (Stop_locked actor team challenge).

Definition set_in_ExpiresAt (e : option time) (i : Instance) : Instance :=
  {| in_ID := in_ID i; in_ChallengeID := in_ChallengeID i; in_TeamID := in_TeamID i;
     in_State := in_State i; in_ContainerID := in_ContainerID i; in_HostPort := in_HostPort i;
     in_Network := in_Network i; in_StartedAt := in_StartedAt i;
     in_LastHealthAt := in_LastHealthAt i; in_ExpiresAt := e; in_Err := in_Err i |}.

(** The expiry [Extend] would set, or [None] at the maximum lifetime. *)
Definition next_expiry (now : time) (started : option time) (expires : time) : option time :=
  let maxLifetime := (match started with Some s => s | None => now end + cfg_MaxTTL cfg)%Z in
  if negb (expires <? maxLifetime)%Z then None
  else let next := (expires + cfg_Extend cfg)%Z in
       Some (if after next maxLifetime then maxLifetime else next).

Definition Extend_locked (team challenge : uuid) : P World Instance :=
  o ← ManagerGetTeamInstance challenge team;
  match o with
  | None => throw ErrNotFound
  | Some inst =>
      requireRunning;;
      match in_ExpiresAt inst with
      | None => mret inst
      | Some expires =>
          now ← atomic clock_now;
          match next_expiry now (in_StartedAt inst) expires with
          | None => throw (Conflict "this instance has reached its maximum lifetime")
          | Some next =>
              row ← atomic (SetInstanceExpiry (in_ID inst) (Some next));
              mret (set_in_ExpiresAt (i_ExpiresAt row) inst)
          end
      end
  end.

Definition Extend (team challenge : uuid) : P World Instance :=
  with_team_lock team (Extend_locked team challenge).

(** Under the lock: re-read, re-check, destroy. *)
Definition destroy_checked (id : uuid) (eligible : Instance_ → bool) : P World (bool * bool) :=
  r ← try (atomic (GetInstanceByID id));
  match r with
  | Err _ => mret (false, false)
  | Ok cur =>
      if negb (eligible cur) then mret (false, false) else
      d ← try (DestroyInstance id);
      match d with
      | Err _ => atomic (emit (Log "WARN" "destroy failed"));; mret (false, false)
      | Ok _ => mret (true, false)
      end
  end.

Definition destroyLocked (team : option uuid) (id : uuid) (wait : bool)
    (eligible : Instance_ → bool) : P World (bool * bool) :=
  match team with
  | None => destroy_checked id eligible
  | Some t =>
      l ← (if wait then lockTeam t else tryLockTeam t);
      match l with
      | None => mret (false, true)
      | Some r => defer (unlock r) (destroy_checked id eligible)
      end
  end.

Definition still_expired (now : time) (cur : Instance_) : bool :=
  match i_ExpiresAt cur with Some e => (e <? now)%Z | None => false end.

Definition expire_row (now : time) (row : Instance_) : P World unit :=
  d ← destroyLocked (i_TeamID row) (i_ID row) false (still_expired now);
  if d.1 : bool then
    atomic (emit (Inc "InstanceExpiries" []));;
    atomic (audit_Log uuid_Nil "instance.expire" "instance" (uuid_String (i_ID row)) (metaOf row None))
  else mret tt.

Definition ExpireOnce : P World unit :=
  now ← atomic clock_now;
  rows ← atomic (ListExpiredInstances now);
  afterList;;
  offset ← next_offset;
  for_each (expire_row now) (rotate rows offset);;
  atomic (emit (MarkSuccess "ExpiryLastSuccess")).

Definition cleanup_row (row : Instance_) : P World unit :=
  d ← destroyLocked (i_TeamID row) (i_ID row) true (λ _, true);
  if d.1 : bool then
    atomic (emit (Inc "InstanceCleanups" ["event-end"]));;
    atomic (audit_Log uuid_Nil "instance.cleanup" "instance" (uuid_String (i_ID row))
      (metaOf row (Some "event-end")))
  else mret tt.

Definition maxConcurrent : nat := 16.

(** Both results are meaningful in Go: the count and the error. *)
Definition CleanupEnded : P World (nat * option error) :=
  g ← try Events.Get;
  match g with
  | Err e => mret (0, Some e)
  | Ok e =>
      p ← Phase_ e;
      if negb (bool_decide (p = PhaseEnded)) then mret (0, None) else
      l ← try (atomic ListPerTeamInstances);
      match l with
      | Err e => mret (0, Some e)
      | Ok rows =>
          sem ← make_chan maxConcurrent;
          wg ← new_wg;
          for_each (λ row,
            wg_Add wg 1;;
            send sem;;
            go (defer (wg_Done wg) (defer (recv sem) (cleanup_row row)))) rows;;
          wg_Wait wg;;
          after ← try (atomic ListPerTeamInstances);
          match after with
          | Err e => mret (length rows, Some e)
          | Ok rows => mret (length rows, None)
          end
      end
  end.

Definition still_stale (cur : Instance_) : bool :=
  is_state StatePending cur || is_state StateError cur || is_state StateLost cur.

Fixpoint reap_rows (rows : list Instance) (reaped : nat) : P World nat :=
  match rows with
  | [] => mret reaped
  | row :: rows =>
      d ← destroyLocked (in_TeamID row) (in_ID row) false still_stale;
      if negb d.1 then reap_rows rows reaped else
      let meta : gmap string string :=
        {[ "challenge_id" := uuid_String (in_ChallengeID row); "reason" := "reap-stale";
           "state" := State_string (in_State row) ]} in
      let meta := match in_TeamID row with
                  | Some t => <["team_id" := uuid_String t]> meta | None => meta end in
      atomic (emit (Inc "InstanceCleanups" ["reap"]));;
      atomic (audit_Log uuid_Nil "instance.cleanup" "instance" (uuid_String (in_ID row)) meta);;
      reap_rows rows (S reaped)
  end.

Definition ReapStaleOnce : P World nat :=
  if (cfg_ReapAfter cfg <=? 0)%Z then mret 0 else
  rows ← ListStale (cfg_ReapAfter cfg);
  n ← reap_rows rows 0;
  atomic (emit (MarkSuccess "ReapLastSuccess"));;
  mret n.

(** Per-team instances by state. *)
Definition tally (rows : list Instance_) : gmap string Z :=
  foldl (λ m r, <[State_string (i_State r) := (default 0 (m !! State_string (i_State r)) + 1)%Z]> m)
    ∅ rows.

Definition refreshGauge : P World unit :=
  r ← try (atomic ListPerTeamInstances);
  match r with
  | Err _ => mret tt
  | Ok rows =>
      atomic (emit (ResetGauge "TeamInstances"));;
      for_each (λ '(s, n), atomic (emit (SetGauge "TeamInstances" s n))) (map_to_list (tally rows))
  end.

(** One tick of [RunExpiry]. *)
Definition expiry_tick : P World unit :=
  a ← try ExpireOnce;
  match a with
  | Err _ => atomic (emit (Log "WARN" "instance expiry pass failed")) | Ok _ => mret tt end;;
  b ← try ReapStaleOnce;
  match b with
  | Err _ => atomic (emit (Log "WARN" "instance reap pass failed")) | Ok _ => mret tt end;;
  refreshGauge.
End Scheduler.
