(* ===== verification/SchedulerSpec.v ===== *)
(** * What the scheduler guarantees

    Integrity of the instance table under every interleaving of scheduler,
    manager and reconcile operations; the exact effect of one sweep, of an
    extension and of a start. *)

From S2P Require Import Prelude Env Demo Store Events Runtime Instances FakeRuntime Scheduler.

(** ** Integrity under every interleaving *)

Section Integrity.
Context `{Libs} `{!ChallengeRuntime}.
Context (portStart portEnd : Z) (cfg : Config) (prefix : string) (afterList : P World unit).
Context (Hrange : (0 ≤ portStart ∧ portEnd ≤ 65535)%Z).
Abbreviation J := (dbi (inst_inv portStart portEnd)).
Context `{!RuntimeKeeps J} (Hafter : all_steps J afterList).
Hint Resolve Hafter DeployForTeam_inv ManagerGetTeamInstance_inv CountTeamRunning_inv
  ListStale_inv DestroyInstance_inv : pres.

Lemma refTeamLock_inv t : all_steps J (refTeamLock t).
Proof using Type.
  apply all_steps_atomic, preserves_dbi_same. intros w. unfold refTeamLock_step.
  by destruct (teamMu (w_sched w) !! t).
Qed.
Lemma release_inv r : all_steps J (release r).
Proof using Type. apply all_steps_atomic, preserves_dbi_modify. done. Qed.
Hint Resolve refTeamLock_inv release_inv : pres.

Lemma unlock_inv r : all_steps J (unlock r).
Proof using Type. unfold unlock. steps. Qed.
Lemma lockTeam_inv t : all_steps J (lockTeam t).
Proof using Type. unfold lockTeam. steps. Qed.
Lemma tryLockTeam_inv t : all_steps J (tryLockTeam t).
Proof using Type. unfold tryLockTeam. steps. Qed.
Hint Resolve unlock_inv lockTeam_inv tryLockTeam_inv : pres.

Lemma with_team_lock_inv {A} t (body : P World A) :
  all_steps J body → all_steps J (with_team_lock t body).
Proof using Type. intros Hb. unfold with_team_lock. steps. Qed.

Lemma audit_Log_inv a b c d m : preserves J (audit_Log a b c d m).
Proof using Type. unfold audit_Log. steps. Qed.
Hint Resolve audit_Log_inv : pres.

Lemma requireRunning_inv : all_steps J requireRunning.
Proof using Type. unfold requireRunning, Events.Get, Phase_. steps. Qed.
Lemma flags_New_inv : all_steps J (flags_New prefix).
Proof using Type. unfold flags_New. steps. Qed.
Lemma ttlFor_inv ch : all_steps J (ttlFor cfg ch).
Proof using Type. unfold ttlFor. steps. Qed.
Hint Resolve requireRunning_inv flags_New_inv ttlFor_inv : pres.

Lemma Start_inv a t c : all_steps J (Start portStart portEnd cfg prefix a t c).
Proof using Hrange RuntimeKeeps0. apply with_team_lock_inv. unfold Start_locked. steps. Qed.
Lemma Stop_inv a t c : all_steps J (Stop a t c).
Proof using RuntimeKeeps0. apply with_team_lock_inv. unfold Stop_locked. steps. Qed.
Lemma Extend_inv t c : all_steps J (Extend cfg t c).
Proof using Type. apply with_team_lock_inv. unfold Extend_locked. steps. Qed.

Lemma destroyLocked_inv t id wait el : all_steps J (destroyLocked t id wait el).
Proof using RuntimeKeeps0. unfold destroyLocked, destroy_checked. steps. Qed.
Hint Resolve destroyLocked_inv : pres.

Lemma next_offset_inv : all_steps J next_offset.
Proof using Type. by apply all_steps_atomic, preserves_dbi_same. Qed.
Hint Resolve next_offset_inv : pres.

Lemma ExpireOnce_inv : all_steps J (ExpireOnce afterList).
Proof using Hafter RuntimeKeeps0. unfold ExpireOnce, expire_row. steps. Qed.

Lemma CleanupEnded_inv : all_steps J CleanupEnded.
Proof using RuntimeKeeps0.
  unfold CleanupEnded, cleanup_row, Events.Get, Phase_, make_chan, new_wg, wg_Done, wg_Add. steps;
    by apply preserves_dbi_same.
Qed.

Lemma reap_rows_inv rows n : all_steps J (reap_rows rows n).
Proof using RuntimeKeeps0.
  revert n; induction rows as [|r rows IH]; intros n; cbn [reap_rows]; steps.
Qed.
Hint Resolve reap_rows_inv : pres.

Lemma ReapStaleOnce_inv : all_steps J (ReapStaleOnce cfg).
Proof using RuntimeKeeps0. unfold ReapStaleOnce. steps. Qed.

(** The operations that can run at the same time. *)
Inductive op :=
  | OpStart (actor team challenge : uuid)
  | OpStop (actor team challenge : uuid)
  | OpExtend (team challenge : uuid)
  | OpTick
  | OpCleanupEnded
  | OpReconcile
  | OpDeployShared (challenge : uuid)
  | OpRestartShared (challenge : uuid)
  | OpDestroyShared (challenge : uuid)
  | OpDestroyForChallenge (challenge : uuid)
  | OpAdminDestroy (id : uuid).

Definition denote (o : op) : prog World unit :=
  match o with
  | OpStart a t c => forget (Start portStart portEnd cfg prefix a t c)
  | OpStop a t c => forget (Stop a t c)
  | OpExtend t c => forget (Extend cfg t c)
  | OpTick => forget (expiry_tick cfg afterList)
  | OpCleanupEnded => forget CleanupEnded
  | OpReconcile => forget rt_Reconcile
  | OpDeployShared c => forget (Deploy portStart portEnd c)
  | OpRestartShared c => forget (Restart portStart portEnd c)
  | OpDestroyShared c => forget (Destroy c)
  | OpDestroyForChallenge c => forget (DestroyForChallenge c)
  | OpAdminDestroy id => forget (DestroyInstance id)
  end.

Lemma refreshGauge_inv : all_steps J refreshGauge.
Proof using Type. unfold refreshGauge. steps. Qed.
Hint Resolve ExpireOnce_inv ReapStaleOnce_inv refreshGauge_inv Start_inv Stop_inv Extend_inv
  CleanupEnded_inv Deploy_inv Restart_inv Destroy_inv DestroyForChallenge_inv : pres.

Lemma expiry_tick_inv : all_steps J (expiry_tick cfg afterList).
Proof using Hafter RuntimeKeeps0. unfold expiry_tick. steps. Qed.
Hint Resolve expiry_tick_inv : pres.

Lemma denote_inv o : all_steps J (denote o).
Proof using Hafter Hrange RuntimeKeeps0. destruct o; unfold denote; steps. Qed.

(** C1: Whatever operations run at the same time, in whatever order their
    steps interleave, whichever queries fail and whichever contexts are
    cancelled, the instance table keeps its integrity: rows under their own
    ids, host ports unique and inside the configured range, one shared row per
    challenge, one row per team and challenge, unique per-instance flags. *)
Theorem instances_integrity ops w ps w' :
  inst_inv portStart portEnd (w_db w) →
  rtc pool_step (denote <$> ops, w) (ps, w') →
  inst_inv portStart portEnd (w_db w').
Proof using Hafter Hrange RuntimeKeeps0.
  intros Hw Hr. eapply (all_steps_pool J); [|exact Hw|exact Hr].
  apply Forall_fmap, Forall_true, denote_inv.
Qed.
End Integrity.

(** Two teams start an instance of the same challenge, their steps alternating. *)
Definition demo_conf : FakeConf :=
  {| FailDeploy := false; fk_Unavailable := false; DeployFault := None;
     BeforeDeploy := λ _, mret tt; FailReconcileActionFor := λ _, false; fk_now := w_clock |}.
Definition demo_cfg : Config :=
  {| cfg_TTL := Hour; cfg_Extend := (30 * Minute)%Z; cfg_MaxTTL := (4 * Hour)%Z; cfg_Quota := 1;
     cfg_ReapAfter := (10 * Minute)%Z |}.

Section Demo.
#[local] Existing Instance demo_libs.
#[local] Instance demo_rt : ChallengeRuntime := FakeRuntime demo_conf.

Definition demo_ops : list (op) := [OpStart 11%N 21%N 31%N; OpStart 12%N 22%N 31%N].
Definition demo_pool : list (prog World unit) :=
  denote 30000 30001 demo_cfg "osctf" (mret tt) <$> demo_ops.
Definition alternating : list nat := concat (replicate 22 [0; 1]).
Definition demo_final : option (list (prog World unit) * World) :=
  exec alternating demo_pool (demo_world demo_db 1000).

Lemma demo_before spec : all_steps (dbi (inst_inv 30000 30001)) (BeforeDeploy demo_conf spec).
Proof. exact I. Qed.

Lemma demo_db_inv : inst_inv 30000 30001 demo_db.
Proof. by split. Qed.

Lemma instances_integrity_witness :
  match demo_final with
  | Some (_, w) => inst_inv 30000 30001 (w_db w) ∧ omap i_HostPort (inst_rows (w_db w)) = [30001%Z; 30000%Z]
  | None => False
  end.
Proof.
  assert (∃ ps w, demo_final = Some (ps, w)) as (ps & w & E).
  { destruct demo_final as [[ps w]|] eqn:E; [eauto|]. exfalso. revert E. vm_compute. discriminate. }
  assert (omap i_HostPort (inst_rows (w_db w)) = [30001%Z; 30000%Z]) as Hp.
  { assert (match demo_final with Some (_, w) => omap i_HostPort (inst_rows (w_db w)) | None => [] end
      = [30001%Z; 30000%Z]) as Hv by (vm_compute; reflexivity).
    by rewrite E in Hv. }
  rewrite E. split; [|exact Hp].
  apply (instances_integrity 30000 30001 demo_cfg "osctf" (mret tt) ltac:(lia)
    (RuntimeKeeps0 := FakeRuntime_keeps demo_conf 30000 30001 demo_before)
    (all_steps_ret _ tt) demo_ops (demo_world demo_db 1000) ps w demo_db_inv).
  exact (exec_sound alternating demo_pool ps _ _ E).
Defined.
End Demo.
