(* ===== verification/Sweeps.v ===== *)
(** * The exact effect of the scheduler's operations, run alone

    With the database up and no other operation in flight: what a sweep
    destroys, what event-end cleanup leaves, how far an extension goes. *)

From S2P Require Import Prelude Env Demo Store Events Runtime Instances FakeRuntime Scheduler SchedulerSpec.

(** ** Frames *)

(** Nothing fails and nobody holds or waits for a team lock. *)
Definition quiet (w : World) : Prop := w_faults w = [] ∧ teamMu (w_sched w) = ∅.

(** What a container operation may leave changed: the daemon and the output. *)
Record inert (w w' : World) : Prop := {
  inert_db : w_db w' = w_db w; inert_sched : w_sched w' = w_sched w;
  inert_chans : w_chans w' = w_chans w; inert_wgs : w_wgs w' = w_wgs w;
  inert_faults : w_faults w' = w_faults w; inert_clock : w_clock w' = w_clock w;
  inert_dbnow : w_dbnow w' = w_dbnow w; inert_wall : w_wall w' = w_wall w
}.
#[export] Instance inert_refl : Reflexive inert.
Proof. by split. Qed.
#[export] Instance inert_trans : Transitive inert.
Proof. intros x y z [] []. split; congruence. Qed.

(** What an operation on instances keeps: everything but instances and audit
    rows, the locks registered, and the channels that already existed. *)
Record kept (w w' : World) : Prop := {
  kept_quiet : quiet w';
  kept_clock : w_clock w' = w_clock w;
  kept_wall : w_wall w' = w_wall w;
  kept_event : event (w_db w') = event (w_db w);
  kept_wgs : w_wgs w' = w_wgs w;
  kept_chans : ∃ l, w_chans w' = w_chans w ++ l
}.
Lemma kept_refl w : quiet w → kept w w.
Proof. split; try done. exists []. by rewrite app_nil_r. Qed.
#[export] Instance kept_trans : Transitive kept.
Proof.
  intros x y z [_ H2 H3 H4 H5 [l1 H6]] [H1' H2' H3' H4' H5' [l2 H6']]. split; try congruence.
  exists (l1 ++ l2). by rewrite H6', H6, app_assoc.
Qed.

(** What the sweeps ask of the runtime: while nothing fails, [Destroy] succeeds. *)
Class RuntimeDestroys `{ChallengeRuntime} :=
  Destroy_works w id : w_faults w = [] → wp (rt_Destroy id) (λ r w', r = Ok tt ∧ inert w w') w.

#[export] Instance fake_destroys `{Libs} conf :
  fk_Unavailable conf = false → RuntimeDestroys (H:=FakeRuntime conf).
Proof. intros Hu w id _. simpl. unfold fake_Destroy. rewrite Hu. simpl. by split. Qed.

(** ** Audit rows and locks *)

Lemma audit_Log_run actor action st sid meta w :
  w_faults w = [] →
  ∃ w', audit_Log actor action st sid meta w = (Ok tt, w') ∧
        instances (w_db w') = instances (w_db w) ∧ event (w_db w') = event (w_db w) ∧
        w_sched w' = w_sched w ∧ w_chans w' = w_chans w ∧ w_wgs w' = w_wgs w ∧
        w_faults w' = [] ∧ w_clock w' = w_clock w ∧ w_wall w' = w_wall w.
Proof.
  intros Hf. unfold audit_Log, mbind, M_bind. simpl. unfold M_try, InsertAuditLog.
  rewrite query_nofault by done. unfold guarded.
  destruct (first_violation _); simpl; eexists; by split_and!.
Qed.

Lemma alter_last {A} (f : A → A) l a : alter f (length l) (l ++ [a]) = l ++ [f a].
Proof. by rewrite alter_app_r_alt, Nat.sub_diag by lia. Qed.
Lemma insert_last {A} (l : list A) a b : <[length l := b]> (l ++ [a]) = l ++ [b].
Proof. by rewrite insert_app_r_alt, Nat.sub_diag by lia. Qed.
Lemma lookup_last {A} (l : list A) a : (l ++ [a]) !! length l = Some a.
Proof. by rewrite lookup_app_r, Nat.sub_diag by lia. Qed.

(** A free team's lock, taken. *)
Definition locked (t : uuid) (w : World) : World :=
  let c := length (w_chans w) in
  set_chans (w_chans w ++ [{| ch_cap := 1; ch_len := 1 |}])
    (set_scheduler (λ s, with_teamMu {[t := length (locks s)]}
       (with_locks (locks s ++ [{| tl_ch := c; tl_refs := 1 |}]) s)) w).
Definition ref_of (t : uuid) (w : World) : lockRef :=
  {| lr_team := t; lr_lock := length (locks (w_sched w)); lr_ch := length (w_chans w) |}.

Lemma refTeamLock_quiet t w :
  quiet w → ∃ w', run (refTeamLock t) w = Some (Ok (ref_of t w), w') ∧
    w_faults w' = [] ∧ try_send (lr_ch (ref_of t w)) w' = Some (locked t w).
Proof.
  intros [Hf Hm]. unfold refTeamLock. rewrite run_atomic. unfold refTeamLock_step.
  rewrite Hm, lookup_empty. eexists. split_and!; [done|done|].
  unfold try_send. simpl. rewrite lookup_last. simpl. rewrite insert_last. unfold locked, set_scheduler, with_teamMu; simpl.
  by rewrite Hm.
Qed.

Lemma lockTeam_quiet t w :
  quiet w → run (lockTeam t) w = Some (Ok (Some (ref_of t w)), locked t w).
Proof.
  intros Hq. destruct (refTeamLock_quiet t w Hq) as (w' & E & Hf & Hs).
  unfold lockTeam. rewrite run_bind, E, run_bind.
  unfold send_or_done. rewrite run_blocking. unfold next_fault. rewrite Hf, Hs. done.
Qed.

Lemma tryLockTeam_quiet t w :
  quiet w → run (tryLockTeam t) w = Some (Ok (Some (ref_of t w)), locked t w).
Proof.
  intros Hq. destruct (refTeamLock_quiet t w Hq) as (w' & E & Hf & Hs).
  unfold tryLockTeam. rewrite run_bind, E, run_bind.
  unfold send_or_default. rewrite run_blocking, Hs. done.
Qed.

(** The lock given back after a body that left locks and channels alone. *)
Lemma unlock_quiet t w w1 :
  w_sched w1 = w_sched (locked t w) → w_chans w1 = w_chans (locked t w) →
  ∃ w2, run (unlock (ref_of t w)) w1 = Some (Ok tt, w2) ∧
    teamMu (w_sched w2) = ∅ ∧ w_chans w2 = w_chans w ++ [{| ch_cap := 1; ch_len := 0 |}] ∧
    w_db w2 = w_db w1 ∧ w_faults w2 = w_faults w1 ∧ w_clock w2 = w_clock w1 ∧
    w_wall w2 = w_wall w1 ∧ w_wgs w2 = w_wgs w1.
Proof.
  intros Hs Hc. unfold unlock. rewrite run_bind. unfold recv. simpl.
  unfold try_recv. rewrite Hc. simpl. rewrite lookup_last. simpl. rewrite insert_last.
  eexists. split; [done|]. unfold release_step. simpl. rewrite Hs. simpl.
  rewrite alter_last, lookup_last. simpl.
  split_and!; try done. by rewrite delete_singleton_eq.
Qed.

(** [with_team_lock] on a free team is its body between lock and unlock. *)
Lemma deferred_unlock_run {A} t (body : P World A) w r w1 :
  quiet w → run body (locked t w) = Some (r, w1) →
  w_sched w1 = w_sched (locked t w) → w_chans w1 = w_chans (locked t w) → w_faults w1 = [] →
  ∃ w2, run (defer (unlock (ref_of t w)) body) (locked t w) = Some (r, w2) ∧
    quiet w2 ∧ w_db w2 = w_db w1 ∧ w_clock w2 = w_clock w1 ∧ w_wall w2 = w_wall w1 ∧
    w_wgs w2 = w_wgs w1 ∧ (∃ l, w_chans w2 = w_chans w ++ l).
Proof.
  intros Hq E Hs Hc Hf. unfold defer. rewrite run_bind, run_try, E, run_bind.
  destruct (unlock_quiet t w w1 Hs Hc) as (w2 & E2 & H1 & H2 & H3 & H4 & H5 & H6 & H7).
  rewrite E2. exists w2. split; [by destruct r|]. split_and!; try done; [split; congruence|eauto].
Qed.

Lemma with_team_lock_run {A} t (body : P World A) w r w1 :
  quiet w → run body (locked t w) = Some (r, w1) →
  w_sched w1 = w_sched (locked t w) → w_chans w1 = w_chans (locked t w) → w_faults w1 = [] →
  ∃ w2, run (with_team_lock t body) w = Some (r, w2) ∧
    quiet w2 ∧ w_db w2 = w_db w1 ∧ w_clock w2 = w_clock w1 ∧ w_wall w2 = w_wall w1 ∧
    w_wgs w2 = w_wgs w1 ∧ (∃ l, w_chans w2 = w_chans w ++ l).
Proof.
  intros Hq E Hs Hc Hf. unfold with_team_lock. rewrite run_bind, lockTeam_quiet by done.
  by eapply deferred_unlock_run.
Qed.

(** ** Destroying one row *)

Section Destroy.
Context `{Libs} `{!ChallengeRuntime} `{Hrt : !RuntimeDestroys}.

Lemma DestroyInstance_run w id :
  w_faults w = [] →
  ∃ w', run (DestroyInstance id) w = Some (Ok tt, w') ∧
    instances (w_db w') = delete id (instances (w_db w)) ∧
    event (w_db w') = event (w_db w) ∧ inert (set_db (w_db w') w) w'.
Proof using Hrt.
  intros Hf. unfold DestroyInstance. rewrite run_bind.
  pose proof (Destroy_works w id Hf) as Hd. unfold wp in Hd.
  destruct (run (rt_Destroy id) w) as [[r w1]|]; [|done]. destruct Hd as [-> Hi].
  unfold map_err. rewrite run_bind, run_try, run_atomic. unfold DeleteInstance.
  rewrite query_nofault by (rewrite (inert_faults _ _ Hi); done). simpl.
  eexists. split; [done|]. simpl. rewrite (inert_db _ _ Hi). simpl.
  split_and!; try done. destruct Hi. by split.
Qed.

Lemma destroy_checked_run w id i el :
  w_faults w = [] → instances (w_db w) !! id = Some i →
  ∃ w', run (destroy_checked id el) w = Some (Ok (el i, false), w') ∧
    instances (w_db w') = (if el i then delete id (instances (w_db w)) else instances (w_db w)) ∧
    event (w_db w') = event (w_db w) ∧ inert (set_db (w_db w') w) w'.
Proof using Hrt.
  intros Hf Hi. unfold destroy_checked. rewrite run_bind, run_try, run_atomic.
  unfold GetInstanceByID. rewrite select_nofault by done. rewrite Hi. cbn [one].
  destruct (el i); cbn [negb]; [|by exists w; rewrite set_db_same].
  rewrite run_bind, run_try.
  destruct (DestroyInstance_run w id Hf) as (w' & -> & H1 & H2 & H3). eauto.
Qed.

Lemma destroyLocked_run tm w id i wait el :
  quiet w → instances (w_db w) !! id = Some i →
  ∃ w', run (destroyLocked tm id wait el) w = Some (Ok (el i, false), w') ∧ kept w w' ∧
    instances (w_db w') = if el i then delete id (instances (w_db w)) else instances (w_db w).
Proof using Hrt.
  intros Hq Hi. destruct tm as [t|]; unfold destroyLocked.
  - rewrite run_bind.
    replace (run _ w) with (Some (Ok (Some (ref_of t w)), locked t w))
      by (destruct wait; [by rewrite lockTeam_quiet|by rewrite tryLockTeam_quiet]).
    destruct (destroy_checked_run (locked t w) id i el) as (w1 & E1 & H1 & H2 & H3);
      [apply Hq|done|]. destruct H3.
    destruct (deferred_unlock_run t _ w _ w1 Hq E1) as (w2 & E2 & Hq2 & Hd & Hc & Hw & Hg & Hl);
      [done..| |].
    + etrans; [done|]. apply Hq.
    + exists w2. split; [done|]. rewrite Hd. split; [|done].
      split; simpl in *; first [done|congruence|idtac].
  - destruct (destroy_checked_run w id i el) as (w1 & E1 & H1 & H2 & H3); [apply Hq|done|].
    exists w1. split; [done|]. split; [|done]. destruct H3, Hq. split; try done.
    + split; simpl in *; congruence.
    + exists []. rewrite app_nil_r. done.
Qed.
End Destroy.

(** ** Sweeps *)

(** A sweep whose handler destroys each listed row. *)
Lemma sweep_run (Pre : World → Prop) (h : Instance_ → P World unit) rows w :
  (∀ w w', Pre w → kept w w' → Pre w') →
  (∀ row w, Pre w → quiet w → row ∈ rows → instances (w_db w) !! i_ID row = Some row →
     ∃ w', run (h row) w = Some (Ok tt, w') ∧ kept w w' ∧
       instances (w_db w') = delete (i_ID row) (instances (w_db w))) →
  Pre w → quiet w → NoDup (i_ID <$> rows) →
  (∀ row, row ∈ rows → instances (w_db w) !! i_ID row = Some row) →
  ∃ w', run (for_each h rows) w = Some (Ok tt, w') ∧ kept w w' ∧
    instances (w_db w') = filter (λ p, p.1 ∉ i_ID <$> rows) (instances (w_db w)).
Proof.
  intros Hpre Hh. revert w. induction rows as [|row rows IH]; intros w HP Hq Hnd Hin.
  - exists w. split; [done|]. split; [by apply kept_refl|].
    symmetry. apply map_filter_id. intros. by apply not_elem_of_nil.
  - rewrite fmap_cons in Hnd. apply NoDup_cons in Hnd as [Hni Hnd].
    destruct (Hh row w HP Hq ltac:(by left) (Hin row ltac:(by left))) as (w1 & E1 & K1 & D1).
    destruct (IH ltac:(intros; apply Hh; [done..|by right|done]) w1) as (w2 & E2 & K2 & D2);
      [by eapply Hpre|apply K1|done| |].
    + intros r Hr. rewrite D1. rewrite lookup_delete_ne; [apply Hin; by right|].
      intros E. apply Hni. rewrite E. by apply list_elem_of_fmap_2.
    + exists w2. cbn [for_each]. rewrite run_bind, E1, E2. split; [done|].
      split; [by etrans|]. rewrite D2, D1. apply map_eq. intros u.
      apply option_eq. intros i. rewrite !map_lookup_filter_Some, lookup_delete_Some.
      rewrite fmap_cons, not_elem_of_cons. naive_solver.
Qed.

(** The rows a listing selects, by predicate and by id. *)
Lemma filter_rows_lookup d f row :
  (∀ u i, instances d !! u = Some i → i_ID i = u) →
  row ∈ List.filter f (inst_rows d) → instances d !! i_ID row = Some row ∧ f row = true.
Proof.
  intros Hpk Hr. apply list_elem_of_In, filter_In in Hr as [Hr Hf].
  apply elem_of_inst_rows in Hr as [u Hu]. by rewrite (Hpk u row Hu).
Qed.

Lemma inst_rows_ids d :
  (∀ u i, instances d !! u = Some i → i_ID i = u) → NoDup (i_ID <$> inst_rows d).
Proof.
  intros Hpk. unfold inst_rows.
  assert (i_ID <$> (map_to_list (instances d)).*2 = (map_to_list (instances d)).*1) as ->.
  { rewrite <- list_fmap_compose. apply list_fmap_ext. intros k [u i] Hk.
    apply list_elem_of_lookup_2, elem_of_map_to_list in Hk. simpl. by apply Hpk. }
  apply NoDup_fst_map_to_list.
Qed.

Lemma filter_rows_NoDup d f :
  (∀ u i, instances d !! u = Some i → i_ID i = u) → NoDup (i_ID <$> List.filter f (inst_rows d)).
Proof.
  intros Hpk. pose proof (inst_rows_ids d Hpk) as Hnd. revert Hnd.
  generalize (inst_rows d) as l. induction l as [|i l IH]; [done|].
  rewrite fmap_cons, NoDup_cons. intros [Hni Hnd]. simpl.
  destruct (f i); [|auto]. rewrite fmap_cons, NoDup_cons. split; [|auto].
  intros Hi. apply Hni. apply list_elem_of_fmap in Hi as (j & -> & Hj).
  apply list_elem_of_fmap_2, list_elem_of_In. apply list_elem_of_In, filter_In in Hj. tauto.
Qed.

Lemma filter_ids_pred d f :
  (∀ u i, instances d !! u = Some i → i_ID i = u) →
  filter (λ p, p.1 ∉ i_ID <$> List.filter f (inst_rows d)) (instances d) =
  filter (λ p, f p.2 = false) (instances d).
Proof.
  intros Hpk. apply map_filter_ext. intros u i Hu. simpl. split.
  - intros Hni. apply not_true_is_false. intros Hf. apply Hni.
    rewrite <- (Hpk u i Hu). apply list_elem_of_fmap_2, list_elem_of_In, filter_In.
    split; [|done]. apply elem_of_inst_rows. eauto.
  - intros Hf Hin. apply list_elem_of_fmap in Hin as (j & -> & Hj).
    apply filter_rows_lookup in Hj as [Hj Hf']; [|done]. rewrite Hu in Hj. simplify_eq. congruence.
Qed.

(** ** The sweeps *)

Lemma rotate_Permutation {A} (l : list A) n : rotate l n ≡ₚ l.
Proof.
  unfold rotate. destruct (length l); [done|]. rewrite Permutation_app_comm. by rewrite take_drop.
Qed.

Lemma next_offset_kept w : quiet w → ∃ w' n, run next_offset w = Some (Ok n, w') ∧ kept w w' ∧
  w_db w' = w_db w.
Proof.
  intros [Hf Hm]. unfold next_offset. rewrite run_atomic. eexists _, _. split; [done|].
  split; [|done]. split; try done. exists []. by rewrite app_nil_r.
Qed.

Lemma emit_audit_kept (e : effect) actor action st sid meta w :
  quiet w →
  ∃ w', run (atomic (audit_Log actor action st sid meta)) (emit e w).2 = Some (Ok tt, w') ∧
    kept w w' ∧ instances (w_db w') = instances (w_db w).
Proof.
  intros [Hf Hm]. cbn [emit modify snd]. rewrite run_atomic.
  destruct (audit_Log_run actor action st sid meta (set_out (w_out w ++ [e]) w) Hf)
    as (w' & -> & H1 & H2 & H3 & H4 & H5 & H6 & H7 & H8).
  exists w'. split; [done|]. split; [|done]. split; try done.
  - split; [done|]. by rewrite H3.
  - exists []. by rewrite app_nil_r.
Qed.

Section Exact.
Context `{Libs} `{!ChallengeRuntime} `{Hrt : !RuntimeDestroys}.
Context (cfg : Config).
Context (w : World) (Hq : quiet w)
        (Hpk : ∀ u i, instances (w_db w) !! u = Some i → i_ID i = u).

Lemma expire_row_run now row v :
  quiet v → instances (w_db v) !! i_ID row = Some row → is_expired now row = true →
  ∃ v', run (expire_row now row) v = Some (Ok tt, v') ∧ kept v v' ∧
    instances (w_db v') = delete (i_ID row) (instances (w_db v)).
Proof using Hrt.
  intros Hv Hi He. unfold expire_row. rewrite run_bind.
  destruct (destroyLocked_run (i_TeamID row) v (i_ID row) row false (still_expired now) Hv Hi)
    as (v1 & -> & K1 & D1).
  assert (still_expired now row = true) as Hs
    by (unfold still_expired; unfold is_expired in He; by apply andb_true_iff in He as [He _]).
  rewrite Hs in *. cbn [fst].
  destruct (emit_audit_kept (Inc "InstanceExpiries" []) uuid_Nil "instance.expire" "instance"
    (uuid_String (i_ID row)) (metaOf row None) v1) as (v2 & E2 & K2 & D2); [apply K1|].
  exists v2. split; [done|]. split; [by etrans|]. by rewrite D2.
Qed.

(** C6: With the database up and no other operation in flight, one expiry pass
    destroys exactly the rows past their expiry that are not already stopped,
    errored or lost; every other row is untouched, and every lock is free
    again. *)
Theorem ExpireOnce_exact :
  wp (ExpireOnce (mret tt)) (λ r w', r = Ok tt ∧ kept w w' ∧
    instances (w_db w') = filter (λ p, is_expired (w_clock w) p.2 = false) (instances (w_db w))) w.
Proof using Hpk Hq Hrt.
  unfold wp, ExpireOnce. rewrite run_bind, run_atomic. cbn [clock_now gets].
  rewrite run_bind, run_atomic. unfold ListExpiredInstances.
  rewrite select_nofault by apply Hq.
  set (rows := List.filter _ _). rewrite run_bind. cbn [run mret P_ret]. rewrite run_bind.
  destruct (next_offset_kept w Hq) as (w1 & n & -> & K1 & D1). rewrite run_bind.
  destruct (sweep_run (λ _, True) (expire_row (w_clock w)) (rotate rows n) w1)
    as (w2 & -> & K2 & D2); [done| |done|apply K1|..].
  - intros row w' _ Hq' Hr Hi. apply expire_row_run; try done.
    rewrite rotate_Permutation in Hr. by eapply filter_rows_lookup.
  - rewrite rotate_Permutation. by apply filter_rows_NoDup.
  - intros row Hr. rewrite rotate_Permutation in Hr. rewrite D1. by eapply filter_rows_lookup.
  - rewrite run_atomic. cbn [emit modify]. split; [done|]. split.
    + do 2 (etrans; [done|]). destruct K2 as [[] ? ? ? ? ?]. split; try done.
      exists []. by rewrite app_nil_r.
    + cbn [w_db set_out]. rewrite D2, D1, <- filter_ids_pred by done.
      apply map_filter_ext. intros u i _. simpl. by rewrite rotate_Permutation.
Qed.

Lemma ListPerTeam_run w' :
  quiet w' → run (try (atomic ListPerTeamInstances)) w' =
    Some (Ok (Ok (List.filter is_per_team (inst_rows (w_db w')))), w').
Proof using Type.
  intros [Hf _]. rewrite run_try, run_atomic. unfold ListPerTeamInstances.
  by rewrite select_nofault.
Qed.

Lemma cleanup_row_run row v :
  quiet v → instances (w_db v) !! i_ID row = Some row →
  ∃ v', run (cleanup_row row) v = Some (Ok tt, v') ∧ kept v v' ∧
    instances (w_db v') = delete (i_ID row) (instances (w_db v)).
Proof using Hrt.
  intros Hv Hi. unfold cleanup_row. rewrite run_bind.
  destruct (destroyLocked_run (i_TeamID row) v (i_ID row) row true (λ _, true) Hv Hi)
    as (v1 & -> & K1 & D1). cbn [fst].
  destruct (emit_audit_kept (Inc "InstanceCleanups" ["event-end"]) uuid_Nil "instance.cleanup"
    "instance" (uuid_String (i_ID row)) (metaOf row (Some "event-end")) v1)
    as (v2 & E2 & K2 & D2); [apply K1|].
  exists v2. split; [done|]. split; [by etrans|]. by rewrite D2.
Qed.

(** One goroutine of the cleanup, with its semaphore slot and its count in the
    wait group taken and given back. *)
Definition spawn (sem wg : nat) (row : Instance_) : P World unit :=
  wg_Add wg 1;; send sem;; go (defer (wg_Done wg) (defer (recv sem) (cleanup_row row))).
Definition sem_free (sem : nat) (v : World) : Prop :=
  w_chans v !! sem = Some {| ch_cap := maxConcurrent; ch_len := 0 |}.

Lemma sem_free_kept sem v v' : sem_free sem v → kept v v' → sem_free sem v'.
Proof using Type.
  unfold sem_free. intros Hs [? ? ? ? ? [l ->]]. by apply lookup_app_l_Some.
Qed.

Lemma spawn_run sem wg row v :
  sem_free sem v → quiet v → instances (w_db v) !! i_ID row = Some row →
  ∃ v', run (spawn sem wg row) v = Some (Ok tt, v') ∧ kept v v' ∧
    instances (w_db v') = delete (i_ID row) (instances (w_db v)).
Proof using Hrt.
  intros Hs Hv Hi. unfold spawn. rewrite run_bind. unfold wg_Add at 1. rewrite run_atomic.
  cbn [modify]. rewrite run_bind. unfold send. rewrite run_blocking. unfold try_send.
  cbn [w_chans set_wgs]. rewrite Hs. cbn [chan_full ch_cap ch_len maxConcurrent Nat.leb fmap option_fmap option_map].
  set (v0 := set_chans _ _). rewrite run_go, !run_defer.
  destruct (cleanup_row_run row v0 Hv Hi) as (v1 & -> & K1 & D1).
  unfold recv. rewrite run_blocking. unfold try_recv.
  destruct K1 as [Q1 C1 W1 E1 G1 [l L1]].
  assert (w_chans v1 !! sem = Some {| ch_cap := maxConcurrent; ch_len := 1 |}) as Hs1.
  { rewrite L1. apply lookup_app_l_Some. apply list_lookup_insert_eq.
    by eapply lookup_lt_Some. }
  rewrite Hs1. cbn. eexists. split; [done|]. split; [|done]. split; try done.
  - cbn. rewrite G1. cbn. rewrite list_alter_alter_eq. apply list_alter_id. intros x; unfold compose; lia.
  - cbn. rewrite L1, insert_app_l.
    + exists l. f_equal. cbn. rewrite list_insert_insert_eq. by apply list_insert_id.
    + cbn. rewrite length_insert. by eapply lookup_lt_Some.
Qed.

Lemma Get_run : run Events.Get w =
  Some (match event (w_db w) with Some e => Ok e | None => Err ErrNotFound end, w).
Proof using Hq.
  unfold Events.Get, map_err. rewrite run_bind, run_try, run_atomic. unfold GetEvent.
  rewrite select_nofault by apply Hq. by destruct (event (w_db w)).
Qed.

(** Event-end cleanup, with the database up and nothing else in flight:
    before the event has ended (or with no event) it changes nothing at all;
    once it has ended it destroys exactly the per-team instances, leaves every
    shared one running, and reports 0 remaining. *)
Lemma CleanupEnded_exact :
  match event (w_db w) with
  | None => run CleanupEnded w = Some (Ok (0, Some ErrNotFound), w)
  | Some e =>
      if decide (phase_at (w_clock w) e = PhaseEnded) then
        wp CleanupEnded (λ r w', r = Ok (0, None) ∧ quiet w' ∧
          instances (w_db w') = filter (λ p, is_per_team p.2 = false) (instances (w_db w))) w
      else run CleanupEnded w = Some (Ok (0, None), w)
  end.
Proof using Hpk Hq Hrt.
  assert (run CleanupEnded w = run CleanupEnded w) as E by done.
  unfold CleanupEnded in E at 2. rewrite run_bind, run_try, Get_run in E.
  destruct (event (w_db w)) as [e|]; [|done].
  rewrite run_bind in E. unfold Phase_ in E. rewrite run_bind, run_atomic in E.
  cbn [clock_now gets run mret P_ret] in E.
  case_decide as Hp; [rewrite bool_decide_eq_true_2 in E by done
                     |rewrite bool_decide_eq_false_2 in E by done; done].
  cbn [negb] in E. rewrite run_bind, (ListPerTeam_run w Hq) in E.
  set (rows := List.filter is_per_team (inst_rows (w_db w))) in E.
  rewrite run_bind in E. unfold make_chan at 1 in E. rewrite run_atomic in E.
  rewrite run_bind in E. unfold new_wg at 1 in E. rewrite run_atomic in E.
  rewrite run_bind in E.
  set (sem := length (w_chans w)) in E. set (wg := length _) in E. set (w1 := set_wgs _ _) in E.
  destruct (sweep_run (sem_free sem) (spawn sem wg) rows w1) as (w2 & E2 & K2 & D2);
    [eauto using sem_free_kept|eauto using spawn_run|exact (lookup_last (w_chans w) _)|exact Hq
    |by apply filter_rows_NoDup|intros row Hr; by eapply (filter_rows_lookup (w_db w))|].
  unfold spawn in E2. rewrite E2 in E. clear E2.
  rewrite run_bind in E. unfold wg_Wait in E. rewrite run_blocking in E.
  rewrite (kept_wgs _ _ K2) in E. rewrite decide_True in E by exact (lookup_last (w_wgs w) _).
  rewrite run_bind, ListPerTeam_run in E by apply K2.
  unfold wp. rewrite E. clear E. cbn [run mret P_ret].
  assert (instances (w_db w2) = filter (λ p, is_per_team p.2 = false) (instances (w_db w))) as D.
  { rewrite D2. by apply filter_ids_pred. }
  split; [|split; [apply K2|done]]. do 3 f_equal.
  apply length_zero_iff_nil. apply elem_of_nil_inv. intros i Hi.
  apply list_elem_of_In, filter_In in Hi as [Hi Ht].
  apply elem_of_inst_rows in Hi as [u Hu]. rewrite D in Hu.
  apply map_lookup_filter_Some in Hu as [_ Hu]. simpl in Hu. congruence.
Qed.

Lemma reap_rows_run rows n v :
  quiet v → NoDup (i_ID <$> rows) →
  (∀ row, row ∈ rows → instances (w_db v) !! i_ID row = Some row ∧ still_stale row = true) →
  ∃ v', run (reap_rows (map rowToInstance rows) n) v = Some (Ok (n + length rows), v') ∧
    kept v v' ∧
    instances (w_db v') = filter (λ p, p.1 ∉ i_ID <$> rows) (instances (w_db v)).
Proof using Hrt.
  revert n v. induction rows as [|row rows IH]; intros n v Hv Hnd Hin.
  - exists v. split; [by rewrite Nat.add_0_r|]. split; [by apply kept_refl|].
    symmetry. apply map_filter_id. intros. by apply not_elem_of_nil.
  - rewrite fmap_cons in Hnd. apply NoDup_cons in Hnd as [Hni Hnd].
    destruct (Hin row ltac:(by left)) as [Hi Hs]. cbn [map reap_rows]. rewrite run_bind.
    destruct (destroyLocked_run (in_TeamID (rowToInstance row)) v (i_ID row) row false still_stale Hv Hi)
      as (v1 & E1 & K1 & D1).
    change (in_ID (rowToInstance row)) with (i_ID row). rewrite E1. rewrite Hs in *.
    cbn [fst negb]. clear E1.
    set (meta := match in_TeamID _ with Some _ => _ | None => _ end).
    destruct (emit_audit_kept (Inc "InstanceCleanups" ["reap"]) uuid_Nil "instance.cleanup"
      "instance" (uuid_String (i_ID row)) meta v1) as (v2 & E2 & K2 & D2); [apply K1|].
    rewrite run_bind, run_atomic. cbn [emit modify]. rewrite run_bind.
    cbn [emit modify snd] in E2. rewrite E2.
    destruct (IH (S n) v2) as (v3 & E3 & K3 & D3); [apply K2|done| |].
    + intros r Hr. destruct (Hin r ltac:(by right)) as [Hir ?]. split; [|done].
      rewrite D2, D1. rewrite lookup_delete_ne; [done|].
      intros E. apply Hni. rewrite E. by apply list_elem_of_fmap_2.
    + exists v3. rewrite E3. split; [simpl; by rewrite Nat.add_succ_r|].
      split; [by do 2 (etrans; [done|])|]. rewrite D3, D2, D1.
      apply map_eq. intros u. apply option_eq. intros i.
      rewrite !map_lookup_filter_Some, lookup_delete_Some.
      rewrite fmap_cons, not_elem_of_cons. naive_solver.
Qed.

(** One reaping pass, with the database up and nothing else in flight,
    destroys exactly the pending, errored and lost rows last touched before the
    cutoff (freeing their ports), reports how many, and leaves every other row
    untouched; a threshold of 0 disables it. *)
Theorem ReapStaleOnce_exact :
  let stale := is_stale (w_wall w - cfg_ReapAfter cfg) in
  if (cfg_ReapAfter cfg <=? 0)%Z then run (ReapStaleOnce cfg) w = Some (Ok 0, w)
  else
    wp (ReapStaleOnce cfg) (λ r w',
      r = Ok (length (List.filter stale (inst_rows (w_db w)))) ∧ kept w w' ∧
      instances (w_db w') = filter (λ p, stale p.2 = false) (instances (w_db w))) w.
Proof using Hpk Hq Hrt.
  intros stale. unfold ReapStaleOnce. destruct (_ <=? 0)%Z; [done|].
  unfold wp, ListStale. rewrite !run_bind, run_atomic. cbn [wall_now gets].
  unfold map_err. rewrite !run_bind, run_try, run_atomic. unfold ListStaleInstances.
  rewrite select_nofault by apply Hq. cbn [run mret P_ret]. fold stale.
  set (rows := order_by i_UpdatedAt (List.filter stale (inst_rows (w_db w)))).
  assert (rows ≡ₚ List.filter stale (inst_rows (w_db w))) as Hp by apply merge_sort_Permutation.
  rewrite run_bind.
  destruct (reap_rows_run rows 0 w) as (w1 & -> & K1 & D1); [done| | |].
  - rewrite Hp. by apply filter_rows_NoDup.
  - intros row Hr. rewrite Hp in Hr. apply filter_rows_lookup in Hr as [? Hs]; [|done].
    split; [done|]. by apply andb_true_iff in Hs as [Hs _].
  - rewrite run_bind, run_atomic. cbn [emit modify run mret P_ret].
    split; [by rewrite <- Hp|]. split.
    + etrans; [done|]. destruct K1 as [[] ? ? ? ? ?]. split; try done.
      exists []. by rewrite app_nil_r.
    + cbn [w_db set_out]. rewrite D1, <- filter_ids_pred by done.
      apply map_filter_ext. intros u i _. simpl. by rewrite Hp.
Qed.
End Exact.

(** ** Extend *)

Definition with_expiry (now : time) (e : option time) (i : Instance_) : Instance_ :=
  {| i_ID := i_ID i; i_ChallengeID := i_ChallengeID i; i_State := i_State i;
     i_ContainerID := i_ContainerID i; i_HostPort := i_HostPort i; i_Error := i_Error i;
     i_StartedAt := i_StartedAt i; i_LastHealthAt := i_LastHealthAt i;
     i_CreatedAt := i_CreatedAt i; i_UpdatedAt := now; i_TeamID := i_TeamID i;
     i_Flag := i_Flag i; i_ExpiresAt := e; i_Network := i_Network i |}.

Section Extend.
Context `{Libs} (cfg : Config) (team challenge : uuid).

(** The latest expiry an instance may have, and the expiry an extension gives. *)
Definition max_lifetime (now : time) (i : Instance_) : time :=
  (default now (i_StartedAt i) + cfg_MaxTTL cfg)%Z.
Definition extended (now x : time) (i : Instance_) : time :=
  Z.min (x + cfg_Extend cfg) (max_lifetime now i).

(** What [Extend] returns and leaves in the database, case by case. *)
Definition extend_outcome (w : World) (r : res Instance) (d' : DB) : Prop :=
  let d := w_db w in
  let now := w_clock w in
  match List.find (is_team_instance challenge team) (inst_rows d), event d with
  | None, _ => r = Err ErrNotFound ∧ d' = d
  | Some _, None => r = Err ErrNotFound ∧ d' = d
  | Some i, Some e =>
      if decide (phase_at now e = PhaseRunning) then
        match i_ExpiresAt i with
        | None => r = Ok (rowToInstance i) ∧ d' = d
        | Some x =>
            if (max_lifetime now i <=? x)%Z then
              r = Err (Conflict "this instance has reached its maximum lifetime") ∧ d' = d
            else
              let i' := with_expiry (w_dbnow w) (Some (extended now x i)) i in
              r = Ok (rowToInstance i') ∧
              d' = set_instances (<[i_ID i := i']> (instances d)) d
        end
      else r = Err (Conflict "instances are available while the event is running") ∧ d' = d
  end.

Lemma next_expiry_spec now i x :
  next_expiry cfg now (i_StartedAt i) x =
  if (max_lifetime now i <=? x)%Z then None else Some (extended now x i).
Proof using Type.
  unfold next_expiry, extended, max_lifetime, after.
  replace (match i_StartedAt i with Some s => s | None => now end + cfg_MaxTTL cfg)%Z
    with (default now (i_StartedAt i) + cfg_MaxTTL cfg)%Z by (by destruct (i_StartedAt i)).
  generalize (default now (i_StartedAt i) + cfg_MaxTTL cfg)%Z as m. intros m.
  destruct (Z.ltb_spec x m), (Z.leb_spec m x); cbn [negb]; try lia; [|done]. f_equal.
  destruct (Z.ltb_spec m (x + cfg_Extend cfg)); lia.
Qed.

Lemma requireRunning_run w :
  w_faults w = [] →
  run requireRunning w = Some
    (match event (w_db w) with
     | None => Err ErrNotFound
     | Some e => if decide (phase_at (w_clock w) e = PhaseRunning) then Ok tt
                 else Err (Conflict "instances are available while the event is running")
     end, w).
Proof using Type.
  intros Hf. unfold requireRunning, Events.Get, map_err.
  rewrite !run_bind, run_try, run_atomic. unfold GetEvent. rewrite select_nofault by done.
  destruct (event (w_db w)); [|done]. cbn [one run mret P_ret].
  rewrite run_bind. unfold Phase_. rewrite run_bind, run_atomic. cbn. by case_decide.
Qed.

Lemma ManagerGetTeamInstance_run w :
  w_faults w = [] →
  run (ManagerGetTeamInstance challenge team) w = Some
    (Ok (rowToInstance <$> List.find (is_team_instance challenge team) (inst_rows (w_db w))), w).
Proof using Type.
  intros Hf. unfold ManagerGetTeamInstance, or_absent. rewrite !run_bind, run_try, run_atomic.
  unfold GetTeamInstance. rewrite select_nofault by done.
  by destruct (List.find _ _).
Qed.

Lemma Extend_locked_run w :
  w_faults w = [] → (∀ u i, instances (w_db w) !! u = Some i → i_ID i = u) →
  wp (Extend_locked cfg team challenge)
    (λ r w', extend_outcome w r (w_db w') ∧ w' = set_db (w_db w') w) w.
Proof using Type.
  intros Hf Hpk. unfold Extend_locked, wp, extend_outcome.
  rewrite run_bind, ManagerGetTeamInstance_run by done.
  destruct (List.find _ _) as [i|] eqn:Ei; cbn [fmap option_fmap option_map];
    [|by cbn; rewrite set_db_same].
  rewrite run_bind, requireRunning_run by done.
  destruct (event (w_db w)) as [e|]; [|by rewrite set_db_same].
  case_decide; [|by rewrite set_db_same].
  change (in_ExpiresAt (rowToInstance i)) with (i_ExpiresAt i).
  destruct (i_ExpiresAt i) as [x|] eqn:Ex; [|by cbn; rewrite set_db_same].
  rewrite run_bind, run_atomic. cbn [clock_now gets].
  change (in_StartedAt (rowToInstance i)) with (i_StartedAt i). rewrite next_expiry_spec.
  destruct (_ <=? _)%Z; [by cbn; rewrite set_db_same|].
  rewrite run_bind, run_atomic. unfold SetInstanceExpiry.
  rewrite query_nofault by done.
  apply find_some in Ei as [Hi _]. apply elem_of_inst_rows in Hi as [u Hu].
  rewrite <- (Hpk u i Hu) in Hu.
  change (in_ID (rowToInstance i)) with (i_ID i). rewrite Hu. done.
Qed.

(** [Extend], run alone with the database up: no instance is 404; outside
    the running phase, 409; without an expiry it is a no-op; at or past the
    maximum lifetime, 409; otherwise the expiry moves forward by the step, never
    past [started_at + MaxTTL], and only that row changes. *)
Theorem Extend_outcome w :
  quiet w → (∀ u i, instances (w_db w) !! u = Some i → i_ID i = u) →
  wp (Extend cfg team challenge) (λ r w', extend_outcome w r (w_db w') ∧ quiet w') w.
Proof using Type.
  intros Hq Hpk. pose proof (Extend_locked_run (locked team w) ltac:(apply Hq) Hpk) as Hw.
  unfold wp in Hw |- *. unfold Extend.
  destruct (run (Extend_locked cfg team challenge) (locked team w)) as [[r w1]|] eqn:E; [|done].
  destruct Hw as [Ho Hw].
  destruct (with_team_lock_run team _ w r w1 Hq E) as (w2 & -> & Hq2 & Hd & _);
    [rewrite Hw; first [done|apply Hq]..|].
  split; [|done]. rewrite Hd. exact Ho.
Qed.
End Extend.

(** ** Concrete runs *)

Section Demo.
#[local] Existing Instance demo_libs.
#[local] Instance sweep_rt : ChallengeRuntime := FakeRuntime demo_conf.
#[local] Instance sweep_destroys : RuntimeDestroys := fake_destroys demo_conf eq_refl.

(** Team 21 runs an instance that expired at 500; team 22's row is pending
    since time 0; the shared row has no expiry. *)
Definition shared_row_33 : Instance_ :=
  {| i_ID := 103%N; i_ChallengeID := 33%N; i_State := StateRunning; i_ContainerID := None;
     i_HostPort := Some 30002%Z; i_Error := None; i_StartedAt := None; i_LastHealthAt := None;
     i_CreatedAt := 0; i_UpdatedAt := 0; i_TeamID := None; i_Flag := None;
     i_ExpiresAt := None; i_Network := None |}.
Definition sweep_db : DB :=
  set_instances
    {[ 101%N := demo_instance 101 21 30000 StateRunning (Some 500%Z);
       102%N := demo_instance 102 22 30001 StatePending None;
       103%N := shared_row_33 ]} demo_db.

Lemma sweep_db_pk u i : instances sweep_db !! u = Some i → i_ID i = u.
Proof.
  revert u i.
  apply (bool_decide_eq_true_1 (map_Forall (λ u i, i_ID i = u) (instances sweep_db))).
  vm_compute. reflexivity.
Qed.

Definition survivors (w' : World) : list uuid := (map_to_list (instances (w_db w'))).*1.

Lemma ExpireOnce_exact_witness :
  wp (ExpireOnce (mret tt)) (λ r w', r = Ok tt ∧ survivors w' = [102%N; 103%N])
    (demo_world sweep_db 1000).
Proof.
  eapply wp_mono; [exact (ExpireOnce_exact (demo_world sweep_db 1000)
    (conj eq_refl eq_refl) sweep_db_pk)|].
  intros r w' (Hr & _ & Hi). split; [exact Hr|]. unfold survivors. rewrite Hi. vm_compute. reflexivity.
Defined.

Lemma CleanupEnded_exact_witness :
  wp CleanupEnded (λ r w', r = Ok (0, None) ∧ survivors w' = [103%N])
    (demo_world sweep_db (11 * Hour)).
Proof.
  pose proof (CleanupEnded_exact (demo_world sweep_db (11 * Hour))
    (conj eq_refl eq_refl) sweep_db_pk) as Hw.
  simpl in Hw. eapply wp_mono; [exact Hw|].
  intros r w' (Hr & _ & Hi). split; [exact Hr|]. unfold survivors. rewrite Hi. vm_compute. reflexivity.
Defined.

Lemma ReapStaleOnce_exact_witness :
  wp (ReapStaleOnce demo_cfg) (λ r w', r = Ok 1 ∧ survivors w' = [101%N; 103%N])
    (demo_world sweep_db Hour).
Proof.
  pose proof (ReapStaleOnce_exact demo_cfg (demo_world sweep_db Hour)
    (conj eq_refl eq_refl) sweep_db_pk) as Hw.
  cbv zeta in Hw. change (cfg_ReapAfter demo_cfg <=? 0)%Z with false in Hw. cbv iota in Hw.
  eapply wp_mono; [exact Hw|].
  intros r w' (Hr & _ & Hi). split; [exact Hr|]. unfold survivors. rewrite Hi. vm_compute. reflexivity.
Defined.

Lemma Extend_outcome_witness :
  wp (Extend demo_cfg 21%N 31%N)
    (λ r w', extend_outcome demo_cfg 21%N 31%N (demo_world sweep_db 1000) r (w_db w') ∧ quiet w')
    (demo_world sweep_db 1000).
Proof.
  exact (Extend_outcome demo_cfg 21%N 31%N (demo_world sweep_db 1000)
    (conj eq_refl eq_refl) sweep_db_pk).
Defined.
End Demo.
