(* ===== verification/Docker.v ===== *)
(** * The Docker runtime ([internal/runtime/docker.go], [cmd/platform/main.go])

    The [ChallengeRuntime] of production: a client of the Docker daemon that keeps the instance
    rows up to date.  The daemon is another program: what it answers to a call is
    any function of the world, and each call is recorded among the outputs with its answer.
    Also the isolation check the server runs when it starts. *)

From Stdlib Require Import Ascii.
From S2P Require Import Prelude Text Env Store Runtime FakeRuntime.
From S2P Require Reconcile.

(** ** The daemon *)

Class DockerDaemon := {
  says_NetworkList : string → string → World → res (list network_summary);
  says_NetworkInspect : string → World → res network_details;
  says_NetworkCreate : string → gmap string string → gmap string string → World → res unit;
  says_NetworkRemove : string → World → res unit;
  says_ImageInspect : string → World → res unit;
  says_ImagePull : string → World → res unit;
  says_ContainerList : string → string → World → res (list container_summary);
  says_ContainerInspect : string → World → res container_details;
  says_ContainerCreate : container_request → World → res string;
  says_ContainerStart : string → World → res unit;
  says_ContainerStop : string → Z → World → res unit;
  says_ContainerRemove : string → World → res unit;
  (** The output, demultiplexed, as it is written. *)
  says_ContainerLogs : string → Z → World → res (list string);
  (** The exit status, or why there is none: an error, or the end of the context. *)
  says_ContainerWait : string → World → res Z;
  IsErrConnectionFailed : error → bool;
  IsNotFound : error → bool;
  (** [err.Error()]. *)
  error_text : error → string
}.

Section Docker.
Context `{Libs} `{DockerDaemon}.

Definition ask {A} (call : res A → docker_call) (says : World → res A) : P World A :=
  atomic (λ w, (says w, set_out (w_out w ++ [Docker (call (says w))]) w)).
Definition networkList key value := ask (NetworkList key value) (says_NetworkList key value).
Definition networkInspect id := ask (NetworkInspect id) (says_NetworkInspect id).
Definition networkCreate name opts labels := ask (NetworkCreate name opts labels) (says_NetworkCreate name opts labels).
Definition networkRemove id := ask (NetworkRemove id) (says_NetworkRemove id).
Definition imageInspect ref := ask (ImageInspect ref) (says_ImageInspect ref).
Definition imagePull ref := ask (ImagePull ref) (says_ImagePull ref).
Definition containerList label value := ask (ContainerList label value) (says_ContainerList label value).
Definition containerInspect id := ask (ContainerInspect id) (says_ContainerInspect id).
Definition containerCreate r := ask (ContainerCreate r) (says_ContainerCreate r).
Definition containerStart id := ask (ContainerStart id) (says_ContainerStart id).
Definition containerStop id timeout := ask (ContainerStop id timeout) (says_ContainerStop id timeout).
Definition containerRemove id := ask (ContainerRemove id) (says_ContainerRemove id).
Definition containerLogs id tail := ask (ContainerLogs id tail) (says_ContainerLogs id tail).
Definition containerWait id := ask (ContainerWait id) (says_ContainerWait id).
(** A call whose error is dropped, and a line of the log. *)
Definition quietly {A} (p : P World A) : P World unit := try p;; mret tt.
Definition say (level msg : string) : P World unit := atomic (emit (Log level msg)).
Definition warn (msg : string) : P World unit := say "WARN" msg.

Definition teamNetPrefix : string := "osctf-team-".
Definition managedLabel : string := "osctf.managed".
Definition instanceIDLabel : string := "osctf.instance_id".
Definition challengeIDLabel : string := "osctf.challenge_id".
Definition teamNetworkLabel : string := "osctf.team_network".
Definition teamIDLabel : string := "osctf.team_id".
Definition pidsLimit : Z := 256.
Definition logCap : Z := (256 * 1024)%Z.
Definition tmpfsSize : string := "64m".
Definition masqueradeOpt : string := "com.docker.network.bridge.enable_ip_masquerade".

Definition wrapUnavailable (e : error) : error := RuntimeUnavailable e.
Definition to_health (s : State) (now : time) : UpdateInstanceParams :=
  {| up_State := Some s; up_ContainerID := None; up_SetError := false; up_Error := None;
     up_StartedAt := None; up_LastHealthAt := Some now |}.
Definition to_starting (cid : string) (now : time) : UpdateInstanceParams :=
  {| up_State := Some StateStarting; up_ContainerID := Some cid; up_SetError := true;
     up_Error := None; up_StartedAt := Some now; up_LastHealthAt := None |}.
Definition markError (id : uuid) (msg : string) : P World unit := quietly (atomic (UpdateInstance id (to_error msg))).
Definition instanceFromRow (id : uuid) : P World Instance := row ← atomic (GetInstanceByID id); mret (rowToInstance row).

(** ** Images and networks *)

(** Pulled only when it is not there; a pull that has begun is waited for, and its outcome ignored. *)
Definition ensureImage (ref : string) : P World unit :=
  there ← try (imageInspect ref);
  match there with
  | Ok _ => mret tt
  | Err _ => map_err (λ e, if IsErrConnectionFailed e then wrapUnavailable e else e) (imagePull ref)
  end.
Definition isIdleInternalNetwork (id : string) : P World bool :=
  r ← try (networkInspect id);
  mret (match r with Ok full => nd_Internal full && (nd_Containers full =? 0)%nat | Err _ => false end).
(** Whether the network is there already; an idle one of the old kind is removed, to be rebuilt. *)
Fixpoint keep_network (name : string) (noEgress : bool) (nets : list network_summary) : P World bool :=
  match nets with
  | [] => mret false
  | n :: nets =>
      if negb (bool_decide (ns_Name n = name)) then keep_network name noEgress nets else
      idle ← (if noEgress then isIdleInternalNetwork (ns_ID n) else mret false);
      if negb idle then mret true else
      r ← try (networkRemove (ns_ID n));
      match r with
      | Ok _ => mret false
      | Err _ => warn "runtime: replacing legacy internal network";; mret true
      end
  end.
Definition network_labels (name : string) (teamID : option uuid) : gmap string string :=
  let labels := {[ managedLabel := "true" ]} in
  if HasPrefix name teamNetPrefix then
    let labels := <[teamNetworkLabel := "true"]> labels in
    match teamID with Some t => <[teamIDLabel := uuid_String t]> labels | None => labels end
  else labels.
Definition network_options (noEgress : bool) : gmap string string := if noEgress then {[ masqueradeOpt := "false" ]} else ∅.
Definition ensureNamedNetwork (name : string) (noEgress : bool) (teamID : option uuid) : P World unit :=
  nets ← networkList "name" name;
  there ← keep_network name noEgress nets;
  if there : bool then mret tt else networkCreate name (network_options noEgress) (network_labels name teamID).

(** ** Instances *)

(** A failed inspection grades the container as in error; the error itself is dropped by every caller. *)
Definition health (id : string) : P World State :=
  r ← try (containerInspect id);
  mret (match r with
        | Err _ => StateError
        | Ok insp =>
            if negb (ct_Running insp) then StateStopped else
            match ct_Health insp with
            | Some status => if bool_decide (status = "healthy") then StateRunning else StateUnhealthy
            | None => StateRunning
            end
        end).
Definition removeByLabel (id : uuid) : P World unit :=
  r ← try (containerList instanceIDLabel (uuid_String id));
  match r with
  | Err _ => mret tt
  | Ok list => for_each (λ c, quietly (containerRemove (cs_ID c))) list
  end.
Definition tmpfsMounts (targets : list string) : gmap string string :=
  foldl (λ m t, <[t := "rw,noexec,nosuid,size=" +:+ tmpfsSize]> m) ∅ targets.
Definition port_tcp (port : Z) : string := Itoa port +:+ "/tcp".
(** What a challenge's container is created with. *)
Definition challenge_container (spec : InstanceSpec) (netName : string) : container_request :=
  {| cr_Name := "osctf-chal-" +:+ is_Slug spec +:+
       match is_TeamID spec with Some _ => "-" +:+ last_n 8 (uuid_String (is_InstanceID spec)) | None => "" end;
     cr_Image := is_Image spec; cr_Cmd := [];
     cr_Env := (λ p, p.1 +:+ "=" +:+ p.2) <$> map_to_list (is_Env spec);
     cr_ExposedPorts := [port_tcp (is_InternalPort spec)];
     cr_Labels := {[ managedLabel := "true"; challengeIDLabel := uuid_String (is_ChallengeID spec);
                     instanceIDLabel := uuid_String (is_InstanceID spec) ]};
     cr_PortBindings := [(port_tcp (is_InternalPort spec), ("0.0.0.0", Itoa (is_HostPort spec)))];
     cr_RestartPolicy := Some ("on-failure", 3%Z);
     cr_Memory := (is_MemLimitMB spec * 1024 * 1024)%Z; cr_MemorySwap := (is_MemLimitMB spec * 1024 * 1024)%Z;
     cr_NanoCPUs := (is_CPUMillis spec * 1000000)%Z; cr_PidsLimit := Some pidsLimit;
     cr_SecurityOpt := ["no-new-privileges:true"]; cr_CapDrop := ["ALL"];
     cr_ReadonlyRootfs := is_ReadonlyRootfs spec; cr_Tmpfs := tmpfsMounts (is_Tmpfs spec); cr_Networks := [netName] |}.
Definition spec_network (spec : InstanceSpec) : string :=
  if decide (is_NetworkName spec = "") then challengeNetwork else is_NetworkName spec.

(** [Deploy] up to its deferred function. *)
Definition deploy_body (spec : InstanceSpec) : P World Instance :=
  let netName := spec_network spec in
  map_err wrapUnavailable (ensureNamedNetwork netName (is_NoEgress spec) (is_TeamID spec));;
  map_err (Wrap "pulling image") (ensureImage (is_Image spec));;
  removeByLabel (is_InstanceID spec);;
  cid ← map_err (Wrap "creating container") (containerCreate (challenge_container spec netName));
  map_err (Wrap "starting container") (containerStart cid);;
  now ← atomic wall_now;
  map_err (Wrap "recording container") (atomic (UpdateInstance (is_InstanceID spec) (to_starting cid now)));;
  state ← health cid;
  healthAt ← atomic wall_now;
  row ← map_err (Wrap "recording health") (atomic (UpdateInstance (is_InstanceID spec) (to_health state healthAt)));
  mret (rowToInstance row).
(** A failure is recorded in the row, unless the daemon cannot be reached. *)
Definition docker_Deploy (spec : InstanceSpec) : P World Instance :=
  r ← try (deploy_body spec);
  match r with
  | Ok inst => mret inst
  | Err e =>
      if IsUnavailable e then throw e else
      markError (is_InstanceID spec) (error_text e);;
      try (instanceFromRow (is_InstanceID spec));;
      throw e
  end.
Definition docker_Stop (id : uuid) : P World unit :=
  row ← map_err (Wrap "runtime: get instance") (atomic (GetInstanceByID id));
  match i_ContainerID row with
  | None => mret tt
  | Some cid =>
      r ← try (containerStop cid 10);
      match r with
      | Err e => if IsErrConnectionFailed e then throw (wrapUnavailable e) else mret tt
      | Ok _ => mret tt
      end
  end;;
  atomic (UpdateInstance id (to_state StateStopped));; mret tt.
Definition docker_Destroy (id : uuid) : P World unit := removeByLabel id.
(** [rowToInstance] of the zero row. *)
Definition no_instance : Instance :=
  {| in_ID := 0%N; in_ChallengeID := 0%N; in_TeamID := None; in_State := StateNone;
     in_ContainerID := ""; in_HostPort := 0; in_Network := ""; in_StartedAt := None;
     in_LastHealthAt := None; in_ExpiresAt := None; in_Err := "" |}.
Definition docker_Status (id : uuid) : P World Instance :=
  row ← map_err (Wrap "runtime: get instance") (atomic (GetInstanceByID id));
  match i_ContainerID row with
  | None => mret (rowToInstance row)
  | Some cid =>
      r ← try (containerInspect cid);
      match r with
      | Err e =>
          if IsNotFound e then
            row ← try (atomic (UpdateInstance id (to_state StateLost)));
            mret (match row with Ok row => rowToInstance row | Err _ => no_instance end)
          else if IsErrConnectionFailed e then throw (wrapUnavailable e)
          else throw (Wrap "inspecting container" e)
      | Ok insp =>
          state ← (if ct_Running insp then health cid else mret StateStopped);
          healthAt ← atomic wall_now;
          row ← atomic (UpdateInstance id (to_health state healthAt));
          mret (rowToInstance row)
      end
  end.

(** ** Logs *)

(** [limitedWriter.Write]: what does not fit is dropped. *)
Definition limitedWriter_Write (cap : Z) (buf p : string) : string :=
  let remaining := (cap - Z.of_nat (String.length buf))%Z in
  if (0 <? remaining)%Z then
    buf +:+ (if (remaining <? Z.of_nat (String.length p))%Z then String.substring 0 (Z.to_nat remaining) p else p)
  else buf.
Definition between (lo hi c : ascii) : bool :=
  bool_decide (nat_of_ascii lo ≤ nat_of_ascii c ≤ nat_of_ascii hi).
Definition is_digit_or_semicolon (c : ascii) : bool := between "0" "9" c || bool_decide (c = ";"%char).
Definition is_letter (c : ascii) : bool := between "a" "z" c || between "A" "Z" c.
(** The rest of the text after [[0-9;]*[a-zA-Z]], if the text begins with that. *)
Fixpoint ansi_tail (s : string) : option string :=
  match s with
  | EmptyString => None
  | String c rest =>
      if is_digit_or_semicolon c then ansi_tail rest else if is_letter c then Some rest else None
  end.
Definition ansi_match (s : string) : option string :=
  match s with
  | String e (String b rest) =>
      if bool_decide (e = ascii_of_nat 27) && bool_decide (b = "["%char) then ansi_tail rest else None
  | _ => None
  end.
(** [ansiRe.ReplaceAllString(s, "")]: one pass, and what it joins is not looked at again. *)
Fixpoint strip_ansi (fuel : nat) (s : string) : string :=
  match fuel, s with
  | O, _ | _, EmptyString => s
  | S fuel, String c rest =>
      match ansi_match s with
      | Some rest => strip_ansi fuel rest
      | None => String c (strip_ansi fuel rest)
      end
  end.
Definition ansiRe_strip (s : string) : string := strip_ansi (String.length s) s.
Definition docker_Logs (id : uuid) (tail : Z) : P World string :=
  row ← map_err (Wrap "runtime: get instance") (atomic (GetInstanceByID id));
  match i_ContainerID row with
  | None => mret ""
  | Some cid =>
      r ← try (containerLogs cid tail);
      match r with
      | Err e => if IsErrConnectionFailed e then throw (wrapUnavailable e) else throw (Wrap "reading logs" e)
      | Ok chunks => mret (ansiRe_strip (foldl (limitedWriter_Write logCap) "" chunks))
      end
  end.

(** ** Reconciling *)

Definition view_container (c : container_summary) : Reconcile.ContainerView :=
  {| Reconcile.cv_ContainerID := cs_ID c;
     Reconcile.cv_InstanceID := default "" (cs_Labels c !! instanceIDLabel);
     Reconcile.cv_Running := bool_decide (cs_State c = "running") |}.
Definition is_team_network (n : network_summary) : bool :=
  HasPrefix (ns_Name n) teamNetPrefix || bool_decide (default "" (ns_Labels n !! teamNetworkLabel) = "true").
(** The per-team bridges that can be inspected. *)
Fixpoint view_networks (nets : list network_summary) : P World (list Reconcile.NetworkView) :=
  match nets with
  | [] => mret []
  | n :: nets =>
      if negb (is_team_network n) then view_networks nets else
      r ← try (networkInspect (ns_ID n));
      out ← view_networks nets;
      mret (match r with
            | Err _ => out
            | Ok full =>
                {| Reconcile.nv_NetworkID := ns_ID n; Reconcile.nv_Name := ns_Name n;
                   Reconcile.nv_TeamID := default "" (ns_Labels n !! teamIDLabel);
                   Reconcile.nv_TeamNetwork := true;
                   Reconcile.nv_Attached := Z.of_nat (nd_Containers full) |} :: out
            end)
  end.
Definition gatherTeamNetworks : P World (list Reconcile.NetworkView) :=
  r ← try (networkList "label" (managedLabel +:+ "=true"));
  match r with Err _ => mret [] | Ok nets => view_networks nets end.
Record gathered := {
  g_observed : list Reconcile.ContainerView; g_rows : list Reconcile.InstanceRow;
  g_networks : list Reconcile.NetworkView; g_now : time
}.
(** [None]: the daemon cannot be reached, and the pass is skipped. *)
Definition gatherReconcile : P World (option gathered) :=
  r ← try (containerList managedLabel "true");
  match r with
  | Err e => if IsErrConnectionFailed e then mret None else throw (Wrap "runtime: listing containers" e)
  | Ok containers =>
      dbRows ← map_err (Wrap "runtime: listing instances") (atomic ListInstances);
      networks ← gatherTeamNetworks;
      now ← map_err (Wrap "runtime: reading db clock") (atomic ReconcileClock);
      mret (Some {| g_observed := map view_container containers; g_rows := map view_row dbRows;
                    g_networks := networks; g_now := now |})
  end.
Definition executeAction (a : Reconcile.Action) : P World unit :=
  match Reconcile.ac_Kind a with
  | Reconcile.ActionMarkLost =>
      match uuid_Parse (Reconcile.ac_InstanceID a) with
      | None => mret tt
      | Some id =>
          r ← try (atomic (UpdateInstance id (to_state StateLost)));
          match r with Ok _ => mret tt | Err _ => warn "runtime: reconcile mark-lost" end
      end
  | Reconcile.ActionRemoveContainer =>
      warn "runtime: reconcile removing container";; quietly (containerRemove (Reconcile.ac_ContainerID a))
  | Reconcile.ActionRemoveNetwork =>
      r ← try (networkRemove (Reconcile.ac_NetworkID a));
      match r with Ok _ => mret tt | Err _ => warn "runtime: reconcile removing network" end
  | Reconcile.ActionFlagUnadopted =>
      warn "runtime: unadopted managed container (unresolvable instance_id)"
  | Reconcile.ActionFlagUnadoptedNetwork => warn "runtime: unadopted team network (no resolvable team_id)"
  end.
Record reconcile_tally := { unadoptedC : nat; unadoptedN : nat; touched : gset string }.
Definition count_action (a : Reconcile.Action) (t : reconcile_tally) : reconcile_tally :=
  match Reconcile.ac_Kind a with
  | Reconcile.ActionFlagUnadopted =>
      {| unadoptedC := S (unadoptedC t); unadoptedN := unadoptedN t; touched := touched t |}
  | Reconcile.ActionFlagUnadoptedNetwork =>
      {| unadoptedC := unadoptedC t; unadoptedN := S (unadoptedN t); touched := touched t |}
  | Reconcile.ActionMarkLost =>
      {| unadoptedC := unadoptedC t; unadoptedN := unadoptedN t;
         touched := {[Reconcile.ac_InstanceID a]} ∪ touched t |}
  | _ => t
  end.
Fixpoint execute_actions (actions : list Reconcile.Action) (t : reconcile_tally) : P World reconcile_tally :=
  match actions with
  | [] => mret t
  | a :: actions =>
      executeAction a;;
      atomic (emit (Inc "ReconcileActionsTotal" [Reconcile.metricLabel (Reconcile.ac_Kind a)]));;
      execute_actions actions (count_action a t)
  end.
Definition present (observed : list Reconcile.ContainerView) : gset string :=
  list_to_set (filter (λ id, id ≠ "") (Reconcile.cv_InstanceID <$> observed)).
(** The instances whose container was seen and that no action of this pass changed. *)
Definition refreshHealth (observed : list Reconcile.ContainerView) (rows : list Reconcile.InstanceRow)
    (touched : gset string) : P World unit :=
  for_each (λ r,
    let iid := Reconcile.ir_InstanceID r in
    if bool_decide (iid ∉ present observed) || bool_decide (iid ∈ touched) then mret tt else
    match uuid_Parse iid with
    | None => mret tt
    | Some id =>
        r ← try (docker_Status id);
        match r with
        | Err e => if IsUnavailable e then mret tt else warn "runtime: reconcile status"
        | Ok _ => mret tt
        end
    end) rows.
Definition docker_Reconcile : P World unit :=
  g ← gatherReconcile;
  match g with
  | None => mret tt
  | Some g =>
      let '(actions, stats) := Reconcile.Reconcile (g_observed g) (g_rows g) (g_networks g) (g_now g) in
      t ← execute_actions actions {| unadoptedC := 0; unadoptedN := 0; touched := ∅ |};
      atomic (emit (SetGauge "UnadoptedContainers" "" (Z.of_nat (unadoptedC t))));;
      atomic (emit (SetGauge "UnadoptedNetworks" "" (Z.of_nat (unadoptedN t))));;
      atomic (emit (SetGauge "ReconcileActions" "" (Z.of_nat (length actions))));;
      atomic (emit (SetGauge "ReconcileGraceSkipped" "" (Z.of_nat (Reconcile.SkippedGrace stats))));;
      (if (0 <? Reconcile.FutureRows stats)%nat then
         atomic (emit (AddTo "ReconcileFutureRows" (Z.of_nat (Reconcile.FutureRows stats))));;
         warn "runtime: reconcile saw rows with updated_at ahead of the DB clock; skipped conservatively"
       else mret tt);;
      refreshHealth (g_observed g) (g_rows g) (touched t);;
      atomic (emit (MarkSuccess "ReconcileLastSuccess"))
  end.

#[export] Instance DockerRuntime : ChallengeRuntime :=
  {| rt_Deploy := docker_Deploy; rt_Stop := docker_Stop; rt_Destroy := docker_Destroy;
     rt_Status := docker_Status; rt_Logs := docker_Logs; rt_Reconcile := docker_Reconcile |}.

(** ** What the fleet view is shown *)

(** A label that names something: present, and an id. *)
Definition resolvable (label : string) (labels : gmap string string) : bool :=
  let id := default "" (labels !! label) in
  negb (bool_decide (id = "")) && is_Some_b (uuid_Parse id).
Definition ListUnadopted : P World (list UnadoptedContainer) :=
  r ← try (containerList managedLabel "true");
  match r with
  | Err e => if IsErrConnectionFailed e then mret [] else throw (Wrap "runtime: listing containers" e)
  | Ok containers =>
      mret (map (λ c, {| uc_ContainerID := cs_ID c; uc_Image := cs_Image c; uc_CreatedAt := (cs_Created c * Second)%Z |})
                (List.filter (λ c, negb (resolvable instanceIDLabel (cs_Labels c))) containers))
  end.
Definition ListUnadoptedNetworks : P World (list UnadoptedNetwork) :=
  r ← try (networkList "label" (managedLabel +:+ "=true"));
  match r with
  | Err e => if IsErrConnectionFailed e then mret [] else throw (Wrap "runtime: listing networks" e)
  | Ok nets =>
      mret (map (λ n, {| un_NetworkID := ns_ID n; un_Name := ns_Name n |})
                (List.filter (λ n, is_team_network n && negb (resolvable teamIDLabel (ns_Labels n))) nets))
  end.

(** ** The isolation check *)

Definition isoCheckPrefix : string := "osctf-isocheck-".
Definition iso_image : string := "busybox:latest".
Definition createIsoNetwork (name : string) : P World unit :=
  networkCreate name {[ masqueradeOpt := "false" ]} ∅.
(** A container with nothing but an image, a command, and one network. *)
Definition iso_container (name img net : string) (cmd : list string) : container_request :=
  {| cr_Name := name; cr_Image := img; cr_Cmd := cmd; cr_Env := []; cr_ExposedPorts := [];
     cr_Labels := ∅; cr_PortBindings := []; cr_RestartPolicy := None; cr_Memory := 0;
     cr_MemorySwap := 0; cr_NanoCPUs := 0; cr_PidsLimit := None; cr_SecurityOpt := [];
     cr_CapDrop := []; cr_ReadonlyRootfs := false; cr_Tmpfs := ∅; cr_Networks := [net] |}.
Definition iso_listener (net img suf : string) : container_request :=
  let c := iso_container (isoCheckPrefix +:+ "listener-" +:+ suf) img net ["httpd"; "-f"; "-p"; "9"; "-h"; "/tmp"] in
  {| cr_Name := cr_Name c; cr_Image := cr_Image c; cr_Cmd := cr_Cmd c; cr_Env := cr_Env c;
     cr_ExposedPorts := ["9/tcp"]; cr_Labels := cr_Labels c;
     cr_PortBindings := [("9/tcp", ("0.0.0.0", ""))]; cr_RestartPolicy := cr_RestartPolicy c;
     cr_Memory := cr_Memory c; cr_MemorySwap := cr_MemorySwap c; cr_NanoCPUs := cr_NanoCPUs c;
     cr_PidsLimit := cr_PidsLimit c; cr_SecurityOpt := cr_SecurityOpt c; cr_CapDrop := cr_CapDrop c;
     cr_ReadonlyRootfs := cr_ReadonlyRootfs c; cr_Tmpfs := cr_Tmpfs c; cr_Networks := cr_Networks c |}.
Definition iso_probe (net ip img : string) : container_request :=
  iso_container "" img net ["nc"; "-w"; "3"; ip; "9"].
(** The container, "" when there is none, and its address on the network. *)
Definition startIsoListener (net img suf : string) : P World (string * res string) :=
  created ← try (containerCreate (iso_listener net img suf));
  match created with
  | Err e => mret ("", Err e)
  | Ok id =>
      ip ← try (
        containerStart id;;
        insp ← containerInspect id;
        match ct_Networks insp !! net with
        | None => throw (ErrOther ("listener has no IP on " +:+ net))
        | Some ip => if decide (ip = "") then throw (ErrOther ("listener has no IP on " +:+ net)) else mret ip
        end);
      mret (id, ip)
  end.
(** The exit status of one probe: 0 when it connected. *)
Definition runIsoProbe (net ip img : string) : P World Z :=
  id ← containerCreate (iso_probe net ip img);
  defer (quietly (containerRemove id)) (containerStart id;; containerWait id).
(** The listener must be reachable from its own network: at most so many tries. *)
Fixpoint positive_control (tries : nat) (net ip : string) : P World bool :=
  match tries with
  | O => mret false
  | S tries =>
      rc ← map_err (Wrap "isolation check: positive probe") (runIsoProbe net ip iso_image);
      if (rc =? 0)%Z then mret true else positive_control tries net ip
  end.
Definition cross_check (netA netB : string) (ipB : res string) : P World bool :=
  match ipB with
  | Err e => throw (Wrap "isolation check: listener" e)
  | Ok ip =>
      reachable ← positive_control 5 netB ip;
      if negb reachable then
        throw (ErrOther "isolation check inconclusive: listener unreachable on its own network")
      else
        rc ← map_err (Wrap "isolation check: cross probe") (runIsoProbe netA ip iso_image);
        mret (negb (rc =? 0)%Z)
  end.
Definition iso_net (side suf : string) : string := isoCheckPrefix +:+ side +:+ "-" +:+ suf.
(** [uuid.Must] panics when no id can be made; here that is the error. *)
Definition VerifyIsolation : P World bool :=
  map_err (Wrap "isolation check: image") (ensureImage iso_image);;
  id ← atomic NewV7;
  let suf := last_n 8 (uuid_String id) in
  let netA := iso_net "a" suf in
  let netB := iso_net "b" suf in
  map_err (Wrap "isolation check: net a") (createIsoNetwork netA);;
  defer (quietly (networkRemove netA)) (
    map_err (Wrap "isolation check: net b") (createIsoNetwork netB);;
    defer (quietly (networkRemove netB)) (
      '(listenerID, ipB) ← startIsoListener netB iso_image suf;
      if decide (listenerID = "") then cross_check netA netB ipB
      else defer (quietly (containerRemove listenerID)) (cross_check netA netB ipB))).

(** [Manager.VerifyIsolation]: a runtime that has no such check passes it. *)
Definition Manager_VerifyIsolation (checker : option (P World bool)) : P World bool :=
  match checker with Some check => check | None => mret true end.
(** What the server does with it when it starts. *)
Definition boot_isolation_check : P World unit :=
  r ← try (Manager_VerifyIsolation (Some VerifyIsolation));
  match r with
  | Err _ => warn "network isolation self-check could not run; treating isolation as UNVERIFIED"
  | Ok false =>
      RecordIsolationVerdict false;;
      warn "SECURITY: this Docker daemon does NOT enforce network isolation between per-team challenge instances"
  | Ok true =>
      RecordIsolationVerdict true;;
      say "INFO" "network isolation self-check passed: per-team instances are isolated"
  end.
End Docker.
