(* ===== verification/DockerRules.v ===== *)
(** * What the Docker runtime asks of the daemon

    Every call the runtime makes is justified by what the daemon answered before, whatever
    runs at the same time. *)

From Stdlib Require Import Ascii.
From S2P Require Import Prelude Interleave Text Env Demo Store Events Runtime Instances FakeRuntime Docker Scheduler Sweeps.
From S2P Require Reconcile.

(** ** The journal of calls *)

Definition calls (out : list effect) : list docker_call :=
  omap (λ e, match e with Docker c => Some c | _ => None end) out.

Section Journal.
Context `{Libs} `{DockerDaemon}.

(** A container of the isolation check: nothing marks it as the platform's. *)
Definition throwaway (r : container_request) : Prop := cr_Labels r = ∅ ∧ cr_Image r = iso_image.
(** A container of a challenge. *)
Record hardened (r : container_request) : Prop := {
  hd_managed : cr_Labels r !! managedLabel = Some "true";
  hd_instance : ∃ id, cr_Labels r !! instanceIDLabel = Some (uuid_String id);
  hd_caps : cr_CapDrop r = ["ALL"]; hd_privileges : "no-new-privileges:true" ∈ cr_SecurityOpt r;
  hd_pids : cr_PidsLimit r = Some 256%Z; hd_swap : cr_MemorySwap r = cr_Memory r;
  hd_readonly : cr_ReadonlyRootfs r = true; hd_network : length (cr_Networks r) = 1;
  hd_tmpfs : map_Forall (λ _ o, o = "rw,noexec,nosuid,size=64m") (cr_Tmpfs r)
}.

(** The isolation check succeeded: a listener with an address on one network was reached
    from that network, and not from another. *)
Record passed (h : list docker_call) : Prop := {
  passed_check : ∃ suf listener insp ip near far rc,
    ContainerCreate (iso_listener (iso_net "b" suf) iso_image suf) (Ok listener) ∈ h ∧
    ContainerInspect listener (Ok insp) ∈ h ∧ ct_Networks insp !! iso_net "b" suf = Some ip ∧
    ContainerCreate (iso_probe (iso_net "b" suf) ip iso_image) (Ok near) ∈ h ∧ ContainerWait near (Ok 0%Z) ∈ h ∧
    ContainerCreate (iso_probe (iso_net "a" suf) ip iso_image) (Ok far) ∈ h ∧ ContainerWait far (Ok rc) ∈ h ∧ rc ≠ 0%Z
}.

(** [justified_call G h c]: why, after the calls [h], the call [c] may be made; [G] is what
    the creation of a challenge's container also asks for. *)
Definition justified_call (G : list docker_call → Prop) (h : list docker_call) (c : docker_call) : Prop :=
  match c with
  | ImagePull ref _ => ∃ e, ImageInspect ref (Err e) ∈ h
  | NetworkCreate name options labels _ =>
      labels !! managedLabel = Some "true" ∨
      labels = ∅ ∧ (∃ side suf, name = iso_net side suf) ∧ options = {[ masqueradeOpt := "false" ]}
  | NetworkRemove id _ =>
      (∃ d, NetworkInspect id (Ok d) ∈ h ∧ nd_Containers d = 0) ∨
      (∃ side suf opts, id = iso_net side suf ∧ NetworkCreate id opts ∅ (Ok tt) ∈ h)
  | ContainerCreate r _ => throwaway r ∨ hardened r ∧ G h
  | ContainerStart id _ => ∃ r, ContainerCreate r (Ok id) ∈ h
  | ContainerRemove id _ =>
      (∃ inst l c, ContainerList instanceIDLabel (uuid_String inst) (Ok l) ∈ h ∧ c ∈ l ∧ cs_ID c = id) ∨
      (∃ l c, ContainerList managedLabel "true" (Ok l) ∈ h ∧ c ∈ l ∧ cs_ID c = id ∧
              default "" (cs_Labels c !! instanceIDLabel) ≠ "") ∨
      (∃ r, throwaway r ∧ ContainerCreate r (Ok id) ∈ h)
  | _ => True
  end.

Context (Gated : Prop).
Definition gate_passed (h : list docker_call) : Prop := Gated → passed h.
Abbreviation just := (justified_call gate_passed).
Definition good (h : list docker_call) : Prop := ∀ n c, h !! n = Some c → just (take n h) c.

Lemma passed_mono h h' : h ⊆ h' → passed h → passed h'.
Proof using Type.
  intros Hh [(suf & l & insp & ip & near & far & rc & H1 & H2 & H3 & H4 & H5 & H6 & H7 & H8)].
  constructor. exists suf, l, insp, ip, near, far, rc. split_and!; auto.
Qed.
Lemma just_mono h h' c : h ⊆ h' → just h c → just h' c.
Proof using Type.
  intros Hh. pose proof (passed_mono h h' Hh) as Hp. unfold gate_passed.
  destruct c; cbn [justified_call]; naive_solver.
Qed.
Lemma good_snoc h c : good h → just h c → good (h ++ [c]).
Proof using Type.
  intros Hg Hc n c' [E|[E E']]%lookup_snoc_Some.
  - destruct E as [Hn E]. rewrite take_app_le by lia. by apply Hg.
  - subst. by rewrite take_app_length.
Qed.
Lemma calls_app a b : calls (a ++ b) = calls a ++ calls b.
Proof using Type. apply omap_app. Qed.

(** ** Programs whose calls are justified *)

Definition gate_kept (w : World) : Prop :=
  Gated → gateArmed (w_mgr w) = true ∧ allowUnisolated (w_mgr w) = false ∧
          (isolation (w_mgr w) = isolationEnforced → passed (calls (w_out w))).
Definition Inv (gs : list (list docker_call)) (w : World) : Prop :=
  good (calls (w_out w)) ∧ Forall (λ g, g ⊆ calls (w_out w)) gs ∧ gate_kept w.

(** [J F p Q]: when the calls [F] were made, every call of [p] is justified; a thread knows
    some of the calls that were made, more and more of them. *)
Definition J {A} (F : list docker_call) (p : prog World A) (Q : A → list docker_call → Prop) : Prop :=
  ∀ g, F ⊆ g → holds (λ _, True) Inv (λ _ _, True) p (λ r g', g ⊆ g' ∧ Q r g') g.
Abbreviation any := (λ _ _, True).

Lemma J_mono {A} F (p : prog World A) (Q Q' : A → list docker_call → Prop) :
  J F p Q → (∀ r g, F ⊆ g → Q r g → Q' r g) → J F p Q'.
Proof using Type.
  intros Hp HQ g Hg. eapply holds_mono; [by apply Hp|]. intros r g' [Hg' Hq]. split; [done|].
  apply HQ; [|done]. by etrans.
Qed.
Lemma J_any {A} F (p : prog World A) Q : J F p Q → J F p any.
Proof using Type. intros Hp. by eapply J_mono. Qed.
Lemma J_ret {A} F (a : A) (Q : res A → list docker_call → Prop) :
  (∀ g, F ⊆ g → Q (Ok a) g) → J F (mret a : P World A) Q.
Proof using Type. intros HQ g Hg. split; [done|auto]. Qed.
Lemma J_throw {A} F e (Q : res A → list docker_call → Prop) :
  (∀ g, F ⊆ g → Q (Err e) g) → J F (throw e : P World A) Q.
Proof using Type. intros HQ g Hg. split; [done|auto]. Qed.
Lemma J_bind {A B} F (p : P World A) (k : A → P World B) Q (Q' : res B → list docker_call → Prop) :
  J F p Q → (∀ a g, F ⊆ g → Q (Ok a) g → J g (k a) Q') →
  (∀ e g, F ⊆ g → Q (Err e) g → Q' (Err e) g) → J F (p ≫= k) Q'.
Proof using Type.
  intros Hp Hk He g Hg. apply holds_bind. eapply holds_mono; [by apply Hp|].
  intros [a|e] g' [Hg' HQ]; [|split; [done|apply He; [by etrans|done]]].
  eapply holds_mono; [apply (Hk a g'); [by etrans|done|done]|]. intros r g2 [H2 HQ2]. split; [by etrans|done].
Qed.
Lemma J_bind_any {A B} F (p : P World A) (k : A → P World B) :
  J F p any → (∀ a g, F ⊆ g → J g (k a) any) → J F (p ≫= k) any.
Proof using Type. intros Hp Hk. eapply J_bind; [exact Hp|auto..]. Qed.
Lemma J_try {A} F (p : P World A) (Q : res (res A) → list docker_call → Prop) : J F p (λ r, Q (Ok r)) → J F (try p) Q.
Proof using Type. intros Hp g Hg. apply holds_try. by apply Hp. Qed.
Lemma J_map_err {A} F f (p : P World A) (Q : res A → list docker_call → Prop) :
  J F p (λ r, Q (match r with Ok a => Ok a | Err e => Err (f e) end)) → J F (map_err f p) Q.
Proof using Type. intros Hp g Hg. apply holds_map_err. by apply Hp. Qed.
Lemma J_defer {A} F (d : P World unit) (p : P World A) (Q : res A → list docker_call → Prop) :
  J F p Q → (∀ g, F ⊆ g → J g d any) → (∀ r g g', Q r g → g ⊆ g' → Q r g') → (∀ e g, Q (Err e) g) →
  J F (defer d p) Q.
Proof using Type.
  intros Hp Hd Hm He. eapply (J_bind F _ _ (λ r g, match r with Ok r => Q r g | Err _ => True end));
    [by apply J_try| |done].
  intros r g Hg HQ. eapply (J_bind g _ _ any); [by apply Hd| |done]. intros _ g' Hg' _.
  destruct r as [a|e]; [apply J_ret|apply J_throw]; intros g2 H2; (eapply Hm; [exact HQ|by etrans]).
Qed.
Lemma J_forget {A} F (p : prog World A) : J F p any → J F (forget p) any.
Proof using Type.
  intros Hp g Hg. apply holds_prog_bind. eapply holds_mono; [by apply Hp|]. intros r g' [Hg' _]. done.
Qed.
Lemma J_go {A} F (p : P World A) : J [] p any → J F (go p) any.
Proof using Type.
  intros Hp g Hg gs s HI. exists g, []. split_and!.
  - destruct HI as (H1 & H2 & H3). inv H2. split_and!; [done| |done]. constructor; [done|]. constructor; [|done].
    by intros x Hx%not_elem_of_nil.
  - by split.
  - eapply holds_mono; [by apply (J_forget [] p Hp)|done].
Qed.
Lemma J_for_each {A} F (f : A → P World unit) l :
  (∀ a g, a ∈ l → F ⊆ g → J g (f a) any) → J F (for_each f l) any.
Proof using Type.
  revert F. induction l as [|a l IH]; intros F Hf; [by apply J_ret|].
  apply J_bind_any; [apply Hf; [by left|done]|]. intros _ g Hg. apply IH. intros b g' Hb Hg'. apply Hf; [by right|by etrans].
Qed.

(** A call to the daemon. *)
Lemma J_ask {A} F (call : res A → docker_call) (says : World → res A) :
  (∀ r, just F (call r)) → J F (ask call says) (λ r g, call r ∈ g).
Proof using Type.
  intros Hc g Hg. apply holds_atomic. intros gs w (H1 & H2 & H3). inv H2. exists (g ++ [call (says w)]).
  cbn [fst snd]. split_and!; [|done|set_solver..].
  unfold Inv, gate_kept. cbn [w_out set_out w_mgr]. rewrite calls_app. cbn. split_and!.
  - apply good_snoc; [done|]. eapply just_mono, Hc. by etrans.
  - constructor; [set_solver|]. eapply Forall_impl; [done|]. set_solver.
  - intros HG. destruct (H3 HG) as (? & ? & Hp). split_and!; [done..|]. intros E. eapply passed_mono, Hp, E. set_solver.
Qed.

(** An action that calls no one and leaves the gate as it is. *)
Definition silent {A} (m : M World A) : Prop :=
  ∀ w, let w' := (m w).2 in calls (w_out w') = calls (w_out w) ∧ gateArmed (w_mgr w') = gateArmed (w_mgr w) ∧
    allowUnisolated (w_mgr w') = allowUnisolated (w_mgr w) ∧ isolation (w_mgr w') = isolation (w_mgr w).
Lemma unchanged_inv gs w w' :
  calls (w_out w') = calls (w_out w) → gateArmed (w_mgr w') = gateArmed (w_mgr w) →
  allowUnisolated (w_mgr w') = allowUnisolated (w_mgr w) → isolation (w_mgr w') = isolation (w_mgr w) → Inv gs w → Inv gs w'.
Proof using Type. intros E1 E2 E3 E4. unfold Inv, gate_kept. by rewrite E1, E2, E3, E4. Qed.
Lemma J_atomic {A} F (m : M World A) : silent m → J F (atomic m) any.
Proof using Type.
  intros Hm g Hg. apply holds_atomic. intros gs w HI. exists g. destruct (Hm w) as (E1 & E2 & E3 & E4).
  split_and!; [by eapply unchanged_inv|done..].
Qed.
Lemma J_blocking {A} F (f : World → option (A * World)) :
  (∀ w a w', f w = Some (a, w') → w_out w' = w_out w ∧ w_mgr w' = w_mgr w) → J F (blocking f) any.
Proof using Type.
  intros Hf g Hg. apply holds_blocking. intros gs w a w' HI E. exists g. destruct (Hf w a w' E) as [E1 E2].
  split_and!; [|done..]. eapply unchanged_inv, HI; congruence.
Qed.

Lemma silent_gets {A} (f : World → A) : silent (gets f).
Proof using Type. by intros w. Qed.
Lemma silent_ret {A} (a : A) : silent (mret a : M World A).
Proof using Type. by intros w. Qed.
Lemma silent_throw {A} e : silent (throw e : M World A).
Proof using Type. by intros w. Qed.
Lemma silent_bind {A B} (m : M World A) (k : A → M World B) : silent m → (∀ a, silent (k a)) → silent (m ≫= k).
Proof using Type.
  intros Hm Hk w. specialize (Hm w). rewrite M_bind_eq. destruct (m w) as [[a|e] w1]; [|exact Hm].
  destruct (Hk a w1) as (E1 & E2 & E3 & E4). destruct Hm as (E5 & E6 & E7 & E8). cbn in *. split_and!; congruence.
Qed.
Lemma silent_try {A} (m : M World A) : silent m → silent (try m).
Proof using Type. intros Hm w. specialize (Hm w). cbn. unfold M_try. by destruct (m w). Qed.
Lemma silent_map_err {A} f (m : M World A) : silent m → silent (map_err f m).
Proof using Type. intros Hm. apply silent_bind; [by apply silent_try|]. intros [a|e]; [apply silent_ret|apply silent_throw]. Qed.
Lemma silent_modify f : (∀ w, w_out (f w) = w_out w ∧ w_mgr (f w) = w_mgr w) → silent (modify f).
Proof using Type. intros Hf w. cbn. destruct (Hf w) as [-> ->]. done. Qed.
Lemma silent_emit e : match e with Docker _ => False | _ => True end → silent (emit e).
Proof using Type. intros He w. cbn. rewrite calls_app. destruct e; [done|..]; cbn; by rewrite app_nil_r. Qed.
Lemma silent_next_fault : silent next_fault.
Proof using Type. intros w. unfold next_fault. by destruct (w_faults w). Qed.
Lemma silent_query {A} (f : time → DB → res A * DB) : silent (query f).
Proof using Type.
  apply silent_bind; [apply silent_next_fault|]. intros []; [apply silent_throw|]. intros w.
  by destruct (f _ _) as [[a|e] d].
Qed.
Lemma silent_NewV7 : silent NewV7.
Proof using Type. intros w. unfold NewV7. by destruct (w_uuids w) as [|[]]. Qed.
Lemma silent_rand n : silent (rand_Read n).
Proof using Type. intros w. unfold rand_Read. by destruct (w_rand w) as [|[]]. Qed.
End Journal.

Create HintDb dock discriminated.
#[export] Hint Resolve silent_gets silent_ret silent_throw silent_query silent_NewV7 silent_rand : dock.
#[export] Hint Extern 1 (silent (emit _)) => (apply silent_emit; exact I) : dock.
Ltac silent_query := lazymatch goal with |- silent ?m => let h := head_of m in unfold h; apply silent_query end.
#[export] Hint Extern 3 (silent _) => silent_query : dock.
#[export] Hint Extern 1 (silent (select _)) => (apply silent_query) : dock.
#[export] Hint Extern 1 (silent clock_now) => (apply silent_gets) : dock.
#[export] Hint Extern 1 (silent wall_now) => (apply silent_gets) : dock.

(** Walk through a program of which nothing is to be learnt. *)
Ltac tame_one :=
  intros;
  lazymatch goal with
  | |- J _ _ (mret _) _ => apply J_ret; done
  | |- J _ _ (throw _) _ => apply J_throw; done
  | _ => first
    [ solve [auto 3 with dock]
    | lazymatch goal with
      | |- J _ _ (_ ≫= _) _ => apply J_bind_any
      | |- J _ _ (try _) _ => apply J_try
      | |- J _ _ (map_err _ _) _ => apply J_map_err
      | |- J _ _ (defer _ _) _ => apply J_defer; [| |done|done]
      | |- J _ _ (go _) _ => apply J_go
      | |- J _ _ (for_each _ _) _ => apply J_for_each
      | |- J _ _ (atomic _) _ => apply J_atomic
      | |- J _ _ (match ?x with _ => _ end) _ => destruct x
      | |- silent (_ ≫= _) => apply silent_bind
      | |- silent (try _) => apply silent_try
      | |- silent (map_err _ _) => apply silent_map_err
      | |- silent (match ?x with _ => _ end) => destruct x
      end ]
  end.
Ltac tame := repeat tame_one; intros.

Section Runtime.
Context `{Libs} `{DockerDaemon} (Gated : Prop).
Abbreviation J := (J Gated).
Abbreviation just := (justified_call (gate_passed Gated)).
Abbreviation any := (λ _ _, True).

(** Calls that need no reason. *)
Lemma J_free {A} F (call : res A → docker_call) (says : World → res A) :
  (∀ r, just F (call r)) → J F (ask call says) any.
Proof using Type. intros Hc. eapply J_any, J_ask, Hc. Qed.
Lemma J_say F level msg : J F (say level msg) any.
Proof using Type. unfold say. tame. Qed.
Lemma J_warn F msg : J F (warn msg) any.
Proof using Type. apply J_say. Qed.
Lemma J_UpdateInstance F id p : J F (atomic (UpdateInstance id p)) any.
Proof using Type. unfold UpdateInstance. tame. Qed.
Lemma J_GetInstanceByID F id : J F (atomic (GetInstanceByID id)) any.
Proof using Type. unfold GetInstanceByID. tame. Qed.
Lemma J_quietly {A} F (p : P World A) : J F p any → J F (quietly p) any.
Proof using Type. intros Hp. unfold quietly. apply J_bind_any; [by apply J_try|]. tame. Qed.
Lemma J_containerInspect F id : J F (containerInspect id) any.
Proof using Type. by apply J_free. Qed.
Lemma J_health F id : J F (health id) any.
Proof using Type. unfold health. apply J_bind_any; [apply J_try, J_containerInspect|tame]. Qed.
Hint Resolve J_say J_warn J_UpdateInstance J_GetInstanceByID J_quietly J_containerInspect J_health : dock.
Lemma J_Status F id : J F (docker_Status id) any.
Proof using Type. unfold docker_Status. tame. Qed.
Lemma J_Stop F id : J F (docker_Stop id) any.
Proof using Type. unfold docker_Stop. tame. by apply J_free. Qed.
Lemma J_Logs F id tail : J F (docker_Logs id tail) any.
Proof using Type. unfold docker_Logs. tame. by apply J_free. Qed.

Lemma J_ensureImage F ref : J F (ensureImage ref) any.
Proof using Type.
  unfold ensureImage. eapply (J_bind _ F _ _ (λ r g, match r with Ok r => ImageInspect ref r ∈ g | Err _ => True end));
    [by apply J_try, J_ask| |done].
  intros [u|e] g Hg Hr; [tame|]. apply J_map_err, J_free. intros r. by exists e.
Qed.
Lemma J_removeByLabel F id : J F (removeByLabel id) any.
Proof using Type.
  unfold removeByLabel.
  eapply (J_bind _ F _ _ (λ r g, match r with Ok r => ContainerList instanceIDLabel (uuid_String id) r ∈ g | Err _ => True end));
    [by apply J_try, J_ask| |done].
  intros [l|e] g Hg Hr; [|tame]. apply J_for_each. intros c g' Hc Hg'. apply J_quietly, J_free.
  intros r. left. exists id, l, c. split_and!; [by apply Hg'|done..].
Qed.
Lemma J_keep_network F name noEgress nets : J F (keep_network name noEgress nets) any.
Proof using Type.
  revert F. induction nets as [|n nets IH]; intros F; cbn [keep_network]; [tame|].
  destruct (negb _); [apply IH|]. destruct noEgress; [|apply J_ret; done].
  eapply (J_bind _ F _ _ (λ r g, match r with Ok true => ∃ d, NetworkInspect (ns_ID n) (Ok d) ∈ g ∧ nd_Containers d = 0 | _ => True end)).
  - unfold isIdleInternalNetwork.
    eapply (J_bind _ F _ _ (λ r g, match r with Ok r => NetworkInspect (ns_ID n) r ∈ g | Err _ => True end));
      [by apply J_try, J_ask| |done].
    intros [d|e] g Hg Hr; apply J_ret; intros g' Hg'; [|done].
    destruct (nd_Internal d && _) eqn:E; [|done]. apply andb_true_iff in E as [_ E%Nat.eqb_eq]. eauto.
  - intros [] g Hg Hd; cbn [negb]; [|tame]. apply J_bind_any; [|tame]. apply J_try, J_free. intros r. by left.
  - done.
Qed.
Lemma J_ensureNamedNetwork F name noEgress team : J F (ensureNamedNetwork name noEgress team) any.
Proof using Type.
  unfold ensureNamedNetwork. apply J_bind_any; [by apply J_free|]. intros nets g Hg.
  apply J_bind_any; [apply J_keep_network|]. intros [] g' Hg'; [tame|]. apply J_free. intros r. left.
  unfold network_labels. destruct (HasPrefix _ _), team; by simplify_map_eq.
Qed.
Hint Resolve J_Status J_Stop J_Logs J_ensureImage J_removeByLabel J_ensureNamedNetwork : dock.

(** A container that is created may be started. *)
Lemma J_containerCreate F r :
  throwaway r ∨ hardened r ∧ gate_passed Gated F →
  J F (containerCreate r) (λ res g, ContainerCreate r res ∈ g).
Proof using Type. intros Hr. by apply J_ask. Qed.
Lemma J_containerStart F r id : ContainerCreate r (Ok id) ∈ F → J F (containerStart id) any.
Proof using Type. intros Hr. apply J_free. intros x. by exists r. Qed.

Lemma tmpfs_options targets : map_Forall (λ _ o, o = "rw,noexec,nosuid,size=64m") (tmpfsMounts targets).
Proof using Type.
  unfold tmpfsMounts. generalize (map_Forall_empty (λ _ o, o = "rw,noexec,nosuid,size=64m") : map_Forall _ (∅ : gmap string string)).
  generalize (∅ : gmap string string).
  induction targets as [|t l IH]; intros m Hm; simpl; [done|]. apply IH. by apply map_Forall_insert_2.
Qed.
Lemma challenge_hardened spec net : is_ReadonlyRootfs spec = true → hardened (challenge_container spec net).
Proof using Type.
  intros Hro. split; cbn [challenge_container cr_Labels cr_CapDrop cr_SecurityOpt cr_PidsLimit cr_MemorySwap cr_Memory
    cr_ReadonlyRootfs cr_Networks cr_Tmpfs]; [by simplify_map_eq| |done|set_solver|done..|apply tmpfs_options].
  exists (is_InstanceID spec). by simplify_map_eq.
Qed.

Lemma J_deploy_body F spec :
  is_ReadonlyRootfs spec = true → gate_passed Gated F → J F (deploy_body spec) any.
Proof using Type.
  intros Hro HG. unfold deploy_body.
  apply J_bind_any; [tame|]. intros _ g1 H1. apply J_bind_any; [tame|]. intros _ g2 H2.
  apply J_bind_any; [tame|]. intros _ g3 H3.
  assert (gate_passed Gated g3) as HG3 by (intros HGt; eapply passed_mono, HG, HGt; set_solver).
  eapply (J_bind _ g3 _ _ (λ r g, match r with Ok cid => ContainerCreate (challenge_container spec (spec_network spec)) (Ok cid) ∈ g | Err _ => True end)).
  - apply J_map_err. eapply J_mono; [apply J_containerCreate; right; split; [by apply challenge_hardened|done]|].
    by intros [] g Hg Hr.
  - intros cid g4 H4 Hc. apply J_bind_any; [by eapply J_map_err, J_containerStart|]. tame.
  - done.
Qed.
Lemma J_Deploy F spec : is_ReadonlyRootfs spec = true → gate_passed Gated F → J F (docker_Deploy spec) any.
Proof using Type.
  intros Hro HG. unfold docker_Deploy. apply J_bind_any; [by apply J_try, J_deploy_body|].
  unfold markError, instanceFromRow. tame.
Qed.
Lemma J_Destroy F id : J F (docker_Destroy id) any.
Proof using Type. apply J_removeByLabel. Qed.
Hint Resolve J_Deploy J_Destroy : dock.

(** ** Reconciling *)

(** What the actions of a pass may go by. *)
Record seen (h : list docker_call) (g : gathered) : Prop := {
  seen_containers : ∀ c, c ∈ g_observed g → ∃ l s, ContainerList managedLabel "true" (Ok l) ∈ h ∧ s ∈ l ∧ c = view_container s;
  seen_networks : ∀ n, n ∈ g_networks g →
    ∃ d, NetworkInspect (Reconcile.nv_NetworkID n) (Ok d) ∈ h ∧ Reconcile.nv_Attached n = Z.of_nat (nd_Containers d)
}.
Lemma seen_mono h h' g : h ⊆ h' → seen h g → seen h' g.
Proof using Type.
  intros Hh [Hc Hn]. split.
  - intros c (l & s & H1 & H2 & H3)%Hc. exists l, s. auto.
  - intros n (d & H1 & H2)%Hn. exists d. auto.
Qed.
Definition networks_seen (h : list docker_call) (nets : list Reconcile.NetworkView) : Prop :=
  ∀ n, n ∈ nets → ∃ d, NetworkInspect (Reconcile.nv_NetworkID n) (Ok d) ∈ h ∧ Reconcile.nv_Attached n = Z.of_nat (nd_Containers d).
Lemma networks_seen_mono h h' nets : h ⊆ h' → networks_seen h nets → networks_seen h' nets.
Proof using Type. intros Hh Hn n (d & H1 & H2)%Hn. exists d. auto. Qed.
Abbreviation on_ok Q := (λ r g, match r with Ok a => Q g a | Err _ => True end).

Lemma J_map_ok {A} F f (p : P World A) (Q : list docker_call → A → Prop) : J F p (on_ok Q) → J F (map_err f p) (on_ok Q).
Proof using Type. intros Hp. apply J_map_err. eapply J_mono; [exact Hp|]. by intros []. Qed.

Lemma J_view_networks F nets : J F (view_networks nets) (on_ok networks_seen).
Proof using Type.
  revert F. induction nets as [|n nets IH]; intros F; cbn [view_networks].
  { apply J_ret. intros g _ n Hn. by apply not_elem_of_nil in Hn. }
  destruct (negb _); [apply IH|].
  eapply (J_bind _ F _ _ (λ r g, match r with Ok r => NetworkInspect (ns_ID n) r ∈ g | Err _ => True end));
    [by apply J_try, J_ask| |done].
  intros r g Hg Hr. eapply (J_bind _ g _ _ (on_ok networks_seen)); [apply IH| |done].
  intros out g' Hg' Ho. apply J_ret. intros g2 H2. destruct r as [d|e]; [|by eapply networks_seen_mono].
  intros m [->|Hm]%elem_of_cons; [|by eapply networks_seen_mono].
  exists d. split; [|done]. apply H2, Hg', Hr.
Qed.
Lemma J_gatherTeamNetworks F : J F gatherTeamNetworks (on_ok networks_seen).
Proof using Type.
  unfold gatherTeamNetworks. eapply (J_bind _ F _ _ any); [by apply J_try, J_free| |done].
  intros [nets|e] g Hg _; [apply J_view_networks|]. apply J_ret. intros g' _ n Hn. by apply not_elem_of_nil in Hn.
Qed.
Lemma J_gatherReconcile F : J F gatherReconcile (λ r h, match r with Ok (Some g) => seen h g | _ => True end).
Proof using Type.
  unfold gatherReconcile.
  eapply (J_bind _ F _ _ (λ r g, match r with Ok r => ContainerList managedLabel "true" r ∈ g | Err _ => True end));
    [by apply J_try, J_ask| |done].
  intros [l|e] g Hg Hl; [|tame].
  eapply (J_bind _ g _ _ any); [unfold ListInstances; tame| |done]. intros rows g1 H1 _.
  eapply (J_bind _ g1 _ _ (on_ok networks_seen)); [apply J_gatherTeamNetworks| |done]. intros nets g2 H2 Hn.
  eapply (J_bind _ g2 _ _ any); [unfold ReconcileClock; tame| |done]. intros now g3 H3 _.
  apply J_ret. intros g4 H4. split; cbn [g_observed g_networks].
  - intros c (s & -> & Hs)%list_elem_of_fmap. exists l, s. split_and!; [by apply H4, H3, H2, H1|done..].
  - eapply networks_seen_mono, Hn. by etrans.
Qed.

(** The actions of the decision concern what was seen. *)
Record sound_action (h : list docker_call) (a : Reconcile.Action) : Prop := {
  sound_container : Reconcile.ac_Kind a = Reconcile.ActionRemoveContainer →
    ∃ l s, ContainerList managedLabel "true" (Ok l) ∈ h ∧ s ∈ l ∧ cs_ID s = Reconcile.ac_ContainerID a ∧
           default "" (cs_Labels s !! instanceIDLabel) ≠ "";
  sound_network : Reconcile.ac_Kind a = Reconcile.ActionRemoveNetwork →
    ∃ d, NetworkInspect (Reconcile.ac_NetworkID a) (Ok d) ∈ h ∧ nd_Containers d = 0
}.
Lemma sound_action_mono h h' a : h ⊆ h' → sound_action h a → sound_action h' a.
Proof using Type.
  intros Hh [Hc Hn]. split.
  - intros (l & s & H1 & H2)%Hc. exists l, s. auto.
  - intros (d & H1 & H2)%Hn. exists d. auto.
Qed.
Lemma actions_sound h g a :
  seen h g → In a (Reconcile.Reconcile (g_observed g) (g_rows g) (g_networks g) (g_now g)).1 → sound_action h a.
Proof using Type.
  intros [Hc Hn]. simpl. rewrite !in_app_iff, !in_flat_map.
  intros [(x & Hx & Ha)|[(x & Hx%list_elem_of_In & Ha)|(x & Hx%list_elem_of_In & Ha)]].
  - unfold Reconcile.row_actions in Ha.
    destruct (Reconcile.in_grace _ _); [done|]. destruct (_ !! _); [done|].
    destruct (Reconcile.ir_State x); try done; by destruct Ha as [<-|[]].
  - unfold Reconcile.container_actions in Ha. destruct (decide _) as [|Hid]; [by destruct Ha as [<-|[]]|].
    destruct (Hc x Hx) as (l & s & H1 & H2 & ->).
    assert (Reconcile.ac_ContainerID a = cs_ID s ∧ Reconcile.ac_Kind a ≠ Reconcile.ActionRemoveNetwork) as [E Hk].
    { destruct (_ !! _); [destruct (_ || _); [done|]; destruct (decide _); [done|]|]; by destruct Ha as [<-|[]]. }
    split; [|done]. intros _. exists l, s. rewrite E. done.
  - unfold Reconcile.network_actions in Ha. destruct (Hn x Hx) as (d & H1 & H2).
    destruct (negb _ || _) eqn:Eb; [done|]. apply orb_false_iff in Eb as [_ Eb%negb_false_iff%Z.eqb_eq].
    destruct (decide _); [by destruct Ha as [<-|[]]|]. destruct (decide _); [done|]. destruct Ha as [<-|[]].
    split; [done|]. intros _. exists d. split; [done|]. lia.
Qed.
Lemma J_executeAction F a : sound_action F a → J F (executeAction a) any.
Proof using Type.
  intros [Hc Hn]. unfold executeAction. destruct (Reconcile.ac_Kind a) eqn:Ek; try solve [tame].
  - apply J_bind_any; [tame|]. intros _ g Hg. apply J_quietly, J_free. intros r.
    destruct (Hc eq_refl) as (l & s & H1 & H2 & H3 & H4). right. left. exists l, s. split_and!; [by apply Hg|done..].
  - apply J_bind_any; [|tame]. apply J_try, J_free. intros r.
    destruct (Hn eq_refl) as (d & H1 & H2). left. by exists d.
Qed.
Lemma J_execute_actions F actions t : (∀ a, In a actions → sound_action F a) → J F (execute_actions actions t) any.
Proof using Type.
  revert F t. induction actions as [|a l IH]; intros F t Ha; cbn [execute_actions]; [tame|].
  apply J_bind_any; [apply J_executeAction, Ha; by left|]. intros _ g Hg. apply J_bind_any; [tame|]. intros _ g' Hg'.
  apply IH. intros b Hb. eapply sound_action_mono, Ha; [by etrans|by right].
Qed.
Lemma J_refreshHealth F observed rows touched : J F (refreshHealth observed rows touched) any.
Proof using Type. unfold refreshHealth. tame. Qed.
Hint Resolve J_refreshHealth : dock.
Lemma J_Reconcile F : J F docker_Reconcile any.
Proof using Type.
  unfold docker_Reconcile. eapply J_bind; [apply J_gatherReconcile| |done]. intros [g|] h Hh Hs; [|tame].
  destruct (Reconcile.Reconcile _ _ _ _) as [actions stats] eqn:E.
  apply J_bind_any; [apply J_execute_actions|tame].
  intros a Ha. eapply actions_sound; [exact Hs|]. by rewrite E.
Qed.
Lemma J_ListUnadopted F : J F ListUnadopted any.
Proof using Type. unfold ListUnadopted. apply J_bind_any; [by apply J_try, J_free|tame]. Qed.
Lemma J_ListUnadoptedNetworks F : J F ListUnadoptedNetworks any.
Proof using Type. unfold ListUnadoptedNetworks. apply J_bind_any; [by apply J_try, J_free|tame]. Qed.

(** ** The isolation check *)

Lemma throwaway_listener net suf : throwaway (iso_listener net iso_image suf).
Proof using Type. done. Qed.
Lemma throwaway_probe net ip : throwaway (iso_probe net ip iso_image).
Proof using Type. done. Qed.

Lemma J_removeNetwork F side suf :
  (∃ opts, NetworkCreate (iso_net side suf) opts ∅ (Ok tt) ∈ F) → J F (quietly (networkRemove (iso_net side suf))) any.
Proof using Type. intros (opts & Ho). apply J_quietly, J_free. intros r. right. by exists side, suf, opts. Qed.
Lemma J_removeThrowaway F r id : throwaway r → ContainerCreate r (Ok id) ∈ F → J F (quietly (containerRemove id)) any.
Proof using Type. intros Hr Hc. apply J_quietly, J_free. intros x. right. right. by exists r. Qed.

(** What a probe's exit status says. *)
Definition probed (net ip : string) (rc : Z) (h : list docker_call) : Prop :=
  ∃ id, ContainerCreate (iso_probe net ip iso_image) (Ok id) ∈ h ∧ ContainerWait id (Ok rc) ∈ h.
Lemma probed_mono net ip rc h h' : h ⊆ h' → probed net ip rc h → probed net ip rc h'.
Proof using Type. intros Hh (id & H1 & H2). exists id. auto. Qed.
Lemma J_runIsoProbe F net ip : J F (runIsoProbe net ip iso_image) (on_ok (λ g rc, probed net ip rc g)).
Proof using Type.
  unfold runIsoProbe. eapply J_bind; [apply J_containerCreate; left; apply throwaway_probe| |done].
  intros id g Hg Hc. apply J_defer; [|intros g' Hg'; exact (J_removeThrowaway _ _ _ (throwaway_probe net ip) (Hg' _ Hc))| |done].
  - apply (J_bind _ g _ _ any); [exact (J_containerStart _ _ _ Hc)| |done]. intros _ g' Hg' _.
    eapply J_mono; [by apply J_ask|]. intros [rc|e] g2 H2 Hw; [|done]. exists id. split; [by apply H2, Hg'|done].
  - intros [rc|e] g1 g2 Hp Hg2; [by eapply probed_mono|done].
Qed.
Lemma J_positive_control F tries net ip : J F (positive_control tries net ip) (on_ok (λ g b, b = true → probed net ip 0 g)).
Proof using Type.
  revert F. induction tries as [|n IH]; intros F; cbn [positive_control]; [by apply J_ret|].
  eapply J_bind; [apply J_map_ok, J_runIsoProbe| |done].
  - intros rc g Hg Hp. destruct (rc =? 0)%Z eqn:E; [|apply IH]. apply Z.eqb_eq in E as ->.
    apply J_ret. intros g' Hg' _. by eapply probed_mono.
Qed.

(** A listener that has an address. *)
Definition listening (suf ip : string) (h : list docker_call) : Prop :=
  ∃ id insp, ContainerCreate (iso_listener (iso_net "b" suf) iso_image suf) (Ok id) ∈ h ∧
             ContainerInspect id (Ok insp) ∈ h ∧ ct_Networks insp !! iso_net "b" suf = Some ip.
Lemma listening_mono suf ip h h' : h ⊆ h' → listening suf ip h → listening suf ip h'.
Proof using Type. intros Hh (id & insp & H1 & H2 & H3). exists id, insp. auto. Qed.
Lemma J_startIsoListener F suf :
  J F (startIsoListener (iso_net "b" suf) iso_image suf) (on_ok (λ g '(id, r),
    (id ≠ "" → ContainerCreate (iso_listener (iso_net "b" suf) iso_image suf) (Ok id) ∈ g) ∧
    match r with Ok ip => listening suf ip g | Err _ => True end)).
Proof using Type.
  unfold startIsoListener.
  eapply (J_bind _ F _ _ (λ r g, match r with Ok r => ContainerCreate (iso_listener (iso_net "b" suf) iso_image suf) r ∈ g | Err _ => True end));
    [apply J_try, J_containerCreate; left; apply throwaway_listener| |done].
  intros [id|e] g Hg Hc; [|by apply J_ret].
  eapply (J_bind _ g _ _ (λ r g, match r with Ok (Ok ip) => listening suf ip g | _ => True end)); [| |done].
  - apply J_try. apply (J_bind _ g _ _ any); [exact (J_containerStart _ _ _ Hc)| |done]. intros _ g1 H1 _.
    eapply (J_bind _ g1 _ _ (on_ok (λ g d, ContainerInspect id (Ok d) ∈ g))); [| |done].
    { eapply J_mono; [by apply J_ask|]. by intros []. }
    intros insp g2 H2 Hi. destruct (ct_Networks insp !! _) as [ip|] eqn:E; [|by apply J_throw].
    destruct (decide _); [by apply J_throw|]. apply J_ret. intros g3 H3. exists id, insp.
    split_and!; [by apply H3, H2, H1|by apply H3|done].
  - intros r g1 H1 Hr. apply J_ret. intros g2 H2. split; [intros _; by apply H2, H1|].
    destruct r as [ip|e]; [by eapply listening_mono|done].
Qed.
Lemma J_cross_check F suf ipB :
  match ipB with Ok ip => listening suf ip F | Err _ => True end →
  J F (cross_check (iso_net "a" suf) (iso_net "b" suf) ipB) (on_ok (λ g b, b = true → passed g)).
Proof using Type.
  intros Hl. unfold cross_check. destruct ipB as [ip|e]; [|by apply J_throw].
  eapply J_bind; [apply J_positive_control| |done]. intros [] g Hg Hp; cbn [negb]; [|by apply J_throw].
  eapply J_bind; [apply J_map_ok, J_runIsoProbe| |done].
  intros rc g1 H1 Hx. apply J_ret. intros g2 H2 Hrc%negb_true_iff%Z.eqb_neq.
  apply (listening_mono _ _ _ g2) in Hl as (id & insp & L1 & L2 & L3); [|set_solver].
  apply (probed_mono _ _ _ _ g2) in Hx as (far & X1 & X2); [|done].
  apply (probed_mono _ _ _ _ g2) in Hp as (near & P1 & P2); [|set_solver|done].
  constructor. by exists suf, id, insp, ip, near, far, rc.
Qed.
Lemma pass_mono : ∀ (r : res bool) (g g' : list docker_call),
  (on_ok (λ g b, b = true → passed g)) r g → g ⊆ g' → (on_ok (λ g b, b = true → passed g)) r g'.
Proof using Type. intros [b|e] g g' Hp Hg; [|done]. intros Hb. by eapply passed_mono, Hp. Qed.
Lemma J_createIsoNetwork F side suf :
  J F (createIsoNetwork (iso_net side suf)) (on_ok (λ g _, ∃ opts, NetworkCreate (iso_net side suf) opts ∅ (Ok tt) ∈ g)).
Proof using Type.
  eapply J_mono; [apply J_ask|].
  - intros r. right. split_and!; [done|by exists side, suf|done].
  - intros [[]|e] g Hg Hc; [by eexists|done].
Qed.
Lemma J_VerifyIsolation F : J F VerifyIsolation (on_ok (λ g b, b = true → passed g)).
Proof using Type.
  unfold VerifyIsolation. apply (J_bind _ F _ _ any); [tame| |done]. intros _ g1 H1 _.
  apply (J_bind _ g1 _ _ any); [tame| |done]. intros id g2 H2 _. cbv zeta. set (suf := last_n 8 (uuid_String id)).
  eapply J_bind; [apply J_map_ok, (J_createIsoNetwork _ "a")| |done].
  intros [] g3 H3 Ha. apply J_defer; [| |apply pass_mono|done].
  2: { intros g Hg. apply J_removeNetwork. destruct Ha as (o & Ha). exists o. by apply Hg. }
  eapply J_bind; [apply J_map_ok, (J_createIsoNetwork _ "b")| |done].
  intros [] g4 H4 Hb. apply J_defer; [| |apply pass_mono|done].
  2: { intros g Hg. apply J_removeNetwork. destruct Hb as (o & Hb). exists o. by apply Hg. }
  eapply J_bind; [apply J_startIsoListener| |done]. intros [lid ipB] g5 H5 [Hl Hi].
  destruct (decide _) as [E|E]; [by apply J_cross_check|].
  apply J_defer; [by apply J_cross_check| |apply pass_mono|done].
  intros g Hg. exact (J_removeThrowaway _ _ _ (throwaway_listener _ _) (Hg _ (Hl E))).
Qed.
End Runtime.
