(* ===== verification/DockerSystem.v ===== *)
(** * The platform and its Docker daemon

    The instance manager, the scheduler and the loops of the server over the Docker runtime:
    what the platform asks of the daemon when any of them run at the same time. *)

From Stdlib Require Import Ascii.
From S2P Require Import Prelude Interleave Text Env Demo Store Events Runtime Instances FakeRuntime Docker Scheduler SchedulerSpec Sweeps DockerRules.
From S2P Require Reconcile.

Section System.
Context `{Libs} `{DockerDaemon} (Gated : Prop).
#[local] Existing Instance DockerRuntime.
Abbreviation J := (J Gated).
Abbreviation any := (λ _ _, True).
Abbreviation on_ok Q := (λ r g, match r with Ok a => Q g a | Err _ => True end).
Hint Resolve J_say J_warn J_Status J_Stop J_Logs J_removeByLabel J_Destroy J_Reconcile J_ListUnadopted J_ListUnadoptedNetworks : dock.

Lemma J_rt_Stop F id : J F (rt_Stop id) any.
Proof using Type. apply J_Stop. Qed.
Lemma J_rt_Destroy F id : J F (rt_Destroy id) any.
Proof using Type. apply J_Destroy. Qed.
Lemma J_rt_Status F id : J F (rt_Status id) any.
Proof using Type. apply J_Status. Qed.
Lemma J_rt_Logs F id tail : J F (rt_Logs id tail) any.
Proof using Type. apply J_Logs. Qed.
Lemma J_rt_Reconcile F : J F rt_Reconcile any.
Proof using Type. apply J_Reconcile. Qed.
Hint Resolve J_rt_Stop J_rt_Destroy J_rt_Status J_rt_Logs J_rt_Reconcile : dock.

(** ** The gate *)

(** Looking at the state: the thread learns every call that was made. *)
Lemma J_look {A} F (f : World → A) (Q : res A → list docker_call → Prop) :
  (∀ w, gate_kept Gated w → Q (Ok (f w)) (calls (w_out w))) → J F (atomic (gets f)) Q.
Proof using Type.
  intros HQ g Hg. apply holds_atomic. intros gs w (H1 & H2 & H3). inv H2. exists (calls (w_out w)).
  cbn [fst snd gets]. split_and!; [|done|done|by apply HQ]. split_and!; [done|by constructor|done].
Qed.

Lemma silent_CompareAndSwap_warn last now : silent (CompareAndSwap_warn last now).
Proof using Type. intros w. unfold CompareAndSwap_warn. by case_decide. Qed.
Hint Resolve silent_CompareAndSwap_warn : dock.
Lemma J_throttledSecWarn F msg : J F (throttledSecWarn msg) any.
Proof using Type. unfold throttledSecWarn. tame. Qed.

(** Behind the gate the isolation check has succeeded. *)
Lemma J_isolationGate F : J F isolationGate (on_ok (λ g _, gate_passed Gated g)).
Proof using Type.
  unfold isolationGate. eapply (J_bind _ F _ _ (on_ok (λ g b, Gated → b = true))); [| |done].
  { apply J_look. intros w Hw HG. by apply Hw. }
  intros [] g Hg Ha; cbn [negb]; [|apply J_ret; intros g' _ HG; by specialize (Ha HG)].
  eapply (J_bind _ g _ _ (on_ok (λ g v, Gated → v = isolationEnforced → passed g))); [| |done].
  { apply J_look. intros w Hw HG. by apply Hw. }
  assert (∀ g1 : list docker_call, J g1
    (allow ← atomic (gets (λ w, allowUnisolated (w_mgr w)));
     if allow : bool then throttledSecWarn "SECURITY: starting a container instance WITHOUT enforced per-team network isolation (OSCTF_ALLOW_UNISOLATED_INSTANCES is set). One team can reach another team's instance. This must not be a real event."
     else throttledSecWarn "refused a container deploy: per-team network isolation is not enforced on this Docker daemon and OSCTF_ALLOW_UNISOLATED_INSTANCES is not set (docs/v0.2/03-runtime.md).";;
          throw (Unavailable isolationRefusalDetail 0)) (on_ok (λ g _, gate_passed Gated g))) as Hrest.
  { intros g1. eapply (J_bind _ g1 _ _ (on_ok (λ g b, Gated → b = false))); [| |done].
    { apply J_look. intros w Hw HG. by apply Hw. }
    intros [] g2 H2 Hb.
    - eapply J_mono; [apply J_throttledSecWarn|]. intros [u|e] g3 _ _; [|done]. intros HG. by specialize (Hb HG).
    - apply (J_bind _ g2 _ _ any); [apply J_throttledSecWarn| |done]. intros _ g3 _ _. by apply J_throw. }
  intros [] g1 H1 Hv; [apply Hrest| |apply Hrest].
  apply J_ret. intros g2 H2 HG. eapply passed_mono, Hv; done.
Qed.
Lemma J_RecordIsolationVerdict F b : (b = true → passed F) → J F (RecordIsolationVerdict b) any.
Proof using Type.
  intros Hb g Hg. apply holds_atomic. intros gs w (H1 & H2 & H3). exists g. cbn. split_and!; [|done..].
  split_and!; [done..|]. intros HG. destruct (H3 HG) as (E1 & E2 & _). cbn. split_and!; [done..|].
  destruct b; [|done]. intros _. inv H2. eapply passed_mono, Hb; [set_solver|done].
Qed.
Lemma J_boot F : J F boot_isolation_check any.
Proof using Type.
  unfold boot_isolation_check. eapply (J_bind _ F _ _ (λ r g, match r with Ok (Ok true) => passed g | _ => True end)).
  - apply J_try. eapply J_mono; [apply J_VerifyIsolation|]. intros [[]|e] g Hg Hp; auto.
  - intros [[]|e] g Hg Hp; [| |tame]; (apply J_bind_any; [by apply J_RecordIsolationVerdict|tame]).
  - done.
Qed.

(** ** The manager *)

Context (portStart portEnd : Z).

Lemma J_getContainerChallenge F ch : J F (getContainerChallenge ch) any.
Proof using Type. unfold getContainerChallenge. tame. Qed.
Lemma J_or_absent {A} F prefix (m : M World A) : silent m → J F (or_absent prefix m) any.
Proof using Type. intros Hm. unfold or_absent. tame. Qed.
Lemma J_try_ports F ports used ch team flag exp net : J F (try_ports portStart portEnd ports used ch team flag exp net) any.
Proof using Type. revert F. induction ports as [|p l IH]; intros F; cbn [try_ports]; tame. Qed.
Lemma J_allocateRow F ch team flag exp net : J F (allocateRow portStart portEnd ch team flag exp net) any.
Proof using Type. unfold allocateRow. apply J_bind_any; [tame|]. intros. apply J_try_ports. Qed.
Hint Resolve J_getContainerChallenge J_or_absent J_allocateRow : dock.
Lemma J_ensureSharedRow F ch : J F (ensureSharedRow portStart portEnd ch) any.
Proof using Type. unfold ensureSharedRow. tame. Qed.
Lemma J_ensureTeamRow F ch req : J F (ensureTeamRow portStart portEnd ch req) any.
Proof using Type. unfold ensureTeamRow. tame. Qed.
Hint Resolve J_ensureSharedRow J_ensureTeamRow : dock.

Lemma J_Manager_Deploy F ch : gate_passed Gated F → J F (Runtime.Deploy portStart portEnd ch) any.
Proof using Type.
  intros HG. unfold Runtime.Deploy. apply J_bind_any; [tame|]. intros c g1 H1. apply J_bind_any; [tame|]. intros row g2 H2.
  case_decide; [tame|]. apply J_Deploy; [done|]. intros HGt. eapply passed_mono, HG, HGt. by etrans.
Qed.
Lemma J_DeployForTeam F req : J F (DeployForTeam portStart portEnd req) any.
Proof using Type.
  unfold DeployForTeam. eapply J_bind; [apply J_isolationGate| |done]. intros u g1 H1 HG.
  apply J_bind_any; [tame|]. intros c g2 H2. apply J_bind_any; [tame|]. intros row g3 H3.
  case_decide; [tame|]. apply J_Deploy; [done|]. intros HGt. eapply passed_mono, HG, HGt. by etrans.
Qed.
Lemma J_shared_row F ch : J F (shared_row ch) any.
Proof using Type. unfold shared_row. tame. Qed.
Lemma J_DestroyInstance F id : J F (DestroyInstance id) any.
Proof using Type. unfold DestroyInstance. tame. Qed.
Hint Resolve J_DeployForTeam J_shared_row J_DestroyInstance : dock.
Lemma J_Manager_Restart F ch : gate_passed Gated F → J F (Runtime.Restart portStart portEnd ch) any.
Proof using Type.
  intros HG. unfold Runtime.Restart. apply J_bind_any; [tame|]. intros row g1 H1. apply J_bind_any; [tame|]. intros _ g2 H2.
  apply J_Manager_Deploy. intros HGt. eapply passed_mono, HG, HGt. by etrans.
Qed.
Lemma J_Manager_Destroy F ch : J F (Runtime.Destroy ch) any.
Proof using Type. unfold Runtime.Destroy. tame. Qed.
Hint Resolve J_Manager_Destroy : dock.
Lemma J_DestroyForChallenge F ch : J F (DestroyForChallenge ch) any.
Proof using Type. unfold DestroyForChallenge. tame. Qed.
Lemma J_Manager_Logs F ch tail : J F (Runtime.Logs ch tail) any.
Proof using Type. unfold Runtime.Logs. tame. Qed.
Lemma J_refresh F row : J F (refresh row) any.
Proof using Type. unfold refresh. tame. Qed.
Hint Resolve J_refresh : dock.
Lemma J_Manager_Get F ch : J F (Runtime.Get ch) any.
Proof using Type. unfold Runtime.Get. tame. Qed.
Hint Resolve J_DestroyForChallenge J_Manager_Logs J_Manager_Get J_boot : dock.

(** ** The scheduler *)

Context (cfg : Config) (prefix : string).

Lemma J_refTeamLock F t : J F (refTeamLock t) any.
Proof using Type.
  apply J_atomic. intros w. unfold refTeamLock_step.
  by destruct (teamMu (w_sched w) !! t); cbn.
Qed.
Lemma J_release F r : J F (release r) any.
Proof using Type. apply J_atomic, silent_modify. intros w. done. Qed.
Lemma J_recv F c : J F (recv c) any.
Proof using Type.
  apply J_blocking. intros w a w' (w1 & E & [= _ ->])%fmap_Some. unfold try_recv in E.
  destruct (w_chans w !! c); [|done]. destruct (_ =? _)%nat; by simplify_eq.
Qed.
Lemma try_send_rest c w w' : try_send c w = Some w' → w_out w' = w_out w ∧ w_mgr w' = w_mgr w.
Proof using Type. unfold try_send. destruct (w_chans w !! c); [|done]. destruct (chan_full _); intros; by simplify_eq. Qed.
Lemma J_send F c : J F (send c) any.
Proof using Type. apply J_blocking. intros w a w' (w1 & E & [= _ ->])%fmap_Some. by eapply try_send_rest. Qed.
Lemma J_send_or_done F c : J F (send_or_done c) any.
Proof using Type.
  apply J_blocking. intros w a w' E. unfold next_fault in E.
  destruct (w_faults w) as [|[] fs]; simplify_eq; [|done|];
    apply fmap_Some in E as (w1 & E & [= _ ->]); by eapply try_send_rest in E.
Qed.
Lemma J_send_or_default F c : J F (send_or_default c) any.
Proof using Type.
  apply J_blocking. intros w a w' E. destruct (try_send c w) eqn:Es; simplify_eq; [by eapply try_send_rest|done].
Qed.
Hint Resolve J_refTeamLock J_release J_recv J_send J_send_or_done J_send_or_default : dock.
Lemma J_unlock F r : J F (unlock r) any.
Proof using Type. unfold unlock. tame. Qed.
Lemma J_lockTeam F t : J F (lockTeam t) any.
Proof using Type. unfold lockTeam. tame. Qed.
Lemma J_tryLockTeam F t : J F (tryLockTeam t) any.
Proof using Type. unfold tryLockTeam. tame. Qed.
Hint Resolve J_unlock J_lockTeam J_tryLockTeam : dock.
Lemma J_with_team_lock {A} F t (body : P World A) : (∀ g, F ⊆ g → J g body any) → J F (with_team_lock t body) any.
Proof using Type. intros Hb. unfold with_team_lock. tame. Qed.
Lemma silent_audit_Log actor action st sid meta : silent (audit_Log actor action st sid meta).
Proof using Type. unfold audit_Log. tame. Qed.
Lemma J_requireRunning F : J F requireRunning any.
Proof using Type. unfold requireRunning, Events.Get, Phase_. tame. Qed.
Lemma J_flags_New F : J F (flags_New prefix) any.
Proof using Type. unfold flags_New. tame. Qed.
Lemma J_ttlFor F ch : J F (ttlFor cfg ch) any.
Proof using Type. unfold ttlFor. tame. Qed.
Hint Resolve silent_audit_Log J_requireRunning J_flags_New J_ttlFor : dock.
Lemma J_Start F actor t ch : J F (Start portStart portEnd cfg prefix actor t ch) any.
Proof using Type.
  apply J_with_team_lock. intros g _. unfold Start_locked, ManagerGetTeamInstance, CountTeamRunning. tame.
Qed.
Lemma J_Scheduler_Stop F actor t ch : J F (Scheduler.Stop actor t ch) any.
Proof using Type. apply J_with_team_lock. intros g _. unfold Stop_locked, ManagerGetTeamInstance. tame. Qed.
Lemma J_Extend F t ch : J F (Extend cfg t ch) any.
Proof using Type. apply J_with_team_lock. intros g _. unfold Extend_locked, ManagerGetTeamInstance. tame. Qed.
Lemma J_destroyLocked F t id wait el : J F (destroyLocked t id wait el) any.
Proof using Type. unfold destroyLocked, destroy_checked. tame. Qed.
Lemma J_next_offset F : J F next_offset any.
Proof using Type. by apply J_atomic. Qed.
Hint Resolve J_Start J_Scheduler_Stop J_Extend J_destroyLocked J_next_offset : dock.
Lemma J_reap_rows F rows n : J F (reap_rows rows n) any.
Proof using Type. revert F n. induction rows as [|r l IH]; intros F n; cbn [reap_rows]; tame. Qed.
Hint Resolve J_reap_rows : dock.
Lemma J_expiry_tick F : J F (expiry_tick cfg (mret tt)) any.
Proof using Type. unfold expiry_tick, ExpireOnce, expire_row, ReapStaleOnce, ListStale, refreshGauge. tame. Qed.
Lemma J_wg_Add F g d : J F (wg_Add g d) any.
Proof using Type. by apply J_atomic, silent_modify. Qed.
Lemma J_wg_Wait F g : J F (wg_Wait g) any.
Proof using Type. apply J_blocking. intros w a w' E. by case_decide; simplify_eq. Qed.
Lemma J_new_wg F : J F new_wg any.
Proof using Type. by apply J_atomic. Qed.
Lemma J_make_chan F n : J F (make_chan n) any.
Proof using Type. by apply J_atomic. Qed.
Hint Resolve J_expiry_tick J_wg_Add J_wg_Wait J_new_wg J_make_chan : dock.
Lemma J_CleanupEnded F : J F CleanupEnded any.
Proof using Type. unfold CleanupEnded, cleanup_row, wg_Done, Events.Get, Phase_. tame. Qed.
Hint Resolve J_CleanupEnded : dock.

(** ** The platform *)

(** What can run at the same time: the operations of the scheduler and of the manager, the
    isolation check, and what the admin pages read. *)
Inductive task :=
  | Operation (o : op)
  | BootCheck
  | FleetView
  | ReadLogs (challenge : uuid) (tail : Z)
  | ReadInstance (challenge : uuid).
Definition task_prog (t : task) : prog World unit :=
  match t with
  | Operation o => denote portStart portEnd cfg prefix (mret tt) o
  | BootCheck => forget boot_isolation_check
  | FleetView => forget (ListUnadopted;; ListUnadoptedNetworks)
  | ReadLogs ch tail => forget (Runtime.Logs ch tail)
  | ReadInstance ch => forget (Runtime.Get ch)
  end.
(** The shared instance of a challenge is not behind the gate. *)
Definition deploys_shared (t : task) : bool :=
  match t with Operation (OpDeployShared _) | Operation (OpRestartShared _) => true | _ => false end.

Lemma J_task t : (Gated → deploys_shared t = false) → J [] (task_prog t) any.
Proof using Type.
  intros Ht. destruct t as [o| | | |]; [|apply J_forget; tame..].
  destruct o; apply J_forget; try solve [tame]; (* the shared instance *)
    first [apply J_Manager_Deploy|apply J_Manager_Restart]; intros HG; by specialize (Ht HG).
Qed.

(** The calls of any number of tasks, however they are interleaved. *)
Lemma tasks_good ts w ps w' :
  (Gated → Forall (λ t, deploys_shared t = false) ts) → calls (w_out w) = [] → gate_kept Gated w →
  rtc pool_step (task_prog <$> ts, w) (ps, w') → good Gated (calls (w_out w')).
Proof using Type.
  intros Hts Hw Hgate Hr.
  destruct (holds_pool (λ _, True) (Inv Gated) (λ _ _, True)) with (ps:=task_prog <$> ts) (gs:=replicate (length ts) ([] : list docker_call))
    (s:=w) (ps':=ps) (s':=w') as (gs & _ & (Hg & _) & _); [| | |exact Hr|exact Hg].
  - intros gs gs' s Hp (H1 & H2 & H3). split_and!; [done|by rewrite <- Hp|done].
  - clear Hr. induction ts as [|t ts IH]; simpl; [by constructor|]. constructor.
    + eapply holds_mono; [apply (J_task t); [|reflexivity]|done]. intros HG. by specialize (Hts HG); inv Hts.
    + apply IH. intros HG. by specialize (Hts HG); inv Hts.
  - split_and!; [|apply Forall_replicate; by intros x Hx%not_elem_of_nil|done]. rewrite Hw. by intros n c [=].
Qed.
End System.

Lemma just_weaken (G G' : list docker_call → Prop) `{Libs} `{DockerDaemon} h c :
  (∀ h, G h → G' h) → justified_call G h c → justified_call G' h c.
Proof. intros HG. destruct c; cbn [justified_call]; naive_solver. Qed.

Section Theorems.
Context `{Libs} `{DockerDaemon} (portStart portEnd : Z) (cfg : Config) (prefix : string).

(** C34: Whatever the Docker daemon answers, and whatever operations of the platform run at the
    same time — teams starting, stopping and extending instances, the admin's deploys,
    restarts and removals, the expiry, clean-up and reconcile loops, the isolation check —
    every call made to the daemon is justified by an earlier answer: a container is
    removed only if it was listed under an instance's label, or as one of the platform's
    with an instance id, or was created by the isolation check; a network only if it was
    inspected and had no container attached, or is one of the isolation check; only a container just created is
    started; an image is pulled only after it was not found; and every challenge
    container is created with all capabilities dropped, no new privileges, a limit on
    processes, no swap, a read-only root, one network, and the labels it is found by. *)
Theorem docker_calls_justified ts w ps w' n c :
  calls (w_out w) = [] →
  rtc pool_step (task_prog portStart portEnd cfg prefix <$> ts, w) (ps, w') →
  calls (w_out w') !! n = Some c →
  justified_call (λ _, True) (take n (calls (w_out w'))) c.
Proof.
  intros Hw Hr Hn. assert (good False (calls (w_out w'))) as Hg.
  { eapply tasks_good; [by intros []|done|by intros []|exact Hr]. }
  exact (just_weaken (gate_passed False) _ _ _ (λ _ _, I) (Hg n c Hn)).
Qed.

(** C35: On a server that checks isolation and was not told to do without, no team's container is
    created before the check has succeeded: when one is, a listener had been started on
    one bridge, a probe on the same bridge had reached it, and a probe on another bridge had not.
    Whatever the daemon answers, and however the check interleaves with the teams' starts, the
    scheduler's loops and the reconcile loop. *)
Theorem team_containers_wait_for_isolation ts w ps w' n r x :
  gateArmed (w_mgr w) = true → allowUnisolated (w_mgr w) = false → isolation (w_mgr w) = isolationUnknown →
  calls (w_out w) = [] → Forall (λ t, deploys_shared t = false) ts →
  rtc pool_step (task_prog portStart portEnd cfg prefix <$> ts, w) (ps, w') →
  calls (w_out w') !! n = Some (ContainerCreate r x) → hardened r →
  passed (take n (calls (w_out w'))).
Proof.
  intros Ha Hallow Hi Hw Hts Hr Hn Hh.
  assert (good True (calls (w_out w'))) as Hg.
  { apply (tasks_good True portStart portEnd cfg prefix ts w ps w'); [done|done| |exact Hr]. intros _. by rewrite Hi. }
  destruct (Hg n _ Hn) as [Ht|[_ Hp]]; [|by apply Hp].
  destruct Ht as [Hl _]. destruct Hh as [Hm]. by rewrite Hl in Hm.
Qed.
End Theorems.

(** ** A run *)

(** A daemon that isolates: what it says of a container follows from the request that created it. *)
Definition request_of (w : World) (id : string) : option container_request :=
  head (omap (λ c, match c with ContainerCreate r (Ok i) => if decide (i = id) then Some r else None | _ => None end)
             (calls (w_out w))).
Definition listener_nets (w : World) : list string :=
  default [] (head (omap (λ c, match c with
    | ContainerCreate r (Ok _) => if decide (cr_ExposedPorts r = ["9/tcp"]) then Some (cr_Networks r) else None
    | _ => None end) (calls (w_out w)))).
Definition demo_daemon : DockerDaemon :=
  {| says_NetworkList := λ _ _ _, Ok []; says_NetworkInspect := λ _ _, Err (ErrOther "no such network");
     says_NetworkCreate := λ _ _ _ _, Ok tt; says_NetworkRemove := λ _ _, Ok tt;
     says_ImageInspect := λ _ _, Ok tt; says_ImagePull := λ _ _, Ok tt;
     says_ContainerList := λ _ _ _, Ok [];
     says_ContainerInspect := λ id w, match request_of w id with
       | Some r => Ok {| ct_Running := true; ct_Health := None;
                         ct_Networks := list_to_map ((λ n, (n, "10.0.0.2")) <$> cr_Networks r) |}
       | None => Err (ErrOther "no such container") end;
     says_ContainerCreate := λ r w, Ok ("c" +:+ Itoa (Z.of_nat (length (calls (w_out w)))));
     says_ContainerStart := λ _ _, Ok tt; says_ContainerStop := λ _ _ _, Ok tt; says_ContainerRemove := λ _ _, Ok tt;
     says_ContainerLogs := λ _ _ _, Ok [];
     says_ContainerWait := λ id w, match request_of w id with
       | Some r => Ok (if decide (cr_Networks r = listener_nets w) then 0%Z else 1%Z)
       | None => Err (ErrOther "no such container") end;
     IsErrConnectionFailed := λ _, false; IsNotFound := λ _, false; error_text := λ _, "error" |}.

Section Demo.
#[local] Existing Instance demo_libs.
#[local] Existing Instance demo_daemon.

Definition armed_world : World :=
  set_mgr {| gateArmed := true; allowUnisolated := false; isolation := isolationUnknown;
             lastUnisoWarn := 0; secLog := false |} (demo_world demo_db 1000).
(** The server checks isolation, then a team starts its instance. *)
Definition demo_tasks : list task := [BootCheck; Operation (OpStart 11%N 21%N 31%N)].
Definition demo_run : list (prog World unit) * World :=
  advances [(0, 60); (1, 60)] (task_prog 30000 30001 demo_cfg "osctf" <$> demo_tasks) armed_world.
Abbreviation demo_calls := (calls (w_out demo_run.2)).
Lemma demo_run_steps : rtc pool_step (task_prog 30000 30001 demo_cfg "osctf" <$> demo_tasks, armed_world) (demo_run.1, demo_run.2).
Proof. rewrite <- surjective_pairing. apply advances_sound. Qed.

(** The listener of the check is removed. *)
Lemma docker_calls_justified_witness :
  demo_calls !! 14 = Some (ContainerRemove "c3" (Ok tt)) ∧
  justified_call (λ _, True) (take 14 demo_calls) (ContainerRemove "c3" (Ok tt)).
Proof.
  assert (demo_calls !! 14 = Some (ContainerRemove "c3" (Ok tt))) as E by (vm_compute; reflexivity).
  split; [exact E|].
  exact (docker_calls_justified 30000 30001 demo_cfg "osctf" demo_tasks armed_world demo_run.1 demo_run.2 14 _
    eq_refl demo_run_steps E).
Defined.

Lemma team_container : ∃ r x, demo_calls !! 21 = Some (ContainerCreate r x) ∧ hardened r ∧ cr_Image r = "img".
Proof.
  eexists _, _. split; [vm_compute; reflexivity|]. split; [|reflexivity].
  split; try (vm_compute; reflexivity); [exists 101%N; vm_compute; reflexivity|apply list_elem_of_here|].
  apply (bool_decide_eq_true_1 _). vm_compute. reflexivity.
Qed.
(** The team's container, after the check. *)
Lemma team_containers_wait_for_isolation_witness :
  ∃ r x, demo_calls !! 21 = Some (ContainerCreate r x) ∧ cr_Image r = "img" ∧ passed (take 21 demo_calls).
Proof.
  destruct team_container as (r & x & E & Hh & Hi). exists r, x. split; [exact E|]. split; [exact Hi|].
  refine (team_containers_wait_for_isolation 30000 30001 demo_cfg "osctf" demo_tasks armed_world demo_run.1 demo_run.2 21 r x
    eq_refl eq_refl eq_refl eq_refl _ demo_run_steps E Hh).
  repeat constructor.
Defined.
End Demo.
