(* ===== verification/DockerLife.v ===== *)
(** * What the operations of the Docker runtime achieve

    Deploying settles the row; the isolation check leaves nothing behind; the runtime keeps
    its side of the interface the manager and the sweeps rely on. *)

From Stdlib Require Import Ascii.
From S2P Require Import Prelude Interleave Text Env Demo Store Runtime Instances FakeRuntime Docker Scheduler SchedulerSpec Sweeps DockerRules DockerSystem.
From S2P Require Reconcile.

(** ** Programs that only ask *)

(** Nothing but the outputs has changed. *)
Definition later (w w' : World) : Prop := ∃ out, w' = set_out (w_out w ++ out) w.
#[export] Instance later_preorder : PreOrder later.
Proof.
  split.
  - intros w. exists []. destruct w; unfold set_out; cbn. by rewrite app_nil_r.
  - intros w1 w2 w3 (o1 & ->) (o2 & ->). exists (o1 ++ o2). destruct w1; cbn. by rewrite app_assoc.
Qed.
Lemma later_calls w w' c : later w w' → c ∈ calls (w_out w) → c ∈ calls (w_out w').
Proof. intros (o & ->). cbn. rewrite calls_app. set_solver. Qed.

Section Asks.
Context `{Libs} `{DockerDaemon}.

Definition asks {A} (p : P World A) : Prop := ∀ w, wp p (λ _ w', later w w') w.
Lemma asks_ret {A} (a : A) : asks (mret a).
Proof using Type. intros w. apply wp_ret. reflexivity. Qed.
Lemma asks_throw {A} e : asks (throw e : P World A).
Proof using Type. intros w. apply wp_throw. reflexivity. Qed.
Lemma asks_bind {A B} (p : P World A) (k : A → P World B) : asks p → (∀ a, asks (k a)) → asks (p ≫= k).
Proof using Type.
  intros Hp Hk w. apply wp_bind. eapply wp_mono; [apply Hp|]. intros [a|e] w1 H1; [|done].
  eapply wp_mono; [apply Hk|]. intros r w2 H2. by etrans.
Qed.
Lemma asks_try {A} (p : P World A) : asks p → asks (try p).
Proof using Type. intros Hp w. apply wp_try, Hp. Qed.
Lemma asks_map_err {A} f (p : P World A) : asks p → asks (map_err f p).
Proof using Type. intros Hp. apply asks_bind; [by apply asks_try|]. intros [a|e]; [apply asks_ret|apply asks_throw]. Qed.
Lemma asks_for_each {A} (f : A → P World unit) l : (∀ a, asks (f a)) → asks (for_each f l).
Proof using Type. intros Hf. induction l as [|a l IH]; [apply asks_ret|]. by apply asks_bind. Qed.
Lemma asks_ask {A} (call : res A → docker_call) (says : World → res A) : asks (ask call says).
Proof using Type. intros w. apply wp_atomic. by eexists. Qed.
Lemma asks_warn msg : asks (warn msg).
Proof using Type. intros w. apply wp_atomic. by eexists. Qed.
Lemma asks_quietly {A} (p : P World A) : asks p → asks (quietly p).
Proof using Type. intros Hp. apply asks_bind; [by apply asks_try|]. intros _. apply asks_ret. Qed.

Lemma asks_ensureImage ref : asks (ensureImage ref).
Proof using Type.
  apply asks_bind; [apply asks_try, asks_ask|]. intros [u|e]; [apply asks_ret|apply asks_map_err, asks_ask].
Qed.
Lemma asks_removeByLabel id : asks (removeByLabel id).
Proof using Type.
  apply asks_bind; [apply asks_try, asks_ask|]. intros [l|e]; [|apply asks_ret].
  apply asks_for_each. intros c. apply asks_quietly, asks_ask.
Qed.
Lemma asks_keep_network name noEgress nets : asks (keep_network name noEgress nets).
Proof using Type.
  induction nets as [|n nets IH]; cbn [keep_network]; [apply asks_ret|]. destruct (negb _); [done|].
  apply asks_bind.
  - destruct noEgress; [|apply asks_ret]. apply asks_bind; [apply asks_try, asks_ask|]. intros r. apply asks_ret.
  - intros []; [|apply asks_ret]. apply asks_bind; [apply asks_try, asks_ask|].
    intros [u|e]; [apply asks_ret|]. apply asks_bind; [apply asks_warn|]. intros _. apply asks_ret.
Qed.
Lemma asks_ensureNamedNetwork name noEgress team : asks (ensureNamedNetwork name noEgress team).
Proof using Type.
  apply asks_bind; [apply asks_ask|]. intros nets. apply asks_bind; [apply asks_keep_network|].
  intros []; [apply asks_ret|apply asks_ask].
Qed.

(** ** Deploying *)

(** What a container can be graded as. *)
Definition graded (s : State) : Prop := s = StateRunning ∨ s = StateUnhealthy ∨ s = StateStopped ∨ s = StateError.
Lemma health_run id w : wp (health id) (λ r w', later w w' ∧ ∃ s, r = Ok s ∧ graded s) w.
Proof using Type.
  unfold health. apply wp_bind, wp_try, wp_atomic. cbn. split; [by eexists|]. unfold graded.
  destruct (says_ContainerInspect id w) as [d|e]; [|by eauto 8].
  destruct (ct_Running d); cbn; [|by eauto 8]. destruct (ct_Health d) as [h|]; [|by eauto 8].
  case_bool_decide; eauto 8.
Qed.
Lemma UpdateInstance_nofault id p w i :
  w_faults w = [] → instances (w_db w) !! id = Some i →
  UpdateInstance id p w =
    (Ok (updated_instance (w_dbnow w) p i),
     set_db (set_instances (<[id := updated_instance (w_dbnow w) p i]> (instances (w_db w))) (w_db w)) w).
Proof using Type. intros Hf Hi. unfold UpdateInstance. rewrite query_nofault by done. by rewrite Hi. Qed.

(** The row of the instance is settled, and no other row changed: it holds the container that was created and
    started, in the state it was graded; or the error; or, when the error says that the
    runtime is unavailable, it is as it was. *)
Definition deploy_outcome (spec : InstanceSpec) (w : World) (r : res Instance) (w' : World) : Prop :=
  let id := is_InstanceID spec in
  match r with
  | Ok inst => ∃ row cid, inst = rowToInstance row ∧
      instances (w_db w') = <[id := row]> (instances (w_db w)) ∧
      i_ContainerID row = Some cid ∧ i_Error row = None ∧ is_Some (i_StartedAt row) ∧ graded (i_State row) ∧
      ContainerCreate (challenge_container spec (spec_network spec)) (Ok cid) ∈ calls (w_out w') ∧
      ContainerStart cid (Ok tt) ∈ calls (w_out w')
  | Err e =>
      if IsUnavailable e then instances (w_db w') = instances (w_db w)
      else ∃ row, instances (w_db w') = <[id := row]> (instances (w_db w)) ∧
                  i_State row = StateError ∧ i_Error row = Some (error_text e)
  end.

Lemma asks_then {A B} (p : P World A) (k : A → P World B) (Q : res B → World → Prop) w0 w :
  asks p → later w0 w → (∀ a w1, later w0 w1 → wp (k a) Q w1) → (∀ e w1, later w0 w1 → Q (Err e) w1) → wp (p ≫= k) Q w.
Proof using Type.
  intros Hp Hl Hk He. apply wp_bind. eapply wp_mono; [apply Hp|]. intros [a|e] w1 H1; [apply Hk|apply He]; by etrans.
Qed.
Lemma ask_then {A B} f (call : res A → docker_call) (says : World → res A) (k : A → P World B) (Q : res B → World → Prop) w0 w :
  later w0 w →
  (∀ a w1, later w0 w1 → later w w1 → call (Ok a) ∈ calls (w_out w1) → wp (k a) Q w1) →
  (∀ e w1, later w0 w1 → Q (Err (f e)) w1) → wp (map_err f (ask call says) ≫= k) Q w.
Proof using Type.
  intros Hl Hk He. apply wp_bind. unfold map_err. apply wp_bind, wp_try, wp_atomic. cbn.
  assert (later w (set_out (w_out w ++ [Docker (call (says w))]) w)) as H1 by by eexists.
  destruct (says w) as [a|e] eqn:E; [apply wp_ret, Hk|apply wp_throw, He]; try done; try by etrans.
  cbn. rewrite calls_app. set_solver.
Qed.

Lemma now_then {B} (k : time → P World B) (Q : res B → World → Prop) w :
  wp (k (w_wall w)) Q w → wp (atomic wall_now ≫= k) Q w.
Proof using Type. intros Hk. by apply wp_bind, wp_atomic. Qed.
Lemma update_then {B} f id p i (k : Instance_ → P World B) (Q : res B → World → Prop) w :
  w_faults w = [] → instances (w_db w) !! id = Some i →
  (let row := updated_instance (w_dbnow w) p i in
   wp (k row) Q (set_db (set_instances (<[id := row]> (instances (w_db w))) (w_db w)) w)) →
  wp (map_err f (atomic (UpdateInstance id p)) ≫= k) Q w.
Proof using Type.
  intros Hf Hi Hk. unfold map_err. apply wp_bind, wp_bind, wp_try, wp_atomic.
  erewrite UpdateInstance_nofault by done. exact Hk.
Qed.

Lemma deploy_body_run spec w i :
  w_faults w = [] → instances (w_db w) !! is_InstanceID spec = Some i →
  wp (deploy_body spec) (λ r w', match r with Ok _ => deploy_outcome spec w r w' | Err _ => later w w' end) w.
Proof using Type.
  intros Hf Hi. unfold deploy_body.
  eapply asks_then; [apply asks_map_err, asks_ensureNamedNetwork|reflexivity| |done]. intros _ w1 H1.
  eapply asks_then; [apply asks_map_err, asks_ensureImage|exact H1| |done]. intros _ w2 H2.
  eapply asks_then; [apply asks_removeByLabel|exact H2| |done]. intros _ w3 H3.
  eapply ask_then; [exact H3| |done]. intros cid w4 H4 _ Hc.
  eapply ask_then; [exact H4| |done]. intros [] w5 H5 H45 Hs.
  apply (later_calls _ _ _ H45) in Hc. clear H4 H45 H1 H2 H3 w1 w2 w3 w4. destruct H5 as (out & ->).
  apply now_then. eapply update_then; [done|exact Hi|].
  apply wp_bind. eapply wp_mono; [apply health_run|]. intros r w6 ((out2 & ->) & s & -> & Hg).
  apply now_then. eapply update_then; [done|by apply lookup_insert_eq|]. apply wp_ret. cbn.
  eexists _, cid. split; [reflexivity|]. split; [by rewrite insert_insert_eq|].
  rewrite calls_app. cbn in Hc, Hs. split_and!; [done..|by eexists|done|set_solver|set_solver].
Qed.
(** C36: While the database answers, with the row of the instance there and nobody else at work,
    deploying always returns, whatever the daemon answers. When it succeeds, the row holds
    the container that was created and started, and the state it was graded. When it fails
    with an error that says the runtime is unavailable - any failure to set up the network is
    reported as that - the row is left as it was, and otherwise it holds the state error and
    the text of the failure.  No other row changes. *)
Theorem Deploy_settles spec w i :
  w_faults w = [] → instances (w_db w) !! is_InstanceID spec = Some i →
  wp (docker_Deploy spec) (λ r w', deploy_outcome spec w r w') w.
Proof using Type.
  intros Hf Hi. unfold docker_Deploy. apply wp_bind, wp_try. eapply wp_mono; [by eapply deploy_body_run|].
  intros [inst|e] w1 Hr; [by apply wp_ret|].
  assert (w_faults w1 = [] ∧ w_db w1 = w_db w) as [Hf1 Hd1] by by destruct Hr as (out & ->).
  destruct (IsUnavailable e) eqn:Eu; [apply wp_throw; cbn; by rewrite Eu, Hd1|].
  apply wp_bind. unfold markError, quietly. apply wp_bind, wp_try, wp_atomic.
  erewrite UpdateInstance_nofault by (rewrite ?Hd1; done). cbn [fst snd]. apply wp_ret.
  apply wp_bind, wp_try. unfold instanceFromRow. apply wp_bind, wp_atomic.
  unfold GetInstanceByID. rewrite select_nofault by done. cbn. rewrite lookup_insert_eq. cbn.
  unfold deploy_outcome. rewrite Eu, Hd1. by eexists.
Qed.

(** ** What is left behind *)

Inductive resource := AContainer (id : string) | ANetwork (name : string).
Definition acquired (c : docker_call) : option resource :=
  match c with
  | ContainerCreate _ (Ok id) => if decide (id = "") then None else Some (AContainer id)
  | NetworkCreate name _ _ (Ok _) => Some (ANetwork name)
  | _ => None
  end.
(** What the call was to remove: that the daemon may fail to is not counted here. *)
Definition released (c : docker_call) : option resource :=
  match c with ContainerRemove id _ => Some (AContainer id) | NetworkRemove name _ => Some (ANetwork name) | _ => None end.
(** After the calls [cs] nothing but [D] is still to be removed. *)
Definition owes (D : list resource) (cs : list docker_call) : Prop :=
  ∀ n c k, cs !! n = Some c → acquired c = Some k →
    k ∈ D ∨ ∃ m c', n < m ∧ cs !! m = Some c' ∧ released c' = Some k.
Definition tidy : list docker_call → Prop := owes [].

Lemma owes_mono D D' cs : D ⊆ D' → owes D cs → owes D' cs.
Proof using Type. intros HD Ho n c k Hn Hk. destruct (Ho n c k Hn Hk) as [Hd|Hr]; [left; auto|by right]. Qed.
Lemma owes_snoc D cs c :
  owes D cs →
  owes (match acquired c with Some k => k :: D | None => D end) (cs ++ [c]).
Proof using Type.
  intros Ho n c' k [[Hn E]|[-> E]]%lookup_snoc_Some Hk; [|subst; rewrite Hk; left; by left].
  destruct (Ho n c' k E Hk) as [Hd|(m & c2 & Hm & E2 & Hr)].
  - left. destruct (acquired c); [by right|done].
  - right. exists m, c2. split_and!; [done|by apply lookup_app_l_Some|done].
Qed.
Lemma owes_release D cs c k : released c = Some k → owes (k :: D) cs → owes D (cs ++ [c]).
Proof using Type.
  intros Hc Ho n c' k' [[Hn E]|[-> E]]%lookup_snoc_Some Hk; [|subst; by destruct c'].
  destruct (Ho n c' k' E Hk) as [[->|Hd]%elem_of_cons|(m & c2 & Hm & E2 & Hr)]; [|by left|].
  - right. exists (length cs), c. split_and!; [done|by rewrite lookup_app_r, Nat.sub_diag by lia|done].
  - right. exists m, c2. split_and!; [done|by apply lookup_app_l_Some|done].
Qed.

(** [owing D p E]: from calls that owe [D], [p] returns, and the calls then owe [E] of the result. *)
Definition owing {A} (D : list resource) (p : P World A) (E : res A → list resource) : Prop :=
  ∀ w, wp p (λ r w', ∃ cs, calls (w_out w') = calls (w_out w) ++ cs ∧
    ∀ cs0, owes D cs0 → owes (E r) (cs0 ++ cs)) w.
Lemma owing_same {A} D (p : P World A) E w r w' :
  run p w = Some (r, w') → calls (w_out w') = calls (w_out w) → D ⊆ E r →
  wp p (λ r w', ∃ cs, calls (w_out w') = calls (w_out w) ++ cs ∧ ∀ cs0, owes D cs0 → owes (E r) (cs0 ++ cs)) w.
Proof using Type.
  intros Hr Hc HD. unfold wp. rewrite Hr. exists []. rewrite app_nil_r. split; [done|].
  intros cs0 Ho. rewrite app_nil_r. by eapply owes_mono.
Qed.
Lemma owing_ret {A} D (a : A) (E : res A → list resource) : D ⊆ E (Ok a) → owing D (mret a) E.
Proof using Type. intros HD w. by eapply owing_same. Qed.
Lemma owing_throw {A} D e (E : res A → list resource) : D ⊆ E (Err e) → owing D (throw e : P World A) E.
Proof using Type. intros HD w. by eapply owing_same. Qed.
Lemma owing_silent {A} D (m : M World A) : silent m → owing D (atomic m) (λ _, D).
Proof using Type.
  intros Hm w. apply wp_atomic. exists []. rewrite app_nil_r. split; [apply (Hm w)|]. intros cs0. by rewrite app_nil_r.
Qed.
Lemma owing_mono {A} D (p : P World A) (E E' : res A → list resource) : owing D p E → (∀ r, E r ⊆ E' r) → owing D p E'.
Proof using Type.
  intros Hp HE w. eapply wp_mono; [apply Hp|]. intros r w' (cs & Hc & Ho). exists cs. split; [done|].
  intros cs0 H0'. by eapply owes_mono, Ho.
Qed.
Lemma owing_bind {A B} D (p : P World A) (k : A → P World B) E E' :
  owing D p E → (∀ a, owing (E (Ok a)) (k a) E') → (∀ e, E (Err e) ⊆ E' (Err e)) → owing D (p ≫= k) E'.
Proof using Type.
  intros Hp Hk He w. apply wp_bind. eapply wp_mono; [apply Hp|]. intros [a|e] w1 (cs & Hc & Ho).
  - eapply wp_mono; [apply Hk|]. intros r w2 (cs' & Hc' & Ho'). exists (cs ++ cs').
    rewrite Hc', Hc, app_assoc. split; [done|]. intros cs0 H0'. rewrite app_assoc. by apply Ho', Ho.
  - exists cs. split; [done|]. intros cs0 H0'. by eapply owes_mono, Ho.
Qed.
Lemma owing_try_bind {A B} D (p : P World A) (k : res A → P World B) E E' :
  owing D p E → (∀ r, owing (E r) (k r) E') → owing D (try p ≫= k) E'.
Proof using Type.
  intros Hp Hk w. apply wp_bind, wp_try. eapply wp_mono; [apply Hp|]. intros r w1 (cs & Hc & Ho).
  eapply wp_mono; [apply Hk|]. intros r' w2 (cs' & Hc' & Ho'). exists (cs ++ cs').
  rewrite Hc', Hc, app_assoc. split; [done|]. intros cs0 H0'. rewrite app_assoc. by apply Ho', Ho.
Qed.
Lemma owing_map_err {A} D f (p : P World A) (E : res A → list resource) :
  owing D p E → (∀ e, E (Err e) ⊆ E (Err (f e))) → owing D (map_err f p) E.
Proof using Type.
  intros Hp He. eapply owing_try_bind; [exact Hp|]. intros [a|e]; [by apply owing_ret|by apply owing_throw].
Qed.
Lemma owing_ask {A} D (call : res A → docker_call) (says : World → res A) :
  owing D (ask call says) (λ r, match acquired (call r) with Some k => k :: D | None => D end).
Proof using Type.
  intros w. apply wp_atomic. cbn. exists [call (says w)]. rewrite calls_app. split; [done|].
  intros cs0 Ho. by apply owes_snoc.
Qed.
Lemma owing_free {A} D (call : res A → docker_call) (says : World → res A) :
  (∀ r, acquired (call r) = None) → owing D (ask call says) (λ _, D).
Proof using Type. intros Hc. eapply owing_mono; [apply owing_ask|]. intros r. cbn beta. by rewrite Hc. Qed.
(** Cleaning up on every way out. *)
Lemma owing_defer {A} D k (call : res unit → docker_call) (says : World → res unit) (body : P World A) :
  (∀ r, released (call r) = Some k) → owing (k :: D) body (λ _, k :: D) →
  owing (k :: D) (defer (quietly (ask call says)) body) (λ _, D).
Proof using Type.
  intros Hc Hb. eapply owing_try_bind; [exact Hb|]. intros r. eapply (owing_bind _ _ _ (λ _, D)).
  - unfold quietly. eapply (owing_try_bind _ _ _ (λ _, D)); [|intros; by apply owing_ret].
    intros w. apply wp_atomic. cbn. exists [call (says w)]. rewrite calls_app. split; [done|].
    intros cs0 Ho. by eapply owes_release.
  - intros _. destruct r; [by apply owing_ret|by apply owing_throw].
  - done.
Qed.

Lemma owing_ensureImage D ref : owing D (ensureImage ref) (λ _, D).
Proof using Type.
  eapply owing_try_bind; [by apply owing_free|]. intros [u|e]; [by apply owing_ret|].
  apply (owing_map_err D _ _ (λ _, D)); [|done]. by apply owing_free.
Qed.
Lemma owing_runIsoProbe D net ip : owing D (runIsoProbe net ip iso_image) (λ _, D).
Proof using Type.
  unfold runIsoProbe. eapply owing_bind; [apply owing_ask| |done]. intros id. cbn [acquired].
  assert (∀ D', owing D' (containerStart id;; containerWait id) (λ _, D')) as Hb.
  { intros D'. eapply owing_bind; [by apply (owing_free D')| |done]. intros ?. cbn beta. by apply owing_free. }
  destruct (decide (id = "")) as [->|Hid]; [|apply (owing_defer D (AContainer id)); [done|apply Hb]].
  intros w. eapply wp_mono; [apply (owing_defer D (AContainer "")); [done|apply Hb]|].
  intros r w' (cs & Hc & Ho). exists cs. split; [done|]. intros cs0 H0'. apply Ho. eapply owes_mono, H0'. set_solver.
Qed.
Lemma owing_positive_control D tries net ip : owing D (positive_control tries net ip) (λ _, D).
Proof using Type.
  induction tries as [|n IH]; cbn [positive_control]; [by apply owing_ret|].
  eapply owing_bind; [apply owing_map_err; [apply owing_runIsoProbe|done]| |done].
  intros rc. destruct (rc =? 0)%Z; [by apply owing_ret|done].
Qed.
Lemma owing_cross_check D netA netB ipB : owing D (cross_check netA netB ipB) (λ _, D).
Proof using Type.
  unfold cross_check. destruct ipB as [ip|e]; [|by apply owing_throw].
  eapply owing_bind; [apply owing_positive_control| |done]. intros []; cbn [negb]; [|by apply owing_throw].
  eapply owing_bind; [apply owing_map_err; [apply owing_runIsoProbe|done]| |done]. intros rc. by apply owing_ret.
Qed.
Lemma owing_startIsoListener D net suf :
  owing D (startIsoListener net iso_image suf) (λ r, match r with
    | Ok (id, _) => if decide (id = "") then D else AContainer id :: D | Err _ => D end).
Proof using Type.
  unfold startIsoListener. eapply owing_try_bind; [apply owing_ask|]. intros [id|e]; cbn [acquired]; [|by apply owing_ret].
  set (D' := match (if decide (id = "") then _ else _) with Some _ => _ | None => _ end).
  assert (D' = if decide (id = "") then D else AContainer id :: D) as E by (unfold D'; by case_decide).
  eapply (owing_try_bind _ _ _ (λ _, D')); [|intros r; apply owing_ret; by rewrite E].
  eapply owing_bind; [by apply (owing_free D')| |done]. intros ?; cbn beta. eapply owing_bind; [by apply (owing_free D')| |done].
  clearbody D'. intros insp. cbn beta. destruct (ct_Networks insp !! net) as [ip|]; [destruct (decide (ip = ""))|];
    first [by apply owing_throw|by apply owing_ret].
Qed.
Lemma owing_createIsoNetwork D f name :
  owing D (map_err f (createIsoNetwork name)) (λ r, match r with Ok _ => ANetwork name :: D | Err _ => D end).
Proof using Type.
  apply owing_map_err; [|done]. eapply owing_mono; [apply owing_ask|]. by intros [].
Qed.

(** The isolation check always returns, and leaves nothing behind: whatever the daemon answers, and
    at whatever point the check ends, each container it created is removed by a later call,
    and so is each network. *)
Theorem VerifyIsolation_tidy w :
  wp VerifyIsolation (λ _ w', ∃ cs, calls (w_out w') = calls (w_out w) ++ cs ∧ tidy cs) w.
Proof using Type.
  assert (owing [] VerifyIsolation (λ _, [])) as Ho.
  { unfold VerifyIsolation. eapply owing_bind; [apply owing_map_err; [apply owing_ensureImage|done]| |done]. intros ?; cbn beta.
    eapply owing_bind; [apply owing_silent, silent_NewV7| |done]. intros id. cbv zeta.
    eapply owing_bind; [apply owing_createIsoNetwork| |done]. intros ?; cbn beta. apply owing_defer; [done|].
    eapply owing_bind; [apply owing_createIsoNetwork| |done]. intros ?; cbn beta. eapply owing_mono; [apply owing_defer; [done|]|done].
    eapply owing_bind; [apply owing_startIsoListener| |done]. intros [lid ipB]. cbn beta iota.
    destruct (decide (lid = "")); [apply owing_cross_check|]. apply owing_defer; [done|apply owing_cross_check]. }
  eapply wp_mono; [apply Ho|]. intros r w' (cs & Hc & Ht). exists cs. split; [done|]. apply (Ht []). by intros n c k.
Qed.
End Asks.

(** ** The interface the manager and the sweeps rely on *)

Lemma removeByLabel_run `{Libs} `{DockerDaemon} id w : wp (removeByLabel id) (λ r w', r = Ok tt ∧ later w w') w.
Proof.
  unfold removeByLabel. apply wp_bind, wp_try, wp_atomic. cbn [fst snd].
  set (w1 := set_out _ w). assert (later w w1) as H1 by by eexists. clearbody w1.
  destruct (says_ContainerList instanceIDLabel (uuid_String id) w) as [l|e]; [|by apply wp_ret].
  revert w1 H1. induction l as [|c l IH]; intros w1 H1; [by apply wp_ret|].
  cbn [for_each]. apply wp_bind, wp_bind, wp_try, wp_atomic. apply wp_ret, IH. etrans; [exact H1|by eexists].
Qed.
#[export] Instance Docker_destroys `{Libs} `{DockerDaemon} : RuntimeDestroys (H:=DockerRuntime).
Proof.
  intros w id _. eapply wp_mono; [apply removeByLabel_run|]. intros r w' [-> (out & ->)]. by split.
Qed.

Section Keeps.
Context `{Libs} `{DockerDaemon} (lo hi : Z).
Abbreviation J := (dbi (inst_inv lo hi)).
Lemma ask_keeps {A} (call : res A → docker_call) (says : World → res A) : all_steps J (ask call says).
Proof using Type. apply all_steps_atomic. by apply preserves_dbi_same. Qed.
Lemma say_keeps level msg : all_steps J (say level msg).
Proof using Type. unfold say. steps. Qed.
Hint Resolve ask_keeps say_keeps : pres.
Lemma quietly_keeps {A} (p : P World A) : all_steps J p → all_steps J (quietly p).
Proof using Type. intros Hp. unfold quietly. steps. Qed.
Hint Resolve quietly_keeps : pres.
Lemma removeByLabel_keeps id : all_steps J (removeByLabel id).
Proof using Type. unfold removeByLabel, containerList, containerRemove. steps. Qed.
Lemma Status_keeps_inv id : all_steps J (docker_Status id).
Proof using Type. unfold docker_Status, health, containerInspect. steps. Qed.
Hint Resolve removeByLabel_keeps Status_keeps_inv : pres.
Lemma keep_network_keeps name noEgress nets : all_steps J (keep_network name noEgress nets).
Proof using Type.
  induction nets as [|n nets IH]; cbn [keep_network]; unfold isIdleInternalNetwork, networkInspect, networkRemove, warn; steps.
Qed.
Lemma view_networks_keeps nets : all_steps J (view_networks nets).
Proof using Type. induction nets as [|n nets IH]; cbn [view_networks]; unfold networkInspect; steps. Qed.
Hint Resolve keep_network_keeps view_networks_keeps : pres.
Lemma execute_actions_keeps actions t : all_steps J (execute_actions actions t).
Proof using Type.
  revert t. induction actions as [|a l IH]; intros t; cbn [execute_actions]; unfold executeAction, containerRemove, networkRemove, warn; steps.
Qed.
Hint Resolve execute_actions_keeps : pres.
#[export] Instance DockerRuntime_keeps : RuntimeKeeps (H:=DockerRuntime) J.
Proof using Type.
  split; cbn [rt_Deploy rt_Stop rt_Destroy rt_Status rt_Logs rt_Reconcile DockerRuntime]; intros.
  - unfold docker_Deploy, deploy_body, ensureNamedNetwork, ensureImage, networkList, networkCreate, imageInspect, imagePull,
      containerCreate, containerStart, health, containerInspect, markError, instanceFromRow. steps.
  - unfold docker_Stop, containerStop. steps.
  - unfold docker_Destroy. steps.
  - steps.
  - unfold docker_Logs, containerLogs. steps.
  - unfold docker_Reconcile, gatherReconcile, gatherTeamNetworks, refreshHealth, containerList, networkList, warn. steps.
    apply preserves_dbi_query. intros; by simplify_eq.
Qed.
End Keeps.

(** ** Logs *)

Lemma to_bytes_substring n s : to_bytes (String.substring 0 n s) = take n (to_bytes s).
Proof. revert n. induction s as [|c s IH]; intros [|n]; cbn; [done..|]. unfold to_bytes in IH. by rewrite IH. Qed.
Lemma length_to_bytes s : length (to_bytes s) = String.length s.
Proof. induction s as [|c s IH]; [done|]. change (S (length (to_bytes s)) = S (String.length s)). by rewrite IH. Qed.
Lemma limitedWriter_Write_take cap buf p :
  to_bytes (limitedWriter_Write (Z.of_nat cap) buf p) =
    if (length (to_bytes buf) <? cap)%nat then take cap (to_bytes buf ++ to_bytes p) else to_bytes buf.
Proof.
  unfold limitedWriter_Write. rewrite length_to_bytes. case (Z.ltb_spec 0 (Z.of_nat cap - Z.of_nat (String.length buf))) as [Hr|Hr];
    case (Nat.ltb_spec (String.length buf) cap) as [Hb|Hb]; try lia; [|done].
  rewrite to_bytes_app, take_app, length_to_bytes, (take_ge (to_bytes buf)) by (rewrite length_to_bytes; lia). f_equal.
  case (Z.ltb_spec (Z.of_nat cap - Z.of_nat (String.length buf)) (Z.of_nat (String.length p))) as [Hp|Hp].
  - rewrite to_bytes_substring. f_equal. lia.
  - rewrite take_ge; [done|]. rewrite length_to_bytes. lia.
Qed.
(** What is kept of the output is its first [cap] bytes, however it arrives. *)
Theorem logs_are_a_prefix cap chunks :
  to_bytes (foldl (limitedWriter_Write (Z.of_nat cap)) "" chunks) = take cap (concat (to_bytes <$> chunks)).
Proof.
  induction chunks as [|p chunks IH] using rev_ind; [by destruct cap|].
  rewrite foldl_app, fmap_app, concat_app. cbn [foldl fmap list_fmap concat]. rewrite app_nil_r, limitedWriter_Write_take, IH.
  rewrite length_take. case (Nat.ltb_spec (cap `min` length (concat (to_bytes <$> chunks))) cap) as [Hb|Hb].
  - rewrite (take_ge (concat _)) by lia. done.
  - rewrite take_app_le by lia. done.
Qed.

(** ** Findings *)

(** A managed container whose label is no id is shown to the admin as one the reconciler
    never touches, and is removed by it as an orphan. *)
Lemma unparseable_label_removed `{Libs} (containers : list container_summary) (rows : list Instance_) nets now c bad :
  c ∈ containers → cs_Labels c !! instanceIDLabel = Some bad → bad ≠ "" → uuid_Parse bad = None →
  resolvable instanceIDLabel (cs_Labels c) = false ∧
  In (Reconcile.remove_container (cs_ID c) ("orphan container (no row) for instance " +:+ bad))
     (Reconcile.Reconcile (map view_container containers) (map view_row rows) nets now).1.
Proof.
  intros Hc Hl Hb Hp. split; [unfold resolvable; rewrite Hl; cbn; by rewrite Hp, andb_false_r|].
  cbn [Reconcile.Reconcile fst]. rewrite !in_app_iff, !in_flat_map. right. left.
  exists (view_container c). split; [apply in_map, list_elem_of_In, Hc|].
  unfold Reconcile.container_actions, view_container. cbn. rewrite Hl. cbn. rewrite decide_False by done.
  rewrite (proj2 (Reconcile.rowByID_none _ _)); [by left|].
  intros r (i & -> & _)%list_elem_of_fmap E. cbn in E. by rewrite <- E, uuid_Parse_String in Hp.
Qed.

Lemma map_ok_then {A B} f (m : M World A) (k : A → P World B) (Q : res B → World → Prop) w a w1 :
  m w = (Ok a, w1) → wp (k a) Q w1 → wp (map_err f (atomic m) ≫= k) Q w.
Proof. intros Hm Hk. unfold map_err. apply wp_bind, wp_bind, wp_try, wp_atomic. by rewrite Hm. Qed.

(** A container that is gone whose row cannot be marked: the caller gets the zero
    instance, and no error. *)
Lemma status_swallows `{Libs} `{DockerDaemon} id w i cid e fs :
  w_faults w = false :: true :: fs → instances (w_db w) !! id = Some i → i_ContainerID i = Some cid →
  (∀ w, says_ContainerInspect cid w = Err e) → IsNotFound e = true →
  wp (docker_Status id) (λ r w', r = Ok no_instance ∧ instances (w_db w') = instances (w_db w)) w.
Proof.
  intros Hf Hi Hcid Hs He. unfold docker_Status.
  apply (map_ok_then _ _ _ _ _ i (set_db (w_db w) (set_faults (true :: fs) w))).
  { unfold GetInstanceByID, select, query, mbind, M_bind, next_fault. rewrite Hf. cbn. by rewrite Hi. }
  rewrite Hcid. apply wp_bind, wp_try, wp_atomic. cbn [fst snd]. rewrite Hs, He.
  apply wp_bind, wp_try, wp_atomic. by cbn.
Qed.

(** A bridge that cannot be set up, for whatever reason, leaves the row as it was. *)
Lemma unreachable_stays_pending `{Libs} `{DockerDaemon} spec w e :
  (∀ w, says_NetworkList "name" (spec_network spec) w = Err e) →
  wp (docker_Deploy spec) (λ r w', r = Err (RuntimeUnavailable e) ∧ w_db w' = w_db w) w.
Proof.
  intros Hs. unfold docker_Deploy. apply wp_bind, wp_try. unfold deploy_body. apply wp_bind.
  unfold map_err at 1. apply wp_bind, wp_try. unfold ensureNamedNetwork. apply wp_bind, wp_atomic. cbn. by rewrite Hs.
Qed.

(** One pass over the text: what it joins can be a sequence again. *)
Lemma ansi_survives :
  let esc := String (ascii_of_nat 27) "" in
  ansiRe_strip (esc +:+ "[" +:+ esc +:+ "[0mm") = esc +:+ "[m" ∧ ansi_match (esc +:+ "[m") = Some "".
Proof. vm_compute. done. Qed.

(** ** A deploy *)

Section Demo.
#[local] Existing Instance demo_libs.
#[local] Existing Instance demo_daemon.
Definition deploy_world : World :=
  demo_world (set_instances {[ 101%N := demo_instance 101 21 30000 StatePending None ]} demo_db) 1000.
Definition deploy_spec : InstanceSpec :=
  buildSpec (demo_challenge 31 "container" "per_team" "per_instance") (demo_instance 101 21 30000 StatePending None) "osctf{x}".
Lemma Deploy_settles_witness :
  wp (docker_Deploy deploy_spec) (λ r w', deploy_outcome deploy_spec deploy_world r w') deploy_world ∧
  match run (docker_Deploy deploy_spec) deploy_world with
  | Some (Ok inst, w') => in_State inst = StateRunning ∧ (i_State <$> instances (w_db w') !! 101%N) = Some StateRunning
  | _ => False
  end.
Proof.
  split; [|vm_compute; done].
  refine (Deploy_settles deploy_spec deploy_world (demo_instance 101 21 30000 StatePending None) eq_refl _).
  vm_compute. reflexivity.
Defined.
End Demo.
