(* ===== verification/Scoring.v ===== *)
(** * Scoring engines and override-protected registries

    [internal/scoring/engine.go]: the static and the dynamic value of a challenge,
    the latter in IEEE 754 binary64 as the code computes it.
    [internal/scoring/registry.go], [internal/challenges/typeregistry.go] and
    [internal/auth/registry.go] share one shape, modelled once: an immutable map
    replaced as a whole by each writer. *)

From Stdlib Require Import SpecFloat.
From S2P Require Import Prelude.

(** ** Binary64 *)

Definition prec : Z := 53.
Definition emax : Z := 1024.
Definition float64 : Set := spec_float.
Definition f_of_int (z : Z) : float64 := binary_normalize prec emax z 0 false.
Definition f_add := SFadd prec emax.
Definition f_sub := SFsub prec emax.
Definition f_mul := SFmul prec emax.
Definition f_div := SFdiv prec emax.

(** [math.Round]: half away from zero; then [int(...)].  A value outside the
    64-bit range converts to the smallest integer, as amd64 does. *)
Definition round_half_away (m : positive) (e : Z) : Z :=
  if (0 <=? e)%Z then (Zpos m * 2 ^ e)%Z
  else ((2 * Zpos m + 2 ^ (- e)) / 2 ^ (1 - e))%Z.
Definition min_int64 : Z := - 2 ^ 63.
Definition max_int64 : Z := 2 ^ 63 - 1.
Definition int_of_rounded (f : float64) : Z :=
  match f with
  | S754_finite s m e =>
      let r := round_half_away m e in
      let z := if s : bool then (- r)%Z else r in
      if (min_int64 <=? z)%Z && (z <=? max_int64)%Z then z else min_int64
  | S754_zero _ => 0
  | _ => min_int64
  end.

(** ** Engines *)

Record ChallengeScoring := { sc_Initial : Z; sc_Min : Z; sc_Decay : Z }.

Definition ModeStatic : string := "static".
Definition ModeDynamic : string := "dynamic".
Definition IsBuiltinMode (mode : string) : bool :=
  bool_decide (mode = ModeStatic) || bool_decide (mode = ModeDynamic).

Definition StaticValue (p : ChallengeScoring) (_ : Z) : Z := sc_Initial p.

Definition DynamicValue (p : ChallengeScoring) (solves : Z) : Z :=
  let solves := if (solves <? 0)%Z then 0%Z else solves in
  if (sc_Decay p <=? 0)%Z then sc_Min p else
  let s := f_of_int solves in
  let d := f_of_int (sc_Decay p) in
  let val := f_sub (f_of_int (sc_Initial p))
    (f_div (f_mul (f_of_int (sc_Initial p - sc_Min p)) (f_mul s s)) (f_mul d d)) in
  let rounded := int_of_rounded val in
  if (rounded <? sc_Min p)%Z then sc_Min p else rounded.

(** ** The registry *)

Section Registry.
Context {E : Type}.

Record entry := { en_engine : E; en_protected : bool }.
Record Registry := { reg_m : gmap string entry; reg_base : gmap string entry }.

Definition NewRegistry (builtins : list (string * E)) : Registry :=
  let m := foldl (λ m b, <[b.1 := {| en_engine := b.2; en_protected := true |}]> m) ∅ builtins in
  {| reg_m := m; reg_base := m |}.

Definition reg_Get (name : string) (r : Registry) : option E := en_engine <$> reg_m r !! name.
Definition IsRegistered (name : string) (r : Registry) : bool := bool_decide (is_Some (reg_m r !! name)).

(** A protected entry is only replaced with [override]; it stays protected. *)
Definition Register (name : string) (e : E) (override : bool) (r : Registry) : res unit * Registry :=
  let ex := reg_m r !! name in
  if match ex with Some x => en_protected x | None => false end && negb override then
    (Err (ErrOther ("mode " +:+ name +:+ " is a protected built-in; pass override to replace it")), r)
  else
    let protected := match ex with Some x => en_protected x | None => false end in
    (Ok tt, {| reg_m := <[name := {| en_engine := e; en_protected := protected |}]> (reg_m r);
               reg_base := reg_base r |}).

(** The entry goes; a built-in it had overridden comes back. *)
Definition Deregister (name : string) (r : Registry) : Registry :=
  match reg_m r !! name with
  | None => r
  | Some _ =>
      let next := delete name (reg_m r) in
      let next := match reg_base r !! name with Some b => <[name := b]> next | None => next end in
      {| reg_m := next; reg_base := reg_base r |}
  end.

(** What callers may do with a registry. *)
Inductive reg_op :=
  | RegRegister (name : string) (e : E) (override : bool)
  | RegDeregister (name : string).
Definition reg_step (o : reg_op) (r : Registry) : Registry :=
  match o with
  | RegRegister n e ov => (Register n e ov r).2
  | RegDeregister n => Deregister n r
  end.
End Registry.
Arguments entry E : clear implicits.
Arguments Registry E : clear implicits.
Arguments reg_op E : clear implicits.

Definition Engine : Type := ChallengeScoring → Z → Z.
Definition defaultRegistry : Registry Engine :=
  NewRegistry [(ModeStatic, StaticValue); (ModeDynamic, DynamicValue)].

(** An unknown mode is scored statically. *)
Definition reg_Value (r : Registry Engine) (mode : string) (p : ChallengeScoring) (solves : Z) : Z :=
  match reg_Get mode r with Some e => e p solves | None => StaticValue p solves end.
Definition Value : string → ChallengeScoring → Z → Z := reg_Value defaultRegistry.

(** ** Built-ins survive *)

Section RegistryProofs.
Context {E : Type}.
Implicit Types r : Registry E.

(** The invariant of a registry: its built-ins are present and protected, and
    nothing else is protected. *)
Definition reg_inv (r : Registry E) : Prop :=
  (∀ n b, reg_base r !! n = Some b → en_protected b = true) ∧
  (∀ n b, reg_base r !! n = Some b → ∃ e, reg_m r !! n = Some e ∧ en_protected e = true) ∧
  (∀ n e, reg_m r !! n = Some e → en_protected e = true → is_Some (reg_base r !! n)).

Lemma NewRegistry_inv l : reg_inv (NewRegistry l : Registry E).
Proof.
  unfold NewRegistry, reg_inv; simpl.
  set (m := foldl _ _ _).
  assert (∀ n e, m !! n = Some e → en_protected e = true) as Hm.
  { subst m. induction l as [|[n e] l IH] using rev_ind; [by intros ? ?|].
    rewrite foldl_app; simpl. intros n' e'. rewrite lookup_insert_Some. naive_solver. }
  split_and!; eauto.
Qed.

Lemma Register_inv n e ov r : reg_inv r → reg_inv (Register n e ov r).2.
Proof.
  intros (Hb & Hm & Hp). unfold Register. destruct (_ && _) eqn:Ec; [done|]. simpl.
  split_and!; simpl; [done| |].
  - intros n' b Hn'. destruct (decide (n = n')) as [->|Hne].
    + rewrite lookup_insert_eq. destruct (Hm n' b Hn') as (x & -> & Hx). eauto.
    + rewrite lookup_insert_ne by done. eauto.
  - intros n' x. rewrite lookup_insert_Some. intros [[<- <-]|[_ Hx]] Hpr; simpl in *; [|eauto].
    destruct (reg_m r !! n) as [y|] eqn:Ey; [eauto|done].
Qed.

Lemma Deregister_inv n r : reg_inv r → reg_inv (Deregister n r).
Proof.
  intros (Hb & Hm & Hp). unfold Deregister. destruct (reg_m r !! n) as [x|] eqn:Ex; [|done].
  destruct (reg_base r !! n) as [b|] eqn:Eb; split_and!; simpl; try done.
  - intros n' b' Hn'. rewrite insert_delete_eq. destruct (decide (n = n')) as [->|Hne].
    + rewrite lookup_insert_eq. eauto.
    + rewrite lookup_insert_ne by done. eauto.
  - intros n' y. rewrite insert_delete_eq, lookup_insert_Some.
    intros [[<- <-]|[_ Hy]] Hpr; eauto.
  - intros n' b' Hn'. destruct (decide (n = n')) as [->|Hne]; [congruence|].
    rewrite lookup_delete_ne by done. eauto.
  - intros n' y. rewrite lookup_delete_Some. intros [_ Hy] Hpr. eauto.
Qed.

Lemma reg_steps_inv ops r : reg_inv r → reg_inv (foldl (flip reg_step) r ops).
Proof.
  revert r. induction ops as [|o ops IH]; intros r Hr; [done|]. simpl. apply IH.
  destruct o; simpl; [by apply Register_inv|by apply Deregister_inv].
Qed.

Lemma reg_steps_base ops r : reg_base (foldl (flip reg_step) r ops) = reg_base r.
Proof.
  revert r. induction ops as [|o ops IH]; intros r; [done|]. simpl. rewrite IH.
  destruct o; simpl; unfold Register, Deregister.
  - by destruct (_ && _).
  - by destruct (reg_m r !! name).
Qed.

(** Built-ins survive plugins.  After any sequence of registrations and
    removals on a registry: every built-in name still resolves; a registration
    without [override] on a built-in name is refused and changes nothing; and
    removing a name brings its built-in back exactly, or removes a plugin's
    entry outright. *)
Theorem registry_builtins_survive l ops n b e :
  let r := foldl (flip reg_step) (NewRegistry l : Registry E) ops in
  reg_base r !! n = Some b →
  is_Some (reg_Get n r) ∧
  (Register n e false r).2 = r ∧ is_ok (Register n e false r).1 = false ∧
  reg_Get n (Deregister n r) = Some (en_engine b).
Proof.
  intros r Hb. destruct (reg_steps_inv ops _ (NewRegistry_inv l)) as (_ & Hm & _).
  fold r in Hm. destruct (Hm n b Hb) as (x & Hx & Hp).
  unfold reg_Get, Register, Deregister. rewrite Hx, Hb, Hp. simpl.
  rewrite lookup_insert_eq. eauto.
Qed.
End RegistryProofs.

(** ** A registry at work *)

Lemma registry_builtins_survive_witness :
  let ops := [RegRegister "static" DynamicValue true; RegRegister "elo" StaticValue false;
              RegDeregister "elo"] in
  let r := foldl (flip reg_step) defaultRegistry ops in
  is_Some (reg_Get "static" r) ∧ (Register "static" StaticValue false r).2 = r.
Proof.
  cbv zeta.
  edestruct (registry_builtins_survive [(ModeStatic, StaticValue); (ModeDynamic, DynamicValue)]
    [RegRegister "static" DynamicValue true; RegRegister "elo" StaticValue false; RegDeregister "elo"]
    "static" {| en_engine := StaticValue; en_protected := true |} StaticValue) as (H1 & H2 & _);
    [reflexivity|].
  split; [exact H1|exact H2].
Defined.
