(* ===== verification/Binary64.v ===== *)
(** * Binary64 arithmetic over the reals

    What one rounding of [SpecFloat] does, for values in the range that scores live in:
    comparisons with integers and halves survive it, and the error is small. *)

From Stdlib Require Import SpecFloat Reals Lra.
From S2P Require Import Prelude Scoring.

#[local] Notation "x ≤ y" := (Rle x y) : R_scope.
#[local] Notation "x ≤ y ≤ z" := (Rle x y ∧ Rle y z) : R_scope.

(** ** Values *)

Definition B (e : Z) : R := powerRZ 2 e.
Definition F2R (f : float64) : R :=
  match f with
  | S754_finite s m e => ((if s then -1 else 1) * IZR (Zpos m) * B e)%R
  | _ => 0%R
  end.

Lemma B_add a b : B (a + b) = (B a * B b)%R.
Proof. apply powerRZ_add. lra. Qed.
Lemma B_pos e : (0 < B e)%R.
Proof. apply powerRZ_lt. lra. Qed.
Lemma B_0 : B 0 = 1%R.
Proof. done. Qed.
Lemma B_1 : B 1 = 2%R.
Proof. unfold B. simpl. lra. Qed.
Lemma B_nonneg e : (0 ≤ e)%Z → B e = IZR (2 ^ e).
Proof.
  intros He. unfold B. rewrite <- (Z2Nat.id e) by lia. rewrite <- pow_powerRZ, pow_IZR. by rewrite Z2Nat.id by lia.
Qed.
Lemma B_split a b : B a = (B (a - b) * B b)%R.
Proof. rewrite <- B_add. f_equal. lia. Qed.
Lemma B_ge_1 e : (0 ≤ e)%Z → (1 ≤ B e)%R.
Proof. intros He. rewrite B_nonneg by done. apply IZR_le. pose proof (Z.pow_pos_nonneg 2 e). lia. Qed.
Lemma B_le a b : (a ≤ b)%Z → (B a ≤ B b)%R.
Proof.
  intros Hab. rewrite (B_split b a). pose proof (B_ge_1 (b - a) ltac:(lia)). pose proof (B_pos a). nra.
Qed.
Lemma B_lt_inv a b : (B a < B b)%R → (a < b)%Z.
Proof. intros H. destruct (Z.lt_ge_cases a b) as [|Hge]; [done|]. pose proof (B_le b a Hge). lra. Qed.
Lemma B_half e : (B (e - 1) = B e / 2)%R.
Proof. rewrite (B_split e (e - 1)). replace (e - (e - 1))%Z with 1%Z by lia. rewrite B_1. field. Qed.

Lemma div_le x y z : (0 < y → x ≤ z * y → x / y ≤ z)%R.
Proof. intros Hy H. apply (Rmult_le_reg_r y); [done|]. unfold Rdiv. rewrite Rmult_assoc, Rinv_l; lra. Qed.
Lemma le_div x y z : (0 < y → z * y ≤ x → z ≤ x / y)%R.
Proof. intros Hy H. apply (Rmult_le_reg_r y); [done|]. unfold Rdiv. rewrite Rmult_assoc, Rinv_l; lra. Qed.

(** ** Digits *)

Lemma digits_bounds p : (2 ^ (Zpos (digits2_pos p) - 1) ≤ Zpos p < 2 ^ Zpos (digits2_pos p))%Z.
Proof.
  induction p as [p IH|p IH|]; cbn [digits2_pos]; [| |done];
    rewrite Pos2Z.inj_succ, Z.pow_succ_r by lia;
    replace (Z.succ (Zpos (digits2_pos p)) - 1)%Z with (Z.succ (Zpos (digits2_pos p) - 1)) by lia;
    rewrite Z.pow_succ_r by lia; lia.
Qed.
Lemma digits_R m : (0 < m)%Z → (B (Zdigits2 m - 1) ≤ IZR m ∧ IZR m + 1 ≤ B (Zdigits2 m))%R ∧ (1 ≤ Zdigits2 m)%Z.
Proof.
  intros Hm. destruct m as [|p|p]; [lia| |lia]. cbn [Zdigits2]. destruct (digits_bounds p) as [H1 H2].
  rewrite !B_nonneg by lia. rewrite <- plus_IZR. split_and!; [apply IZR_le; lia..|lia].
Qed.

(** ** Locations *)

(** [r] locates [y]: the integer part, and where [y] is between it and the next one. *)
Definition located (r : shr_record) (y : R) : Prop :=
  (0 ≤ shr_m r)%Z ∧
  match shr_r r, shr_s r with
  | false, false => y = IZR (shr_m r)
  | false, true => (IZR (shr_m r) < y < IZR (shr_m r) + 1 / 2)%R
  | true, false => (y = IZR (shr_m r) + 1 / 2)%R
  | true, true => (IZR (shr_m r) + 1 / 2 < y < IZR (shr_m r) + 1)%R
  end.

Lemma IZR_xO p : IZR (Zpos (xO p)) = (2 * IZR (Zpos p))%R.
Proof. rewrite <- mult_IZR. done. Qed.
Lemma IZR_xI p : IZR (Zpos (xI p)) = (2 * IZR (Zpos p) + 1)%R.
Proof. rewrite <- mult_IZR, <- plus_IZR. done. Qed.
Lemma shr_1_located r y : located r y → located (shr_1 r) (y / 2).
Proof.
  destruct r as [m r s]. unfold located. cbn [shr_m shr_r shr_s]. intros [Hm H].
  destruct m as [|[p|p|]|p]; [| | | |lia]; cbn [shr_1]; destruct r, s; cbn [orb shr_m shr_r shr_s] in *;
    try rewrite (IZR_xO p) in H; try rewrite (IZR_xI p) in H; (split; [lia|]); lra.
Qed.
Lemma iter_located p r y : located r y → located (SpecFloat.iter_pos shr_1 p r) (y / B (Zpos p)).
Proof.
  revert r y. induction p as [p IH|p IH|]; intros r y H; cbn [SpecFloat.iter_pos].
  - apply shr_1_located, IH, IH in H. eapply eq_rect; [exact H|].
    rewrite (Pos2Z.inj_xI p), !B_add, B_1. replace (2 * Zpos p)%Z with (Zpos p + Zpos p)%Z by lia. rewrite B_add.
    pose proof (B_pos (Zpos p)). field. lra.
  - apply IH, IH in H. eapply eq_rect; [exact H|].
    rewrite (Pos2Z.inj_xO p). replace (2 * Zpos p)%Z with (Zpos p + Zpos p)%Z by lia. rewrite B_add.
    pose proof (B_pos (Zpos p)). field. lra.
  - apply shr_1_located in H. by rewrite B_1.
Qed.
Lemma shr_located r e n y : located r y →
  located (shr r e n).1 (y / B (Z.max 0 n)) ∧ (shr r e n).2 = (e + Z.max 0 n)%Z.
Proof.
  intros H. destruct n as [|p|p]; cbn [shr fst snd].
  - change (Z.max 0 0) with 0%Z. rewrite B_0. split; [by rewrite Rdiv_1_r|lia].
  - split; [|lia]. by apply iter_located.
  - rewrite Z.max_l, B_0 by lia. split; [by rewrite Rdiv_1_r|lia].
Qed.
(** Rounding to an integer: the order with integers is kept, and the error is at most a half. *)
Lemma nearest_located r y : located r y → let M := round_nearest_even (shr_m r) (loc_of_shr_record r) in
  (∀ z, (IZR z ≤ y)%R → (z ≤ M)%Z) ∧ (∀ z, (y ≤ IZR z)%R → (M ≤ z)%Z) ∧ (y - 1 / 2 ≤ IZR M ≤ y + 1 / 2)%R.
Proof.
  destruct r as [m r s]. unfold located. cbn [shr_m shr_r shr_s]. intros [Hm H]. cbv zeta.
  assert (∀ z, (IZR z < IZR m + 1)%R → (z ≤ m)%Z) as Hlt.
  { intros z Hz. rewrite <- plus_IZR in Hz. apply lt_IZR in Hz. lia. }
  assert (∀ z, (IZR m < IZR z)%R → (m + 1 ≤ z)%Z) as Hgt.
  { intros z Hz. apply lt_IZR in Hz. lia. }
  destruct r, s; cbn [loc_of_shr_record round_nearest_even]; try destruct (Z.even m);
    rewrite ?plus_IZR; (split_and!; [intros z Hz| intros z Hz|lra|lra]);
    first [apply Hlt; lra|apply Hgt; lra|pose proof (Hlt z ltac:(lra)); lia|pose proof (Hgt z ltac:(lra)); lia
          |apply le_IZR; lra].
Qed.

(** ** One rounding *)

Abbreviation aux := (binary_round_aux prec emax).
Definition sgn (s : bool) : R := if s then (-1)%R else 1%R.
(** A number of exponent at least [lo], of value [v]. *)
Definition number (lo : Z) (v : R) (f : float64) : Prop :=
  F2R f = v ∧ match f with S754_finite _ _ e => (lo ≤ e)%Z | S754_zero _ => True | _ => False end.

Lemma fexp_le e : (-900 ≤ e)%Z → fexp prec emax e = (e - 53)%Z.
Proof. unfold fexp, emin, prec, emax. lia. Qed.
Lemma shr_fexp_located m e l y : located (shr_record_of_loc m l) y →
  let e' := Z.max e (fexp prec emax (Zdigits2 m + e)) in
  located (shr_fexp prec emax m e l).1 (y / B (e' - e)) ∧ (shr_fexp prec emax m e l).2 = e'.
Proof.
  intros H. destruct (shr_located _ e (fexp prec emax (Zdigits2 m + e) - e) _ H) as [H1 H2]. cbv zeta. unfold shr_fexp.
  replace (Z.max e (fexp prec emax (Zdigits2 m + e)) - e)%Z with (Z.max 0 (fexp prec emax (Zdigits2 m + e) - e)) by lia.
  split; [done|]. rewrite H2. lia.
Qed.
(** An integer of at most 53 bits, or the next one, is kept. *)
Lemma shr_fexp_exact M e : (0 ≤ M ≤ 2 ^ 53)%Z → (-900 ≤ e)%Z →
  ∃ m n, shr_fexp prec emax M e loc_Exact = ({| shr_m := m; shr_r := false; shr_s := false |}, n) ∧
    (0 ≤ m)%Z ∧ (e ≤ n ≤ e + 1)%Z ∧ (IZR m * B n)%R = (IZR M * B e)%R.
Proof.
  intros HM He. destruct (decide (M = 2 ^ 53)%Z) as [->|Hne].
  - exists (2 ^ 52)%Z, (e + 1)%Z. split_and!; [|lia..|].
    + unfold shr_fexp. rewrite fexp_le by (change (Zdigits2 (2 ^ 53)) with 54%Z; lia).
      change (Zdigits2 (2 ^ 53)) with 54%Z. replace (54 + e - 53 - e)%Z with 1%Z by lia. done.
    + rewrite B_add, B_1. rewrite (IZR_xO (Pos.pow 2 52) : IZR (2 ^ 53) = _). change (Zpos (Pos.pow 2 52)) with (2 ^ 52)%Z. lra.
  - exists M, e. split_and!; [|lia..|done]. unfold shr_fexp.
    assert (fexp prec emax (Zdigits2 M + e) - e ≤ 0)%Z as Hn.
    { destruct (Z.eq_dec M 0) as [->|H0]; [unfold fexp, emin, prec, emax; cbn; lia|].
      destruct (digits_R M) as [[H1 _] H2]; [lia|]. rewrite fexp_le by lia.
      assert (Zdigits2 M - 1 < 53)%Z; [|lia]. apply B_lt_inv. rewrite (B_nonneg 53) by lia.
      eapply Rle_lt_trans; [exact H1|]. apply IZR_lt. lia. }
    destruct (fexp prec emax (Zdigits2 M + e) - e)%Z; [done|lia|done].
Qed.

(** [aux] rounds what it is given at the exponent that leaves 53 bits. *)
Lemma aux_rounds s m e l y lo : (0 < m)%Z → located (shr_record_of_loc m l) y → (-800 ≤ lo ≤ e)%Z → (y * B e < B 52)%R →
  ∃ M, number lo (sgn s * (IZR M * B (Z.max e (Zdigits2 m + e - 53)))) (aux s m e l) ∧
    let Y := (y * B e / B (Z.max e (Zdigits2 m + e - 53)))%R in
    (∀ z, (IZR z ≤ Y)%R → (z ≤ M)%Z) ∧ (∀ z, (Y ≤ IZR z)%R → (M ≤ z)%Z) ∧ (Y - 1 / 2 ≤ IZR M ≤ Y + 1 / 2)%R.
Proof.
  intros Hm Hl Hlo Hy. set (e' := Z.max e (Zdigits2 m + e - 53)).
  destruct (digits_R m Hm) as [[D1 D2] D3].
  assert (IZR m ≤ y)%R as Hmy.
  { destruct l as [|[]]; destruct Hl as [_ Hl]; cbn in Hl; lra. }
  assert (y < IZR m + 1)%R as Hym.
  { destruct l as [|[]]; destruct Hl as [_ Hl]; cbn in Hl; lra. }
  destruct (shr_fexp_located _ e _ _ Hl) as [H1 H2]. rewrite fexp_le in H1, H2 by lia. fold e' in H1, H2.
  set (Y := (y * B e / B e')%R). assert (y / B (e' - e) = Y)%R as EY.
  { unfold Y. rewrite (B_split e' e). pose proof (B_pos e). pose proof (B_pos (e' - e)). field. lra. }
  rewrite EY in H1. unfold aux. unfold binary_round_aux.
  destruct (shr_fexp prec emax m e l) as [r1 e1]. cbn [fst snd] in H1, H2. subst e1.
  destruct (nearest_located _ _ H1) as (N1 & N2 & N3). set (M := round_nearest_even (shr_m r1) (loc_of_shr_record r1)) in *.
  exists M. split; [|done].
  assert (Y ≤ IZR (2 ^ 53))%R as HY53.
  { unfold Y. rewrite <- B_nonneg by lia. apply div_le; [apply B_pos|]. rewrite <- B_add.
    eapply Rle_trans; [|apply (B_le (Zdigits2 m + e)); lia]. rewrite B_add. pose proof (B_pos e). nra. }
  assert (0 ≤ Y)%R as HY0.
  { unfold Y. apply le_div; [apply B_pos|]. pose proof (B_pos e).
    assert (0 ≤ IZR m)%R by (apply IZR_le; lia). nra. }
  assert (0 ≤ M ≤ 2 ^ 53)%Z as HM by (split; [by apply N1|by apply N2]).
  assert (e < 52)%Z as He.
  { apply B_lt_inv. eapply Rle_lt_trans; [|exact Hy]. assert (1 ≤ IZR m)%R by (apply IZR_le; lia). pose proof (B_pos e). nra. }
  assert (Zdigits2 m - 1 + e < 52)%Z as Hd.
  { apply B_lt_inv. rewrite B_add. eapply Rle_lt_trans; [|exact Hy]. pose proof (B_pos e). nra. }
  destruct (shr_fexp_exact M e') as (m2 & n & -> & Hm2 & Hn & Ev); [done|lia|]. cbn [shr_m].
  rewrite <- Ev. destruct m2 as [|p|p]; [| |lia].
  - split; [cbn [F2R]; ring|done].
  - rewrite (proj2 (Z.leb_le _ _)) by (unfold emax, prec; lia). split; [|lia]. unfold F2R, sgn. destruct s; ring.
Qed.

(** [f] is what [x] rounds to: comparisons with integers and halves are kept, and below
    [2 ^ 20] the error is at most [2 ^ -34]. *)
Definition near (lo : Z) (x : R) (f : float64) : Prop :=
  ∃ v, number lo v f ∧
    (∀ z, (Z.abs z ≤ 2 ^ 53)%Z → (IZR z / 2 ≤ x → IZR z / 2 ≤ v)%R ∧ (x ≤ IZR z / 2 → v ≤ IZR z / 2)%R) ∧
    (Rabs x < B 20 → x - B (-34) ≤ v ≤ x + B (-34))%R.

Lemma near_exact lo x f : number lo x f → near lo x f.
Proof. intros H. exists x. pose proof (B_pos (-34)). split_and!; [done|done|lra]. Qed.
Lemma near_half lo x f z : near lo x f → (Z.abs z ≤ 2 ^ 53)%Z → x = (IZR z / 2)%R → number lo x f.
Proof.
  intros (v & Hv & Ho & _) Hz ->. destruct (Ho z Hz) as [H1 H2].
  assert (v = IZR z / 2)%R as <-; [|done]. apply Rle_antisym; [apply H2|apply H1]; lra.
Qed.
Lemma sgn_cases s : sgn s = 1%R ∨ sgn s = (-1)%R.
Proof. destruct s; auto. Qed.

(** Halves are multiples of a small unit. *)
Lemma half_units z e : (e ≤ -1)%Z → (IZR z / 2)%R = (IZR (z * 2 ^ (-1 - e)) * B e)%R.
Proof.
  intros He. rewrite mult_IZR, <- B_nonneg, Rmult_assoc, <- B_add by lia. replace (-1 - e + e)%Z with (0 - 1)%Z by lia.
  rewrite B_half, B_0. lra.
Qed.
Lemma aux_near s m e l y lo : (0 < m)%Z → located (shr_record_of_loc m l) y → (-800 ≤ lo ≤ e)%Z → (y * B e < B 52)%R →
  l = loc_Exact ∨ (53 ≤ Zdigits2 m)%Z → near lo (sgn s * (y * B e)) (aux s m e l).
Proof.
  intros Hm Hl Hlo Hy Hdig. destruct (aux_rounds s m e l y lo Hm Hl Hlo Hy) as (M & HM & N1 & N2 & N3).
  set (e' := Z.max e (Zdigits2 m + e - 53)) in *. cbv zeta in N1, N2, N3. pose proof (B_pos e') as Hp.
  assert (y * B e = (y * B e / B e') * B e')%R as EY by (field; lra). set (Y := (y * B e / B e')%R) in *.
  assert ((l = loc_Exact ∧ (Zdigits2 m ≤ 53)%Z) ∨ (53 ≤ Zdigits2 m)%Z) as [[-> Hd]|Hd] by (destruct Hdig; [|auto]; destruct (Z.le_ge_cases (Zdigits2 m) 53); auto).
  { assert (e' = e) as Ee by lia. destruct Hl as [_ Hl]. cbn in Hl.
    assert (Y = IZR m) as EYm by (unfold Y; rewrite Ee, Hl; field; rewrite <- Ee; lra).
    assert (M = m) as -> by (apply Z.le_antisymm; [apply N2|apply N1]; lra). apply near_exact.
    by rewrite EY, EYm. }
  assert (e' = Zdigits2 m + e - 53)%Z as Ee by lia.
  destruct (digits_R m Hm) as [[D1 _] _].
  assert (IZR m ≤ y)%R as Hmy by (destruct l as [|[]]; destruct Hl as [_ Hl]; cbn in Hl; lra).
  pose proof (B_pos e) as Hpe.
  assert (B (Zdigits2 m - 1 + e) ≤ y * B e)%R as Hlow by (rewrite B_add; nra).
  assert (e' ≤ -1)%Z as He.
  { assert (Zdigits2 m - 1 + e < 52)%Z; [|lia]. apply B_lt_inv. lra. }
  exists (sgn s * (IZR M * B e'))%R. split_and!; [done| |].
  - intros z _. rewrite EY. rewrite (half_units z e' He).
    assert (∀ k, IZR (- k) = (- IZR k)%R) as Hopp by (intros; apply opp_IZR). generalize (z * 2 ^ (-1 - e'))%Z. intros k.
    destruct (sgn_cases s) as [-> | ->].
    + split; intros Hk.
      * assert (k ≤ M)%Z as HkM%IZR_le by (apply N1; nra). nra.
      * assert (M ≤ k)%Z as HkM%IZR_le by (apply N2; nra). nra.
    + split; intros Hk.
      * assert (M ≤ -k)%Z as HkM%IZR_le by (apply N2; rewrite Hopp; nra). rewrite Hopp in HkM. nra.
      * assert (-k ≤ M)%Z as HkM%IZR_le by (apply N1; rewrite Hopp; nra). rewrite Hopp in HkM. nra.
  - intros Habs. assert (Rabs (sgn s * (y * B e)) = y * B e)%R as Ea.
    { rewrite Rabs_mult, (Rabs_pos_eq (y * B e)) by (pose proof (B_pos (Zdigits2 m - 1 + e)); lra).
      destruct (sgn_cases s) as [-> | ->]; rewrite ?Rabs_R1, ?Rabs_Ropp, ?Rabs_R1; [lra|].
      rewrite Rabs_left by lra. lra. }
    rewrite Ea in Habs. assert (Zdigits2 m - 1 + e < 20)%Z by (apply B_lt_inv; lra).
    assert (B e' ≤ B (-33))%R as He' by (apply B_le; lia). pose proof (B_half (-33)) as Hh. change (-33 - 1)%Z with (-34)%Z in Hh.
    rewrite EY. destruct (sgn_cases s) as [-> | ->]; nra.
Qed.

(** ** The operations *)

Lemma near_weaken lo lo' x f : (lo' ≤ lo)%Z → near lo x f → near lo' x f.
Proof. intros Hl (v & [Hv He] & H). exists v. split; [|done]. split; [done|]. destruct f; [done..|lia]. Qed.
Lemma iter_xO m d : Zpos (Pos.iter xO m d) = (Zpos m * 2 ^ Zpos d)%Z.
Proof.
  induction d as [|d IH] using Pos.peano_ind; [cbn; lia|].
  rewrite Pos.iter_succ, (Pos2Z.inj_xO (Pos.iter xO m d)), IH, Pos2Z.inj_succ, Z.pow_succ_r by lia. lia.
Qed.
Lemma align_value m e e' : let r := shl_align m e e' in
  (IZR (Zpos r.1) * B r.2)%R = (IZR (Zpos m) * B e)%R ∧ r.2 = Z.min e e'.
Proof.
  cbv zeta. unfold shl_align. destruct (e' - e)%Z as [|d|d] eqn:E; cbn [fst snd]; [split; [done|lia]..|].
  split; [|lia]. rewrite iter_xO, mult_IZR, <- B_nonneg, Rmult_assoc, <- B_add by lia. do 2 f_equal. lia.
Qed.
Lemma round_near s m e lo : (-700 ≤ lo ≤ e)%Z → (IZR (Zpos m) * B e < B 52)%R →
  near (lo - 52) (sgn s * (IZR (Zpos m) * B e)) (binary_round prec emax s m e).
Proof.
  intros Hlo Hx. unfold binary_round. destruct (digits_R (Zpos m)) as [_ D]; [lia|]. cbn [Zdigits2] in D.
  destruct (align_value m e (fexp prec emax (Zpos (digits2_pos m) + e))) as [Hv He].
  destruct (shl_align _ _ _) as [mz ez]. cbn [fst snd] in Hv, He. rewrite fexp_le in He by lia. rewrite <- Hv in *.
  apply (aux_near s (Zpos mz) ez loc_Exact); [lia|by split|lia|done|by left].
Qed.
Lemma normalize_near m e lo : (-700 ≤ lo ≤ e)%Z → (Rabs (IZR m * B e) < B 52)%R →
  near (lo - 52) (IZR m * B e) (binary_normalize prec emax m e false).
Proof.
  intros Hlo Hx. rewrite Rabs_mult, (Rabs_pos_eq (B e)) in Hx by (pose proof (B_pos e); lra). destruct m as [|p|p]; cbn [binary_normalize].
  - apply near_exact. split; [cbn; ring|done].
  - rewrite Rabs_pos_eq in Hx by (apply IZR_le; lia). pose proof (round_near false p e lo Hlo Hx) as H. unfold sgn in H. by rewrite Rmult_1_l in H.
  - change (Zneg p) with (- Zpos p)%Z in *. rewrite opp_IZR, Rabs_Ropp, Rabs_pos_eq in Hx by (apply IZR_le; lia).
    pose proof (round_near true p e lo Hlo Hx) as H. unfold sgn in H. rewrite opp_IZR.
    replace (- IZR (Zpos p) * B e)%R with (-1 * (IZR (Zpos p) * B e))%R by ring. done.
Qed.

(** Integers below [2 ^ 52] are exact. *)
Lemma of_int_exact z : (Z.abs z < 2 ^ 52)%Z → number (-52) (IZR z) (f_of_int z).
Proof.
  intros Hz. apply (near_half _ _ _ (2 * z)); [|lia|rewrite mult_IZR; lra].
  pose proof (normalize_near z 0 0) as H. rewrite B_0, Rmult_1_r in H. apply H; [lia|].
  rewrite B_nonneg, <- abs_IZR by lia. by apply IZR_lt.
Qed.

Lemma number_pos lo v f : number lo v f → (0 ≤ v)%R →
  (v = 0%R ∧ ∃ b, f = S754_zero b) ∨ ((0 < v)%R ∧ ∃ m e, f = S754_finite false m e ∧ (lo ≤ e)%Z ∧ v = (IZR (Zpos m) * B e)%R).
Proof.
  intros [<- He] Hv. destruct f as [b| | |s m e]; [left; eauto|done..|right].
  pose proof (B_pos e). assert (1 ≤ IZR (Zpos m))%R by (apply IZR_le; lia).
  destruct s; cbn [F2R] in *; [nra|]. split; [nra|]. exists m, e. split_and!; [done..|ring].
Qed.
Lemma mul_near lo1 lo2 x y a b : number lo1 x a → number lo2 y b → (0 ≤ x)%R → (0 ≤ y)%R → (x * y < B 52)%R →
  (-800 ≤ lo1 + lo2)%Z → near (lo1 + lo2) (x * y) (f_mul a b).
Proof.
  intros Ha Hb Hx Hy Hxy Hlo.
  destruct (number_pos _ _ _ Ha Hx) as [[-> (b1 & ->)]|[Hx0 (m1 & e1 & -> & L1 & ->)]],
    (number_pos _ _ _ Hb Hy) as [[-> (b2 & ->)]|[Hy0 (m2 & e2 & -> & L2 & ->)]]; cbn [f_mul SFmul];
    try (apply near_exact; split; [cbn; ring|done]).
  assert (IZR (Zpos m1) * B e1 * (IZR (Zpos m2) * B e2) = IZR (Zpos (m1 * m2)) * B (e1 + e2))%R as E
    by (rewrite Pos2Z.inj_mul, mult_IZR, B_add; ring).
  rewrite E in *. pose proof (aux_near false (Zpos (m1 * m2)) (e1 + e2) loc_Exact (IZR (Zpos (m1 * m2))) (lo1 + lo2)) as H.
  unfold sgn in H. rewrite Rmult_1_l in H. apply H; [lia|by split|lia|done|by left].
Qed.

(** The quotient of the mantissas, located. *)
Lemma new_location_eq n r : new_location n r =
  if Z.even n then (if (r =? 0)%Z then loc_Exact else loc_Inexact (2 * r ?= n)%Z)
  else (if (r =? 0)%Z then loc_Exact else loc_Inexact match (2 * r + 1 ?= n)%Z with Gt => Gt | _ => Lt end).
Proof. unfold new_location. by destruct (Z.even n). Qed.
Lemma new_location_located q r n : (0 ≤ q)%Z → (0 ≤ r < n)%Z →
  located (shr_record_of_loc q (new_location n r)) (IZR (q * n + r) / IZR n).
Proof.
  intros Hq Hr. assert (0 < IZR n)%R as Hn by (apply IZR_lt; lia).
  assert (IZR (q * n + r) / IZR n = IZR q + IZR r / IZR n)%R as -> by (rewrite plus_IZR, mult_IZR; field; lra).
  assert (∀ c, (c = Lt → 2 * r < n)%Z → (c = Eq → 2 * r = n)%Z → (c = Gt → n < 2 * r)%Z → (0 < r)%Z →
    located (shr_record_of_loc q (loc_Inexact c)) (IZR q + IZR r / IZR n)) as Hin.
  { intros c H1 H2 H3 H4. assert (IZR r / IZR n * IZR n = IZR r)%R as E by (field; lra).
    assert (0 < IZR r)%R by (apply IZR_lt; lia). assert (IZR r < IZR n)%R by (apply IZR_lt; lia).
    destruct c; cbn [shr_record_of_loc]; (split; [done|]); cbn [shr_m shr_r shr_s].
    - specialize (H2 eq_refl). apply (f_equal IZR) in H2. rewrite mult_IZR in H2. nra.
    - specialize (H1 eq_refl). apply IZR_lt in H1. rewrite mult_IZR in H1. nra.
    - specialize (H3 eq_refl). apply IZR_lt in H3. rewrite mult_IZR in H3. nra. }
  rewrite new_location_eq. destruct (Z.eqb_spec r 0) as [->|Hr0].
  { destruct (Z.even n); (split; [done|]); cbn; unfold Rdiv; ring. }
  destruct (Z.even n) eqn:En.
  - apply Hin; [| | |lia]; intros Hc; [by apply Z.compare_lt_iff in Hc|by apply Z.compare_eq in Hc|by apply Z.compare_gt_iff in Hc].
  - assert (2 * r ≠ n)%Z as Hodd by (intros <-; by rewrite Z.even_mul in En).
    apply Hin; [| | |lia]; destruct (2 * r + 1 ?= n)%Z eqn:Hc; intros [=];
      first [apply Z.compare_eq in Hc|apply (proj1 (Z.compare_lt_iff _ _)) in Hc|apply (proj1 (Z.compare_gt_iff _ _)) in Hc]; lia.
Qed.
Lemma div_near lo1 lo2 x y a b : number lo1 x a → number lo2 y b → (0 ≤ x)%R → (0 < y)%R → (y < B 52)%R → (x / y < B 52)%R →
  (-600 ≤ lo1 ≤ 0)%Z → near (lo1 - 104) (x / y) (f_div a b).
Proof.
  intros Ha Hb Hx Hy Hy52 Hxy Hlo. destruct (number_pos _ _ _ Hb (Rlt_le _ _ Hy)) as [[? _]|[_ (m2 & e2 & -> & L2 & E2)]]; [lra|].
  destruct (number_pos _ _ _ Ha Hx) as [[-> (b1 & ->)]|[Hx0 (m1 & e1 & -> & L1 & E1)]]; cbn [f_div SFdiv].
  { apply near_exact. split; [cbn; unfold Rdiv; ring|done]. }
  destruct (digits_R (Zpos m1)) as [[D1 D1'] D1n]; [lia|]. destruct (digits_R (Zpos m2)) as [[D2 D2'] D2n]; [lia|].
  cbn [Zdigits2] in *. set (d1 := Zpos (digits2_pos m1)) in *. set (d2 := Zpos (digits2_pos m2)) in *.
  assert (d2 + e2 ≤ 52)%Z as Hde.
  { assert (d2 - 1 + e2 < 52)%Z; [|lia]. apply B_lt_inv. eapply Rle_lt_trans; [|exact Hy52]. rewrite E2, B_add. pose proof (B_pos e2). nra. }
  unfold SFdiv_core_binary. cbn [Zdigits2]. fold d1 d2. rewrite fexp_le by lia.
  set (e' := Z.min (d1 + e1 - (d2 + e2) - 53) (e1 - e2)). set (k := (e1 - e2 - e')%Z).
  assert (match k with Zpos _ => Z.shiftl (Zpos m1) k | Z0 => Zpos m1 | Zneg _ => 0 end = Zpos m1 * 2 ^ k)%Z as ->.
  { assert (0 ≤ k)%Z as Hk by lia. destruct k as [|p|p] eqn:Ek; [lia| |lia]. rewrite <- Ek, Z.shiftl_mul_pow2 by lia. done. }
  pose proof (Z_div_mod (Zpos m1 * 2 ^ k) (Zpos m2) ltac:(lia)) as Hq. destruct (Z.div_eucl _ _) as [q r]. destruct Hq as [Hq Hr].
  assert (0 < 2 ^ k)%Z as Hpk by (apply Z.pow_pos_nonneg; lia).
  assert (0 ≤ q)%Z as Hq0 by nia.
  pose proof (new_location_located q r (Zpos m2) Hq0 ltac:(lia)) as Hloc. rewrite <- (Z.mul_comm (Zpos m2) q), <- Hq in Hloc.
  assert (x / y = IZR (Zpos m1 * 2 ^ k) / IZR (Zpos m2) * B e')%R as Exy.
  { rewrite E1, E2, mult_IZR, <- B_nonneg by lia. rewrite (B_split e1 e2). replace (e1 - e2)%Z with (k + e')%Z by lia. rewrite B_add.
    pose proof (B_pos e2). assert (0 < IZR (Zpos m2))%R by (apply IZR_lt; lia). field. lra. }
  assert (2 ^ 52 ≤ q)%Z as Hq52.
  { assert (2 ^ 52 * Zpos m2 ≤ Zpos m1 * 2 ^ k)%Z as Hge; [|nia].
    destruct (digits_bounds m1) as [B1 _], (digits_bounds m2) as [_ B2]. fold d1 in B1. fold d2 in B2.
    assert (2 ^ (52 + d2) ≤ 2 ^ (d1 - 1 + k))%Z as Hp by (apply Z.pow_le_mono_r; lia).
    rewrite !Z.pow_add_r in Hp by lia. nia. }
  assert (53 ≤ Zdigits2 q)%Z as Hdq.
  { destruct (digits_R q) as [[_ Dq] _]; [lia|]. assert (52 < Zdigits2 q)%Z; [|lia]. apply B_lt_inv.
    rewrite (B_nonneg 52) by lia. apply IZR_le in Hq52. lra. }
  rewrite Exy in *. pose proof (aux_near false q e' (new_location (Zpos m2) r) _ (lo1 - 104) ltac:(lia) Hloc ltac:(lia) Hxy (or_intror Hdq)) as H.
  unfold sgn in H. by rewrite Rmult_1_l in H.
Qed.
Lemma sub_near lo1 lo2 x y a b : number lo1 x a → number lo2 y b → (0 ≤ x)%R → (0 ≤ y)%R → (Rabs (x - y) < B 52)%R →
  (-700 ≤ lo2 ≤ lo1)%Z → near (lo2 - 52) (x - y) (f_sub a b).
Proof.
  intros Ha Hb Hx Hy Hxy Hlo.
  destruct (number_pos _ _ _ Ha Hx) as [[-> (b1 & ->)]|[Hx0 (m1 & e1 & -> & L1 & ->)]],
    (number_pos _ _ _ Hb Hy) as [[-> (b2 & ->)]|[Hy0 (m2 & e2 & -> & L2 & ->)]]; cbn [f_sub SFsub].
  - apply near_exact. destruct b1, b2; (split; [cbn; ring|done]).
  - apply near_exact. split; [cbn [F2R negb]; ring|lia].
  - apply near_exact. split; [cbn [F2R]; ring|lia].
  - destruct (align_value m1 e1 (Z.min e1 e2)) as [V1 N1], (align_value m2 e2 (Z.min e1 e2)) as [V2 N2].
    destruct (shl_align m1 _ _) as [p1 n1], (shl_align m2 _ _) as [p2 n2]. cbn [fst snd cond_Zopp] in *.
    assert (n1 = Z.min e1 e2) as -> by lia. assert (n2 = Z.min e1 e2) as -> by lia.
    assert (IZR (Zpos m1) * B e1 - IZR (Zpos m2) * B e2 = IZR (Zpos p1 - Zpos p2) * B (Z.min e1 e2))%R as E
      by (rewrite <- V1, <- V2, minus_IZR; ring).
    rewrite E in *. apply normalize_near; [lia|done].
Qed.
