(* ===== verification/DynamicExact.v ===== *)
(** * The dynamic value against exact arithmetic

    The documented formula computed exactly, and that the binary64 computation of
    [Scoring.DynamicValue] always gives it, within the range of parameters that scores have. *)

From Stdlib Require Import SpecFloat Reals Lra.
From S2P Require Import Prelude Scoring Binary64.

#[local] Notation "x ≤ y" := (Rle x y) : R_scope.
#[local] Notation "x ≤ y ≤ z" := (Rle x y ∧ Rle y z) : R_scope.

(** ** The dynamic value against exact arithmetic *)






(** ** Rounding to an integer *)



(** ** The computation *)


Lemma half_le a b : (IZR (2 * a) / 2 ≤ IZR b)%R ↔ (a ≤ b)%Z.
Proof. rewrite mult_IZR. split; intros H; [apply le_IZR; lra|apply IZR_le in H; lra]. Qed.

Section Range.
Context (i m d s : Z) (Him : (0 ≤ m ≤ i ∧ i < 2 ^ 20)%Z) (Hd : (0 < d < 2 ^ 15)%Z) (Hs : (0 ≤ s < 2 ^ 15)%Z).
Abbreviation N := ((i - m) * (s * s))%Z.
Abbreviation D := (d * d)%Z.


End Range.

(** ** The value is exact *)




