(* ===== verification/Submissions.v ===== *)
(** * Flag submission ([internal/submissions])

    The single-transaction submission flow, the post-commit value and its record,
    and the repair pass that fills missing records. *)

From S2P Require Import Prelude Env Store Events Scoring.

(** A plugin's correctness check and a plugin's scorer are calls out of the
    process: programs the model is parametric in.  [Resolve] answers
    (checker, isPlugin, registered). *)
Definition FlagChecker : Type := string → gmap string string → gmap string string → P World bool.
Record Resolved := { rv_checker : FlagChecker; rv_isPlugin : bool; rv_registered : bool }.
Definition ChallengeTypes : Type := string → Resolved.
Definition Scorer : Type := string → ChallengeScoring → Z → prog World (Z * string * bool).

Definition lift {A} (p : prog World A) : P World A := prog_bind p (λ a, Ret (Ok a)).

Definition redactedFlag : string := "[redacted per-instance flag]".

Definition retryUnavailable : error :=
  Unavailable "this challenge's checker is temporarily unavailable — your attempt was not counted; please try again"
    (2 * Second).
Definition alreadySolved : error := Conflict "your team has already solved this challenge".

Record Input := {
  si_UserID : uuid; si_TeamID : uuid; si_Slug : string; si_Flag : string;
  si_TeamBanned : bool; si_BypassWindow : bool
}.
Record Result := { rs_Correct : bool; rs_Points : option Z; rs_Pending : bool }.

Definition scoreParams (c : Challenge) : ChallengeScoring :=
  {| sc_Initial := c_PointsInitial c; sc_Min := default 0%Z (c_PointsMin c);
     sc_Decay := default 0%Z (c_Decay c) |}.
Definition currentPoints (c : Challenge) (solves : Z) : Z := Value (c_Scoring c) (scoreParams c) solves.

(** [subtle.ConstantTimeCompare] is 1 exactly on equal byte strings. *)
Definition compareFlag `{Libs} (provided actual : string) (caseInsensitive : bool) : bool :=
  let '(a, b) := if caseInsensitive then (ToLower provided, ToLower actual) else (provided, actual) in
  bool_decide (a = b).

Definition SolvedData (team user challenge slug : string) : gmap string string :=
  {[ "team_id" := team; "user_id" := user; "challenge_id" := challenge; "challenge_slug" := slug ]}.

(** The repair's view of the unrecorded plugin solves. *)
Definition plugin_mode (d : DB) (s : Submission) : bool :=
  match challenges d !! s_ChallengeID s with
  | Some c => negb (IsBuiltinMode (c_Scoring c))
  | None => false
  end.
Definition needs_score (d : DB) (s : Submission) : bool :=
  s_Correct s && plugin_mode d s && negb (is_Some_b (s_ScoredValue s)).
Definition CountUnscoredPluginSolves : M World (nat * nat) :=
  select (λ d,
    let l := List.filter (needs_score d) (submissions d) in
    Ok (length (List.filter (λ s, negb (is_Some_b (s_ScoredBy s))) l),
        length (List.filter (λ s, bool_decide (s_ScoredBy s = Some "pending"%string)) l))).
Definition ListSolvesNeedingScore (limit : nat) : M World (list (Submission * Challenge)) :=
  select (λ d, Ok (take limit
    (omap (λ s, c ← challenges d !! s_ChallengeID s; Some (s, c))
      (order_by s_CreatedAt (List.filter (needs_score d) (submissions d)))))).

Section Submissions.
Context `{Libs}.
Context (checker : option ChallengeTypes) (scorer : option Scorer) (bus has_audit : bool).

(** The verdict of a plugin checker, before the transaction: [None] for a
    built-in type. *)
Definition pluginVerdict (ch : Challenge) (inp : Input) : P World (option bool) :=
  match checker with
  | None => mret None
  | Some resolve =>
      let r := resolve (c_Type ch) in
      if negb (rv_registered r) then throw retryUnavailable
      else if negb (rv_isPlugin r) then mret None
      else
        solved ← try (atomic (HasTeamSolved (c_ID ch) (si_TeamID inp)));
        match solved with
        | Ok true => throw alreadySolved
        | _ =>
            v ← try (rv_checker r (si_Flag inp) (c_TypeConfig ch) ∅);
            match v with Ok b => mret (Some b) | Err _ => throw retryUnavailable end
        end
  end.

(** The team's own instance flag; a different team's flag is a sharing signal. *)
Definition comparePerInstance (challenge : uuid) (inp : Input) : M World (bool * option uuid) :=
  inst ← map_err (no_rows_as (Forbidden "start the challenge first") "submissions: get team instance")
           (GetTeamInstance challenge (si_TeamID inp));
  if compareFlag (si_Flag inp) (default "" (i_Flag inst)) false then mret (true, None) else
  r ← try (FindInstanceByFlag challenge (si_Flag inp));
  match r with
  | Err e => if is_no_rows e then mret (false, None) else throw (Wrap "submissions: sharing lookup" e)
  | Ok owner =>
      match i_TeamID owner with
      | Some t => if decide (t = si_TeamID inp) then mret (false, None) else mret (false, Some t)
      | None => mret (false, None)
      end
  end.

(** Deleted since the verdict: fail closed. *)
Definition lock_challenge (ch : Challenge) (verdict : option bool) : M World Challenge :=
  map_err (λ e, if is_Some_b verdict && is_no_rows e then retryUnavailable
                else Wrap "submissions: lock challenge" e)
    (GetChallengeForUpdate (c_ID ch)).

(** Edited or retyped since the verdict: the verdict is void. *)
Definition verdict_void (ch locked : Challenge) (verdict : option bool) : bool :=
  is_Some_b verdict &&
  (negb (bool_decide (c_Type locked = c_Type ch)) ||
   negb (bool_decide (c_UpdatedAt locked = c_UpdatedAt ch))).

Definition verdict_of (id : uuid) (locked : Challenge) (verdict : option bool) (inp : Input)
    : M World (bool * option uuid) :=
  match verdict with
  | Some b => mret (b, None)
  | None =>
      if decide (c_FlagMode locked = "per_instance"%string) then comparePerInstance id inp
      else mret (compareFlag (si_Flag inp) (c_Flag locked) (c_FlagCaseInsensitive locked), None)
  end.

Definition stored_flag (locked : Challenge) (inp : Input) (correct : bool) (sharing : option uuid) : string :=
  if bool_decide (c_FlagMode locked = "per_instance"%string) && (correct || is_Some_b sharing)
  then redactedFlag else si_Flag inp.

(** The transaction: (correct, sharing owner, id of the committed row). *)
Definition submit_tx (ch : Challenge) (verdict : option bool) (inp : Input)
    : M World (bool * option uuid * uuid) :=
  locked ← lock_challenge ch verdict;
  if verdict_void ch locked verdict then throw retryUnavailable else
  solved ← map_err (Wrap "submissions: solved check") (HasTeamSolved (c_ID ch) (si_TeamID inp));
  if solved : bool then throw alreadySolved else
  attempts ← map_err (Wrap "submissions: count attempts") (CountTeamAttempts (c_ID ch) (si_TeamID inp));
  if match c_MaxAttempts locked with Some m => (m <=? Z.of_nat attempts)%Z | None => false end
  then throw (Forbidden "no attempts remaining for this challenge") else
  v ← verdict_of (c_ID ch) locked verdict inp;
  let '(correct, sharing) := v in
  id ← map_err (Wrap "submissions: generating id") NewV7;
  map_err (λ e, if is_Some_b (unique_violation e) then alreadySolved else Wrap "submissions: insert" e)
    (CreateSubmission id (c_ID ch) (si_TeamID inp) (si_UserID inp)
       (stored_flag locked inp correct sharing) correct);;
  mret (correct, sharing, id).

(** The value of a plugin-scored solve, computed once and recorded. *)
Definition recordPluginScore (solve : uuid) (ch : Challenge) (solves : Z) : P World (Z * bool) :=
  r ← match scorer with
      | None => mret (0%Z, "pending"%string, false)
      | Some score => lift (score (c_Scoring ch) (scoreParams ch) solves)
      end;
  let '(value, by_, hasValue) := r in
  w ← try (atomic (RecordScore solve (Some by_) (if hasValue : bool then Some (int32_of value) else None)));
  match w with
  | Err _ => atomic (emit (Inc "PluginScoreRecordFailures" []))
  | Ok _ => mret tt
  end;;
  mret (value, negb hasValue).

Definition publish_solve (solve : uuid) (inp : Input) (ch : Challenge) : P World unit :=
  now ← atomic clock_now;
  atomic (emit (Publish "challenge.solved" (uuid_String solve) now
    (SolvedData (uuid_String (si_TeamID inp)) (uuid_String (si_UserID inp))
                (uuid_String (c_ID ch)) (c_Slug ch)))).

(** After the commit: the sharing signal, the value, the event. *)
Definition after_commit (ch : Challenge) (inp : Input) (correct : bool) (sharing : option uuid)
    (solve : uuid) : P World Result :=
  match sharing with
  | None => mret tt
  | Some owner =>
      atomic (emit (Inc "FlagSharingSignals" []));;
      if has_audit then
        atomic (audit_Log (si_UserID inp) "flag.shared" "team" (uuid_String (si_TeamID inp))
          {[ "challenge_id" := uuid_String (c_ID ch); "owner_team" := uuid_String owner ]})
      else mret tt
  end;;
  if negb correct then mret {| rs_Correct := false; rs_Points := None; rs_Pending := false |} else
  count ← map_err (Wrap "submissions: count solves") (atomic (CountChallengeSolves (c_ID ch)));
  res ← (if IsBuiltinMode (c_Scoring ch) then
           mret {| rs_Correct := true; rs_Points := Some (currentPoints ch (Z.of_nat count));
                   rs_Pending := false |}
         else
           p ← recordPluginScore solve ch (Z.of_nat count);
           mret {| rs_Correct := true; rs_Points := Some p.1; rs_Pending := p.2 |});
  (if bus then publish_solve solve inp ch else mret tt);;
  mret res.

(** The event must be running, unless an admin bypasses the window. *)
Definition window_check (inp : Input) : P World unit :=
  if si_BypassWindow inp then mret tt else
  e ← Events.Get;
  p ← Phase_ e;
  if decide (p = PhaseRunning) then mret tt else throw (Forbidden "the event is not running").

Definition Submit (inp : Input) : P World Result :=
  if si_TeamBanned inp then throw (Forbidden "your team is banned") else
  window_check inp;;
  ch ← map_err (no_rows_as ErrNotFound "submissions: get challenge")
         (atomic (GetChallengeBySlug (si_Slug inp)));
  if negb (c_Visible ch) && negb (si_BypassWindow inp) then throw ErrNotFound else
  verdict ← pluginVerdict ch inp;
  r ← atomic (WithTx (submit_tx ch verdict inp));
  let '(correct, sharing, solve) := r in
  after_commit ch inp correct sharing solve.

(** ** The repair pass *)

Fixpoint repair_rows (score : Scorer) (rows : list (Submission * Challenge))
    (counts : gmap uuid nat) (filled : nat) : P World nat :=
  match rows with
  | [] => mret filled
  | (s, c) :: rows =>
      n ← match counts !! s_ChallengeID s with
          | Some n => mret (Some n)
          | None =>
              r ← try (atomic (CountChallengeSolves (s_ChallengeID s)));
              match r with Ok n => mret (Some n) | Err _ => mret None end
          end;
      match n with
      | None => repair_rows score rows counts filled
      | Some n =>
          let counts := <[s_ChallengeID s := n]> counts in
          v ← lift (score (c_Scoring c) (scoreParams c) (Z.of_nat n));
          let '(value, by_, hasValue) := v in
          r ← try (atomic (RecordScore (s_ID s) (Some by_)
                (if hasValue : bool then Some (int32_of value) else None)));
          match r with
          | Ok (S _) =>
              if hasValue : bool then
                atomic (emit (Inc "PluginScoresRepaired" []));;
                repair_rows score rows counts (S filled)
              else repair_rows score rows counts filled
          | _ => repair_rows score rows counts filled
          end
      end
  end.

Definition repairBatch : nat := 200.

Definition RepairOnce : P World nat :=
  c ← try (atomic CountUnscoredPluginSolves);
  match c with
  | Ok (missing, pending) =>
      atomic (emit (SetGauge "PluginScoresMissing" "" (Z.of_nat missing)));;
      atomic (emit (SetGauge "PluginScoresPending" "" (Z.of_nat pending)))
  | Err _ => mret tt
  end;;
  match scorer with
  | None => mret 0
  | Some score =>
      rows ← map_err (Wrap "submissions: list solves needing score")
               (atomic (ListSolvesNeedingScore repairBatch));
      repair_rows score rows ∅ 0
  end.
End Submissions.
