(* ===== verification/SubmissionRules.v ===== *)
(** * The rules of submission

    What one transaction commits; the rules no interleaving of submissions and
    repair passes can break; what a rejected submission leaves behind. *)

From S2P Require Import Prelude Interleave Env Demo Store Events Instances Scoring Submissions.

(** ** What the transaction commits *)

(** ** What a submission is worth *)

(** One of the team's instances of the challenge. *)
Definition runs_for (d : DB) (c team : uuid) (i : Instance_) : Prop :=
  (∃ u, instances d !! u = Some i) ∧ i_ChallengeID i = c ∧ i_TeamID i = Some team.
(** No two instances of the challenge share a flag. *)
Definition flags_apart (d : DB) (c : uuid) : Prop :=
  ∀ t1 t2 i1 i2 f, runs_for d c t1 i1 → runs_for d c t2 i2 → i_Flag i1 = Some f → i_Flag i2 = Some f → t1 = t2.

(** Judged by per-instance flags: correct when it is the flag of the team's own
    instance; otherwise shared by the other team whose instance has that flag. *)
Definition own_verdict (d : DB) (c team : uuid) (flag : string) (correct : bool) (sharing : option uuid) : Prop :=
  (∃ own, runs_for d c team own ∧ (correct = true ↔ flag = default "" (i_Flag own))) ∧
  match sharing with
  | Some t => correct = false ∧ t ≠ team ∧ ∃ i, runs_for d c t i ∧ i_Flag i = Some flag
  | None => correct = true ∨ (flags_apart d c → ∀ t i, runs_for d c t i → i_Flag i = Some flag → t = team)
  end.

(** The flag of the challenge, with or without regard to case. *)
Definition matches_flag `{Libs} (c : Challenge) (flag : string) : Prop :=
  if c_FlagCaseInsensitive c then ToLower flag = ToLower (c_Flag c) else flag = c_Flag c.

(** What is right for a challenge, given what its plugin said, if it is for one. *)
Definition judged `{Libs} (d : DB) (c : Challenge) (id team : uuid) (flag : string) (said : option bool)
    (correct : bool) (sharing : option uuid) : Prop :=
  match said with
  | Some b => correct = b ∧ sharing = None
  | None =>
      if decide (c_FlagMode c = "per_instance"%string) then own_verdict d id team flag correct sharing
      else (correct = true ↔ matches_flag c flag) ∧ sharing = None
  end.

(** The text that is kept: the flag of an instance is not. *)
Definition kept_text (c : Challenge) (flag : string) (correct : bool) (sharing : option uuid) (text : string) : Prop :=
  (c_FlagMode c = "per_instance"%string ∧ (correct = true ∨ sharing ≠ None) → text = redactedFlag) ∧
  (c_FlagMode c ≠ "per_instance"%string ∨ correct = false ∧ sharing = None → text = flag).

Lemma judged_per_instance `{Libs} d c id team flag correct sharing : c_FlagMode c = "per_instance"%string →
  judged d c id team flag None correct sharing → own_verdict d id team flag correct sharing.
Proof. unfold judged. intros Hm. by rewrite decide_True. Qed.
Lemma stored_kept c inp correct sharing : kept_text c (si_Flag inp) correct sharing (stored_flag c inp correct sharing).
Proof.
  unfold kept_text, stored_flag. case_bool_decide as Hm; cbn [andb]; [|naive_solver].
  destruct correct, sharing; naive_solver.
Qed.

Section Tx.
Context `{Libs}.

(** The row a submission appends. *)
Definition logged (now : time) (locked : Challenge) (inp : Input) (ch id : uuid)
    (correct : bool) (sharing : option uuid) : Submission :=
  {| s_ID := id; s_ChallengeID := ch; s_TeamID := si_TeamID inp; s_UserID := si_UserID inp;
     s_Provided := stored_flag locked inp correct sharing; s_Correct := correct;
     s_CreatedAt := now; s_ScoredValue := None; s_ScoredBy := None |}.

(** The checks a committed submission passed, on the state it was committed
    to. *)
Record committed (locked ch : Challenge) (verdict : option bool) (inp : Input)
    (correct : bool) (sharing : option uuid) (id : uuid) (d : DB) : Prop := {
  cm_lock : challenges d !! c_ID ch = Some locked;
  cm_fresh : verdict_void ch locked verdict = false;
  cm_unsolved : solved_b (c_ID ch) (si_TeamID inp) (submissions d) = false;
  cm_attempts : ∀ m, c_MaxAttempts locked = Some m →
    (Z.of_nat (attempts_of (c_ID ch) (si_TeamID inp) (submissions d)) < m)%Z;
  cm_verdict : judged d locked (c_ID ch) (si_TeamID inp) (si_Flag inp) verdict correct sharing;
  cm_new_id : id ∉ s_ID <$> submissions d
}.

Lemma find_rows_some f d i : List.find f (inst_rows d) = Some i →
  (∃ u, instances d !! u = Some i) ∧ f i = true.
Proof using Type. intros Hf. apply find_some in Hf as [Hi Hf]. by apply elem_of_inst_rows in Hi. Qed.
Lemma compareFlag_exact a b : compareFlag a b false = true ↔ a = b.
Proof using Type. unfold compareFlag. apply bool_decide_eq_true. Qed.
Lemma compareFlag_matches c flag : compareFlag flag (c_Flag c) (c_FlagCaseInsensitive c) = true ↔ matches_flag c flag.
Proof using Type. unfold compareFlag, matches_flag. destruct (c_FlagCaseInsensitive c); apply bool_decide_eq_true. Qed.
Lemma team_instance_runs d c t i : List.find (is_team_instance c t) (inst_rows d) = Some i → runs_for d c t i.
Proof using Type.
  intros [Hu Hp]%find_rows_some. apply andb_true_iff in Hp as [H1 H2].
  apply bool_decide_eq_true in H1. apply bool_decide_eq_true in H2. done.
Qed.
(** The lookup by flag finds a team's instance with it, and fails to when there is none. *)
Lemma FindInstanceByFlag_ok c flag w r w' : FindInstanceByFlag c flag w = (r, w') →
  match r with
  | Ok i => ∃ t, runs_for (w_db w) c t i ∧ i_Flag i = Some flag
  | Err e => is_no_rows e = true → ∀ t i, runs_for (w_db w) c t i → i_Flag i ≠ Some flag
  end.
Proof using Type.
  intros Ef. destruct r as [x|e].
  - apply select_ok in Ef as (Hx & _). destruct (List.find _ _) as [x'|] eqn:Ex in Hx; [|done]. injection Hx as ->.
    apply find_rows_some in Ex as [Hu Hp]. apply andb_true_iff in Hp as [Hp Ht]. apply andb_true_iff in Hp as [H1 H2].
    apply bool_decide_eq_true in H1. apply bool_decide_eq_true in H2. destruct (i_TeamID x) as [t|] eqn:E; [|done]. by exists t.
  - intros He t i ((u & Hu) & H1 & H2) Hf. unfold FindInstanceByFlag, select, query, mbind, M_bind, next_fault in Ef.
    assert (List.find (λ i, bool_decide (i_ChallengeID i = c) &&
      bool_decide (i_Flag i = Some flag) && is_Some_b (i_TeamID i)) (inst_rows (w_db w)) ≠ None) as Hn.
    { intros Hn. eapply find_none in Hn; [|by apply elem_of_inst_rows; exists u]. by rewrite H2, !bool_decide_eq_true_2 in Hn. }
    destruct (w_faults w) as [|[] fs]; simpl in Ef;
      [destruct (List.find _ _) in Hn, Ef|injection Ef as <- _|destruct (List.find _ _) in Hn, Ef]; done.
Qed.

(** The outcome of the comparison: the team's own instance, and a sharing
    signal naming the team whose instance has the submitted flag. *)
Lemma comparePerInstance_ok ch inp w correct sharing w' :
  comparePerInstance ch inp w = (Ok (correct, sharing), w') →
  own_verdict (w_db w) ch (si_TeamID inp) (si_Flag inp) correct sharing.
Proof using Type.
  unfold comparePerInstance. intros E.
  apply M_bind_ok in E as (own & w1 & E1 & E). apply map_err_ok, select_ok in E1 as (Ho & D1 & _).
  destruct (List.find _ _) as [i0|] eqn:Ei in Ho; [|done]. injection Ho as ->. apply team_instance_runs in Ei.
  destruct (compareFlag _ _ false) eqn:Ec.
  { injection E as <- <- _. apply compareFlag_exact in Ec. split; [by exists own|by left]. }
  assert (si_Flag inp ≠ default "" (i_Flag own)) as Hne by (rewrite <- compareFlag_exact; congruence).
  apply M_bind_ok in E as (o & w2 & E2 & E). simpl in E2. unfold M_try in E2.
  destruct (FindInstanceByFlag _ _ w1) as [r2 w3] eqn:Ef. injection E2 as <- _.
  apply FindInstanceByFlag_ok in Ef. rewrite D1 in Ef.
  destruct r2 as [x|e].
  - destruct Ef as (t & Hx & Hfl). destruct (Hx) as (_ & _ & Et). rewrite Et in E.
    case_decide as Hd; injection E as <- <- _; (split; [by exists own|]); [right|by split_and!; [done..|exists x]].
    intros Hap t' i Hi Hf. subst t. by apply (Hap t' (si_TeamID inp) i x (si_Flag inp)).
  - destruct (is_no_rows e); [|done]. injection E as <- <- _. split; [by exists own|right].
    intros _ t i Hi Hf. by destruct (Ef eq_refl t i Hi).
Qed.
Lemma verdict_of_judged id locked said inp w correct sharing w' : verdict_of id locked said inp w = (Ok (correct, sharing), w') →
  judged (w_db w) locked id (si_TeamID inp) (si_Flag inp) said correct sharing.
Proof using Type.
  unfold verdict_of, judged. destruct said as [b|]; [by intros [= -> -> _]|]. case_decide; [by apply comparePerInstance_ok|].
  intros [= <- <- _]. split; [apply compareFlag_matches|done].
Qed.

Lemma comparePerInstance_db c inp w r w' :
  comparePerInstance c inp w = (Ok r, w') → w_db w' = w_db w ∧ w_dbnow w' = w_dbnow w.
Proof.
  unfold comparePerInstance. intros E.
  apply M_bind_ok in E as (inst & w1 & E1 & E). apply map_err_ok, select_ok in E1 as (_ & H1 & H2 & _).
  destruct (compareFlag _ _ _); [by injection E as _ <-|].
  apply M_bind_ok in E as (o & w2 & E2 & E).
  simpl in E2. unfold M_try in E2. destruct (FindInstanceByFlag _ _ w1) as [r2 w3] eqn:Ef.
  assert (w_db w3 = w_db w1 ∧ w_dbnow w3 = w_dbnow w1) as [H3 H4].
  { destruct r2 as [x|e]; [by apply select_ok in Ef as (_ & -> & -> & _)|].
    split; [by apply query_err in Ef|]. revert Ef. unfold FindInstanceByFlag, select, query, mbind, M_bind, next_fault.
    destruct (w_faults w1) as [|[] fs]; simpl; [|by intros [= <- <-]|];
      (destruct (one _); [done|]); by intros [= <- <-]. }
  injection E2 as <- <-.
  destruct r2 as [x|e]; [destruct (i_TeamID x) as [t|]; [case_decide|]|destruct (is_no_rows e)];
    try done; injection E as _ <-; split; congruence.
Qed.

Lemma submit_tx_ok ch verdict inp w correct sharing id w' :
  submit_tx ch verdict inp w = (Ok (correct, sharing, id), w') →
  ∃ locked, committed locked ch verdict inp correct sharing id (w_db w) ∧
    w_db w' = set_submissions (submissions (w_db w) ++
      [logged (w_dbnow w) locked inp (c_ID ch) id correct sharing]) (w_db w).
Proof.
  unfold submit_tx. intros E.
  apply M_bind_ok in E as (locked & w1 & E1 & E).
  apply map_err_ok, select_ok in E1 as (Hl & D1 & N1 & _).
  destruct (challenges (w_db w) !! c_ID ch) as [l|] eqn:El; [|done]. injection Hl as ->.
  destruct (verdict_void ch locked verdict) eqn:Ev; [done|].
  apply M_bind_ok in E as (solved & w2 & E2 & E).
  apply map_err_ok, select_ok in E2 as (Hs & D2 & N2 & _). injection Hs as <-.
  destruct (solved_b _ _ _) eqn:Es; [done|].
  apply M_bind_ok in E as (n & w3 & E3 & E).
  apply map_err_ok, select_ok in E3 as (Hn & D3 & N3 & _). injection Hn as <-.
  destruct (match c_MaxAttempts locked with Some m => _ | None => _ end) eqn:Em; [done|].
  apply M_bind_ok in E as ([c sh] & w4 & E4 & E).
  assert (w_db w4 = w_db w3 ∧ w_dbnow w4 = w_dbnow w3) as [D4 N4].
  { revert E4. unfold verdict_of. destruct verdict as [b|]; [by intros [= _ _ <-]|].
    case_decide; [by apply comparePerInstance_db|by intros [= _ _ <-]]. }
  apply M_bind_ok in E as (i & w5 & E5 & E).
  apply map_err_ok, NewV7_ok in E5 as (D5 & N5 & _).
  apply M_bind_ok in E as (row & w6 & E6 & E). injection E as <- <- <- <-.
  apply map_err_ok, query_ok in E6 as (Hi & _). unfold guarded in Hi.
  destruct (first_violation _) eqn:Ef in Hi; [done|].
  assert (w_db w5 = w_db w) as D by congruence. assert (w_dbnow w5 = w_dbnow w) as N by congruence.
  rewrite D, N in Hi. rewrite D in Ef. injection Hi as _ Hd.
  exists locked. split; [|by rewrite <- Hd].
  split; try done.
  - congruence.
  - intros m Hm. rewrite Hm in Em. apply Z.leb_gt in Em. congruence.
  - apply verdict_of_judged in E4. assert (w_db w3 = w_db w) as <- by congruence. done.
  - apply first_violation_none in Ef. unfold sub_conflicts in Ef.
    apply Forall_cons in Ef as [Hid _]. cbn in Hid.
    intros Hin. apply list_elem_of_fmap in Hin as (s & Hs & Hin).
    apply not_true_iff_false in Hid. apply Hid, existsb_exists. exists s.
    split; [by apply list_elem_of_In|]. apply bool_decide_eq_true. by rewrite Hs.
Qed.
End Tx.

(** ** The rules *)

Record sub_inv (d : DB) : Prop := {
  si_ids : NoDup (s_ID <$> submissions d);
  si_after : ∀ l1 s l2, submissions d = l1 ++ s :: l2 →
    solved_b (s_ChallengeID s) (s_TeamID s) l1 = false;
  si_attempts : ∀ c ch t m, challenges d !! c = Some ch → c_MaxAttempts ch = Some m →
    (Z.of_nat (attempts_of c t (submissions d)) ≤ Z.max 0 m)%Z
}.

Lemma filter_length_app {A} (f : A → bool) l k :
  length (List.filter f (l ++ k)) = length (List.filter f l) + length (List.filter f k).
Proof. by rewrite List.filter_app, length_app. Qed.

Lemma app_cons_last {A} (l l1 l2 : list A) a s :
  l ++ [a] = l1 ++ s :: l2 → (l2 = [] ∧ l1 = l ∧ s = a) ∨ (∃ l3, l2 = l3 ++ [a] ∧ l = l1 ++ s :: l3).
Proof.
  intros E. destruct l2 as [|x l2 _] using rev_ind.
  - left. apply app_inj_tail in E as [-> ->]. done.
  - right. exists l2. rewrite app_comm_cons, app_assoc in E. by apply app_inj_tail in E as [-> ->].
Qed.

Lemma sub_inv_logged `{Libs} locked ch verdict inp correct sharing id now d :
  sub_inv d → committed locked ch verdict inp correct sharing id d →
  sub_inv (set_submissions (submissions d ++ [logged now locked inp (c_ID ch) id correct sharing]) d).
Proof.
  intros [Hid Haf Hat] [Hl Hv Hs Hm _ Hn]. split; simpl.
  - rewrite fmap_app. apply NoDup_app. split_and!; [done| |apply NoDup_singleton].
    intros x Hx Hx'. apply list_elem_of_singleton in Hx'. by subst.
  - intros l1 s l2 E. apply app_cons_last in E as [(-> & -> & ->)|(l3 & -> & E)]; [done|eauto].
  - intros c ch' t m Hc Hmx. unfold attempts_of. rewrite filter_length_app. simpl.
    specialize (Hat c ch' t m Hc Hmx). unfold attempts_of in Hat.
    destruct (for_pair c t _) eqn:Ep; simpl; [|lia].
    unfold for_pair in Ep. simpl in Ep. apply andb_true_iff in Ep as [E1 E2].
    apply bool_decide_eq_true in E1. apply bool_decide_eq_true in E2. subst c t.
    rewrite Hl in Hc. injection Hc as <-. specialize (Hm m Hmx). unfold attempts_of in Hm. lia.
Qed.

Definition scored (id : uuid) (by_ : option string) (v : option Z) (s : Submission) : Submission :=
  if unrecorded id s then score_record by_ v s else s.

Lemma scored_fields id b v s :
  s_ID (scored id b v s) = s_ID s ∧ s_ChallengeID (scored id b v s) = s_ChallengeID s ∧
  s_TeamID (scored id b v s) = s_TeamID s ∧ s_UserID (scored id b v s) = s_UserID s ∧
  s_Provided (scored id b v s) = s_Provided s ∧ s_Correct (scored id b v s) = s_Correct s.
Proof. unfold scored. by destruct (unrecorded id s). Qed.

Lemma for_pair_scored id b v c t s : for_pair c t (scored id b v s) = for_pair c t s.
Proof. unfold for_pair. by destruct (scored_fields id b v s) as (_ & -> & -> & _). Qed.
Lemma s_Correct_scored id b v s : s_Correct (scored id b v s) = s_Correct s.
Proof. apply scored_fields. Qed.

Lemma solved_b_scored id b v c t l : solved_b c t (map (scored id b v) l) = solved_b c t l.
Proof.
  unfold solved_b. induction l as [|s l IH]; [done|]. simpl.
  by rewrite for_pair_scored, s_Correct_scored, IH.
Qed.
Lemma attempts_of_scored id b v c t l : attempts_of c t (map (scored id b v) l) = attempts_of c t l.
Proof.
  unfold attempts_of. induction l as [|s l IH]; [done|]. simpl. rewrite for_pair_scored.
  destruct (for_pair c t s); simpl; by rewrite IH.
Qed.

Lemma sub_inv_scored id b v d :
  sub_inv d → sub_inv (set_submissions (map (scored id b v) (submissions d)) d).
Proof.
  intros [Hid Haf Hat]. split; simpl.
  - rewrite <- list_fmap_compose. erewrite list_fmap_ext; [exact Hid|].
    intros k s _. apply scored_fields.
  - intros l1 s l2 E. apply map_eq_app in E as (k1 & k2 & E & <- & E2).
    apply map_eq_cons in E2 as (s' & k3 & -> & <- & _).
    destruct (scored_fields id b v s') as (_ & -> & -> & _). rewrite solved_b_scored. eauto.
  - intros. rewrite attempts_of_scored. eauto.
Qed.

Lemma preserves_WithTx_ok {A} (J : DB → Prop) (m : M World A) :
  (∀ w a w', J (w_db w) → m w = (Ok a, w') → J (w_db w')) → preserves (dbi J) (WithTx m).
Proof.
  intros Hm w HJ. destruct (WithTx m w) as [r w'] eqn:E. apply WithTx_spec in E.
  unfold dbi. simpl. destruct r as [a|e]; [|by rewrite E].
  destruct E as (w1 & w2 & D1 & _ & _ & Em & ->). eapply Hm; [|exact Em]. by rewrite D1.
Qed.

Section Rules.
Context `{Libs} (checker : option ChallengeTypes) (scorer : option Scorer) (bus has_audit : bool).
(** Plugins run outside the database. *)
Context (Hcheck : ∀ J resolve ty flag cfg inst, checker = Some resolve →
           all_steps (dbi J) (rv_checker (resolve ty) flag cfg inst)).
Context (Hscore : ∀ J score mode p n, scorer = Some score → all_steps (dbi J) (score mode p n)).

Lemma all_steps_lift {A} J (p : prog World A) : all_steps J p → all_steps J (lift p).
Proof using Type. intros Hp. by apply all_steps_prog_bind. Qed.

Section AnyInv.
Context (J : DB → Prop).

Lemma window_check_steps inp : all_steps (dbi J) (window_check inp).
Proof using Type. unfold window_check, Events.Get, Phase_. steps. Qed.

Lemma pluginVerdict_steps ch inp : all_steps (dbi J) (pluginVerdict checker ch inp).
Proof using Hcheck.
  unfold pluginVerdict. destruct checker as [resolve|] eqn:E; [|apply all_steps_ret].
  pose proof (λ ty flag cfg inst, Hcheck J resolve ty flag cfg inst eq_refl). steps.
Qed.
End AnyInv.

Lemma RecordScore_inv id b v : preserves (dbi sub_inv) (RecordScore id b v).
Proof using Type.
  apply preserves_dbi_query. intros now d a d' HJ E. simplify_eq. by apply sub_inv_scored.
Qed.
Hint Resolve window_check_steps pluginVerdict_steps RecordScore_inv : pres.

Lemma sub_inv_audit a d : sub_inv d → sub_inv (set_audit a d).
Proof using Type. by intros []. Qed.
Hint Extern 1 (preserves (dbi sub_inv) (audit_Log _ _ _ _ _)) =>
  (apply audit_Log_dbi, sub_inv_audit) : pres.

Lemma after_commit_inv ch inp c sh id : all_steps (dbi sub_inv) (after_commit scorer bus has_audit ch inp c sh id).
Proof using Hscore.
  unfold after_commit, recordPluginScore, publish_solve.
  destruct scorer as [score|] eqn:E.
  - pose proof (λ mode p n, all_steps_lift _ _ (Hscore sub_inv score mode p n eq_refl)). steps.
  - steps.
Qed.

Lemma submit_tx_inv ch v inp : preserves (dbi sub_inv) (WithTx (submit_tx ch v inp)).
Proof using Type.
  apply preserves_WithTx_ok. intros w [[c sh] id] w' HJ E.
  apply submit_tx_ok in E as (locked & Hc & ->). by eapply sub_inv_logged.
Qed.
Hint Resolve after_commit_inv submit_tx_inv : pres.

Lemma Submit_inv inp : all_steps (dbi sub_inv) (Submit checker scorer bus has_audit inp).
Proof using Hcheck Hscore. unfold Submit. steps. Qed.

Lemma repair_rows_inv score rows counts n :
  scorer = Some score → all_steps (dbi sub_inv) (repair_rows score rows counts n).
Proof using Hscore.
  intros E. pose proof (λ mode p n, all_steps_lift _ _ (Hscore sub_inv score mode p n E)).
  revert counts n. induction rows as [|[s c] rows IH]; intros counts n; cbn [repair_rows]; steps.
Qed.
Lemma RepairOnce_inv : all_steps (dbi sub_inv) (RepairOnce scorer).
Proof using Hscore.
  pose proof repair_rows_inv as Hr. unfold RepairOnce.
  destruct scorer as [score|]; [|steps].
  pose proof (λ rows c n, Hr score rows c n eq_refl). steps.
Qed.

Inductive sub_op := SubSubmit (inp : Input) | SubRepair.
Definition sub_denote (o : sub_op) : prog World unit :=
  match o with
  | SubSubmit inp => forget (Submit checker scorer bus has_audit inp)
  | SubRepair => forget (RepairOnce scorer)
  end.

Lemma solved_first_only l c t :
  (∀ l1 s l2, l = l1 ++ s :: l2 → solved_b (s_ChallengeID s) (s_TeamID s) l1 = false) →
  length (List.filter (λ s, for_pair c t s && s_Correct s) l) ≤ 1.
Proof using Type.
  induction l as [|s l IH] using rev_ind; intros Hl; [simpl; lia|].
  rewrite filter_length_app. simpl.
  destruct (for_pair c t s && s_Correct s) eqn:E; simpl.
  - specialize (Hl l s [] eq_refl). apply andb_true_iff in E as [E _].
    apply andb_true_iff in E as [E1 E2].
    apply bool_decide_eq_true in E1. apply bool_decide_eq_true in E2. subst.
    assert (List.filter (λ s', for_pair (s_ChallengeID s) (s_TeamID s) s' && s_Correct s') l = []) as ->; [|done].
    clear IH. unfold solved_b in Hl. induction l as [|x l IH]; [done|]. simpl in *.
    apply orb_false_iff in Hl as [-> Hl]. auto.
  - rewrite Nat.add_0_r. apply IH. intros l1 s' l2 ->. apply (Hl l1 s' (l2 ++ [s])).
    by rewrite <- app_assoc.
Qed.

(** C2: However submissions and repair passes interleave, and whatever fails:
    a team has at most one correct row per challenge, logs nothing for a
    challenge after solving it, and never exceeds the challenge's attempt
    limit. *)
Theorem submission_rules ops w ps w' :
  sub_inv (w_db w) →
  rtc pool_step (sub_denote <$> ops, w) (ps, w') →
  sub_inv (w_db w') ∧
  ∀ c t, length (List.filter (λ s, for_pair c t s && s_Correct s) (submissions (w_db w'))) ≤ 1.
Proof using Hcheck Hscore.
  intros Hw Hr. assert (sub_inv (w_db w')) as Hi.
  { eapply (all_steps_pool (dbi sub_inv)); [|exact Hw|exact Hr].
    apply Forall_fmap, Forall_true. intros [inp|]; unfold sub_denote, compose; apply all_steps_forget;
      [apply Submit_inv|apply RepairOnce_inv]. }
  split; [done|]. intros c t. apply solved_first_only, Hi.
Qed.

(** ** What one call leaves behind *)

(** Two rows that differ at most in their score record. *)
Definition same_attempt (a b : Submission) : Prop :=
  s_ID a = s_ID b ∧ s_ChallengeID a = s_ChallengeID b ∧ s_TeamID a = s_TeamID b ∧
  s_UserID a = s_UserID b ∧ s_Provided a = s_Provided b ∧ s_Correct a = s_Correct b.

(** The table is [l] followed by one attempt. *)
Definition appended (l : list Submission) (s : Submission) (d : DB) : Prop :=
  ∃ s', submissions d = l ++ [s'] ∧ same_attempt s' s.

Lemma map_scored_fresh id b v l : id ∉ s_ID <$> l → map (scored id b v) l = l.
Proof using Type.
  induction l as [|s l IH]; [done|]. rewrite fmap_cons, not_elem_of_cons. intros [Hn Hl]. simpl.
  rewrite IH by done. unfold scored, unrecorded. by rewrite bool_decide_eq_false_2.
Qed.

Lemma RecordScore_appended l s b v :
  s_ID s ∉ s_ID <$> l → preserves (dbi (appended l s)) (RecordScore (s_ID s) b v).
Proof using Type.
  intros Hn. apply preserves_dbi_query. intros now d a d' (s' & Hd & Hs) E. simplify_eq.
  exists (scored (s_ID s) b v s'). simpl. fold (scored (s_ID s) b v).
  rewrite Hd, map_app. split; [by f_equal; apply map_scored_fresh|].
  unfold same_attempt.
  destruct (scored_fields (s_ID s) b v s') as (-> & -> & -> & -> & -> & ->). done.
Qed.

Lemma after_commit_appended l ch inp c sh s :
  s_ID s ∉ s_ID <$> l →
  all_steps (dbi (appended l s)) (after_commit scorer bus has_audit ch inp c sh (s_ID s)).
Proof using Hscore.
  intros Hn. pose proof (λ b v, RecordScore_appended l s b v Hn).
  unfold after_commit, recordPluginScore, publish_solve.
  destruct scorer as [score|].
  - pose proof (λ mode p n, all_steps_lift _ _ (Hscore (appended l s) score mode p n eq_refl)). steps.
  - steps.
Qed.

Lemma recordPluginScore_ok id ch n : infallible (recordPluginScore scorer id ch n).
Proof using Type.
  clear Hcheck Hscore. unfold recordPluginScore. apply infallible_bind.
  - destruct scorer; [|apply infallible_ret]. unfold lift. intros w r w'. rewrite run_prog_bind.
    destruct (run _ w) as [[]|]; [|done]. by intros [= <- <-].
  - intros [[value by_] has]. apply infallible_bind; [apply infallible_try|]. intros [x|e];
      (apply infallible_bind; [|intros; apply infallible_ret]);
      [apply infallible_ret|by apply infallible_atomic].
Qed.

Lemma after_commit_result ch inp c sh id w r w' :
  run (after_commit scorer bus has_audit ch inp c sh id) w = Some (r, w') →
  match r with
  | Ok res => rs_Correct res = c
  | Err e => c = true ∧ ∃ e', e = Wrap "submissions: count solves" e'
  end.
Proof using Type.
  clear Hcheck Hscore. unfold after_commit. intros E.
  apply run_bind_inv in E as [(? & w1 & _ & E)|(e & E & ->)].
  2: { exfalso. destruct sh as [owner|]; [|done].
       apply run_bind_inv in E as [(? & w2 & _ & E)|(e' & E & ?)]; [|done].
       destruct has_audit; [|done]. rewrite run_atomic in E. injection E as E.
       pose proof (audit_Log_total (si_UserID inp) "flag.shared" "team" (uuid_String (si_TeamID inp))
         {[ "challenge_id" := uuid_String (c_ID ch); "owner_team" := uuid_String owner ]} w2) as Ht.
       by rewrite E in Ht. }
  destruct c; cbn [negb] in E; [|by injection E as <- _].
  apply run_bind_inv in E as [(n & w2 & _ & E)|(e & E & ->)].
  2: { split; [done|]. unfold map_err in E.
       apply run_bind_inv in E as [(rr & w3 & _ & E)|(e' & E & ?)]; [|].
       - destruct rr as [y|y]; [done|]. injection E as <- _. eauto.
       - by apply infallible_try in E. }
  apply run_bind_inv in E as [(res & w3 & Er & E)|(e & E & ->)].
  - apply run_bind_inv in E as [(? & w4 & _ & E)|(e & E & ->)].
    + injection E as <- _. destruct (IsBuiltinMode (c_Scoring ch)); [by injection Er as <- _|].
      apply run_bind_inv in Er as [(p & w5 & _ & Er)|(e & _ & ?)]; [by injection Er as <- _|done].
    + exfalso. destruct bus; [|done]. unfold publish_solve in E.
      apply run_bind_inv in E as [(? & w4 & _ & E)|(e' & E & ?)]; done.
  - exfalso. destruct (IsBuiltinMode (c_Scoring ch)); [done|].
    apply run_bind_inv in E as [(p & w5 & _ & E)|(e' & E & ?)]; [done|].
    by apply recordPluginScore_ok in E.
Qed.

(** What the plugin of a challenge's type says of a flag: nothing for a type that is not a
    plugin's; for a plugin's type, what its checker answers over these tables. *)
Definition plugin_says (ch : Challenge) (inp : Input) (d : DB) (said : option bool) : Prop :=
  match checker with
  | None => said = None
  | Some resolve =>
      let r := resolve (c_Type ch) in
      rv_registered r = true ∧
      if rv_isPlugin r then
        ∃ b w w', said = Some b ∧ w_db w = d ∧ run (rv_checker r (si_Flag inp) (c_TypeConfig ch) ∅) w = Some (Ok b, w')
      else said = None
  end.
(** The event is running at [now], or its window does not bind the caller. *)
Definition in_window (d : DB) (now : time) (inp : Input) : Prop :=
  si_BypassWindow inp = true ∨ ∃ e, event d = Some e ∧ phase_at now e = PhaseRunning.
(** The challenge of that slug, as it is found and as it is locked. *)
Definition open_challenge (d : DB) (inp : Input) (ch locked : Challenge) : Prop :=
  (∃ u, challenges d !! u = Some ch) ∧ c_Slug ch = si_Slug inp ∧ challenges d !! c_ID ch = Some locked ∧
  (c_Visible ch = true ∨ si_BypassWindow inp = true).
(** The team may still try: nothing solved, an attempt left. *)
Definition may_try (d : DB) (c : Challenge) (id team : uuid) : Prop :=
  (∀ s, s ∈ submissions d → s_ChallengeID s = id → s_TeamID s = team → s_Correct s = false) ∧
  ∀ m, c_MaxAttempts c = Some m →
    (Z.of_nat (length (List.filter (λ s, bool_decide (s_ChallengeID s = id ∧ s_TeamID s = team)) (submissions d))) < m)%Z.
(** The table has one more row: the caller's attempt at the challenge [id]. *)
Definition one_attempt (d d' : DB) (c : Challenge) (id : uuid) (inp : Input) (correct : bool) (sharing : option uuid) : Prop :=
  ∃ row, submissions d' = submissions d ++ [row] ∧ (s_ID row ∉ s_ID <$> submissions d) ∧
    s_ChallengeID row = id ∧ s_TeamID row = si_TeamID inp ∧ s_UserID row = si_UserID inp ∧
    s_Correct row = correct ∧ kept_text c (si_Flag inp) correct sharing (s_Provided row).
(** A judged submission: everything it had to pass, and what it left. *)
Definition judged_row (inp : Input) (now : time) (d d' : DB) (correct : bool) : Prop :=
  si_TeamBanned inp = false ∧ in_window d now inp ∧
  ∃ ch locked said sharing,
    open_challenge d inp ch locked ∧ may_try d locked (c_ID ch) (si_TeamID inp) ∧
    plugin_says ch inp d said ∧ judged d locked (c_ID ch) (si_TeamID inp) (si_Flag inp) said correct sharing ∧
    one_attempt d d' locked (c_ID ch) inp correct sharing.

Lemma run_map_err_ok {A} f (p : P World A) w a w' : run (map_err f p) w = Some (Ok a, w') → run p w = Some (Ok a, w').
Proof using Type.
  clear Hcheck Hscore. unfold map_err. intros E. apply run_bind_inv in E as [(r & w1 & E1 & E)|(e & _ & ?)]; [|done].
  rewrite run_try in E1. destruct (run p w) as [[r' w2]|]; [|done]. injection E1 as -> ->. by destruct r; [injection E as -> ->|].
Qed.
Lemma window_check_ok inp w w' : run (window_check inp) w = Some (Ok tt, w') → in_window (w_db w) (w_clock w) inp.
Proof using Type.
  clear Hcheck Hscore. unfold window_check, in_window. destruct (si_BypassWindow inp); [by left|]. intros E. right.
  apply run_bind_inv in E as [(e & w1 & E1 & E)|(e & _ & ?)]; [|done]. apply run_map_err_ok in E1.
  rewrite run_atomic in E1. injection E1 as E1. apply select_ok in E1 as (He & _ & _ & Hc & _).
  unfold Phase_ in E. apply run_bind_inv in E as [(p & w2 & E2 & E)|(e' & _ & ?)]; [|done].
  injection E2 as <- <-. rewrite Hc in E. case_decide as Hp; [|done].
  destruct (event (w_db w)) as [e0|]; [|done]. injection He as ->. by exists e.
Qed.

Lemma pluginVerdict_says ch inp w said w' : run (pluginVerdict checker ch inp) w = Some (Ok said, w') → plugin_says ch inp (w_db w) said.
Proof using Type.
  clear Hcheck Hscore. unfold pluginVerdict, plugin_says. intros E. destruct checker as [resolve|]; [|by injection E as <- _].
  destruct (rv_registered (resolve (c_Type ch))); [|done]. split; [done|]. cbn [negb] in E.
  destruct (rv_isPlugin (resolve (c_Type ch))); cbn [negb] in E; [|by injection E as <- _].
  apply run_bind_inv in E as [(solved & w1 & E1 & E)|(e & _ & ?)]; [|done].
  assert (w_db w1 = w_db w) as Ed.
  { eapply (all_steps_run (dbi (λ d, d = w_db w))); [|done|exact E1]. apply all_steps_try, all_steps_atomic.
    unfold HasTeamSolved. auto with pres. }
  assert (solved ≠ Ok true) as Hs by (by intros ->).
  destruct solved as [[]|e]; [done| |]; apply run_bind_inv in E as [(v & w2 & E2 & E)|(e' & _ & ?)]; try done;
    (rewrite run_try in E2; destruct (run (rv_checker _ _ _ _) w1) as [[r w3]|] eqn:Er; [|done]; injection E2 as -> ->;
     destruct v as [b|]; [|done]; injection E as <- _; by exists b, w1, w2).
Qed.

Lemma committed_may_try locked ch said inp correct sharing id d :
  committed locked ch said inp correct sharing id d → may_try d locked (c_ID ch) (si_TeamID inp).
Proof using Type.
  clear Hcheck Hscore. intros [_ _ Hs Ha _ _]. split.
  - intros s Hin H1 H2. apply not_true_is_false. intros Hc. apply not_true_iff_false in Hs. apply Hs, existsb_exists.
    exists s. split; [by apply list_elem_of_In|]. unfold for_pair. by rewrite !bool_decide_eq_true_2.
  - intros m Hm. specialize (Ha m Hm). erewrite List.filter_ext; [exact Ha|]. intros s. unfold for_pair. apply bool_decide_and.
Qed.

(** C4: What one call to [Submit] leaves in the table, whatever fails on the way. On a
    verdict: exactly one new row, of the caller's team and user, for the challenge of that slug,
    when the team is not banned, the event runs, the challenge is visible (or the window does not bind
    the caller), the team has not solved it and has an attempt left; the row is correct exactly
    when the flag is right: what the plugin of its type says, or the flag of the
    challenge, or that of the team's own instance; and no instance's flag is kept that was right or
    another team's. On an error (a closed window, a plugin that cannot judge, an
    exhausted or already solved challenge, a lost connection) no row at all, so
    no attempt is consumed - except that a failed solve count after the commit
    reports an error for a correct row that stays. *)
Theorem Submit_logs inp w r w' :
  run (Submit checker scorer bus has_audit inp) w = Some (r, w') →
  match r with
  | Ok res => judged_row inp (w_clock w) (w_db w) (w_db w') (rs_Correct res)
  | Err e =>
      submissions (w_db w') = submissions (w_db w) ∨
      (∃ e', e = Wrap "submissions: count solves" e') ∧ judged_row inp (w_clock w) (w_db w) (w_db w') true
  end.
Proof using Hcheck Hscore.
  intros E. set (d := w_db w). set (J := λ d', d' = d). assert (dbi J w) as HJ by done. unfold Submit in E.
  assert (∀ w0, dbi J w0 → submissions (w_db w0) = submissions d) as HJs by by intros w0 ->.
  destruct (si_TeamBanned inp) eqn:Eb; [by injection E as <- <-; left|].
  apply run_bind_inv in E as [([] & w1 & E1 & E)|(e & E & ->)].
  2: { left. apply HJs. eapply (all_steps_run (dbi J)); [apply window_check_steps|exact HJ|exact E]. }
  pose proof (window_check_ok _ _ _ E1) as Hwin.
  eapply (all_steps_run (dbi J)) in E1; [|apply window_check_steps|exact HJ].
  apply run_bind_inv in E as [(ch & w2 & E2 & E)|(e & E & ->)].
  2: { left. apply HJs. eapply (all_steps_run (dbi J)); [|exact E1|exact E]. steps. }
  assert ((∃ u, challenges d !! u = Some ch) ∧ c_Slug ch = si_Slug inp) as [Hch Hslug].
  { unfold map_err in E2. apply run_bind_inv in E2 as [(rr & w30 & E3 & E2)|(? & _ & ?)]; [|done].
    rewrite run_try, run_atomic in E3. destruct (GetChallengeBySlug _ w1) as [r0 w4] eqn:Eg.
    injection E3 as <- <-. destruct r0 as [c|e0]; [|done]. injection E2 as <- _.
    apply select_ok in Eg as (Hf & _). rewrite E1 in Hf. destruct (List.find _ _) as [c'|] eqn:Ef; [|done].
    injection Hf as ->. apply find_some in Ef as [Hin Hs]. apply bool_decide_eq_true in Hs. split; [|done].
    apply list_elem_of_In, elem_of_rows in Hin. done. }
  eapply (all_steps_run (dbi J)) in E2; [|steps|exact E1].
  destruct (negb (c_Visible ch) && negb (si_BypassWindow inp)) eqn:Evis; [by injection E as <- <-; left; apply HJs|].
  apply run_bind_inv in E as [(v & w3 & E3 & E)|(e & E & ->)].
  2: { left. apply HJs. eapply (all_steps_run (dbi J)); [|exact E2|exact E]. apply pluginVerdict_steps. }
  pose proof (pluginVerdict_says _ _ _ _ _ E3) as Hsays. rewrite E2 in Hsays.
  eapply (all_steps_run (dbi J)) in E3; [|apply pluginVerdict_steps|exact E2].
  apply run_bind_inv in E as [([[c sh] id] & w4 & E4 & E)|(e & E & ->)];
    rewrite run_atomic in E || rewrite run_atomic in E4.
  2: { left. injection E as E. apply WithTx_spec in E. rewrite E. by apply HJs. }
  injection E4 as E4. apply WithTx_spec in E4 as (w5 & w6 & D5 & _ & _ & Et & D4).
  apply submit_tx_ok in Et as (locked & Hc & Hd). rewrite D5, E3 in Hc, Hd.
  set (row := logged (w_dbnow w5) locked inp (c_ID ch) id c sh) in Hd.
  pose proof (after_commit_result _ _ _ _ _ _ _ _ E) as Hr.
  eapply (all_steps_run (dbi (appended (submissions d) row))) in E;
    [|apply (after_commit_appended (submissions d) ch inp c sh row)|].
  - assert (judged_row inp (w_clock w) d (w_db w') c) as Hrow.
    { split_and!; [done..|]. exists ch, locked, v, sh. split_and!; [|by eapply committed_may_try|done|apply Hc|].
      - split_and!; [done..|apply Hc|]. apply andb_false_iff in Evis as [?%negb_false_iff|?%negb_false_iff]; auto.
      - destruct E as (s' & Hs' & H1 & H2 & H3 & H4 & H5 & H6). exists s'. rewrite H1, H2, H3, H4, H5, H6.
        split_and!; [done|apply Hc|done..|apply stored_kept]. }
    destruct r as [res|e]; [by rewrite Hr|]. destruct Hr as [-> [e' ->]]. eauto.
  - apply (cm_new_id _ _ _ _ _ _ _ _ Hc).
  - exists row. by rewrite D4, Hd.
Qed.
End Rules.

(** ** Per-instance flags *)

Section Secret.
Context `{Libs} (checker : option ChallengeTypes) (scorer : option Scorer) (bus has_audit : bool) (lo hi : Z).
Context (Hcheck : ∀ J resolve ty flag cfg inst, checker = Some resolve →
           all_steps (dbi J) (rv_checker (resolve ty) flag cfg inst)).
Context (Hscore : ∀ J score mode p n, scorer = Some score → all_steps (dbi J) (score mode p n)).

(** A row is a secret's holder: the platform itself judges its challenge, by the flags of
    the teams' instances. *)
Definition by_instances (d : DB) (s : Submission) : Prop :=
  ∃ c, challenges d !! s_ChallengeID s = Some c ∧ c_FlagMode c = "per_instance"%string ∧
    ∀ resolve, checker = Some resolve → rv_isPlugin (resolve (c_Type c)) = false.
(** No row that the step adds holds the flag of an instance. *)
Definition hides_flags (w w' : World) : Prop :=
  inst_inv lo hi (w_db w) → ∀ s, s ∈ submissions (w_db w') → s_ID s ∉ s_ID <$> submissions (w_db w) → by_instances (w_db w) s →
  (s_Correct s = true → s_Provided s = redactedFlag) ∧
  ∀ t i f, runs_for (w_db w) (s_ChallengeID s) t i → i_Flag i = Some f → f ≠ redactedFlag → s_Provided s ≠ f.
(** The step adds no row. *)
Definition adds_none (w w' : World) : Prop := s_ID <$> submissions (w_db w') ⊆ s_ID <$> submissions (w_db w).
Lemma adds_none_hides w w' : adds_none w w' → hides_flags w w'.
Proof using Type. intros Hsub _ s Hs Hn. destruct Hn. apply Hsub. by apply list_elem_of_fmap_2. Qed.

Definition same_ids (w w' : World) : Prop := s_ID <$> submissions (w_db w') = s_ID <$> submissions (w_db w).
#[local] Instance same_ids_refl : Reflexive same_ids.
Proof using Type. done. Qed.
Lemma ids_hide {A} (p : prog World A) : (∀ L, all_steps (dbi (λ d, s_ID <$> submissions d = L)) p) → all_respect (λ _, True) hides_flags p.
Proof using Type.
  intros Hp. apply (all_respect_weaken _ _ same_ids).
  - intros w w' _ E. apply adds_none_hides. unfold adds_none. by rewrite E.
  - apply (all_steps_respect (λ _, True) same_ids); [done|]. intros w. exact (Hp _).
Qed.

Lemma pluginVerdict_hides ch inp :
  holds (λ _ : unit, True) (λ _ _, True) hides_flags (pluginVerdict checker ch inp)
    (λ r _, ∀ b, r = Ok (Some b) → ∃ resolve, checker = Some resolve ∧ rv_isPlugin (resolve (c_Type ch)) = true) tt.
Proof using Hcheck.
  pose proof (ids_hide _ (λ L, pluginVerdict_steps checker Hcheck _ ch inp)) as Hp. revert Hp. unfold pluginVerdict.
  destruct checker as [resolve|] eqn:Ec; [|by intros _].
  destruct (rv_registered (resolve (c_Type ch))); [|by intros _]. destruct (rv_isPlugin (resolve (c_Type ch))) eqn:Ep; [|by intros _].
  intros Hp. eapply holds_mono; [exact Hp|]. eauto.
Qed.
Lemma after_commit_hides ch inp c sh id : all_respect (λ _, True) hides_flags (after_commit scorer bus has_audit ch inp c sh id).
Proof using Hscore.
  apply ids_hide. intros L.
  assert (∀ u b v, preserves (dbi (λ d, s_ID <$> submissions d = L)) (RecordScore u b v)) as Hrec.
  { intros u b v. apply preserves_dbi_query. intros now d a d' HJ E. simplify_eq. simpl. rewrite <- list_fmap_compose.
    apply list_fmap_ext. intros _ s _. by destruct (scored_fields u b v s) as (E & _). }
  unfold after_commit, recordPluginScore, publish_solve. destruct scorer as [score|].
  - pose proof (λ mode p n, all_steps_lift _ _ (Hscore (λ d, s_ID <$> submissions d = L) score mode p n eq_refl)). steps.
  - steps.
Qed.

(** What is appended by the transaction holds no flag. *)
Lemma committed_hides locked ch inp correct sharing id d t i f :
  committed locked ch None inp correct sharing id d → c_FlagMode locked = "per_instance"%string → inst_inv lo hi d →
  runs_for d (c_ID ch) t i → i_Flag i = Some f → f ≠ redactedFlag → stored_flag locked inp correct sharing ≠ f.
Proof using Type.
  intros Hc Hm Hinv Hi Hf Hr. pose proof (cm_verdict _ _ _ _ _ _ _ _ Hc) as Hj.
  apply judged_per_instance in Hj as [(own & Hown & Hcor) Hsh]; [|done].
  unfold stored_flag. rewrite bool_decide_eq_true_2 by done.
  destruct correct; [done|]. destruct sharing as [o|]; [done|]. simpl. intros <-. destruct Hsh as [?|Hsh]; [done|].
  assert (t = si_TeamID inp) as ->.
  { apply (Hsh) with i; [|done..]. intros t1 t2 i1 i2 g ((u1 & H1) & _ & T1) ((u2 & H2) & _ & T2) F1 F2.
    assert (u1 = u2) as -> by (by eapply (inv_flag _ _ _ Hinv)). congruence. }
  destruct Hown as ((u & Hu) & C1 & T1), Hi as ((v & Hv) & C2 & T2).
  assert (u = v) as -> by (eapply (inv_team _ _ _ Hinv); eauto; congruence). simplify_eq.
  rewrite Hf in Hcor. by discriminate (proj2 Hcor eq_refl).
Qed.
Lemma submit_tx_hides ch said inp :
  (∀ b, said = Some b → ∃ resolve, checker = Some resolve ∧ rv_isPlugin (resolve (c_Type ch)) = true) →
  respects (λ _, True) hides_flags (WithTx (submit_tx ch said inp)).
Proof using Type.
  intros Hsaid w _. split; [done|]. destruct (WithTx _ w) as [r w'] eqn:E. apply WithTx_spec in E. cbn [snd].
  destruct r as [[[c sh] id]|e]; [|apply adds_none_hides; unfold adds_none; by rewrite E].
  destruct E as (w1 & w2 & D1 & _ & _ & Et & D2). apply submit_tx_ok in Et as (locked & Hc & Hd). rewrite D1 in Hc, Hd.
  intros Hinv s. rewrite D2, Hd. cbn [submissions set_submissions]. rewrite elem_of_app, list_elem_of_singleton.
  intros [Hs| ->] Hn; [by destruct Hn; apply list_elem_of_fmap_2|]. cbn. intros (c' & Hl & Hm & Hp).
  pose proof (cm_lock _ _ _ _ _ _ _ _ Hc) as Hlk. assert (Some c' = Some locked) as [= ->] by (by rewrite <- Hl, <- Hlk).
  assert (said = None) as ->.
  { destruct said as [b|]; [|done]. destruct (Hsaid b eq_refl) as (resolve & Er & Hpl).
    pose proof (cm_fresh _ _ _ _ _ _ _ _ Hc) as Hv. unfold verdict_void in Hv. cbn [is_Some_b andb] in Hv.
    apply orb_false_iff in Hv as [Hv _]. apply negb_false_iff, bool_decide_eq_true in Hv.
    specialize (Hp _ Er). congruence. }
  split; [|intros t i f; by eapply committed_hides].
  intros ->. unfold stored_flag. by rewrite bool_decide_eq_true_2.
Qed.

Lemma Submit_hides inp : all_respect (λ _, True) hides_flags (Submit checker scorer bus has_audit inp).
Proof using Hcheck Hscore.
  unfold Submit. destruct (si_TeamBanned inp); [apply all_respect_throw|].
  apply all_respect_bind; [apply ids_hide; intros L; apply window_check_steps|]. intros _.
  apply all_respect_bind; [apply ids_hide; intros L; steps|]. intros ch. destruct (negb _ && negb _); [apply all_respect_throw|].
  apply holds_bind. eapply holds_mono; [apply pluginVerdict_hides|]. intros [said|e] [] Hsaid; [|done].
  apply all_respect_bind; [apply all_respect_atomic, submit_tx_hides; naive_solver|]. intros [[c sh] id]. apply after_commit_hides.
Qed.

(** Submissions, repair passes, and whatever else adds no rows (it may start, stop and reset
    instances, and edit challenges). *)
Inductive flag_program : prog World unit → Prop :=
  | fp_submit inp : flag_program (forget (Submit checker scorer bus has_audit inp))
  | fp_repair : flag_program (forget (RepairOnce scorer))
  | fp_other p : all_respect (λ _, True) adds_none p → flag_program p.
Lemma repair_ids L : all_steps (dbi (λ d, s_ID <$> submissions d = L)) (RepairOnce scorer).
Proof using Hscore.
  assert (∀ u b v, preserves (dbi (λ d, s_ID <$> submissions d = L)) (RecordScore u b v)) as Hrec.
  { intros u b v. apply preserves_dbi_query. intros now d a d' HJ E. simplify_eq. simpl. rewrite <- list_fmap_compose.
    apply list_fmap_ext. intros _ s _. by destruct (scored_fields u b v s) as (E & _). }
  assert (∀ score rows counts n, scorer = Some score → all_steps (dbi (λ d, s_ID <$> submissions d = L)) (repair_rows score rows counts n)) as Hr.
  { intros score rows counts n E. pose proof (λ mode p n, all_steps_lift _ _ (Hscore (λ d, s_ID <$> submissions d = L) score mode p n E)).
    revert counts n. induction rows as [|[s c] rows IH]; intros counts n; cbn [repair_rows]; steps. }
  unfold RepairOnce. destruct scorer as [score|]; [|steps]. pose proof (λ rows c n, Hr score rows c n eq_refl). steps.
Qed.

(** C5: However many submissions and repairs run, interleaved with whatever adds no rows
    (instances that start, stop and rotate, challenges that are edited), no row that any of
    their steps adds for a challenge judged by per-instance flags keeps the flag of any team's
    instance, the caller's own or another's, as long as the instances are in order (one per
    team, flags apart) when it is added: the text of a right answer is redacted, and so is one
    that belongs to another team. *)
Theorem instance_flags_never_stored ps ps1 ps2 w w1 w2 s :
  Forall flag_program ps → rtc pool_step (ps, w) (ps1, w1) → pool_step (ps1, w1) (ps2, w2) →
  inst_inv lo hi (w_db w1) →
  s ∈ submissions (w_db w2) → s_ID s ∉ s_ID <$> submissions (w_db w1) → by_instances (w_db w1) s →
  (s_Correct s = true → s_Provided s = redactedFlag) ∧
  ∀ t i f, runs_for (w_db w1) (s_ChallengeID s) t i → i_Flag i = Some f → f ≠ redactedFlag → s_Provided s ≠ f.
Proof using Hcheck Hscore.
  intros Hps Hr Hst Hinv Hs Hn Hby.
  destruct (all_respect_pool (λ _, True) hides_flags ps ps1 ps2 w w1 w2) as [_ [->|Hh]]; [|done..| |by apply Hh].
  - eapply Forall_impl; [exact Hps|]. destruct 1 as [inp| |p Hp]; [apply all_respect_forget, Submit_hides| |].
    + apply all_respect_forget, ids_hide, repair_ids.
    + eapply all_respect_weaken; [|exact Hp]. intros ? ? _. apply adds_none_hides.
  - destruct Hn. by apply list_elem_of_fmap_2.
Qed.
End Secret.

(** ** Concrete runs *)

Section Demo.
#[local] Existing Instance demo_libs.

Definition demo_input (user team chal : uuid) (flag : string) : Input :=
  {| si_UserID := user; si_TeamID := team; si_Slug := "chal-" +:+ N_string chal; si_Flag := flag;
     si_TeamBanned := false; si_BypassWindow := false |}.

(** Two members of one team race the right flag, a third guess is wrong. *)
Definition demo_submits : list sub_op :=
  [ SubSubmit (demo_input 11%N 21%N 32%N "osctf{static}");
    SubSubmit (demo_input 12%N 21%N 32%N "osctf{static}");
    SubSubmit (demo_input 12%N 22%N 32%N "wrong"); SubRepair ].
Definition demo_sub_pool : list (prog World unit) := sub_denote None None true true <$> demo_submits.
Definition demo_sub_final : option (list (prog World unit) * World) :=
  exec (concat (replicate 4 [0; 1; 2]) ++ [0; 0; 0; 3; 3; 3])%list
    demo_sub_pool (demo_world demo_db 1000).

Lemma demo_sub_inv : sub_inv demo_db.
Proof.
  split; simpl; [by apply NoDup_nil_2| |].
  - intros l1 s l2 E. by destruct l1.
  - intros c ch t m _ _. apply Z.le_max_l.
Qed.

Lemma submission_rules_witness :
  match demo_sub_final with
  | Some (_, w) =>
      length (submissions (w_db w)) = 2 ∧
      length (List.filter (λ s, for_pair 32%N 21%N s && s_Correct s) (submissions (w_db w))) ≤ 1
  | None => False
  end.
Proof.
  assert (∃ ps w, demo_sub_final = Some (ps, w)) as (ps & w & E).
  { destruct demo_sub_final as [[ps w]|] eqn:E; [eauto|]. exfalso. revert E. vm_compute. discriminate. }
  assert (length (submissions (w_db w)) = 2) as Hl.
  { assert (match demo_sub_final with Some (_, w) => length (submissions (w_db w)) | None => 0 end = 2)
      as Hv by (vm_compute; reflexivity). by rewrite E in Hv. }
  rewrite E. split; [exact Hl|].
  apply (submission_rules None None true true (λ J r ty f c i (Hc : None = Some r), match Hc with end)
    (λ J sc m p n (Hc : None = Some sc), match Hc with end)
    demo_submits (demo_world demo_db 1000) ps w demo_sub_inv).
  exact (exec_sound _ _ _ _ _ E).
Defined.

Lemma Submit_logs_witness :
  ∃ res w', run (Submit None None true true (demo_input 11%N 21%N 32%N "osctf{static}"))
      (demo_world demo_db 1000) = Some (Ok res, w') ∧ rs_Correct res = true ∧
    length (submissions (w_db w')) = 1.
Proof.
  destruct (run (Submit None None true true (demo_input 11%N 21%N 32%N "osctf{static}"))
    (demo_world demo_db 1000)) as [[[res|e] w']|] eqn:E;
    [|exfalso; revert E; vm_compute; discriminate..].
  exists res, w'. split; [reflexivity|].
  pose proof (Submit_logs None None true true
    (λ J r ty f c i (Hc : None = Some r), match Hc with end)
    (λ J sc m p n (Hc : None = Some sc), match Hc with end) _ _ _ _ E) as (_ & Hrow).
  destruct Hrow as (_ & ? & ? & ? & ? & _ & _ & _ & _ & (s' & Hl & Hs)).
  split; [|by rewrite Hl].
  assert (match run (Submit None None true true (demo_input 11%N 21%N 32%N "osctf{static}"))
    (demo_world demo_db 1000) with Some (Ok r, _) => rs_Correct r | _ => false end = true) as Hv
    by (vm_compute; reflexivity).
  by rewrite E in Hv.
Defined.

(** Team 22 submits team 21's instance flag. *)
Definition secret_db : DB :=
  set_instances {[ 101%N := new_instance 0 101%N 31%N (Some 21%N) StateRunning (Some 30000%Z) (Some "osctf{a}") None None;
                   102%N := new_instance 0 102%N 31%N (Some 22%N) StateRunning (Some 30001%Z) (Some "osctf{b}") None None ]} demo_db.
Definition secret_chal : Challenge := demo_challenge 31%N "container" "per_team" "per_instance".
Definition secret_input : Input := demo_input 12%N 22%N 31%N "osctf{a}".

Lemma secret_inv : inst_inv 30000 30010 secret_db.
Proof.
  assert (∀ u i, instances secret_db !! u = Some i →
    (u = 101%N ∧ i = new_instance 0 101%N 31%N (Some 21%N) StateRunning (Some 30000%Z) (Some "osctf{a}") None None) ∨
    (u = 102%N ∧ i = new_instance 0 102%N 31%N (Some 22%N) StateRunning (Some 30001%Z) (Some "osctf{b}") None None)) as Hrows.
  { intros u i. simpl. rewrite lookup_insert_Some, lookup_singleton_Some. naive_solver. }
  split; intros *; repeat (intros Hx; first [apply Hrows in Hx as [[-> ->]|[-> ->]]|revert Hx]);
    simpl; intros; simplify_eq; lia || done.
Qed.

Definition secret_pool : list (prog World unit) := [forget (Submit None None true true secret_input); forget (RepairOnce None)].
(** Just before the transaction, and just after it. *)
Definition secret_before : option (list (prog World unit) * World) :=
  exec [0; 1; 0; 0] secret_pool (demo_world secret_db 1000).
Definition secret_after : option (list (prog World unit) * World) :=
  match secret_before with Some (ps, w) => exec [0] ps w | None => None end.

Lemma instance_flags_never_stored_witness :
  match secret_after with
  | Some (_, w) => ∃ s, submissions (w_db w) = [s] ∧ s_Provided s ≠ "osctf{a}"
  | None => False
  end.
Proof.
  assert (match secret_before with Some (_, w) => w_db w = secret_db | None => False end) as Hb by (vm_compute; reflexivity).
  assert (match secret_after with
          | Some (_, w) => ∃ s, submissions (w_db w) = [s] ∧ s_ChallengeID s = 31%N
          | None => False end) as Ha by (vm_compute; eexists; split; reflexivity).
  unfold secret_after in *. destruct secret_before as [[ps1 w1]|] eqn:E1; [|done].
  destruct (exec [0] ps1 w1) as [[ps2 w2]|] eqn:E2; [|done]. destruct Ha as (s & Hs & Hc). exists s. split; [exact Hs|].
  apply (proj2 (instance_flags_never_stored None None true true 30000 30010
    (λ J r ty f c i (Hn : None = Some r), match Hn with end) (λ J sc m p n (Hn : None = Some sc), match Hn with end)
    secret_pool ps1 ps2 (demo_world secret_db 1000) w1 w2 s
    (Forall_cons_2 _ _ _ (fp_submit _ _ _ _ _) (Forall_cons_2 _ _ _ (fp_repair _ _ _ _) (Forall_nil_2 _)))
    (exec_sound _ _ _ _ _ E1) (exec_one _ _ _ _ _ E2) ltac:(rewrite Hb; exact secret_inv)
    ltac:(rewrite Hs; left) ltac:(rewrite Hb; apply not_elem_of_nil)
    ltac:(rewrite Hb; eexists; rewrite Hc; split; [reflexivity|done])) 21%N
    (new_instance 0 101%N 31%N (Some 21%N) StateRunning (Some 30000%Z) (Some "osctf{a}") None None) "osctf{a}");
    [|reflexivity|discriminate].
  rewrite Hb, Hc. split_and!; [by exists 101%N|reflexivity..].
Defined.
End Demo.
