(* ===== verification/Scoreboard.v ===== *)
(** * The scoreboard ([internal/scoreboard])

    The standings algorithm as a pure function of the two reads it makes, and the
    service that caches, repairs, freezes and broadcasts its result. *)

From S2P Require Import Prelude Env Store Events Scoring Submissions.

(** ** The reads *)

Record TeamRow := { tr_ID : uuid; tr_Name : string; tr_Banned : bool }.
Record SolveRow := {
  sr_TeamID : uuid; sr_ChallengeID : uuid; sr_SolvedAt : time; sr_TeamName : string;
  sr_TeamBanned : bool; sr_Scoring : string; sr_Params : ChallengeScoring;
  sr_ScoredValue : option Z
}.

Definition scoreboard_teams (d : DB) : list TeamRow :=
  map (λ t, {| tr_ID := t_ID t; tr_Name := t_Name t; tr_Banned := t_Banned t |})
    (order_by t_CreatedAt (List.filter (λ t, negb (t_Hidden t)) (map_to_list (teams d)).*2)).
Definition ListScoreboardTeams : M World (list TeamRow) := select (λ d, Ok (scoreboard_teams d)).

(** A correct submission for a visible challenge by a team that is not hidden and
    has a member who is not hidden. *)
Definition valid_solve (d : DB) (s : Submission) : option SolveRow :=
  if negb (s_Correct s) then None else
  match teams d !! s_TeamID s, challenges d !! s_ChallengeID s with
  | Some t, Some c =>
      if c_Visible c && negb (t_Hidden t) && has_member_not_hidden d (t_ID t) then
        Some {| sr_TeamID := s_TeamID s; sr_ChallengeID := s_ChallengeID s;
                sr_SolvedAt := s_CreatedAt s; sr_TeamName := t_Name t;
                sr_TeamBanned := t_Banned t; sr_Scoring := c_Scoring c;
                sr_Params := scoreParams c; sr_ScoredValue := s_ScoredValue s |}
      else None
  | _, _ => None
  end.
Definition valid_solves (d : DB) : list SolveRow :=
  omap (valid_solve d) (order_by s_CreatedAt (submissions d)).

Definition ListValidSolves : M World (list SolveRow) := select (λ d, Ok (valid_solves d)).
Definition CountValidSolves : M World nat := select (λ d, Ok (length (valid_solves d))).

(** ** The standings *)

(** Solves per challenge, by teams that are not banned. *)
Definition solveCount (rows : list SolveRow) : gmap uuid Z :=
  foldl (λ m r, if sr_TeamBanned r then m
                else <[sr_ChallengeID r := (default 0 (m !! sr_ChallengeID r) + 1)%Z]> m) ∅ rows.

(** Mode and parameters of each challenge, as its first row has them. *)
Definition chalParams (rows : list SolveRow) : gmap uuid (string * ChallengeScoring) :=
  foldl (λ m r, match m !! sr_ChallengeID r with
                | Some _ => m
                | None => <[sr_ChallengeID r := (sr_Scoring r, sr_Params r)]> m
                end) ∅ rows.

(** The value of each challenge with a built-in mode. *)
Definition chal_values (rows : list SolveRow) : gmap uuid Z :=
  map_imap (λ id cp, if IsBuiltinMode cp.1
                     then Some (Value cp.1 cp.2 (default 0%Z (solveCount rows !! id)))
                     else None) (chalParams rows).

Record agg := { ag_points : Z; ag_solves : nat; ag_lastSolve : time }.
(** The zero [time.Time], before every solve. *)
Definition zero_time : time := (- 62135596800 * Second)%Z.

Definition add_solve (value : gmap uuid Z) (a : agg) (r : SolveRow) : agg :=
  {| ag_points :=
       if IsBuiltinMode (sr_Scoring r) then (ag_points a + default 0 (value !! sr_ChallengeID r))%Z
       else match sr_ScoredValue r with Some v => (ag_points a + v)%Z | None => ag_points a end;
     ag_solves := S (ag_solves a);
     ag_lastSolve := if (ag_lastSolve a <? sr_SolvedAt r)%Z then sr_SolvedAt r else ag_lastSolve a |}.
Definition no_solves : agg := {| ag_points := 0; ag_solves := 0; ag_lastSolve := zero_time |}.

Definition aggregate (value : gmap uuid Z) (rows : list SolveRow) : gmap uuid agg :=
  foldl (λ m r, <[sr_TeamID r := add_solve value (default no_solves (m !! sr_TeamID r)) r]> m) ∅ rows.

Definition entry_of (byTeam : gmap uuid agg) (t : TeamRow) : Entry :=
  match byTeam !! tr_ID t with
  | Some a => {| b_Banned := tr_Banned t; b_LastSolveAt := Some (ag_lastSolve a); b_Name := tr_Name t;
                 b_Points := ag_points a; b_Rank := None; b_Solves := ag_solves a; b_TeamID := tr_ID t |}
  | None => {| b_Banned := tr_Banned t; b_LastSolveAt := None; b_Name := tr_Name t;
               b_Points := 0; b_Rank := None; b_Solves := 0; b_TeamID := tr_ID t |}
  end.

(** Go's [<] on strings: bytewise. *)
Fixpoint string_lt (a b : string) : bool :=
  match a, b with
  | EmptyString, EmptyString => false
  | EmptyString, String _ _ => true
  | String _ _, EmptyString => false
  | String c a, String d b =>
      let c := Ascii.nat_of_ascii c in
      let d := Ascii.nat_of_ascii d in
      if c <? d then true else if d <? c then false else string_lt a b
  end%nat.

(** The comparison of the ranked part: points, then last solve, then name. *)
Definition entry_less (a b : Entry) : bool :=
  if negb (b_Points a =? b_Points b)%Z then (b_Points b <? b_Points a)%Z else
  match b_LastSolveAt a, b_LastSolveAt b with
  | None, Some _ => true
  | Some _, None => false
  | Some x, Some y => if negb (x =? y)%Z then (x <? y)%Z else string_lt (b_Name a) (b_Name b)
  | None, None => string_lt (b_Name a) (b_Name b)
  end.

(** [sort.SliceStable]: an element stays before a later one unless the later one
    is less. *)
Fixpoint stable_insert (less : Entry → Entry → bool) (a : Entry) (l : list Entry) : list Entry :=
  match l with
  | [] => [a]
  | b :: l' => if less b a then b :: stable_insert less a l' else a :: l
  end.
Definition SliceStable (less : Entry → Entry → bool) (l : list Entry) : list Entry :=
  foldr (stable_insert less) [] l.

Definition set_rank (r : option nat) (e : Entry) : Entry :=
  {| b_Banned := b_Banned e; b_LastSolveAt := b_LastSolveAt e; b_Name := b_Name e;
     b_Points := b_Points e; b_Rank := r; b_Solves := b_Solves e; b_TeamID := b_TeamID e |}.
Definition numbered (l : list Entry) : list Entry := imap (λ i e, set_rank (Some (S i)) e) l.
Definition name_less (a b : Entry) : bool := string_lt (b_Name a) (b_Name b).

Definition standings (teamRows : list TeamRow) (solveRows : list SolveRow) : list Entry :=
  let byTeam := aggregate (chal_values solveRows) solveRows in
  let entries := map (entry_of byTeam) teamRows in
  let active := SliceStable entry_less (List.filter (λ e, negb (b_Banned e)) entries) in
  let banned := SliceStable name_less (List.filter b_Banned entries) in
  numbered active ++ banned.

Definition compute : P World (Snapshot * nat) :=
  now ← atomic clock_now;
  teamRows ← map_err (Wrap "scoreboard: listing teams") (atomic ListScoreboardTeams);
  solveRows ← map_err (Wrap "scoreboard: listing solves") (atomic ListValidSolves);
  mret ({| sn_Frozen := false; sn_GeneratedAt := now; sn_Standings := standings teamRows solveRows;
           sn_SolveCount := length solveRows |}, length solveRows).

(** ** The service

    A Redis command is one step that may fail; [mu] is a lock other threads wait
    for. *)

Definition redis {A} (f : BoardState → A * BoardState) : M World A :=
  b ← next_fault;
  if b : bool then throw ErrConn
  else λ w, let '(a, s) := f (w_board w) in (Ok a, set_board s w).

Definition with_current (v : option Snapshot) (s : BoardState) : BoardState :=
  {| bd_current := v; bd_frozen := bd_frozen s; bd_lastCount := bd_lastCount s; bd_sent := bd_sent s; bd_mu := bd_mu s |}.
Definition with_frozen (v : option Snapshot) (s : BoardState) : BoardState :=
  {| bd_current := bd_current s; bd_frozen := v; bd_lastCount := bd_lastCount s; bd_sent := bd_sent s; bd_mu := bd_mu s |}.
Definition with_lastCount (n : nat) (s : BoardState) : BoardState :=
  {| bd_current := bd_current s; bd_frozen := bd_frozen s; bd_lastCount := n; bd_sent := bd_sent s; bd_mu := bd_mu s |}.
Definition with_mu (b : bool) (s : BoardState) : BoardState :=
  {| bd_current := bd_current s; bd_frozen := bd_frozen s; bd_lastCount := bd_lastCount s; bd_sent := bd_sent s; bd_mu := b |}.
Definition with_sent (l : list Snapshot) (s : BoardState) : BoardState :=
  {| bd_current := bd_current s; bd_frozen := bd_frozen s; bd_lastCount := bd_lastCount s; bd_sent := l; bd_mu := bd_mu s |}.
Definition on_board (f : BoardState → BoardState) : World → World := λ w, set_board (f (w_board w)) w.

(** [s.mu.Lock()] and [s.mu.Unlock()]. *)
Definition Lock : P World unit :=
  blocking (λ w, if bd_mu (w_board w) then None else Some (tt, on_board (with_mu true) w)).
Definition Unlock : P World unit := atomic (modify (on_board (with_mu false))).

Inductive key := keyCurrent | keyFrozen.
Definition lookup_key (k : key) (s : BoardState) : option Snapshot :=
  match k with keyCurrent => bd_current s | keyFrozen => bd_frozen s end.

Definition read (k : key) : P World (option Snapshot) :=
  map_err (Wrap "scoreboard: reading") (atomic (redis (λ s, (lookup_key k s, s)))).
Definition write (snap : Snapshot) : P World unit :=
  map_err (Wrap "scoreboard: writing scoreboard:current")
    (atomic (redis (λ s, (tt, with_current (Some snap) s)))).
Definition writeNX (snap : Snapshot) : P World unit :=
  map_err (Wrap "scoreboard: writing scoreboard:frozen")
    (atomic (redis (λ s, (tt, match bd_frozen s with
                              | Some _ => s | None => with_frozen (Some snap) s end)))).
Definition Exists : P World bool :=
  atomic (redis (λ s, (is_Some_b (bd_frozen s), s))).

(** The section under [mu] that publishes a board: [false] when an already
    published one reflects more solves, otherwise the outcome of the write.  A
    failed write leaves the guard alone. *)
Definition publish (force : bool) (snap : Snapshot) (count : nat) : P World bool :=
  Lock;;
  last ← atomic (gets (λ w, bd_lastCount (w_board w)));
  if negb force && (count <? last)%nat then Unlock;; mret false
  else
    r ← try (write snap);
    (if is_ok r then atomic (modify (on_board (with_lastCount count))) else mret tt);;
    Unlock;;
    match r with Ok _ => mret true | Err e => throw e end.

Definition set_Frozen (b : bool) (s : Snapshot) : Snapshot :=
  {| sn_Frozen := b; sn_GeneratedAt := sn_GeneratedAt s; sn_Standings := sn_Standings s;
     sn_SolveCount := sn_SolveCount s |}.

(** An unreadable event counts as not frozen. *)
Definition frozen : P World bool :=
  r ← try Events.Get;
  match r with Err _ => mret false | Ok e => Frozen e end.

Definition MaybeSnapshotFreeze : P World unit :=
  f ← frozen;
  if negb f then mret tt else
  e ← map_err (Wrap "scoreboard: checking frozen key") Exists;
  if e : bool then mret tt else
  Lock;;
  defer Unlock (
    e ← map_err (Wrap "scoreboard: re-checking frozen key") Exists;
    if e : bool then mret tt else
    c ← compute;
    writeNX (set_Frozen true c.1)).

Definition ClearFreeze : P World unit :=
  map_err (Wrap "scoreboard: clearing frozen snapshot")
    (atomic (redis (λ s, (tt, with_frozen None s)))).

(** The bounded fallback when the cache cannot be read. *)
Definition degradeToRecompute (f : bool) : P World Snapshot :=
  c ← compute;
  atomic (emit (Inc "ScoreboardDegradedServed" []));;
  mret (set_Frozen f c.1).

(** A fresher snapshot when the cached board is behind the solve log. *)
Definition readRepair (snap : Snapshot) : P World (option Snapshot) :=
  live ← try (atomic CountValidSolves);
  match live with
  | Err _ => mret None
  | Ok live =>
      if (live <=? sn_SolveCount snap)%nat then mret None else
      atomic (emit (Inc "ScoreboardStaleReads" []));;
      c ← try compute;
      match c with
      | Err _ => atomic (emit (Inc "ScoreboardStaleServed" []));; mret None
      | Ok (fresh, count) =>
          try (publish false fresh count);;
          mret (Some fresh)
      end
  end.

Definition served (isAdmin repair : bool) : P World Snapshot :=
  f ← frozen;
  hit ← (if f && negb isAdmin then
           o ← read keyFrozen;
           match o with
           | Some snap => mret (Some snap)
           | None => MaybeSnapshotFreeze;; read keyFrozen
           end
         else mret None);
  match hit with
  | Some snap => mret (set_Frozen true snap)
  | None =>
      o ← try (read keyCurrent);
      match o with
      | Err e => if f && negb isAdmin then throw e else degradeToRecompute f
      | Ok None =>
          c ← compute;
          write c.1;;
          mret (set_Frozen f c.1)
      | Ok (Some snap) =>
          if repair then
            r ← readRepair snap;
            mret (set_Frozen f (default snap r))
          else mret (set_Frozen f snap)
      end
  end.

Definition Current (isAdmin : bool) : P World Snapshot := served isAdmin true.

Section Broadcast.
Context (wired : bool).   (* is a broadcaster set? *)

Definition broadcast (snap : Snapshot) : M World unit :=
  modify (λ w, on_board (with_sent (bd_sent (w_board w) ++ [snap])) w).

Definition recompute (force send_out : bool) : P World unit :=
  c ← compute;
  f ← frozen;
  published ← publish force (set_Frozen f c.1) c.2;
  if negb published then mret tt else
  if send_out && wired then
    pub ← served false false;
    atomic (broadcast pub)
  else mret tt.

Definition Recompute : P World unit := recompute false true.
Definition RecomputeForce : P World unit := recompute true false;; recompute false true.

Definition ReconcileIfBehind : P World unit :=
  o ← read keyCurrent;
  match o with
  | None => Recompute
  | Some snap =>
      live ← atomic CountValidSolves;
      if (sn_SolveCount snap <? live)%nat then Recompute else mret tt
  end.
End Broadcast.
