(* ===== verification/StandingsSpec.v ===== *)
(** * What the standings are

    The specification of the board's algorithm: each visible team's row as a
    closed formula over the solve log, the order of the rows, and the ranks. *)

From S2P Require Import Prelude Env Store Scoring Submissions Scoreboard.

(** ** Stable sorting *)

Section StableSort.
Context (less : Entry → Entry → bool).
Context (asym : ∀ a b, less a b = true → less b a = false).
Context (ntrans : ∀ a b c, less b a = false → less c b = false → less c a = false).

(** [a] may stand before [b]. *)
Definition ordered (a b : Entry) : Prop := less b a = false.

Lemma stable_insert_perm a l : stable_insert less a l ≡ₚ a :: l.
Proof.
  induction l as [|b l IH]; simpl; [done|]. destruct (less b a); [|done].
  by rewrite IH, Permutation_swap.
Qed.

Lemma SliceStable_perm l : SliceStable less l ≡ₚ l.
Proof.
  induction l as [|a l IH]; simpl; [done|]. by rewrite stable_insert_perm, IH.
Qed.

Lemma stable_insert_sorted a l :
  StronglySorted ordered l → StronglySorted ordered (stable_insert less a l).
Proof.
  induction 1 as [|b l Hl IH Hb]; simpl; [repeat constructor|].
  destruct (less b a) eqn:E; constructor; try done.
  - apply Forall_forall. intros x Hx.
    apply (elem_of_Permutation_proper x _ _ (stable_insert_perm a l)) in Hx.
    apply elem_of_cons in Hx as [->|Hx]; [by apply asym|].
    by apply (proj1 (Forall_forall _ _) Hb).
  - by constructor.
  - constructor; [done|]. eapply Forall_impl; [exact Hb|]. intros x Hx.
    by eapply ntrans.
Qed.

Lemma SliceStable_sorted l : StronglySorted ordered (SliceStable less l).
Proof. induction l as [|a l IH]; simpl; [constructor|]. by apply stable_insert_sorted. Qed.

(** Rows that tie keep the order they came in. *)
Lemma SliceStable_stable (tie : Entry → bool) l :
  (∀ a b, tie a = true → tie b = true → less a b = false) →
  List.filter tie (SliceStable less l) = List.filter tie l.
Proof.
  intros Htie. induction l as [|a l IH]; simpl; [done|]. rewrite <- IH.
  generalize (SliceStable less l) as s. clear IH.
  induction s as [|b s IHs]; simpl; [by destruct (tie a)|].
  destruct (less b a) eqn:E; [|done]. simpl. rewrite IHs.
  destruct (tie a) eqn:Ea, (tie b) eqn:Eb; try done.
  by rewrite (Htie b a) in E.
Qed.
End StableSort.

(** ** The comparisons *)

Lemma string_lt_asym a b : string_lt a b = true → string_lt b a = false.
Proof.
  revert b; induction a as [|c a IH]; intros [|d b]; simpl; try done.
  repeat case_match; try done; auto;
    repeat match goal with
    | H : (_ <? _)%nat = true |- _ => apply Nat.ltb_lt in H
    | H : (_ <? _)%nat = false |- _ => apply Nat.ltb_ge in H
    end; lia.
Qed.

Lemma string_lt_ntrans a b c :
  string_lt b a = false → string_lt c b = false → string_lt c a = false.
Proof.
  revert b c; induction a as [|x a IH]; intros [|y b] [|z c]; simpl; try done.
  repeat case_match; try done; eauto;
    repeat match goal with
    | H : (_ <? _)%nat = true |- _ => apply Nat.ltb_lt in H
    | H : (_ <? _)%nat = false |- _ => apply Nat.ltb_ge in H
    end; lia.
Qed.

Ltac zbools :=
  repeat match goal with
  | H : negb _ = true |- _ => apply negb_true_iff in H
  | H : negb _ = false |- _ => apply negb_false_iff in H
  | H : (_ =? _)%Z = true |- _ => apply Z.eqb_eq in H
  | H : (_ =? _)%Z = false |- _ => apply Z.eqb_neq in H
  | H : (_ <? _)%Z = true |- _ => apply Z.ltb_lt in H
  | H : (_ <? _)%Z = false |- _ => apply Z.ltb_ge in H
  end.

Lemma entry_less_asym a b : entry_less a b = true → entry_less b a = false.
Proof.
  unfold entry_less. destruct (b_LastSolveAt a), (b_LastSolveAt b);
    repeat case_match; intros; zbools; try done; try lia; try (apply Z.ltb_ge; lia);
    try by apply string_lt_asym.
Qed.

Lemma entry_less_ntrans a b c :
  entry_less b a = false → entry_less c b = false → entry_less c a = false.
Proof.
  unfold entry_less. destruct (b_LastSolveAt a), (b_LastSolveAt b), (b_LastSolveAt c);
    repeat case_match; intros; zbools; try done; try lia; try (apply Z.ltb_ge; lia);
    try by eapply string_lt_ntrans.
Qed.

(** ** The order, as it is documented

    Points downwards; then the last solve upwards, no solve before any; then the name upwards, bytewise. *)

Definition earlier (x y : option time) : Prop :=
  match x, y with None, Some _ => True | Some s, Some t => (s < t)%Z | _, None => False end.
Definition name_upto (a b : Entry) : Prop := String.compare (b_Name a) (b_Name b) ≠ Gt.
Definition stands_before (a b : Entry) : Prop :=
  (b_Points b < b_Points a)%Z ∨
  (b_Points a = b_Points b ∧
   (earlier (b_LastSolveAt a) (b_LastSolveAt b) ∨ (b_LastSolveAt a = b_LastSolveAt b ∧ name_upto a b))).
Definition level (a b : Entry) : Prop :=
  b_Points a = b_Points b ∧ b_LastSolveAt a = b_LastSolveAt b ∧ b_Name a = b_Name b.

Lemma string_lt_compare a b : string_lt a b = true ↔ String.compare a b = Lt.
Proof.
  revert b; induction a as [|c a IH]; intros [|d b]; simpl; try done.
  unfold Ascii.compare. unfold Ascii.nat_of_ascii. destruct (N.compare_spec (Ascii.N_of_ascii c) (Ascii.N_of_ascii d)) as [E|E|E].
  - rewrite E, Nat.ltb_irrefl. apply IH.
  - rewrite (proj2 (Nat.ltb_lt _ _)) by lia. done.
  - rewrite (proj2 (Nat.ltb_ge _ _)) by lia. rewrite (proj2 (Nat.ltb_lt _ _)) by lia. done.
Qed.
Lemma name_upto_spec a b : string_lt (b_Name b) (b_Name a) = false ↔ name_upto a b.
Proof.
  unfold name_upto. rewrite <- not_true_iff_false, string_lt_compare, String.compare_antisym.
  destruct (String.compare (b_Name a) (b_Name b)); simpl; split; congruence.
Qed.
Lemma stands_before_spec a b : ordered entry_less a b ↔ stands_before a b.
Proof.
  unfold ordered, entry_less, stands_before. rewrite <- name_upto_spec.
  destruct (Z.eqb_spec (b_Points b) (b_Points a)) as [E|E]; simpl.
  2: { rewrite Z.ltb_ge. split; [left; lia|intros [|[? _]]; lia]. }
  destruct (b_LastSolveAt a) as [x|], (b_LastSolveAt b) as [y|]; simpl.
  - destruct (Z.eqb_spec y x) as [->|Hn]; simpl; [|rewrite Z.ltb_ge; split; [right; split; [done|left; lia]|intros [?|[_ [?|[[=] _]]]]; lia]].
    split; [by right; split; [|right]|intros [?|[_ [?|[_ ?]]]]; [lia|lia|done]].
  - split; [done|]. intros [?|[_ [[]|[[=] _]]]]; lia.
  - split; [by right; split; [|left]|done].
  - split; [by right; split; [|right]|intros [?|[_ [[]|[_ ?]]]]; [lia|done]].
Qed.
Lemma level_ties a b : level a b → entry_less a b = false.
Proof.
  intros (E1 & E2 & E3). apply (stands_before_spec b a). right. split; [done|]. right. split; [done|].
  apply name_upto_spec. rewrite E3. destruct (string_lt (b_Name b) (b_Name b)) eqn:E; [|done]. by rewrite (string_lt_asym _ _ E) in E.
Qed.
Lemma sorted_mono {A} (R R' : A → A → Prop) l : (∀ a b, R a b → R' a b) → StronglySorted R l → StronglySorted R' l.
Proof. intros HR. induction 1; constructor; [done|]. eapply Forall_impl; [done|auto]. Qed.

(** ** The sums *)

(** The rows of a challenge, the rows of a team, and what a row is worth. *)
Definition of_challenge (c : uuid) (r : SolveRow) : bool := bool_decide (sr_ChallengeID r = c).
Definition of_team (t : uuid) (r : SolveRow) : bool := bool_decide (sr_TeamID r = t).

Definition counted (rows : list SolveRow) (c : uuid) : Z :=
  Z.of_nat (length (List.filter (λ r, of_challenge c r && negb (sr_TeamBanned r)) rows)).

Definition worth (rows : list SolveRow) (r : SolveRow) : Z :=
  if IsBuiltinMode (sr_Scoring r)
  then Value (sr_Scoring r) (sr_Params r) (counted rows (sr_ChallengeID r))
  else default 0%Z (sr_ScoredValue r).

Definition sum_Z (l : list Z) : Z := foldr Z.add 0%Z l.
Definition latest (l : list time) : time := foldr Z.max zero_time l.

(** A team's row, without its rank. *)
Definition spec_entry (rows : list SolveRow) (t : TeamRow) : Entry :=
  let own := List.filter (of_team (tr_ID t)) rows in
  {| b_Banned := tr_Banned t;
     b_LastSolveAt := match own with [] => None | _ => Some (latest (map sr_SolvedAt own)) end;
     b_Name := tr_Name t; b_Points := sum_Z (map (worth rows) own); b_Rank := None;
     b_Solves := length own; b_TeamID := tr_ID t |}.

(** Scoring mode and parameters belong to the challenge. *)
Definition consistent (rows : list SolveRow) : Prop :=
  ∀ r r', r ∈ rows → r' ∈ rows → sr_ChallengeID r = sr_ChallengeID r' →
    sr_Scoring r = sr_Scoring r' ∧ sr_Params r = sr_Params r'.

Lemma valid_solves_consistent d : consistent (valid_solves d).
Proof.
  intros r r' (s & Hs & E)%list_elem_of_omap (s' & Hs' & E')%list_elem_of_omap.
  unfold valid_solve in *.
  destruct (s_Correct s); [|done]. destruct (s_Correct s'); [|done]. simpl in *.
  destruct (teams d !! s_TeamID s); [|done]. destruct (teams d !! s_TeamID s'); [|done].
  destruct (challenges d !! s_ChallengeID s) eqn:Ec; [|done].
  destruct (challenges d !! s_ChallengeID s') eqn:Ec'; [|done].
  repeat case_match; simplify_eq; simpl. intros Eid. rewrite Eid in Ec. by simplify_eq.
Qed.

Lemma solveCount_app rows r :
  solveCount (rows ++ [r]) =
  if sr_TeamBanned r then solveCount rows
  else <[sr_ChallengeID r := (default 0 (solveCount rows !! sr_ChallengeID r) + 1)%Z]> (solveCount rows).
Proof. unfold solveCount. by rewrite foldl_app. Qed.

Lemma filter_snoc {A} (f : A → bool) l x :
  List.filter f (l ++ [x]) = List.filter f l ++ (if f x then [x] else []).
Proof. rewrite List.filter_app. simpl. by destruct (f x). Qed.

Lemma find_snoc {A} (f : A → bool) l x :
  List.find f (l ++ [x]) =
  match List.find f l with Some y => Some y | None => if f x then Some x else None end.
Proof. induction l as [|y l IH]; simpl; [done|]. by destruct (f y). Qed.

Lemma solveCount_spec rows c : default 0%Z (solveCount rows !! c) = counted rows c.
Proof.
  induction rows as [|r rows IH] using rev_ind; [done|].
  rewrite solveCount_app. unfold counted in *. rewrite filter_snoc, length_app.
  unfold of_challenge at 2. destruct (sr_TeamBanned r); simpl.
  { rewrite andb_false_r. simpl. rewrite IH. lia. }
  rewrite andb_true_r. destruct (decide (sr_ChallengeID r = c)) as [<-|Hne].
  - rewrite lookup_insert_eq, bool_decide_true by done. simpl. rewrite IH. lia.
  - rewrite lookup_insert_ne, bool_decide_false by done. simpl. rewrite IH. lia.
Qed.

Lemma chalParams_spec rows c :
  chalParams rows !! c = (λ r, (sr_Scoring r, sr_Params r)) <$> List.find (of_challenge c) rows.
Proof.
  induction rows as [|r rows IH] using rev_ind; [done|].
  unfold chalParams in *. rewrite foldl_app, find_snoc. cbn [foldl].
  set (m := foldl _ _ rows) in *. clearbody m. unfold of_challenge at 2.
  destruct (m !! sr_ChallengeID r) as [cp|] eqn:E.
  - case_bool_decide as Hc.
    + subst. rewrite E in *. destruct (List.find _ rows); [done|]. discriminate.
    + rewrite IH. by destruct (List.find _ rows).
  - case_bool_decide as Hc.
    + subst. rewrite lookup_insert_eq. rewrite IH in E. by destruct (List.find _ rows).
    + rewrite lookup_insert_ne, IH by done. by destruct (List.find _ rows).
Qed.

Lemma chal_values_spec rows r :
  consistent rows → r ∈ rows → IsBuiltinMode (sr_Scoring r) = true →
  chal_values rows !! sr_ChallengeID r = Some (worth rows r).
Proof.
  intros Hc Hr Hb. unfold chal_values. rewrite map_lookup_imap, chalParams_spec.
  destruct (List.find _ rows) as [r0|] eqn:E; simpl.
  - apply List.find_some in E as [Hin Hid]. apply bool_decide_eq_true_1 in Hid.
    apply list_elem_of_In in Hin. destruct (Hc r0 r Hin Hr Hid) as [-> ->].
    unfold worth. by rewrite Hb, solveCount_spec.
  - apply list_elem_of_In in Hr. apply (List.find_none _ _ E) in Hr.
    unfold of_challenge in Hr. by rewrite bool_decide_true in Hr.
Qed.

Lemma aggregate_spec v rows t :
  aggregate v rows !! t =
  match List.filter (of_team t) rows with
  | [] => None | own => Some (foldl (add_solve v) no_solves own)
  end.
Proof.
  induction rows as [|r rows IH] using rev_ind; [done|].
  unfold aggregate in *. rewrite foldl_app, filter_snoc. simpl.
  set (m := foldl _ _ rows) in *. clearbody m. unfold of_team at 2.
  case_bool_decide as Ht.
  - subst. rewrite lookup_insert_eq, IH. destruct (List.filter _ rows) as [|x l]; [done|].
    simpl. by rewrite foldl_app.
  - by rewrite lookup_insert_ne, app_nil_r, IH.
Qed.

Lemma add_solves_spec v w own a :
  (∀ r, r ∈ own → IsBuiltinMode (sr_Scoring r) = true → v !! sr_ChallengeID r = Some (w r)) →
  (∀ r, r ∈ own → IsBuiltinMode (sr_Scoring r) = false → w r = default 0%Z (sr_ScoredValue r)) →
  let a' := foldl (add_solve v) a own in
  ag_points a' = (ag_points a + sum_Z (map w own))%Z ∧
  ag_solves a' = (ag_solves a + length own)%nat ∧
  ag_lastSolve a' = foldl Z.max (ag_lastSolve a) (map sr_SolvedAt own).
Proof.
  revert a; induction own as [|r own IH]; intros a Hb Hp; simpl; [split_and!; lia|].
  destruct (IH (add_solve v a r)) as (-> & -> & ->).
  { intros; apply Hb; [by right|done]. }
  { intros; apply Hp; [by right|done]. }
  specialize (Hb r (list_elem_of_here _ _)). specialize (Hp r (list_elem_of_here _ _)).
  split_and!; [|simpl; lia|].
  - simpl. destruct (IsBuiltinMode _).
    + rewrite Hb by done. simpl. lia.
    + rewrite Hp by done. destruct (sr_ScoredValue r); simpl; lia.
  - f_equal. simpl. destruct (Z.ltb_spec (ag_lastSolve a) (sr_SolvedAt r)); lia.
Qed.

Lemma foldl_max_latest l a : foldl Z.max (Z.max zero_time a) l = Z.max a (latest l).
Proof.
  revert a; induction l as [|x l IH]; intros a; simpl; [unfold zero_time; lia|].
  rewrite <- Z.max_assoc, IH. lia.
Qed.

Lemma entry_of_spec rows t :
  consistent rows → entry_of (aggregate (chal_values rows) rows) t = spec_entry rows t.
Proof.
  intros Hc. unfold entry_of, spec_entry. rewrite aggregate_spec.
  destruct (List.filter _ rows) as [|r own] eqn:E; [done|]. rewrite <- E.
  assert (∀ r, r ∈ List.filter (of_team (tr_ID t)) rows → r ∈ rows) as Hsub.
  { intros x Hx. apply list_elem_of_In, List.filter_In in Hx as [Hx _]. by apply list_elem_of_In. }
  destruct (add_solves_spec (chal_values rows) (worth rows)
    (List.filter (of_team (tr_ID t)) rows) no_solves) as (Hpt & Hs & Hl).
  { intros x Hx. by apply chal_values_spec, Hsub. }
  { intros x Hx Hm. unfold worth. by rewrite Hm. }
  f_equal; [|done|done].
  f_equal. rewrite Hl. change (ag_lastSolve no_solves) with (Z.max zero_time zero_time).
  rewrite foldl_max_latest. generalize (map sr_SolvedAt (List.filter (of_team (tr_ID t)) rows)).
  intros l. induction l as [|x l IH]; simpl; [lia|]. lia.
Qed.

(** ** The board *)

Definition spec_rows (rows : list SolveRow) (ts : list TeamRow) (banned : bool) : list Entry :=
  map (spec_entry rows) (List.filter (λ t, eqb (tr_Banned t) banned) ts).

Lemma filter_map_entries rows ts (f : Entry → bool) (b : bool) :
  consistent rows → (∀ t, f (spec_entry rows t) = eqb (tr_Banned t) b) →
  List.filter f (map (entry_of (aggregate (chal_values rows) rows)) ts) = spec_rows rows ts b.
Proof.
  intros Hc Hf. unfold spec_rows. induction ts as [|t ts IH]; simpl; [done|].
  rewrite entry_of_spec, Hf by done. destruct (eqb _ _); simpl; by rewrite IH.
Qed.

(** [board] is the standings that [rows], the valid solves, give the teams [ts]:
    every team with the sum of what its solves are worth, their number and the latest of
    them; the unbanned ones first, most points first, then the earlier last solve, then the
    name, ranked from 1 in that order; the banned ones after them by name, without a
    rank; teams that nothing tells apart in the order of [ts]. *)
Definition right_board (rows : list SolveRow) (ts : list TeamRow) (board : list Entry) : Prop :=
  ∃ active banned,
    board = numbered active ++ banned ∧
    active ≡ₚ spec_rows rows ts false ∧ banned ≡ₚ spec_rows rows ts true ∧
    StronglySorted stands_before active ∧ StronglySorted name_upto banned ∧
    (∀ i e, active !! i = Some e → board !! i = Some (set_rank (Some (S i)) e)) ∧
    (∀ e, e ∈ banned → b_Rank e = None) ∧
    (∀ tie, (∀ a b, tie a = true → tie b = true → level a b) →
      List.filter tie active = List.filter tie (spec_rows rows ts false)).

Lemma standings_right rows ts : consistent rows → right_board rows ts (standings ts rows).
Proof.
  intros Hc.
  exists (SliceStable entry_less (spec_rows rows ts false)),
    (SliceStable name_less (spec_rows rows ts true)).
  assert (standings ts rows = numbered (SliceStable entry_less (spec_rows rows ts false)) ++
    SliceStable name_less (spec_rows rows ts true)) as Es.
  { unfold standings. f_equal; [f_equal|]; f_equal;
      apply filter_map_entries; try done; intros t; simpl; by destruct (tr_Banned t). }
  rewrite Es. split_and!; [done|apply SliceStable_perm|apply SliceStable_perm|..].
  - eapply sorted_mono; [intros a b; apply stands_before_spec|].
    apply SliceStable_sorted; [apply entry_less_asym|apply entry_less_ntrans].
  - eapply sorted_mono; [intros a b; apply name_upto_spec|].
    apply SliceStable_sorted; intros *; [apply string_lt_asym|apply string_lt_ntrans].
  - intros i e Ei. unfold numbered. rewrite lookup_app_l; [by rewrite list_lookup_imap, Ei|].
    rewrite length_imap. by eapply lookup_lt_Some.
  - intros e He. rewrite SliceStable_perm in He.
    apply list_elem_of_fmap in He as (t & -> & _). done.
  - intros tie Htie. apply SliceStable_stable. intros a b Ha Hb. by apply level_ties, Htie.
Qed.

(** C9: The standings are exactly the visible teams, each with the sum of what its
    valid solves are worth (the formula at the count of unbanned solvers for a
    built-in mode, the recorded value for a plugin mode), its number of solves and
    its latest solve; unbanned teams come first, ordered by points, then earlier
    last solve, then name, and are ranked 1 to n in that order; banned teams trail
    by name, unranked; rows that tie keep the order of the team list. *)
Theorem standings_correct (d : DB) :
  right_board (valid_solves d) (scoreboard_teams d) (standings (scoreboard_teams d) (valid_solves d)).
Proof. apply standings_right, valid_solves_consistent. Qed.
