(* ===== verification/ScoreboardRules.v ===== *)
(** * The served board under interleaving

    The published board never falls behind, the frozen board is captured once,
    and a read is never older than the solve log it started from: each for any
    number of concurrent recomputes, tickers and reads. *)

From S2P Require Import Prelude Interleave Env Store Events Scoring Submissions Scoreboard Demo.

(** ** The write guard *)

(** Where a thread is in the section that publishes. *)
Inductive phase := Idle | Locked | Checked (count : nat) | Wrote (count : nat).
#[export] Instance phase_eq_dec : EqDecision phase.
Proof. solve_decision. Defined.
Definition active (g : phase) : bool := match g with Idle => false | _ => true end.

(** At most one thread is inside [mu], and the guard value is the solve count of
    the published board except between its write and its update. *)
Definition board_inv (gs : list phase) (w : World) : Prop :=
  ∃ snap, bd_current (w_board w) = Some snap ∧
  match List.filter active gs with
  | [] => bd_mu (w_board w) = false ∧ bd_lastCount (w_board w) = sn_SolveCount snap
  | [Locked] => bd_mu (w_board w) = true ∧ bd_lastCount (w_board w) = sn_SolveCount snap
  | [Checked c] => bd_mu (w_board w) = true ∧ bd_lastCount (w_board w) = sn_SolveCount snap ∧
                   sn_SolveCount snap ≤ c
  | [Wrote c] => bd_mu (w_board w) = true ∧ sn_SolveCount snap = c
  | _ => False
  end.

Definition board_count (w : World) : nat := from_option sn_SolveCount 0 (bd_current (w_board w)).
Definition never_regresses (w w' : World) : Prop := board_count w ≤ board_count w'.

Lemma filter_perm {A} (f : A → bool) l l' : l ≡ₚ l' → List.filter f l ≡ₚ List.filter f l'.
Proof.
  induction 1; simpl; repeat case_match; try done; [by constructor|apply Permutation_swap|by etrans].
Qed.

Lemma board_inv_perm gs gs' w : gs ≡ₚ gs' → board_inv gs w → board_inv gs' w.
Proof.
  intros Hp (snap & Es & HI). exists snap. split; [done|].
  apply (filter_perm active) in Hp.
  destruct (List.filter active gs) as [|g [|g2 l]] eqn:E.
  - apply Permutation_nil_l in Hp. by rewrite <- Hp.
  - apply Permutation_singleton_l in Hp. by rewrite <- Hp.
  - by destruct g.
Qed.

Abbreviation guarded_by := (holds (λ _, True) board_inv never_regresses).

(** Steps that leave the published board, its guard and the lock alone. *)
Definition core (s : BoardState) := (bd_current s, bd_lastCount s, bd_mu s).

Lemma core_same w w' gs :
  core (w_board w') = core (w_board w) → board_inv gs w → board_inv gs w' ∧ never_regresses w w'.
Proof.
  intros [= E1 E2 E3] HI. unfold board_inv, never_regresses, board_count in *. by rewrite E1, E2, E3.
Qed.

Lemma board_same_step {A} (m : M World A) (Q : res A → phase → Prop) g :
  (∀ w, core (w_board (m w).2) = core (w_board w)) → (∀ r, Q r g) → guarded_by (atomic m) Q g.
Proof.
  intros Hm HQ. apply holds_atomic. intros gs w HI. exists g.
  destruct (core_same _ _ _ (Hm w) HI). split_and!; [done..|apply HQ].
Qed.

Definition leaves_board {A} (p : prog World A) : Prop := ∀ b, all_steps (λ w, w_board w = b) p.

Lemma board_same {A} (p : prog World A) (Q : A → phase → Prop) g :
  leaves_board p → (∀ a, Q a g) → guarded_by p Q g.
Proof.
  intros Hp HQ. revert g HQ; induction p as [A a|A X f k IH|A child IHc k IH]; intros g HQ; simpl.
  - apply HQ.
  - intros gs w x w' HI E.
    assert (w_board w' = w_board w) as Hb by (by eapply (proj1 (Hp (w_board w)))).
    exists g. unfold board_inv, never_regresses, board_count in *. rewrite Hb. split_and!; [done..|].
    apply IH; [|done]. intros b. by apply Hp.
  - intros gs w HI. exists g, Idle. split_and!.
    + destruct HI as (snap & Es & HI). exists snap. split; [done|]. by destruct g.
    + apply IH; [|done]. intros b. by apply Hp.
    + apply IHc; [|done]. intros b. by apply Hp.
Qed.

Lemma select_board {A} (f : DB → res A) w : w_board (select f w).2 = w_board w.
Proof.
  unfold select, query, mbind, M_bind, next_fault.
  by destruct (w_faults w) as [|[] fs]; simpl; try destruct (f (w_db w)).
Qed.

Lemma redis_board {A} (f : BoardState → A * BoardState) w r w' :
  redis f w = (r, w') →
  match r with
  | Ok a => f (w_board w) = (a, w_board w')
  | Err _ => w_board w' = w_board w
  end.
Proof.
  unfold redis, mbind, M_bind, next_fault.
  destruct (w_faults w) as [|[] fs]; simpl; [|by intros [= <- <-]|];
    destruct (f (w_board w)) as [a s]; by intros [= <- <-].
Qed.

Lemma redis_step {A} (f : BoardState → A * BoardState) (Q : res A → phase → Prop) g :
  (∀ s, core (f s).2 = core s) → (∀ r, Q r g) → guarded_by (atomic (redis f)) Q g.
Proof.
  intros Hf. apply board_same_step. intros w. destruct (redis f w) as [r w'] eqn:E.
  apply redis_board in E. simpl. destruct r as [a|e]; [|by rewrite E].
  specialize (Hf (w_board w)). by rewrite E in Hf.
Qed.

Lemma board_inv_alone g gs w : board_inv (g :: gs) w → active g = true → List.filter active gs = [].
Proof.
  intros (snap & _ & HI) Hg. simpl in HI. rewrite Hg in HI.
  destruct (List.filter active gs); [done|]. by destruct g.
Qed.

Lemma board_inv_idle gs w :
  board_inv (Idle :: gs) w → bd_mu (w_board w) = false → List.filter active gs = [].
Proof.
  intros (snap & _ & HI) Hmu. simpl in HI. destruct (List.filter active gs) as [|[] []]; intuition congruence.
Qed.

Lemma Lock_step (Q : res unit → phase → Prop) : Q (Ok tt) Locked → guarded_by Lock Q Idle.
Proof.
  intros HQ. apply holds_blocking. intros gs w [] w' HI E. exists Locked.
  destruct (bd_mu (w_board w)) eqn:Hmu; [done|]. injection E as <-.
  pose proof (board_inv_idle _ _ HI Hmu) as Hgs. destruct HI as (snap & Es & HI). simpl in HI.
  rewrite Hgs in HI. split_and!; [|by unfold never_regresses|done].
  exists snap. split; [done|]. simpl. rewrite Hgs. naive_solver.
Qed.

Lemma Unlock_step (Q : res unit → phase → Prop) g :
  (g = Locked ∨ ∃ c, g = Checked c) → Q (Ok tt) Idle → guarded_by Unlock Q g.
Proof.
  intros Hg HQ. apply holds_atomic. intros gs w HI. exists Idle.
  assert (active g = true) as Ha by (destruct Hg as [->|[c ->]]; done).
  pose proof (board_inv_alone _ _ _ HI Ha) as Hgs. destruct HI as (snap & Es & HI). simpl in HI.
  rewrite Ha, Hgs in HI. split_and!; [|by unfold never_regresses|exact HQ].
  exists snap. split; [done|]. simpl. rewrite Hgs. destruct Hg as [->|[c ->]]; naive_solver.
Qed.

Lemma compute_board g :
  guarded_by compute (λ r g', g' = g ∧ ∀ c, r = Ok c → sn_SolveCount c.1 = c.2) g.
Proof.
  unfold compute. apply holds_bind, board_same_step; [done|]. intros [now|e]; [|done].
  apply holds_bind, holds_map_err, board_same_step.
  { intros w. unfold core, ListScoreboardTeams, ListValidSolves. by rewrite select_board. }
  intros [ts|e]; [|done]. apply holds_bind, holds_map_err, board_same_step.
  { intros w. unfold core, ListScoreboardTeams, ListValidSolves. by rewrite select_board. }
  intros [rows|e]; [|done]. split; [done|]. by intros c [= <-].
Qed.

Lemma read_current g : guarded_by (read keyCurrent) (λ r g', g' = g ∧ r ≠ Ok None) g.
Proof.
  apply holds_map_err, holds_atomic. intros gs w HI. exists g.
  destruct (redis _ w) as [r w'] eqn:E. apply redis_board in E.
  assert (core (w_board w') = core (w_board w)) as Hc.
  { destruct r; [|by rewrite E]. by injection E as _ <-. }
  destruct (core_same _ _ _ Hc HI). split_and!; [done..|].
  destruct HI as (snap & Es & _). destruct r as [a|e]; [|done]. injection E as E _.
  simpl in E. simpl. intros [= ->]. congruence.
Qed.

Lemma publish_board snap count :
  sn_SolveCount snap = count →
  guarded_by (publish false snap count) (λ _ g, g = Idle) Idle.
Proof.
  intros Hsc. unfold publish. apply holds_bind, Lock_step.
  apply holds_bind, holds_atomic. intros gs w HI.
  exists (if (count <? bd_lastCount (w_board w))%nat then Locked else Checked count).
  pose proof (board_inv_alone _ _ _ HI eq_refl) as Hgs.
  destruct HI as (old & Es & HI). simpl in HI. rewrite Hgs in HI.
  split_and!; [|by unfold never_regresses|].
  { exists old. split; [done|]. simpl. destruct (Nat.ltb_spec count (bd_lastCount (w_board w)));
      simpl; rewrite Hgs; naive_solver lia. }
  clear HI Es Hgs old. cbn [fst gets negb andb]. destruct (count <? _)%nat.
  { apply holds_bind, Unlock_step; [by left|done]. }
  apply holds_bind, holds_try, holds_map_err, holds_atomic. clear gs w.
  intros gs w HI. destruct (redis _ w) as [r w'] eqn:E. apply redis_board in E.
  pose proof (board_inv_alone _ _ _ HI eq_refl) as Hgs. cbn [fst snd].
  destruct r as [[]|e].
  - injection E as E. exists (Wrote count). destruct HI as (old & Es & HI). simpl in HI.
    rewrite Hgs in HI. split_and!.
    + exists snap. rewrite <- E. split; [done|]. simpl. rewrite Hgs. naive_solver.
    + unfold never_regresses, board_count. rewrite <- E, Es. simpl. lia.
    + cbn [is_ok]. apply holds_bind, holds_atomic. clear -Hsc. intros gs w HI. exists Locked.
      pose proof (board_inv_alone _ _ _ HI eq_refl) as Hgs.
      destruct HI as (old & Es & HI). simpl in HI. rewrite Hgs in HI.
      split_and!; [|by unfold never_regresses|].
      { exists old. split; [done|]. simpl. rewrite Hgs. naive_solver. }
      apply holds_bind, Unlock_step; [by left|done].
  - exists (Checked count). destruct (core_same w w' _ ltac:(by rewrite E) HI). split_and!; [done..|].
    cbn [is_ok]. apply holds_bind, holds_ret, holds_bind, Unlock_step; [by right; eauto|done].
Qed.

(** The programs that share the board: recomputes, the ticker, reads, the freeze,
    and whatever leaves the board alone. *)
Inductive board_program : prog World unit → Prop :=
  | bp_recompute wired : board_program (forget (Recompute wired))
  | bp_reconcile wired : board_program (forget (ReconcileIfBehind wired))
  | bp_freeze : board_program (forget MaybeSnapshotFreeze)
  | bp_clear : board_program (forget ClearFreeze)
  | bp_read isAdmin : board_program (forget (Current isAdmin))
  | bp_other p : leaves_board p → board_program p.

Lemma preserves_board_query {A} b (f : time → DB → res A * DB) :
  preserves (λ w, w_board w = b) (query f).
Proof.
  intros w <-. unfold query, mbind, M_bind, next_fault.
  destruct (w_faults w) as [|[] fs]; simpl; try done; by destruct (f _ _) as [[a|e] d].
Qed.
#[local] Hint Extern 2 (preserves _ (query _)) => apply preserves_board_query : pres.
#[local] Hint Extern 2 (preserves _ (select _)) => apply preserves_board_query : pres.

Lemma leaves_board_query {A} (f : time → DB → res A * DB) : leaves_board (atomic (query f)).
Proof. intros b. auto with pres. Qed.

Lemma frozen_leaves_board : leaves_board frozen.
Proof. intros b. unfold frozen, Events.Get, GetEvent, Frozen. by steps. Qed.

Ltac board :=
  lazymatch goal with
  | |- guarded_by (mret _) _ _ => apply holds_ret
  | |- guarded_by (throw _) _ _ => apply holds_throw
  | |- guarded_by (match ?x with _ => _ end) _ _ => destruct x
  | |- guarded_by (_ ≫= _) _ _ => apply holds_bind
  | |- guarded_by (try _) _ _ => apply holds_try
  | |- guarded_by (map_err _ _) _ _ => apply holds_map_err
  | |- guarded_by (defer _ _) _ _ => apply holds_defer
  | |- guarded_by frozen _ _ => apply board_same; [apply frozen_leaves_board|intros [?|?]]
  | |- guarded_by (atomic (redis _)) _ _ =>
      apply redis_step; [intros; simpl; repeat case_match; done|intros [?|?]]
  | |- guarded_by (atomic CountValidSolves) _ _ =>
      apply board_same; [apply leaves_board_query|intros [?|?]]
  | |- guarded_by (atomic (emit _)) _ _ => apply board_same_step; [done|intros [?|?]]
  | |- guarded_by compute _ _ =>
      eapply holds_mono; [apply compute_board|intros [[? ?]|?] ? [-> Hcomputed]; cbn beta iota]
  | |- guarded_by (read keyCurrent) _ _ =>
      eapply holds_mono; [apply read_current|intros [[?|]|?] ? [-> Hhit]; cbn beta iota; [|done|]]
  | |- guarded_by Lock _ _ => apply Lock_step
  | |- guarded_by Unlock _ _ => apply Unlock_step; [by left|]
  | |- guarded_by (publish false _ _) _ _ =>
      eapply holds_mono; [apply publish_board|intros [?|?] ? ->]
  end.

Lemma MaybeSnapshotFreeze_board : guarded_by MaybeSnapshotFreeze (λ _ g, g = Idle) Idle.
Proof. unfold MaybeSnapshotFreeze, Exists, writeNX. repeat board; done. Qed.

Lemma served_board isAdmin repair : guarded_by (served isAdmin repair) (λ _ g, g = Idle) Idle.
Proof.
  assert (∀ snap, guarded_by (readRepair snap) (λ _ g, g = Idle) Idle) as Hrr.
  { intros snap. unfold readRepair. repeat board; try done. by apply (Hcomputed _ eq_refl). }
  assert (guarded_by (read keyFrozen) (λ _ g, g = Idle) Idle) as Hfr.
  { unfold read. repeat board; done. }
  unfold served, degradeToRecompute. board. board; [|done]. board.
  eapply holds_mono with (Q := λ _ g, g = Idle).
  - destruct (a && negb isAdmin); [|done]. apply holds_bind. eapply holds_mono; [exact Hfr|].
    intros [[snap|]|e] g ->; try done. apply holds_bind.
    eapply holds_mono; [apply MaybeSnapshotFreeze_board|]. intros [[]|e] g ->; done.
  - intros [[snap|]|e] g ->; try done. repeat board; try done.
    eapply holds_mono; [apply Hrr|]. intros [?|?] g ->; done.
Qed.

Lemma recompute_board wired : guarded_by (Recompute wired) (λ _ g, g = Idle) Idle.
Proof.
  unfold Recompute, recompute. repeat board; try done.
  - by apply (Hcomputed _ eq_refl).
  - eapply holds_mono; [apply served_board|]. intros [snap|e] g ->; [|done].
    by apply board_same_step.
Qed.

Lemma board_program_guarded p : board_program p → guarded_by p (λ _ _, True) Idle.
Proof.
  destruct 1; [apply holds_forget; apply (holds_mono _ _ _ _ (λ _ g, g = Idle)); [|done]..|].
  - apply recompute_board.
  - unfold ReconcileIfBehind. repeat board; first [apply recompute_board|reflexivity].
  - apply MaybeSnapshotFreeze_board.
  - unfold ClearFreeze. repeat board; done.
  - apply served_board.
  - by apply board_same.
Qed.

(** C8: Once a board is cached and the write guard holds its solve count, with nobody in the
    lock, then however any number of solve-path recomputes, ticker reconciles, reads with
    their read-repairs, freezes and unfreezes (but no forced recompute) interleave, step by
    step and under any failures, the published board never goes back to one that reflects
    fewer solves; when no thread is inside the lock, the guard value is the solve count
    of the published board. *)
Theorem board_never_regresses (ps ps1 ps2 : list (prog World unit)) (w w1 w2 : World) (snap : Snapshot)
    (Hps : Forall board_program ps)
    (Hcur : bd_current (w_board w) = Some snap)
    (Hguard : bd_lastCount (w_board w) = sn_SolveCount snap)
    (Hmu : bd_mu (w_board w) = false)
    (H1 : rtc pool_step (ps, w) (ps1, w1)) (H2 : rtc pool_step (ps1, w1) (ps2, w2)) :
  board_count w ≤ board_count w1 ≤ board_count w2 ∧
  (bd_mu (w_board w2) = false → bd_lastCount (w_board w2) = board_count w2).
Proof.
  assert (∀ w w', rtc never_regresses w w' → board_count w ≤ board_count w') as Hrtc.
  { clear. induction 1; [done|]. unfold never_regresses in *. lia. }
  destruct (holds_pool (λ _, True) board_inv never_regresses board_inv_perm ps (replicate (length ps) Idle) w ps1 w1)
    as (gs1 & Hps1 & HI1 & HG1); [| |done|].
  { clear -Hps. induction Hps; simpl; constructor; [by apply board_program_guarded|done]. }
  { exists snap. split; [done|].
    replace (List.filter active (replicate (length ps) Idle)) with (@nil phase); [done|].
    clear. by induction (length ps). }
  destruct (holds_pool (λ _, True) board_inv never_regresses board_inv_perm ps1 gs1 w1 ps2 w2)
    as (gs2 & Hps2 & HI2 & HG2); [done..|].
  split; [split; by apply Hrtc|]. intros Hfree.
  destruct HI2 as (s2 & Es & HI2). unfold board_count. rewrite Es. simpl.
  destruct (List.filter active gs2) as [|[] []]; naive_solver congruence.
Qed.

(** ** The freeze *)

Lemma board_nofault {A} (f : BoardState → A * BoardState) w :
  w_faults w = [] → redis f w = (Ok (f (w_board w)).1, set_board (f (w_board w)).2 w).
Proof.
  intros E. unfold redis, mbind, M_bind, next_fault. rewrite E. by destruct (f (w_board w)).
Qed.

Lemma set_board_same w : set_board (w_board w) w = w.
Proof. by destruct w. Qed.

Definition event_frozen (ev : option Event) (now : time) : bool :=
  match ev with Some e => frozen_at now e | None => false end.

(** Nothing fails, the event [ev] is frozen, the frozen board is [F], and every
    board sent after the first [n] is [F]. *)
Definition frozen_as (ev : option Event) (F : Snapshot) (n : nat) (w : World) : Prop :=
  w_faults w = [] ∧ event (w_db w) = ev ∧ event_frozen ev (w_clock w) = true ∧
  bd_frozen (w_board w) = Some F ∧
  Forall (λ s, s = set_Frozen true F) (drop n (bd_sent (w_board w))).

(** The steps of the rest of the platform: they touch neither the board nor the
    event row; the clock only moves forward. *)
Definition keeps_freeze {A} (p : prog World A) : Prop :=
  ∀ b ev c, all_steps (λ w, w_board w = b ∧ event (w_db w) = ev ∧ (c ≤ w_clock w)%Z ∧ w_faults w = []) p.

Inductive freeze_program : prog World unit → Prop :=
  | fp_recompute wired : freeze_program (forget (Recompute wired))
  | fp_force wired : freeze_program (forget (RecomputeForce wired))
  | fp_reconcile wired : freeze_program (forget (ReconcileIfBehind wired))
  | fp_freeze : freeze_program (forget MaybeSnapshotFreeze)
  | fp_read isAdmin : freeze_program (forget (Current isAdmin))
  | fp_other p : keeps_freeze p → freeze_program p.

(** Steps under an invariant [I] that rules out failures and fixes the event. *)
Section SafeSteps.
Context (I : World → Prop) (ev : option Event).
Context (I_faults : ∀ w, I w → w_faults w = []).
Context (I_event : ∀ w, I w → event (w_db w) = ev).

Lemma safe_select {A} (f : DB → res A) (Q : res A → Prop) :
  (∀ w, I w → Q (f (w_db w))) → safe I (atomic (select f)) Q.
Proof.
  intros HQ. apply safe_atomic. intros w HI. rewrite select_nofault by auto. split; [done|by apply HQ].
Qed.

Lemma safe_redis {A} (f : BoardState → A * BoardState) (Q : res A → Prop) :
  (∀ w, I w → I (set_board (f (w_board w)).2 w) ∧ Q (Ok (f (w_board w)).1)) →
  safe I (atomic (redis f)) Q.
Proof.
  intros HQ. apply safe_atomic. intros w HI. rewrite board_nofault by auto. by apply HQ.
Qed.

(** Reading a key. *)
Lemma safe_read k (Q : res (option Snapshot) → Prop) :
  (∀ w, I w → Q (Ok (lookup_key k (w_board w)))) → safe I (read k) Q.
Proof.
  intros HQ. apply safe_map_err, safe_redis. intros w HI. simpl. rewrite set_board_same. split; [done|by apply HQ].
Qed.

(** The freeze flag, when it is the same at every clock reading. *)
Lemma safe_frozen (b : bool) (Q : res bool → Prop) :
  (∀ w, I w → event_frozen ev (w_clock w) = b) → Q (Ok b) → safe I frozen Q.
Proof.
  intros Hb HQ. unfold frozen, Events.Get. apply safe_bind, safe_try, safe_map_err.
  apply safe_select. intros w HI. rewrite (I_event w HI). specialize (Hb w HI) as Hbw.
  destruct ev as [e|]; simpl in *; [|by subst].
  apply safe_bind, safe_atomic. intros w' HI'. split; [done|]. cbn [fst snd gets clock_now].
  apply safe_ret. by rewrite (Hb w' HI').
Qed.

(** The board computed from reads that each satisfy a bound. *)
Lemma safe_compute n (Q : res (Snapshot * nat) → Prop) :
  (∀ w, I w → n ≤ length (valid_solves (w_db w))) →
  (∀ snap count, sn_SolveCount snap = count → n ≤ count → Q (Ok (snap, count))) →
  safe I compute Q.
Proof.
  intros Hn HQ. unfold compute. apply safe_bind, safe_atomic. intros w HI. split; [done|]. cbn [fst snd gets clock_now].
  apply safe_bind, safe_map_err, safe_select. intros w1 HI1. cbn [fst snd].
  apply safe_bind, safe_map_err, safe_select. intros w2 HI2. cbn [fst snd].
  apply safe_ret, HQ; [done|]. by apply Hn.
Qed.

(** A field of the board outside [I]'s reach. *)
Lemma safe_publish force snap count (Q : res bool → Prop) :
  (∀ w b, I w → I (on_board (with_mu b) w)) →
  (∀ w s, I w → I (on_board (with_current (Some s)) w)) →
  (∀ w n, I w → I (on_board (with_lastCount n) w)) →
  (∀ b, Q (Ok b)) → safe I (publish force snap count) Q.
Proof.
  intros Hmu Hcur Hlast HQ.
  assert (∀ Q : res unit → Prop, Q (Ok tt) → safe I Unlock Q) as HU.
  { intros Q' HQ'. apply safe_atomic. intros w HI. split; [by apply Hmu|done]. }
  unfold publish. apply safe_bind, safe_step. intros w [] w' HI E.
  destruct (bd_mu (w_board w)); [done|]. injection E as <-. split; [by apply Hmu|].
  apply safe_bind, safe_atomic. clear w HI. intros w HI. split; [done|]. cbn [fst snd gets clock_now].
  destruct (negb force && _); [by apply safe_bind, HU, safe_ret|].
  apply safe_bind, safe_try, safe_map_err, safe_redis. intros w1 HI1. cbn [fst snd].
  split; [by apply Hcur|].
  apply safe_bind, safe_atomic. intros w2 HI2. split; [by apply Hlast|]. cbn [fst modify].
  by apply safe_bind, HU, safe_ret.
Qed.
End SafeSteps.

(** *** Every public view is the one frozen board *)

Section Frozen.
Context (ev : option Event) (F : Snapshot) (n : nat).
Abbreviation I := (frozen_as ev F n).

Lemma frozen_as_faults w : I w → w_faults w = [].
Proof. by intros (? & _). Qed.
Lemma frozen_as_event w : I w → event (w_db w) = ev.
Proof. by intros (_ & ? & _). Qed.

Lemma frozen_flag_frozen (Q : res bool → Prop) : Q (Ok true) → safe I frozen Q.
Proof. apply (safe_frozen I ev frozen_as_faults frozen_as_event). by intros w (_ & _ & ? & _). Qed.

Lemma frozen_compute (Q : res (Snapshot * nat) → Prop) : (∀ c, Q (Ok c)) → safe I compute Q.
Proof.
  intros HQ. apply (safe_compute I frozen_as_faults 0); [lia|]. intros; apply HQ.
Qed.

Lemma frozen_read_frozen (Q : res (option Snapshot) → Prop) :
  Q (Ok (Some F)) → safe I (read keyFrozen) Q.
Proof.
  intros HQ. apply (safe_read I frozen_as_faults). intros w (_ & _ & _ & HF & _). simpl.
  by rewrite HF.
Qed.

Lemma frozen_served_public repair (Q : res Snapshot → Prop) :
  Q (Ok (set_Frozen true F)) → safe I (served false repair) Q.
Proof.
  intros HQ. unfold served. apply safe_bind, frozen_flag_frozen. cbn [andb negb].
  by apply safe_bind, safe_bind, frozen_read_frozen, safe_ret, safe_ret.
Qed.

Lemma frozen_publish force snap count (Q : res bool → Prop) :
  (∀ b, Q (Ok b)) → safe I (publish force snap count) Q.
Proof. apply (safe_publish I frozen_as_faults); by intros w ? (?&?&?&?&?). Qed.

Lemma frozen_recompute wired force send_out (Q : res unit → Prop) :
  Q (Ok tt) → safe I (recompute wired force send_out) Q.
Proof.
  intros HQ. unfold recompute. apply safe_bind, frozen_compute. intros [snap count].
  apply safe_bind, frozen_flag_frozen, safe_bind, frozen_publish. intros b.
  destruct (negb b); [by apply safe_ret|]. destruct (send_out && wired); [|by apply safe_ret].
  apply safe_bind, frozen_served_public, safe_atomic.
  intros w (?&?&?&?&Hs). split; [|done]. split_and!; try done.
  simpl. destruct (decide (n ≤ length (bd_sent (w_board w)))).
  - rewrite drop_app_le by done. apply Forall_app. split; [done|]. by apply Forall_singleton.
  - rewrite drop_app_ge by lia. rewrite drop_ge by (simpl; lia). done.
Qed.

Lemma frozen_MaybeSnapshotFreeze (Q : res unit → Prop) : Q (Ok tt) → safe I MaybeSnapshotFreeze Q.
Proof.
  intros HQ. unfold MaybeSnapshotFreeze. apply safe_bind, frozen_flag_frozen. cbn [negb].
  apply safe_bind, safe_map_err, (safe_redis I frozen_as_faults).
  intros w HI. pose proof HI as (_ & _ & _ & HF & _). cbn [fst snd]. rewrite HF, set_board_same.
  split; [done|]. by apply safe_ret.
Qed.

(** An admin, or a read of the live board: the public board is left alone. *)
Lemma frozen_served_admin : safe I (served true true) (λ _, True).
Proof.
  unfold served. apply safe_bind, frozen_flag_frozen. cbn [andb negb].
  apply safe_bind, safe_ret, safe_bind, safe_try, (safe_read I frozen_as_faults).
  intros w HI. destruct (lookup_key keyCurrent (w_board w)) as [snap|].
  - apply safe_bind. unfold readRepair. apply safe_bind, safe_try, (safe_select I frozen_as_faults).
    intros w1 HI1. destruct (_ <=? _)%nat; [by apply safe_ret, safe_ret|].
    apply safe_bind, safe_atomic. intros w2 (?&?&?&?&?). split; [by split_and!|].
    apply safe_bind, safe_try, frozen_compute. intros [fresh count].
    apply safe_bind, safe_try, frozen_publish. intros b. by apply safe_ret, safe_ret.
  - apply safe_bind, frozen_compute. intros [fresh count]. apply safe_bind, safe_map_err.
    apply (safe_redis I frozen_as_faults). intros w1 (?&?&?&?&?). split; [by split_and!|].
    by apply safe_ret.
Qed.

Lemma freeze_program_safe p : freeze_program p → safe I p (λ _, True).
Proof.
  destruct 1 as [wired|wired|wired| |[]|p Hp]; [apply (safe_forget _ _ (λ _, True))..|].
  - exact (frozen_recompute wired false true _ Logic.I).
  - unfold RecomputeForce. apply safe_bind, frozen_recompute, frozen_recompute. exact Logic.I.
  - unfold ReconcileIfBehind. apply safe_bind, (safe_read I frozen_as_faults). intros w HI.
    destruct (lookup_key _ _); [|exact (frozen_recompute wired false true _ Logic.I)].
    apply safe_bind, (safe_select I frozen_as_faults). intros w1 HI1.
    destruct (_ <? _)%nat; [exact (frozen_recompute wired false true _ Logic.I)|exact Logic.I].
  - exact (frozen_MaybeSnapshotFreeze _ Logic.I).
  - exact frozen_served_admin.
  - exact (frozen_served_public true _ Logic.I).
  - clear -Hp. unfold safe. induction p as [A a|A X f k IH|A child IHc k IH]; simpl; [done| |].
    + intros gs w x w' (Hf & He & Hfr & HF & Hs) E. exists tt.
      destruct (proj1 (Hp (w_board w) ev (w_clock w)) w x w') as (Eb & Ee & Hc & Hf'); [by split_and!|done|].
      split_and!; [split_and!; rewrite ?Eb; try done|done|].
      { unfold event_frozen, frozen_at in *. destruct ev as [e|]; [|done].
        destruct (e_FreezeAt e) as [fz|]; [|done]. apply negb_true_iff, Z.ltb_ge in Hfr.
        apply negb_true_iff, Z.ltb_ge. lia. }
      apply IH. intros b e c. by apply Hp.
    + intros gs w HI. exists tt, tt. split_and!; [done|apply IH|apply IHc]; intros b e c; by apply Hp.
Qed.
End Frozen.

(** C11: Once the event is frozen and its board captured, and until an admin clears
    the freeze or edits the event, while the database and the cache answer: every
    interleaving of recomputes (forced ones too), reconciles, freeze tickers and reads,
    with anything else that leaves the event alone, keeps that one captured board, and
    every board broadcast meanwhile is it; a participant's read in the middle of any such
    activity returns it. *)
Theorem frozen_board_served (ev : option Event) (F : Snapshot) (n : nat) (w : World)
    (HI : frozen_as ev F n w) :
  (∀ ps ps' w', Forall freeze_program ps → rtc pool_step (ps, w) (ps', w') → frozen_as ev F n w') ∧
  (∀ (E : World → World → Prop) r w', (∀ w w', frozen_as ev F n w → E w w' → frozen_as ev F n w') →
     amid E (Current false) w r w' → r = Ok (set_Frozen true F)).
Proof.
  split.
  - intros ps ps' w' Hps Hr. eapply safe_pool; [|exact HI|exact Hr].
    eapply Forall_impl; [exact Hps|]. apply freeze_program_safe.
  - intros E r w' HE Hr.
    exact (proj2 (safe_amid _ E (Current false) (λ r, r = Ok (set_Frozen true F)) w r w'
      (frozen_served_public ev F n true _ eq_refl) HE HI Hr)).
Qed.

(** ** Read-repair *)

(** Nothing fails, at least [n] solves are in the log, and the reader sees the live
    board (an admin, or no freeze in effect). *)
Definition log_at_least (isAdmin : bool) (ev : option Event) (n : nat) (w : World) : Prop :=
  w_faults w = [] ∧ event (w_db w) = ev ∧ n ≤ length (valid_solves (w_db w)) ∧
  event_frozen ev (w_clock w) && negb isAdmin = false.

Section ReadRepair.
Context (isAdmin : bool) (ev : option Event) (n : nat).
Abbreviation I := (log_at_least isAdmin ev n).

Lemma log_faults w : I w → w_faults w = [].
Proof. by intros (? & _). Qed.

(** The flag read is whatever it is, but it does not hide the live board. *)
Lemma log_frozen (Q : res bool → Prop) :
  (∀ b, b && negb isAdmin = false → Q (Ok b)) → safe I frozen Q.
Proof.
  intros HQ. unfold frozen, Events.Get. apply safe_bind, safe_try, safe_map_err.
  apply (safe_select I log_faults). intros w (_ & He & _ & Hb).
  rewrite He. destruct ev as [e|]; simpl; [|by apply HQ].
  apply safe_bind, safe_atomic. intros w' HI'. split; [done|]. by apply safe_ret, HQ, HI'.
Qed.

Definition reflects (r : res Snapshot) : Prop := ∃ s, r = Ok s ∧ n ≤ sn_SolveCount s.

Lemma log_compute (Q : res (Snapshot * nat) → Prop) :
  (∀ snap count, sn_SolveCount snap = count → n ≤ count → Q (Ok (snap, count))) → safe I compute Q.
Proof. intros HQ. apply (safe_compute I log_faults n); [|done]. by intros w (_ & _ & ? & _). Qed.

Lemma log_readRepair snap (Q : res (option Snapshot) → Prop) :
  (∀ fresh, n ≤ sn_SolveCount fresh → Q (Ok (Some fresh))) →
  (n ≤ sn_SolveCount snap → Q (Ok None)) → safe I (readRepair snap) Q.
Proof.
  intros Hfresh Hkept. unfold readRepair. apply safe_bind, safe_try, (safe_select I log_faults).
  intros w (_ & _ & Hn & _). destruct (Nat.leb_spec (length (valid_solves (w_db w))) (sn_SolveCount snap)).
  { apply safe_ret, Hkept. lia. }
  apply safe_bind, safe_atomic. clear w Hn H. intros w HI. split; [exact HI|].
  apply safe_bind, safe_try, log_compute. intros fresh count Hs Hn.
  apply safe_bind, safe_try, (safe_publish I log_faults); [done..|].
  intros b. apply safe_ret, Hfresh. lia.
Qed.

Lemma log_served : safe I (Current isAdmin) reflects.
Proof.
  unfold Current, served. apply safe_bind, log_frozen. intros b Hb. rewrite Hb.
  apply safe_bind, safe_ret, safe_bind, safe_try, (safe_read I log_faults). intros w _.
  destruct (lookup_key keyCurrent (w_board w)) as [snap|].
  - apply safe_bind, log_readRepair; intros; apply safe_ret; simpl; [by exists (set_Frozen b fresh)|].
    by exists (set_Frozen b snap).
  - apply safe_bind, log_compute. intros fresh count Hs Hn. apply safe_bind, safe_map_err.
    apply (safe_redis I log_faults). intros w1 HI1. split; [exact HI1|].
    apply safe_ret. exists (set_Frozen b fresh). split; [done|]. simpl. lia.
Qed.
End ReadRepair.

(** A read of the live board, in the middle of any other activity that does not
    take valid solves away, never fails and never returns a board older than the
    solve log was when the read began, whatever the cache holds (an old board, a
    board left behind by a lost recompute, nothing). *)
Theorem live_read_fresh (isAdmin : bool) (E : World → World → Prop) (w : World) (r : res Snapshot) (w' : World)
    (Hfaults : w_faults w = [])
    (Hlive : event_frozen (event (w_db w)) (w_clock w) && negb isAdmin = false)
    (HE : ∀ w1 w2, E w1 w2 → w_faults w2 = w_faults w1 ∧ event (w_db w2) = event (w_db w1) ∧
            (event_frozen (event (w_db w1)) (w_clock w1) && negb isAdmin = false →
             event_frozen (event (w_db w2)) (w_clock w2) && negb isAdmin = false) ∧
            length (valid_solves (w_db w1)) ≤ length (valid_solves (w_db w2)))
    (Hr : amid E (Current isAdmin) w r w') :
  ∃ s, r = Ok s ∧ length (valid_solves (w_db w)) ≤ sn_SolveCount s.
Proof.
  refine (proj2 (safe_amid _ E (Current isAdmin) _ w r w'
    (log_served isAdmin (event (w_db w)) (length (valid_solves (w_db w)))) _ _ Hr)); [|done].
  intros w1 w2 (Hf1 & He1 & Hn1 & Hl1) (Hf2 & He2 & Hl2 & Hn2)%HE.
  split_and!; [congruence|congruence|lia|]. rewrite He2, He1 in Hl2. auto.
Qed.

(** ** Concrete boards *)

Definition demo_board (n : nat) (frozen : bool) : Snapshot :=
  {| sn_Frozen := frozen; sn_GeneratedAt := 5; sn_Standings := []; sn_SolveCount := n |}.
Definition demo_freeze (d : DB) : DB :=
  set_event (Some {| e_ID := 1%N; e_Name := "Demo"; e_Description := ""; e_StartsAt := 0;
    e_EndsAt := (10 * Hour)%Z; e_FreezeAt := Some (2 * Hour)%Z |}) d.
Definition demo_solve : Submission :=
  {| s_ID := 50%N; s_ChallengeID := 32%N; s_TeamID := 21%N; s_UserID := 11%N; s_Provided := "***";
     s_Correct := true; s_CreatedAt := Hour; s_ScoredValue := None; s_ScoredBy := None |}.
Definition demo_board_world (d : DB) (current frozen : option Snapshot) (last : nat) (clock : time) : World :=
  set_board {| bd_current := current; bd_frozen := frozen; bd_lastCount := last; bd_sent := []; bd_mu := false |}
    (demo_world d clock).

(** A recompute and a participant's read, interleaved, over a log of one solve. *)
Definition demo_behind : World :=
  demo_board_world (set_submissions [demo_solve] demo_db) (Some (demo_board 0 false)) None 0 (3 * Hour).
Definition demo_threads : list (prog World unit) := [forget (Recompute true); forget (Current false)].
Definition demo_schedule : list nat := [0; 1; 0; 0; 0; 1; 0; 0; 1; 0; 0; 0; 0; 1].

Lemma board_never_regresses_witness :
  match exec demo_schedule demo_threads demo_behind with
  | Some (_, w1) => 0 ≤ board_count w1 ∧ bd_mu (w_board w1) = false
  | None => False
  end.
Proof.
  assert (match exec demo_schedule demo_threads demo_behind with
          | Some (_, w1) => negb (bd_mu (w_board w1)) | None => false end = true) as Hrun
    by (vm_compute; reflexivity).
  destruct (exec demo_schedule demo_threads demo_behind) as [[ps w1]|] eqn:E; [|discriminate Hrun].
  split; [|by apply negb_true_iff].
  apply (board_never_regresses demo_threads ps ps demo_behind w1 w1 (demo_board 0 false));
    [|reflexivity|reflexivity|reflexivity|exact (exec_sound _ _ _ _ _ E)|apply rtc_refl].
  apply Forall_cons; split; [apply bp_recompute|]. apply Forall_cons; split; [apply bp_read|apply Forall_nil_2].
Defined.

Definition demo_frozen_world : World :=
  demo_board_world (demo_freeze (set_submissions [demo_solve] demo_db)) (Some (demo_board 1 false))
    (Some (demo_board 0 true)) 1 (3 * Hour).

Lemma frozen_board_served_witness :
  frozen_as (event (w_db demo_frozen_world)) (demo_board 0 true) 0 demo_frozen_world ∧
  ∀ r w', amid (λ _ _, False) (Current false) demo_frozen_world r w' →
    r = Ok (set_Frozen true (demo_board 0 true)).
Proof.
  assert (frozen_as (event (w_db demo_frozen_world)) (demo_board 0 true) 0 demo_frozen_world) as HI.
  { split_and!; try reflexivity. apply Forall_nil_2. }
  split; [exact HI|].
  intros r w'. apply (frozen_board_served _ _ 0 demo_frozen_world HI). intros w1 w2 _ [].
Defined.

(** ** Where the code and its comments part *)

(** An event read that fails during a freeze serves the live board to a
    participant. *)
Theorem freeze_fails_open :
  let w := set_faults [true] demo_frozen_world in
  run (Current false) (set_faults [] w) = Some (Ok (set_Frozen true (demo_board 0 true)), set_faults [] w) ∧
  match run (Current false) w with
  | Some (Ok s, _) => sn_SolveCount s = 1 ∧ sn_Frozen s = false
  | _ => False
  end.
Proof. split; vm_compute; [reflexivity|done]. Qed.

(** A solve is logged while another program runs. *)
Definition log_solve : prog World unit :=
  Step (λ w, Some (tt, set_db (set_submissions [demo_solve] (w_db w)) w)) Ret.

(** A read that misses the cache computes a board, and writes it without looking at
    the guard: over the newer board a recompute published in between. *)
Theorem cache_miss_overwrites :
  match exec ([0; 0; 0; 0; 0; 0] ++ [1] ++ repeat 2 10 ++ [0])
    [forget (Current true); log_solve; forget (Recompute false)]
    (demo_board_world demo_db None None 0 Hour) with
  | Some (_, w) => bd_lastCount (w_board w) = 1 ∧ board_count w = 0
  | None => False
  end.
Proof. vm_compute. done. Qed.
