(* ===== verification/BoardFresh.v ===== *)
(** * What a live read shows

    While solves are only added to the log, every board that is published, and every board
    that a reader is given, is the standings of the log as it was at some moment: for a read, of
    a moment during the read. *)

From S2P Require Import Prelude Interleave Env Demo Store Events Scoring Submissions Scoreboard StandingsSpec ScoreboardRules.

(** ** The board of a log *)

(** What the board is computed from, the log aside. *)
Definition same_view (d d' : DB) : Prop :=
  teams d' = teams d ∧ users d' = users d ∧ members d' = members d ∧ challenges d' = challenges d.
Definition with_log (l : list Submission) (d : DB) : DB := set_submissions l d.
(** The snapshot [s] shows the log [l]. *)
Definition shows (d : DB) (l : list Submission) (s : Snapshot) : Prop :=
  sn_Standings s = standings (scoreboard_teams d) (valid_solves (with_log l d)) ∧
  sn_SolveCount s = length (valid_solves (with_log l d)).

Lemma omap_some_ext {A B} (f g : A → option B) (l : list A) : (∀ x, f x = g x) → omap f l = omap g l.
Proof. intros H. induction l as [|x l IH]; [done|]. cbn. by rewrite H, IH. Qed.
Lemma omap_perm {A B} (f : A → option B) (l l' : list A) : l ≡ₚ l' → omap f l ≡ₚ omap f l'.
Proof.
  induction 1 as [|x l l' _ IH|x y l|l l1 l' _ IH1 _ IH2]; [done| | |by etrans].
  - cbn. destruct (f x); [by constructor|done].
  - cbn. destruct (f x), (f y); try done. apply Permutation_swap.
Qed.
Lemma valid_solve_view d d' s : same_view d d' → valid_solve d' s = valid_solve d s.
Proof. intros (E1 & E2 & E3 & E4). unfold valid_solve, has_member_not_hidden. by rewrite E1, E2, E3, E4. Qed.
Lemma valid_solves_view d d' : same_view d d' → valid_solves d' = valid_solves (with_log (submissions d') d).
Proof. intros H. unfold valid_solves. apply omap_some_ext. intros s. by apply (valid_solve_view (with_log (submissions d') d)). Qed.
Lemma scoreboard_teams_view d d' : same_view d d' → scoreboard_teams d' = scoreboard_teams d.
Proof. intros (E & _). unfold scoreboard_teams. by rewrite E. Qed.
Lemma valid_solves_perm d l : valid_solves (with_log l d) ≡ₚ omap (valid_solve d) l.
Proof.
  unfold valid_solves. etrans; [apply omap_perm, merge_sort_Permutation|]. cbn.
  by rewrite (omap_some_ext (valid_solve (with_log l d)) (valid_solve d)).
Qed.
Lemma valid_count_mono d l l' : l `prefix_of` l' → length (valid_solves (with_log l d)) ≤ length (valid_solves (with_log l' d)).
Proof. intros [k ->]. rewrite !valid_solves_perm, omap_app, length_app. lia. Qed.
(** A longer log with as many valid solves has the same ones. *)
Lemma valid_same_count d l l' : l `prefix_of` l' → length (valid_solves (with_log l' d)) ≤ length (valid_solves (with_log l d)) →
  valid_solves (with_log l d) ≡ₚ valid_solves (with_log l' d).
Proof.
  intros [k ->]. rewrite !valid_solves_perm, omap_app, length_app. intros Hle.
  destruct (omap (valid_solve d) k) as [|x k'] eqn:E; [by rewrite app_nil_r|]. simpl in Hle. lia.
Qed.

(** *** The order of the log does not matter *)

Lemma filter_length_perm {A} (f : A → bool) l l' : l ≡ₚ l' → length (List.filter f l) = length (List.filter f l').
Proof. intros Hp. by rewrite (ScoreboardRules.filter_perm f _ _ Hp). Qed.
Lemma worth_perm rows rows' r : rows ≡ₚ rows' → worth rows r = worth rows' r.
Proof. intros Hp. unfold worth, counted. by rewrite (filter_length_perm _ _ _ Hp). Qed.
Lemma sum_Z_perm l l' : l ≡ₚ l' → sum_Z l = sum_Z l'.
Proof. unfold sum_Z. induction 1; simpl; lia. Qed.
Lemma latest_perm l l' : l ≡ₚ l' → latest l = latest l'.
Proof. unfold latest. induction 1; simpl; lia. Qed.
Lemma spec_entry_perm rows rows' t : rows ≡ₚ rows' → spec_entry rows t = spec_entry rows' t.
Proof.
  intros Hp. unfold spec_entry. pose proof (ScoreboardRules.filter_perm (of_team (tr_ID t)) _ _ Hp) as Hf.
  set (own := List.filter _ rows) in *. set (own' := List.filter _ rows') in *.
  assert (sum_Z (map (worth rows) own) = sum_Z (map (worth rows') own')) as ->.
  { rewrite (sum_Z_perm (map (worth rows) own) (map (worth rows) own')) by by apply Permutation_map.
    f_equal. apply map_ext. intros r. by apply worth_perm. }
  assert (latest (map sr_SolvedAt own) = latest (map sr_SolvedAt own')) as El by by apply latest_perm, Permutation_map.
  pose proof (Permutation_length Hf) as Hlen. rewrite El, Hlen. clear -Hlen. by destruct own, own'.
Qed.
Lemma consistent_perm rows rows' : rows ≡ₚ rows' → consistent rows → consistent rows'.
Proof. intros Hp Hc r r' Hr Hr'. apply Hc; by rewrite Hp. Qed.
Lemma standings_perm ts rows rows' : rows ≡ₚ rows' → consistent rows → standings ts rows = standings ts rows'.
Proof.
  intros Hp Hc. unfold standings.
  assert (map (entry_of (aggregate (chal_values rows) rows)) ts = map (entry_of (aggregate (chal_values rows') rows')) ts) as ->; [|done].
  apply map_ext. intros t. rewrite !entry_of_spec by (done || by eapply consistent_perm). by apply spec_entry_perm.
Qed.

(** A board that is not behind a longer log shows that log too. *)
Lemma shows_later d l l' s : shows d l s → l `prefix_of` l' → length (valid_solves (with_log l' d)) ≤ sn_SolveCount s → shows d l' s.
Proof.
  intros [Hs Hn] Hp Hle. rewrite Hn in Hle. pose proof (valid_same_count _ _ _ Hp Hle) as Hv. split.
  - rewrite Hs. apply standings_perm; [done|apply valid_solves_consistent].
  - rewrite Hn. by rewrite Hv.
Qed.

(** ** While the log grows *)

Section Fresh.
(** The tables at some start, the log from which a read counts, and what is known of failures, the event and the clock. *)
Context (d0 : DB) (l0 : list Submission) (K : list bool → option Event → time → Prop).
Context (HK : ∀ b fs ev c, K (b :: fs) ev c → K fs ev c).

(** The ghost of a thread is a log that it has seen. *)
Definition true_boards (gs : list (list Submission)) (w : World) : Prop :=
  K (w_faults w) (event (w_db w)) (w_clock w) ∧ same_view d0 (w_db w) ∧ l0 `prefix_of` submissions (w_db w) ∧
  Forall (λ g, g `prefix_of` submissions (w_db w)) gs ∧
  ∀ snap, bd_current (w_board w) = Some snap → ∃ l, l `prefix_of` submissions (w_db w) ∧ shows d0 l snap.
Abbreviation truly := (holds (λ _ : list Submission, True) true_boards (λ _ _, True)).
(** Something may fail. *)
Definition failing : Prop := ∃ b fs ev c, K (b :: fs) ev c.

Lemma select_moves {A} (f : DB → res A) w r w' : select f w = (r, w') →
  w_db w' = w_db w ∧ w_board w' = w_board w ∧ w_clock w' = w_clock w ∧
  (w_faults w' = w_faults w ∨ ∃ b, w_faults w = b :: w_faults w') ∧ (r = f (w_db w) ∨ (r = Err ErrConn ∧ ∃ b fs, w_faults w = b :: fs)).
Proof using.
  unfold select, query, mbind, M_bind, next_fault.
  destruct (w_faults w) as [|[] fs] eqn:Ef; cbn; [| |]; try destruct (f (w_db w)); intros [= <- <-]; destruct w; naive_solver.
Qed.
Lemma truly_moves gs w w' g g' : true_boards (g :: gs) w → w_db w' = w_db w → w_board w' = w_board w → w_clock w' = w_clock w →
  (w_faults w' = w_faults w ∨ ∃ b, w_faults w = b :: w_faults w') → g' `prefix_of` submissions (w_db w) → true_boards (g' :: gs) w'.
Proof using HK.
  intros (H1 & H2 & H3 & H4 & H5) E1 E2 E3 E4 Hg. unfold true_boards. rewrite E1, E2, E3. split_and!; try done.
  - destruct E4 as [->|[b E4]]; [done|]. rewrite E4 in H1. by eapply HK.
  - inversion H4; subst. by constructor.
Qed.
Lemma truly_ghost gs w g : true_boards (g :: gs) w → g `prefix_of` submissions (w_db w).
Proof using. intros (_ & _ & _ & H & _). by inversion H. Qed.
Lemma truly_select {A} (f : DB → res A) (Q : res A → list Submission → Prop) g :
  (∀ gs w, true_boards (g :: gs) w → ∃ g', g' `prefix_of` submissions (w_db w) ∧ Q (f (w_db w)) g') →
  (failing → Q (Err ErrConn) g) → truly (atomic (select f)) Q g.
Proof using HK.
  intros Hf Hfail. apply holds_atomic. intros gs w HI. destruct (select f w) as [r w'] eqn:E.
  apply select_moves in E as (E1 & E2 & E3 & E4 & [->|[-> (b & fs & Ef)]]); cbn [fst snd].
  - destruct (Hf gs w HI) as (g' & Hg & HQ). exists g'. split_and!; [by eapply truly_moves|done..].
  - exists g. split_and!; [by eapply truly_moves; [..|eapply truly_ghost]|done|]. apply Hfail.
    destruct HI as (Hk & _). rewrite Ef in Hk. by exists b, fs, (event (w_db w)), (w_clock w).
Qed.
Lemma truly_redis {A} (f : BoardState → A * BoardState) (Q : res A → list Submission → Prop) g :
  (∀ gs w, true_boards (g :: gs) w →
     (∀ snap, bd_current (f (w_board w)).2 = Some snap → ∃ l, l `prefix_of` submissions (w_db w) ∧ shows d0 l snap) ∧
     ∃ g', g' `prefix_of` submissions (w_db w) ∧ Q (Ok (f (w_board w)).1) g') →
  (failing → Q (Err ErrConn) g) → truly (atomic (redis f)) Q g.
Proof using HK.
  intros Hf Hfail. apply holds_atomic. intros gs w HI. destruct (redis f w) as [r w'] eqn:E.
  unfold redis, mbind, M_bind, next_fault in E. destruct (w_faults w) as [|b fs] eqn:Ef.
  - destruct (f (w_board w)) as [a s] eqn:Es. injection E as <- <-. destruct (Hf gs w HI) as (Hs & g' & Hg & HQ). rewrite Es in Hs, HQ.
    exists g'. split_and!; [|done..]. destruct HI as (H1 & H2 & H3 & H4 & H5). split_and!; try done. inversion H4; subst. by constructor.
  - assert (failing) as Hfl by by (destruct HI as (Hk & _); rewrite Ef in Hk; exists b, fs, (event (w_db w)), (w_clock w)).
    destruct b.
    + injection E as <- <-. exists g. split_and!; [|done|by apply Hfail]. eapply truly_moves; [exact HI|done..| |by eapply truly_ghost].
      right. by exists true.
    + destruct (f (w_board w)) as [a s] eqn:Es. cbn in E. rewrite Es in E. injection E as <- <-.
      destruct (Hf gs w HI) as (Hs & g' & Hg & HQ). rewrite Es in Hs, HQ. exists g'. split_and!; [|done..].
      destruct HI as (H1 & H2 & H3 & H4 & H5). rewrite Ef in H1. split_and!; try done; [by eapply HK|]. inversion H4; subst. by constructor.
Qed.
(** Steps that touch nothing of it. *)
Lemma truly_apart {A} (m : M World A) (Q : res A → list Submission → Prop) g :
  (∀ w, w_db (m w).2 = w_db w ∧ bd_current (w_board (m w).2) = bd_current (w_board w) ∧ w_clock (m w).2 = w_clock w ∧ w_faults (m w).2 = w_faults w) →
  (∀ gs w, true_boards (g :: gs) w → Q (m w).1 g) → truly (atomic m) Q g.
Proof using.
  intros Hm HQ. apply holds_atomic. intros gs w HI. exists g. destruct (Hm w) as (E1 & E2 & E3 & E4). split_and!; [|done|by eapply HQ].
  destruct HI as (H1 & H2 & H3 & H4 & H5). unfold true_boards. rewrite E1, E2, E3, E4. by split_and!.
Qed.

Lemma truly_lock (Q : res unit → list Submission → Prop) g : Q (Ok tt) g → truly Lock Q g.
Proof using.
  intros HQ. apply holds_blocking. intros gs w [] w' HI E. destruct (bd_mu (w_board w)); [done|]. injection E as <-. by exists g.
Qed.
Lemma truly_unlock (Q : res unit → list Submission → Prop) g : Q (Ok tt) g → truly Unlock Q g.
Proof using. intros HQ. by apply truly_apart. Qed.
Lemma valid_now gs w g : true_boards (g :: gs) w →
  valid_solves (w_db w) = valid_solves (with_log (submissions (w_db w)) d0) ∧ scoreboard_teams (w_db w) = scoreboard_teams d0 ∧
  l0 `prefix_of` submissions (w_db w).
Proof using. intros (_ & Hv & Hl & _). split_and!; [by apply valid_solves_view|by apply scoreboard_teams_view|done]. Qed.

Lemma truly_compute g :
  truly compute (λ r g', match r with Ok c => l0 `prefix_of` g' ∧ shows d0 g' c.1 ∧ sn_SolveCount c.1 = c.2 | Err _ => failing ∧ g' = g end) g.
Proof using HK.
  unfold compute. apply holds_bind, truly_apart; [done|]. intros gs w _. cbn [fst clock_now gets].
  apply holds_bind, holds_map_err, truly_select; [|done]. intros gs1 w1 HI1. exists g. split; [by eapply truly_ghost|].
  destruct (valid_now _ _ _ HI1) as (_ & -> & _).
  apply holds_bind, holds_map_err, truly_select; [|done]. intros gs2 w2 HI2. exists (submissions (w_db w2)). split; [done|].
  destruct (valid_now _ _ _ HI2) as (-> & _ & Hl). by apply holds_ret.
Qed.
Lemma truly_write snap (Q : res unit → list Submission → Prop) g :
  shows d0 g snap → Q (Ok tt) g → (∀ e, failing → Q (Err e) g) → truly (write snap) Q g.
Proof using HK.
  intros Hs HQ He. apply holds_map_err, truly_redis; [|intros; by apply He]. intros gs w HI.
  pose proof (truly_ghost _ _ _ HI). split; [|by exists g]. intros s [= <-]. by exists g.
Qed.
Lemma truly_publish force snap count g : shows d0 g snap →
  truly (publish force snap count) (λ r g', g' = g ∧ match r with Ok _ => True | Err _ => failing end) g.
Proof using HK.
  intros Hs. unfold publish. apply holds_bind, truly_lock, holds_bind, truly_apart; [done|]. intros gs w _. cbn [fst gets].
  destruct (_ && _); [by apply holds_bind, truly_unlock|].
  apply holds_bind, holds_try, truly_write; [done|apply holds_bind, truly_apart; [done|]|].
  - intros gs1 w1 _. cbn [fst modify]. by apply holds_bind, truly_unlock.
  - intros e He. by apply holds_bind, holds_ret, holds_bind, truly_unlock.
Qed.
Lemma truly_read k (Q : res (option Snapshot) → list Submission → Prop) g :
  (∀ gs w, true_boards (g :: gs) w → ∃ g', g' `prefix_of` submissions (w_db w) ∧ Q (Ok (lookup_key k (w_board w))) g') →
  (∀ e, failing → Q (Err e) g) → truly (read k) Q g.
Proof using HK.
  intros HQ He. apply holds_map_err, truly_redis; [|intros; by apply He]. intros gs w HI. cbn [fst snd]. split; [|by eapply HQ].
  by destruct HI as (_ & _ & _ & _ & H).
Qed.

(** What a reader may be given: a board of a log it has seen, no older than the start. *)
Definition current (g : list Submission) (s : Snapshot) : Prop := l0 `prefix_of` g ∧ shows d0 g s.
Lemma truly_readRepair snap g l : l `prefix_of` g → shows d0 l snap →
  truly (readRepair snap) (λ r g', match r with Ok o => failing ∨ current g' (default snap o) | Err _ => False end) g.
Proof using HK.
  intros Hl Hs. unfold readRepair. apply holds_bind, holds_try, truly_select; [|by left].
  intros gs w HI. exists (submissions (w_db w)). split; [done|]. destruct (valid_now _ _ _ HI) as (-> & _ & Hl0).
  destruct (Nat.leb_spec (length (valid_solves (with_log (submissions (w_db w)) d0))) (sn_SolveCount snap)) as [Hle|_].
  { apply holds_ret. right. split; [done|]. eapply shows_later; [exact Hs| |done]. etrans; [exact Hl|by eapply truly_ghost]. }
  apply holds_bind, truly_apart; [done|]. intros gs1 w1 _. cbn [fst emit modify].
  apply holds_bind, holds_try. eapply holds_mono; [apply truly_compute|]. intros [[fresh count]|e] g'.
  - intros (H1 & H2 & H3). apply holds_bind, holds_try. eapply holds_mono; [by apply truly_publish|].
    intros r g2 [-> _]. apply holds_ret. by right.
  - intros [Hf _]. apply holds_bind, truly_apart; [done|]. intros gs2 w2 _. apply holds_ret. by left.
Qed.

Section Reader.
Context (isAdmin : bool) (ev0 : option Event).
(** Nothing fails, the event stays as it is, and the reader sees the live board. *)
Definition live : Prop := ∀ fs ev c, K fs ev c → fs = [] ∧ ev = ev0 ∧ event_frozen ev0 c && negb isAdmin = false.
Lemma live_no_fail : live → ¬ failing.
Proof using. intros Hl (b & fs & ev & c & Hk). by destruct (Hl _ _ _ Hk). Qed.

Lemma truly_frozen (Q : res bool → list Submission → Prop) g :
  (∀ b, (live → b && negb isAdmin = false) → Q (Ok b) g) → truly frozen Q g.
Proof using HK.
  intros HQ. unfold frozen, Events.Get. apply holds_bind, holds_try, holds_map_err, truly_select.
  - intros gs w HI. exists g. split; [by eapply truly_ghost|]. pose proof HI as (Hk & _).
    destruct (event (w_db w)) as [e|] eqn:Ee; cbn; [|by apply HQ].
    intros gs1 w1 x w1' HI1 [= <- <-]. exists g. split_and!; [done..|]. apply HQ. intros Hl.
    destruct HI1 as (Hk1 & _). destruct (Hl _ _ _ Hk) as (_ & He & _). destruct (Hl _ _ _ Hk1) as (_ & _ & H1).
    rewrite <- He in H1. exact H1.
  - intros Hf. cbn. apply HQ. intros Hl. by destruct (live_no_fail Hl).
Qed.
End Reader.

Lemma truly_exists (Q : res bool → list Submission → Prop) g : (∀ r, Q r g) → truly Exists Q g.
Proof using HK.
  intros HQ. apply truly_redis; [|done]. intros gs w HI. cbn. split; [by destruct HI as (_ & _ & _ & _ & ?)|].
  exists g. split; [by eapply truly_ghost|done].
Qed.
Lemma truly_MaybeSnapshotFreeze g : truly MaybeSnapshotFreeze (λ _ _, True) g.
Proof using HK.
  unfold MaybeSnapshotFreeze. apply holds_bind, (truly_frozen true None). intros [] _; [cbn [negb]|by apply holds_ret].
  apply holds_bind, holds_map_err, truly_exists. intros [[]|]; [done| |done]. apply holds_bind, truly_lock, holds_defer.
  apply holds_bind, holds_map_err, truly_exists. intros [[]|e]; [| |by apply truly_unlock]; [by apply truly_unlock|].
  apply holds_bind. eapply holds_mono; [apply truly_compute|]. intros [c|e] g' Hc; [|by apply truly_unlock].
  apply holds_map_err, truly_redis; [|intros; by apply truly_unlock]. intros gs w HI. split.
  - intros snap Hs. destruct HI as (_ & _ & _ & _ & H). apply H. revert Hs. cbn. by destruct (bd_frozen (w_board w)).
  - exists g'. split; [by eapply truly_ghost|]. by apply truly_unlock.
Qed.
Lemma shows_set_Frozen b l s : shows d0 l s → shows d0 l (set_Frozen b s).
Proof using. done. Qed.

Lemma truly_served isAdmin ev0 repair g :
  truly (served isAdmin repair) (λ r g', live isAdmin ev0 → repair = true → ∃ s, r = Ok s ∧ current g' s) g.
Proof using HK.
  unfold served. apply holds_bind, (truly_frozen isAdmin ev0). intros f Hf. apply holds_bind.
  eapply holds_mono with (Q := λ r g', live isAdmin ev0 → r = Ok None).
  - destruct (f && negb isAdmin) eqn:Ef; [|done].
    assert (∀ r : res (option Snapshot), live isAdmin ev0 → r = Ok None) as Hx by (intros r Hl; specialize (Hf Hl); congruence).
    apply holds_bind, truly_read; [|intros; auto]. intros gs w HI. exists g. split; [by eapply truly_ghost|].
    destruct (lookup_key _ _); [by apply holds_ret, Hx|]. apply holds_bind. eapply holds_mono; [apply truly_MaybeSnapshotFreeze|].
    intros [[]|e] g' _; [|auto]. apply truly_read; [|auto]. intros gs1 w1 HI1. exists g'. split; [by eapply truly_ghost|auto].
  - intros [[snap|]|e] g1 Hn; [by intros Hl; specialize (Hn Hl)| |by intros Hl; specialize (Hn Hl)].
    apply holds_bind, holds_try, truly_read.
    2: { intros e Hfl. destruct (f && negb isAdmin); [by intros Hl; destruct (live_no_fail _ _ Hl)|]. unfold degradeToRecompute.
         apply holds_bind. eapply holds_mono; [apply truly_compute|]. intros [c|e'] g2 _; [|by intros Hl; destruct (live_no_fail _ _ Hl)].
         apply holds_bind, truly_apart; [done|]. intros gs2 w2 _. by intros Hl; destruct (live_no_fail _ _ Hl). }
    intros gs w HI. exists (submissions (w_db w)). split; [done|]. cbn [lookup_key].
    destruct (bd_current (w_board w)) as [snap|] eqn:Ec.
    + destruct HI as (_ & _ & _ & _ & Hcur). destruct (Hcur _ Ec) as (l & Hl & Hs).
      destruct repair; [|by intros _]. apply holds_bind. eapply holds_mono; [by eapply truly_readRepair|].
      intros [o|e] g2; [|done]. intros [Hfl|[H1 H2]] Hl1 _; [by destruct (live_no_fail _ _ Hl1)|]. eexists. split; [done|]. by split; [|apply shows_set_Frozen].
    + apply holds_bind. eapply holds_mono; [apply truly_compute|]. intros [[fresh count]|e] g2.
      * intros (H1 & H2 & H3). apply holds_bind, truly_write; [done| |].
        -- apply holds_ret. intros _ _. eexists. split; [done|]. by split; [|apply shows_set_Frozen].
        -- intros e Hfl Hl. by destruct (live_no_fail _ _ Hl).
      * intros [Hfl _] Hl. by destruct (live_no_fail _ _ Hl).
Qed.

(** *** Everything that publishes a board *)

Lemma truly_recompute wired force send_out g : truly (recompute wired force send_out) (λ _ _, True) g.
Proof using HK.
  unfold recompute. apply holds_bind. eapply holds_mono; [apply truly_compute|]. intros [[snap count]|e] g1; [|done]. intros (_ & Hs & _).
  apply holds_bind, (truly_frozen true None). intros f _. apply holds_bind. eapply holds_mono; [by apply truly_publish, shows_set_Frozen|].
  intros [b|e] g2 _; [|done]. destruct (negb b); [by apply holds_ret|]. destruct (_ && _); [|by apply holds_ret].
  apply holds_bind. eapply holds_mono; [apply (truly_served false None)|]. intros [pub|e] g3 _; [|done]. by apply truly_apart.
Qed.
Lemma truly_reconcile wired g : truly (ReconcileIfBehind wired) (λ _ _, True) g.
Proof using HK.
  unfold ReconcileIfBehind. apply holds_bind, truly_read; [|done]. intros gs w HI. exists g. split; [by eapply truly_ghost|].
  destruct (lookup_key _ _) as [snap|]; cbv beta iota; [|exact (truly_recompute wired false true g)]. apply holds_bind, truly_select; [|done]. intros gs1 w1 HI1. exists g. split; [by eapply truly_ghost|].
  cbv beta iota. destruct (_ <? _)%nat; [exact (truly_recompute wired false true g)|exact Logic.I].
Qed.
Lemma truly_clear g : truly ClearFreeze (λ _ _, True) g.
Proof using HK.
  apply holds_map_err, truly_redis; [|done]. intros gs w HI. cbn. split; [by destruct HI as (_ & _ & _ & _ & ?)|]. exists g. split; [by eapply truly_ghost|done].
Qed.

(** The programs that share the board, and whatever only adds to the log. *)
Definition only_logs {A} (p : prog World A) : Prop := all_respect (λ _, True) (λ w w',
  same_view (w_db w) (w_db w') ∧ submissions (w_db w) `prefix_of` submissions (w_db w') ∧ bd_current (w_board w') = bd_current (w_board w) ∧
  (K (w_faults w) (event (w_db w)) (w_clock w) → K (w_faults w') (event (w_db w')) (w_clock w'))) p.
Inductive log_program : prog World unit → Prop :=
  | lp_recompute wired : log_program (forget (Recompute wired))
  | lp_force wired : log_program (forget (RecomputeForce wired))
  | lp_reconcile wired : log_program (forget (ReconcileIfBehind wired))
  | lp_freeze : log_program (forget MaybeSnapshotFreeze)
  | lp_clear : log_program (forget ClearFreeze)
  | lp_read isAdmin : log_program (forget (Current isAdmin))
  | lp_other p : only_logs p → log_program p.
Lemma same_view_trans d d1 d2 : same_view d d1 → same_view d1 d2 → same_view d d2.
Proof using. unfold same_view. intros (?&?&?&?) (?&?&?&?). split_and!; congruence. Qed.
Lemma true_boards_grow gs w w' : true_boards gs w → same_view (w_db w) (w_db w') →
  submissions (w_db w) `prefix_of` submissions (w_db w') → bd_current (w_board w') = bd_current (w_board w) →
  K (w_faults w') (event (w_db w')) (w_clock w') → true_boards gs w'.
Proof using.
  intros (H1 & H2 & H3 & H4 & H5) Hv Hp Hb Hk. split_and!; [done|by eapply same_view_trans|by etrans| |].
  - eapply Forall_impl; [exact H4|]. intros g Hg. exact (transitivity Hg Hp).
  - rewrite Hb. intros snap (l & ? & ?)%H5. exists l. split; [exact (transitivity ltac:(eassumption) Hp)|done].
Qed.
Lemma truly_program p : log_program p → truly p (λ _ _, True) [].
Proof using HK.
  destruct 1 as [wired|wired|wired| | |isAdmin|p Hp]; [apply (holds_forget (λ _, True))..|].
  - exact (truly_recompute wired false true []).
  - unfold RecomputeForce. apply holds_bind. eapply holds_mono; [apply truly_recompute|]. intros [[]|e] g _; [apply truly_recompute|done].
  - apply truly_reconcile.
  - apply truly_MaybeSnapshotFreeze.
  - apply truly_clear.
  - eapply holds_mono; [apply (truly_served isAdmin None)|done].
  - eapply holds_mono; [eapply (holds_frame _ _ _ _ []); [exact Hp| | |done]|done].
    + intros gs w w' HI (Hv & Hl & Hb & Hk). split; [|done]. eapply true_boards_grow; [done..|]. by apply Hk, HI.
    + intros gs w g (H1 & H2 & H3 & H4 & H5). inversion H4; subst. split_and!; [done..| |done]. constructor; [done|]. constructor; [apply prefix_nil|done].
Qed.
End Fresh.

(** ** Every board is the board of a log *)

(** The cached board is the one of a log that was once the table. *)
Definition board_true (w : World) : Prop :=
  ∀ snap, bd_current (w_board w) = Some snap → ∃ l, l `prefix_of` submissions (w_db w) ∧ shows (w_db w) l snap.
(** Solves were added to the log, and nothing else that the board shows has changed. *)
Definition log_grows (w w' : World) : Prop :=
  same_view (w_db w) (w_db w') ∧ submissions (w_db w) `prefix_of` submissions (w_db w').
(** [snap] is the right board for the log [l]. *)
Definition board_of_log (d : DB) (l : list Submission) (snap : Snapshot) : Prop :=
  right_board (valid_solves (with_log l d)) (scoreboard_teams d) (sn_Standings snap) ∧
  sn_SolveCount snap = length (valid_solves (with_log l d)).

Lemma shows_board d l s : shows d l s → board_of_log d l s.
Proof. intros [H1 H2]. split; [|done]. rewrite H1. apply standings_right, valid_solves_consistent. Qed.
Lemma shows_view d d' l s : same_view d d' → shows d l s → shows d' l s.
Proof.
  intros Hv [H1 H2]. assert (valid_solves (with_log l d') = valid_solves (with_log l d)) as E.
  { apply omap_some_ext. intros s'. by apply (valid_solve_view (with_log l d) (with_log l d')). }
  unfold shows. by rewrite E, (scoreboard_teams_view _ _ Hv).
Qed.
Lemma true_boards_start K w : K (w_faults w) (event (w_db w)) (w_clock w) → board_true w →
  ∀ n, true_boards (w_db w) (submissions (w_db w)) K (replicate n []) w.
Proof.
  intros HK Ht n. split_and!; [done|by split_and!|done| |done].
  apply Forall_replicate, prefix_nil.
Qed.
Lemma true_boards_end d0 l0 K gs w : true_boards d0 l0 K gs w → same_view d0 (w_db w) ∧ l0 `prefix_of` submissions (w_db w) ∧ board_true w.
Proof.
  intros (_ & Hv & Hl & _ & Hb). split_and!; [done..|]. intros snap (l & Hp & Hs)%Hb. exists l. split; [done|by eapply shows_view].
Qed.
Lemma true_boards_perm d0 l0 K gs gs' w : gs ≡ₚ gs' → true_boards d0 l0 K gs w → true_boards d0 l0 K gs' w.
Proof. intros Hp (H1 & H2 & H3 & H4 & H5). split_and!; [done..| |done]. by rewrite <- Hp. Qed.
Lemma true_boards_drop d0 l0 K g g' w : true_boards d0 l0 K [g; g'] w → true_boards d0 l0 K [g] w.
Proof. intros (H1 & H2 & H3 & H4 & H5). split_and!; [done..| |done]. inversion H4; subst. by constructor. Qed.
Lemma true_boards_env d0 l0 (K : list bool → option Event → time → Prop) gs w w' : log_grows w w' → (board_true w → board_true w') →
  (K (w_faults w) (event (w_db w)) (w_clock w) → K (w_faults w') (event (w_db w')) (w_clock w')) →
  true_boards d0 l0 K gs w → true_boards d0 l0 K gs w'.
Proof.
  intros [Hv Hl] Ht Hk HI. destruct (true_boards_end _ _ _ _ _ HI) as (_ & _ & Hb). destruct HI as (H1 & H2 & H3 & H4 & _).
  pose proof (same_view_trans _ _ _ H2 Hv) as Hv'. split_and!; [auto|done|by etrans| |].
  - eapply Forall_impl; [exact H4|]. intros g Hg. exact (transitivity Hg Hl).
  - intros snap (l & Hp & Hs)%(Ht Hb). exists l. split; [done|]. eapply shows_view, Hs. unfold same_view in *. naive_solver congruence.
Qed.

(** C10: Once the cached board is the right one for a past log, every interleaving of
    recomputes, reconciles, reads, freezes and thaws with programs that add to the log
    keeps it so, whatever fails. And when nothing fails, the event stays as it is and the
    reader is to see the live board, the read always answers, with the right standings (who
    is on them, points, order and ranks) for the log at some moment between its start
    and its end. *)
Theorem live_reads_current (isAdmin : bool) (E : World → World → Prop) (w : World)
    (Htrue : board_true w) :
  (∀ ps ps' w', Forall (log_program (λ _ _ _, True)) ps → rtc pool_step (ps, w) (ps', w') →
     log_grows w w' ∧ board_true w') ∧
  (w_faults w = [] → event_frozen (event (w_db w)) (w_clock w) && negb isAdmin = false →
   (∀ w1 w2, E w1 w2 → log_grows w1 w2 ∧ (board_true w1 → board_true w2) ∧
      w_faults w2 = w_faults w1 ∧ event (w_db w2) = event (w_db w1) ∧
      (event_frozen (event (w_db w1)) (w_clock w1) && negb isAdmin = false →
       event_frozen (event (w_db w2)) (w_clock w2) && negb isAdmin = false)) →
   ∀ r w', amid E (Current isAdmin) w r w' →
     ∃ s l, r = Ok s ∧ submissions (w_db w) `prefix_of` l ∧ l `prefix_of` submissions (w_db w') ∧
       board_of_log (w_db w) l s).
Proof.
  split.
  - intros ps ps' w' Hps Hr.
    destruct (holds_pool (λ _, True) (true_boards (w_db w) (submissions (w_db w)) (λ _ _ _, True)) (λ _ _, True)
      (true_boards_perm _ _ _) ps (replicate (length ps) []) w ps' w') as (gs & _ & HI & _); [..|done|].
    + apply Forall2_replicate_r; [done|]. eapply Forall_impl; [exact Hps|]. intros p Hp. by apply truly_program.
    + by apply true_boards_start.
    + by destruct (true_boards_end _ _ _ _ _ HI) as (H1 & H2 & H3).
  - intros Hf Hlive HE r w' Hr.
    set (K := λ (fs : list bool) ev c, fs = [] ∧ ev = event (w_db w) ∧ event_frozen (event (w_db w)) c && negb isAdmin = false).
    assert (∀ b fs ev c, K (b :: fs) ev c → K fs ev c) as HK by by intros b fs ev c [? _].
    destruct (holds_amid (λ _, True) (true_boards (w_db w) (submissions (w_db w)) K) (λ _ _, True) E (Current isAdmin)
      (λ r g, live K isAdmin (event (w_db w)) → true = true → ∃ s, r = Ok s ∧ current (w_db w) (submissions (w_db w)) g s)
      [] w r w') as (g & HI & HQ); [|apply true_boards_drop|exact (truly_served (w_db w) (submissions (w_db w)) K HK isAdmin (event (w_db w)) true [])|exact (true_boards_start K w (conj Hf (conj eq_refl Hlive)) Htrue 1)|exact Hr|].
    + intros gs w1 w2 HI (H1 & H2 & H3 & H4 & H5)%HE. apply (true_boards_env _ _ K _ w1); [done..| |done].
      intros (Hk1 & Hk2 & Hk3). rewrite Hk2 in H4. unfold K. rewrite H3, H4. split_and!; [done..|]. rewrite Hk2, H4 in H5. auto.
    + destruct HQ as (s & -> & H1 & H2); [intros fs ev c HKc; exact HKc|done|]. exists s, g.
      split_and!; [done..|by eapply truly_ghost|by apply shows_board].
Qed.

(** *** A board behind its log *)

Definition demo_first_board : Snapshot :=
  {| sn_Frozen := false; sn_GeneratedAt := 5; sn_Standings := standings (scoreboard_teams demo_db) []; sn_SolveCount := 0 |}.
(** The board of the empty log is cached, and one solve has been logged since. *)
Definition demo_stale : World :=
  demo_board_world (set_submissions [demo_solve] demo_db) (Some demo_first_board) None 0 (3 * Hour).
(** The same solve once more. *)
Definition demo_log_again : prog World unit :=
  Step (λ w, Some (tt, set_db (set_submissions (submissions (w_db w) ++ [demo_solve]) (w_db w)) w)) Ret.
Definition demo_pool : list (prog World unit) :=
  [forget (Recompute true); forget (Current false); demo_log_again; forget (ReconcileIfBehind true)].
Definition demo_log_moves (w w' : World) : Prop :=
  w' = set_db (set_submissions (submissions (w_db w) ++ [demo_solve]) (w_db w)) w.

Lemma demo_stale_true : board_true demo_stale.
Proof. intros snap [= <-]. exists []. split; [apply prefix_nil|]. split; vm_compute; reflexivity. Qed.
Lemma demo_moves_true w w' : demo_log_moves w w' → log_grows w w' ∧ (board_true w → board_true w').
Proof.
  intros ->. split; [split; [done|by eexists]|]. intros Ht snap (l & Hp & Hs)%Ht. exists l.
  split; [by apply prefix_app_r|exact Hs].
Qed.

Lemma live_reads_current_witness :
  (∀ ps' w', rtc pool_step (demo_pool, demo_stale) (ps', w') → board_true w') ∧
  (∀ r w', amid demo_log_moves (Current false) demo_stale r w' →
     ∃ s l, r = Ok s ∧ [demo_solve] `prefix_of` l ∧ board_of_log (w_db demo_stale) l s).
Proof.
  destruct (live_reads_current false demo_log_moves demo_stale demo_stale_true) as [Hpool Hread]. split.
  - intros ps' w' Hr. refine (proj2 (Hpool demo_pool ps' w' _ Hr)). repeat constructor.
    intros gs w x w1 _ [= <- <-]. exists tt. split_and!; [done|done|by eexists|done..].
  - intros r w' Hr. destruct (Hread eq_refl eq_refl) with (r := r) (w' := w') as (s & l & H1 & H2 & _ & H3); [|done|by exists s, l].
    intros w1 w2 Hm. destruct (demo_moves_true _ _ Hm) as [H1 H2]. rewrite Hm in *. by split_and!.
Defined.
