(* ===== verification/Teams.v ===== *)
(** * Teams ([internal/teams], [internal/handlers/teams.go])

    Creation, membership, captaincy, and the public pages' rows. *)

From S2P Require Import Prelude Env Store.

Section Teams.
Context {L : Libs}.

(** ** Statements *)

Definition team_rows (d : DB) : list Team := (map_to_list (teams d)).*2.
Definition member_of (team : uuid) (m : TeamMember) : bool := bool_decide (tm_TeamID m = team).
Definition is_user (user : uuid) (m : TeamMember) : bool := bool_decide (tm_UserID m = user).

Definition same_name (a b : string) : bool := bool_decide (citext_lower a = citext_lower b).

(** The constraints on a team row; [self] is the row an update replaces. *)
Definition team_checks (self : option uuid) (r : Team) (d : DB) : list (bool * error) :=
  let others f := existsb (λ t, negb (bool_decide (Some (t_ID t) = self)) && f t) (team_rows d) in
  [ checked (negb ((3 <=? char_length (t_Name r)) && (char_length (t_Name r) <=? 48))%nat)
            "chk_teams_name_len";
    unique (negb (is_Some_b self) && is_Some_b (teams d !! t_ID r)) "teams_pkey";
    unique (others (λ t, same_name (t_Name t) (t_Name r))) "uq_teams_name";
    unique (others (λ t, bool_decide (t_InviteCode t = t_InviteCode r))) "uq_teams_invite_code";
    foreign (negb (is_Some_b (users d !! t_CaptainID r))) "teams_captain_id_fkey" ].

Definition CreateTeam (id : uuid) (name code : string) (captain : uuid) : M World Team :=
  query (λ now d,
    let r := {| t_ID := id; t_Name := name; t_InviteCode := code; t_CaptainID := captain;
                t_Banned := false; t_Hidden := false; t_CreatedAt := now |} in
    guarded (team_checks None r d) (Ok r, set_teams (<[id := r]> (teams d)) d) d).

Definition AddTeamMember (team user : uuid) : M World unit :=
  query (λ now d,
    guarded
      [ unique (existsb (λ m, member_of team m && is_user user m) (members d)) "team_members_pkey";
        unique (existsb (is_user user) (members d)) "uq_team_members_user";
        foreign (negb (is_Some_b (teams d !! team))) "team_members_team_id_fkey";
        foreign (negb (is_Some_b (users d !! user))) "team_members_user_id_fkey" ]
      (Ok tt, set_members (members d ++ [{| tm_TeamID := team; tm_UserID := user; tm_JoinedAt := now |}]) d)
      d).

Definition GetTeamByID (id : uuid) : M World Team := select (λ d, one (teams d !! id)).
Definition GetTeamByInviteCode (code : string) : M World Team :=
  select (λ d, one (List.find (λ t, bool_decide (t_InviteCode t = code)) (team_rows d))).

(** [SELECT ... FOR UPDATE]: the row lock is held to the end of the transaction. *)
Definition LockTeam (id : uuid) : M World Team := GetTeamByID id.

Definition CountTeamMembers (team : uuid) : M World nat :=
  select (λ d, Ok (length (List.filter (member_of team) (members d)))).

Definition user_team (d : DB) (user : uuid) : option Team :=
  m ← List.find (is_user user) (members d); teams d !! tm_TeamID m.
Definition GetUserTeam (user : uuid) : M World Team := select (λ d, one (user_team d user)).

Record ListTeamMembersRow := { lm_ID : uuid; lm_Username : string; lm_Hidden : bool; lm_JoinedAt : time }.
Definition member_row (d : DB) (m : TeamMember) : option ListTeamMembersRow :=
  u ← users d !! tm_UserID m;
  Some {| lm_ID := tm_UserID m; lm_Username := u_Username u; lm_Hidden := u_Hidden u;
          lm_JoinedAt := tm_JoinedAt m |}.
Definition team_members (d : DB) (team : uuid) : list ListTeamMembersRow :=
  omap (member_row d) (order_by tm_JoinedAt (List.filter (member_of team) (members d))).
Definition ListTeamMembers (team : uuid) : M World (list ListTeamMembersRow) :=
  select (λ d, Ok (team_members d team)).

Definition RemoveTeamMember (team user : uuid) : M World unit :=
  query (λ _ d, (Ok tt,
    set_members (List.filter (λ m, negb (member_of team m && is_user user m)) (members d)) d)).

(** Deleting a team deletes its memberships, submissions and instance rows. *)
Definition DeleteTeam (id : uuid) : M World unit :=
  query (λ _ d, (Ok tt,
    set_teams (delete id (teams d))
      (set_members (List.filter (λ m, negb (member_of id m)) (members d))
        (set_submissions (List.filter (λ s, negb (bool_decide (s_TeamID s = id))) (submissions d))
          (set_instances (filter (λ kv, i_TeamID kv.2 ≠ Some id) (instances d)) d))))).

(** [UPDATE teams SET ... WHERE id = $1 RETURNING ...]. *)
Definition update_team (id : uuid) (f : Team → Team) : M World Team :=
  query (λ _ d,
    match teams d !! id with
    | None => (Err ErrNoRows, d)
    | Some t => guarded (team_checks (Some id) (f t) d) (Ok (f t), set_teams (<[id := f t]> (teams d)) d) d
    end).

Definition with_captain (u : uuid) (t : Team) : Team :=
  {| t_ID := t_ID t; t_Name := t_Name t; t_InviteCode := t_InviteCode t; t_CaptainID := u;
     t_Banned := t_Banned t; t_Hidden := t_Hidden t; t_CreatedAt := t_CreatedAt t |}.
Definition with_name (n : string) (t : Team) : Team :=
  {| t_ID := t_ID t; t_Name := n; t_InviteCode := t_InviteCode t; t_CaptainID := t_CaptainID t;
     t_Banned := t_Banned t; t_Hidden := t_Hidden t; t_CreatedAt := t_CreatedAt t |}.
Definition with_code (c : string) (t : Team) : Team :=
  {| t_ID := t_ID t; t_Name := t_Name t; t_InviteCode := c; t_CaptainID := t_CaptainID t;
     t_Banned := t_Banned t; t_Hidden := t_Hidden t; t_CreatedAt := t_CreatedAt t |}.
Definition with_flags (b h : option bool) (t : Team) : Team :=
  {| t_ID := t_ID t; t_Name := t_Name t; t_InviteCode := t_InviteCode t; t_CaptainID := t_CaptainID t;
     t_Banned := coalesce1 b (t_Banned t); t_Hidden := coalesce1 h (t_Hidden t);
     t_CreatedAt := t_CreatedAt t |}.

(** [:exec]: no row is not an error. *)
Definition UpdateTeamCaptain (id captain : uuid) : M World unit :=
  r ← try (update_team id (with_captain captain));
  match r with Ok _ => mret tt | Err e => if is_no_rows e then mret tt else throw e end.
Definition UpdateTeamName (id : uuid) (name : string) : M World Team := update_team id (with_name name).
Definition UpdateTeamInviteCode (id : uuid) (code : string) : M World Team := update_team id (with_code code).
Definition UpdateTeamAdminFields (id : uuid) (banned hidden : option bool) : M World Team :=
  update_team id (with_flags banned hidden).

(** A team whose captain is not one of its members, and its earliest member. *)
Definition is_member_b (d : DB) (team user : uuid) : bool :=
  existsb (λ m, member_of team m && is_user user m) (members d).
Definition earliest (d : DB) (team : uuid) : option uuid :=
  tm_UserID <$> head (order_by tm_JoinedAt (List.filter (member_of team) (members d))).
Definition repaired_captain (d : DB) (t : Team) : option uuid :=
  if is_member_b d (t_ID t) (t_CaptainID t) then None else earliest d (t_ID t).

Definition RepairStrandedCaptains_sql : M World (list (uuid * uuid)) :=
  query (λ _ d,
    (Ok (omap (λ t, pair (t_ID t) <$> repaired_captain d t) (team_rows d)),
     set_teams ((λ t, match repaired_captain d t with Some u => with_captain u t | None => t end)
                <$> teams d) d)).

Record ListPublicTeamsRow := { lp_ID : uuid; lp_Name : string; lp_Banned : bool; lp_MemberCount : nat }.
Definition ListPublicTeams : M World (list ListPublicTeamsRow) :=
  select (λ d, Ok (map (λ t, {| lp_ID := t_ID t; lp_Name := t_Name t; lp_Banned := t_Banned t;
      lp_MemberCount := length (List.filter (member_of (t_ID t)) (members d)) |})
    (order_by t_CreatedAt (List.filter (λ t, negb (t_Hidden t)) (team_rows d))))).

(** ** Invite codes *)

Definition invite_alphabet : string := "0123456789ABCDEFGHJKMNPQRSTVWXYZ".
Definition inviteCodeLen : nat := 12.
Definition invite_char (b : N) : Ascii.ascii :=
  default Ascii.zero (String.get (N.to_nat b mod String.length invite_alphabet) invite_alphabet).
Definition GenerateInviteCode : M World string :=
  buf ← map_err (Wrap "teams: generating invite code") (rand_Read inviteCodeLen);
  mret (String.string_of_list_ascii (map invite_char buf)).

(** ** The service *)

Record TeamView := { tv_Row : Team; tv_Members : list ListTeamMembersRow }.

(** [len] is the number of bytes. *)
Definition validateName (name : string) : P World unit :=
  if ((String.length name <? 3) || (48 <? String.length name))%nat
  then throw (Validation (Add "name" "must be between 3 and 48 characters" NewValidation))
  else mret tt.

Definition mapConflict (what : string) (e : error) : error :=
  match unique_violation e with
  | Some c =>
      if decide (c = "uq_team_members_user") then Conflict "you are already on a team"
      else if decide (c = "uq_teams_name") then Conflict "that team name is taken"
      else if decide (c = "uq_teams_invite_code") then Conflict "invite code collision, please retry"
      else Conflict (what +:+ " already exists")
  | None => Wrap ("teams: " +:+ what) e
  end%string.

Definition load (t : Team) : P World TeamView :=
  ms ← map_err (Wrap "teams: listing members") (atomic (ListTeamMembers (t_ID t)));
  mret {| tv_Row := t; tv_Members := ms |}.

Definition Create_tx (id : uuid) (name code : string) (user : uuid) : M World Team :=
  WithTx (t ← CreateTeam id name code user; AddTeamMember id user;; mret t).

Definition Create (user : uuid) (name : string) : P World TeamView :=
  validateName name;;
  code ← atomic GenerateInviteCode;
  id ← map_err (Wrap "teams: generating id") (atomic NewV7);
  t ← map_err (mapConflict "team name") (atomic (Create_tx id name code user));
  load t.

Section Sized.
Context (maxSize : Z).

Definition Join_tx (team user : uuid) : M World unit :=
  WithTx (
    locked ← map_err (no_rows_as (NotFound "no team with that invite code") "teams: locking team")
      (LockTeam team);
    if t_Banned locked then throw (Conflict "that team is banned") else
    count ← map_err (Wrap "teams: counting members") (CountTeamMembers team);
    if (maxSize <=? Z.of_nat count)%Z then throw (Conflict "that team is full") else
    map_err (mapConflict "membership") (AddTeamMember team user)).

Definition Join (user : uuid) (code : string) : P World TeamView :=
  t ← map_err (no_rows_as (NotFound "no team with that invite code") "teams: looking up invite code")
    (atomic (GetTeamByInviteCode code));
  if t_Banned t then throw (Conflict "that team is banned") else
  atomic (Join_tx (t_ID t) user);;
  load t.
End Sized.

Definition Leave_tx (team user : uuid) : M World unit :=
  WithTx (
    l ← try (LockTeam team);
    match l with
    | Err e => if is_no_rows e then mret tt else throw (Wrap "teams: locking team" e)
    | Ok locked =>
        RemoveTeamMember team user;;
        ms ← ListTeamMembers team;
        match ms with
        | [] =>
            subs ← CountTeamSubmissions team;
            if decide (subs = 0) then DeleteTeam team else mret tt
        | first :: _ =>
            if decide (t_CaptainID locked = user) then UpdateTeamCaptain team (lm_ID first) else mret tt
        end
    end).

Definition Leave (user : uuid) : P World unit :=
  team ← map_err (no_rows_as (NotFound "you are not on a team") "teams: getting team")
    (atomic (GetUserTeam user));
  atomic (Leave_tx (t_ID team) user).

Definition RepairStrandedCaptains : P World (list (uuid * uuid)) :=
  map_err (Wrap "teams: repairing stranded captains") (atomic RepairStrandedCaptains_sql).

Definition Rename (team : uuid) (name : string) : P World TeamView :=
  validateName name;;
  t ← map_err (λ e, if is_no_rows e then ErrNotFound else mapConflict "team name" e)
    (atomic (UpdateTeamName team name));
  load t.

Definition RegenerateInviteCode (team : uuid) : P World string :=
  code ← atomic GenerateInviteCode;
  map_err (no_rows_as ErrNotFound "teams: regenerating invite code") (atomic (UpdateTeamInviteCode team code));;
  mret code.

Definition team_Get (team : uuid) : P World TeamView :=
  t ← map_err (no_rows_as ErrNotFound "teams: getting team") (atomic (GetTeamByID team));
  load t.

Definition RequireCaptain (team user : uuid) : P World Team :=
  t ← map_err (no_rows_as ErrNotFound "teams: getting team") (atomic (GetTeamByID team));
  if decide (t_CaptainID t = user) then mret t
  else throw (Forbidden "only the captain can do that").

Definition IsMember (team user : uuid) : P World bool :=
  r ← try (atomic (GetUserTeam user));
  match r with
  | Ok t => mret (bool_decide (t_ID t = team))
  | Err e => if is_no_rows e then mret false else throw (Wrap "teams: membership check" e)
  end.

Definition team_AdminUpdate (team : uuid) (banned hidden : option bool) : P World Team :=
  map_err (no_rows_as ErrNotFound "teams: admin update")
    (atomic (UpdateTeamAdminFields team banned hidden)).

Definition MemberCount (team : uuid) : P World nat := atomic (CountTeamMembers team).
Definition PublicList : P World (list ListPublicTeamsRow) := atomic ListPublicTeams.
Definition GetRow (team : uuid) : P World Team := atomic (GetTeamByID team).

(** ** The endpoints, for a signed-in caller *)

Definition h_CreateTeam (caller : uuid) (name : string) : P World TeamView :=
  t ← Create caller name;
  atomic (audit_Log caller "team.create" "team" (uuid_String (t_ID (tv_Row t)))
    {[ "name" := t_Name (tv_Row t) ]});;
  mret t.
Definition h_JoinTeam (maxSize : Z) (caller : uuid) (code : string) : P World TeamView :=
  t ← Join maxSize caller code;
  atomic (audit_Log caller "team.join" "team" (uuid_String (t_ID (tv_Row t))) ∅);;
  mret t.
Definition h_LeaveTeam (caller : uuid) : P World unit :=
  Leave caller;;
  atomic (audit_Log caller "team.leave" "user" (uuid_String caller) ∅).
Definition h_RenameTeam (caller team : uuid) (name : string) : P World TeamView :=
  RequireCaptain team caller;;
  t ← Rename team name;
  atomic (audit_Log caller "team.rename" "team" (uuid_String team) {[ "name" := name ]});;
  mret t.
Definition h_RegenerateInviteCode (caller team : uuid) : P World string :=
  RequireCaptain team caller;;
  code ← RegenerateInviteCode team;
  atomic (audit_Log caller "team.invite_regen" "team" (uuid_String team) ∅);;
  mret code.
End Teams.
