(* ===== verification/TeamRules.v ===== *)
(** * The rules of teams

    What every interleaving of the team operations keeps, and what each operation
    does on every branch. *)

From S2P Require Import Prelude Interleave Env Demo Store Teams.

Section Rules.
Context {L : Libs} (maxSize : Z).

(** [u] is a member of team [id]. *)
Definition InTeam (d : DB) (id u : uuid) : Prop :=
  ∃ m, m ∈ members d ∧ tm_TeamID m = id ∧ tm_UserID m = u.

Definition size_of (d : DB) (id : uuid) : nat := length (List.filter (member_of id) (members d)).

Record teams_base (d : DB) : Prop := {
  tok_id : ∀ id t, teams d !! id = Some t → t_ID t = id;
  tok_refs : ∀ id u, InTeam d id u → is_Some (teams d !! id) ∧ is_Some (users d !! u);
  tok_one_team : NoDup (map tm_UserID (members d));
  tok_size : ∀ id, (Z.of_nat (size_of d id) ≤ maxSize)%Z;
  tok_names : ∀ id id' t t', teams d !! id = Some t → teams d !! id' = Some t' →
    same_name (t_Name t) (t_Name t') = true → id = id';
  tok_codes : ∀ id id' t t', teams d !! id = Some t → teams d !! id' = Some t' →
    t_InviteCode t = t_InviteCode t' → id = id'
}.

(** A team that exists has a member or a history. *)
Definition used (d : DB) : Prop := ∀ id t, teams d !! id = Some t →
  (∃ u, InTeam d id u) ∨ (∃ s, s ∈ submissions d ∧ s_TeamID s = id).

Definition teams_ok (d : DB) : Prop := teams_base d ∧ used d.

(** ** Members *)

Lemma member_of_true id m : member_of id m = true ↔ tm_TeamID m = id.
Proof. unfold member_of. apply bool_decide_eq_true. Qed.
Lemma is_user_true u m : is_user u m = true ↔ tm_UserID m = u.
Proof. unfold is_user. apply bool_decide_eq_true. Qed.

Lemma existsb_InTeam d id u :
  existsb (λ m, member_of id m && is_user u m) (members d) = true ↔ InTeam d id u.
Proof.
  rewrite existsb_exists. unfold InTeam. setoid_rewrite <- list_elem_of_In.
  setoid_rewrite andb_true_iff. setoid_rewrite member_of_true. by setoid_rewrite is_user_true.
Qed.

Lemma size_zero d id : size_of d id = 0 ↔ ∀ u, ¬ InTeam d id u.
Proof.
  unfold size_of, InTeam. split.
  - intros E u (m & Hm & Ht & _). apply length_zero_iff_nil in E.
    assert (m ∈ List.filter (member_of id) (members d)) as Hin.
    { apply list_elem_of_In, List.filter_In. split; [by apply list_elem_of_In|]. by apply member_of_true. }
    rewrite E in Hin. by apply not_elem_of_nil in Hin.
  - intros H. destruct (List.filter _ _) as [|m l] eqn:E; [done|].
    assert (In m (List.filter (member_of id) (members d))) as [Hin Hm]%List.filter_In
      by (rewrite E; by left).
    destruct (H (tm_UserID m)). exists m. split_and!; [by apply list_elem_of_In| |done].
    by apply member_of_true.
Qed.

Lemma order_by_perm {A} (key : A → Z) l : order_by key l ≡ₚ l.
Proof. apply merge_sort_Permutation. Qed.

(** The rows [ListTeamMembers] returns are the members. *)
Lemma team_members_spec d id r :
  (∀ id u, InTeam d id u → is_Some (users d !! u)) →
  r ∈ team_members d id → InTeam d id (lm_ID r).
Proof.
  intros Hrefs (m & Hm & Er)%list_elem_of_omap.
  rewrite order_by_perm in Hm. apply list_elem_of_In, List.filter_In in Hm as [Hm Ht].
  unfold member_row in Er. apply bind_Some in Er as (u & _ & [= <-]). simpl.
  exists m. split_and!; [by apply list_elem_of_In|by apply member_of_true|done].
Qed.

Lemma team_members_nil d id :
  (∀ id u, InTeam d id u → is_Some (users d !! u)) →
  team_members d id = [] → ∀ u, ¬ InTeam d id u.
Proof.
  intros Hrefs E u (m & Hm & Ht & Hu).
  destruct (Hrefs id u) as [x Hx]; [by exists m|].
  assert (∃ r, r ∈ team_members d id) as [r Hr].
  { eexists. apply list_elem_of_omap. exists m. split.
    - rewrite order_by_perm. apply list_elem_of_In, List.filter_In.
      split; [by apply list_elem_of_In|by apply member_of_true].
    - unfold member_row. by rewrite Hu, Hx. }
  rewrite E in Hr. by apply not_elem_of_nil in Hr.
Qed.

(** ** What an accepted team row says *)

Lemma elem_of_team_rows d t : In t (team_rows d) ↔ ∃ id, teams d !! id = Some t.
Proof. unfold team_rows. rewrite <- list_elem_of_In. apply elem_of_rows. Qed.

Lemma team_checks_ok self r d :
  Forall (λ c, c.1 = false) (team_checks self r d) →
  (self = None → teams d !! t_ID r = None) ∧
  (∀ id t, teams d !! id = Some t → Some (t_ID t) ≠ self →
     same_name (t_Name t) (t_Name r) = false ∧ t_InviteCode t ≠ t_InviteCode r) ∧
  is_Some (users d !! t_CaptainID r).
Proof.
  unfold team_checks. rewrite !Forall_cons. cbn [fst checked unique foreign].
  intros (_ & Hpk & Hname & Hcode & Hcap & _). split_and!.
  - intros ->. by apply is_Some_b_false.
  - intros id t Ht Hself.
    assert (∀ f, existsb (λ t, negb (bool_decide (Some (t_ID t) = self)) && f t) (team_rows d) = false → f t = false) as He.
    { intros f Hf. destruct (f t) eqn:E; [|done]. rewrite <- Hf. symmetry. apply existsb_exists.
      exists t. split; [apply elem_of_team_rows; eauto|]. by rewrite bool_decide_false, E. }
    split; [by apply He in Hname|]. apply He in Hcode. by apply bool_decide_eq_false in Hcode.
  - apply is_Some_b_true. by apply negb_false_iff.
Qed.

(** ** Each transaction keeps the rules *)

(** A team with a member whose captain is one keeps a captain who is one, unless
    it is left without members. *)
Definition captained (d : DB) (id : uuid) : Prop :=
  ∃ t, teams d !! id = Some t ∧ InTeam d id (t_CaptainID t).
Definition captain_kept (d d' : DB) : Prop :=
  ∀ id, captained d id → captained d' id ∨ ∀ u, ¬ InTeam d' id u.
#[local] Instance captain_kept_refl : Reflexive captain_kept.
Proof. intros d id H. by left. Qed.

Lemma InTeam_snoc d m id u :
  InTeam (set_members (members d ++ [m]) d) id u ↔ InTeam d id u ∨ (tm_TeamID m = id ∧ tm_UserID m = u).
Proof.
  unfold InTeam. simpl. setoid_rewrite elem_of_app. setoid_rewrite list_elem_of_singleton.
  naive_solver.
Qed.

Lemma InTeam_remove d team user id u :
  InTeam (set_members (List.filter (λ m, negb (member_of team m && is_user user m)) (members d)) d) id u
  ↔ InTeam d id u ∧ (id ≠ team ∨ u ≠ user).
Proof.
  unfold InTeam. simpl. split.
  - intros (m & Hm & Ht & Hu). apply list_elem_of_In, List.filter_In in Hm as [Hm Hf].
    split; [exists m; split_and!; [by apply list_elem_of_In|done|done]|].
    apply negb_true_iff, andb_false_iff in Hf as [Hf|Hf];
      [left|right]; apply bool_decide_eq_false in Hf; congruence.
  - intros [(m & Hm & Ht & Hu) Hne]. exists m. split_and!; [|done|done].
    apply list_elem_of_In, List.filter_In. split; [by apply list_elem_of_In|].
    apply negb_true_iff, andb_false_iff. unfold member_of, is_user. rewrite !bool_decide_eq_false.
    naive_solver.
Qed.

Lemma same_name_sym a b : same_name a b = same_name b a.
Proof. unfold same_name. apply bool_decide_ext. naive_solver. Qed.

Lemma size_snoc d m id :
  size_of (set_members (members d ++ [m]) d) id = (size_of d id + if member_of id m then 1 else 0)%nat.
Proof. unfold size_of. simpl. rewrite List.filter_app, length_app. simpl. by destruct (member_of id m). Qed.

(** Adding a member the constraints accept. *)
Lemma add_member_ok d d' now team user u :
  (Z.of_nat (size_of d team) < maxSize)%Z →
  guarded
    [ unique (existsb (λ m, member_of team m && is_user user m) (members d)) "team_members_pkey";
      unique (existsb (is_user user) (members d)) "uq_team_members_user";
      foreign (negb (is_Some_b (teams d !! team))) "team_members_team_id_fkey";
      foreign (negb (is_Some_b (users d !! user))) "team_members_user_id_fkey" ]
    (Ok tt, set_members (members d ++ [{| tm_TeamID := team; tm_UserID := user; tm_JoinedAt := now |}]) d)
    d = (Ok u, d') →
  d' = set_members (members d ++ [{| tm_TeamID := team; tm_UserID := user; tm_JoinedAt := now |}]) d ∧
  is_Some (teams d !! team) ∧ is_Some (users d !! user) ∧ (∀ id, ¬ InTeam d id user).
Proof.
  intros Hsize (Hc & _ & ->)%guarded_ok. split; [done|].
  rewrite !Forall_cons in Hc. cbn [fst unique foreign] in Hc.
  destruct Hc as (_ & Huser & Ht & Hu & _). apply negb_false_iff, is_Some_b_true in Ht, Hu.
  split_and!; [done|done|]. intros id (m & Hm & _ & Hmu).
  assert (existsb (is_user user) (members d) = true) as E; [|congruence].
  apply existsb_exists. exists m. split; [by apply list_elem_of_In|by apply is_user_true].
Qed.

Lemma teams_base_snoc d m :
  teams_base d → (Z.of_nat (size_of d (tm_TeamID m)) < maxSize)%Z →
  is_Some (teams d !! tm_TeamID m) → is_Some (users d !! tm_UserID m) →
  (∀ id, ¬ InTeam d id (tm_UserID m)) →
  teams_base (set_members (members d ++ [m]) d).
Proof.
  intros [Hid Hrefs Hone Hsize Hnames Hcodes] Hlt Ht Hu Hnew. split; try done.
  - intros id u [?|[<- <-]]%InTeam_snoc; [by eapply Hrefs|done].
  - simpl. rewrite map_app. simpl. apply NoDup_app. split_and!; [done| |apply NoDup_singleton].
    intros u Hin ->%list_elem_of_singleton. apply list_elem_of_fmap in Hin as (x & Eu & Hx).
    apply (Hnew (tm_TeamID x)). by exists x.
  - intros id. rewrite size_snoc. destruct (member_of id m) eqn:E.
    + apply member_of_true in E. subst. lia.
    + specialize (Hsize id). lia.
Qed.

Lemma used_snoc d m : used d → used (set_members (members d ++ [m]) d).
Proof.
  intros Hused id t Hlk. destruct (Hused id t Hlk) as [[u Hin]|?]; [left|by right].
  exists u. apply InTeam_snoc. by left.
Qed.

Lemma captain_kept_snoc d m : captain_kept d (set_members (members d ++ [m]) d).
Proof. intros id (t & Hlk & Hc). left. exists t. split; [done|]. apply InTeam_snoc. by left. Qed.

Definition Join_body (team user : uuid) : M World unit :=
  locked ← map_err (no_rows_as (NotFound "no team with that invite code") "teams: locking team")
    (LockTeam team);
  if t_Banned locked then throw (Conflict "that team is banned") else
  count ← map_err (Wrap "teams: counting members") (CountTeamMembers team);
  if (maxSize <=? Z.of_nat count)%Z then throw (Conflict "that team is full") else
  map_err (mapConflict "membership") (AddTeamMember team user).

Lemma Join_body_ok team user w a w' :
  teams_ok (w_db w) → Join_body team user w = (Ok a, w') →
  teams_ok (w_db w') ∧ captain_kept (w_db w) (w_db w').
Proof.
  intros [Hok Hused] (t & w1 & E1 & E)%M_bind_ok. apply map_err_ok, select_ok in E1 as (Et & Ed1 & _).
  destruct (t_Banned t); [done|].
  apply M_bind_ok in E as (n & w2 & E2 & E). apply map_err_ok, select_ok in E2 as ([= <-] & Ed2 & _).
  destruct (Z.leb_spec maxSize (Z.of_nat (length (List.filter (member_of team) (members (w_db w1))))));
    [done|].
  apply map_err_ok, query_ok in E as (E & _). rewrite Ed2, Ed1 in *.
  apply add_member_ok in E as (-> & Ht & Hu & Hnew); [|done].
  split; [split|]; [by apply teams_base_snoc|by apply used_snoc|apply captain_kept_snoc].
Qed.

Lemma teams_base_insert d id r :
  teams_base d → t_ID r = id → Forall (λ c, c.1 = false) (team_checks None r d) →
  teams_base (set_teams (<[id := r]> (teams d)) d).
Proof.
  intros [Hid Hrefs Hone Hsize Hnames Hcodes] <- (Hpk & Hother & _)%team_checks_ok. specialize (Hpk eq_refl).
  split; simpl; try done.
  - intros id t [[<- <-]|[_ ?]]%lookup_insert_Some; [done|by apply Hid].
  - intros id u Hin. destruct (Hrefs id u Hin) as [[t Ht] Hu]. split; [|done].
    rewrite lookup_insert_ne by congruence. eauto.
  - intros id id' t t' [[<- <-]|[Hn ?]]%lookup_insert_Some [[<- <-]|[Hn' ?]]%lookup_insert_Some Hs;
      [done| | |by eapply Hnames].
    + destruct (Hother id' t') as [Hf _]; [done..|]. rewrite same_name_sym in Hf. congruence.
    + destruct (Hother id t) as [Hf _]; [done..|]. congruence.
  - intros id id' t t' [[<- <-]|[Hn ?]]%lookup_insert_Some [[<- <-]|[Hn' ?]]%lookup_insert_Some Hs;
      [done| | |by eapply Hcodes].
    + by destruct (Hother id' t') as [_ []].
    + by destruct (Hother id t) as [_ []].
Qed.

Lemma Create_body_ok id name code user w t w' :
  (1 ≤ maxSize)%Z → teams_ok (w_db w) →
  (t ← CreateTeam id name code user; AddTeamMember id user;; mret t) w = (Ok t, w') →
  teams_ok (w_db w') ∧ captain_kept (w_db w) (w_db w').
Proof.
  intros Hmax [Hok Hused] (r & w1 & E1 & E)%M_bind_ok.
  apply query_ok in E1 as (E1 & _). apply guarded_ok in E1 as (Hc & -> & E1).
  set (r0 := {| t_ID := id |}) in *.
  pose proof (teams_base_insert (w_db w) id r0 Hok eq_refl Hc) as Hok1. rewrite <- E1 in Hok1.
  apply M_bind_ok in E as (? & w2 & E2 & [= <- <-]). apply query_ok in E2 as (E2 & _).
  assert (∀ u, ¬ InTeam (w_db w) id u) as Hempty.
  { intros u Hin. destruct (tok_refs _ Hok id u Hin) as [[y Hy] _].
    apply team_checks_ok in Hc as (Hpk & _). specialize (Hpk eq_refl). simpl in Hpk. congruence. }
  assert (size_of (w_db w1) id = 0) as Hz.
  { apply size_zero. intros u. rewrite E1. exact (Hempty u). }
  apply add_member_ok in E2 as (E2 & Ht & Hu & Hnew); [|by rewrite Hz; lia].
  rewrite E2. split; [split|].
  - apply teams_base_snoc; simpl; try done. rewrite Hz. lia.
  - intros i t Hlk. simpl in Hlk. rewrite E1 in Hlk. simpl in Hlk.
    apply lookup_insert_Some in Hlk as [[<- <-]|[Hne Hlk]].
    + left. exists user. apply InTeam_snoc. by right.
    + destruct (Hused i t Hlk) as [[u Hin]|Hs]; [left|right].
      * exists u. apply InTeam_snoc. left. rewrite E1. exact Hin.
      * simpl. rewrite E1. exact Hs.
  - intros i (t & Hlk & Hin). left. exists t. split.
    + simpl. rewrite E1. simpl. rewrite lookup_insert_ne; [done|]. intros ->. by eapply Hempty.
    + apply InTeam_snoc. left. rewrite E1. exact Hin.
Qed.

(** ** Leaving *)

Definition without (team user : uuid) (d : DB) : DB :=
  set_members (List.filter (λ m, negb (member_of team m && is_user user m)) (members d)) d.

Lemma filter_length_le {A} (f g : A → bool) l :
  length (List.filter f (List.filter g l)) ≤ length (List.filter f l).
Proof. induction l as [|x l IH]; simpl; [done|]. destruct (g x); simpl; destruct (f x); simpl; lia. Qed.

Lemma NoDup_map_filter {A B} (h : A → B) (g : A → bool) l :
  NoDup (map h l) → NoDup (map h (List.filter g l)).
Proof.
  induction l as [|x l IH]; simpl; [done|]. intros [Hx Hl]%NoDup_cons.
  destruct (g x); simpl; [|by apply IH]. apply NoDup_cons. split; [|by apply IH].
  intros (y & E & Hy)%list_elem_of_fmap. apply Hx, list_elem_of_fmap. exists y. split; [done|].
  apply list_elem_of_In, List.filter_In in Hy as [Hy _]. by apply list_elem_of_In.
Qed.

Lemma teams_base_without d team user : teams_base d → teams_base (without team user d).
Proof.
  intros [Hid Hrefs Hone Hsize Hnames Hcodes]. split; try done.
  - intros id u [Hin _]%InTeam_remove. by eapply Hrefs.
  - by apply NoDup_map_filter.
  - intros id. etrans; [|apply (Hsize id)]. apply inj_le. apply filter_length_le.
Qed.

(** A row update that leaves the id alone. *)
Lemma update_team_ok f d id t d' :
  teams_base d → (∀ t, t_ID (f t) = t_ID t) →
  match teams d !! id with
  | None => (Err ErrNoRows, d)
  | Some t => guarded (team_checks (Some id) (f t) d) (Ok (f t), set_teams (<[id := f t]> (teams d)) d) d
  end = (Ok t, d') →
  ∃ t0, teams d !! id = Some t0 ∧ t = f t0 ∧ d' = set_teams (<[id := f t0]> (teams d)) d ∧
        is_Some (users d !! t_CaptainID t) ∧ teams_base d'.
Proof.
  intros Hok Hf E. destruct (teams d !! id) as [t0|] eqn:Ht; [|done].
  apply guarded_ok in E as (Hc & -> & ->). exists t0.
  apply team_checks_ok in Hc as (_ & Hother & Hcap).
  destruct Hok as [Hid Hrefs Hone Hsize Hnames Hcodes]. split_and!; try done.
  assert (∀ id' t', id' ≠ id → teams d !! id' = Some t' →
    same_name (t_Name t') (t_Name (f t0)) = false ∧ t_InviteCode t' ≠ t_InviteCode (f t0)) as Ho.
  { intros id' t' Hne Ht'. apply (Hother id' t' Ht'). rewrite (Hid _ _ Ht'). congruence. }
  split; simpl; try done.
  - intros i t [[<- <-]|[_ ?]]%lookup_insert_Some; [|by apply Hid]. rewrite Hf. by apply Hid.
  - intros i u Hin. destruct (Hrefs i u Hin) as [Hi Hu]. split; [|done].
    destruct (decide (i = id)) as [->|Hne]; [by rewrite lookup_insert_eq|by rewrite lookup_insert_ne].
  - intros i j ti tj [[<- <-]|[Hn ?]]%lookup_insert_Some [[<- <-]|[Hn' ?]]%lookup_insert_Some Hs;
      [done| | |by eapply Hnames].
    + destruct (Ho j tj) as [Hs' _]; [done..|]. rewrite same_name_sym in Hs'. congruence.
    + destruct (Ho i ti) as [Hs' _]; [done..|]. congruence.
  - intros i j ti tj [[<- <-]|[Hn ?]]%lookup_insert_Some [[<- <-]|[Hn' ?]]%lookup_insert_Some Hs;
      [done| | |by eapply Hcodes].
    + by destruct (Ho j tj) as [_ []].
    + by destruct (Ho i ti) as [_ []].
Qed.

Definition Leave_body (team user : uuid) : M World unit :=
  l ← try (LockTeam team);
  match l with
  | Err e => if is_no_rows e then mret tt else throw (Wrap "teams: locking team" e)
  | Ok locked =>
      RemoveTeamMember team user;;
      ms ← ListTeamMembers team;
      match ms with
      | [] =>
          subs ← CountTeamSubmissions team;
          if decide (subs = 0) then DeleteTeam team else mret tt
      | first :: _ =>
          if decide (t_CaptainID locked = user) then UpdateTeamCaptain team (lm_ID first) else mret tt
      end
  end.

Lemma earliest_spec d id :
  match earliest d id with
  | Some u => InTeam d id u ∧ ∃ m, m ∈ members d ∧ tm_TeamID m = id ∧ tm_UserID m = u ∧
                ∀ m', m' ∈ members d → tm_TeamID m' = id → (tm_JoinedAt m ≤ tm_JoinedAt m')%Z
  | None => ∀ u, ¬ InTeam d id u
  end.
Proof.
  unfold earliest. destruct (order_by _ _) as [|m l] eqn:E; simpl.
  - intros u (m & Hm & Ht & _).
    assert (m ∈ order_by tm_JoinedAt (List.filter (member_of id) (members d))) as Hin.
    { rewrite order_by_perm. apply list_elem_of_In, List.filter_In. split; [by apply list_elem_of_In|].
      by apply member_of_true. }
    rewrite E in Hin. by apply not_elem_of_nil in Hin.
  - assert (∀ m', m' ∈ m :: l ↔ m' ∈ members d ∧ tm_TeamID m' = id) as Hin.
    { intros m'. rewrite <- E, order_by_perm, list_elem_of_In, List.filter_In, member_of_true.
      by rewrite list_elem_of_In. }
    destruct (proj1 (Hin m)) as [Hm Ht]; [by left|].
    split; [by exists m|]. exists m. split_and!; [done..|].
    intros m' Hm' Ht'. assert (m' ∈ m :: l) as [->|Hl]%elem_of_cons by (by apply Hin); [done|].
    assert (StronglySorted (key_le tm_JoinedAt) (m :: l)) as Hs.
    { rewrite <- E. apply StronglySorted_merge_sort; unfold key_le; intros ?*; lia. }
    inversion Hs as [|? ? _ Hall]; subst. by apply (proj1 (Forall_forall _ _) Hall).
Qed.

Lemma earliest_first d id r l :
  (∀ id u, InTeam d id u → is_Some (users d !! u)) →
  team_members d id = r :: l → earliest d id = Some (lm_ID r).
Proof.
  intros Hrefs. unfold team_members, earliest.
  destruct (order_by _ _) as [|m ms] eqn:E; [done|]. simpl.
  assert (m ∈ order_by tm_JoinedAt (List.filter (member_of id) (members d))) as Hin by (rewrite E; by left).
  rewrite order_by_perm in Hin. apply list_elem_of_In, List.filter_In in Hin as [Hm _].
  destruct (Hrefs (tm_TeamID m) (tm_UserID m)) as [u Hu]; [exists m; by rewrite list_elem_of_In|].
  unfold member_row. rewrite Hu. simpl. by intros [= <- _].
Qed.

(** What leaving does to the tables. *)
Inductive left_as (d : DB) (team user : uuid) : DB → Prop :=
  | left_gone : teams d !! team = None → left_as d team user d
  | left_deleted d' : (∀ u, ¬ InTeam (without team user d) team u) →
      (∀ s, s ∈ submissions d → s_TeamID s ≠ team) →
      (∀ id, teams d' !! id = if decide (id = team) then None else teams d !! id) →
      members d' = List.filter (λ m, negb (member_of team m)) (members (without team user d)) →
      users d' = users d →
      submissions d' = List.filter (λ s, negb (bool_decide (s_TeamID s = team))) (submissions d) →
      left_as d team user d'
  | left_history : (∀ u, ¬ InTeam (without team user d) team u) →
      (∃ s, s ∈ submissions d ∧ s_TeamID s = team) → left_as d team user (without team user d)
  | left_captain t next :
      teams d !! team = Some t → t_CaptainID t = user → earliest (without team user d) team = Some next →
      teams_base (set_teams (<[team := with_captain next t]> (teams d)) (without team user d)) →
      left_as d team user (set_teams (<[team := with_captain next t]> (teams d)) (without team user d))
  | left_member t u :
      teams d !! team = Some t → t_CaptainID t ≠ user → InTeam (without team user d) team u →
      left_as d team user (without team user d).

Lemma try_ok {S A} (m : M S A) s r s' : try m s = (r, s') → ∃ r0, r = Ok r0 ∧ m s = (r0, s').
Proof. simpl. unfold M_try. destruct (m s) as [r0 s0]. intros [= <- <-]. eauto. Qed.

Lemma Leave_body_spec team user w a w' :
  teams_base (w_db w) → Leave_body team user w = (Ok a, w') → left_as (w_db w) team user (w_db w').
Proof.
  intros Hok (l & w1 & E1 & E)%M_bind_ok. apply try_ok in E1 as (l0 & [= <-] & E1).
  destruct l as [t|e].
  2: { pose proof E1 as Ed%query_err. destruct (is_no_rows e) eqn:Ee; [|done].
       injection E as _ <-. rewrite Ed.
       destruct (teams (w_db w) !! team) eqn:Ht; [|by constructor].
       exfalso. revert E1 Ee. unfold LockTeam, GetTeamByID, select, query, mbind, M_bind, next_fault.
       destruct (w_faults w) as [|[] fs]; simpl; rewrite ?Ht; simpl; by intros [= <- _]. }
  apply select_ok in E1 as (Et & Ed1 & _).
  assert (teams (w_db w) !! team = Some t) as Ht by (by destruct (teams (w_db w) !! team); simplify_eq/=).
  apply M_bind_ok in E as (u1 & w2 & E2 & E). apply query_ok in E2 as ([= _ E2] & _).
  rewrite Ed1 in E2. change (without team user (w_db w) = w_db w2) in E2.
  pose proof (teams_base_without _ team user Hok) as Hok2.
  assert (∀ id u, InTeam (w_db w2) id u → is_Some (users (w_db w2) !! u)) as Hrefs2.
  { rewrite <- E2. intros id u Hin. by destruct (tok_refs _ Hok2 id u Hin). }
  apply M_bind_ok in E as (ms & w3 & E3 & E). apply select_ok in E3 as ([= <-] & Ed3 & _).
  destruct (team_members (w_db w2) team) as [|first ms] eqn:Ems.
  - pose proof (team_members_nil _ _ Hrefs2 Ems) as Hnone. rewrite <- E2 in Hnone.
    apply M_bind_ok in E as (subs & w4 & E4 & E). apply select_ok in E4 as ([= <-] & Ed4 & _).
    rewrite Ed3, <- E2 in *. destruct (decide _) as [Hz|Hz].
    + apply query_ok in E as ([= _ E] & _). rewrite Ed4 in E. rewrite <- E.
      apply left_deleted; try done.
      * intros s Hs Hteam. apply length_zero_iff_nil in Hz.
        assert (In s (List.filter (λ s, bool_decide (s_TeamID s = team)) (submissions (without team user (w_db w))))) as Hin.
        { apply List.filter_In. split; [by apply list_elem_of_In|]. by apply bool_decide_eq_true. }
        by rewrite Hz in Hin.
      * intros id. simpl. destruct (decide (id = team)) as [->|Hne]; [by rewrite lookup_delete_eq|].
        by rewrite lookup_delete_ne.
    + injection E as _ <-. rewrite Ed4. apply left_history; [done|].
      simpl in Hz. destruct (List.filter _ (submissions (w_db w))) as [|s l] eqn:Es; [done|].
      assert (In s (List.filter (λ s, bool_decide (s_TeamID s = team)) (submissions (w_db w)))) as [Hin Hs]%List.filter_In
        by (rewrite Es; by left).
      exists s. split; [by apply list_elem_of_In|by apply bool_decide_eq_true in Hs].
  - assert (InTeam (w_db w2) team (lm_ID first)) as Hfirst.
    { apply team_members_spec; [done|]. rewrite Ems. by left. }
    pose proof (earliest_first _ _ _ _ Hrefs2 Ems) as Hnext.
    rewrite <- E2 in Hfirst, Hnext. destruct (decide (t_CaptainID t = user)) as [Hcap|Hcap].
    + apply M_bind_ok in E as (r & w4 & E4 & E). apply try_ok in E4 as (r0 & [= <-] & E4).
      destruct r as [t'|e].
      * injection E as _ <-. apply query_ok in E4 as (E4 & _). rewrite Ed3, <- E2 in E4.
        apply (update_team_ok (with_captain (lm_ID first)) _ _ _ _ Hok2 (λ _, eq_refl)) in E4 as (t0 & Ht0 & _ & -> & _ & Hb).
        simpl in Ht0. assert (t0 = t) as -> by congruence.
        exact (left_captain _ _ _ t (lm_ID first) Ht Hcap Hnext Hb).
      * destruct (is_no_rows e) eqn:Ee; [|done]. exfalso.
        revert E4 Ee. unfold update_team, query, mbind, M_bind, next_fault.
        destruct (w_faults w3) as [|[] fs]; simpl; rewrite ?Ed3, <- ?E2; simpl; rewrite ?Ht; simpl;
          try (by intros [= <- _]);
          (unfold guarded; destruct (first_violation _) eqn:Ev; [|done]; intros [= <- _];
           revert Ev; unfold team_checks; simpl; repeat case_match; try done; by intros [= <-]).
    + injection E as _ <-. rewrite Ed3, <- E2. by eapply left_member.
Qed.

Lemma left_as_ok d team user d' :
  teams_ok d → left_as d team user d' → teams_ok d' ∧ captain_kept d d'.
Proof.
  intros [Hok Hused] H. pose proof (teams_base_without _ team user Hok) as Hok2.
  assert (∀ id u, id ≠ team → InTeam d id u → InTeam (without team user d) id u) as Hother.
  { intros id u Hne Hin. apply InTeam_remove. auto. }
  destruct H as [Hnone|d' Hempty Hsubs Ht Hm Hu Hs|Hempty Hhist|t next Ht Hcap Hnext Hb|t u Ht Hcap Hu].
  - split; [done|]. intros id Hid. by left.
  - assert (∀ id u, InTeam d' id u ↔ id ≠ team ∧ InTeam (without team user d) id u) as Hin.
    { intros id u. unfold InTeam. rewrite Hm. split.
      - intros (m & Hin & E1 & E2). apply list_elem_of_In, List.filter_In in Hin as [Hin Hf].
        apply negb_true_iff, bool_decide_eq_false in Hf. split; [congruence|]. exists m.
        by split_and!; [apply list_elem_of_In| |].
      - intros (Hne & m & Hin & E1 & E2). exists m. split_and!; [|done|done].
        apply list_elem_of_In, List.filter_In. split; [by apply list_elem_of_In|].
        apply negb_true_iff, bool_decide_eq_false. congruence. }
    destruct Hok2 as [Hid Hrefs Hone Hsize Hnames Hcodes].
    assert (∀ id t, teams d' !! id = Some t → teams d !! id = Some t ∧ id ≠ team) as Hsub.
    { intros id t. rewrite Ht. by destruct (decide (id = team)). }
    split; [split; [split|]|].
    + intros id t [? _]%Hsub. by apply Hid.
    + intros id u [Hne (? & ?)%Hrefs]%Hin. rewrite Ht, Hu, decide_False by done. done.
    + rewrite Hm. by apply NoDup_map_filter.
    + intros id. etrans; [|apply (Hsize id)]. apply inj_le. unfold size_of. rewrite Hm. apply filter_length_le.
    + intros id id' t t' [? _]%Hsub [? _]%Hsub. by apply Hnames.
    + intros id id' t t' [? _]%Hsub [? _]%Hsub. by apply Hcodes.
    + intros id t [Hlk Hne]%Hsub. destruct (Hused id t Hlk) as [[u Hinu]|(s & Hins & Es)]; [left|right].
      * exists u. apply Hin. auto.
      * exists s. split; [|done]. rewrite Hs. apply list_elem_of_In, List.filter_In.
        split; [by apply list_elem_of_In|]. apply negb_true_iff, bool_decide_eq_false. congruence.
    + intros id (t & Hlk & Hc). destruct (decide (id = team)) as [->|Hne].
      * right. intros u [[] _]%Hin. done.
      * left. exists t. rewrite Ht, decide_False by done. split; [done|]. apply Hin. auto.
  - split; [split; [done|]|].
    + intros id t Hlk. destruct (decide (id = team)) as [->|Hne]; [by right|].
      destruct (Hused id t Hlk) as [[u Hinu]|Hs]; [left|by right]. exists u. auto.
    + intros id (t & Hlk & Hc). destruct (decide (id = team)) as [->|Hne]; [by right|].
      left. exists t. auto.
  - assert (InTeam (without team user d) team next) as Hin.
    { pose proof (earliest_spec (without team user d) team) as He. rewrite Hnext in He. apply He. }
    split; [split; [done|]|].
    + intros id t' Hlk. simpl in Hlk. apply lookup_insert_Some in Hlk as [[<- <-]|[Hne Hlk]]; [by left; exists next|].
      destruct (Hused id t' Hlk) as [[u Hinu]|Hs]; [left|by right]. exists u. by apply Hother.
    + intros id (t' & Hlk & Hc). left. destruct (decide (id = team)) as [->|Hne].
      * exists (with_captain next t). simpl. by rewrite lookup_insert_eq.
      * exists t'. simpl. rewrite lookup_insert_ne by done. split; [done|]. by apply Hother.
  - split; [split; [done|]|].
    + intros id t' Hlk. destruct (decide (id = team)) as [->|Hne]; [left; by exists u|].
      destruct (Hused id t' Hlk) as [[v Hinv]|Hs]; [left|by right]. exists v. by apply Hother.
    + intros id (t' & Hlk & Hc). left. exists t'. split; [done|].
      apply InTeam_remove. split; [done|]. destruct (decide (id = team)) as [->|Hne]; [|by left].
      right. congruence.
Qed.

(** ** Updates in place *)

Lemma row_update_ok f id d t d' :
  teams_ok d → (∀ t, t_ID (f t) = t_ID t) → (∀ t, t_CaptainID (f t) = t_CaptainID t) →
  match teams d !! id with
  | None => (Err ErrNoRows, d)
  | Some t => guarded (team_checks (Some id) (f t) d) (Ok (f t), set_teams (<[id := f t]> (teams d)) d) d
  end = (Ok t, d') →
  teams_ok d' ∧ captain_kept d d'.
Proof.
  intros [Hok Hused] Hid Hcap E.
  apply (update_team_ok f _ _ _ _ Hok Hid) in E as (t0 & Ht0 & _ & -> & _ & Hb).
  split; [split; [done|]|].
  - intros i t' Hlk. simpl in Hlk. apply lookup_insert_Some in Hlk as [[<- <-]|[_ Hlk]];
      [exact (Hused _ _ Ht0)|exact (Hused _ _ Hlk)].
  - intros i (t' & Hlk & Hin). left. destruct (decide (i = id)) as [->|Hne].
    + exists (f t0). simpl. rewrite lookup_insert_eq, Hcap. split; [done|].
      assert (t' = t0) as -> by congruence. exact Hin.
    + exists t'. simpl. by rewrite lookup_insert_ne.
Qed.

Definition repair_teams (d : DB) : DB :=
  set_teams ((λ t, match repaired_captain d t with Some u => with_captain u t | None => t end) <$> teams d) d.

Lemma is_member_b_true d id u : is_member_b d id u = true ↔ InTeam d id u.
Proof. apply existsb_InTeam. Qed.

Lemma repair_lookup d id :
  teams (repair_teams d) !! id =
  (λ t, match repaired_captain d t with Some u => with_captain u t | None => t end) <$> teams d !! id.
Proof. apply lookup_fmap. Qed.

Lemma repair_captained d id t :
  teams d !! id = Some t → t_ID t = id → (∃ u, InTeam d id u) → captained (repair_teams d) id.
Proof.
  intros Ht Hid [u Hu]. unfold captained. rewrite repair_lookup, Ht. simpl. eexists. split; [done|].
  unfold repaired_captain. rewrite Hid. destruct (is_member_b d id (t_CaptainID t)) eqn:E.
  - by apply is_member_b_true in E.
  - pose proof (earliest_spec d id) as He. destruct (earliest d id) as [v|].
    + destruct He as [Hv _]. exact Hv.
    + by destruct (He u).
Qed.

Lemma repair_same d id t :
  teams d !! id = Some t → t_ID t = id → InTeam d id (t_CaptainID t) → teams (repair_teams d) !! id = Some t.
Proof.
  intros Ht Hid Hin%is_member_b_true. rewrite repair_lookup, Ht. simpl.
  unfold repaired_captain. by rewrite Hid, Hin.
Qed.

Lemma repair_ok d : teams_ok d → teams_ok (repair_teams d) ∧ captain_kept d (repair_teams d).
Proof.
  intros [[Hid Hrefs Hone Hsize Hnames Hcodes] Hused].
  assert (∀ id t', teams (repair_teams d) !! id = Some t' → ∃ t, teams d !! id = Some t ∧
    t_ID t' = t_ID t ∧ t_Name t' = t_Name t ∧ t_InviteCode t' = t_InviteCode t) as Hback.
  { intros id t'. rewrite repair_lookup. intros (t & Ht & ->)%fmap_Some. exists t.
    split; [done|]. by destruct (repaired_captain d t). }
  split; [split; [split|]|].
  - intros id t' (t & Ht & -> & _)%Hback. by apply Hid.
  - intros id u Hin. destruct (Hrefs id u Hin) as [[t Ht] Hu]. split; [|done].
    rewrite repair_lookup, Ht. simpl. eauto.
  - done.
  - done.
  - intros id id' t t' (t1 & ? & _ & -> & _)%Hback (t2 & ? & _ & -> & _)%Hback. by eapply Hnames.
  - intros id id' t t' (t1 & ? & _ & _ & ->)%Hback (t2 & ? & _ & _ & ->)%Hback. by eapply Hcodes.
  - intros id t' (t & Ht & _)%Hback. exact (Hused id t Ht).
  - intros id (t & Ht & Hin). left. exists t. split; [|done].
    apply repair_same; [done|by apply Hid|done].
Qed.

(** ** The team programs *)

(** Steps of the rest of the platform: the tables of teams are left alone, users
    are added, submissions are added or updated. *)
Definition same_teams (d d' : DB) : Prop :=
  teams d' = teams d ∧ members d' = members d ∧
  (∀ u, is_Some (users d !! u) → is_Some (users d' !! u)) ∧
  (∀ s, s ∈ submissions d → ∃ s', s' ∈ submissions d' ∧ s_TeamID s' = s_TeamID s).
#[local] Instance same_teams_refl : Reflexive same_teams.
Proof. intros d. split_and!; eauto. Qed.

Lemma same_teams_ok d d' : teams_ok d → same_teams d d' → teams_ok d' ∧ captain_kept d d'.
Proof.
  intros [[Hid Hrefs Hone Hsize Hnames Hcodes] Hused] (Et & Em & Hu & Hs).
  assert (∀ id u, InTeam d' id u ↔ InTeam d id u) as Hin by (intros id u; unfold InTeam; by rewrite Em).
  split; [split; [split|]|].
  - by rewrite Et.
  - intros id u [? ?]%Hin%Hrefs. rewrite Et. auto.
  - by rewrite Em.
  - intros id. unfold size_of. rewrite Em. apply Hsize.
  - by rewrite Et.
  - by rewrite Et.
  - intros id t. rewrite Et. intros Hlk. destruct (Hused id t Hlk) as [[u Hu']|(s & Hin' & Es)]; [left|right].
    + exists u. by apply Hin.
    + destruct (Hs s Hin') as (s' & ? & ?). exists s'. split; [done|congruence].
  - intros id (t & Hlk & Hc). left. exists t. rewrite Et. split; [done|]. by apply Hin.
Qed.

Inductive team_program : prog World unit → Prop :=
  | tp_create caller name : team_program (forget (h_CreateTeam caller name))
  | tp_join caller code : team_program (forget (h_JoinTeam maxSize caller code))
  | tp_leave caller : team_program (forget (h_LeaveTeam caller))
  | tp_rename caller team name : team_program (forget (h_RenameTeam caller team name))
  | tp_regenerate caller team : team_program (forget (h_RegenerateInviteCode caller team))
  | tp_admin team banned hidden : team_program (forget (team_AdminUpdate team banned hidden))
  | tp_repair : team_program (forget RepairStrandedCaptains)
  | tp_other p : (∀ d, all_steps (dbi (same_teams d)) p) → team_program p.

Abbreviation J := (dbi teams_ok).
Abbreviation R := (dbr captain_kept).

Lemma resp_audit actor action st sid meta : all_respect J R (atomic (audit_Log actor action st sid meta)).
Proof.
  apply all_respect_atomic, respects_audit; [apply _|].
  intros a d Hd. apply (same_teams_ok d); [done|]. split_and!; simpl; eauto.
Qed.
Lemma resp_select {A} (f : DB → res A) : all_respect J R (atomic (select f)).
Proof. apply all_respect_atomic, respects_select, _. Qed.
Lemma resp_NewV7 : all_respect J R (atomic NewV7).
Proof. apply all_respect_atomic, respects_NewV7, _. Qed.
Lemma resp_code : all_respect J R (atomic GenerateInviteCode).
Proof.
  apply all_respect_atomic, respects_same; [apply _|]. intros w.
  unfold GenerateInviteCode, map_err, mbind, M_bind. simpl. unfold M_try, rand_Read.
  by destruct (w_rand w) as [|[]].
Qed.
Lemma resp_update f id :
  (∀ t, t_ID (f t) = t_ID t) → (∀ t, t_CaptainID (f t) = t_CaptainID t) →
  all_respect J R (atomic (update_team id f)).
Proof.
  intros Hid Hcap. apply all_respect_atomic, respects_query; [apply _|].
  intros now d t d' Hok E. by eapply row_update_ok.
Qed.
Lemma resp_join team user : all_respect J R (atomic (Join_tx maxSize team user)).
Proof.
  apply all_respect_atomic, respects_WithTx; [apply _|]. intros w a w'. apply Join_body_ok.
Qed.
Lemma resp_leave team user : all_respect J R (atomic (Leave_tx team user)).
Proof.
  apply all_respect_atomic, respects_WithTx; [apply _|]. intros w a w' Hok E.
  by eapply left_as_ok, Leave_body_spec; [|apply Hok|exact E].
Qed.
Lemma resp_create id name code user :
  (1 ≤ maxSize)%Z → all_respect J R (atomic (Create_tx id name code user)).
Proof.
  intros Hmax. apply all_respect_atomic, respects_WithTx; [apply _|]. intros w a w'. by apply Create_body_ok.
Qed.
#[local] Hint Resolve resp_audit resp_select resp_NewV7 resp_code resp_join resp_leave resp_create : resp.
#[local] Hint Extern 2 (all_respect _ _ (atomic (update_team _ _))) => (apply resp_update; reflexivity) : resp.
#[local] Hint Extern 2 (all_respect _ _ (atomic (select _))) => (apply resp_select) : resp.

Lemma team_program_respects p : (1 ≤ maxSize)%Z → team_program p → all_respect J R p.
Proof.
  intros Hmax. destruct 1 as [caller name|caller code|caller|caller team name|caller team|team b h| |p Hp].
  - unfold h_CreateTeam, Create, validateName, load, ListTeamMembers. by respect.
  - unfold h_JoinTeam, Join, load, ListTeamMembers, GetTeamByInviteCode. by respect.
  - unfold h_LeaveTeam, Leave, GetUserTeam. by respect.
  - unfold h_RenameTeam, RequireCaptain, Rename, validateName, load, ListTeamMembers, GetTeamByID, UpdateTeamName.
    by respect.
  - unfold h_RegenerateInviteCode, RequireCaptain, RegenerateInviteCode, GetTeamByID, UpdateTeamInviteCode.
    by respect.
  - unfold team_AdminUpdate, UpdateTeamAdminFields. by respect.
  - unfold RepairStrandedCaptains, RepairStrandedCaptains_sql. respect.
    apply respects_query; [apply _|]. intros now d a d' Hok [= _ <-]. by apply repair_ok.
  - assert (all_respect J (dbr same_teams) p) as Hs.
    { apply all_steps_respect.
      - intros w. unfold dbr. reflexivity.
      - intros w w' HJ HR. by apply (same_teams_ok (w_db w)).
      - intros w. exact (Hp (w_db w)). }
    eapply all_respect_weaken; [|exact Hs]. intros w w' HJ HR. by apply (same_teams_ok (w_db w)).
Qed.

(** C12: However the team endpoints, the admin update, the startup repair and the
    rest of the platform interleave, with any queries failing: a user is on at
    most one team, no team exceeds the size cap, member rows refer to existing
    teams and users, team names (case-insensitively) and invite codes are unique,
    and no team without members and submissions is left behind; and a team whose
    captain is a member keeps a captain who is one through every step, unless that
    step leaves it without members. *)
Theorem team_rules (Hmax : (1 ≤ maxSize)%Z) (ps ps1 ps2 : list (prog World unit)) (w w1 w2 : World)
    (Hps : Forall team_program ps) (Hw : teams_ok (w_db w))
    (H1 : rtc pool_step (ps, w) (ps1, w1)) (H2 : pool_step (ps1, w1) (ps2, w2)) :
  teams_ok (w_db w2) ∧ captain_kept (w_db w1) (w_db w2).
Proof.
  destruct (all_respect_pool J R ps ps1 ps2 w w1 w2) as [HJ HR]; [|exact Hw|done|done|].
  - eapply Forall_impl; [exact Hps|]. intros p. by apply team_program_respects.
  - split; [exact HJ|]. destruct HR as [->|HR]; [apply captain_kept_refl|exact HR].
Qed.

(** ** What each operation does *)

(** Leaving a team, on every outcome and under every failure: a user on no team
    gets a not-found error and changes nothing; an error changes no table; success
    removes exactly that membership, and then deletes the team if it is empty and
    has no submissions, keeps it as history if it is empty with submissions, or
    hands the captaincy of a leaving captain to the earliest remaining member. *)
Theorem Leave_outcome (user : uuid) (w : World) (Hok : teams_base (w_db w)) :
  ∃ r w', run (Leave user) w = Some (r, w') ∧
  match r with
  | Ok _ => ∃ t, user_team (w_db w) user = Some t ∧ left_as (w_db w) (t_ID t) user (w_db w')
  | Err e => w_db w' = w_db w ∧
      (user_team (w_db w) user = None → w_faults w = [] → e = NotFound "you are not on a team")
  end.
Proof.
  unfold Leave. rewrite run_bind. unfold map_err. rewrite run_bind, run_try, run_atomic.
  destruct (GetUserTeam user w) as [[t|e] w1] eqn:E.
  - cbn. destruct (Leave_tx (t_ID t) user w1) as [r w'] eqn:E2. eexists _, _. split; [done|].
    apply select_ok in E as (Et & Ed & _).
    assert (user_team (w_db w) user = Some t) as Ht by (destruct (user_team _ _); by simplify_eq/=).
    apply WithTx_spec in E2. destruct r as [[]|e].
    + exists t. split; [done|]. destruct E2 as (w2 & w3 & E2 & _ & _ & Em & ->).
      rewrite Ed in E2. rewrite <- E2 in *. by eapply Leave_body_spec.
    + rewrite Ht. split; [congruence|done].
  - cbn. eexists _, _. split; [done|]. split; [by eapply query_err|]. intros Hnone Hf.
    unfold GetUserTeam in E. rewrite select_nofault, Hnone in E by done. simpl in E.
    by simplify_eq/=.
Qed.

(** The tables after a join. *)
Definition joined (d : DB) (now : time) (team user : uuid) : DB :=
  set_members (members d ++ [{| tm_TeamID := team; tm_UserID := user; tm_JoinedAt := now |}]) d.

Definition on_a_team (d : DB) (user : uuid) : bool := existsb (is_user user) (members d).

(** The checks of the transaction, in order. *)
Definition join_refusal (d : DB) (team user : uuid) : option string :=
  if (maxSize <=? Z.of_nat (size_of d team))%Z then Some "that team is full"
  else if is_member_b d team user then Some "membership already exists"
  else if on_a_team d user then Some "you are already on a team"
  else None.

Lemma Join_body_eq team user t w :
  w_faults w = [] → teams (w_db w) !! team = Some t → t_Banned t = false → is_Some (users (w_db w) !! user) →
  Join_body team user w =
  match join_refusal (w_db w) team user with
  | Some why => (Err (Conflict why), w)
  | None => (Ok tt, set_db (joined (w_db w) (w_dbnow w) team user) w)
  end.
Proof.
  intros Hf Ht Hb [u Hu]. unfold Join_body, map_err. rewrite !M_bind_eq. cbn [try M_err]. unfold M_try.
  unfold LockTeam, GetTeamByID. rewrite select_nofault, Ht by done.
  cbn [one mret M_ret]. rewrite Hb, !M_bind_eq. cbn [try M_err]. unfold M_try.
  unfold CountTeamMembers. rewrite select_nofault by done. cbn [mret M_ret].
  unfold join_refusal, size_of. destruct (_ <=? _)%Z; [done|].
  rewrite M_bind_eq. cbn [try M_err]. unfold M_try, AddTeamMember. rewrite query_nofault by done.
  unfold guarded. cbn [first_violation unique foreign fst]. rewrite Ht, Hu. cbn [is_Some_b negb].
  unfold is_member_b, on_a_team. destruct (existsb _ (members (w_db w))); [done|].
  by destruct (existsb _ (members (w_db w))).
Qed.

(** Joining by invite code, undisturbed, is decided in this order: unknown code,
    banned team, full team, already on it, already on another, and otherwise adds
    exactly one membership and returns the team with its members. *)
Theorem Join_outcome (user : uuid) (code : string) (w : World)
    (Hok : teams_base (w_db w)) (Hf : w_faults w = []) (Huser : is_Some (users (w_db w) !! user)) :
  let d := w_db w in
  run (Join maxSize user code) w = Some
    match List.find (λ t, bool_decide (t_InviteCode t = code)) (team_rows d) with
    | None => (Err (NotFound "no team with that invite code"), w)
    | Some t =>
        if t_Banned t then (Err (Conflict "that team is banned"), w) else
        match join_refusal d (t_ID t) user with
        | Some why => (Err (Conflict why), w)
        | None =>
            let d' := joined d (w_dbnow w) (t_ID t) user in
            (Ok {| tv_Row := t; tv_Members := team_members d' (t_ID t) |}, set_db d' w)
        end
    end.
Proof.
  intros d. unfold Join. rewrite run_bind. unfold map_err at 1. rewrite run_bind, run_try, run_atomic.
  unfold GetTeamByInviteCode. rewrite select_nofault by done. fold d.
  destruct (List.find _ (team_rows d)) as [t|] eqn:Efind; [|done]. cbn [one run mret P_ret].
  destruct (t_Banned t) eqn:Hb; [done|].
  assert (teams d !! t_ID t = Some t) as Ht.
  { apply List.find_some in Efind as [Hin _]. apply elem_of_team_rows in Hin as [id Hid].
    by rewrite (tok_id _ Hok _ _ Hid). }
  rewrite run_bind, run_atomic. change (Join_tx maxSize (t_ID t) user) with (WithTx (Join_body (t_ID t) user)).
  unfold WithTx, next_fault. rewrite Hf, (Join_body_eq _ _ t) by done. fold d.
  destruct (join_refusal d (t_ID t) user); [by rewrite (set_db_same w : set_db d w = w)|].
  cbn [w_faults set_db]. rewrite Hf. unfold load. rewrite run_bind. unfold map_err.
  rewrite run_bind, run_try, run_atomic. unfold ListTeamMembers. by rewrite select_nofault.
Qed.

Lemma omap_nil_all {A B} (f : A → option B) l : (∀ x, x ∈ l → f x = None) → omap f l = [].
Proof.
  induction l as [|x l IH]; intros Hf; csimpl; [done|]. rewrite (Hf x) by left.
  apply IH. intros y Hy. apply Hf. by right.
Qed.

(** The startup repair makes the earliest-joined member the captain of exactly
    the teams that have members but whose captain is not one, reports exactly
    those, changes nothing else, and a second run finds nothing to do. *)
Theorem RepairStrandedCaptains_exact (w : World) (Hok : teams_base (w_db w)) (Hf : w_faults w = []) :
  ∃ fixed w', run RepairStrandedCaptains w = Some (Ok fixed, w') ∧
  let d := w_db w in let d' := w_db w' in
  members d' = members d ∧
  (∀ id t u, teams d !! id = Some t → InTeam d id u → captained d' id) ∧
  (∀ id t, teams d !! id = Some t → captained d id ∨ (∀ u, ¬ InTeam d id u) → teams d' !! id = Some t) ∧
  (∀ id u, (id, u) ∈ fixed ↔ ∃ t, teams d !! id = Some t ∧ ¬ captained d id ∧ earliest d id = Some u ∧
                                   teams d' !! id = Some (with_captain u t)) ∧
  run RepairStrandedCaptains w' = Some (Ok [], w').
Proof.
  assert (∀ w, w_faults w = [] → run RepairStrandedCaptains w = Some
    (Ok (omap (λ t, pair (t_ID t) <$> repaired_captain (w_db w) t) (team_rows (w_db w))),
     set_db (repair_teams (w_db w)) w)) as Hrun.
  { clear. intros w Hf. unfold RepairStrandedCaptains, map_err. rewrite run_bind, run_try, run_atomic.
    unfold RepairStrandedCaptains_sql. by rewrite query_nofault. }
  assert (∀ id t, teams (w_db w) !! id = Some t →
    (captained (w_db w) id ↔ is_member_b (w_db w) id (t_CaptainID t) = true)) as Hcap.
  { intros id t Ht. rewrite is_member_b_true. unfold captained. rewrite Ht. naive_solver. }
  eexists _, _. split; [by apply Hrun|]. cbn zeta. cbn [w_db set_db].
  set (d := w_db w) in *. split_and!.
  - done.
  - intros id t u Ht Hu. eapply repair_captained; [done|by eapply tok_id|by exists u].
  - intros id t Ht Hor. rewrite repair_lookup, Ht. simpl. unfold repaired_captain.
    rewrite (tok_id _ Hok _ _ Ht). destruct (is_member_b d id (t_CaptainID t)) eqn:E; [done|].
    pose proof (earliest_spec d id) as He. destruct (earliest d id) as [v|]; [|done].
    destruct Hor as [Hc|Hnone]; [apply (Hcap _ _ Ht) in Hc; congruence|]. destruct (Hnone v). apply He.
  - intros id u. rewrite list_elem_of_omap. split.
    + intros (t & Hin & E). apply list_elem_of_In, elem_of_team_rows in Hin as [i Hi].
      apply fmap_Some in E as (v & Ev & [= -> ->]). pose proof (tok_id _ Hok _ _ Hi) as <-.
      exists t. split; [done|]. unfold repaired_captain in *. rewrite repair_lookup, Hi. simpl.
      unfold repaired_captain. rewrite (Hcap _ _ Hi). destruct (is_member_b d (t_ID t) (t_CaptainID t)); [done|].
      by rewrite Ev.
    + intros (t & Ht & Hc & He & _). exists t. split.
      { apply list_elem_of_In, elem_of_team_rows. eauto. }
      unfold repaired_captain. rewrite (tok_id _ Hok _ _ Ht). rewrite (Hcap _ _ Ht) in Hc.
      destruct (is_member_b d id (t_CaptainID t)); [done|]. by rewrite He.
  - rewrite Hrun by done. cbn [w_db set_db]. fold d.
    assert (∀ id t, teams (repair_teams d) !! id = Some t → repaired_captain (repair_teams d) t = None) as Hnone.
    { intros id t. rewrite repair_lookup. intros (t0 & Ht0 & ->)%fmap_Some.
      pose proof (tok_id _ Hok _ _ Ht0) as Hid. unfold repaired_captain.
      pose proof (earliest_spec d id) as He.
      change (earliest (repair_teams d)) with (earliest d). change (is_member_b (repair_teams d)) with (is_member_b d).
      rewrite Hid. destruct (is_member_b d id (t_CaptainID t0)) eqn:E; [by rewrite Hid, E|].
      destruct (earliest d id) as [v|] eqn:Ee; simpl; rewrite Hid.
      - destruct He as [Hin%is_member_b_true _]. by rewrite Hin.
      - by rewrite E, Ee. }
    f_equal. f_equal.
    + f_equal. apply omap_nil_all. intros t Hin. apply list_elem_of_In, elem_of_team_rows in Hin as [id Hid].
      by rewrite (Hnone _ _ Hid).
    + assert (repair_teams (repair_teams d) = repair_teams d) as ->;
        [|exact (set_db_same (set_db (repair_teams d) w))].
      unfold repair_teams at 1. replace (_ <$> teams (repair_teams d)) with (teams (repair_teams d)).
      { by destruct d. }
      apply map_eq. intros id. rewrite lookup_fmap. specialize (Hnone id).
      destruct (teams (repair_teams d) !! id) as [t|]; [|done]. simpl. by rewrite (Hnone t).
Qed.
End Rules.

(** ** Concrete teams *)

#[local] Existing Instance demo_libs.

Definition demo_history : DB := set_submissions
  [ {| s_ID := 50%N; s_ChallengeID := 32%N; s_TeamID := 21%N; s_UserID := 11%N; s_Provided := "***";
       s_Correct := true; s_CreatedAt := Hour; s_ScoredValue := None; s_ScoredBy := None |} ] demo_db.

Lemma demo_InTeam id u :
  InTeam demo_history id u ↔ (id = 21%N ∧ u = 11%N) ∨ (id = 22%N ∧ u = 12%N).
Proof.
  unfold InTeam. simpl. split.
  - intros (m & Hm & <- & <-). rewrite !elem_of_cons in Hm. destruct Hm as [->|[->|Hm]]; [by left|by right|].
    by apply not_elem_of_nil in Hm.
  - intros [[-> ->]|[-> ->]].
    + exists {| tm_TeamID := 21%N; tm_UserID := 11%N; tm_JoinedAt := 0 |}. split; [left|done].
    + exists {| tm_TeamID := 22%N; tm_UserID := 12%N; tm_JoinedAt := 1 |}. split; [right; left|done].
Qed.

Lemma demo_teams id t :
  teams demo_history !! id = Some t → (id = 21%N ∧ t = demo_team 21 11) ∨ (id = 22%N ∧ t = demo_team 22 12).
Proof.
  simpl. intros [[<- <-]|[_ Hlk]]%lookup_insert_Some; [by left|].
  apply lookup_singleton_Some in Hlk as [<- <-]. by right.
Qed.

Lemma demo_teams_ok : teams_ok 4 demo_history.
Proof.
  split; [split|].
  - intros id t [[-> ->]|[-> ->]]%demo_teams; reflexivity.
  - intros id u [[-> ->]|[-> ->]]%demo_InTeam; split; (eexists; vm_compute; reflexivity).
  - apply (bool_decide_unpack _). vm_compute. done.
  - intros id. unfold size_of. simpl. destruct (member_of id _), (member_of id _); simpl; lia.
  - intros id id' t t' [[-> ->]|[-> ->]]%demo_teams [[-> ->]|[-> ->]]%demo_teams; try done; vm_compute; done.
  - intros id id' t t' [[-> ->]|[-> ->]]%demo_teams [[-> ->]|[-> ->]]%demo_teams; try done; vm_compute; done.
  - intros id t [[-> ->]|[-> ->]]%demo_teams; left; eexists; apply demo_InTeam; eauto.
Qed.

Definition demo_team_threads : list (prog World unit) :=
  [forget (h_LeaveTeam 12); forget (h_JoinTeam 4 12 ("inv" +:+ N_string 21)); forget (h_CreateTeam 12 "again")].

Lemma team_rules_witness :
  match exec [0; 1; 0; 2; 1] demo_team_threads (demo_world demo_history Hour) with
  | Some (ps1, w1) =>
      match exec [1] ps1 w1 with
      | Some (_, w2) => teams_ok 4 (w_db w2) ∧ captain_kept (w_db w1) (w_db w2)
      | None => False
      end
  | None => False
  end.
Proof.
  assert (match exec [0; 1; 0; 2; 1] demo_team_threads (demo_world demo_history Hour) with
          | Some (ps1, w1) => match exec [1] ps1 w1 with Some _ => true | None => false end
          | None => false end = true) as Hrun by (vm_compute; reflexivity).
  destruct (exec [0; 1; 0; 2; 1] demo_team_threads (demo_world demo_history Hour)) as [[ps1 w1]|] eqn:E1;
    [|discriminate Hrun].
  destruct (exec [1] ps1 w1) as [[ps2 w2]|] eqn:E2; [|discriminate Hrun].
  apply (team_rules 4 ltac:(lia) demo_team_threads ps1 ps2 (demo_world demo_history Hour) w1 w2).
  - apply Forall_cons; split; [apply tp_leave|]. apply Forall_cons; split; [apply tp_join|].
    apply Forall_cons; split; [apply tp_create|apply Forall_nil_2].
  - exact demo_teams_ok.
  - exact (exec_sound _ _ _ _ _ E1).
  - exact (exec_one 1 _ _ _ _ E2).
Defined.

Lemma Leave_outcome_witness :
  ∃ r w', run (Leave 11) (demo_world demo_history Hour) = Some (r, w').
Proof.
  destruct (Leave_outcome 4 11 (demo_world demo_history Hour)) as (r & w' & E & _); [apply demo_teams_ok|].
  exists r, w'. exact E.
Defined.

Lemma Join_outcome_witness :
  run (Join 4 12 ("inv" +:+ N_string 21)) (demo_world demo_history Hour) =
    Some (Err (Conflict "you are already on a team"), demo_world demo_history Hour).
Proof.
  etransitivity; [apply (Join_outcome 4 12 ("inv" +:+ N_string 21) (demo_world demo_history Hour))|].
  - apply demo_teams_ok.
  - reflexivity.
  - eexists; vm_compute; reflexivity.
  - vm_compute. reflexivity.
Defined.

(** The last member of a team with submissions leaves, and another user joins by
    the invite code: the team's captain is not one of its members, and still
    passes the captain check. *)
Definition rejoin : P World TeamView :=
  Leave 11;; Leave 12;; Join 4 12 ("inv" +:+ N_string 21).

Theorem rejoin_strands_captain :
  match run rejoin (demo_world demo_history Hour) with
  | Some (Ok v, w) =>
      map lm_ID (tv_Members v) = [12%N] ∧ t_CaptainID (tv_Row v) = 11%N ∧
      match run (RequireCaptain 21 11) w with Some (Ok _, _) => True | _ => False end
  | _ => False
  end.
Proof. vm_compute. done. Qed.

(** One ideograph (three bytes) passes the check for three to forty-eight
    characters, and is then refused by the table's own check. *)
Definition one_ideograph : string :=
  String (Ascii.ascii_of_nat 228) (String (Ascii.ascii_of_nat 184) (String (Ascii.ascii_of_nat 173) EmptyString)).
Theorem name_length_counts_bytes :
  match run (Create 12 one_ideograph) (demo_world (set_members [] demo_db) Hour) with
  | Some (Err e, _) => e = Wrap "teams: team name" (PgError "23514" "chk_teams_name_len")
  | _ => False
  end.
Proof. vm_compute. reflexivity. Qed.

Lemma RepairStrandedCaptains_exact_witness :
  ∃ w', run RepairStrandedCaptains (demo_world (set_members
          [ {| tm_TeamID := 21%N; tm_UserID := 12%N; tm_JoinedAt := 0 |} ] demo_db) Hour)
        = Some (Ok [(21%N, 12%N)], w').
Proof.
  set (d := set_members _ demo_db).
  destruct (RepairStrandedCaptains_exact 4 (demo_world d Hour)) as (fixed & w' & E & _).
  { assert (∀ id u, InTeam d id u → id = 21%N ∧ u = 12%N) as Hin.
    { intros id u (m & Hm & <- & <-). apply list_elem_of_singleton in Hm as ->. done. }
    destruct demo_teams_ok as [[H1 H2 H3 H4 H5 H6] _]. split; try done.
    - intros id u [-> ->]%Hin. split; (eexists; vm_compute; reflexivity).
    - apply NoDup_singleton.
    - intros id. unfold size_of. simpl. destruct (member_of id _); simpl; lia. }
  { reflexivity. }
  exists w'. rewrite E. do 2 f_equal.
  assert (option_map fst (run RepairStrandedCaptains (demo_world d Hour)) = Some (Ok [(21%N, 12%N)])) as Hv
    by (vm_compute; reflexivity).
  rewrite E in Hv. by injection Hv as ->.
Defined.
