(* ===== verification/Users.v ===== *)
(** * User rows ([internal/db/gen/users.sql.go], [auth_identities.sql.go])

    The statements on accounts and on external identities. *)

From S2P Require Import Prelude Text Env Store.

Section Users.
Context {L : Libs}.

Definition user_rows (d : DB) : list User := (map_to_list (users d)).*2.
Definition same_text (a b : string) : bool := bool_decide (citext_lower a = citext_lower b).

Definition user_checks (self : option uuid) (r : User) (d : DB) : list (bool * error) :=
  let others f := existsb (λ u, negb (bool_decide (Some (u_ID u) = self)) && f u) (user_rows d) in
  [ checked (negb (bool_decide (u_Role r = "user") || bool_decide (u_Role r = "admin"))) "users_role_check";
    checked (negb ((3 <=? char_length (u_Username r)) && (char_length (u_Username r) <=? 32))%nat)
            "chk_users_username_len";
    unique (negb (is_Some_b self) && is_Some_b (users d !! u_ID r)) "users_pkey";
    unique (others (λ u, same_text (u_Username u) (u_Username r))) "uq_users_username";
    unique (others (λ u, same_text (u_Email u) (u_Email r))) "uq_users_email" ].

Definition CreateUser (id : uuid) (username email hash role : string) (hidden : bool) : M World User :=
  query (λ _ d,
    let r := {| u_ID := id; u_Username := username; u_Email := email; u_PasswordHash := hash;
                u_Role := role; u_Banned := false; u_Hidden := hidden |} in
    guarded (user_checks None r d) (Ok r, set_users (<[id := r]> (users d)) d) d).

Definition GetUserByID (id : uuid) : M World User := select (λ d, one (users d !! id)).
Definition user_by_email (d : DB) (email : string) : option User :=
  List.find (λ u, same_text (u_Email u) email) (user_rows d).
Definition GetUserByEmail (email : string) : M World User := select (λ d, one (user_by_email d email)).

Definition with_password (h : string) (u : User) : User :=
  {| u_ID := u_ID u; u_Username := u_Username u; u_Email := u_Email u; u_PasswordHash := h;
     u_Role := u_Role u; u_Banned := u_Banned u; u_Hidden := u_Hidden u |}.
Definition with_admin_fields (b h : option bool) (role : option string) (u : User) : User :=
  {| u_ID := u_ID u; u_Username := u_Username u; u_Email := u_Email u; u_PasswordHash := u_PasswordHash u;
     u_Role := coalesce1 role (u_Role u); u_Banned := coalesce1 b (u_Banned u);
     u_Hidden := coalesce1 h (u_Hidden u) |}.
Definition UpdateUserPassword (id : uuid) (hash : string) : M World unit :=
  query (λ _ d, (Ok tt, set_users (alter (with_password hash) id (users d)) d)).
Definition UpdateUserAdminFields (id : uuid) (banned hidden : option bool) (role : option string)
    : M World User :=
  query (λ _ d,
    match users d !! id with
    | None => (Err ErrNoRows, d)
    | Some u =>
        let u' := with_admin_fields banned hidden role u in
        guarded (user_checks (Some id) u' d) (Ok u', set_users (<[id := u']> (users d)) d) d
    end).

(** The core-minted bindings of external subjects. *)
Definition GetAuthIdentity (provider subject : string) : M World AuthIdentity :=
  select (λ d, one (identities d !! (provider, subject))).
Definition CreateAuthIdentity (provider subject : string) (user : uuid) : M World AuthIdentity :=
  query (λ _ d,
    let r := {| ai_Provider := provider; ai_Subject := subject; ai_UserID := user |} in
    guarded
      [ unique (is_Some_b (identities d !! (provider, subject))) "auth_identities_pkey";
        foreign (negb (is_Some_b (users d !! user))) "auth_identities_user_id_fkey" ]
      (Ok r, set_identities (<[(provider, subject) := r]> (identities d)) d) d).
End Users.
