(* ===== verification/Redis.v ===== *)
(** * Redis

    The commands the program sends, over the keys the model holds: a command
    addresses one key, a key past its expiry is absent, a [TxPipeline] is one
    atomic step, and a call may fail before its effect or lose its reply after it. *)

From S2P Require Import Prelude Interleave Env.

(** ** One key space *)

(** Absolute expiry, if the key has one. *)
Definition unexpired (now : time) (e : option time) : bool :=
  match e with None => true | Some t => (now <? t)%Z end.

Section Keys.
Context {K A : Type} `{Countable K}.
Implicit Types (m : gmap K (A * option time)) (k : K).

Definition fetch (now : time) m k : option A :=
  match m !! k with
  | Some (a, e) => if unexpired now e then Some a else None
  | None => None
  end.

(** A write that keeps the expiry of a key that exists. *)
Definition upsert (now : time) (f : option A → A) k m : gmap K (A * option time) :=
  match m !! k with
  | Some (a, e) => if unexpired now e then <[k := (f (Some a), e)]> m else <[k := (f None, None)]> m
  | None => <[k := (f None, None)]> m
  end.

(** EXPIRE, SET with EX, and the time TTL reports on (none: no key, or no expiry). *)
Definition expire (now : time) (d : duration) k m : gmap K (A * option time) :=
  match fetch now m k with
  | Some a => <[k := (a, Some (now + d)%Z)]> m
  | None => m
  end.
Definition set_ex (now : time) (a : A) (d : duration) k m : gmap K (A * option time) :=
  <[k := (a, Some (now + d)%Z)]> m.
Definition remaining (now : time) m k : option duration :=
  match m !! k with
  | Some (_, Some t) => if (now <? t)%Z then Some (t - now)%Z else None
  | _ => None
  end.

Lemma fetch_insert now m k a e :
  fetch now (<[k := (a, e)]> m) k = if unexpired now e then Some a else None.
Proof. unfold fetch. by rewrite lookup_insert_eq. Qed.
Lemma fetch_insert_ne now m k k' v : k ≠ k' → fetch now (<[k := v]> m) k' = fetch now m k'.
Proof. intros Hk. unfold fetch. by rewrite lookup_insert_ne. Qed.
Lemma fetch_delete now m k : fetch now (delete k m) k = None.
Proof. unfold fetch. by rewrite lookup_delete_eq. Qed.
Lemma fetch_delete_ne now m k k' : k ≠ k' → fetch now (delete k m) k' = fetch now m k'.
Proof. intros Hk. unfold fetch. by rewrite lookup_delete_ne. Qed.

Lemma fetch_upsert now f k m : fetch now (upsert now f k m) k = Some (f (fetch now m k)).
Proof.
  unfold upsert, fetch. destruct (m !! k) as [[a e]|]; [|by rewrite lookup_insert_eq].
  destruct (unexpired now e) eqn:E; rewrite lookup_insert_eq; by rewrite ?E.
Qed.
Lemma upsert_ne now f k k' m : k ≠ k' → upsert now f k m !! k' = m !! k'.
Proof.
  intros Hk. unfold upsert. destruct (m !! k) as [[a e]|]; [destruct (unexpired now e)|]; by rewrite lookup_insert_ne.
Qed.
Lemma expire_ne now d k k' m : k ≠ k' → expire now d k m !! k' = m !! k'.
Proof. intros Hk. unfold expire. destruct (fetch now m k); [by rewrite lookup_insert_ne|done]. Qed.
Lemma expire_lookup now d k m a : fetch now m k = Some a → expire now d k m !! k = Some (a, Some (now + d)%Z).
Proof. intros E. unfold expire. by rewrite E, lookup_insert_eq. Qed.

(** A key that is there later was there before: time only removes keys. *)
Lemma unexpired_mono now now' e : (now ≤ now')%Z → unexpired now' e = true → unexpired now e = true.
Proof. destruct e as [t|]; [|done]. unfold unexpired. rewrite !Z.ltb_lt. lia. Qed.
Lemma fetch_mono now now' m k a : (now ≤ now')%Z → fetch now' m k = Some a → fetch now m k = Some a.
Proof.
  intros Hle. unfold fetch. destruct (m !! k) as [[x e]|]; [|done].
  destruct (unexpired now' e) eqn:E; [|done]. by rewrite (unexpired_mono _ _ _ Hle E).
Qed.
End Keys.

(** SADD, SREM (a set that becomes empty is gone), SMEMBERS. *)
Definition sadd {K} `{Countable K} (now : time) (x : string) (k : K) :=
  upsert (A:=gset string) now (λ o, {[x]} ∪ default ∅ o) k.
Definition srem {K} `{Countable K} (now : time) (x : string) (k : K) (m : gmap K (gset string * option time)) :=
  match m !! k with
  | Some (s, e) =>
      if unexpired now e && bool_decide (s ∖ {[x]} ≠ ∅) then <[k := (s ∖ {[x]}, e)]> m else delete k m
  | None => m
  end.
Definition smembers {K} `{Countable K} (now : time) (m : gmap K (gset string * option time)) (k : K) : list string :=
  elements (default ∅ (fetch now m k)).

(** ** Calls *)

Definition on_sess f (r : RedisState) : RedisState :=
  {| rd_sess := f (rd_sess r); rd_users := rd_users r; rd_login := rd_login r; rd_zsets := rd_zsets r |}.
Definition on_users f (r : RedisState) : RedisState :=
  {| rd_sess := rd_sess r; rd_users := f (rd_users r); rd_login := rd_login r; rd_zsets := rd_zsets r |}.
Definition on_login f (r : RedisState) : RedisState :=
  {| rd_sess := rd_sess r; rd_users := rd_users r; rd_login := f (rd_login r); rd_zsets := rd_zsets r |}.
Definition on_zsets f (r : RedisState) : RedisState :=
  {| rd_sess := rd_sess r; rd_users := rd_users r; rd_login := rd_login r; rd_zsets := f (rd_zsets r) |}.

(** One command, or one pipeline, at the server's time. *)
Definition redis {A} (f : time → RedisState → A * RedisState) : M World A :=
  lost ← next_fault;
  if lost : bool then throw ErrConn else
  a ← (λ w, let '(a, r) := f (w_wall w) (w_redis w) in (Ok a, set_redis r w));
  reply_lost ← next_fault;
  if reply_lost : bool then throw ErrConn else mret a.

(** A read. *)
Definition redis_get {A} (f : time → RedisState → A) : M World A :=
  redis (λ now r, (f now r, r)).
(** A write whose reply is not used. *)
Definition redis_set (f : time → RedisState → RedisState) : M World unit :=
  redis (λ now r, (tt, f now r)).

(** The world after a call: its effect happened, or nothing but faults used up. *)
Lemma redis_spec {A} (f : time → RedisState → A * RedisState) w r w' :
  redis f w = (r, w') →
  ∃ fs, (w' = set_faults fs w ∧ r = Err ErrConn) ∨
        (w' = set_faults fs (set_redis (f (w_wall w) (w_redis w)).2 w) ∧
         (r = Ok (f (w_wall w) (w_redis w)).1 ∨ r = Err ErrConn)).
Proof.
  assert (∀ w, set_faults (w_faults w) w = w) as Hid by by intros [].
  unfold redis, mbind, M_bind, next_fault.
  destruct (w_faults w) as [|[] fs] eqn:Ef; simpl.
  - destruct (f _ _) as [a rd] eqn:Ea; simpl. rewrite Ef. intros [= <- <-].
    exists []. right. simpl. rewrite <- Ef at 1. split; [|by left]. by destruct w.
  - intros [= <- <-]. exists fs. by left.
  - destruct (f _ _) as [a rd] eqn:Ea; simpl. destruct fs as [|[] fs]; simpl; intros [= <- <-].
    + exists []. right. split; [done|by left].
    + exists fs. right. split; [by destruct w|by right].
    + exists fs. right. split; [by destruct w|by left].
Qed.

Lemma redis_nofault {A} (f : time → RedisState → A * RedisState) w :
  w_faults w = [] →
  redis f w = (Ok (f (w_wall w) (w_redis w)).1, set_redis (f (w_wall w) (w_redis w)).2 w).
Proof.
  intros E. unfold redis, mbind, M_bind, next_fault. rewrite E. simpl.
  destruct (f _ _); simpl. by rewrite E.
Qed.
