(* ===== verification/Tokens.v ===== *)
(** * API tokens ([internal/auth/token.go], [context.go], [internal/pagination])

    Opaque bearer credentials: only the hash and a lookup prefix are stored, and
    the owner's role and ban are read on every request. *)

From Stdlib Require Import Ascii.
From S2P Require Import Prelude Interleave Text Env Store Users.

(** ** [internal/pagination] *)

Record Params := { pg_Page : Z; pg_PerPage : Z }.
Definition maxPage : Z := 1000000.
Definition Normalize (page perPage : option Z) : Params :=
  {| pg_Page := match page with
                | Some p => if (1 <=? p)%Z then (if (maxPage <? p)%Z then maxPage else p) else 1
                | None => 1 end;
     pg_PerPage := match perPage with
                   | Some n => if (n <? 1)%Z then 1 else if (200 <? n)%Z then 200 else n
                   | None => 50 end |}.
Definition Limit (p : Params) : Z := int32_of (pg_PerPage p).
Definition Offset (p : Params) : Z := int32_of ((pg_Page p - 1) * pg_PerPage p)%Z.

(** ** [context.go] *)

Inductive AuthMethod := AuthSession | AuthToken.
#[export] Instance AuthMethod_eq_dec : EqDecision AuthMethod.
Proof. solve_decision. Defined.
Record Identity := {
  id_UserID : uuid; id_Role : string; id_SessionToken : string; id_Method : AuthMethod;
  id_Scopes : list string; id_TokenID : uuid
}.
Definition IsAdmin (i : Identity) : bool := bool_decide (id_Role i = "admin").

(** ** [token.go] *)

Definition TokenPrefix : string := "osctf_pat_".
Definition tokenRandBytes : nat := 32.
Definition tokenPrefixLen : nat := 12.
Definition ScopeRead : string := "read".
Definition ScopeSubmit : string := "submit".
Definition ScopeAdmin : string := "admin".
Definition validScopes : list string := [ScopeRead; ScopeSubmit; ScopeAdmin].
Definition unknown_scope (scopes : list string) : option string :=
  List.find (λ s, negb (bool_decide (s ∈ validScopes))) scopes.
Definition ValidateScopes {F} `{MRet F, MonadErr F} (scopes : list string) : F unit :=
  match unknown_scope scopes with
  | Some s => throw (ErrOther ("unknown scope " +:+ s))
  | None => mret tt
  end.

Definition ErrInvalidToken : error := ErrOther "auth: invalid token".
Definition ErrTokenExpired : error := ErrOther "auth: token expired".
Definition ErrUserBanned : error := ErrOther "auth: token owner is banned".
Definition ErrTokenScope : error := ErrOther "auth: token carries an unrecognized scope".

Definition tokenEnc (b : list N) : string := encode base32_alphabet 5 b.
Definition first_chars (n : nat) (s : string) : string := of_bytes (take n (to_bytes s)).

(** ** [db/gen/api_tokens.sql.go] *)

Section Tokens.
Context {L : Libs}.

Definition token_rows (d : DB) : list ApiToken := (map_to_list (tokens d)).*2.
Definition newest_first (l : list ApiToken) : list ApiToken := order_by (λ k, (- k_CreatedAt k)%Z) l.

Definition CreateAPIToken (id user : uuid) (name hash prefix : string) (scopes : list string)
    (expires : option time) : M World ApiToken :=
  query (λ now d,
    let r := {| k_ID := id; k_UserID := user; k_Name := name; k_TokenHash := hash; k_Prefix := prefix;
                k_Scopes := scopes; k_LastUsedAt := None; k_ExpiresAt := expires; k_CreatedAt := now |} in
    guarded
      [ unique (is_Some_b (tokens d !! id)) "api_tokens_pkey";
        unique (existsb (λ k, bool_decide (k_TokenHash k = hash)) (token_rows d)) "uq_api_tokens_hash";
        foreign (negb (is_Some_b (users d !! user))) "api_tokens_user_id_fkey" ]
      (Ok r, set_tokens (<[id := r]> (tokens d)) d) d).
Definition tokens_by_prefix (d : DB) (prefix : string) : list ApiToken :=
  List.filter (λ k, bool_decide (k_Prefix k = prefix)) (token_rows d).
Definition GetAPITokensByPrefix (prefix : string) : M World (list ApiToken) :=
  select (λ d, Ok (tokens_by_prefix d prefix)).
Definition owned_token (user : uuid) (k : ApiToken) : bool := bool_decide (k_UserID k = user).
Definition ListAPITokensByUser (user : uuid) : M World (list ApiToken) :=
  select (λ d, Ok (newest_first (List.filter (owned_token user) (token_rows d)))).
Definition DeleteAPIToken (id user : uuid) : M World nat :=
  query (λ _ d,
    match tokens d !! id with
    | Some k => if owned_token user k then (Ok 1, set_tokens (delete id (tokens d)) d) else (Ok 0, d)
    | None => (Ok 0, d)
    end).
Definition DeleteAPITokenByID (id : uuid) : M World nat :=
  query (λ _ d,
    match tokens d !! id with
    | Some _ => (Ok 1, set_tokens (delete id (tokens d)) d)
    | None => (Ok 0, d)
    end).
Definition DeleteAPITokensForUser (user : uuid) : M World unit :=
  query (λ _ d, (Ok tt, set_tokens (filter (λ p, owned_token user p.2 = false) (tokens d)) d)).
Definition touched (now : time) (k : ApiToken) : ApiToken :=
  match k_LastUsedAt k with
  | Some t => if (t <? now - Minute)%Z then
                {| k_ID := k_ID k; k_UserID := k_UserID k; k_Name := k_Name k; k_TokenHash := k_TokenHash k;
                   k_Prefix := k_Prefix k; k_Scopes := k_Scopes k; k_LastUsedAt := Some now;
                   k_ExpiresAt := k_ExpiresAt k; k_CreatedAt := k_CreatedAt k |}
              else k
  | None => {| k_ID := k_ID k; k_UserID := k_UserID k; k_Name := k_Name k; k_TokenHash := k_TokenHash k;
               k_Prefix := k_Prefix k; k_Scopes := k_Scopes k; k_LastUsedAt := Some now;
               k_ExpiresAt := k_ExpiresAt k; k_CreatedAt := k_CreatedAt k |}
  end.
Definition TouchAPIToken (id : uuid) : M World unit :=
  query (λ now d, (Ok tt, set_tokens (alter (touched now) id (tokens d)) d)).
(** Each token with its owner's id and name. *)
Definition tokens_with_owner (d : DB) : list (ApiToken * (uuid * string)) :=
  omap (λ k, u ← users d !! k_UserID k; Some (k, (u_ID u, u_Username u))) (newest_first (token_rows d)).
Definition ListAllAPITokens (limit offset : Z) : M World (list (ApiToken * (uuid * string))) :=
  select (λ d, Ok (take (Z.to_nat limit) (drop (Z.to_nat offset) (tokens_with_owner d)))).
Definition CountAllAPITokens : M World nat := select (λ d, Ok (size (tokens d))).

(** ** The service *)

Definition hashToken (plaintext : string) : string := sha256_hex plaintext.

(** The plaintext, its hash, its prefix. *)
Definition GenerateToken : P World (string * string * string) :=
  b ← map_err (Wrap "auth: generating token") (atomic (rand_Read tokenRandBytes));
  let body := tokenEnc b in
  let plaintext := TokenPrefix +:+ body in
  mret (plaintext, hashToken plaintext, first_chars tokenPrefixLen body).

Definition parsePresented (raw : string) : option (string * string) :=
  body ← CutPrefix raw TokenPrefix;
  if (String.length body <? tokenPrefixLen)%nat then None
  else Some (first_chars tokenPrefixLen body, hashToken raw).

Record TokenMeta := {
  mt_ID : uuid; mt_Name : string; mt_Prefix : string; mt_Scopes : list string;
  mt_LastUsedAt : option time; mt_ExpiresAt : option time; mt_CreatedAt : time
}.
Definition token_metaOf (t : ApiToken) : TokenMeta :=
  {| mt_ID := k_ID t; mt_Name := k_Name t; mt_Prefix := k_Prefix t; mt_Scopes := k_Scopes t;
     mt_LastUsedAt := k_LastUsedAt t; mt_ExpiresAt := k_ExpiresAt t; mt_CreatedAt := k_CreatedAt t |}.

Definition token_Create (user : uuid) (name : string) (scopes : list string) (expiresAt : option time)
    : P World (string * TokenMeta) :=
  ValidateScopes scopes;;
  id ← map_err (Wrap "auth: token id") (atomic NewV7);
  '(plaintext, hash, prefix) ← GenerateToken;
  row ← map_err (Wrap "auth: creating token")
          (atomic (CreateAPIToken id user name hash prefix scopes expiresAt));
  mret (plaintext, token_metaOf row).

(** The last candidate whose hash is the presented one. *)
Definition match_hash (hash : string) (cands : list ApiToken) : option ApiToken :=
  foldl (λ m k, if bool_decide (hash = k_TokenHash k) then Some k else m) None cands.

Definition token_Authenticate (raw : string) (now : time) : P World Identity :=
  match parsePresented raw with
  | None => throw ErrInvalidToken
  | Some (prefix, hash) =>
      cands ← atomic (GetAPITokensByPrefix prefix);
      match match_hash hash cands with
      | None => throw ErrInvalidToken
      | Some tok =>
          if match k_ExpiresAt tok with Some t => negb (now <? t)%Z | None => false end
          then throw ErrTokenExpired else
          if is_Some_b (unknown_scope (k_Scopes tok)) then throw ErrTokenScope else
          u ← map_err (λ _, ErrInvalidToken) (atomic (GetUserByID (k_UserID tok)));
          if u_Banned u then throw ErrUserBanned else
          mret {| id_UserID := u_ID u; id_Role := u_Role u; id_SessionToken := ""; id_Method := AuthToken;
                  id_Scopes := k_Scopes tok; id_TokenID := k_ID tok |}
      end
  end.

Definition Touch (id : uuid) : P World unit := atomic (TouchAPIToken id).
Definition token_List (user : uuid) : P World (list TokenMeta) :=
  rows ← map_err (Wrap "auth: listing tokens") (atomic (ListAPITokensByUser user));
  mret (map token_metaOf rows).
Definition Revoke (user token : uuid) : P World bool :=
  n ← map_err (Wrap "auth: revoking token") (atomic (DeleteAPIToken token user));
  mret (0 <? n)%nat.
Definition DeleteForUser (user : uuid) : P World unit := atomic (DeleteAPITokensForUser user).
Definition token_ListAll (limit offset : Z) : P World (list (TokenMeta * (uuid * string)) * nat) :=
  rows ← map_err (Wrap "auth: listing all tokens") (atomic (ListAllAPITokens limit offset));
  total ← map_err (Wrap "auth: counting tokens") (atomic CountAllAPITokens);
  mret (map (λ r, (token_metaOf r.1, r.2)) rows, total).
Definition RevokeAny (token : uuid) : P World bool :=
  n ← map_err (Wrap "auth: admin revoking token") (atomic (DeleteAPITokenByID token));
  mret (0 <? n)%nat.
End Tokens.
