(* ===== verification/Sessions.v ===== *)
(** * Sessions, logins in flight and rate limits in Redis
      ([internal/auth/session.go], [loginstate.go], [internal/redisx/ratelimit.go]) *)

From S2P Require Import Prelude Interleave Text Env Redis.

(** ** [session.go] *)

Record Session := {
  s_Token : string; s_UserID : uuid; s_Role : string; s_CreatedAt : time; s_IP : string; s_UA : string
}.

Definition ErrNoSession : error := ErrOther "auth: no such session".
Definition CookieName : string := "osctf_session".

(** [Format(time.RFC3339)] and back: whole seconds. *)
Definition rfc3339 (t : time) : time := (t - t mod Second)%Z.

Section SessionStore.
Context {L : Libs}.
(** The store's TTL, and what the TTL command reports of a remaining time. *)
Context (ttl : duration) (ttl_reply : duration → duration).

Definition session_hash (s : Session) : SessHash :=
  {| sh_UserID := uuid_String (s_UserID s); sh_Role := s_Role s; sh_CreatedAt := rfc3339 (s_CreatedAt s);
     sh_IP := s_IP s; sh_UA := s_UA s |}.

(** HSET, EXPIRE, SADD, EXPIRE. *)
Definition index_session (now : time) (token : string) (user : uuid) (r : RedisState) : RedisState :=
  let r := on_users (sadd now token user) r in
  on_users (expire now (ttl * 2)%Z user) r.
Definition store_session (now : time) (s : Session) (r : RedisState) : RedisState :=
  let r := on_sess (upsert now (λ _, session_hash s) (s_Token s)) r in
  let r := on_sess (expire now ttl (s_Token s)) r in
  index_session now (s_Token s) (s_UserID s) r.

Definition session_Create (user : uuid) (role ip ua : string) : P World Session :=
  raw ← map_err (Wrap "auth: generating session token") (atomic (rand_Read 32));
  now ← atomic wall_now;
  let sess := {| s_Token := RawURL_EncodeToString raw; s_UserID := user; s_Role := role;
                 s_CreatedAt := now; s_IP := ip; s_UA := ua |} in
  map_err (Wrap "auth: storing session")
    (atomic (redis_set (λ now, store_session now sess)));;
  mret sess.

(** EXPIRE, SADD, EXPIRE. *)
Definition refresh_session (now : time) (token : string) (user : uuid) (r : RedisState) : RedisState :=
  index_session now token user (on_sess (expire now ttl token) r).

Definition session_Get (token : string) : P World Session :=
  if decide (token = "") then throw ErrNoSession else
  vals ← map_err (Wrap "auth: reading session")
           (atomic (redis_get (λ now r, fetch now (rd_sess r) token)));
  match vals with
  | None => throw ErrNoSession
  | Some h =>
      match uuid_Parse (sh_UserID h) with
      | None => throw ErrNoSession
      | Some user =>
          left ← try (atomic (redis_get (λ now r, remaining now (rd_sess r) token)));
          (match left with
           | Ok (Some d) =>
               if ((0 <? ttl_reply d) && (ttl_reply d <? Z.quot ttl 2))%Z
               then _ ← try (atomic (redis_set (λ now, refresh_session now token user))); mret tt
               else mret tt
           | _ => mret tt
           end);;
          mret {| s_Token := token; s_UserID := user; s_Role := sh_Role h; s_CreatedAt := sh_CreatedAt h;
                  s_IP := sh_IP h; s_UA := sh_UA h |}
      end
  end.

(** DEL, SREM. *)
Definition drop_session (now : time) (user : uuid) (token : string) (r : RedisState) : RedisState :=
  on_users (srem now token user) (on_sess (delete token) r).

Definition session_Delete (token : string) : P World unit :=
  s ← try (session_Get token);
  match s with
  | Ok sess => atomic (redis_set (λ now, drop_session now (s_UserID sess) token))
  | Err e => if decide (cause e = ErrNoSession) then mret tt else throw e
  end.

Definition drop_sessions (now : time) (user : uuid) (keep : string) (tokens : list string) (r : RedisState)
    : RedisState :=
  foldl (λ r t, if decide (t = keep) then r else drop_session now user t r) r tokens.

Definition DeleteAllForUser (user : uuid) (keep : string) : P World unit :=
  tokens ← map_err (Wrap "auth: listing user sessions")
             (atomic (redis_get (λ now r, smembers now (rd_users r) user)));
  atomic (redis_set (λ now, drop_sessions now user keep tokens)).
End SessionStore.

(** ** [loginstate.go] *)

Definition LoginStateCookie : string := "osctf_login_state".
Definition LoginStateTTL : duration := (10 * Minute)%Z.
Definition ErrNoLoginState : error := ErrOther "auth: no such login state".

Section LoginStateStore.
Context (ttl : duration).

Definition Mint : P World string :=
  raw ← map_err (Wrap "auth: generating login state") (atomic (rand_Read 32));
  mret (RawURL_EncodeToString raw).

Definition Store (token provider provider_state : string) : P World unit :=
  map_err (Wrap "auth: storing login state")
    (atomic (redis_set (λ now, on_login
      (set_ex now {| ls_Provider := provider; ls_ProviderState := provider_state |} ttl token)))).

(** GETDEL: [None] is [redis.Nil]. *)
Definition Consume (token : string) : P World LoginState :=
  if decide (token = "") then throw ErrNoLoginState else
  st ← map_err (Wrap "auth: reading login state")
         (atomic (redis (λ now r, (fetch now (rd_login r) token, on_login (delete token) r))));
  match st with
  | Some st => mret st
  | None => throw ErrNoLoginState
  end.
End LoginStateStore.

(** ** [ratelimit.go]

    Scores are binary64: [float64] rounds a nanosecond count to 53 bits, to
    nearest and ties to even. *)

Definition float64 (n : Z) : Z :=
  let e := (Z.log2 (Z.abs n) - 52)%Z in
  if (e <=? 0)%Z then n else
  let u := (2 ^ e)%Z in
  let q := (n / u)%Z in
  let r := (n mod u)%Z in
  let up := ((u <? 2 * r) || ((2 * r =? u) && Z.odd q))%Z in
  ((if up then q + 1 else q) * u)%Z.

(** Members are the recorded nanosecond counts. *)
Definition trim_zset (cutoff : Z) (s : gmap Z Z) : gmap Z Z :=
  filter (λ p, ¬ (0 ≤ p.2 ≤ float64 cutoff)%Z) s.
Definition zremrangebyscore (now : time) (cutoff : Z) (k : string) (m : gmap string (gmap Z Z * option time)) :=
  match m !! k with
  | Some (s, e) =>
      let s := trim_zset cutoff s in
      if unexpired now e && bool_decide (s ≠ ∅) then <[k := (s, e)]> m else delete k m
  | None => m
  end.
Definition zcard (now : time) (k : string) (m : gmap string (gmap Z Z * option time)) : nat :=
  size (default ∅ (fetch now m k)).
Definition zadd (now : time) (score member : Z) (k : string) :=
  upsert (A:=gmap Z Z) now (λ o, <[member := score]> (default ∅ o)) k.
(** The lowest score. *)
Definition zfirst (now : time) (k : string) (m : gmap string (gmap Z Z * option time)) : option Z :=
  foldr (λ s o, match o with Some b => Some (Z.min s b) | None => Some s end) None
    ((map_to_list (default ∅ (fetch now m k))).*2).


Definition Allow (scope key : string) (limit : Z) (window : duration) : P World (bool * duration) :=
  now ← atomic wall_now;
  let zkey := "rl:" +:+ scope +:+ ":" +:+ key in
  let cutoff := (now - window)%Z in
  count ← map_err (Wrap "redisx: rate limit trim")
            (atomic (redis (λ t r,
              let r := on_zsets (zremrangebyscore t cutoff zkey) r in
              (zcard t zkey (rd_zsets r), r))));
  if (limit <=? Z.of_nat count)%Z then
    oldest ← try (atomic (redis_get (λ t r, zfirst t zkey (rd_zsets r))));
    match oldest with
    | Ok (Some score) =>
        later ← atomic wall_now;
        let ra := (score + window - later)%Z in
        mret (false, if (ra <? Second)%Z then Second else ra)
    | _ => mret (false, window)
    end
  else
    map_err (Wrap "redisx: rate limit record")
      (atomic (redis_set (λ t, λ r,
        let r := on_zsets (zadd t (float64 now) now zkey) r in
        on_zsets (expire t window zkey) r)));;
    mret (true, 0%Z).
