(* ===== verification/Passwords.v ===== *)
(** * Password hashing ([internal/auth/password.go], [commonpw.go])

    Argon2id behind a concurrency gate, the PHC text of a hash, and the deny list. *)

From Stdlib Require Import Ascii.
From S2P Require Import Prelude Interleave Text Env.

(** ** [commonpw.go] *)

Definition commonPasswords : list string :=
  ["password"; "password1"; "password123"; "12345678"; "123456789"; "1234567890"; "qwertyuiop";
    "qwerty123"; "iloveyou"; "sunshine"; "princess"; "football"; "baseball"; "welcome1"; "abc12345";
    "monkey123"; "letmein1"; "shadow123"; "superman"; "michael1"; "computer"; "jennifer"; "trustno1";
    "jordan23"; "harley123"; "hunter123"; "ranger123"; "buster123"; "thomas123"; "robert123"; "soccer123";
    "batman123"; "test1234"; "pass1234"; "killer123"; "hockey123"; "george123"; "charlie1"; "andrew123";
    "michelle"; "jessica1"; "pepper123"; "daniel123"; "access123"; "123123123"; "654321123"; "maggie123";
    "starwars"; "silver123"; "william1"; "dallas123"; "yankees1"; "123456789a"; "987654321"; "heather1";
    "hammer123"; "summer123"; "corvette"; "taylor123"; "austin123"; "1234qwer"; "q1w2e3r4"; "qwer1234";
    "asdfghjkl"; "zxcvbnm123"; "asdf1234"; "dragon123"; "master123"; "mustang1"; "matrix123"; "freedom1";
    "whatever1"; "nicole123"; "junior123"; "anthony1"; "friends1"; "orange123"; "camaro123"; "secret123";
    "merlin123"; "phoenix1"; "mickey123"; "bailey123"; "knight123"; "iceman123"; "tigers123"; "purple123";
    "united123"; "aaaaaaaa"; "11111111"; "internet"; "victoria"; "melissa1"; "marina123"; "gateway1";
    "chelsea1"; "diamond1"; "scooter1"; "richard1"; "fuckyou1"; "midnight"; "blahblah"; "spider123";
    "little123"; "biteme123"; "1qaz2wsx"; "1q2w3e4r"; "qazwsx123"; "admin123"; "administrator"; "changeme";
    "letmein123"; "welcome123"].
Definition toLowerASCII (s : string) : string := ascii_lower s.
Definition IsCommonPassword (pw : string) : bool := bool_decide (toLowerASCII pw ∈ commonPasswords).

(** ** Parameters *)

Definition argonMemoryKiB : N := 64 * 1024.
Definition argonIterations : N := 3.
Definition argonThreads : N := 4.
Definition argonSaltLen : nat := 16.
Definition argonKeyLen : N := 32.
Definition argon2_Version : N := 19.
Definition perHashBytes : N := argonMemoryKiB * 1024.
Definition ErrInvalidHash : error := ErrOther "auth: invalid password hash".

(** ** The PHC text *)

Record phcParams := {
  ph_memoryKiB : N; ph_iterations : N; ph_threads : N; ph_salt : list N; ph_hash : list N
}.

Definition dec (n : N) : string := of_bytes (decimal n).
Definition phc (m t p : N) (salt key : list N) : string :=
  "$argon2id$v=" +:+ dec argon2_Version +:+ "$m=" +:+ dec m +:+ ",t=" +:+ dec t +:+ ",p=" +:+ dec p +:+
  "$" +:+ RawStd_EncodeToString salt +:+ "$" +:+ RawStd_EncodeToString key.

(** [%d] into an [int]. *)
Definition scan_int (l : list ascii) : option (Z * list ascii) :=
  let signed neg l :=
    match l with
    | c :: _ =>
        match digit_value c with
        | Some _ =>
            let '(n, r) := scan_digits 0 l in
            let z := if neg : bool then (- Z.of_N n)%Z else Z.of_N n in
            if ((- 2 ^ 63 <=? z) && (z <? 2 ^ 63))%Z then Some (z, r) else None
        | None => None
        end
    | [] => None
    end in
  match skip_blanks l with
  | c :: l' => if Ascii.eqb c "-" then signed true l'
               else if Ascii.eqb c "+" then signed false l' else signed false (c :: l')
  | [] => None
  end.

(** [Sscanf(s, "v=%d")] and [Sscanf(s, "m=%d,t=%d,p=%d")]: what follows is ignored. *)
Definition literal (s : string) (l : list ascii) : option (list ascii) := strip (to_bytes s) l.
Definition scan_version (s : string) : option Z :=
  l ← literal "v=" (to_bytes s); fst <$> scan_int l.
Definition scan_params (s : string) : option (N * N * N) :=
  l ← literal "m=" (to_bytes s); '(m, l) ← scan_uint 32 l;
  l ← literal ",t=" l; '(t, l) ← scan_uint 32 l;
  l ← literal ",p=" l; '(p, _) ← scan_uint 8 l;
  Some (m, t, p).

Definition parsePHC (encoded : string) : option phcParams :=
  match Split encoded "$" with
  | [_; alg; ver; params; salt; hash] =>
      if negb (bool_decide (alg = "argon2id")) then None else
      v ← scan_version ver;
      if negb (v =? Z.of_N argon2_Version)%Z then None else
      '(m, t, p) ← scan_params params;
      s ← RawStd_DecodeString salt;
      h ← RawStd_DecodeString hash;
      Some {| ph_memoryKiB := m; ph_iterations := t; ph_threads := p; ph_salt := s; ph_hash := h |}
  | _ => None
  end.

Definition NeedsRehash (encoded : string) : bool :=
  match parsePHC encoded with
  | None => true
  | Some p => negb (ph_memoryKiB p =? argonMemoryKiB)%N || negb (ph_iterations p =? argonIterations)%N
              || negb (ph_threads p =? argonThreads)%N
  end.

(** ** The gate, hashing and verification *)

Section Gate.
(** [argon2.IDKey] (password, salt, iterations, memory, threads, key length), the
    gate's channel (none: disabled) and how long a request queues. *)
Context (IDKey : list N → list N → N → N → N → N → list N) (hashSem : option nat) (hashWait : duration).

Definition enterHash : P World unit := atomic (modify (λ w, set_hash (w_hash w + 1)%Z w)).
Definition exitHash : P World unit := atomic (modify (λ w, set_hash (w_hash w - 1)%Z w)).

(** The request gives up when its context ends or its timer fires first. *)
Definition acquireHash : P World unit :=
  match hashSem with
  | None => enterHash
  | Some sem =>
      got ← send_or_done sem;
      if got : bool then enterHash else
      done ← atomic next_fault;
      if done : bool then throw ErrCtx
      else throw (Unavailable "the server is busy verifying passwords; retry shortly" hashWait)
  end.
Definition release_hash : P World unit :=
  exitHash;; match hashSem with None => mret tt | Some sem => recv sem end.

Definition password_bytes (s : string) : list N := map N_of_ascii (to_bytes s).

Definition deriveKey (password salt : list N) (iters mem threads keyLen : N) : P World (list N) :=
  acquireHash;;
  defer release_hash (mret (IDKey password salt iters mem threads keyLen)).

Definition HashPassword (password : string) : P World string :=
  salt ← map_err (Wrap "auth: generating salt") (atomic (rand_Read argonSaltLen));
  key ← deriveKey (password_bytes password) salt argonIterations argonMemoryKiB argonThreads argonKeyLen;
  mret (phc argonMemoryKiB argonIterations argonThreads salt key).

Definition VerifyPassword (password encoded : string) : P World bool :=
  match parsePHC encoded with
  | None => throw ErrInvalidHash
  | Some p =>
      key ← deriveKey (password_bytes password) (ph_salt p) (ph_iterations p) (ph_memoryKiB p) (ph_threads p)
              (N.of_nat (length (ph_hash p)) mod 2 ^ 32);
      mret (bool_decide (key = ph_hash p))
  end.

(** The hash of [dummyHash], derived before the gate exists, is an argument. *)
Definition BurnHash (dummyHash password : string) : P World unit :=
  VerifyPassword password dummyHash;; mret tt.
End Gate.

(** ** The size of the gate *)

Definition clampInt (v lo hi : Z) : Z :=
  if (v <? lo)%Z then lo else if (hi <? v)%Z then hi else v.

Definition hashConcurrencyFor (memBytes : N) : Z :=
  if (memBytes =? 0)%N then 0%Z else
  let k := (memBytes / 4 / perHashBytes)%N in
  Z.of_N (if (k <? 2)%N then 2 else if (64 <? k)%N then 64 else k)%N.

(** [strconv.ParseUint(s, 10, 64)]. *)
Definition ParseUint (s : string) : option N :=
  let l := to_bytes s in
  if forallb (λ c, bool_decide (is_Some (digit_value c))) l && negb (bool_decide (l = [])) then
    let n := (scan_digits 0 l).1 in if (n <? 2 ^ 64)%N then Some n else None
  else None.

(** [strings.Fields] on ASCII white space. *)
Fixpoint fields (word : list ascii) (l : list ascii) : list (list ascii) :=
  match l with
  | [] => if decide (word = []) then [] else [rev word]
  | c :: l => if existsb (Ascii.eqb c) [" "; "009"; "010"; "011"; "012"; "013"]%char
              then (if decide (word = []) then fields [] l else rev word :: fields [] l)
              else fields (c :: word) l
  end.
Definition Fields (s : string) : list string := map of_bytes (fields [] (to_bytes s)).

Section Memory.
(** [os.ReadFile] and [runtime.GOMAXPROCS(0)]. *)
Context (ReadFile : string → option string) (GOMAXPROCS : Z).

Definition readCgroupLimit (path : string) : option N :=
  data ← ReadFile path;
  let s := TrimSpace data in
  if bool_decide (s = "max") then None else
  v ← ParseUint s;
  if (v =? 0)%N || (2 ^ 62 <=? v)%N then None else Some v.

Fixpoint mem_total (lines : list string) : N :=
  match lines with
  | [] => 0
  | line :: lines =>
      if HasPrefix line "MemTotal:" then
        match Fields line with
        | _ :: f :: _ => match ParseUint f with Some kb => (kb * 1024) mod 2 ^ 64 | None => 0 end
        | _ => 0
        end
      else mem_total lines
  end%N.
Definition readMemTotal (path : string) : N :=
  match ReadFile path with
  | None => 0%N
  | Some data => mem_total (Split data "010")
  end.

Definition availableMemoryBytes : N :=
  match readCgroupLimit "/sys/fs/cgroup/memory.max" with
  | Some b => b
  | None => match readCgroupLimit "/sys/fs/cgroup/memory/memory.limit_in_bytes" with
            | Some b => b
            | None => readMemTotal "/proc/meminfo"
            end
  end.

Definition DefaultHashConcurrency : Z :=
  let k := hashConcurrencyFor availableMemoryBytes in
  if (0 <? k)%Z then k else clampInt GOMAXPROCS 2 64.
End Memory.
