(* ===== verification/PasswordRules.v ===== *)
(** * The guarantees of password hashing

    The stored text reads back as what was hashed, a hash verifies exactly the
    passwords that derive its key, and the gate bounds the derivations in flight. *)

From Stdlib Require Import Ascii.
From S2P Require Import Prelude Interleave Text Env Demo Passwords.

(** ** The PHC text *)

Definition is_byte (b : N) : Prop := (b < 256)%N.

Lemma Split_piece (w s : string) :
  Forall (λ c, Ascii.eqb c "$" = false) (to_bytes w) →
  Split (w +:+ "$" +:+ s) "$" = w :: Split s "$".
Proof.
  intros Hw. unfold Split. rewrite !to_bytes_app. change (to_bytes "$") with ["$"%char]. cbn [app].
  rewrite split_on_nosep.
  - cbn [map]. by rewrite of_to_bytes.
  - eapply Forall_impl; [exact Hw|]. cbn beta. intros c Hc ->. by vm_compute in Hc.
Qed.
Lemma Split_last (w : string) :
  Forall (λ c, Ascii.eqb c "$" = false) (to_bytes w) → Split w "$" = [w].
Proof.
  intros Hw. unfold Split. rewrite split_on_last.
  - cbn [map]. by rewrite of_to_bytes.
  - eapply Forall_impl; [exact Hw|]. cbn beta. intros c Hc ->. by vm_compute in Hc.
Qed.

Lemma plain_nosep l : Forall (λ c, plain c = true) l → Forall (λ c, Ascii.eqb c "$" = false) l.
Proof.
  intros Hl. eapply Forall_impl; [exact Hl|]. unfold plain. cbn beta. intros c Hc.
  simpl in Hc. apply negb_true_iff in Hc. by apply orb_false_iff in Hc as [Hc _].
Qed.
Lemma digits_nosep l : Forall (λ c, is_Some (digit_value c)) l → Forall (λ c, Ascii.eqb c "$" = false) l.
Proof.
  intros Hl. eapply Forall_impl; [exact Hl|]. cbn beta. intros c Hc.
  apply Ascii.eqb_neq. intros ->. by vm_compute in Hc; destruct Hc.
Qed.
Lemma dec_nosep n : Forall (λ c, Ascii.eqb c "$" = false) (to_bytes (dec n)).
Proof. unfold dec. rewrite to_of_bytes. apply digits_nosep, decimal_digits. Qed.

Lemma scan_params_phc m t p :
  (m < 2 ^ 32)%N → (t < 2 ^ 32)%N → (p < 2 ^ 8)%N →
  scan_params ("m=" +:+ dec m +:+ ",t=" +:+ dec t +:+ ",p=" +:+ dec p) = Some (m, t, p).
Proof.
  intros Hm Ht Hp. unfold scan_params, literal, dec. rewrite !to_bytes_app, !to_of_bytes.
  rewrite strip_app. cbn [mbind option_bind]. rewrite scan_uint_decimal by done. cbn [mbind option_bind].
  rewrite strip_app. cbn [mbind option_bind]. rewrite scan_uint_decimal by done. cbn [mbind option_bind].
  rewrite strip_app. cbn [mbind option_bind].
  rewrite <- (app_nil_r (decimal p)). by rewrite scan_uint_decimal.
Qed.

(** A PHC text reads back as exactly the parameters, salt and key it was made of. *)
Theorem parsePHC_phc (m t p : N) (salt key : list N)
    (Hm : (m < 2 ^ 32)%N) (Ht : (t < 2 ^ 32)%N) (Hp : (p < 2 ^ 8)%N)
    (Hsalt : Forall is_byte salt) (Hkey : Forall is_byte key) :
  parsePHC (phc m t p salt key) =
  Some {| ph_memoryKiB := m; ph_iterations := t; ph_threads := p; ph_salt := salt; ph_hash := key |}.
Proof.
  assert (phc m t p salt key = "" +:+ "$" +:+ "argon2id" +:+ "$" +:+ ("v=" +:+ dec argon2_Version) +:+ "$" +:+
    ("m=" +:+ dec m +:+ ",t=" +:+ dec t +:+ ",p=" +:+ dec p) +:+ "$" +:+ RawStd_EncodeToString salt +:+ "$" +:+
    RawStd_EncodeToString key) as ->.
  { unfold phc. change (dec argon2_Version) with "19". rewrite <- (of_to_bytes (_ +:+ _)). rewrite <- (of_to_bytes ("" +:+ _)). f_equal.
    rewrite !to_bytes_app, <- !app_assoc. reflexivity. }
  unfold parsePHC.
  rewrite Split_piece by constructor. rewrite Split_piece by (repeat constructor).
  rewrite Split_piece by (repeat constructor).
  rewrite Split_piece.
  2: { rewrite !to_bytes_app, !Forall_app. split_and!; try apply dec_nosep; repeat constructor. }
  rewrite Split_piece by (apply plain_nosep, RawStd_plain).
  rewrite Split_last by (apply plain_nosep, RawStd_plain).
  replace (scan_version ("v=" +:+ dec argon2_Version)) with (Some 19%Z) by (vm_compute; reflexivity).
  rewrite scan_params_phc by done. rewrite !RawStd_roundtrip by done. reflexivity.
Qed.

(** ** Hashing and verifying *)

(** The documented behaviour of [argon2.IDKey]: a key of the requested length. *)
Definition derives_bytes (IDKey : list N → list N → N → N → N → N → list N) : Prop :=
  ∀ pw salt t m p n, length (IDKey pw salt t m p n) = N.to_nat n ∧ Forall is_byte (IDKey pw salt t m p n).

(** The randomness to come is bytes. *)
Definition random_bytes (w : World) : Prop :=
  Forall (λ o, match o with Some bs => Forall is_byte bs | None => True end) (w_rand w).

Lemma rand_Read_bytes n w r w' :
  random_bytes w → rand_Read n w = (r, w') →
  random_bytes w' ∧ ∀ bs, r = Ok bs → length bs = n ∧ Forall is_byte bs.
Proof.
  intros HR. unfold rand_Read, random_bytes in *.
  destruct (w_rand w) as [|[bs|] rs] eqn:E; intros [= <- <-]; simpl; rewrite ?E; inv HR; try by split.
  split; [done|]. intros ? [= <-]. split.
  - rewrite length_take, length_app, length_replicate. lia.
  - apply Forall_take, Forall_app. split; [done|]. by apply Forall_replicate.
Qed.

Definition current (salt key : list N) : string := phc argonMemoryKiB argonIterations argonThreads salt key.

Section Hashing.
Context (IDKey : list N → list N → N → N → N → N → list N) (HID : derives_bytes IDKey).
Context (hashSem : option nat) (hashWait : duration).

Definition key_of (password : string) (salt : list N) : list N :=
  IDKey (password_bytes password) salt argonIterations argonMemoryKiB argonThreads argonKeyLen.

(** Only the gate can fail a derivation. *)
Definition shed (e : error) : Prop :=
  e = ErrCtx ∨ e = Unavailable "the server is busy verifying passwords; retry shortly" hashWait.

Lemma send_or_done_rand c w x w' :
  match next_fault w with (Ok true, w') => Some (false, w') | (_, w') => pair true <$> try_send c w' end =
    Some (x, w') → w_rand w' = w_rand w.
Proof.
  unfold next_fault, try_send. destruct (w_faults w) as [|[] fs]; simpl.
  - destruct (w_chans w !! c) as [ch|]; [|done]. destruct (chan_full ch); [done|]. by intros [= <- <-].
  - by intros [= <- <-].
  - destruct (w_chans w !! c) as [ch|]; [|done]. destruct (chan_full ch); [done|]. by intros [= <- <-].
Qed.

Lemma derive_safe pw salt t m p n :
  safe random_bytes (deriveKey IDKey hashSem hashWait pw salt t m p n)
    (λ r, match r with Ok k => k = IDKey pw salt t m p n | Err e => shed e end).
Proof.
  unfold deriveKey. apply safe_bind. unfold acquireHash.
  assert (safe random_bytes (defer (release_hash hashSem) (mret (IDKey pw salt t m p n)))
    (λ r, match r with Ok k => k = IDKey pw salt t m p n | Err e => shed e end)) as Hdefer.
  { apply safe_defer, safe_ret. unfold release_hash. apply safe_bind.
    apply safe_atomic. intros w HR. split; [exact HR|]. cbn [fst modify].
    destruct hashSem as [c|]; [|done]. apply safe_step. intros w1 a w2 HR1.
    unfold try_recv. destruct (w_chans w1 !! c) as [ch|]; [|done]. destruct (ch_len ch =? 0); [done|].
    intros E. by simplify_eq/=. }
  destruct hashSem as [c|]; [|apply safe_atomic; by intros w HR].
  apply safe_bind. apply safe_step. intros w [] w' HR E; (split; [unfold random_bytes; by rewrite (send_or_done_rand _ _ _ _ E)|]).
  - apply safe_atomic. by intros w1 HR1.
  - apply safe_bind, safe_atomic. intros w1 HR1. unfold next_fault.
    destruct (w_faults w1) as [|[] fs]; (split; [exact HR1|]); cbn [fst]; [by right|by left|by right].
Qed.

Lemma hash_safe pw :
  safe random_bytes (HashPassword IDKey hashSem hashWait pw)
    (λ r, match r with
          | Ok h => ∃ salt, length salt = argonSaltLen ∧ Forall is_byte salt ∧ h = current salt (key_of pw salt)
          | Err e => shed e ∨ ∃ e', e = Wrap "auth: generating salt" e' end).
Proof.
  unfold HashPassword. apply safe_bind, safe_map_err, safe_atomic. intros w HR.
  destruct (rand_Read argonSaltLen w) as [r w'] eqn:E. apply rand_Read_bytes in E as [HR' Hr]; [|done].
  split; [done|]. cbn [fst]. destruct r as [salt|e]; [|right; by eexists].
  destruct (Hr salt eq_refl) as [Hlen Hbs].
  apply safe_bind. eapply safe_mono; [apply derive_safe|]. cbn beta.
  intros [k|e]; [|by left]. intros ->. apply safe_ret. by exists salt.
Qed.

Lemma parse_current pw salt :
  Forall is_byte salt →
  parsePHC (current salt (key_of pw salt)) =
  Some {| ph_memoryKiB := argonMemoryKiB; ph_iterations := argonIterations; ph_threads := argonThreads;
          ph_salt := salt; ph_hash := key_of pw salt |}.
Proof using HID. intros Hs. apply parsePHC_phc; [done..|apply HID]. Qed.

Lemma verify_safe pw pw' salt :
  Forall is_byte salt →
  safe random_bytes (VerifyPassword IDKey hashSem hashWait pw' (current salt (key_of pw salt)))
    (λ r, match r with Ok b => b = bool_decide (key_of pw' salt = key_of pw salt) | Err e => shed e end).
Proof using HID.
  intros Hs. unfold VerifyPassword. rewrite parse_current by done.
  apply safe_bind. eapply safe_mono; [apply derive_safe|]. cbn beta iota.
  intros [k|e]; [|done]. intros ->. apply safe_ret. cbn [ph_salt ph_hash ph_iterations ph_memoryKiB ph_threads].
  replace (N.of_nat (length (key_of pw salt)) mod 2 ^ 32)%N with argonKeyLen; [done|].
  unfold key_of. destruct (HID (password_bytes pw) salt argonIterations argonMemoryKiB argonThreads argonKeyLen) as [-> _].
  vm_compute. reflexivity.
Qed.
End Hashing.

(** C15: Hash a password amid any other activity, then verify a password against
    the stored text amid any other activity: a verdict is true exactly when both
    passwords derive the same key from the stored salt, so the password that was
    hashed is always accepted; no error means anything but a shed or cancelled
    request; and the text needs no rehash. *)
Theorem hash_then_verify (IDKey : list N → list N → N → N → N → N → list N) (hashSem : option nat) (hashWait : duration)
    (E : World → World → Prop) (pw pw' h : string) (w w1 w2 w3 : World) (r : res bool)
    (HID : derives_bytes IDKey) (HE : ∀ w w', random_bytes w → E w w' → random_bytes w') (HR : random_bytes w)
    (H1 : amid E (HashPassword IDKey hashSem hashWait pw) w (Ok h) w1)
    (HE2 : E w1 w2)
    (H2 : amid E (VerifyPassword IDKey hashSem hashWait pw' h) w2 r w3) :
  NeedsRehash h = false ∧
  ∃ salt, length salt = argonSaltLen ∧
    match r with
    | Ok b => b = bool_decide (key_of IDKey pw' salt = key_of IDKey pw salt) ∧ (pw' = pw → b = true)
    | Err e => shed hashWait e
    end.
Proof.
  destruct (safe_amid _ E _ _ _ _ _ (hash_safe IDKey hashSem hashWait pw) HE HR H1) as (HR1 & salt & Hlen & Hs & ->).
  split; [by unfold NeedsRehash; rewrite parse_current|].
  destruct (safe_amid _ E _ _ _ _ _ (verify_safe IDKey HID hashSem hashWait pw pw' salt Hs) HE (HE _ _ HR1 HE2) H2) as (_ & Hr).
  exists salt. split; [done|]. destruct r as [b|e]; [|done]. split; [done|].
  intros ->. by rewrite Hr, bool_decide_eq_true_2.
Qed.

(** ** The gate *)

(** Where a request is: outside, holding a slot, or deriving a key (in its slot). *)
Inductive place := Outside | InSlot | Deriving.
Definition in_slot (g : place) : bool := match g with Outside => false | _ => true end.
Definition deriving (g : place) : bool := match g with Deriving => true | _ => false end.
Definition count (f : place → bool) (gs : list place) : nat := length (List.filter f gs).

Section Semaphore.
Context (IDKey : list N → list N → N → N → N → N → list N) (sem n : nat) (hashWait : duration).

Definition gate_inv (gs : list place) (w : World) : Prop :=
  w_chans w !! sem = Some {| ch_cap := n; ch_len := count in_slot gs |} ∧ count in_slot gs ≤ n ∧
  w_hash w = Z.of_nat (count deriving gs).

Lemma count_perm f gs gs' : gs ≡ₚ gs' → count f gs = count f gs'.
Proof.
  unfold count. induction 1 as [|x l l' _ IH|x y l|l1 l2 l3 _ IH1 _ IH2]; simpl; [done| | |congruence].
  - destruct (f x); simpl; congruence.
  - by destruct (f x), (f y).
Qed.
Lemma gate_inv_perm gs gs' w : gs ≡ₚ gs' → gate_inv gs w → gate_inv gs' w.
Proof. intros Hp. unfold gate_inv. by rewrite (count_perm in_slot _ _ Hp), (count_perm deriving _ _ Hp). Qed.

Abbreviation gated p Q g := (holds (λ x, x = Outside) gate_inv (λ _ _, True) p Q g).

Lemma gate_same {A} (m : M World A) (Q : res A → place → Prop) g :
  (∀ w, w_chans (m w).2 = w_chans w ∧ w_hash (m w).2 = w_hash w) → (∀ r, Q r g) → gated (atomic m) Q g.
Proof.
  intros Hm HQ. apply holds_atomic. intros gs w HI. exists g. destruct (Hm w) as [Hc Hh].
  split_and!; [|done|apply HQ]. unfold gate_inv. by rewrite Hc, Hh.
Qed.

Lemma acquire_gate (Q : res unit → place → Prop) :
  Q (Ok tt) Deriving → (∀ e, Q (Err e) Outside) → gated (acquireHash (Some sem) hashWait) Q Outside.
Proof.
  intros HOk HErr. unfold acquireHash. apply holds_bind, holds_blocking.
  intros gs w got w' (Hc & Hle & Hh) E. unfold next_fault, try_send in E.
  assert (∀ fs, gate_inv (Outside :: gs) (set_faults fs w)) as Hkeep by done.
  assert (∀ fs w', (pair true <$> match w_chans w !! sem with
       | Some ch => if chan_full ch then None else Some (set_chans (<[sem:=chan_push ch]> (w_chans w)) (set_faults fs w))
       | None => None end) = Some (got, w') → got = true ∧ gate_inv (InSlot :: gs) w') as Hsend.
  { intros fs w1. rewrite Hc. unfold chan_full. cbn [ch_cap ch_len].
    destruct (Nat.leb_spec n (count in_slot (Outside :: gs))) as [|Hlt]; [done|]. intros [= <- <-].
    split; [done|]. unfold gate_inv. cbn [w_chans set_chans w_hash set_faults].
    rewrite list_lookup_insert_eq by by eapply lookup_lt_Some. by split_and!. }
  destruct (w_faults w) as [|[] fs] eqn:Ef; cbn [w_chans set_faults] in E.
  - replace w with (set_faults [] w) in E at 2; [|by destruct w; simpl in *; subst].
    apply Hsend in E as [-> HI]. exists InSlot. split_and!; [done..|]. cbn beta iota.
    apply holds_atomic. intros gs' w1 (Hc1 & Hle1 & Hh1). exists Deriving.
    split_and!; [|done|done]. split_and!; [done..|]. cbn [w_hash set_hash modify snd]. rewrite Hh1. unfold count. simpl. lia.
  - injection E as <- <-. exists Outside. split_and!; [by apply Hkeep|done|]. cbn beta iota.
    apply holds_bind, gate_same; [intros w1; unfold next_fault; by destruct (w_faults w1)|].
    intros [[]|e]; apply HErr.
  - apply Hsend in E as [-> HI]. exists InSlot. split_and!; [done..|]. cbn beta iota.
    apply holds_atomic. intros gs' w1 (Hc1 & Hle1 & Hh1). exists Deriving.
    split_and!; [|done|done]. split_and!; [done..|]. cbn [w_hash set_hash modify snd]. rewrite Hh1. unfold count. simpl. lia.
Qed.

Lemma release_gate (Q : res unit → place → Prop) :
  Q (Ok tt) Outside → gated (release_hash (Some sem)) Q Deriving.
Proof.
  intros HQ. unfold release_hash. apply holds_bind, holds_atomic. intros gs w (Hc & Hle & Hh).
  exists InSlot. split_and!; [|done|].
  { split_and!; [done..|]. cbn [w_hash modify set_hash snd]. rewrite Hh. unfold count. simpl. lia. }
  cbn [modify fst]. apply holds_blocking. clear -HQ. intros gs w [] w' (Hc & Hle & Hh) E.
  unfold try_recv in E. rewrite Hc in E. cbn [ch_len] in E.
  change (count in_slot (InSlot :: gs)) with (S (count in_slot gs)) in *.
  cbn in E. injection E as <-.
  exists Outside. split_and!; [|done|done]. split_and!.
  - cbn [w_chans set_chans]. rewrite list_lookup_insert_eq by by eapply lookup_lt_Some. reflexivity.
  - change (count in_slot (Outside :: gs)) with (count in_slot gs). lia.
  - done.
Qed.

Lemma derive_gate pw salt t m p k (Q : res (list N) → place → Prop) :
  (∀ r, Q r Outside) → gated (deriveKey IDKey (Some sem) hashWait pw salt t m p k) Q Outside.
Proof.
  intros HQ. unfold deriveKey. apply holds_bind, acquire_gate; [|auto].
  apply holds_defer, holds_ret, release_gate. apply HQ.
Qed.

(** The requests that hash: registration, login, and the timing burn. *)
Inductive hash_program : prog World unit → Prop :=
  | hp_hash pw : hash_program (forget (HashPassword IDKey (Some sem) hashWait pw))
  | hp_verify pw h : hash_program (forget (VerifyPassword IDKey (Some sem) hashWait pw h))
  | hp_burn d pw : hash_program (forget (BurnHash IDKey (Some sem) hashWait d pw)).

Lemma verify_gate pw h (Q : res bool → place → Prop) :
  (∀ r, Q r Outside) → gated (VerifyPassword IDKey (Some sem) hashWait pw h) Q Outside.
Proof.
  intros HQ. unfold VerifyPassword. destruct (parsePHC h) as [p|]; [|apply HQ].
  apply holds_bind, derive_gate. intros [k|e]; apply HQ.
Qed.

Lemma hash_program_gated p : hash_program p → gated p (λ _ g, g = Outside) Outside.
Proof.
  destruct 1; apply (holds_forget (λ g, g = Outside)).
  - unfold HashPassword. apply holds_bind, holds_map_err, gate_same.
    { intros w. unfold rand_Read. by destruct (w_rand w) as [|[]]. }
    intros [salt|e]; [|done]. apply holds_bind, derive_gate. by intros [k|e].
  - by apply verify_gate.
  - unfold BurnHash. apply holds_bind, verify_gate. by intros [b|e].
Qed.
End Semaphore.

(** C16: With a gate of [n] slots, however many requests hash at once and whichever of
    them give up, at most [n] derivations (64 MiB each) are in flight at any
    moment; and once every request has ended none is counted and no slot is lost. *)
Theorem gate_bounds_derivations (IDKey : list N → list N → N → N → N → N → list N) (sem n : nat) (hashWait : duration)
    (ps ps' : list (prog World unit)) (w w' : World)
    (Hps : Forall (hash_program IDKey sem hashWait) ps)
    (Hchan : w_chans w !! sem = Some {| ch_cap := n; ch_len := 0 |}) (Hidle : w_hash w = 0%Z)
    (Hr : rtc pool_step (ps, w) (ps', w')) :
  (0 ≤ w_hash w' ≤ Z.of_nat n)%Z ∧
  (w_hash w' * Z.of_N perHashBytes ≤ Z.of_nat n * Z.of_N perHashBytes)%Z ∧
  (Forall (λ p, p = Ret tt) ps' →
   w_hash w' = 0%Z ∧ w_chans w' !! sem = Some {| ch_cap := n; ch_len := 0 |}).
Proof.
  destruct (holds_pool (λ g, g = Outside) (gate_inv sem n) (λ _ _, True) (gate_inv_perm sem n) ps
    (replicate (length ps) Outside) w ps' w') as (gs & Hgs & (Hc & Hle & Hh) & _); [| |exact Hr|].
  { clear -Hps. induction Hps as [|p ps Hp _ IH]; simpl; constructor; [by apply (hash_program_gated IDKey _ _ hashWait)|done]. }
  { assert (∀ f k, f Outside = false → count f (replicate k Outside) = 0) as H0.
    { intros f k Hf. unfold count. induction k as [|k IH]; simpl; [done|]. by rewrite Hf. }
    unfold gate_inv. rewrite !H0 by done. split_and!; [done|lia|done]. }
  assert (count deriving gs ≤ count in_slot gs) as Hsub.
  { clear. unfold count. induction gs as [|[] gs IH]; simpl; lia. }
  rewrite Hh. split_and!; [lia|lia|unfold perHashBytes, argonMemoryKiB; nia|].
  intros Hend. assert (∀ f, f Outside = false → count f gs = 0) as H0.
  { intros f Hf. pose proof (holds_ended _ _ _ _ _ Hgs Hend) as Ho. clear -Hf Ho. unfold count.
    induction Ho as [|g gs -> _ IH]; simpl; [done|]. by rewrite Hf. }
  rewrite !H0 in * by done. done.
Qed.

(** ** The size of the gate *)

(** Whatever the memory files hold, the gate has between 2 and 64 slots; when a
    limit is readable and allows two derivations in a quarter of it, the slots
    together need at most a quarter of the limit. *)
Theorem DefaultHashConcurrency_bounds (ReadFile : string → option string) (GOMAXPROCS : Z) :
  (2 ≤ DefaultHashConcurrency ReadFile GOMAXPROCS ≤ 64)%Z ∧
  (availableMemoryBytes ReadFile ≠ 0%N →
    DefaultHashConcurrency ReadFile GOMAXPROCS
    = Z.max 2 (Z.min 64 (Z.of_N (availableMemoryBytes ReadFile / 4 / perHashBytes)))) ∧
  ((8 * perHashBytes ≤ availableMemoryBytes ReadFile)%N →
    (DefaultHashConcurrency ReadFile GOMAXPROCS * Z.of_N perHashBytes * 4
     ≤ Z.of_N (availableMemoryBytes ReadFile))%Z).
Proof.
  unfold DefaultHashConcurrency. set (mem := availableMemoryBytes ReadFile). clearbody mem.
  unfold hashConcurrencyFor. change perHashBytes with 67108864%N.
  destruct (N.eqb_spec mem 0) as [->|Hmem].
  - change (0 <? 0)%Z with false. cbn [negb]. unfold clampInt.
    split; [|split; [done|lia]]. destruct (Z.ltb_spec GOMAXPROCS 2); [lia|]. destruct (Z.ltb_spec 64 GOMAXPROCS); lia.
  - pose proof (N.div_mod (mem / 4) 67108864) as Hq. pose proof (N.div_mod mem 4) as Hd.
    pose proof (N.mod_upper_bound (mem / 4) 67108864). pose proof (N.mod_upper_bound mem 4).
    repeat match goal with H : _ ≠ _ → _ |- _ => specialize (H ltac:(done)) end.
    set (q := (mem / 4 / 67108864)%N) in *. clearbody q.
    set (r1 := (mem / 4 mod 67108864)%N) in *. clearbody r1. set (m4 := (mem / 4)%N) in *. clearbody m4.
    set (r2 := (mem mod 4)%N) in *. clearbody r2.
    assert (∀ x : N, (2 ≤ x)%N → (if (0 <? Z.of_N x)%Z then Z.of_N x else clampInt GOMAXPROCS 2 64) = Z.of_N x) as Hpos.
    { intros x Hx. by destruct (Z.ltb_spec 0 (Z.of_N x)); [|lia]. }
    destruct (N.ltb_spec q 2); [|destruct (N.ltb_spec 64 q)]; rewrite Hpos by lia; split_and!; lia.
Qed.

(** ** Concrete inputs *)

Definition demo_IDKey (pw salt : list N) (t m p n : N) : list N :=
  take (N.to_nat n) (map (λ b, b mod 256)%N (pw ++ salt) ++ replicate (N.to_nat n) 0%N).
Lemma demo_derives_bytes : derives_bytes demo_IDKey.
Proof.
  intros pw salt t m p n. unfold demo_IDKey. split.
  - rewrite length_take, length_app, length_replicate. lia.
  - apply Forall_take, Forall_app. split; [|by apply Forall_replicate].
    apply Forall_fmap, Forall_true. intros b. by apply N.mod_upper_bound.
Qed.
Lemma demo_random_bytes : random_bytes (demo_world demo_db 0).
Proof.
  assert (forallb (λ o, match o with Some bs => forallb (λ b, b <? 256)%N bs | None => true end)
    (w_rand (demo_world demo_db 0)) = true) as Hb by (vm_compute; reflexivity).
  unfold random_bytes. rewrite forallb_forall in Hb. apply Forall_forall. intros o Ho.
  apply list_elem_of_In, Hb in Ho. destruct o as [bs|]; [|done]. rewrite forallb_forall in Ho.
  apply Forall_forall. intros b Hin. apply N.ltb_lt, Ho. by apply list_elem_of_In.
Qed.

Lemma parsePHC_phc_witness :
  parsePHC (phc 65536 3 4 [1; 2; 3]%N [250; 0; 7; 9]%N) =
  Some {| ph_memoryKiB := 65536; ph_iterations := 3; ph_threads := 4; ph_salt := [1; 2; 3]; ph_hash := [250; 0; 7; 9] |}%N.
Proof. apply (parsePHC_phc 65536 3 4); try reflexivity; by repeat constructor. Defined.

(** A gate of two slots, on channel 0. *)
Definition demo_gate : World := set_chans [{| ch_cap := 2; ch_len := 0 |}] (demo_world demo_db 0).

Lemma hash_then_verify_witness :
  match solo (HashPassword demo_IDKey (Some 0) Second "correct horse") demo_gate with
  | Some (Ok h, w1) =>
      match solo (VerifyPassword demo_IDKey (Some 0) Second "correct horse" h) w1 with
      | Some (Ok b, _) => NeedsRehash h = false ∧ b = true
      | _ => False
      end
  | _ => False
  end.
Proof.
  assert (match solo (HashPassword demo_IDKey (Some 0) Second "correct horse") demo_gate with
          | Some (Ok h, w1) => match solo (VerifyPassword demo_IDKey (Some 0) Second "correct horse" h) w1 with
                               | Some (Ok _, _) => true | _ => false end
          | _ => false end = true) as Hrun by (vm_compute; reflexivity).
  destruct (solo (HashPassword demo_IDKey (Some 0) Second "correct horse") demo_gate) as [[[h|e] w1]|] eqn:E1;
    [|discriminate Hrun..].
  destruct (solo (VerifyPassword demo_IDKey (Some 0) Second "correct horse" h) w1) as [[[b|e] w2]|] eqn:E2;
    [|discriminate Hrun..].
  destruct (hash_then_verify demo_IDKey (Some 0) Second eq "correct horse" "correct horse" h demo_gate w1 w1 w2 (Ok b)
    demo_derives_bytes (λ w w' Hw E, eq_rect w random_bytes Hw w' E) demo_random_bytes
    (solo_amid _ _ _ _ _ E1) eq_refl (solo_amid _ _ _ _ _ E2)) as (Hn & salt & _ & _ & Hb).
  split; [exact Hn|exact (Hb eq_refl)].
Defined.

Definition demo_hash_threads : list (prog World unit) :=
  repeat (forget (HashPassword demo_IDKey (Some 0) Second "correct horse")) 3.

(** Three requests at a gate of two slots: two are deriving, the third waits. *)
Lemma gate_bounds_derivations_witness :
  match exec [0; 1; 2; 0; 0; 1; 1] demo_hash_threads demo_gate with
  | Some (_, w') => (0 ≤ w_hash w' ≤ 2)%Z
  | None => False
  end.
Proof.
  assert (match exec [0; 1; 2; 0; 0; 1; 1] demo_hash_threads demo_gate with Some (_, w') => (w_hash w' =? 2)%Z | None => false end = true)
    as Hrun by (vm_compute; reflexivity).
  destruct (exec [0; 1; 2; 0; 0; 1; 1] demo_hash_threads demo_gate) as [[ps' w']|] eqn:E; [|discriminate Hrun].
  assert (Forall (hash_program demo_IDKey 0 Second) demo_hash_threads) as Hps
    by (unfold demo_hash_threads; repeat apply Forall_cons_2; [apply hp_hash..|apply Forall_nil_2]).
  exact (proj1 (gate_bounds_derivations demo_IDKey 0 2 Second demo_hash_threads ps' demo_gate w' Hps eq_refl eq_refl
    (exec_sound _ _ _ _ _ E))).
Defined.
