(* ===== verification/SessionRules.v ===== *)
(** * The session index

    Every live session is listed under its user, in a set that outlives it: that
    is what makes "revoke every session of a user" find them all.  This file
    proves it of each command pipeline; [AuthRules] of their interleavings. *)

From S2P Require Import Prelude Interleave Text Env Redis Sessions.

Section Index.
Context {L : Libs} (ttl : duration) (Httl : (0 < ttl)%Z).

(** The token is listed for the user until [te] at least. *)
Definition listed (r : RedisState) (t : string) (te : time) (u : uuid) : Prop :=
  ∃ S te', rd_users r !! u = Some (S, Some te') ∧ t ∈ S ∧ (te ≤ te')%Z.

Definition index_ok (now : time) (r : RedisState) : Prop :=
  ∀ t h e, rd_sess r !! t = Some (h, e) → unexpired now e = true →
    ∃ u te, e = Some te ∧ sh_UserID h = uuid_String u ∧ (te ≤ now + ttl)%Z ∧ listed r t te u.

Lemma index_ok_tick now now' r : (now ≤ now')%Z → index_ok now r → index_ok now' r.
Proof.
  intros Hle HI t h e Ht He. destruct (HI t h e Ht (unexpired_mono _ _ _ Hle He)) as (u & te & -> & Hu & Hte & Hl).
  exists u, te. split_and!; [done|done|lia|done].
Qed.

(** A live session's set is live too. *)
Lemma listed_fetch now r t te u :
  listed r t te u → (now < te)%Z → ∃ S te', rd_users r !! u = Some (S, Some te') ∧ fetch now (rd_users r) u = Some S ∧ t ∈ S.
Proof.
  intros (S & te' & Hu & Ht & Hle) Hnow. exists S, te'. split_and!; [done| |done].
  unfold fetch. rewrite Hu. unfold unexpired. by rewrite (proj2 (Z.ltb_lt now te')) by lia.
Qed.

(** SADD and EXPIRE with twice the TTL: the token is listed, and nobody is unlisted. *)
Lemma index_session_users now t u r :
  ∃ S, rd_users (index_session ttl now t u r) !! u = Some (S, Some (now + ttl * 2)%Z) ∧
       t ∈ S ∧ (∀ S0, fetch now (rd_users r) u = Some S0 → S0 ⊆ S).
Proof.
  unfold index_session. cbn [on_users rd_users].
  exists ({[t]} ∪ default ∅ (fetch now (rd_users r) u)). split_and!.
  - apply expire_lookup. unfold sadd. by rewrite fetch_upsert.
  - set_solver.
  - intros S0 ->. set_solver.
Qed.
Lemma index_session_other now t u u' r :
  u ≠ u' → rd_users (index_session ttl now t u r) !! u' = rd_users r !! u'.
Proof.
  intros Hne. unfold index_session. cbn [on_users rd_users].
  rewrite expire_ne by done. unfold sadd. by rewrite upsert_ne.
Qed.
Lemma index_session_sess now t u r : rd_sess (index_session ttl now t u r) = rd_sess r.
Proof. done. Qed.

Lemma listed_index_session now t u r t' te' u' :
  listed r t' te' u' → (now < te' ≤ now + ttl)%Z → listed (index_session ttl now t u r) t' te' u'.
Proof using Httl.
  intros Hl Hte. destruct (listed_fetch now _ _ _ _ Hl) as (S & te & Hu & Hf & Ht); [lia|].
  destruct (decide (u = u')) as [->|Hne].
  - destruct (index_session_users now t u' r) as (S' & HS' & _ & Hsub).
    exists S', (now + ttl * 2)%Z. split_and!; [done| |lia]. by apply (Hsub S).
  - destruct Hl as (S1 & te1 & Hu1 & Ht1 & Hle1). exists S1, te1. by rewrite index_session_other.
Qed.

Lemma live_expiry now te : unexpired now (Some te) = true → (now < te)%Z.
Proof. unfold unexpired. by rewrite Z.ltb_lt. Qed.

(** A new session. *)
Lemma store_session_sess now s r :
  rd_sess r !! s_Token s = None →
  rd_sess (store_session ttl now s r) = <[s_Token s := (session_hash s, Some (now + ttl)%Z)]> (rd_sess r).
Proof.
  intros Hfresh. unfold store_session. rewrite index_session_sess. cbn [on_sess rd_sess].
  unfold upsert, expire, fetch. rewrite Hfresh, lookup_insert_eq. cbn [unexpired]. by rewrite insert_insert_eq.
Qed.
Lemma index_ok_store now s r :
  index_ok now r → rd_sess r !! s_Token s = None → index_ok now (store_session ttl now s r).
Proof using Httl.
  intros HI Hfresh t h e Ht He. rewrite store_session_sess in Ht by done. unfold store_session.
  set (r1 := on_sess _ (on_sess _ r)) in *.
  destruct (decide (t = s_Token s)) as [->|Hne].
  - rewrite lookup_insert_eq in Ht. injection Ht as <- <-. exists (s_UserID s), (now + ttl)%Z.
    split_and!; [done|done|lia|].
    destruct (index_session_users now (s_Token s) (s_UserID s) r1) as (S & HS & Hin & _).
    exists S, (now + ttl * 2)%Z. split_and!; [done|done|lia].
  - rewrite lookup_insert_ne in Ht by done.
    destruct (HI t h e Ht He) as (u & te & -> & Hu & Hte & Hl). exists u, te. split_and!; [done..|].
    apply listed_index_session; [done|]. apply live_expiry in He. lia.
Qed.

(** A refreshed session, by a caller who read its user. *)
Lemma index_ok_refresh now t u r :
  index_ok now r → (∀ h e, rd_sess r !! t = Some (h, e) → sh_UserID h = uuid_String u) →
  index_ok now (refresh_session ttl now t u r).
Proof using Httl.
  intros HI Hown t' h e Ht He. unfold refresh_session in *. rewrite index_session_sess in Ht.
  cbn [on_sess rd_sess] in Ht. destruct (decide (t' = t)) as [->|Hne].
  - unfold expire, fetch in Ht. destruct (rd_sess r !! t) as [[h0 e0]|] eqn:E; [|congruence].
    destruct (unexpired now e0) eqn:E0; cbn beta iota in Ht.
    + rewrite lookup_insert_eq in Ht. injection Ht as -> <-. exists u, (now + ttl)%Z.
      split_and!; [done|by eapply Hown|lia|].
      destruct (index_session_users now t u (on_sess (expire now ttl t) r)) as (S & HS & Hin & _).
      exists S, (now + ttl * 2)%Z. split_and!; [done|done|lia].
    + rewrite E in Ht. injection Ht as -> ->. congruence.
  - rewrite expire_ne in Ht by done. destruct (HI t' h e Ht He) as (u' & te & -> & Hu & Hte & Hl).
    exists u', te. split_and!; [done..|]. apply listed_index_session; [done|]. apply live_expiry in He. lia.
Qed.

(** A dropped session: gone, and nobody else unlisted. *)
Lemma drop_session_sess now u t r : rd_sess (drop_session now u t r) = delete t (rd_sess r).
Proof. done. Qed.
Lemma listed_drop now u t r t' te u' :
  listed r t' te u' → (now < te)%Z → t' ≠ t → listed (drop_session now u t r) t' te u'.
Proof.
  intros (S & te' & Hu & Ht & Hle) Hnow Hne. unfold drop_session, listed. cbn [on_users on_sess rd_users].
  destruct (decide (u = u')) as [->|Hneu].
  - exists (S ∖ {[t]}), te'. split_and!; [|set_solver|done]. unfold srem. rewrite Hu. cbn [unexpired].
    rewrite (proj2 (Z.ltb_lt now te')) by lia. rewrite bool_decide_eq_true_2 by set_solver.
    cbn [andb]. by rewrite lookup_insert_eq.
  - exists S, te'. split_and!; [|done|done]. unfold srem.
    destruct (rd_users r !! u) as [[S1 e1]|]; [|done].
    destruct (_ && _); by rewrite ?lookup_insert_ne, ?lookup_delete_ne.
Qed.
Lemma index_ok_drop now u t r : index_ok now r → index_ok now (drop_session now u t r).
Proof.
  intros HI t' h e Ht He. rewrite drop_session_sess in Ht. apply lookup_delete_Some in Ht as [Hne Ht].
  destruct (HI t' h e Ht He) as (u' & te & -> & Hu & Hte & Hl). exists u', te. split_and!; [done..|].
  apply live_expiry in He. apply listed_drop; [done|done|congruence].
Qed.

Lemma drop_sessions_sess now u keep ts r t :
  rd_sess (drop_sessions now u keep ts r) !! t =
  if decide (t ∈ ts ∧ t ≠ keep) then None else rd_sess r !! t.
Proof.
  unfold drop_sessions. revert r; induction ts as [|t0 ts IH]; intros r; cbn [foldl].
  { rewrite decide_False; [done|]. intros [Hin _]. by apply not_elem_of_nil in Hin. }
  rewrite IH. destruct (decide (t0 = keep)) as [->|Hk].
  - apply decide_ext. rewrite elem_of_cons. naive_solver.
  - destruct (decide (t ∈ ts ∧ t ≠ keep)) as [Ht|Ht].
    + rewrite decide_True; [done|]. rewrite elem_of_cons. naive_solver.
    + rewrite drop_session_sess. destruct (decide (t = t0)) as [->|Hne].
      * rewrite lookup_delete_eq, decide_True; [done|]. rewrite elem_of_cons. naive_solver.
      * rewrite lookup_delete_ne by done. rewrite decide_False; [done|]. rewrite elem_of_cons. naive_solver.
Qed.
Lemma index_ok_drops now u keep ts r : index_ok now r → index_ok now (drop_sessions now u keep ts r).
Proof.
  unfold drop_sessions. revert r; induction ts as [|t ts IH]; intros r HI; [done|].
  cbn [foldl]. apply IH. destruct (decide (t = keep)); [done|by apply index_ok_drop].
Qed.

(** Every live session of the user is among the members read. *)
Lemma index_ok_members now r t h e u :
  index_ok now r → rd_sess r !! t = Some (h, e) → unexpired now e = true → sh_UserID h = uuid_String u →
  t ∈ smembers now (rd_users r) u.
Proof.
  intros HI Ht He Hu. destruct (HI t h e Ht He) as (u' & te & -> & Hu' & Hte & Hl).
  rewrite Hu in Hu'. apply (inj uuid_String) in Hu' as <-. apply live_expiry in He.
  destruct (listed_fetch now _ _ _ _ Hl He) as (S & te' & _ & Hf & Hin).
  unfold smembers. rewrite Hf. by apply elem_of_elements.
Qed.
End Index.
