(* ===== verification/ExternalAuth.v ===== *)
(** * The auth return path ([internal/auth/external.go])

    What an external provider's assertion may become: a bound account, an account
    matched by a verified email, a new account of the lowest role, or a rejection. *)

From Stdlib Require Import Ascii.
From S2P Require Import Prelude Text Env Store Users.

Inductive ProvisionPolicy := ProvisionOpen | ProvisionInviteOnly | ProvisionOff.
#[export] Instance ProvisionPolicy_eq_dec : EqDecision ProvisionPolicy.
Proof. solve_decision. Defined.
Definition policy_string (p : ProvisionPolicy) : string :=
  match p with ProvisionOpen => "open" | ProvisionInviteOnly => "invite-only" | ProvisionOff => "off" end.

Record ExternalIdentity := {
  x_Subject : string; x_Email : string; x_Username : string; x_EmailVerified : bool;
  x_Claims : gmap string string
}.

Definition reservedClaimKeys : list string :=
  ["admin"; "is_admin"; "isadmin"; "role"; "roles"; "user_id"; "userid"; "uid"; "scope"; "scopes";
   "banned"; "hidden"].
Definition maxSubjectLen : nat := 255.
Definition roleParticipant : string := "user".
Definition noPasswordHash : string := "!".
Definition usernameMinLen : nat := 3.
Definition usernameMaxLen : nat := 32.
Definition provisionAttempts : nat := 8.

(** [^[a-zA-Z0-9_.-]+$], character by character. *)
Definition username_char (c : ascii) : bool :=
  let n := nat_of_ascii c in
  (((97 <=? n) && (n <=? 122)) || ((65 <=? n) && (n <=? 90)) || ((48 <=? n) && (n <=? 57)) ||
   (n =? 95) || (n =? 46) || (n =? 45))%nat.
Definition usernameRe (s : string) : bool :=
  negb (bool_decide (s = "")) && forallb username_char (to_bytes s).

Definition sanitizeUsername (s : string) : string :=
  let kept := List.filter username_char (to_bytes (TrimSpace s)) in
  let out := of_bytes (take usernameMaxLen kept) in
  if ((String.length out <? usernameMinLen)%nat || negb (usernameRe out)) then "" else out.

Definition candidateUsername (base : string) (attempt : nat) : string :=
  match attempt with
  | O => base
  | _ =>
      let suffix := "-"%char :: decimal (N.of_nat (attempt + 1)) in
      let b := to_bytes base in
      let b := if (usernameMaxLen <? length b + length suffix)%nat
               then take (usernameMaxLen - length suffix) b else b in
      of_bytes (b ++ suffix)
  end.

Section Resolve.
Context {L : Libs}.

Definition ParseProvisionPolicy (s : string) : res ProvisionPolicy :=
  let p := ToLower (TrimSpace s) in
  if decide (p = "open") then Ok ProvisionOpen
  else if decide (p = "invite-only") then Ok ProvisionInviteOnly
  else if decide (p = "off") then Ok ProvisionOff
  else Err (ErrOther "auth: unknown provisioning policy").

Context (policy : ProvisionPolicy).

Definition claim_key (k : string) : string := ToLower (TrimSpace k).
Definition reserved_claim (claims : gmap string string) : option string :=
  List.find (λ k, bool_decide (k ∈ reservedClaimKeys)) (map claim_key ((map_to_list claims).*1)).

Definition reject {F} `{MonadErr F} {A} (reason : string) : F A := throw (Rejection reason).

Definition bind_identity (provider subject : string) (user : uuid) : P World unit :=
  r ← try (atomic (CreateAuthIdentity provider subject user));
  match r with
  | Ok _ => mret tt
  | Err e => if is_Some_b (unique_violation e) then mret tt
             else throw (Wrap "auth: binding external identity" e)
  end.

(** The part of an email before the first [@], when it is not empty. *)
Fixpoint local_part (l : list ascii) : option (list ascii) :=
  match l with
  | [] => None
  | c :: l => if Ascii.eqb c "@" then Some [] else cons c <$> local_part l
  end.

Definition base_username (email suggested : string) : string :=
  let base := sanitizeUsername suggested in
  let base := if decide (base = "") then
                match local_part (to_bytes email) with
                | Some (_ :: _ as l) => sanitizeUsername (of_bytes l)
                | _ => ""
                end
              else base in
  if decide (base = "") then "user" else base.

Definition adopt (provider subject : string) (u : User) : P World User :=
  if u_Banned u then reject "matched account is banned"
  else bind_identity provider subject (u_ID u);; mret u.

Fixpoint provision_from (n : nat) (provider subject email base : string) (attempt : nat) : P World User :=
  match n with
  | O => reject "could not derive an unused username"
  | S n =>
      id ← map_err (Wrap "auth: generating user id") (atomic NewV7);
      r ← try (atomic (CreateUser id (candidateUsername base attempt) email noPasswordHash
                        roleParticipant false));
      match r with
      | Ok u => bind_identity provider subject (u_ID u);; mret u
      | Err e =>
          if negb (is_Some_b (unique_violation e)) then throw (Wrap "auth: provisioning user" e) else
          g ← try (atomic (GetUserByEmail email));
          match g with
          | Ok existing => adopt provider subject existing
          | Err ge =>
              if is_no_rows ge then provision_from n provider subject email base (S attempt)
              else throw (Wrap "auth: re-checking email after conflict" ge)
          end
      end
  end.

Definition provision (provider subject email suggested : string) : P World User :=
  provision_from provisionAttempts provider subject email (base_username email suggested) 0.

Definition resolve (provider : string) (id : ExternalIdentity) : P World User :=
  if decide (TrimSpace provider = "") then reject "empty provider name" else
  let subject := TrimSpace (x_Subject id) in
  if decide (subject = "") then reject "identity carries no subject" else
  if (maxSubjectLen <? String.length subject)%nat then reject "subject exceeds the maximum length" else
  match reserved_claim (x_Claims id) with
  | Some k => reject ("claims carry the reserved key " +:+ k)
  | None =>
      r ← try (atomic (GetAuthIdentity provider subject));
      match r with
      | Ok ai =>
          u ← map_err (Wrap "auth: loading bound user") (atomic (GetUserByID (ai_UserID ai)));
          if u_Banned u then reject "bound account is banned" else mret u
      | Err e =>
          if negb (is_no_rows e) then throw (Wrap "auth: looking up external identity" e) else
          if decide (policy = ProvisionOff) then reject "identity is not bound and provisioning is off" else
          let email := ToLower (TrimSpace (x_Email id)) in
          if decide (email = "") then reject "identity is not bound and carries no email" else
          if negb (x_EmailVerified id) then reject "identity is not bound and its email is not provider-verified" else
          if negb (mail_ParseAddress email) || ContainsAny email " <>"
          then reject "identity is not bound and its email is malformed" else
          m ← try (atomic (GetUserByEmail email));
          match m with
          | Ok u => adopt provider subject u
          | Err e =>
              if negb (is_no_rows e) then throw (Wrap "auth: looking up user by email" e) else
              if decide (policy = ProvisionOpen) then provision provider subject email (x_Username id)
              else reject ("no account for this verified email and policy is " +:+ policy_string policy)
          end
      end
  end.

(** A rejection is logged (without the identity), every error is passed on. *)
Definition is_rejection (e : error) : option string :=
  match cause e with Rejection r => Some r | _ => None end.
Definition Resolve (provider : string) (id : ExternalIdentity) : P World User :=
  r ← try (resolve provider id);
  match r with
  | Ok u => mret u
  | Err e =>
      (if is_Some_b (is_rejection e) then atomic (emit (Log "WARN" "external login rejected")) else mret tt);;
      throw e
  end.
End Resolve.
