(* ===== verification/ExternalAuthRules.v ===== *)
(** * The guarantees of the auth return path

    Step by step under any interleaving, and on every outcome of one login. *)

From S2P Require Import Prelude Interleave Text Env Demo Store Users ExternalAuth.

Section Rules.
Context {L : Libs}.

(** ** Every step, under every interleaving *)

(** What external logins may do to the tables: add accounts of the lowest role that
    cannot be logged into by password, and add bindings of unbound subjects. *)
Record grants_nothing (d d' : DB) : Prop := {
  gn_users_kept : ∀ id u, users d !! id = Some u → users d' !! id = Some u;
  gn_users_new : ∀ id u, users d' !! id = Some u → users d !! id = Some u ∨
    (users d !! id = None ∧ u_ID u = id ∧ u_Role u = roleParticipant ∧
     u_PasswordHash u = noPasswordHash ∧ u_Banned u = false);
  gn_bindings_kept : ∀ k ai, identities d !! k = Some ai → identities d' !! k = Some ai;
  gn_rest : teams d' = teams d ∧ members d' = members d ∧ event d' = event d ∧
    challenges d' = challenges d ∧ submissions d' = submissions d ∧ instances d' = instances d ∧
    tokens d' = tokens d
}.

#[local] Instance grants_nothing_refl : Reflexive grants_nothing.
Proof. intros d. split; auto 10. Qed.

Definition any (d : DB) : Prop := True.
Abbreviation J := (dbi any).
Abbreviation R := (dbr grants_nothing).

Lemma CreateUser_grants id username email d d' u :
  guarded (user_checks None
      {| u_ID := id; u_Username := username; u_Email := email; u_PasswordHash := noPasswordHash;
         u_Role := roleParticipant; u_Banned := false; u_Hidden := false |} d)
    (Ok {| u_ID := id; u_Username := username; u_Email := email; u_PasswordHash := noPasswordHash;
         u_Role := roleParticipant; u_Banned := false; u_Hidden := false |},
     set_users (<[id := {| u_ID := id; u_Username := username; u_Email := email;
       u_PasswordHash := noPasswordHash; u_Role := roleParticipant; u_Banned := false; u_Hidden := false |}]>
       (users d)) d) d = (Ok u, d') →
  users d !! id = None ∧ d' = set_users (<[id := u]> (users d)) d ∧ u_ID u = id ∧
  u_Role u = roleParticipant ∧ u_PasswordHash u = noPasswordHash ∧ u_Banned u = false ∧ u_Email u = email ∧
  u_Username u = username ∧ u_Hidden u = false.
Proof.
  intros (Hc & -> & ->)%guarded_ok. unfold user_checks in Hc. rewrite !Forall_cons in Hc.
  cbn [fst checked unique is_Some_b negb andb u_ID] in Hc.
  destruct Hc as (_ & _ & Hpk & _). apply is_Some_b_false in Hpk. by split_and!.
Qed.

Lemma set_users_grants d id u :
  users d !! id = None → u_ID u = id → u_Role u = roleParticipant → u_PasswordHash u = noPasswordHash →
  u_Banned u = false → grants_nothing d (set_users (<[id := u]> (users d)) d).
Proof.
  intros Hnew Hid Hrole Hpw Hban. split; simpl; auto 10.
  - intros i v Hv. rewrite lookup_insert_ne; [done|]. congruence.
  - intros i v [[<- <-]|[_ ?]]%lookup_insert_Some; [right; auto|by left].
Qed.

Lemma set_identities_grants d k ai :
  identities d !! k = None → grants_nothing d (set_identities (<[k := ai]> (identities d)) d).
Proof.
  intros Hnew. split; simpl; auto 10.
  intros i v Hv. rewrite lookup_insert_ne; [done|]. congruence.
Qed.

Lemma ext_select {A} (f : DB → res A) : all_respect J R (atomic (select f)).
Proof. apply all_respect_atomic, respects_select, _. Qed.
Lemma ext_NewV7 : all_respect J R (atomic NewV7).
Proof. apply all_respect_atomic, respects_NewV7, _. Qed.
Lemma ext_emit e : all_respect J R (atomic (emit e)).
Proof. apply all_respect_atomic, respects_same; [apply _|done]. Qed.
Lemma ext_create id username email :
  all_respect J R (atomic (CreateUser id username email noPasswordHash roleParticipant false)).
Proof.
  apply all_respect_atomic, respects_query; [apply _|]. intros now d u d' _ E.
  apply CreateUser_grants in E as (Hnew & -> & Hid & Hrole & Hpw & Hban & _).
  split; [done|by apply set_users_grants].
Qed.
Lemma ext_bind p s u : all_respect J R (atomic (CreateAuthIdentity p s u)).
Proof.
  apply all_respect_atomic, respects_query; [apply _|]. intros now d ai d' _ (Hc & -> & ->)%guarded_ok.
  rewrite !Forall_cons in Hc. destruct Hc as (Hk & _). apply is_Some_b_false in Hk.
  split; [done|by apply set_identities_grants].
Qed.
#[local] Hint Resolve ext_select ext_NewV7 ext_emit ext_create ext_bind : resp.
#[local] Hint Extern 2 (all_respect _ _ (atomic (select _))) => (apply ext_select) : resp.

Lemma ext_adopt p s u : all_respect J R (adopt p s u).
Proof. unfold adopt, bind_identity, reject. by respect. Qed.
#[local] Hint Resolve ext_adopt : resp.

Lemma ext_provision n p s email base k : all_respect J R (provision_from n p s email base k).
Proof.
  revert k; induction n as [|n IH]; intros k; [done|].
  cbn [provision_from]. unfold bind_identity, GetUserByEmail, reject.
  by respect.
Qed.
#[local] Hint Resolve ext_provision : resp.

Lemma ext_Resolve policy provider id : all_respect J R (Resolve policy provider id).
Proof.
  unfold Resolve, resolve, GetAuthIdentity, GetUserByID, GetUserByEmail, provision, reject.
  by respect.
Qed.

(** C14: However many external logins run at once, whatever the providers claim,
    under every policy and with any queries failing: no step ever changes an
    existing account (its role, its ban, its password) or an existing binding, and
    every account a step adds has the lowest role and a password hash no password
    matches. *)
Theorem external_logins_grant_nothing (ps1 ps2 : list (prog World unit)) (w w1 w2 : World)
    (logins : list (ProvisionPolicy * (string * ExternalIdentity)))
    (H1 : rtc pool_step (map (λ l, forget (Resolve l.1 l.2.1 l.2.2)) logins, w) (ps1, w1))
    (H2 : pool_step (ps1, w1) (ps2, w2)) :
  grants_nothing (w_db w1) (w_db w2).
Proof.
  destruct (all_respect_pool J R (map (λ l, forget (Resolve l.1 l.2.1 l.2.2)) logins) ps1 ps2 w w1 w2) as [_ HR]; [| |exact H1|exact H2|].
  - apply Forall_fmap, Forall_true. intros l. apply all_respect_forget, ext_Resolve.
  - done.
  - destruct HR as [->|HR]; [reflexivity|exact HR].
Qed.

(** ** The outcome of one login *)

(** A database error is not a rejection. *)
Lemma query_not_rejection {A} (f : time → DB → res A * DB) w e w' :
  query f w = (Err e, w') →
  (∀ now d e d', f now d = (Err e, d') → is_rejection e = None) → is_rejection e = None.
Proof.
  unfold query, mbind, M_bind, next_fault. intros E Hf.
  destruct (w_faults w) as [|[] fs]; simpl in E; [|by injection E as <- _|];
    (destruct (f _ _) as [[a|e'] d] eqn:Ef; [done|]); injection E as <- _; by eapply Hf.
Qed.

Lemma guarded_not_rejection {A} cs (r : res A * DB) d e d' :
  Forall (λ c, is_rejection c.2 = None) cs → (∀ e d', r ≠ (Err e, d')) →
  guarded cs r d = (Err e, d') → is_rejection e = None.
Proof.
  intros Hcs Hr. unfold guarded. destruct (first_violation cs) as [v|] eqn:E; [|by intros []%Hr].
  intros [= <- _]. induction Hcs as [|[b x] cs Hx Hcs IH]; [done|]. simpl in E.
  destruct b; [by injection E as <-|by apply IH].
Qed.

Section Login.
Context (policy : ProvisionPolicy) (provider : string) (id : ExternalIdentity).

Definition subject_of : string := TrimSpace (x_Subject id).
Definition email_of : string := ToLower (TrimSpace (x_Email id)).

Definition claim_ok : Prop :=
  TrimSpace provider ≠ "" ∧ subject_of ≠ "" ∧ String.length subject_of ≤ maxSubjectLen ∧
  reserved_claim (x_Claims id) = None.

Definition bound (u : uuid) (d : DB) : DB :=
  set_identities (<[(provider, subject_of) :=
    {| ai_Provider := provider; ai_Subject := subject_of; ai_UserID := u |}]> (identities d)) d.
Definition with_user (u : User) (d : DB) : DB := set_users (<[u_ID u := u]> (users d)) d.

(** A provisioned account: a new row of the lowest role, for the verified email,
    with a name derived from the suggestion. *)
Definition provisioned (d : DB) (u : User) : Prop :=
  users d !! u_ID u = None ∧ u_Role u = roleParticipant ∧ u_PasswordHash u = noPasswordHash ∧
  u_Email u = email_of ∧ u_Banned u = false ∧
  ∃ k, k < provisionAttempts ∧ u_Username u = candidateUsername (base_username email_of (x_Username id)) k.

(** Who may be logged in, and what the login leaves behind. *)
Inductive login_as (d : DB) (u : User) : DB → Prop :=
  | login_bound ai :
      identities d !! (provider, subject_of) = Some ai → users d !! ai_UserID ai = Some u →
      login_as d u d
  | login_matched :
      policy ≠ ProvisionOff → x_EmailVerified id = true → email_of ≠ "" →
      identities d !! (provider, subject_of) = None → user_by_email d email_of = Some u →
      login_as d u (bound (u_ID u) d)
  | login_provisioned :
      policy = ProvisionOpen → x_EmailVerified id = true → email_of ≠ "" →
      identities d !! (provider, subject_of) = None → user_by_email d email_of = None →
      provisioned d u → login_as d u (bound (u_ID u) (with_user u d)).

(** A failed login: a rejection leaves no trace, any other error at most an
    account without a binding. *)
Definition login_failed (d : DB) (e : error) (d' : DB) : Prop :=
  (is_Some (is_rejection e) → d' = d) ∧
  (d' = d ∨ (policy = ProvisionOpen ∧ ∃ u, provisioned d u ∧ d' = with_user u d)).

Lemma failed_same d e : login_failed d e d.
Proof. split; [done|by left]. Qed.

Lemma bind_identity_run u w r w' :
  identities (w_db w) !! (provider, subject_of) = None →
  run (bind_identity provider subject_of u) w = Some (r, w') →
  match r with
  | Ok _ => w_db w' = bound u (w_db w)
  | Err e => w_db w' = w_db w ∧ is_rejection e = None
  end.
Proof.
  intros Hnone (r1 & w2 & Ec & E)%run_bind_try. destruct r1 as [ai|e].
  - injection E as <- <-. apply query_ok in Ec as (Ec & _). by apply guarded_ok in Ec as (_ & _ & ->).
  - pose proof Ec as Er. unfold CreateAuthIdentity in Er. apply query_not_rejection in Er;
      [|intros now d e' d'; apply guarded_not_rejection; [by repeat constructor|done]].
    same_tables Ec as Hd.
    destruct (unique_violation e) eqn:Eu; simpl in E; injection E as <- <-.
    + exfalso. revert Ec Eu. unfold CreateAuthIdentity, query, mbind, M_bind, next_fault.
      destruct (w_faults w) as [|[] fs]; simpl; rewrite ?Hnone; [|intros [= <- _]; vm_compute; discriminate|];
        (destruct (users (w_db w) !! u); simpl; [discriminate|intros [= <- _]; vm_compute; discriminate]).
    + by split.
Qed.

Lemma adopt_run u w r w' :
  identities (w_db w) !! (provider, subject_of) = None →
  run (adopt provider subject_of u) w = Some (r, w') →
  match r with
  | Ok u' => u' = u ∧ u_Banned u = false ∧ w_db w' = bound (u_ID u) (w_db w)
  | Err e => w_db w' = w_db w
  end.
Proof.
  intros Hnone E. unfold adopt in E. destruct (u_Banned u); [by injection E as <- <-|].
  apply run_bind_inv in E as [([] & w1 & E1 & E)|(e & E1 & ->)]; apply bind_identity_run in E1; try done.
  - by injection E as <- <-.
  - by destruct E1.
Qed.

Lemma NewV7_db w r w' : NewV7 w = (r, w') → w_db w' = w_db w.
Proof. unfold NewV7. destruct (w_uuids w) as [|[v|] us]; by intros [= <- <-]. Qed.

Lemma provision_run n k w r w' :
  n + k = provisionAttempts →
  policy = ProvisionOpen → identities (w_db w) !! (provider, subject_of) = None →
  user_by_email (w_db w) email_of = None →
  run (provision_from n provider subject_of email_of (base_username email_of (x_Username id)) k) w = Some (r, w') →
  match r with
  | Ok u => provisioned (w_db w) u ∧ w_db w' = bound (u_ID u) (with_user u (w_db w))
  | Err e => login_failed (w_db w) e (w_db w')
  end.
Proof.
  intros Hnk Hpol Hnone Hmail. revert k w Hnk Hnone Hmail.
  induction n as [|n IH]; intros k w Hnk Hnone Hmail E.
  { injection E as <- <-. apply failed_same. }
  cbn [provision_from] in E.
  apply run_bind_map_err in E as [(uid & w1 & E1%NewV7_db & E)|(e & E1%NewV7_db & ->)].
  2: { rewrite E1. apply failed_same. }
  apply run_bind_try in E as (c & w3 & Ec & E). destruct c as [u|e].
  - apply query_ok in Ec as (Ec & _). rewrite E1 in Ec.
    apply CreateUser_grants in Ec as (Hnew & Ed3 & Hid & Hrole & Hpw & Hban & Hem & Hun & _).
    rewrite <- Hid in Hnew, Ed3. change (w_db w3 = with_user u (w_db w)) in Ed3.
    assert (provisioned (w_db w) u) as Hp.
    { split_and!; try done. exists k. split; [lia|done]. }
    apply run_bind_inv in E as [([] & w4 & E4 & E)|(e & E4 & ->)];
      (apply bind_identity_run in E4; [|by rewrite Ed3]).
    + injection E as <- <-. by rewrite E4, Ed3.
    + destruct E4 as [E4 Hrej]. split; [by rewrite Hrej; intros []|]. right. split; [done|].
      exists u. by rewrite E4.
  - same_tables Ec as Ed3. rewrite E1 in Ed3.
    destruct (negb _).
    { injection E as <- <-. rewrite Ed3. apply failed_same. }
    apply run_bind_try in E as (g & w5 & Eg & E). destruct g as [u|ge].
    + apply select_ok in Eg as (Eg & _). by rewrite Ed3, Hmail in Eg.
    + same_tables Eg as Ed5. rewrite Ed3 in Ed5.
      destruct (is_no_rows ge).
      * rewrite <- Ed5 in *. eapply (IH (S k)); [lia|done..].
      * injection E as <- <-. rewrite Ed5. apply failed_same.
Qed.

(** No row was found: the query says so only of the table it read. *)
Lemma select_no_rows {A} (f : DB → option A) w e w' :
  select (λ d, one (f d)) w = (Err e, w') → is_no_rows e = true → f (w_db w) = None.
Proof.
  unfold select, query, mbind, M_bind, next_fault.
  destruct (w_faults w) as [|[] fs]; simpl; [| |]; try (intros [= <- _]; vm_compute; discriminate);
    destruct (f (w_db w)); [discriminate|done|discriminate|done].
Qed.

Lemma resolve_run w r w' :
  run (resolve policy provider id) w = Some (r, w') →
  match r with
  | Ok u => claim_ok ∧ u_Banned u = false ∧ login_as (w_db w) u (w_db w')
  | Err e => login_failed (w_db w) e (w_db w')
  end.
Proof.
  unfold resolve. destruct (decide (TrimSpace provider = "")) as [|Hp]; [intros [= <- <-]; apply failed_same|].
  fold subject_of. fold email_of.
  destruct (decide (subject_of = "")) as [|Hs]; [intros [= <- <-]; apply failed_same|].
  destruct (Nat.ltb_spec maxSubjectLen (String.length subject_of)) as [|Hlen]; [intros [= <- <-]; apply failed_same|].
  destruct (reserved_claim (x_Claims id)) eqn:Hclaim; [intros [= <- <-]; apply failed_same|].
  assert claim_ok as Hok by done.
  intros (r0 & w1 & E1 & E)%run_bind_try. destruct r0 as [ai|e1].
  - apply select_ok in E1 as (Eai & Ed & _).
    assert (identities (w_db w) !! (provider, subject_of) = Some ai) as Hai
      by (destruct (identities (w_db w) !! (provider, subject_of)); by simplify_eq/=).
    apply run_bind_map_err in E as [(u & w2 & E2 & E)|(e & E2 & ->)].
    2: { same_tables E2 as Ed2. rewrite Ed2, Ed. apply failed_same. }
    apply select_ok in E2 as (Eu & Ed2 & _). rewrite Ed in Eu, Ed2.
    assert (users (w_db w) !! ai_UserID ai = Some u) as Hu
      by (destruct (users (w_db w) !! ai_UserID ai); by simplify_eq/=).
    destruct (u_Banned u) eqn:Hb; injection E as <- <-; rewrite Ed2; [apply failed_same|].
    split_and!; [done..|]. by eapply login_bound.
  - same_tables E1 as Ed. destruct (is_no_rows e1) eqn:Hnr1; simpl in E.
    2: { injection E as <- <-. rewrite Ed. apply failed_same. }
    pose proof (select_no_rows (λ d, identities d !! (provider, subject_of)) _ _ _ E1 Hnr1) as Hnone.
    destruct (decide (policy = ProvisionOff)) as [|Hoff]; [injection E as <- <-; rewrite Ed; apply failed_same|].
    destruct (decide (email_of = "")) as [|Hem]; [injection E as <- <-; rewrite Ed; apply failed_same|].
    destruct (x_EmailVerified id) eqn:Hv; simpl in E; [|injection E as <- <-; rewrite Ed; apply failed_same].
    destruct (_ || _); [injection E as <- <-; rewrite Ed; apply failed_same|].
    apply run_bind_try in E as (m & w2 & E2 & E). destruct m as [u|e2].
    + apply select_ok in E2 as (Eu & Ed2 & _). rewrite Ed in Eu, Ed2.
      assert (user_by_email (w_db w) email_of = Some u) as Hu
        by (destruct (user_by_email (w_db w) email_of); by simplify_eq/=).
      apply adopt_run in E; [|by rewrite Ed2]. rewrite Ed2 in E. destruct r as [u'|e].
      * destruct E as (-> & Hb & ->). split_and!; [done..|]. by apply login_matched.
      * rewrite E. apply failed_same.
    + same_tables E2 as Ed2. rewrite Ed in Ed2.
      destruct (is_no_rows e2) eqn:Hnr2; simpl in E; [|injection E as <- <-; rewrite Ed2; apply failed_same].
      pose proof (select_no_rows (λ d, user_by_email d email_of) _ _ _ E2 Hnr2) as Hmail. rewrite Ed in Hmail.
      destruct (decide (policy = ProvisionOpen)) as [Hopen|];
        [|injection E as <- <-; rewrite Ed2; apply failed_same].
      rewrite <- Ed2 in *. rewrite Ed2 in Hnone.
      apply (provision_run provisionAttempts 0) in E; [|done|done|by rewrite Ed2|done].
      destruct r as [u|e]; [|done]. destruct E as [Hprov ->]. split_and!; [done|apply Hprov|].
      rewrite Ed2 in *. by apply login_provisioned.
Qed.
End Login.

(** One external login, on every outcome and under every failure.  Success means
    the claim was well-formed, the account is not banned, and it is the account the
    core had bound to this provider and subject, or (policy not off, email verified
    by the provider, subject unbound) the account with that email, or (policy open,
    and no account with that email) a new account of the lowest role; it leaves
    behind exactly the binding, and the new account.  A rejection leaves no trace;
    any other error at most a new account without a binding. *)
Theorem Resolve_contract (policy : ProvisionPolicy) (provider : string) (id : ExternalIdentity) (w : World) :
  ∃ r w', run (Resolve policy provider id) w = Some (r, w') ∧
  match r with
  | Ok u => claim_ok provider id ∧ u_Banned u = false ∧ login_as policy provider id (w_db w) u (w_db w')
  | Err e => login_failed policy id (w_db w) e (w_db w')
  end.
Proof.
  assert (∀ n p s em b k, total (provision_from n p s em b k)) as Hprov.
  { intros n p s em b. induction n as [|n IH]; intros k; [done|].
    cbn [provision_from]. unfold adopt, bind_identity, reject. totals. }
  destruct (total_run (resolve policy provider id) w) as (r & w1 & E).
  { unfold resolve, adopt, bind_identity, provision, reject. totals. }
  unfold Resolve. rewrite run_bind, run_try, E. apply resolve_run in E.
  destruct r as [u|e]; [by eexists _, _|].
  destruct (is_Some_b (is_rejection e)); by eexists _, _.
Qed.
End Rules.

(** ** Concrete inputs *)

#[local] Existing Instance demo_libs.

Definition demo_identity : ExternalIdentity :=
  {| x_Subject := "s-1"; x_Email := "New@Example.org"; x_Username := "new one"; x_EmailVerified := true; x_Claims := ∅ |}.
Definition demo_logins : list (ProvisionPolicy * (string * ExternalIdentity)) :=
  [(ProvisionOpen, ("idp", demo_identity)); (ProvisionOpen, ("idp", demo_identity))].
Definition demo_login_threads : list (prog World unit) :=
  map (λ l, forget (Resolve l.1 l.2.1 l.2.2)) demo_logins.

(** Two concurrent first logins of one subject, up to the step of the first that
    creates the account. *)
Lemma external_logins_grant_nothing_witness :
  match exec [0; 1; 0; 1; 0] demo_login_threads (demo_world demo_db Hour) with
  | Some (ps1, w1) =>
      match exec [0] ps1 w1 with
      | Some (_, w2) => grants_nothing (w_db w1) (w_db w2)
      | None => False
      end
  | None => False
  end.
Proof.
  assert (match exec [0; 1; 0; 1; 0] demo_login_threads (demo_world demo_db Hour) with
          | Some (ps1, w1) => match exec [0] ps1 w1 with Some _ => true | None => false end
          | None => false end = true) as Hrun by (vm_compute; reflexivity).
  destruct (exec [0; 1; 0; 1; 0] demo_login_threads (demo_world demo_db Hour)) as [[ps1 w1]|] eqn:E1;
    [|discriminate Hrun].
  destruct (exec [0] ps1 w1) as [[ps2 w2]|] eqn:E2; [|discriminate Hrun].
  apply (external_logins_grant_nothing ps1 ps2 (demo_world demo_db Hour) w1 w2 demo_logins).
  - exact (exec_sound _ _ _ _ _ E1).
  - exact (exec_one 0 _ _ _ _ E2).
Defined.
