(* ===== verification/Accounts.v ===== *)
(** * Accounts ([internal/users/service.go], [admin.go], [internal/auth/provider.go],
      [internal/handlers/auth.go], [guards.go], [admin_users.go])

    Registration, login, logout, password changes, and what an administrator does
    to an account. *)

From Stdlib Require Import Ascii.
From S2P Require Import Prelude Interleave Text Env Store Teams Users Redis Sessions Passwords Tokens ExternalAuth.

(** What the server is configured with, and what it links: the derivation, the
    gate, the session store, the limits. *)
Record AuthConf := {
  ac_IDKey : list N → list N → N → N → N → N → list N;
  ac_hashSem : option nat; ac_hashWait : duration; ac_dummyHash : string;
  ac_ttl : duration; ac_ttl_reply : duration → duration;
  ac_registrationOpen : bool; ac_EmailLoginDisabled : bool;
  ac_limiter : bool;
  ac_RegisterIPBurst : Z; ac_RegisterIPWindow : duration;
  ac_LoginIPBurst : Z; ac_LoginIPWindow : duration;
  ac_tokens : bool; ac_TokenDefaultTTL : duration; ac_TokenMaxTTL : duration;
  ac_TokenBurst : Z; ac_TokenWindow : duration
}.

Definition ErrInvalidCredentials : error := ErrOther "auth: invalid credentials".
(** [errors.Is(err, apperr.ErrUnavailable)]. *)
Definition is_unavailable (e : error) : bool :=
  match cause e with Unavailable _ _ | ErrUnavailable => true | _ => false end.
Definition is_unique (e : error) : bool := is_Some_b (unique_violation e).

Section Accounts.
Context {L : Libs} (c : AuthConf).

Abbreviation HashPw := (HashPassword (ac_IDKey c) (ac_hashSem c) (ac_hashWait c)).
Abbreviation VerifyPw := (VerifyPassword (ac_IDKey c) (ac_hashSem c) (ac_hashWait c)).
Abbreviation NewSession := (session_Create (ac_ttl c)).
Abbreviation EndSession := (session_Delete (ac_ttl c) (ac_ttl_reply c)).

(** ** [users/service.go] *)

Record RegisterInput := { ri_Username : string; ri_Email : string; ri_Password : string }.

Definition add_if (b : bool) (field msg : string) (v : gmap string (list string)) :=
  if b then Add field msg v else v.
Definition bad_length (lo hi : nat) (s : string) : bool :=
  ((String.length s <? lo) || (hi <? String.length s))%nat.
Definition check_password (field pw : string) (v : gmap string (list string)) :=
  if bad_length 8 128 pw then Add field "must be between 8 and 128 characters" v
  else add_if (IsCommonPassword pw) field "is too common; pick something less guessable" v.
Definition check_register (i : RegisterInput) : gmap string (list string) :=
  let v := NewValidation in
  let v := if bad_length 3 32 (ri_Username i) then Add "username" "must be between 3 and 32 characters" v
           else add_if (negb (usernameRe (ri_Username i))) "username"
                  "may only contain letters, digits, and _ . -" v in
  let v := add_if (negb (mail_ParseAddress (ri_Email i)) || ContainsAny (ri_Email i) " <>")
             "email" "must be a valid email address" v in
  check_password "password" (ri_Password i) v.

Definition hash_error (e : error) : error :=
  if is_unavailable e then e else Wrap "users: hashing password" e.

Definition user_Register (i : RegisterInput) : P World User :=
  if negb (ac_registrationOpen c) then throw (Forbidden "registration is closed") else
  OrNil (check_register i);;
  hash ← map_err hash_error (HashPw (ri_Password i));
  id ← map_err (Wrap "users: generating id") (atomic NewV7);
  map_err (λ e, if is_unique e then Conflict "username or email is already taken"
                else Wrap "users: creating user" e)
    (atomic (CreateUser id (ri_Username i) (ToLower (ri_Email i)) hash "user" false)).

Definition user_Get (id : uuid) : P World User :=
  map_err (no_rows_as ErrNotFound "users: getting user") (atomic (GetUserByID id)).

Record TeamRef := { tr_ID : uuid; tr_Name : string; tr_Role : string }.
Definition TeamOf (user : uuid) : P World (option TeamRef) :=
  r ← try (atomic (GetUserTeam user));
  match r with
  | Ok t => mret (Some {| tr_ID := t_ID t; tr_Name := t_Name t;
                          tr_Role := if bool_decide (t_CaptainID t = user) then "captain" else "member" |})
  | Err e => if is_no_rows e then mret None else throw (Wrap "users: getting team" e)
  end.

Definition user_ChangePassword (id : uuid) (current new keep : string) : P World unit :=
  u ← user_Get id;
  ok ← try (VerifyPw current (u_PasswordHash u));
  match ok with
  | Err e => if is_unavailable e then throw e else throw (Forbidden "current password is incorrect")
  | Ok false => throw (Forbidden "current password is incorrect")
  | Ok true =>
      OrNil (check_password "new_password" new NewValidation);;
      hash ← map_err hash_error (HashPw new);
      map_err (Wrap "users: updating password") (atomic (UpdateUserPassword id hash));;
      map_err (Wrap "users: revoking sessions") (DeleteAllForUser id keep)
  end.

Definition RehashPassword (id : uuid) (hash : string) : P World unit := atomic (UpdateUserPassword id hash).

(** ** [users/admin.go] *)

Definition user_AdminUpdate (actor target : uuid) (banned hidden : option bool) (role : option string)
    : P World User :=
  if bool_decide (actor = target) &&
     (bool_decide (banned = Some true) || match role with Some r => negb (bool_decide (r = "admin")) | None => false end)
  then throw (Conflict "you cannot ban or demote yourself") else
  if match role with Some r => negb (bool_decide (r = "user") || bool_decide (r = "admin")) | None => false end
  then throw (Validation (Add "role" "must be 'user' or 'admin'" NewValidation)) else
  u ← map_err (no_rows_as ErrNotFound "users: admin update")
        (atomic (UpdateUserAdminFields target banned hidden role));
  (if bool_decide (banned = Some true)
   then map_err (Wrap "users: revoking sessions on ban") (DeleteAllForUser target "") else mret tt);;
  mret u.

Definition user_AdminResetPassword (target : uuid) (new : string) : P World unit :=
  user_Get target;;
  OrNil (check_password "new_password" new NewValidation);;
  hash ← map_err hash_error (HashPw new);
  map_err (Wrap "users: resetting password") (atomic (UpdateUserPassword target hash));;
  map_err (Wrap "users: revoking sessions on reset") (DeleteAllForUser target "").

(** ** [auth/provider.go], with the re-hash the server is wired with *)

Definition rehash (id : uuid) (hash : string) : P World unit :=
  r ← try (RehashPassword id hash);
  match r with Ok _ => mret tt | Err _ => atomic (emit (Log "WARN" "password rehash failed")) end.

Definition Authenticate (email password : string) : P World uuid :=
  r ← try (atomic (GetUserByEmail email));
  match r with
  | Err e =>
      if is_no_rows e then
        b ← try (BurnHash (ac_IDKey c) (ac_hashSem c) (ac_hashWait c) (ac_dummyHash c) password);
        match b with
        | Err e => if is_unavailable e then throw e else throw ErrInvalidCredentials
        | Ok _ => throw ErrInvalidCredentials
        end
      else throw (Wrap "auth: looking up user" e)
  | Ok u =>
      ok ← try (VerifyPw password (u_PasswordHash u));
      match ok with
      | Err e => if is_unavailable e then throw e else throw ErrInvalidCredentials
      | Ok false => throw ErrInvalidCredentials
      | Ok true =>
          if u_Banned u then throw ErrInvalidCredentials else
          (if NeedsRehash (u_PasswordHash u) then
             h ← try (HashPw password);
             match h with Ok hash => rehash (u_ID u) hash | Err _ => mret tt end
           else mret tt);;
          mret (u_ID u)
      end
  end.

(** ** [handlers/auth.go] *)

Definition limiterUnavailableRetry : duration := (3 * Second)%Z.
Definition limit (scope key : string) (n : Z) (window : duration) : P World unit :=
  if negb (ac_limiter c) then mret tt else
  r ← try (Allow scope key n window);
  match r with
  | Err _ =>
      atomic (emit (Inc "ratelimiter_unavailable" [scope]));;
      atomic (emit (Log "WARN" "rate limiter unavailable (Redis)"));;
      throw (Unavailable "the rate limiter is temporarily unavailable; please retry shortly"
               limiterUnavailableRetry)
  | Ok (true, _) => mret tt
  | Ok (false, retryAfter) =>
      atomic (emit (Inc "ratelimit_rejections" [scope]));;
      throw (RateLimited retryAfter scope)
  end.

Record Me := { me_ID : uuid; me_Username : string; me_Email : string; me_Role : string;
               me_Scopes : option (list string); me_Team : option TeamRef }.
Definition mePayload (caller : option Identity) (u : User) : P World Me :=
  team ← TeamOf (u_ID u);
  mret {| me_ID := u_ID u; me_Username := u_Username u; me_Email := u_Email u; me_Role := u_Role u;
          me_Scopes := match caller with
                       | Some i => if bool_decide (id_Scopes i = []) then None else Some (id_Scopes i)
                       | None => None end;
          me_Team := team |}.

Definition setSessionCookie (token : string) (maxAge : duration) : P World unit :=
  atomic (emit (SetCookie CookieName token maxAge)).
Definition clearSessionCookie : P World unit := setSessionCookie "" (- Second)%Z.

Section Request.
(** The request: who it is from ([auth.IdentityFrom]), its address and agent. *)
Context (caller : option Identity) (ip ua : string).

Definition h_Register (i : RegisterInput) : P World Me :=
  (if (0 <? ac_RegisterIPBurst c)%Z
   then limit "register-ip" ip (ac_RegisterIPBurst c) (ac_RegisterIPWindow c) else mret tt);;
  u ← user_Register i;
  sess ← NewSession (u_ID u) (u_Role u) ip ua;
  setSessionCookie (s_Token sess) (ac_ttl c);;
  mePayload caller u.

(** A session for a user who has just been authenticated: created, then revoked at
    once when a ban committed meanwhile. *)
Definition start_session (u : User) (banned : error) : P World Session :=
  sess ← NewSession (u_ID u) (u_Role u) ip ua;
  fresh ← try (user_Get (u_ID u));
  if match fresh with Ok f => u_Banned f | Err _ => false end
  then _ ← try (EndSession (s_Token sess)); throw banned
  else mret sess.

Definition h_Login (email0 password : string) : P World Me :=
  if ac_EmailLoginDisabled c
  then throw (Forbidden "email/password login is disabled on this deployment; use your configured identity provider") else
  let email := ToLower email0 in
  (if (0 <? ac_LoginIPBurst c)%Z
   then limit "login-ip" ip (ac_LoginIPBurst c) (ac_LoginIPWindow c) else mret tt);;
  limit "login-acct" (sha256_hex email) 5 (5 * Minute)%Z;;
  userID ← map_err (λ e, if is_unavailable e then e else ErrUnauthenticated) (Authenticate email password);
  u ← map_err (λ _, ErrUnauthenticated) (user_Get userID);
  sess ← start_session u ErrUnauthenticated;
  setSessionCookie (s_Token sess) (ac_ttl c);;
  mePayload caller u.

Definition requireUser : P World Identity :=
  match caller with Some i => mret i | None => throw ErrUnauthenticated end.

Definition h_Logout : P World unit :=
  i ← requireUser;
  EndSession (id_SessionToken i);;
  clearSessionCookie.

Definition h_GetMe : P World Me :=
  i ← requireUser;
  u ← map_err (λ _, ErrUnauthenticated) (user_Get (id_UserID i));
  mePayload caller u.

Definition h_ChangePassword (current new : string) : P World unit :=
  i ← requireUser;
  user_ChangePassword (id_UserID i) current new (id_SessionToken i).

(** ** [handlers/guards.go], [handlers/admin_users.go] *)

Definition requireAdmin : P World User :=
  i ← requireUser;
  u ← map_err (λ _, ErrUnauthenticated) (user_Get (id_UserID i));
  if u_Banned u || negb (bool_decide (u_Role u = "admin"))
  then throw (Forbidden "admin access required") else mret u.

Definition show_bool (b : option bool) : string :=
  match b with Some true => "true" | Some false => "false" | None => "null" end.
Definition h_AdminUpdateUser (target : uuid) (banned hidden : option bool) (role : option string)
    : P World (User * option (uuid * string)) :=
  actor ← requireAdmin;
  u ← user_AdminUpdate (u_ID actor) target banned hidden role;
  (if bool_decide (banned = Some true) && ac_tokens c then DeleteForUser target else mret tt);;
  atomic (audit_Log (u_ID actor) "user.update" "user" (uuid_String target)
    {[ "banned" := show_bool banned; "hidden" := show_bool hidden; "role" := default "null" role ]});;
  ref ← try (TeamOf (u_ID u));
  mret (u, match ref with Ok (Some t) => Some (tr_ID t, tr_Name t) | _ => None end).

Definition h_AdminResetPassword (target : uuid) (new : string) : P World unit :=
  actor ← requireAdmin;
  user_AdminResetPassword target new;;
  atomic (audit_Log (u_ID actor) "user.password_reset" "user" (uuid_String target) ∅).
End Request.

(** ** [httpserver/auth_middleware.go]: who a session cookie speaks for *)

Definition sessionMiddleware (cookie : option string) : P World (option Identity) :=
  match cookie with
  | Some v =>
      if bool_decide (v = "") then mret None else
      r ← try (session_Get (ac_ttl c) (ac_ttl_reply c) v);
      match r with
      | Ok s => mret (Some {| id_UserID := s_UserID s; id_Role := s_Role s; id_SessionToken := s_Token s;
                              id_Method := AuthSession; id_Scopes := []; id_TokenID := uuid_Nil |})
      | Err _ => mret None
      end
  | None => mret None
  end.

(** A state-changing request must come from an allowed origin, unless it carries a
    bearer token; [referer_origin] is the origin of a Referer header, if it parses. *)
Definition TrimSlash (s : string) : string :=
  match rev (to_bytes s) with
  | x :: l => if Ascii.eqb x "/" then of_bytes (rev l) else s
  | [] => s
  end.
Definition origin_allowed (baseOrigin devOrigin method origin referer : string)
    (referer_origin : string → option string) (caller : option Identity) : bool :=
  bool_decide (method ∈ ["GET"; "HEAD"; "OPTIONS"]) ||
  match caller with Some i => bool_decide (id_Method i = AuthToken) | None => false end ||
  let o := if bool_decide (origin = "")
           then (if bool_decide (referer = "") then "" else default "" (referer_origin referer))
           else origin in
  bool_decide (TrimSlash o = baseOrigin) || (negb (bool_decide (devOrigin = "")) && bool_decide (TrimSlash o = devOrigin)).
End Accounts.
