(* ===== verification/AuthApi.v ===== *)
(** * Redirect login, token management, bearer requests
      ([internal/handlers/auth_providers.go], [token_handlers.go],
      [internal/httpserver/token_middleware.go], [internal/auth/registry.go]) *)

From Stdlib Require Import Ascii.
From S2P Require Import Prelude Interleave Text Env Store Users Redis Sessions Passwords Tokens ExternalAuth Accounts.

(** ** [auth/registry.go]: the map behind the atomic pointer *)

Section Registry.
Context {Provider : Type}.

Record provider_entry := { pe_provider : Provider; pe_protected : bool }.
Record AuthRegistry := { ar_m : gmap string provider_entry; ar_defaultName : string }.

Definition auth_NewRegistry (name : string) (p : Provider) : AuthRegistry :=
  {| ar_m := {[ name := {| pe_provider := p; pe_protected := true |} ]}; ar_defaultName := name |}.
Definition auth_Get (name : string) (r : AuthRegistry) : option Provider := pe_provider <$> ar_m r !! name.
Definition auth_Default (r : AuthRegistry) : option Provider := pe_provider <$> ar_m r !! ar_defaultName r.
Definition auth_Register (name : string) (p : Provider) (override : bool) (r : AuthRegistry)
    : res unit * AuthRegistry :=
  match ar_m r !! name with
  | Some e =>
      if pe_protected e && negb override
      then (Err (ErrOther "auth: provider is a protected built-in"), r)
      else (Ok tt, {| ar_m := <[name := {| pe_provider := p; pe_protected := pe_protected e |}]> (ar_m r);
                      ar_defaultName := ar_defaultName r |})
  | None => (Ok tt, {| ar_m := <[name := {| pe_provider := p; pe_protected := false |}]> (ar_m r);
                       ar_defaultName := ar_defaultName r |})
  end.
Definition auth_Deregister (name : string) (r : AuthRegistry) : AuthRegistry :=
  match ar_m r !! name with
  | Some e => if pe_protected e then r
              else {| ar_m := delete name (ar_m r); ar_defaultName := ar_defaultName r |}
  | None => r
  end.
Definition HasUsableLogin (emailEnabled : bool) (r : AuthRegistry) : bool :=
  emailEnabled || existsb (λ n, negb (bool_decide (n = ar_defaultName r))) ((map_to_list (ar_m r)).*1).
Definition auth_Names (r : AuthRegistry) : list string := (map_to_list (ar_m r)).*1.
End Registry.
Arguments AuthRegistry : clear implicits.

Section AuthApi.
Context {L : Libs} (c : AuthConf).

(** ** [handlers/auth_providers.go] *)

(** A plugin's side of a redirect login: its answers may depend on anything, and it
    changes nothing of the platform's. *)
Record RedirectProvider := {
  rp_Begin : string → string → World → res (string * string);
  rp_Complete : string → gmap string string → World → res ExternalIdentity
}.
Definition ask {A} (f : World → res A) : M World A := λ w, (f w, w).

(** The redirect-capable provider of a name (none when it is unknown, or can only
    check passwords), the policy, the public origin, and the [state] parameter of a
    URL (none: unparseable). *)
Context (redirectProvider : string → option RedirectProvider) (policy : ProvisionPolicy)
  (BaseURL : string) (url_state : string → option string).

Definition loginSuccessPath : string := "/".
Definition loginFailurePath : string := "/login?error=sso".

Definition authorizeURLCarriesState (authorizeURL want : string) : option string :=
  if bool_decide (authorizeURL = "") then Some "provider returned no authorize URL" else
  match url_state authorizeURL with
  | None => Some "provider returned an unparseable authorize URL"
  | Some got => if bool_decide (got = "") then Some "authorize URL carries no state parameter"
                else if bool_decide (got = want) then None
                else Some "authorize URL carries a different state than the host minted"
  end.

(** [strings.TrimRight(s, "/")]. *)
Fixpoint drop_slashes (l : list ascii) : list ascii :=
  match l with
  | x :: l' => if Ascii.eqb x "/" then drop_slashes l' else l
  | [] => []
  end.
Definition callbackURL (provider : string) : string :=
  of_bytes (rev (drop_slashes (rev (to_bytes BaseURL)))) +:+ "/api/v1/auth/" +:+ provider +:+ "/callback".

Definition setLoginStateCookie (state : string) : P World unit :=
  atomic (emit (SetCookie LoginStateCookie state LoginStateTTL)).
Definition clearLoginStateCookie : P World unit :=
  atomic (emit (SetCookie LoginStateCookie "" (- Second)%Z)).

Definition sso_unavailable (name : string) : error :=
  Unavailable ("the " +:+ name +:+ " login is unavailable right now") 0.

(** The location of the redirect. *)
Definition BeginProviderLogin (ip name : string) : P World string :=
  match redirectProvider name with
  | None => throw ErrNotFound
  | Some rp =>
      (if (0 <? ac_LoginIPBurst c)%Z
       then limit c "sso-begin" ip (ac_LoginIPBurst c) (ac_LoginIPWindow c) else mret tt);;
      state ← Mint;
      r ← try (atomic (ask (rp_Begin rp state (callbackURL name))));
      match r with
      | Err _ =>
          atomic (emit (Log "WARN" "external login could not start"));;
          throw (sso_unavailable name)
      | Ok (authorizeURL, providerState) =>
          match authorizeURLCarriesState authorizeURL state with
          | Some _ =>
              atomic (emit (Log "WARN" "external login refused: provider did not use the host state"));;
              throw (sso_unavailable name)
          | None =>
              Store LoginStateTTL state name providerState;;
              setLoginStateCookie state;;
              mret authorizeURL
          end
      end
  end.

Definition fail_login : P World string :=
  atomic (emit (Log "WARN" "external login failed"));;
  clearLoginStateCookie;;
  mret loginFailurePath.

(** [query] is the first value of each parameter; [state] its [state], or empty. *)
Definition CompleteProviderLogin (ip ua name : string) (cookie : option string) (query : gmap string string)
    : P World string :=
  match redirectProvider name with
  | None => fail_login
  | Some rp =>
      (if (0 <? ac_LoginIPBurst c)%Z
       then limit c "sso-callback" ip (ac_LoginIPBurst c) (ac_LoginIPWindow c) else mret tt);;
      let state := default "" (query !! "state") in
      match cookie with
      | None => fail_login
      | Some v =>
          if bool_decide (v = "") then fail_login else
          if negb (bool_decide (v = state)) then fail_login else
          r ← try (Consume state);
          match r with
          | Err _ => fail_login
          | Ok st =>
              if negb (bool_decide (ls_Provider st = name)) then fail_login else
              i ← try (atomic (ask (rp_Complete rp (ls_ProviderState st) query)));
              match i with
              | Err _ => fail_login
              | Ok ext =>
                  u ← try (Resolve policy name ext);
                  match u with
                  | Err _ => fail_login
                  | Ok u =>
                      s ← try (start_session c ip ua u ErrUnauthenticated);
                      match s with
                      | Err _ => fail_login
                      | Ok sess =>
                          clearLoginStateCookie;;
                          setSessionCookie (s_Token sess) (ac_ttl c);;
                          mret loginSuccessPath
                      end
                  end
              end
          end
      end
  end.

(** ** [handlers/token_handlers.go] *)

Definition requireSession (caller : option Identity) : P World Identity :=
  i ← requireUser caller;
  if bool_decide (id_Method i = AuthSession) then mret i
  else throw (Forbidden "token management requires a session; an API token cannot manage tokens").

(** [time.Duration(days) * 24 * time.Hour], on 64 bits. *)
Definition days_duration (days : Z) : duration := wrap 64 (wrap 64 (days * 24) * Hour)%Z.

Record CreateTokenBody := { ct_Name : string; ct_Scopes : list string; ct_ExpiresInDays : option Z }.
Definition token_ttl (b : CreateTokenBody) : duration :=
  match ct_ExpiresInDays b with
  | Some d => if (d <? 1)%Z then ac_TokenDefaultTTL c else days_duration d
  | None => ac_TokenDefaultTTL c
  end.
Definition check_token (b : CreateTokenBody) : gmap string (list string) :=
  let v := NewValidation in
  let v := add_if (bad_length 1 100 (ct_Name b)) "name" "must be between 1 and 100 characters" v in
  let v := if bool_decide (ct_Scopes b = []) then Add "scopes" "at least one scope is required" v
           else match unknown_scope (ct_Scopes b) with
                | Some s => Add "scopes" ("unknown scope " +:+ s) v
                | None => v end in
  match ct_ExpiresInDays b with
  | Some d =>
      if (d <? 1)%Z then Add "expires_in_days" "must be a positive number of days" v
      else add_if ((0 <? ac_TokenMaxTTL c) && (ac_TokenMaxTTL c <? days_duration d))%Z
             "expires_in_days" "exceeds the maximum" v
  | None => v
  end.

Definition h_CreateToken (caller : option Identity) (b : CreateTokenBody) : P World (string * TokenMeta) :=
  i ← requireSession caller;
  if negb (ac_tokens c) then throw ErrNotImplemented else
  OrNil (check_token b);;
  now ← atomic wall_now;
  '(plaintext, meta) ← token_Create (id_UserID i) (ct_Name b) (ct_Scopes b) (Some (now + token_ttl b)%Z);
  atomic (audit_Log (id_UserID i) "token.create" "api_token" (uuid_String (mt_ID meta))
    {[ "name" := ct_Name b ]});;
  mret (plaintext, meta).

Definition h_ListTokens (caller : option Identity) : P World (list TokenMeta) :=
  i ← requireSession caller;
  if negb (ac_tokens c) then throw ErrNotImplemented else token_List (id_UserID i).

Definition h_RevokeToken (caller : option Identity) (token : uuid) : P World unit :=
  i ← requireSession caller;
  if negb (ac_tokens c) then throw ErrNotImplemented else
  ok ← Revoke (id_UserID i) token;
  if negb ok then throw ErrNotFound else
  atomic (audit_Log (id_UserID i) "token.revoke" "api_token" (uuid_String token) ∅).

Definition requireSessionAdmin (caller : option Identity) : P World User :=
  requireSession caller;;
  requireAdmin caller.

Definition h_AdminListTokens (caller : option Identity) (page perPage : option Z)
    : P World (list (TokenMeta * (uuid * string)) * nat) :=
  requireSessionAdmin caller;;
  if negb (ac_tokens c) then throw ErrNotImplemented else
  let p := Normalize page perPage in
  token_ListAll (Limit p) (Offset p).

Definition h_AdminRevokeToken (caller : option Identity) (token : uuid) : P World unit :=
  actor ← requireSessionAdmin caller;
  if negb (ac_tokens c) then throw ErrNotImplemented else
  ok ← RevokeAny token;
  if negb ok then throw ErrNotFound else
  atomic (audit_Log (u_ID actor) "token.admin_revoke" "api_token" (uuid_String token) ∅).

(** ** [httpserver/token_middleware.go] *)

Definition requiredScope (method path : string) : string :=
  if bool_decide (path = "/admin") || HasPrefix path "/admin/" then ScopeAdmin
  else if bool_decide (method = "GET") || bool_decide (method = "HEAD") then ScopeRead
  else ScopeSubmit.
Definition scopeAllows (scopes : list string) (method path : string) : bool :=
  bool_decide (requiredScope method path ∈ scopes).

Definition bearerFromHeader (authorization : string) : option string :=
  body ← CutPrefix authorization "Bearer ";
  let body := TrimSpace body in
  if bool_decide (body = "") then None else Some body.

(** The request goes on, as this caller, or is answered with a problem and a [Retry-After] header. *)
Inductive passed := Next (caller : option Identity) | Problem (status : Z) (detail : string) (retry : option Z).

Definition tokenAuthProblem (e : error) : passed :=
  if bool_decide (cause e = ErrTokenScope) then Problem 403 "the token's scopes are not recognized" None
  else Problem 401 "invalid or expired token" None.

Definition tokenMiddleware (caller : option Identity) (method path authorization : string) : P World passed :=
  if negb (ac_tokens c) then mret (Next caller) else
  match caller with
  | Some _ => mret (Next caller)
  | None =>
      match bearerFromHeader authorization with
      | None => mret (Next None)
      | Some raw =>
          now ← atomic wall_now;
          r ← try (token_Authenticate raw now);
          match r with
          | Err e => mret (tokenAuthProblem e)
          | Ok i =>
              l ← (if ac_limiter c && (0 <? ac_TokenBurst c)%Z
                   then try (Allow "token" (uuid_String (id_TokenID i)) (ac_TokenBurst c) (ac_TokenWindow c))
                   else mret (Ok (true, 0%Z)));
              match l with
              | Err _ =>
                  atomic (emit (Inc "ratelimiter_unavailable" ["token"]));;
                  atomic (emit (Log "WARN" "rate limiter unavailable (Redis)"));;
                  mret (Problem 503 "the rate limiter is temporarily unavailable; please retry shortly" (Some 3%Z))
              | Ok (false, retryAfter) => mret (Problem 429 "token rate limit exceeded" (Some (Z.quot retryAfter Second + 1)%Z))
              | Ok (true, _) =>
                  if negb (scopeAllows (id_Scopes i) method path)
                  then mret (Problem 403 "the token's scopes do not permit this request" None)
                  else _ ← try (Touch (id_TokenID i)); mret (Next (Some i))
              end
          end
      end
  end.
End AuthApi.
