(* ===== verification/AuthDemo.v ===== *)
(** * Concrete accounts

    An administrator and a player with known passwords, and a configuration, on
    which the theorems' hypotheses are checked. *)

From S2P Require Import Prelude Text Env Demo Passwords Tokens Accounts.

#[local] Existing Instance demo_libs.

Definition demo_IDKey (pw salt : list N) (t m p n : N) : list N :=
  take (N.to_nat n) (map (λ b, b mod 256)%N (pw ++ salt) ++ replicate (N.to_nat n) 0%N).
Definition demo_conf : AuthConf :=
  {| ac_IDKey := demo_IDKey; ac_hashSem := None; ac_hashWait := Second; ac_dummyHash := "";
     ac_ttl := (168 * Hour)%Z; ac_ttl_reply := id; ac_registrationOpen := true; ac_EmailLoginDisabled := false;
     ac_limiter := false; ac_RegisterIPBurst := 0; ac_RegisterIPWindow := 0; ac_LoginIPBurst := 0;
     ac_LoginIPWindow := 0; ac_tokens := true; ac_TokenDefaultTTL := Hour; ac_TokenMaxTTL := (10 * Hour)%Z;
     ac_TokenBurst := 0; ac_TokenWindow := 0 |}.
Definition demo_hash (pw : string) : string :=
  phc argonMemoryKiB argonIterations argonThreads [1; 2; 3]%N
    (demo_IDKey (password_bytes pw) [1; 2; 3]%N argonIterations argonMemoryKiB argonThreads argonKeyLen).
Definition demo_account (id : uuid) (name role : string) : User :=
  {| u_ID := id; u_Username := name; u_Email := name +:+ "@x.org"; u_PasswordHash := demo_hash "correct horse";
     u_Role := role; u_Banned := false; u_Hidden := false |}.
Definition demo_accounts : World :=
  demo_world (set_users {[ 1%N := demo_account 1 "root" "admin"; 11%N := demo_account 11 "eve" "user" ]} demo_db) Hour.
Definition demo_admin : Identity :=
  {| id_UserID := 1%N; id_Role := "admin"; id_SessionToken := "adm"; id_Method := AuthSession; id_Scopes := [];
     id_TokenID := 0%N |}.
