(* ===== verification/AuthRules.v ===== *)
(** * Sessions and bans under every interleaving

    Logins, redirect logins, logouts, password changes, bans and requests run step
    by step against each other.  The session index stays complete, and a ban
    catches every session of the banned user, those being created too. *)

From S2P Require Import Prelude Interleave Text Env Demo Store Teams Users Redis Sessions SessionRules Passwords Tokens ExternalAuth Accounts AuthApi AuthDemo.

Section Rules.
Context {L : Libs} (c : AuthConf) (Httl : (0 < ac_ttl c)%Z).
(** Whether the database and Redis answer every call. *)
Context (calm : Prop).

(** ** What a thread is in the middle of *)

(** The token a random draw makes. *)
Definition token_of (bs : list N) : string := RawURL_EncodeToString (take 32 (bs ++ replicate 32 0%N)).
Definition future (w : World) : list string := omap (fmap token_of) (w_rand w).

Inductive duty :=
  | Idle
  | Drawn (t : string)                        (* a token no session has yet *)
  | Checking (t : string) (u : uuid)          (* a session just created: is the user banned? *)
  | Banning (u : uuid)                        (* banned, sessions not yet listed *)
  | Revoking (u : uuid) (ts : list string).   (* listed, not yet dropped *)
Record ghost := { duty_of : duty; read_of : option (string * uuid) }.
Definition idle : ghost := {| duty_of := Idle; read_of := None |}.
Definition on_duty (d : duty) : ghost := {| duty_of := d; read_of := None |}.

Definition drawn (gs : list ghost) : list string :=
  omap (λ g, match duty_of g with Drawn t => Some t | _ => None end) gs.
(** The thread will drop this session of this user unless the user is not banned. *)
Definition covers (t : string) (u : uuid) (g : ghost) : Prop :=
  match duty_of g with
  | Checking t' u' => t' = t ∧ u' = u
  | Banning u' => u' = u
  | Revoking u' ts => u' = u ∧ t ∈ ts
  | _ => False
  end.

Definition live_session (w : World) (t : string) (u : uuid) : Prop :=
  ∃ h e, rd_sess (w_redis w) !! t = Some (h, e) ∧ unexpired (w_wall w) e = true ∧ sh_UserID h = uuid_String u.
Definition banned_user (w : World) (u : uuid) : Prop :=
  ∃ U, users (w_db w) !! u = Some U ∧ u_Banned U = true.
Definition owns (w : World) (t : string) (u : uuid) : Prop :=
  ∀ h e, rd_sess (w_redis w) !! t = Some (h, e) → sh_UserID h = uuid_String u.

Record auth_inv (gs : list ghost) (w : World) : Prop := {
  ai_nodup : NoDup (drawn gs ++ future w);
  ai_unused : ∀ t, t ∈ drawn gs ++ future w →
    rd_sess (w_redis w) !! t = None ∧ Forall (λ g, ∀ u, read_of g ≠ Some (t, u)) gs;
  ai_empty : rd_sess (w_redis w) !! "" = None;
  ai_index : index_ok (ac_ttl c) (w_wall w) (w_redis w);
  ai_read : Forall (λ g, ∀ t u, read_of g = Some (t, u) → owns w t u) gs;
  ai_calm : calm → w_faults w = [];
  ai_banned : calm → ∀ t u, live_session w t u → banned_user w u → Exists (covers t u) gs
}.

Lemma drawn_perm gs gs' : gs ≡ₚ gs' → drawn gs ≡ₚ drawn gs'.
Proof. intros Hp. unfold drawn. by rewrite Hp. Qed.
Lemma auth_inv_perm gs gs' w : gs ≡ₚ gs' → auth_inv gs w → auth_inv gs' w.
Proof.
  intros Hp [H1 H2 H3 H4 H5 H6 H7]. pose proof (drawn_perm _ _ Hp) as Hd. split.
  - by rewrite <- Hd.
  - intros t Ht. rewrite <- Hd in Ht. destruct (H2 t Ht) as [? Hr]. split; [done|]. by rewrite <- Hp.
  - done.
  - done.
  - by rewrite <- Hp.
  - done.
  - intros Hc t u Hl Hb. rewrite <- Hp. by apply H7.
Qed.

Abbreviation during p Q g := (holds (λ x, duty_of x = Idle) auth_inv (λ _ _, True) p Q g).

(** ** Steps that touch neither sessions nor bans *)

Definition tame (d d' : DB) : Prop :=
  ∀ u U', users d' !! u = Some U' → u_Banned U' = true → ∃ U, users d !! u = Some U ∧ u_Banned U = true.
Record quiet (w w' : World) : Prop := {
  q_sess : rd_sess (w_redis w') = rd_sess (w_redis w);
  q_users : rd_users (w_redis w') = rd_users (w_redis w);
  q_wall : w_wall w' = w_wall w;
  q_faults : w_faults w = [] → w_faults w' = [];
  q_db : tame (w_db w) (w_db w');
  q_rand : ∃ l, w_rand w = l ++ w_rand w'
}.

Lemma tame_refl d : tame d d. Proof. intros u U' Hu Hb. by exists U'. Qed.
Lemma tame_same d d' : users d' = users d → tame d d'. Proof. intros E u U' Hu Hb. rewrite E in Hu. by exists U'. Qed.
#[local] Instance quiet_refl : Reflexive quiet.
Proof. intros w. split; [done..|apply tame_refl|by exists []]. Qed.
#[local] Instance quiet_trans : Transitive quiet.
Proof.
  intros w1 w2 w3 [A1 A2 A3 A4 A5 [l1 A6]] [B1 B2 B3 B4 B5 [l2 B6]]. split; try congruence; [auto|..].
  - intros u U Hu Hb. destruct (B5 u U Hu Hb) as (U2 & Hu2 & Hb2). eauto.
  - exists (l1 ++ l2). by rewrite <- app_assoc, <- B6.
Qed.

Lemma future_app l w : (∀ w', w_rand w' = l ++ w_rand w → future w' = omap (fmap token_of) l ++ future w).
Proof. intros w' E. unfold future. by rewrite E, omap_app. Qed.

Lemma quiet_inv gs w w' : auth_inv gs w → quiet w w' → auth_inv gs w'.
Proof.
  intros [H1 H2 H3 H4 H5 H6 H7] [Q1 Q2 Q3 Q4 Q5 [l Q6]].
  pose proof (future_app l w' w Q6) as Hf. split.
  - rewrite Hf in H1. apply NoDup_app in H1 as (Ha & Hb & Hc). apply NoDup_app in Hc as (_ & _ & Hc).
    apply NoDup_app. split_and!; [done| |done]. intros t Ht Ht'. apply (Hb t Ht). rewrite elem_of_app. by right.
  - intros t Ht. rewrite Q1. apply H2. rewrite Hf, !elem_of_app in *. tauto.
  - by rewrite Q1.
  - rewrite Q3. intros t h e Ht He. rewrite Q1 in Ht. destruct (H4 t h e Ht He) as (u & te & ? & ? & ? & Hl).
    exists u, te. split_and!; [done..|]. unfold listed in *. by rewrite Q2.
  - eapply Forall_impl; [exact H5|]. cbn beta. intros g Hg t u Hr h e Ht. rewrite Q1 in Ht. by eapply Hg.
  - auto.
  - intros Hc t u (h & e & Ht & He & Hu) (U & HU & Hb). rewrite Q1 in Ht. rewrite Q3 in He.
    destruct (Q5 u U HU Hb) as (U0 & HU0 & Hb0). apply H7; [done|by exists h, e|by exists U0].
Qed.

Lemma quiet_frame {A} (p : prog World A) g :
  all_respect (λ _, True) quiet p → during p (λ _ g', g' = g) g.
Proof.
  intros Hp. eapply (holds_frame _ _ _ quiet idle); [exact Hp|..|done].
  - intros gs w w' HI HQ. split; [by eapply quiet_inv|done].
  - intros gs w g1 [H1 H2 H3 H4 H5 H6 H7].
    assert (drawn (g1 :: idle :: gs) = drawn (g1 :: gs)) as Hd by (unfold drawn; simpl; by destruct (duty_of g1)).
    split; [by rewrite Hd| |done|done| |done|].
    + intros t Ht. rewrite Hd in Ht. destruct (H2 t Ht) as [? Hr]. split; [done|]. inv Hr. by repeat constructor.
    + inv H5. repeat constructor; [done| |done]. by intros t u.
    + intros Hc t u Hl Hb. specialize (H7 Hc t u Hl Hb). inv H7; [by left|by right; right].
Qed.

(** ** The quiet actions *)

Abbreviation quietly m := (respects (λ _, True) quiet m).
Abbreviation all_quiet p := (all_respect (λ _, True) quiet p).

Lemma quiet_same w w' :
  w_redis w' = w_redis w → w_wall w' = w_wall w → w_db w' = w_db w → w_rand w' = w_rand w →
  (w_faults w = [] → w_faults w' = []) → quiet w w'.
Proof. intros E1 E2 E3 E4 E5. split; rewrite ?E1, ?E3; [done..| |by exists []]. apply tame_refl. Qed.

Lemma quiet_query {A} (f : time → DB → res A * DB) :
  (∀ now d a d', f now d = (Ok a, d') → tame d d') → quietly (query f).
Proof.
  intros Hf w _. split; [done|]. unfold query, mbind, M_bind, next_fault.
  destruct (w_faults w) as [|b fs] eqn:E.
  - simpl. destruct (f _ _) as [[a|e] d] eqn:Ef; simpl; [|by apply quiet_same].
    split; simpl; [done..| |by exists []]. by eapply Hf.
  - destruct b; simpl; [by apply quiet_same; [..|rewrite E]|].
    destruct (f _ _) as [[a|e] d] eqn:Ef; simpl; [|by apply quiet_same; [..|rewrite E]].
    split; simpl; [done..|by rewrite E| |by exists []]. by eapply Hf.
Qed.
Lemma quiet_select {A} (f : DB → res A) : all_quiet (atomic (select f)).
Proof. apply all_respect_atomic, quiet_query. intros now d a d' [= _ <-]. apply tame_refl. Qed.
Lemma quiet_guarded {A} cs (r : A) (d' : DB → DB) :
  (∀ d, tame d (d' d)) → all_quiet (atomic (query (λ now d, guarded (cs now d) (Ok r, d' d) d))).
Proof.
  intros Hd. apply all_respect_atomic, quiet_query. intros now d a d1 (_ & _ & ->)%guarded_ok. apply Hd.
Qed.
Lemma quiet_NewV7 : all_quiet (atomic NewV7).
Proof.
  apply all_respect_atomic. intros w _. split; [done|]. unfold NewV7.
  destruct (w_uuids w) as [|[] us]; simpl; [reflexivity|by apply quiet_same..].
Qed.
Lemma quiet_rand n : all_quiet (atomic (rand_Read n)).
Proof.
  apply all_respect_atomic. intros w _. split; [done|]. unfold rand_Read.
  destruct (w_rand w) as [|o rs] eqn:E; [reflexivity|].
  destruct o; (split; simpl; [done..|apply tame_refl|rewrite E; by eexists [_]]).
Qed.
Lemma quiet_emit e : all_quiet (atomic (emit e)).
Proof. apply all_respect_atomic. intros w _. split; [done|]. by apply quiet_same. Qed.
Lemma quiet_gets {A} (f : World → A) : all_quiet (atomic (gets f)).
Proof. apply all_respect_atomic. intros w _. split; [done|reflexivity]. Qed.
Lemma quiet_ask {A} (f : World → res A) : all_quiet (atomic (ask f)).
Proof. apply all_respect_atomic. intros w _. split; [done|reflexivity]. Qed.
Lemma quiet_fault : all_quiet (atomic next_fault).
Proof.
  apply all_respect_atomic. intros w _. split; [done|]. unfold next_fault.
  destruct (w_faults w) eqn:E; [reflexivity|]. apply quiet_same; simpl; by rewrite ?E.
Qed.

(** Calls on other keys. *)
Lemma quiet_redis {A} (f : time → RedisState → A * RedisState) :
  (∀ now r, rd_sess (f now r).2 = rd_sess r ∧ rd_users (f now r).2 = rd_users r) → quietly (redis f).
Proof.
  intros Hf w _. split; [done|].
  destruct (decide (w_faults w = [])) as [Ef|Ef].
  - rewrite redis_nofault by done. destruct (Hf (w_wall w) (w_redis w)). split; simpl; [done..|apply tame_refl|by exists []].
  - destruct (redis f w) as [r w'] eqn:E. apply redis_spec in E as (fs & [[-> _]|[-> _]]); simpl.
    + by apply quiet_same.
    + destruct (Hf (w_wall w) (w_redis w)). split; simpl; [done..|by intros ?|apply tame_refl|by exists []].
Qed.

#[local] Hint Resolve quiet_select quiet_NewV7 quiet_rand quiet_emit quiet_gets quiet_ask quiet_fault : resp.
#[local] Hint Extern 2 (all_respect _ _ (atomic (select _))) => (apply quiet_select) : resp.
#[local] Hint Extern 2 (all_respect _ _ (atomic wall_now)) => (apply quiet_gets) : resp.

Lemma quiet_Allow scope key n window : all_quiet (Allow scope key n window).
Proof. unfold Allow. respect; by apply quiet_redis. Qed.
#[local] Hint Resolve quiet_Allow : resp.
Lemma quiet_limit scope key n window : all_quiet (limit c scope key n window).
Proof. unfold limit. by respect. Qed.
#[local] Hint Resolve quiet_limit : resp.

(** The gate and the derivations. *)
Lemma quiet_send_or_done s : all_quiet (send_or_done s).
Proof.
  apply all_respect_blocking. intros w b w' _ E. split; [done|]. unfold next_fault, try_send in E.
  destruct (w_faults w) as [|[] fs] eqn:Ef; simpl in E; [|by injection E as _ <-; apply quiet_same; rewrite ?Ef|];
    (destruct (w_chans w !! s) as [ch|]; [|done]; destruct (chan_full ch); [done|]);
    injection E as _ <-; apply quiet_same; simpl; by rewrite ?Ef.
Qed.
Lemma quiet_recv s : all_quiet (recv s).
Proof.
  apply all_respect_blocking. intros w b w' _ E. split; [done|]. unfold try_recv in E.
  destruct (w_chans w !! s) as [ch|]; [|done]. destruct (ch_len ch =? 0); [done|].
  injection E as _ <-. by apply quiet_same.
Qed.
Lemma quiet_hash_count f : all_quiet (atomic (modify (λ w, set_hash (f w) w))).
Proof. apply all_respect_atomic. intros w _. split; [done|]. by apply quiet_same. Qed.
#[local] Hint Resolve quiet_send_or_done quiet_recv quiet_hash_count : resp.

Lemma quiet_derive pw salt t m p k :
  all_quiet (deriveKey (ac_IDKey c) (ac_hashSem c) (ac_hashWait c) pw salt t m p k).
Proof. unfold deriveKey, acquireHash, enterHash, release_hash, exitHash. by respect. Qed.
#[local] Hint Resolve quiet_derive : resp.
Lemma quiet_hash pw : all_quiet (HashPassword (ac_IDKey c) (ac_hashSem c) (ac_hashWait c) pw).
Proof. unfold HashPassword. by respect. Qed.
Lemma quiet_verify pw h : all_quiet (VerifyPassword (ac_IDKey c) (ac_hashSem c) (ac_hashWait c) pw h).
Proof. unfold VerifyPassword. by respect. Qed.
#[local] Hint Resolve quiet_hash quiet_verify : resp.

(** The statements on accounts that ban nobody. *)
Lemma quiet_password id h : all_quiet (atomic (UpdateUserPassword id h)).
Proof.
  apply all_respect_atomic, quiet_query. intros now d a d' [= _ <-] u U' Hu Hb. simpl in Hu.
  apply lookup_alter_Some in Hu as [(<- & U & HU & ->)|[_ Hu]]; [by exists U|by exists U'].
Qed.
Lemma quiet_CreateUser id un em h role hid : all_quiet (atomic (CreateUser id un em h role hid)).
Proof.
  apply quiet_guarded. intros d u U' Hu Hb. simpl in Hu.
  apply lookup_insert_Some in Hu as [[<- <-]|[_ Hu]]; [done|by exists U'].
Qed.
Lemma quiet_audit actor a st sid meta : all_quiet (atomic (audit_Log actor a st sid meta)).
Proof.
  apply all_respect_atomic. intros w _. split; [done|]. unfold audit_Log, mbind, M_bind. simpl. unfold M_try, InsertAuditLog.
  match goal with |- context [query ?f w] => destruct (quiet_query f) with w as [_ Hq] end; [|done|].
  - intros now d x d' (_ & _ & ->)%guarded_ok. by apply tame_same.
  - destruct (query _ w) as [[x|e] w'] eqn:E; simpl in *; [done|].
    etrans; [exact Hq|]. by apply quiet_same.
Qed.
Lemma quiet_bind_identity p s u : all_quiet (atomic (CreateAuthIdentity p s u)).
Proof. apply quiet_guarded. intros d. by apply tame_same. Qed.
Lemma quiet_DeleteForUser u : all_quiet (DeleteForUser u).
Proof. apply all_respect_atomic, quiet_query. intros now d a d' [= _ <-]. by apply tame_same. Qed.
#[local] Hint Resolve quiet_password quiet_CreateUser quiet_audit quiet_bind_identity quiet_DeleteForUser : resp.

(** The programs made of them. *)
Lemma quiet_user_Get id : all_quiet (user_Get id).
Proof. unfold user_Get, GetUserByID. by respect. Qed.
Lemma quiet_TeamOf u : all_quiet (TeamOf u).
Proof. unfold TeamOf, GetUserTeam. by respect. Qed.
#[local] Hint Resolve quiet_user_Get quiet_TeamOf : resp.
Lemma quiet_mePayload caller u : all_quiet (mePayload caller u).
Proof. unfold mePayload. by respect. Qed.
Lemma quiet_requireUser caller : all_quiet (requireUser caller).
Proof. unfold requireUser. by respect. Qed.
#[local] Hint Resolve quiet_mePayload quiet_requireUser : resp.
Lemma quiet_requireAdmin caller : all_quiet (requireAdmin caller).
Proof. unfold requireAdmin. by respect. Qed.
Lemma quiet_OrNil v : all_quiet (OrNil v : P World unit).
Proof. unfold OrNil. by respect. Qed.
Lemma quiet_setSessionCookie t d : all_quiet (setSessionCookie t d).
Proof. apply quiet_emit. Qed.
#[local] Hint Resolve quiet_requireAdmin quiet_OrNil quiet_setSessionCookie : resp.
Lemma quiet_Authenticate email pw : all_quiet (Authenticate c email pw).
Proof. unfold Authenticate, GetUserByEmail, BurnHash, rehash, RehashPassword. by respect. Qed.
Lemma quiet_register i : all_quiet (user_Register c i).
Proof. unfold user_Register. by respect. Qed.
#[local] Hint Resolve quiet_Authenticate quiet_register : resp.

Lemma quiet_provision n p s email base k : all_quiet (provision_from n p s email base k).
Proof.
  revert k; induction n as [|n IH]; intros k; [done|].
  cbn [provision_from]. unfold adopt, bind_identity, GetUserByEmail, reject. by respect.
Qed.
#[local] Hint Resolve quiet_provision : resp.
Lemma quiet_Resolve policy provider i : all_quiet (Resolve policy provider i).
Proof.
  unfold Resolve, resolve, adopt, bind_identity, provision, GetAuthIdentity, GetUserByID, GetUserByEmail, reject.
  by respect.
Qed.
Lemma quiet_Consume t : all_quiet (Consume t).
Proof. unfold Consume. respect. by apply quiet_redis. Qed.
Lemma quiet_fail_login : all_quiet fail_login.
Proof. unfold fail_login, clearLoginStateCookie. by respect. Qed.
#[local] Hint Resolve quiet_Resolve quiet_Consume quiet_fail_login : resp.

(** A quiet program before another one, or alone. *)
Lemma during_quiet {A} (p : prog World A) (Q : A → ghost → Prop) g :
  all_quiet p → (∀ a, Q a g) → during p Q g.
Proof. intros Hp HQ. eapply holds_mono; [by apply quiet_frame|]. intros a g' ->. apply HQ. Qed.
Lemma during_after {A B} (p : P World A) (k : A → P World B) (Q : res B → ghost → Prop) g :
  all_quiet p → (∀ a, during (k a) Q g) → (∀ e, Q (Err e) g) → during (p ≫= k) Q g.
Proof. intros Hp Hk HQ. apply holds_bind, during_quiet; [done|]. intros [a|e]; auto. Qed.

(** ** Moving from one duty to another *)

Lemma covers_other t u g0 g1 (gs : list ghost) :
  (covers t u g0 → covers t u g1) → Exists (covers t u) (g0 :: gs) → Exists (covers t u) (g1 :: gs).
Proof. intros Hc HE. inv HE; [left; auto|by right]. Qed.

Definition has_drawn (d : duty) : option string := match d with Drawn t => Some t | _ => None end.
Lemma drawn_cons g gs : drawn (g :: gs) = option_list (has_drawn (duty_of g)) ++ drawn gs.
Proof. unfold drawn, has_drawn. simpl. by destruct (duty_of g). Qed.

(** Changing the thread's duty, when no session that needs it loses its cover. *)
Lemma change_duty gs w g d' r' :
  auth_inv (g :: gs) w → has_drawn d' = has_drawn (duty_of g) ∨ has_drawn d' = None →
  (∀ t u, r' = Some (t, u) → (t ∉ (drawn (g :: gs) ++ future w)) ∧ owns w t u) →
  (calm → ∀ t u, covers t u g → live_session w t u → banned_user w u →
     covers t u {| duty_of := d'; read_of := r' |}) →
  auth_inv ({| duty_of := d'; read_of := r' |} :: gs) w.
Proof.
  intros [H1 H2 H3 H4 H5 H6 H7] Hd Hr Hcov.
  assert (∀ t, t ∈ drawn ({| duty_of := d'; read_of := r' |} :: gs) → t ∈ drawn (g :: gs)) as Hsub.
  { intros t. rewrite !drawn_cons. simpl. destruct Hd as [->|Hn]; [done|]. rewrite Hn. simpl.
    intros Ht. rewrite elem_of_app. by right. }
  split; try done.
  - rewrite drawn_cons in H1. rewrite drawn_cons. cbn [duty_of].
    destruct Hd as [->|Hn]; [done|]. rewrite Hn. cbn [option_list app].
    rewrite <- app_assoc in H1. by apply NoDup_app in H1 as (_ & _ & H1).
  - intros t Ht. assert (t ∈ drawn (g :: gs) ++ future w) as Ht0.
    { rewrite elem_of_app in *. destruct Ht; auto. }
    destruct (H2 t Ht0) as [? Hrd]. inv Hrd. split; [done|]. constructor; [|done].
    cbn [read_of]. intros u ->. by destruct (Hr t u eq_refl).
  - inv H5. constructor; [|done]. cbn [read_of]. intros t u ->. by apply Hr.
  - intros Hc t u Hl Hb. specialize (H7 Hc t u Hl Hb). inv H7; [left; by apply Hcov|by right].
Qed.

(** A thread that has done its duty. *)
Lemma discharge gs w g :
  auth_inv (g :: gs) w → (calm → ∀ t u, covers t u g → live_session w t u → ¬ banned_user w u) →
  auth_inv (idle :: gs) w.
Proof.
  intros HI Hno. eapply change_duty; [exact HI|by right|done|].
  intros Hc t u Hcov Hl Hb. by destruct (Hno Hc t u Hcov Hl).
Qed.

(** ** The steps on sessions *)

Lemma calm_faults gs w : auth_inv gs w → w_faults w ≠ [] → ¬ calm.
Proof. intros HI Hf Hc. by apply Hf, (ai_calm _ _ HI). Qed.
Lemma quiet_set_faults fs w : w_faults w ≠ [] → quiet w (set_faults fs w).
Proof. intros Hf. by apply quiet_same. Qed.

(** One Redis call: it answers, or it fails before or after its effect; the latter
    two not when all is calm. *)
Lemma during_redis {A} (f : time → RedisState → A * RedisState) (Q : res A → ghost → Prop) g :
  (∀ gs w, auth_inv (g :: gs) w →
     let w' := set_redis (f (w_wall w) (w_redis w)).2 w in
     (∃ g', auth_inv (g' :: gs) w' ∧ Q (Ok (f (w_wall w) (w_redis w)).1) g') ∧
     (¬ calm → ∃ g', auth_inv (g' :: gs) w' ∧ Q (Err ErrConn) g')) →
  (∀ gs w, ¬ calm → auth_inv (g :: gs) w → ∃ g', auth_inv (g' :: gs) w ∧ Q (Err ErrConn) g') →
  during (atomic (redis f)) Q g.
Proof.
  intros Hok Herr. apply holds_atomic. intros gs w HI.
  destruct (decide (w_faults w = [])) as [Ef|Ef].
  - rewrite redis_nofault by done. destruct (Hok gs w HI) as [(g' & HI' & HQ) _]. by exists g'.
  - pose proof (calm_faults _ _ HI Ef) as Hnc. destruct (redis f w) as [r w'] eqn:E.
    apply redis_spec in E as (fs & [[-> ->]|[-> Hr]]); cbn [fst snd].
    + destruct (Herr gs w Hnc HI) as (g' & HI' & HQ). exists g'. split_and!; [|done|done].
      eapply quiet_inv; [exact HI'|by apply quiet_set_faults].
    + destruct (Hok gs w HI) as [(g1 & HI1 & HQ1) He]. destruct (He Hnc) as (g2 & HI2 & HQ2).
      destruct Hr as [->| ->]; [exists g1|exists g2]; (split_and!; [|done|done]);
        (eapply quiet_inv; [eassumption|by apply quiet_set_faults]).
Qed.

Lemma token_of_ne bs : token_of bs ≠ "".
Proof.
  intros E. apply (f_equal to_bytes) in E. apply (f_equal length) in E. revert E.
  unfold token_of, RawURL_EncodeToString, encode. rewrite to_of_bytes, length_map, chunks_length by lia.
  rewrite flat_bits_length, length_take, length_app, length_replicate.
  replace (32 `min` (length bs + 32)) with 32 by lia. done.
Qed.

Lemma during_gets {A} (f : World → A) (Q : res A → ghost → Prop) g :
  (∀ a, Q (Ok a) g) → during (atomic (gets f)) Q g.
Proof. intros HQ. apply holds_atomic. intros gs w HI. exists g. split_and!; [exact HI|done|apply HQ]. Qed.

Lemma discharge_idle gs w g : auth_inv (g :: gs) w → duty_of g = Idle → auth_inv (idle :: gs) w.
Proof. intros HI Hg. eapply discharge; [exact HI|]. intros _ t u Hc. unfold covers in Hc. by rewrite Hg in Hc. Qed.

(** Drawing a token. *)
Lemma during_draw (Q : res (list N) → ghost → Prop) g :
  duty_of g = Idle →
  (∀ raw, RawURL_EncodeToString raw ≠ "" → Q (Ok raw) (on_duty (Drawn (RawURL_EncodeToString raw)))) →
  (∀ e, Q (Err e) idle) → during (atomic (rand_Read 32)) Q g.
Proof.
  intros Hg Hok Herr. apply holds_atomic. intros gs w HI%discharge_idle; [|done]. unfold rand_Read.
  destruct (w_rand w) as [|[bs|] rs] eqn:E; cbn [fst snd].
  - by exists idle.
  - exists (on_duty (Drawn (token_of bs))). split_and!; [|done|by apply Hok, token_of_ne].
    destruct HI as [H1 H2 H3 H4 H5 H6 H7].
    assert (drawn (on_duty (Drawn (token_of bs)) :: gs) ++ future (set_rand rs w) ≡ₚ drawn (idle :: gs) ++ future w) as Hp.
    { unfold future at 2. rewrite E. rewrite !drawn_cons. cbn. by rewrite Permutation_middle. }
    split; try done.
    + by rewrite Hp.
    + intros t Ht. rewrite Hp in Ht. destruct (H2 t Ht) as [? Hr]. split; [done|]. inv Hr. by constructor.
    + inv H5. constructor; [by intros t u|done].
    + intros Hc t u Hl Hb. specialize (H7 Hc t u Hl Hb). inv H7; [done|by right].
  - exists idle. split_and!; [|done|done]. eapply quiet_inv; [exact HI|].
    split; simpl; [done..|apply tame_refl|rewrite E; by eexists [_]].
Qed.

(** Storing the session of a drawn token. *)
Lemma store_inv gs w s :
  auth_inv (on_duty (Drawn (s_Token s)) :: gs) w → s_Token s ≠ "" →
  auth_inv (on_duty (Checking (s_Token s) (s_UserID s)) :: gs)
    (set_redis (store_session (ac_ttl c) (w_wall w) s (w_redis w)) w).
Proof using Httl.
  intros [H1 H2 H3 H4 H5 H6 H7] Hne.
  destruct (H2 (s_Token s)) as [Hfresh Hunread]; [rewrite drawn_cons; by left|].
  pose proof (store_session_sess (ac_ttl c) (w_wall w) s (w_redis w) Hfresh) as Hs.
  rewrite drawn_cons in H1, H2. cbn [on_duty duty_of has_drawn option_list app] in H1, H2.
  apply NoDup_cons in H1 as [Hnew H1]. inv H5. inv Hunread. split.
  - done.
  - intros t Ht. rewrite drawn_cons in Ht. cbn [on_duty duty_of has_drawn option_list app] in Ht.
    change (future (set_redis _ w)) with (future w) in Ht.
    assert (t ≠ s_Token s) as Hnet by (intros ->; done).
    destruct (H2 t) as [Hno Hr]; [by right|]. split.
    + cbn [w_redis set_redis]. by rewrite Hs, lookup_insert_ne.
    + inv Hr. by constructor.
  - cbn [w_redis set_redis]. by rewrite Hs, lookup_insert_ne.
  - by apply index_ok_store.
  - constructor; [by intros t u|].
    match goal with H : Forall (λ g, ∀ t u, read_of g = _ → _) gs, H' : Forall (λ g, ∀ u, read_of g ≠ _) gs |- _ =>
      rename H into Hread; rename H' into Hun end.
    rewrite Forall_forall in Hread, Hun |- *. intros g Hg t u Hr h e Ht. cbn [w_redis set_redis] in Ht. rewrite Hs in Ht.
    destruct (decide (t = s_Token s)) as [->|Hnet]; [by destruct (Hun g Hg u)|].
    rewrite lookup_insert_ne in Ht by done. by eapply Hread.
  - done.
  - intros Hc t u (h & e & Ht & He & Hu) Hb. cbn [w_redis w_wall set_redis] in Ht, He. rewrite Hs in Ht.
    destruct (decide (t = s_Token s)) as [->|Hnet].
    + left. rewrite lookup_insert_eq in Ht. injection Ht as <- <-. cbn in Hu.
      apply (inj uuid_String) in Hu as <-. done.
    + rewrite lookup_insert_ne in Ht by done. specialize (H7 Hc t u (ex_intro _ h (ex_intro _ e (conj Ht (conj He Hu)))) Hb).
      inv H7. by right.
Qed.

Lemma during_Create u role ip ua (Q : res Session → ghost → Prop) g :
  (∀ s, s_UserID s = u → s_Token s ≠ "" → Q (Ok s) (on_duty (Checking (s_Token s) u))) →
  (∀ e, Q (Err e) idle) → duty_of g = Idle → during (session_Create (ac_ttl c) u role ip ua) Q g.
Proof using Httl.
  intros Hok Herr Hg. unfold session_Create. apply holds_bind, holds_map_err, during_draw; [done| |auto].
  intros raw Hne. apply holds_bind, during_gets. intros now. apply holds_bind, holds_map_err.
  set (s := {| s_Token := RawURL_EncodeToString raw; s_UserID := u; s_Role := role; s_CreatedAt := now; s_IP := ip; s_UA := ua |}).
  apply during_redis.
  - intros gs w HI. cbn zeta. split.
    + exists (on_duty (Checking (s_Token s) u)). split; [by apply store_inv|by apply holds_ret, Hok].
    + intros Hnc. exists idle. split; [|apply Herr].
      eapply discharge; [by apply (store_inv gs w s)|]. by intros Hc.
  - intros gs w Hnc HI. exists idle. split; [|apply Herr]. eapply discharge; [exact HI|]. by intros Hc.
Qed.

(** Looking a session up: when it is not there, nothing is left to check of it. *)
Definition settle (t : string) (d : duty) : duty :=
  match d with Checking t' _ => if decide (t' = t) then Idle else d | _ => d end.
Lemma settle_drawn t d : has_drawn (settle t d) = has_drawn d ∨ has_drawn (settle t d) = None.
Proof. left. destruct d; simpl; try done. by case_decide. Qed.
Lemma settle_covers t d t' u r r' :
  t' ≠ t → covers t' u {| duty_of := d; read_of := r |} → covers t' u {| duty_of := settle t d; read_of := r' |}.
Proof. unfold covers. destruct d; simpl; try done. case_decide; naive_solver. Qed.

Lemma change_to_settled gs w g t :
  auth_inv (g :: gs) w → (calm → ∀ u, ¬ live_session w t u) → auth_inv (on_duty (settle t (duty_of g)) :: gs) w.
Proof.
  intros HI Hdead. eapply change_duty; [exact HI|apply settle_drawn|done|].
  intros Hc t' u Hcov Hl Hb. destruct (decide (t' = t)) as [->|Hne]; [by destruct (Hdead Hc u)|].
  destruct g as [d r]. by eapply settle_covers.
Qed.

Lemma set_redis_same w : set_redis (w_redis w) w = w.
Proof. by destruct w. Qed.

(** Refreshing a session whose user was read. *)
Lemma refresh_lookup now t u r t' :
  rd_sess (refresh_session (ac_ttl c) now t u r) !! t' = rd_sess r !! t' ∨
  ∃ h e, rd_sess r !! t' = Some (h, e) ∧ unexpired now e = true ∧
         rd_sess (refresh_session (ac_ttl c) now t u r) !! t' = Some (h, Some (now + ac_ttl c)%Z).
Proof.
  unfold refresh_session. rewrite index_session_sess. cbn [on_sess rd_sess].
  destruct (decide (t = t')) as [->|Hne]; [|left; by rewrite expire_ne].
  unfold expire, fetch. destruct (rd_sess r !! t') as [[h e]|] eqn:E; [|by left].
  destruct (unexpired now e) eqn:He; [|by left]. right. exists h, e. by rewrite lookup_insert_eq.
Qed.
Lemma refresh_inv gs w d t u :
  auth_inv ({| duty_of := d; read_of := Some (t, u) |} :: gs) w →
  auth_inv ({| duty_of := d; read_of := Some (t, u) |} :: gs)
    (set_redis (refresh_session (ac_ttl c) (w_wall w) t u (w_redis w)) w).
Proof using Httl.
  intros [H1 H2 H3 H4 H5 H6 H7]. pose proof (refresh_lookup (w_wall w) t u (w_redis w)) as Hl. split; try done.
  - intros t' Ht'. destruct (H2 t' Ht') as [Hno ?]. split; [|done]. cbn [w_redis set_redis].
    destruct (Hl t') as [-> |(h & e & ? & _)]; [done|congruence].
  - cbn [w_redis set_redis]. destruct (Hl "") as [-> |(h & e & ? & _)]; [done|congruence].
  - apply index_ok_refresh; [done|done|]. exact (Forall_inv H5 t u eq_refl).
  - eapply Forall_impl; [exact H5|]. cbn beta. intros g Hg t' u' Hr h e Ht. cbn [w_redis set_redis] in Ht.
    destruct (Hl t') as [E|(h0 & e0 & E0 & _ & E)]; rewrite E in Ht; [by eapply Hg|].
    injection Ht as <- <-. by eapply Hg.
  - intros Hc t' u' (h & e & Ht & He & Hu) Hb. cbn [w_redis w_wall set_redis] in Ht, He.
    apply H7; [done| |done]. destruct (Hl t') as [E|(h0 & e0 & E0 & He0 & E)]; rewrite E in Ht.
    + by exists h, e.
    + injection Ht as <- <-. by exists h0, e0.
Qed.

Lemma during_Get t g (Q : res Session → ghost → Prop) :
  (t = "" → Q (Err ErrNoSession) g) →
  (∀ s g', s_Token s = t → duty_of g' = duty_of g → Q (Ok s) g') →
  (∀ e g', e = ErrNoSession ∨ ¬ calm → duty_of g' = settle t (duty_of g) → Q (Err e) g') →
  during (session_Get (ac_ttl c) (ac_ttl_reply c) t) Q g.
Proof using Httl.
  intros Hempty Hok Herr. unfold session_Get. destruct (decide (t = "")) as [Ht|Ht]; [by apply holds_throw, Hempty|].
  clear Hempty. apply holds_bind, holds_map_err. unfold redis_get. apply during_redis; cbn [fst snd].
  2: { intros gs w Hnc HI. exists (on_duty (settle t (duty_of g))). split; [by apply change_to_settled|].
       apply Herr; [by right|done]. }
  intros gs w HI. rewrite set_redis_same. cbn zeta. split.
  2: { intros Hnc. exists (on_duty (settle t (duty_of g))). split; [by apply change_to_settled|].
       apply Herr; [by right|done]. }
  destruct (fetch (w_wall w) (rd_sess (w_redis w)) t) as [h|] eqn:Ef.
  2: { exists (on_duty (settle t (duty_of g))). split; [|apply holds_throw, Herr; [by left|done]].
       apply change_to_settled; [done|]. intros _ u (h & e & Hs & He & _). unfold fetch in Ef.
       by rewrite Hs, He in Ef. }
  unfold fetch in Ef. destruct (rd_sess (w_redis w) !! t) as [[h0 e]|] eqn:Hs; [|done].
  destruct (unexpired (w_wall w) e) eqn:He; [|done]. injection Ef as ->.
  destruct (ai_index _ _ HI t h e Hs He) as (u & _ & _ & Hu & _).
  exists {| duty_of := duty_of g; read_of := Some (t, u) |}. split.
  { eapply change_duty; [exact HI|by left| |].
    - intros t' u' [= <- <-]. split.
      + intros Hin. destruct (ai_unused _ _ HI t Hin) as [Hno _]. congruence.
      + intros h' e' Hs'. congruence.
    - by destruct g. }
  rewrite Hu, uuid_Parse_String. clear gs w HI Hs He e.
  apply holds_bind, holds_try, during_quiet; [by apply all_respect_atomic, quiet_redis|].
  assert (during (mret {| s_Token := t; s_UserID := u; s_Role := sh_Role h; s_CreatedAt := sh_CreatedAt h;
    s_IP := sh_IP h; s_UA := sh_UA h |}) Q {| duty_of := duty_of g; read_of := Some (t, u) |}) as Hret
    by by apply holds_ret, Hok.
  intros [[d|]|e]; [|exact Hret..]. destruct (_ && _)%bool; [|exact Hret].
  apply holds_bind, holds_bind, holds_try. unfold redis_set. apply during_redis; cbn [fst snd].
  2: { intros gs w Hnc HI. exists {| duty_of := duty_of g; read_of := Some (t, u) |}. split; [done|exact Hret]. }
  intros gs w HI. cbn zeta.
  assert (auth_inv ({| duty_of := duty_of g; read_of := Some (t, u) |} :: gs)
    (set_redis (refresh_session (ac_ttl c) (w_wall w) t u (w_redis w)) w)) as HI'.
  { by apply refresh_inv. }
  split; [|intros _]; (exists {| duty_of := duty_of g; read_of := Some (t, u) |}; split; [exact HI'|exact Hret]).
Qed.

(** Dropping sessions. *)
Lemma shrink_inv gs w r :
  auth_inv gs w → index_ok (ac_ttl c) (w_wall w) r →
  (∀ t, rd_sess r !! t = None ∨ rd_sess r !! t = rd_sess (w_redis w) !! t) → auth_inv gs (set_redis r w).
Proof.
  intros [H1 H2 H3 H4 H5 H6 H7] HI Hl. split; try done.
  - intros t Ht. destruct (H2 t Ht) as [Hno ?]. split; [|done]. cbn [w_redis set_redis]. destruct (Hl t); congruence.
  - cbn [w_redis set_redis]. destruct (Hl ""); congruence.
  - eapply Forall_impl; [exact H5|]. cbn beta. intros g Hg t u Hr h e Ht. cbn [w_redis set_redis] in Ht.
    destruct (Hl t) as [E|E]; rewrite E in Ht; [done|by eapply Hg].
  - intros Hc t u (h & e & Ht & He & Hu) Hb. cbn [w_redis w_wall set_redis] in Ht, He.
    destruct (Hl t) as [E|E]; rewrite E in Ht; [done|]. apply H7; [done|by exists h, e|done].
Qed.
Lemma drop_inv gs w u t g :
  auth_inv (g :: gs) w →
  auth_inv (on_duty (settle t (duty_of g)) :: gs) (set_redis (drop_session (w_wall w) u t (w_redis w)) w).
Proof.
  intros HI. apply change_to_settled.
  - apply shrink_inv; [done|by apply index_ok_drop, (ai_index _ _ HI)|]. intros t'. rewrite drop_session_sess.
    destruct (decide (t' = t)) as [->|Hne]; [left; by rewrite lookup_delete_eq|right; by rewrite lookup_delete_ne].
  - intros _ u' (h & e & Hs & _). cbn [w_redis set_redis] in Hs. by rewrite drop_session_sess, lookup_delete_eq in Hs.
Qed.

Lemma during_Delete t g (Q : res unit → ghost → Prop) :
  (t = "" → Q (Ok tt) g) → (∀ r g', duty_of g' = settle t (duty_of g) → Q r g') →
  during (session_Delete (ac_ttl c) (ac_ttl_reply c) t) Q g.
Proof using Httl.
  intros Hempty HQ. unfold session_Delete. apply holds_bind, holds_try, during_Get.
  - intros Ht. cbn beta iota. rewrite decide_True by done. by apply holds_ret, Hempty.
  - intros s g' Hs Hg'. unfold redis_set. apply during_redis; cbn [fst snd].
    + intros gs w HI. cbn zeta.
      pose proof (drop_inv gs w (s_UserID s) t g' HI) as HI'. rewrite Hg' in HI'.
      split; [|intros _]; (exists (on_duty (settle t (duty_of g))); split; [done|by apply HQ]).
    + intros gs w Hnc HI. exists (on_duty (settle t (duty_of g))). split; [|by apply HQ].
      rewrite <- Hg'. by apply change_to_settled.
  - intros e g' He Hg'. destruct (decide (cause e = ErrNoSession)); [by apply holds_ret, HQ|by apply holds_throw, HQ].
Qed.

(** Reading whether the user of a new session is banned. *)
Lemma during_recheck t u (Q : res User → ghost → Prop) :
  (∀ f, u_Banned f = true → Q (Ok f) (on_duty (Checking t u))) →
  (∀ f, u_Banned f = false → Q (Ok f) idle) → (∀ e, Q (Err e) idle) →
  during (atomic (GetUserByID u)) Q (on_duty (Checking t u)).
Proof.
  intros Hb Hf He. apply holds_atomic. intros gs w HI.
  assert (∀ w', quiet w w' → (calm → ¬ banned_user w' u) → auth_inv (idle :: gs) w') as Hdone.
  { intros w' HQ Hno. eapply discharge; [by eapply quiet_inv|]. intros Hc t' u' [-> ->] _. by apply Hno. }
  destruct (quiet_query (λ _ d, (one (users d !! u), d))) with w as [_ HQ]; [|done|].
  { intros now d x d' [= _ <-]. apply tame_refl. }
  unfold GetUserByID, select. destruct (query _ w) as [r w'] eqn:E. cbn [fst snd] in *.
  destruct r as [f|e].
  - apply query_ok in E as (E & _). destruct (users (w_db w) !! u) as [f'|] eqn:Eu; [|done].
    injection E as -> Hd. destruct (u_Banned f) eqn:Ef.
    + exists (on_duty (Checking t u)). split_and!; [by eapply quiet_inv|done|by apply Hb].
    + exists idle. split_and!; [|done|by apply Hf]. apply Hdone; [done|]. intros _ (U & HU & HUb).
      rewrite <- Hd in HU. congruence.
  - exists idle. split_and!; [|done|apply He]. apply Hdone; [done|]. intros Hc (U & HU & _).
    rewrite query_nofault in E by (by apply (ai_calm _ _ HI)).
    destruct (users (w_db w) !! u) as [f'|] eqn:Eu; [done|]. injection E as _ <-. congruence.
Qed.

Lemma during_start_session ip ua u banned (Q : res Session → ghost → Prop) g :
  duty_of g = Idle → (∀ r g', duty_of g' = Idle → Q r g') → during (start_session c ip ua u banned) Q g.
Proof using Httl.
  intros Hg HQ. unfold start_session. apply holds_bind, during_Create; [|by intros e; apply HQ|done].
  intros s _ Hne. apply holds_bind, holds_try. unfold user_Get. apply holds_map_err, during_recheck.
  - intros f Hb. cbn beta iota. rewrite Hb. apply holds_bind, holds_try, during_Delete; [done|].
    intros r g' Hg'. cbn [settle duty_of on_duty] in Hg'. rewrite decide_True in Hg' by done. by apply holds_throw, HQ.
  - intros f Hb. cbn beta iota. rewrite Hb. by apply holds_ret, HQ.
  - intros e. by apply holds_ret, HQ.
Qed.

(** Revoking every session of a user: for a ban, or for no duty at all. *)
Lemma drops_inv gs w u keep ts g :
  auth_inv (g :: gs) w → duty_of g = Idle ∨ (duty_of g = Revoking u ts ∧ keep = "") →
  auth_inv (idle :: gs) (set_redis (drop_sessions (w_wall w) u keep ts (w_redis w)) w).
Proof.
  intros HI Hg.
  assert (auth_inv (g :: gs) (set_redis (drop_sessions (w_wall w) u keep ts (w_redis w)) w)) as HI'.
  { apply shrink_inv; [done|by apply index_ok_drops, (ai_index _ _ HI)|]. intros t. rewrite drop_sessions_sess.
    case_decide; [by left|by right]. }
  destruct Hg as [Hg|[Hg ->]]; [by eapply discharge_idle|].
  eapply discharge; [exact HI'|]. intros _ t u' Hcov (h & e & Hs & _). unfold covers in Hcov. rewrite Hg in Hcov.
  destruct Hcov as [-> Hin]. cbn [w_redis set_redis] in Hs. rewrite drop_sessions_sess in Hs.
  case_decide as Hd; [done|]. destruct (decide (t = "")) as [->|Hne]; [|by destruct Hd].
  by rewrite (ai_empty _ _ HI) in Hs.
Qed.

Lemma during_drops u keep ts g (Q : res unit → ghost → Prop) :
  duty_of g = Idle ∨ (duty_of g = Revoking u ts ∧ keep = "") → (∀ r g', duty_of g' = Idle → Q r g') →
  during (atomic (redis_set (λ now, drop_sessions now u keep ts))) Q g.
Proof.
  intros Hg HQ. unfold redis_set. apply during_redis; cbn [fst snd].
  - intros gs w HI. cbn zeta. pose proof (drops_inv _ _ _ keep _ _ HI Hg).
    split; [|intros _]; (exists idle; split; [done|by apply HQ]).
  - intros gs w Hnc HI. exists idle. split; [|by apply HQ]. eapply discharge; [exact HI|]. by intros Hc.
Qed.

Lemma during_revoke u keep g (Q : res unit → ghost → Prop) :
  duty_of g = Idle ∨ (duty_of g = Banning u ∧ keep = "") → (∀ r g', duty_of g' = Idle → Q r g') →
  during (DeleteAllForUser u keep) Q g.
Proof.
  intros Hg HQ. unfold DeleteAllForUser.
  assert (∀ gs w, ¬ calm → auth_inv (g :: gs) w → auth_inv (idle :: gs) w) as Hdrop.
  { intros gs w Hnc HI. eapply discharge; [exact HI|]. by intros Hc. }
  apply holds_bind, holds_map_err. unfold redis_get. apply during_redis; cbn [fst snd].
  2: { intros gs w Hnc HI. exists idle. split; [by apply Hdrop|by apply HQ]. }
  intros gs w HI. rewrite set_redis_same. cbn zeta. split.
  2: { intros Hnc. exists idle. split; [by apply Hdrop|by apply HQ]. }
  set (ts := smembers (w_wall w) (rd_users (w_redis w)) u).
  destruct Hg as [Hg|[Hg ->]].
  { exists g. split; [done|]. apply during_drops; [by left|done]. }
  exists (on_duty (Revoking u ts)). split; [|apply during_drops; [by right|done]].
  eapply change_duty; [exact HI|by right|done|]. intros Hc t u' Hcov Hl _. unfold covers in Hcov |- *.
  rewrite Hg in Hcov. subst u'. cbn [duty_of]. split; [done|].
  destruct Hl as (h & e & Hs & He & Hu). by eapply (index_ok_members (ac_ttl c)); [apply (ai_index _ _ HI)|done..].
Qed.

(** A ban, from its statement on. *)
Lemma ban_inv gs w u U :
  auth_inv (idle :: gs) w →
  auth_inv (on_duty (Banning u) :: gs) (set_db (set_users (<[u := U]> (users (w_db w))) (w_db w)) w).
Proof.
  intros [H1 H2 H3 H4 H5 H6 H7]. split; try done.
  - intros t Ht. destruct (H2 t Ht) as [? Hr]. inv Hr. split; [done|]. by constructor.
  - inv H5. by constructor.
  - intros Hc t u' Hl (U' & HU & Hb). destruct (decide (u' = u)) as [->|Hne]; [by left|].
    cbn [w_db set_db users set_users] in HU. rewrite lookup_insert_ne in HU by done.
    destruct Hl as (h & e & Ht & He & Hu).
    assert (Exists (covers t u') (idle :: gs)) as HE by (apply H7; [done|by exists h, e|by exists U']).
    inv HE. by right.
Qed.

Lemma during_admin_fields target hidden role g (Q : res User → ghost → Prop) :
  duty_of g = Idle → (∀ u, Q (Ok u) (on_duty (Banning target))) → (∀ e, Q (Err e) g) →
  during (atomic (UpdateUserAdminFields target (Some true) hidden role)) Q g.
Proof.
  intros Hg Hban Herr. apply holds_atomic. intros gs w HI. unfold UpdateUserAdminFields, query, mbind, M_bind.
  destruct (next_fault w) as [[b|e] w1] eqn:En; [|unfold next_fault in En; by destruct (w_faults w)].
  assert (quiet w w1) as HQ1.
  { unfold next_fault in En. destruct (w_faults w) eqn:Ef; injection En as _ <-; [reflexivity|].
    apply quiet_set_faults. by rewrite Ef. }
  pose proof (quiet_inv _ _ _ HI HQ1) as HI1. cbn beta iota.
  destruct b; [exists g; split_and!; [exact HI1|done|apply Herr]|]. destruct (users (w_db w1) !! target) as [U|] eqn:EU; [|exists g; split_and!; [exact HI1|done|apply Herr]].
  unfold guarded. destruct (first_violation _) as [e|]; [exists g; split_and!; [exact HI1|done|apply Herr]|]. cbn [fst snd].
  exists (on_duty (Banning target)). split_and!; [|done|apply Hban].
  apply ban_inv. by eapply discharge_idle.
Qed.

Lemma quiet_admin_fields target banned hidden role :
  banned ≠ Some true → all_quiet (atomic (UpdateUserAdminFields target banned hidden role)).
Proof.
  intros Hb. apply all_respect_atomic, quiet_query. intros now d u d' E.
  destruct (users d !! target) as [U|] eqn:EU; [|done]. apply guarded_ok in E as (_ & _ & ->).
  intros u' U' Hu' Hban. simpl in Hu'. apply lookup_insert_Some in Hu' as [[<- <-]|[_ Hu']]; [|by exists U'].
  exists U. split; [done|]. simpl in Hban. by destruct banned as [[]|].
Qed.

Lemma during_AdminUpdate actor target banned hidden role g (Q : res User → ghost → Prop) :
  duty_of g = Idle → (∀ r g', duty_of g' = Idle → Q r g') →
  during (user_AdminUpdate actor target banned hidden role) Q g.
Proof using Httl.
  intros Hg HQ. unfold user_AdminUpdate. destruct (_ && _); [by apply holds_throw, HQ|].
  destruct (match role with Some _ => _ | None => _ end); [by apply holds_throw, HQ|].
  apply holds_bind, holds_map_err. destruct (decide (banned = Some true)) as [->|Hb].
  - apply during_admin_fields; [done| |intros e; by apply HQ]. intros u. cbn beta iota.
    rewrite bool_decide_eq_true_2 by done. apply holds_bind, holds_map_err, during_revoke; [by right|].
    intros [[]|e] g' Hg'; [by apply holds_ret, HQ|by apply HQ].
  - apply during_quiet; [by apply quiet_admin_fields|]. intros [u|e]; [|by apply HQ].
    rewrite bool_decide_eq_false_2 by done. by apply holds_bind, holds_ret, holds_ret, HQ.
Qed.

(** ** The requests *)

(** Time passes. *)
Definition elapse (d : duration) : P World unit := atomic (modify (λ w, set_wall (w_wall w + d)%Z w)).

Inductive auth_program : prog World unit → Prop :=
  | ap_login caller ip ua email pw : auth_program (forget (h_Login c caller ip ua email pw))
  | ap_begin rps base url_state ip name :
      auth_program (forget (BeginProviderLogin c rps base url_state ip name))
  | ap_complete rps policy ip ua name cookie query :
      auth_program (forget (CompleteProviderLogin c rps policy ip ua name cookie query))
  | ap_register caller ip ua i : ¬ calm → auth_program (forget (h_Register c caller ip ua i))
  | ap_logout caller : auth_program (forget (h_Logout c caller))
  | ap_change caller current new : auth_program (forget (h_ChangePassword c caller current new))
  | ap_reset caller target new : auth_program (forget (h_AdminResetPassword c caller target new))
  | ap_update caller target banned hidden role :
      auth_program (forget (h_AdminUpdateUser c caller target banned hidden role))
  | ap_request cookie : auth_program (forget (sessionMiddleware c cookie))
  | ap_elapse d : (0 ≤ d)%Z → auth_program (forget (elapse d))
  | ap_quiet p : all_quiet p → auth_program p.

Lemma tick_inv gs w d : (0 ≤ d)%Z → auth_inv gs w → auth_inv gs (set_wall (w_wall w + d)%Z w).
Proof.
  intros Hd [H1 H2 H3 H4 H5 H6 H7]. split; try done.
  - eapply index_ok_tick; [|exact H4]. cbn [w_wall set_wall]. lia.
  - intros Hc t u (h & e & Ht & He & Hu) Hb. apply H7; [done| |done]. exists h, e. split_and!; [done| |done].
    eapply unexpired_mono; [|exact He]. cbn [w_wall set_wall]. lia.
Qed.

Abbreviation ends p := (∀ g, duty_of g = Idle → during p (λ _ g', duty_of g' = Idle) g).
Lemma ends_quiet {A} (p : prog World A) : all_quiet p → ends p.
Proof. intros Hp g Hg. by apply during_quiet. Qed.

Lemma login_ends caller ip ua email pw : ends (h_Login c caller ip ua email pw).
Proof using Httl.
  intros g Hg. unfold h_Login. destruct (ac_EmailLoginDisabled c); [done|].
  apply during_after; [by respect| |done]. intros [].
  apply during_after; [auto with resp| |done]. intros [].
  apply during_after; [by respect| |done]. intros uid.
  apply during_after; [by respect| |done]. intros u.
  apply holds_bind, during_start_session; [done|]. intros [s|e] g' Hg'; [|done].
  by apply during_quiet; [respect|].
Qed.

Lemma complete_ends rps policy ip ua name cookie query :
  ends (CompleteProviderLogin c rps policy ip ua name cookie query).
Proof using Httl.
  intros g Hg. unfold CompleteProviderLogin.
  assert (∀ g, duty_of g = Idle → during fail_login (λ _ g', duty_of g' = Idle) g) as Hfail
    by (intros; by apply during_quiet; [auto with resp|]).
  destruct (rps name) as [rp|]; [|by apply Hfail].
  apply during_after; [by respect| |done]. intros [].
  destruct cookie as [v|]; [|by apply Hfail]. case_bool_decide; [by apply Hfail|].
  destruct (negb _); [by apply Hfail|].
  apply during_after; [by respect| |done]. intros [st|e]; [|by apply Hfail].
  destruct (negb _); [by apply Hfail|].
  apply during_after; [by respect| |done]. intros [ext|e]; [|by apply Hfail].
  apply during_after; [by respect| |done]. intros [u|e]; [|by apply Hfail].
  apply holds_bind, holds_try, during_start_session; [done|]. intros [s|e] g' Hg'; [|by apply Hfail].
  unfold clearLoginStateCookie. by apply during_quiet; [respect|].
Qed.

Lemma logout_ends caller : ends (h_Logout c caller).
Proof using Httl.
  intros g Hg. unfold h_Logout. apply during_after; [auto with resp| |done]. intros i.
  assert (∀ (r : res unit) g', duty_of g' = Idle → match r with Ok _ => during clearSessionCookie (λ _ g', duty_of g' = Idle) g' | Err _ => duty_of g' = Idle end) as Hend
    by (intros [[]|e] g' Hg'; [by apply during_quiet; [unfold clearSessionCookie; auto with resp|]|done]).
  apply holds_bind, during_Delete.
  - intros _. by apply (Hend (Ok tt)).
  - intros r g' Hg'. apply (Hend r). by rewrite Hg', Hg.
Qed.

Lemma request_ends cookie : ends (sessionMiddleware c cookie).
Proof using Httl.
  intros g Hg. unfold sessionMiddleware. destruct cookie as [v|]; [|done]. case_bool_decide; [done|].
  apply holds_bind, holds_try, during_Get; [done|..].
  - intros s g' _ Hg'. apply holds_ret. by rewrite Hg'.
  - intros e g' _ Hg'. apply holds_ret. by rewrite Hg', Hg.
Qed.

Lemma revoke_ends u keep : ends (DeleteAllForUser u keep).
Proof. intros g Hg. apply during_revoke; [by left|done]. Qed.

Lemma change_ends caller current new : ends (h_ChangePassword c caller current new).
Proof.
  intros g Hg. unfold h_ChangePassword, user_ChangePassword.
  apply during_after; [auto with resp| |done]. intros i.
  apply during_after; [auto with resp| |done]. intros u.
  apply during_after; [by respect| |done]. intros [[]|e]; [|done|by destruct (is_unavailable e)].
  apply during_after; [auto with resp| |done]. intros [].
  apply during_after; [by respect| |done]. intros h.
  apply during_after; [by respect| |done]. intros [].
  apply holds_map_err. by apply revoke_ends.
Qed.

Lemma reset_ends caller target new : ends (h_AdminResetPassword c caller target new).
Proof.
  intros g Hg. unfold h_AdminResetPassword, user_AdminResetPassword.
  apply during_after; [auto with resp| |done]. intros actor. apply holds_bind.
  apply during_after; [auto with resp| |done]. intros u.
  apply during_after; [auto with resp| |done]. intros [].
  apply during_after; [by respect| |done]. intros h.
  apply during_after; [by respect| |done]. intros [].
  apply holds_map_err. eapply holds_mono; [by apply revoke_ends|]. intros [[]|e] g' Hg'; [|done].
  by apply during_quiet; [auto with resp|].
Qed.

Lemma update_ends caller target banned hidden role : ends (h_AdminUpdateUser c caller target banned hidden role).
Proof using Httl.
  intros g Hg. unfold h_AdminUpdateUser.
  apply during_after; [auto with resp| |done]. intros actor.
  apply holds_bind, during_AdminUpdate; [done|]. intros [u|e] g' Hg'; [|done].
  by apply during_quiet; [respect|].
Qed.

Lemma register_ends caller ip ua i : ¬ calm → ends (h_Register c caller ip ua i).
Proof using Httl.
  intros Hnc g Hg. unfold h_Register.
  apply during_after; [by respect| |done]. intros [].
  apply during_after; [auto with resp| |done]. intros u.
  apply holds_bind, during_Create; [|done|done]. intros s _ _.
  apply holds_bind. unfold setSessionCookie. apply holds_atomic. intros gs w HI. exists idle. split_and!; [|done|].
  - apply (quiet_inv _ w); [|by apply quiet_same]. eapply discharge; [exact HI|]. by intros Hc.
  - cbn beta iota. by apply during_quiet; [auto with resp|].
Qed.

Lemma auth_program_ends p : auth_program p → ends p.
Proof using Httl.
  destruct 1; intros g Hg; [apply (holds_forget (λ x, duty_of x = Idle))..|].
  - by apply login_ends.
  - apply during_quiet; [|done]. unfold BeginProviderLogin, Mint, Store, setLoginStateCookie.
    respect; by apply quiet_redis.
  - by apply complete_ends.
  - by apply register_ends.
  - by apply logout_ends.
  - by apply change_ends.
  - by apply reset_ends.
  - by apply update_ends.
  - by apply request_ends.
  - apply holds_atomic. intros gs w HI. exists g. split_and!; [by apply tick_inv|done..].
  - by apply during_quiet.
Qed.

(** The start: nobody holds anything, and the tokens to come are new. *)
Record auth_start (w : World) : Prop := {
  as_nodup : NoDup (future w);
  as_unused : ∀ t, t ∈ future w → rd_sess (w_redis w) !! t = None;
  as_empty : rd_sess (w_redis w) !! "" = None;
  as_index : index_ok (ac_ttl c) (w_wall w) (w_redis w)
}.
Lemma start_inv n w :
  auth_start w → (calm → w_faults w = [] ∧ ∀ t u, live_session w t u → ¬ banned_user w u) →
  auth_inv (replicate n idle) w.
Proof.
  intros [H1 H2 H3 H4] Hc. assert (drawn (replicate n idle) = []) as Hd.
  { unfold drawn. by induction n. }
  split; rewrite ?Hd; [done| |done|done| | |].
  - intros t Ht. split; [by apply H2|]. by apply Forall_replicate.
  - apply Forall_replicate. by intros t u.
  - intros Hcalm. by apply Hc.
  - intros Hcalm t u Hl Hb. by destruct (proj2 (Hc Hcalm) t u Hl).
Qed.

Lemma auth_pool (ps ps' : list (prog World unit)) (w w' : World) :
  Forall auth_program ps → auth_start w →
  (calm → w_faults w = [] ∧ ∀ t u, live_session w t u → ¬ banned_user w u) →
  rtc pool_step (ps, w) (ps', w') →
  ∃ gs, auth_inv gs w' ∧ (Forall (λ p, p = Ret tt) ps' → Forall (λ g, duty_of g = Idle) gs).
Proof using Httl.
  intros Hps Hs Hc Hr.
  destruct (holds_pool (λ g, duty_of g = Idle) auth_inv (λ _ _, True) auth_inv_perm ps
    (replicate (length ps) idle) w ps' w') as (gs & Hgs & HI & _); [|by apply start_inv|exact Hr|].
  { clear -Hps Httl. induction Hps as [|p ps Hp _ IH]; simpl; constructor; [by apply auth_program_ends|done]. }
  exists gs. split; [done|]. by eapply holds_ended.
Qed.
End Rules.

(** ** The guarantees *)

(** C18: However logins (by password or through a provider), registrations, logouts,
    password changes and resets, bans, requests and the passing of time
    interleave, and whichever calls fail: every live session is listed in its
    user's index, which lives at least as long as the session. *)
Theorem sessions_stay_indexed {L : Libs} (c : AuthConf) (ps ps' : list (prog World unit)) (w w' : World)
    (Httl : (0 < ac_ttl c)%Z) (Hps : Forall (auth_program c False) ps) (Hstart : auth_start c w)
    (Hr : rtc pool_step (ps, w) (ps', w')) :
  ∀ t h e, rd_sess (w_redis w') !! t = Some (h, e) → unexpired (w_wall w') e = true →
    ∃ u te S te', e = Some te ∧ sh_UserID h = uuid_String u ∧
      rd_users (w_redis w') !! u = Some (S, Some te') ∧ t ∈ S ∧ (w_wall w' < te ≤ te')%Z.
Proof.
  intros t h e Ht He.
  destruct (auth_pool c Httl False ps ps' w w' Hps Hstart (False_ind _) Hr) as (gs & HI & _).
  destruct (ai_index _ _ _ _ HI t h e Ht He) as (u & te & -> & Hu & _ & (S & te' & HS & Hin & Hle)).
  apply live_expiry in He. exists u, te, S, te'. split_and!; [done..|lia|done].
Qed.

(** C17: A ban catches every session.  While the database and Redis answer, let
    logins, redirect logins, logouts, password changes, bans and requests run in
    any order, step by step: once they have all ended, no banned user has a live
    session, those whose login was under way during the ban included. *)
Theorem bans_catch_every_session {L : Libs} (c : AuthConf) (ps ps' : list (prog World unit)) (w w' : World)
    (Httl : (0 < ac_ttl c)%Z) (Hps : Forall (auth_program c True) ps) (Hstart : auth_start c w)
    (Hcalm : w_faults w = []) (Hnone : ∀ t u, live_session w t u → ¬ banned_user w u)
    (Hr : rtc pool_step (ps, w) (ps', w')) (Hended : Forall (λ p, p = Ret tt) ps') :
  ∀ t u, live_session w' t u → ¬ banned_user w' u.
Proof.
  intros t u Hl Hb.
  destruct (auth_pool c Httl True ps ps' w w' Hps Hstart (λ _, conj Hcalm Hnone) Hr) as (gs & HI & Hgs).
  pose proof (ai_banned _ _ _ _ HI Logic.I t u Hl Hb) as HE. specialize (Hgs Hended).
  apply Exists_exists in HE as (g & Hg & Hc). rewrite Forall_forall in Hgs. specialize (Hgs g Hg).
  unfold covers in Hc. by rewrite Hgs in Hc.
Qed.

(** Revoking a user's sessions amid any activity that keeps the index complete
    and revives none of the sessions [T]: when it succeeds, none of the user's
    sessions of [T], the kept one apart, is left. *)
Theorem DeleteAllForUser_revokes {L : Libs} (c : AuthConf) (E : World → World → Prop) (T : gset string)
    (u : uuid) (keep : string) (w w' : World)
    (HI : index_ok (ac_ttl c) (w_wall w) (w_redis w))
    (HE : ∀ w1 w2, E w1 w2 →
       (index_ok (ac_ttl c) (w_wall w1) (w_redis w1) → index_ok (ac_ttl c) (w_wall w2) (w_redis w2)) ∧
       ∀ t v, t ∈ T → live_session w2 t v → live_session w1 t v)
    (Hr : amid E (DeleteAllForUser u keep) w (Ok tt) w') :
  ∀ t, t ∈ T → t ≠ keep → ¬ live_session w' t u.
Proof.
  assert (∀ w1 w2, rtc E w1 w2 →
    (index_ok (ac_ttl c) (w_wall w1) (w_redis w1) → index_ok (ac_ttl c) (w_wall w2) (w_redis w2)) ∧
    ∀ t v, t ∈ T → live_session w2 t v → live_session w1 t v) as HE'.
  { induction 1 as [|w1 w2 w3 H1 _ [IH1 IH2]]; [done|]. destruct (HE _ _ H1) as [H2 H3]. eauto 10. }
  clear HE. apply amid_inv in Hr. simpl in Hr. destruct Hr as (w1 & r & w2 & H1 & [= E1] & Hr).
  destruct (HE' _ _ H1) as [HI1 _]. specialize (HI1 HI). unfold redis_get in E1.
  destruct (redis _ w1) as [r1 w2'] eqn:Er in E1. injection E1 as <- <-.
  apply redis_spec in Er as (fs & [[_ ->]|[-> [-> | ->]]]);
    try (by apply amid_inv in Hr as [? _]). cbn [fst snd] in Hr.
  apply amid_inv in Hr. simpl in Hr. destruct Hr as (w3 & r & w4 & H3 & [= E3] & Hr).
  apply amid_inv in Hr as [Hr0 H5]. subst r.
  destruct (HE' _ _ H3) as [_ Hlive3]. destruct (HE' _ _ H5) as [_ Hlive5]. clear HE'.
  unfold redis_set in E3. apply redis_spec in E3 as (fs' & [[_ ?]|[-> _]]); [done|]. cbn [fst snd] in *.
  intros t Ht Hkeep Hl. apply (Hlive5 _ _ Ht) in Hl as (h & e & Hs & He & Hu).
  cbn [w_redis w_wall set_redis set_faults] in Hs, He. rewrite drop_sessions_sess in Hs.
  case_decide as Hd; [done|]. destruct Hd. split; [|done].
  destruct (Hlive3 t u Ht) as (h1 & e1 & Hs1 & He1 & Hu1); [by exists h, e|].
  cbn [w_redis w_wall set_redis set_faults] in Hs1, He1.
  by eapply (index_ok_members (ac_ttl c)).
Qed.

(** ** Concrete inputs *)

Section Demo.
#[local] Existing Instance demo_libs.

Definition demo_ban_threads : list (prog World unit) :=
  [forget (h_Login demo_conf None "ip" "ua" "Eve@x.org" "correct horse");
   forget (h_AdminUpdateUser demo_conf (Some demo_admin) 11 (Some true) None None)].
(** The ban runs between the check of the password and the new session. *)
Definition demo_ban_schedule : list nat := repeat 0 6 ++ repeat 1 7 ++ repeat 0 5.

Lemma demo_no_sessions t : rd_sess (w_redis demo_accounts) !! t = None.
Proof. apply lookup_empty. Qed.
Lemma demo_auth_start : auth_start demo_conf demo_accounts.
Proof.
  split.
  - apply (bool_decide_unpack _). vm_compute. exact Logic.I.
  - intros t _. apply demo_no_sessions.
  - apply demo_no_sessions.
  - intros t h e Ht. by rewrite demo_no_sessions in Ht.
Qed.
Lemma demo_ban_programs calm : Forall (auth_program demo_conf calm) demo_ban_threads.
Proof. unfold demo_ban_threads. apply Forall_cons_2; [apply ap_login|]. apply Forall_cons_2; [apply ap_update|apply Forall_nil_2]. Qed.

Lemma sessions_stay_indexed_witness :
  match exec (repeat 0 10) demo_ban_threads demo_accounts with
  | Some (_, w') => ∀ t h e, rd_sess (w_redis w') !! t = Some (h, e) → unexpired (w_wall w') e = true →
      ∃ u te S te', e = Some te ∧ sh_UserID h = uuid_String u ∧
        rd_users (w_redis w') !! u = Some (S, Some te') ∧ t ∈ S ∧ (w_wall w' < te ≤ te')%Z
  | None => False
  end.
Proof.
  assert (match exec (repeat 0 10) demo_ban_threads demo_accounts with
          | Some (_, w') => (size (rd_sess (w_redis w')) =? 1)%nat | None => false end = true) as Hrun
    by (vm_compute; reflexivity).
  destruct (exec (repeat 0 10) demo_ban_threads demo_accounts) as [[ps' w']|] eqn:Ex; [|discriminate Hrun].
  exact (sessions_stay_indexed demo_conf demo_ban_threads ps' demo_accounts w' eq_refl (demo_ban_programs False)
    demo_auth_start (exec_sound _ _ _ _ _ Ex)).
Defined.

Definition is_banned (w : World) (u : uuid) : bool :=
  match users (w_db w) !! u with Some U => u_Banned U | None => false end.
Lemma is_banned_user w u : is_banned w u = true → banned_user w u.
Proof. unfold is_banned, banned_user. destruct (users (w_db w) !! u) as [U|]; [|done]. by exists U. Qed.

Lemma bans_catch_every_session_witness :
  match exec demo_ban_schedule demo_ban_threads demo_accounts with
  | Some (_, w') => banned_user w' 11 ∧ ∀ t, ¬ live_session w' t 11
  | None => False
  end.
Proof.
  assert (match exec demo_ban_schedule demo_ban_threads demo_accounts with
          | Some (ps', w') => forallb ended ps' && is_banned w' 11
          | None => false end = true) as Hrun by (vm_compute; reflexivity).
  destruct (exec demo_ban_schedule demo_ban_threads demo_accounts) as [[ps' w']|] eqn:Ex; [|discriminate Hrun].
  apply andb_prop in Hrun as [Hend Hban].
  pose proof (is_banned_user w' 11 Hban) as Hb.
  assert (∀ t u, live_session demo_accounts t u → ¬ banned_user demo_accounts u) as Hnone.
  { intros t0 u0 (h & e & Ht & _). by rewrite demo_no_sessions in Ht. }
  assert (w_faults demo_accounts = []) as Hcalm by reflexivity.
  assert (0 < ac_ttl demo_conf)%Z as Httl by reflexivity.
  split; [exact Hb|]. intros t Hl.
  exact (bans_catch_every_session demo_conf demo_ban_threads ps' demo_accounts w' Httl (demo_ban_programs True)
    demo_auth_start Hcalm Hnone (exec_sound _ _ _ _ _ Ex) (ended_all _ Hend) t 11%N Hl Hb).
Defined.

(** A registration is not covered: banned between its account and its session, a
    new user keeps the session. *)
Theorem register_outlives_ban :
  let i := {| ri_Username := "newbie"; ri_Email := "newbie@x.org"; ri_Password := "correct horse" |} in
  let ps := [forget (h_Register demo_conf None "ip" "ua" i);
             forget (h_AdminUpdateUser demo_conf (Some demo_admin) 100 (Some true) None None)] in
  match exec (repeat 0 5 ++ repeat 1 7 ++ repeat 0 5) ps demo_accounts with
  | Some (ps', w') => forallb ended ps' = true ∧ (∃ t, live_session w' t 100) ∧ banned_user w' 100
  | None => False
  end.
Proof.
  intros i ps.
  assert (match exec (repeat 0 5 ++ repeat 1 7 ++ repeat 0 5) ps demo_accounts with
    | Some (ps', w') =>
        forallb ended ps' &&
        is_banned w' 100 &&
        existsb (λ p, unexpired (w_wall w') p.2.2 && bool_decide (sh_UserID p.2.1 = uuid_String 100))
          (map_to_list (rd_sess (w_redis w')))
    | None => false end = true) as Hrun by (vm_compute; reflexivity).
  destruct (exec _ ps demo_accounts) as [[ps' w']|]; [|discriminate Hrun].
  apply andb_prop in Hrun as [[Hend Hban]%andb_prop Hlive]. split_and!; [done| |].
  - apply existsb_exists in Hlive as ([t [h e]] & Hin & [He Hu%bool_decide_eq_true]%andb_prop).
    apply list_elem_of_In, elem_of_map_to_list in Hin. exists t, h, e. by split_and!.
  - exact (is_banned_user w' 100 Hban).
Qed.

Lemma DeleteAllForUser_revokes_witness :
  match exec (repeat 0 10) [forget (h_Login demo_conf None "ip" "ua" "Eve@x.org" "correct horse")] demo_accounts with
  | Some (_, w) =>
      match solo (DeleteAllForUser 11 "") w with
      | Some (Ok tt, w') => size (rd_sess (w_redis w)) = 1 ∧
          ∀ t, t ∈ dom (rd_sess (w_redis w)) → t ≠ "" → ¬ live_session w' t 11
      | _ => False
      end
  | None => False
  end.
Proof.
  assert (match exec (repeat 0 10) [forget (h_Login demo_conf None "ip" "ua" "Eve@x.org" "correct horse")] demo_accounts with
          | Some (_, w) => match solo (DeleteAllForUser 11 "") w with
                           | Some (Ok tt, _) => (size (rd_sess (w_redis w)) =? 1)%nat | _ => false end
          | None => false end = true) as Hrun by (vm_compute; reflexivity).
  destruct (exec (repeat 0 10) [forget (h_Login demo_conf None "ip" "ua" "Eve@x.org" "correct horse")] demo_accounts)
    as [[ps w]|] eqn:Ex; [|discriminate Hrun].
  destruct (solo (DeleteAllForUser 11 "") w) as [[[[]|e] w']|] eqn:Es; [|discriminate Hrun..].
  split; [by apply Nat.eqb_eq in Hrun|].
  assert (index_ok (ac_ttl demo_conf) (w_wall w) (w_redis w)) as HI.
  { destruct (auth_pool demo_conf eq_refl False [forget (h_Login demo_conf None "ip" "ua" "Eve@x.org" "correct horse")]
      ps demo_accounts w (Forall_cons_2 _ _ _ (ap_login _ _ _ _ _ _ _) (Forall_nil_2 _)) demo_auth_start (False_ind _)
      (exec_sound _ _ _ _ _ Ex)) as (gs & HIg & _). exact (ai_index _ _ _ _ HIg). }
  exact (DeleteAllForUser_revokes demo_conf (λ _ _, False) _ 11 "" w w' HI (λ _ _ F, match F with end) (solo_amid _ _ _ _ _ Es)).
Defined.
End Demo.
