(* ===== verification/TokenRules.v ===== *)
(** * What an API token can do

    A presented token is judged on the rows of this very request; the middleware
    lets nothing through beyond its scopes; an issued token is the one that
    authenticates. *)

From S2P Require Import Prelude Interleave Text Env Demo Store Users Redis Sessions Passwords Tokens ExternalAuth Accounts AuthApi AuthDemo.

Section Rules.
Context {L : Libs}.

(** ** What the rows say of a raw token *)

Definition well_formed (raw body : string) : Prop :=
  raw = TokenPrefix +:+ body ∧ tokenPrefixLen ≤ String.length body.
(** [k] is a row of the presented token. *)
Definition presented (d : DB) (raw : string) (k : ApiToken) : Prop :=
  ∃ id body, tokens d !! id = Some k ∧ well_formed raw body ∧
    k_TokenHash k = sha256_hex raw ∧ k_Prefix k = first_chars tokenPrefixLen body.
Definition out_of_date (now : time) (k : ApiToken) : Prop := ∃ t, k_ExpiresAt k = Some t ∧ (t ≤ now)%Z.
Definition identity_of (k : ApiToken) (u : User) : Identity :=
  {| id_UserID := u_ID u; id_Role := u_Role u; id_SessionToken := ""; id_Method := AuthToken;
     id_Scopes := k_Scopes k; id_TokenID := k_ID k |}.


(** ** Pieces *)

Lemma CutPrefix_app p s : CutPrefix (p +:+ s) p = Some s.
Proof. unfold CutPrefix. rewrite to_bytes_app, strip_app. simpl. by rewrite of_to_bytes. Qed.
Lemma CutPrefix_some s p body : CutPrefix s p = Some body → s = p +:+ body.
Proof.
  unfold CutPrefix. intros (l & Hl & ->)%fmap_Some.
  assert (to_bytes s = to_bytes p ++ l) as E.
  { revert l Hl. generalize (to_bytes s) as b. induction (to_bytes p) as [|x q IH]; intros b l; simpl.
    - by intros [= ->].
    - destruct b as [|y b]; [done|]. case_decide as Hx; [|done]. subst. intros Hl. by rewrite (IH _ _ Hl). }
  apply (f_equal of_bytes) in E. rewrite of_to_bytes in E. rewrite E. rewrite <- (to_of_bytes l) at 1.
  by rewrite <- to_bytes_app, of_to_bytes.
Qed.

Lemma parsePresented_some raw p h :
  parsePresented raw = Some (p, h) ↔
  ∃ body, well_formed raw body ∧ p = first_chars tokenPrefixLen body ∧ h = sha256_hex raw.
Proof.
  unfold parsePresented, well_formed. split.
  - destruct (CutPrefix raw TokenPrefix) as [body|] eqn:E; [|done]. cbn [mbind option_bind].
    apply CutPrefix_some in E. destruct (Nat.ltb_spec (String.length body) tokenPrefixLen) as [|Hl]; [done|].
    intros [= <- <-]. by exists body.
  - intros (body & [-> Hl] & -> & ->). rewrite CutPrefix_app. cbn [mbind option_bind].
    by destruct (Nat.ltb_spec (String.length body) tokenPrefixLen); [lia|].
Qed.

Lemma match_hash_some h l k : match_hash h l = Some k → k ∈ l ∧ k_TokenHash k = h.
Proof.
  unfold match_hash. assert (∀ m, foldl (λ m k, if bool_decide (h = k_TokenHash k) then Some k else m) m l = Some k →
    m = Some k ∨ k ∈ l ∧ k_TokenHash k = h) as H; [|by intros [|]%H].
  induction l as [|x l IH]; intros m; simpl; [by left|]. intros [E|[Hin E]]%IH; [|by right; split; [right|]].
  case_bool_decide; [|by left]. simplify_eq. right. by split; [left|].
Qed.
Lemma match_hash_none h l k : match_hash h l = None → k ∈ l → k_TokenHash k ≠ h.
Proof.
  unfold match_hash. intros Hn. assert (∀ l m, foldl (λ m k, if bool_decide (h = k_TokenHash k) then Some k else m) m l = None →
    m = None ∧ ∀ k, k ∈ l → k_TokenHash k ≠ h) as H; [|by apply (H l None)].
  clear l Hn. induction l as [|x l IH]; intros m; simpl.
  - intros ->. split; [done|]. by intros ? ?%elem_of_nil.
  - intros [E Hl]%IH. case_bool_decide; [done|]. split; [done|]. intros y [->|]%elem_of_cons; auto.
Qed.

Lemma candidate d raw p h k :
  parsePresented raw = Some (p, h) →
  k ∈ tokens_by_prefix d p ∧ k_TokenHash k = h ↔ presented d raw k.
Proof.
  intros (body & Hw & -> & ->)%parsePresented_some. unfold tokens_by_prefix, token_rows, presented.
  rewrite list_elem_of_In, filter_In, bool_decide_eq_true, <- list_elem_of_In, elem_of_rows. split.
  - intros [[[id Hid] Hp] Hh]. by exists id, body.
  - intros (id & body' & Hid & [E _] & Hh & Hp). split; [|done]. split; [eauto|].
    destruct Hw as [-> _]. apply (f_equal (λ s, CutPrefix s TokenPrefix)) in E. rewrite !CutPrefix_app in E. by simplify_eq.
Qed.

Lemma unknown_scope_some l s : unknown_scope l = Some s → s ∈ l ∧ s ∉ validScopes.
Proof.
  intros [Hin Hs]%find_some. split; [by apply list_elem_of_In|]. by apply negb_true_iff, bool_decide_eq_false in Hs.
Qed.
Lemma unknown_scope_none l : unknown_scope l = None ↔ Forall (λ s, s ∈ validScopes) l.
Proof.
  unfold unknown_scope. rewrite Forall_forall. split.
  - intros Hn s Hin. apply list_elem_of_In in Hin. pose proof (find_none _ _ Hn s Hin) as E. simpl in E.
    by apply negb_false_iff, bool_decide_eq_true in E.
  - intros HF. destruct (List.find _ l) as [s|] eqn:E; [|done].
    apply unknown_scope_some in E as [Hin Hs]. by destruct (Hs (HF s Hin)).
Qed.

Definition expired_b (now : time) (k : ApiToken) : bool :=
  match k_ExpiresAt k with Some t => negb (now <? t)%Z | None => false end.
Lemma expired_b_spec now k : reflect (out_of_date now k) (expired_b now k).
Proof.
  apply iff_reflect. unfold expired_b, out_of_date. destruct (k_ExpiresAt k) as [t|].
  - rewrite negb_true_iff, Z.ltb_ge. split; [by intros (? & [= <-] & ?)|by exists t].
  - by split; [intros (? & ? & _)|].
Qed.

(** ** Authentication on rows that stay *)

Lemma candidate_none d raw p h :
  parsePresented raw = Some (p, h) → match_hash h (tokens_by_prefix d p) = None → ∀ k, ¬ presented d raw k.
Proof. intros Hp Hm k [Hin Hh]%(candidate d raw p h k Hp). by apply (match_hash_none _ _ _ Hm Hin). Qed.
Lemma candidate_some d raw p h k :
  parsePresented raw = Some (p, h) → match_hash h (tokens_by_prefix d p) = Some k → presented d raw k.
Proof. intros Hp Hm. by apply (candidate d raw p h k Hp), match_hash_some. Qed.

(** The answer, as a function of the rows. *)
Definition judge (d : DB) (raw : string) (now : time) : res Identity :=
  match parsePresented raw with
  | None => Err ErrInvalidToken
  | Some (p, h) =>
      match match_hash h (tokens_by_prefix d p) with
      | None => Err ErrInvalidToken
      | Some k =>
          if expired_b now k then Err ErrTokenExpired else
          if is_Some_b (unknown_scope (k_Scopes k)) then Err ErrTokenScope else
          match users d !! k_UserID k with
          | None => Err ErrInvalidToken
          | Some u => if u_Banned u then Err ErrUserBanned else Ok (identity_of k u)
          end
      end
  end.

Lemma Authenticate_judged raw now w :
  w_faults w = [] → solo (token_Authenticate raw now) w = Some (judge (w_db w) raw now, w).
Proof.
  intros Hf. unfold token_Authenticate, judge. destruct (parsePresented raw) as [[p h]|]; [|done].
  rewrite solo_bind. unfold GetAPITokensByPrefix. rewrite solo_select by done.
  destruct (match_hash h _) as [k|]; [|done]. fold (expired_b now k).
  destruct (expired_b now k); [done|]. destruct (is_Some_b (unknown_scope (k_Scopes k))); [done|].
  rewrite solo_bind, solo_map_err. unfold GetUserByID. rewrite solo_select by done.
  destruct (users (w_db w) !! k_UserID k) as [u|]; [|done]. cbn [one]. by destruct (u_Banned u).
Qed.


(** ** Issued tokens *)

Definition hashes_unique (d : DB) : Prop :=
  ∀ i j k k', tokens d !! i = Some k → tokens d !! j = Some k' → k_TokenHash k = k_TokenHash k' → k = k'.

Lemma String_length_bytes s : String.length s = length (to_bytes s).
Proof. induction s; simpl; [done|by f_equal]. Qed.

(** 32 bytes are 52 letters. *)
Lemma tokenEnc_length bs : length bs = tokenRandBytes → String.length (tokenEnc bs) = 52.
Proof.
  intros Hl. unfold tokenEnc, encode.
  rewrite String_length_bytes, to_of_bytes, length_map, chunks_length, flat_bits_length, Hl by lia. done.
Qed.
Lemma rand_Read_length n w bs w' : rand_Read n w = (Ok bs, w') → length bs = n.
Proof.
  unfold rand_Read. destruct (w_rand w) as [|[l|] rs]; intros [= <- _].
  rewrite length_take, length_app, length_replicate. lia.
Qed.
Lemma GenerateToken_ok w pt h p w' :
  solo GenerateToken w = Some (Ok (pt, h, p), w') →
  h = sha256_hex pt ∧ ∃ body, well_formed pt body ∧ p = first_chars tokenPrefixLen body.
Proof.
  unfold GenerateToken. rewrite solo_bind, solo_map_err, solo_atomic.
  destruct (rand_Read tokenRandBytes w) as [[bs|e] w1] eqn:Er; [|done].
  intros [= <- <- <- _]. split; [done|]. exists (tokenEnc bs). split; [|done]. split; [done|].
  apply rand_Read_length in Er. rewrite (tokenEnc_length bs Er). unfold tokenPrefixLen. lia.
Qed.

(** A used token is the issued one. *)
Definition used_at (t : option time) (k : ApiToken) : ApiToken :=
  {| k_ID := k_ID k; k_UserID := k_UserID k; k_Name := k_Name k; k_TokenHash := k_TokenHash k;
     k_Prefix := k_Prefix k; k_Scopes := k_Scopes k; k_LastUsedAt := t;
     k_ExpiresAt := k_ExpiresAt k; k_CreatedAt := k_CreatedAt k |}.

Lemma judge_admits d raw now k u t id :
  hashes_unique d → tokens d !! id = Some (used_at t k) →
  (∃ body, well_formed raw body ∧ k_Prefix k = first_chars tokenPrefixLen body) → k_TokenHash k = sha256_hex raw →
  ¬ out_of_date now k → Forall (λ s, s ∈ validScopes) (k_Scopes k) →
  users d !! k_UserID k = Some u → u_Banned u = false → judge d raw now = Ok (identity_of k u).
Proof.
  intros Hun Hid (body & Hw & Hp) Hh Hx Hs Hu Hb.
  assert (parsePresented raw = Some (k_Prefix k, k_TokenHash k)) as Ep by (apply parsePresented_some; by exists body).
  assert (presented d raw (used_at t k)) as Hpr by by exists id, body.
  unfold judge. rewrite Ep. destruct (match_hash _ _) as [k'|] eqn:Em.
  - pose proof (candidate_some _ _ _ _ _ Ep Em) as (id' & ? & Hid' & _ & Hh' & _).
    rewrite (Hun id' id k' (used_at t k)) by (done || simpl; congruence).
    destruct (expired_b_spec now (used_at t k)) as [|_]; [done|].
    rewrite (proj2 (unknown_scope_none (k_Scopes (used_at t k)))) by done. cbn [is_Some_b].
    change (k_UserID (used_at t k)) with (k_UserID k). by rewrite Hu, Hb.
  - by destruct (candidate_none _ _ _ _ Ep Em (used_at t k)).
Qed.

Lemma CreateAPIToken_ok id user name hash prefix scopes expires w k w' :
  CreateAPIToken id user name hash prefix scopes expires w = (Ok k, w') →
  k = {| k_ID := id; k_UserID := user; k_Name := name; k_TokenHash := hash; k_Prefix := prefix;
         k_Scopes := scopes; k_LastUsedAt := None; k_ExpiresAt := expires; k_CreatedAt := w_dbnow w |} ∧
  tokens (w_db w') !! id = Some k ∧ (hashes_unique (w_db w) → hashes_unique (w_db w')).
Proof.
  intros (E & _)%query_ok. apply guarded_ok in E as (Hc & -> & ->). split; [done|].
  split; [by apply lookup_insert_eq|]. unfold hashes_unique. intros Hun i j k1 k2. cbn [tokens set_tokens].
  inv Hc as [|? ? _ Hc']. inv Hc' as [|? ? Hh _]. cbn in Hh.
  assert (∀ i k, tokens (w_db w) !! i = Some k → k_TokenHash k ≠ hash) as Hfresh.
  { intros i0 k0 Hk E. enough (existsb (λ k, bool_decide (k_TokenHash k = hash)) (token_rows (w_db w)) = true) by congruence.
    apply existsb_exists. exists k0. split; [|by apply bool_decide_eq_true]. unfold token_rows.
    apply list_elem_of_In, elem_of_rows. eauto. }
  rewrite !lookup_insert_Some. intros [[-> <-]|[Hi H1]] [[-> <-]|[Hj H2]]; simpl; [done|..|by eapply Hun].
  - intros E. by destruct (Hfresh j k2 H2).
  - intros E. by destruct (Hfresh i k1 H1).
Qed.

Lemma token_Create_ok user name scopes expires w pt meta w' :
  solo (token_Create user name scopes expires) w = Some (Ok (pt, meta), w') →
  Forall (λ s, s ∈ validScopes) scopes ∧
  ∃ k, meta = token_metaOf k ∧ tokens (w_db w') !! k_ID k = Some k ∧ k_UserID k = user ∧ k_Name k = name ∧
    k_Scopes k = scopes ∧ k_ExpiresAt k = expires ∧ k_TokenHash k = sha256_hex pt ∧
    (∃ body, well_formed pt body ∧ k_Prefix k = first_chars tokenPrefixLen body) ∧
    (hashes_unique (w_db w) → hashes_unique (w_db w')).
Proof.
  unfold token_Create, ValidateScopes. destruct (unknown_scope scopes) as [s|] eqn:Es; [done|].
  rewrite solo_bind. cbn [solo mret P_ret]. rewrite solo_bind, solo_map_err, solo_atomic.
  destruct (NewV7 w) as [[id|e] w1] eqn:Eid; [|done]. rewrite solo_bind.
  destruct (solo GenerateToken w1) as [[[[[pt' h] p]|e] w2]|] eqn:Eg; [|done..].
  rewrite solo_bind, solo_map_err, solo_atomic.
  destruct (CreateAPIToken id user name h p scopes expires w2) as [[k|e] w3] eqn:Ek; [|done].
  intros [= <- <- <-]. apply CreateAPIToken_ok in Ek as (-> & Hrow & Hun).
  assert (w_db w2 = w_db w) as Hd.
  { transitivity (w_db w1).
    - revert Eg. unfold GenerateToken. rewrite solo_bind, solo_map_err, solo_atomic. unfold rand_Read.
      by destruct (w_rand w1) as [|[l|] rs]; intros [= _ _ _ <-].
    - revert Eid. unfold NewV7. by destruct (w_uuids w) as [|[l|] rs]; intros [= _ <-]. }
  apply GenerateToken_ok in Eg as (-> & body & Hw & ->). split; [by apply unknown_scope_none|].
  eexists. split; [reflexivity|]. split_and!; [done..|by exists body|by rewrite <- Hd].
Qed.

(** The lifetime a request may ask for. *)
Lemma token_ttl_bounded c b :
  check_token c b = NewValidation → (0 < ac_TokenMaxTTL c)%Z → (ac_TokenDefaultTTL c ≤ ac_TokenMaxTTL c)%Z →
  (token_ttl c b ≤ ac_TokenMaxTTL c)%Z.
Proof.
  unfold check_token, token_ttl. set (v := match unknown_scope _ with Some _ => _ | None => _ end).
  set (v' := if bool_decide (ct_Scopes b = []) then _ else v). clearbody v'. clear v.
  intros Hc Hm Hd. destruct (ct_ExpiresInDays b) as [d|]; [|done].
  destruct (Z.ltb_spec d 1); [done|]. destruct (Z.ltb_spec 0 (ac_TokenMaxTTL c)); [|lia].
  destruct (Z.ltb_spec (ac_TokenMaxTTL c) (days_duration d)); [|lia].
  by apply Add_ne_empty in Hc.
Qed.

(** C20: A token issued by the endpoint, which only a session can call, has known scopes and an
    expiry within the configured maximum; and from then on, as long as its row is
    there, whatever its last use, it authenticates as its owner with those
    scopes until it expires or the owner is banned. *)
Theorem issued_token_authenticates c caller b w pt meta w1 :
  solo (h_CreateToken c caller b) w = Some (Ok (pt, meta), w1) →
  ∃ i k, caller = Some i ∧ id_Method i = AuthSession ∧ meta = token_metaOf k ∧
    tokens (w_db w1) !! k_ID k = Some k ∧ k_UserID k = id_UserID i ∧ k_Scopes k = ct_Scopes b ∧
    Forall (λ s, s ∈ validScopes) (k_Scopes k) ∧ k_ExpiresAt k = Some (w_wall w + token_ttl c b)%Z ∧
    ((0 < ac_TokenMaxTTL c)%Z → (ac_TokenDefaultTTL c ≤ ac_TokenMaxTTL c)%Z →
      (token_ttl c b ≤ ac_TokenMaxTTL c)%Z) ∧
    (hashes_unique (w_db w) → hashes_unique (w_db w1)) ∧
    ∀ w2 now u t, w_faults w2 = [] → hashes_unique (w_db w2) →
      tokens (w_db w2) !! k_ID k = Some (used_at t k) → users (w_db w2) !! id_UserID i = Some u →
      u_Banned u = false → (now < w_wall w + token_ttl c b)%Z →
      solo (token_Authenticate pt now) w2 = Some (Ok (identity_of k u), w2).
Proof.
  unfold h_CreateToken, requireSession, requireUser. destruct caller as [i|]; [|done].
  change (mret i ≫= ?k) with (k i). cbn beta. case_bool_decide as Hm; [|done].
  change (mret i ≫= ?k) with (k i). cbn beta. destruct (negb (ac_tokens c)); [done|].
  unfold OrNil. destruct (decide (check_token c b = ∅)) as [Hc|]; [|done].
  change (mret tt ≫= ?k) with (k tt). cbn beta. rewrite solo_bind. unfold wall_now.
  rewrite solo_atomic. cbn [gets]. rewrite solo_bind.
  destruct (solo (token_Create _ _ _ _) _) as [[[[pt' m]|e] wc]|] eqn:Et; [|done..].
  rewrite solo_bind, solo_atomic. destruct (audit_Log _ _ _ _ _ wc) as [[[]|e] wa] eqn:Ea; [|done].
  intros [= <- <- <-].
  assert (tokens (w_db wa) = tokens (w_db wc)) as Hd.
  { apply (f_equal snd) in Ea. simpl in Ea. rewrite <- Ea.
    apply (audit_Log_dbi (λ d, tokens d = tokens (w_db wc))); [|done]. by intros a d. }
  apply token_Create_ok in Et as (Hs & k & -> & Hrow & Hu & Hn & Hk & He & Hh & Hb & Hun).
  exists i, k. unfold hashes_unique. rewrite Hd. rewrite <- Hk in Hs.
  split_and!; [done..|by apply token_ttl_bounded|exact Hun|].
  intros w2 now u t Hf Hq Ht HU Hban Hnow. rewrite Authenticate_judged by done. do 2 f_equal.
  eapply judge_admits; [done..| |done|by rewrite Hu|done].
  intros (x & Hx & Hle). rewrite He in Hx. injection Hx. lia.
Qed.

(** ** Authentication while the rows change *)

Section Amid.
Context (E : World → World → Prop).
(** What moves the world during a request: the others, and the request's own reads. *)
Definition meanwhile (w w' : World) : Prop := E w w' ∨ w_db w = w_db w'.

Lemma meanwhile_rtc w w' : rtc E w w' → rtc meanwhile w w'.
Proof. apply rtc_subrel. by left. Qed.
Lemma amid_select {A} (f : DB → res A) w a w' :
  amid E (atomic (select f)) w (Ok a) w' → ∃ w1, rtc meanwhile w w1 ∧ rtc meanwhile w1 w' ∧ f (w_db w1) = Ok a.
Proof.
  intros (w1 & w2 & H1 & Hs & H2)%amid_atomic. apply select_ok in Hs as (Ha & Hd & _). exists w1.
  split_and!; [by apply meanwhile_rtc| |done]. eapply rtc_l; [right; by rewrite Hd|by apply meanwhile_rtc].
Qed.

(** What an admitted request read. *)
Definition admitted_on (raw : string) (now : time) (w : World) (i : Identity) : Prop :=
  ∃ k u w1 w2, rtc meanwhile w w1 ∧ rtc meanwhile w1 w2 ∧
    presented (w_db w1) raw k ∧ ¬ out_of_date now k ∧ Forall (λ s, s ∈ validScopes) (k_Scopes k) ∧
    users (w_db w2) !! k_UserID k = Some u ∧ u_Banned u = false ∧ i = identity_of k u.

Lemma token_Authenticate_amid raw now w i w' :
  amid E (token_Authenticate raw now) w (Ok i) w' → admitted_on raw now w i.
Proof.
  unfold token_Authenticate. destruct (parsePresented raw) as [[p h]|] eqn:Ep; [|by intros [? _]%amid_inv].
  intros ([cands|e] & w1 & H1 & Hk)%amid_bind; [|by destruct Hk].
  apply amid_select in H1 as (wa & Ha & Hb & [= <-]).
  destruct (match_hash h _) as [k|] eqn:Em; [|by apply amid_inv in Hk as [? _]].
  fold (expired_b now k) in Hk. destruct (expired_b_spec now k) as [|Hx]; [by apply amid_inv in Hk as [? _]|].
  destruct (unknown_scope (k_Scopes k)) as [s|] eqn:Es; [by apply amid_inv in Hk as [? _]|].
  apply amid_bind in Hk as ([u|e] & w2 & H2 & Hk); [|by destruct Hk].
  apply amid_map_err in H2 as ([u'|] & w3 & H2 & [= <-] & _).
  apply amid_select in H2 as (wb & Hc & _ & Hu).
  destruct (u_Banned u) eqn:Eb; apply amid_inv in Hk as [[= ->] _].
  exists k, u, wa, wb. split_and!; [done|by etrans|by eapply candidate_some|done|by apply unknown_scope_none| |done|done].
  change (one (users (w_db wb) !! k_UserID k) = Ok u) in Hu.
  destruct (users (w_db wb) !! k_UserID k); by simplify_eq/=.
Qed.

(** Whatever else happens meanwhile, a bearer request passed on as somebody was
    presented a token with a row during the request, not expired on the clock it read,
    with known scopes that permit the method and path, whose owner's row, read after
    that during the request too, is not banned and gives the role: so a revoked token
    and a banned owner are refused from the next request on. *)
Theorem bearer_requests_gated c method path authorization w i w' :
  amid E (tokenMiddleware c None method path authorization) w (Ok (Next (Some i))) w' →
  ∃ raw w0, bearerFromHeader authorization = Some raw ∧ rtc meanwhile w w0 ∧
    admitted_on raw (w_wall w0) w0 i ∧ scopeAllows (id_Scopes i) method path = true.
Proof.
  unfold tokenMiddleware. destruct (ac_tokens c); cbn [negb]; [|by intros [? _]%amid_inv].
  destruct (bearerFromHeader authorization) as [raw|]; [|by intros [? _]%amid_inv].
  intros ([now|e] & w1 & H1 & Hk)%amid_bind; [|by destruct Hk].
  apply amid_atomic in H1 as (w0 & w0' & Ha & [= <- <-] & Hb).
  apply amid_bind in Hk as (r & w2 & (r' & w2' & H2 & -> & _)%amid_try & Hk).
  destruct r' as [i'|e].
  2: { apply amid_inv in Hk as [Hk _]. unfold tokenAuthProblem in Hk. by case_bool_decide. }
  apply token_Authenticate_amid in H2.
  assert (scopeAllows (id_Scopes i') method path = true ∧ i' = i) as [Hs <-].
  { apply amid_bind in Hk as ([[[[] ra]|e]|e] & w3 & _ & Hk);
      [|by apply amid_inv in Hk as [? _]| |by destruct Hk].
    - destruct (scopeAllows _ _ _); [|by apply amid_inv in Hk as [? _]].
      apply amid_bind in Hk as ([t|e] & w4 & _ & Hk); [|by destruct Hk]. by apply amid_inv in Hk as [[= ->] _].
    - apply amid_bind in Hk as (? & ? & _ & Hk). destruct x; [|by destruct Hk].
      apply amid_bind in Hk as ([] & ? & _ & Hk); [|by destruct Hk]. by apply amid_inv in Hk as [? _]. }
  exists raw, w0. split_and!; [done|by apply meanwhile_rtc| |done].
  destruct H2 as (k & u & wa & wb & H1 & H2). exists k, u, wa, wb.
  split; [etrans; [by apply meanwhile_rtc|done]|exact H2].
Qed.
End Amid.
End Rules.

(** ** Concrete inputs *)

Section Demo.
#[local] Existing Instance demo_libs.

Definition demo_token_body (days : option Z) : CreateTokenBody :=
  {| ct_Name := "ci"; ct_Scopes := [ScopeRead; ScopeSubmit]; ct_ExpiresInDays := days |}.
Definition demo_issue (b : CreateTokenBody) : option (res (string * TokenMeta) * World) :=
  solo (h_CreateToken demo_conf (Some demo_admin) b) demo_accounts.
Definition demo_request (method path pt : string) : P World passed :=
  tokenMiddleware demo_conf None method path ("Bearer " +:+ pt).


(** A read token is let through to a challenge and not to an admin page. *)
Definition demo_served (w : World) (pt : string) : option (Identity * World) :=
  match solo (demo_request "GET" "/challenges" pt) w, solo (demo_request "GET" "/admin/users" pt) w with
  | Some (Ok (Next (Some i)), w'), Some (Ok (Problem 403 _ _), _) => Some (i, w')
  | _, _ => None
  end.
Lemma demo_served_amid E w pt i w' :
  demo_served w pt = Some (i, w') → amid E (demo_request "GET" "/challenges" pt) w (Ok (Next (Some i))) w'.
Proof.
  unfold demo_served. intros Hs. apply solo_amid.
  destruct (solo (demo_request "GET" "/challenges" pt) w) as [[[[[j|]|]|] w1]|]; [|done..].
  by destruct (solo _ w) as [[[[|[]]|] ?]|]; repeat case_match; simplify_eq.
Qed.
Lemma bearer_requests_gated_witness :
  match demo_issue (demo_token_body None) with
  | Some (Ok (pt, _), w) =>
      match demo_served w pt with
      | Some (i, w') => ∃ raw w0, bearerFromHeader ("Bearer " +:+ pt) = Some raw ∧
          rtc (meanwhile (λ _ _, False)) w w0 ∧ admitted_on (λ _ _, False) raw (w_wall w0) w0 i ∧
          scopeAllows (id_Scopes i) "GET" "/challenges" = true
      | None => False
      end
  | _ => False
  end.
Proof.
  assert (match demo_issue (demo_token_body None) with
          | Some (Ok (pt, _), w) => is_Some_b (demo_served w pt) | _ => false end = true) as Hrun by (vm_compute; reflexivity).
  destruct (demo_issue _) as [[[[pt m]|e] w]|]; [|discriminate Hrun..].
  destruct (demo_served w pt) as [[i w']|] eqn:Es; [|discriminate Hrun].
  exact (bearer_requests_gated _ demo_conf "GET" "/challenges" ("Bearer " +:+ pt) w i w' (demo_served_amid _ _ _ _ _ Es)).
Defined.

Lemma used_at_same k : used_at (k_LastUsedAt k) k = k.
Proof. by destruct k. Qed.
Lemma issued_token_authenticates_witness :
  match demo_issue (demo_token_body None) with
  | Some (Ok (pt, _), w1) => ∃ k u, users (w_db w1) !! 1%N = Some u ∧ ¬ out_of_date (Hour + 1) k ∧
      solo (token_Authenticate pt (Hour + 1)) w1 = Some (Ok (identity_of k u), w1)
  | _ => False
  end.
Proof.
  assert (match demo_issue (demo_token_body None) with
          | Some (Ok _, w) => bool_decide (w_faults w = []) &&
              match users (w_db w) !! 1%N with Some u => negb (u_Banned u) | None => false end
          | _ => false end = true) as Hrun by (vm_compute; reflexivity).
  destruct (demo_issue _) as [[[[pt m]|e] w1]|] eqn:Ei; [|discriminate Hrun..].
  apply andb_prop in Hrun as [Hf%bool_decide_eq_true Hu].
  destruct (users (w_db w1) !! 1%N) as [u|] eqn:Eu; [|discriminate Hu]. apply negb_true_iff in Hu.
  destruct (issued_token_authenticates demo_conf (Some demo_admin) (demo_token_body None) demo_accounts pt m w1 Ei)
    as (i & k & [= <-] & _ & _ & Hk & _ & _ & _ & He & _ & Hun & Hok).
  exists k, u. split; [done|]. split.
  - intros (t & Ht & Hle). rewrite He in Ht. injection Ht as <-. cbn in Hle. unfold Hour, Minute, Second in Hle. lia.
  - apply (Hok w1 (Hour + 1)%Z u (k_LastUsedAt k)); [done|apply Hun|by rewrite used_at_same|done|done|].
    + intros x y kx ky Hx. change ((∅ : gmap uuid ApiToken) !! x = Some kx) in Hx. by rewrite lookup_empty in Hx.
    + reflexivity.
Defined.

(** The lifetime is computed in 64 bits: 106,752 days wrap to a negative one,
    which passes the check, and the token has expired before it is issued. *)
Theorem lifetime_wraps :
  match demo_issue (demo_token_body (Some 106752%Z)) with
  | Some (Ok (_, m), _) => ∃ t, mt_ExpiresAt m = Some t ∧ (t < w_wall demo_accounts)%Z
  | _ => False
  end.
Proof.
  assert (match demo_issue (demo_token_body (Some 106752%Z)) with
          | Some (Ok (_, m), _) => match mt_ExpiresAt m with Some t => (t <? w_wall demo_accounts)%Z | None => false end
          | _ => false end = true) as Hrun by (vm_compute; reflexivity).
  destruct (demo_issue _) as [[[[pt m]|e] w1]|]; [|discriminate Hrun..].
  destruct (mt_ExpiresAt m) as [t|]; [|discriminate Hrun]. exists t. split; [done|]. by apply Z.ltb_lt.
Qed.
End Demo.
