(* ===== verification/EventBus.v ===== *)
(** * The event bus ([internal/events/bus.go])

    Best-effort publish and subscribe: a bounded queue and a goroutine per
    subscriber, a copy-on-write list of subscribers.  The bus shares no state with
    the services, so its programs run on a state of their own. *)

From S2P Require Import Prelude.

Record BusEvent := {
  be_Name : string; be_ID : string; be_OccurredAt : time; be_Data : gmap string string
}.

(** [sync.Once]. *)
Inductive once := NotYet | Running | Done.
#[export] Instance once_eq_dec : EqDecision once.
Proof. solve_decision. Defined.

Record subscriber := {
  sb_name : string; sb_wants : string → bool; sb_queue : list BusEvent;
  sb_cancelled : bool; sb_wg : nat; sb_once : once
}.

(** What the bus does to the outside: a send accepted by a queue, a call of a handler,
    a count of [PluginEventsDropped]. *)
Inductive note :=
  | Sent (s : nat) (e : BusEvent)
  | Handled (s : nat) (e : BusEvent)
  | Dropped (s : nat) (e : BusEvent) (reason : string).

(** [b_all] holds every subscriber ever made, a pointer being its index; [b_subs] is the slice
    behind the atomic pointer.  [b_choices] are the choices of [select] between ready
    cases, [b_outcomes] whether each handler call fails. *)
Record Bus := {
  b_subs : list nat; b_all : list subscriber; b_writeMu : bool;
  b_queueCap : nat; b_choices : list bool; b_outcomes : list bool; b_log : list note
}.
Definition set_subs v b := {| b_subs := v; b_all := b_all b; b_writeMu := b_writeMu b; b_queueCap := b_queueCap b; b_choices := b_choices b; b_outcomes := b_outcomes b; b_log := b_log b |}.
Definition set_all v b := {| b_subs := b_subs b; b_all := v; b_writeMu := b_writeMu b; b_queueCap := b_queueCap b; b_choices := b_choices b; b_outcomes := b_outcomes b; b_log := b_log b |}.
Definition set_writeMu v b := {| b_subs := b_subs b; b_all := b_all b; b_writeMu := v; b_queueCap := b_queueCap b; b_choices := b_choices b; b_outcomes := b_outcomes b; b_log := b_log b |}.
Definition set_queueCap v b := {| b_subs := b_subs b; b_all := b_all b; b_writeMu := b_writeMu b; b_queueCap := v; b_choices := b_choices b; b_outcomes := b_outcomes b; b_log := b_log b |}.
Definition set_choices v b := {| b_subs := b_subs b; b_all := b_all b; b_writeMu := b_writeMu b; b_queueCap := b_queueCap b; b_choices := v; b_outcomes := b_outcomes b; b_log := b_log b |}.
Definition set_outcomes v b := {| b_subs := b_subs b; b_all := b_all b; b_writeMu := b_writeMu b; b_queueCap := b_queueCap b; b_choices := b_choices b; b_outcomes := v; b_log := b_log b |}.
Definition set_log v b := {| b_subs := b_subs b; b_all := b_all b; b_writeMu := b_writeMu b; b_queueCap := b_queueCap b; b_choices := b_choices b; b_outcomes := b_outcomes b; b_log := v |}.

Definition defaultQueueCap : nat := 64.
Definition NewBus (choices outcomes : list bool) : Bus :=
  {| b_subs := []; b_all := []; b_writeMu := false; b_queueCap := defaultQueueCap;
     b_choices := choices; b_outcomes := outcomes; b_log := [] |}.
Definition WithQueueCap (n : Z) (b : Bus) : Bus := if (0 <? n)%Z then set_queueCap (Z.to_nat n) b else b.

Definition sub_alter (f : subscriber → subscriber) (s : nat) (b : Bus) : Bus := set_all (alter f s (b_all b)) b.
Definition with_queue q x := {| sb_name := sb_name x; sb_wants := sb_wants x; sb_queue := q; sb_cancelled := sb_cancelled x; sb_wg := sb_wg x; sb_once := sb_once x |}.
Definition with_cancelled v x := {| sb_name := sb_name x; sb_wants := sb_wants x; sb_queue := sb_queue x; sb_cancelled := v; sb_wg := sb_wg x; sb_once := sb_once x |}.
Definition with_wg v x := {| sb_name := sb_name x; sb_wants := sb_wants x; sb_queue := sb_queue x; sb_cancelled := sb_cancelled x; sb_wg := v; sb_once := sb_once x |}.
Definition with_once v x := {| sb_name := sb_name x; sb_wants := sb_wants x; sb_queue := sb_queue x; sb_cancelled := sb_cancelled x; sb_wg := sb_wg x; sb_once := v |}.
Definition push (e : BusEvent) (x : subscriber) : subscriber := with_queue (sb_queue x ++ [e]) x.
Definition pop (x : subscriber) : subscriber := with_queue (tail (sb_queue x)) x.
Definition jot (n : note) (b : Bus) : Bus := set_log (b_log b ++ [n]) b.

(** ** Publish *)

(** A non-blocking send: the queue takes it, or the event is dropped and counted. *)
Definition offer (e : BusEvent) (s : nat) : M Bus unit := modify (λ b,
  match b_all b !! s with
  | Some x => if (length (sb_queue x) <? b_queueCap b)%nat
              then jot (Sent s e) (sub_alter (push e) s b)
              else jot (Dropped s e "backpressure") b
  | None => b
  end).
Definition wanted (b : Bus) (name : string) (s : nat) : bool :=
  match b_all b !! s with Some x => sb_wants x name | None => false end.
Definition Publish (e : BusEvent) : P Bus unit :=
  subs ← atomic (gets b_subs);
  for_each (λ s, w ← atomic (gets (λ b, wanted b (be_Name e) s)); if w : bool then atomic (offer e s) else mret tt) subs.

(** ** The subscriber's goroutine *)

Definition Lock : P Bus unit :=
  blocking (λ b, if b_writeMu b then None else Some (tt, set_writeMu true b)).
Definition Unlock : P Bus unit := atomic (modify (set_writeMu false)).
Definition stuck {A} : P Bus A := blocking (λ _, None).

Definition cancelled (b : Bus) (s : nat) : bool :=
  match b_all b !! s with Some x => sb_cancelled x | None => false end.
Definition pick (b : Bus) : bool * Bus :=
  match b_choices b with [] => (false, b) | c :: cs => (c, set_choices cs b) end.

(** [select] on the context and the queue: the event it took, or none. *)
Definition turn (s : nat) : P Bus (option BusEvent) := blocking (λ b,
  x ← b_all b !! s;
  match sb_queue x, sb_cancelled x with
  | [], false => None
  | [], true => Some (None, b)
  | e :: _, false => Some (Some e, sub_alter pop s b)
  | e :: _, true =>
      let '(c, b) := pick b in
      if c then Some (Some e, sub_alter pop s b) else Some (None, b)
  end).
Definition call (s : nat) (e : BusEvent) : M Bus unit := modify (jot (Handled s e)).
Definition outcome : M Bus bool := λ b,
  match b_outcomes b with [] => (Ok false, b) | o :: os => (Ok o, set_outcomes os b) end.

(** At most [n] turns of the endless loop; a run that needs more is not finished. *)
Fixpoint run_loop (n : nat) (s : nat) : P Bus unit :=
  match n with
  | 0 => stuck
  | S n =>
      t ← turn s;
      match t with
      | None => mret tt
      | Some e =>
          c ← atomic (gets (λ b, cancelled b s));
          if c : bool then atomic (modify (jot (Dropped s e "shutdown"))) else
          atomic (call s e);;
          failed ← atomic outcome;
          (if failed : bool
           then c ← atomic (gets (λ b, cancelled b s));
                if c : bool then mret tt else atomic (modify (jot (Dropped s e "delivery")))
           else mret tt);;
          run_loop n s
      end
  end.
Definition sub_run (n : nat) (s : nat) : P Bus unit :=
  defer (atomic (modify (sub_alter (λ x, with_wg (pred (sb_wg x)) x) s))) (run_loop n s).

(** ** Subscribe and cancel *)

Definition new_subscriber (name : string) (wants : string → bool) : subscriber :=
  {| sb_name := name; sb_wants := wants; sb_queue := []; sb_cancelled := false; sb_wg := 0; sb_once := NotYet |}.
Definition alloc (name : string) (wants : string → bool) : M Bus nat := λ b,
  (Ok (length (b_all b)), set_all (b_all b ++ [new_subscriber name wants]) b).

(** The subscriber, which is what the returned function removes. *)
Definition Subscribe (n : nat) (name : string) (wants : string → bool) : P Bus nat :=
  s ← atomic (alloc name wants);
  Lock;;
  old ← atomic (gets b_subs);
  atomic (modify (set_subs (old ++ [s])));;
  Unlock;;
  atomic (modify (sub_alter (λ x, with_wg (S (sb_wg x)) x) s));;
  go (sub_run n s);;
  mret s.

(** At most [n] queued events. *)
Fixpoint drain (n : nat) (s : nat) : P Bus unit :=
  match n with
  | 0 => stuck
  | S n =>
      t ← atomic (λ b, match b_all b !! s with
                       | Some x => match sb_queue x with
                                   | e :: _ => (Ok (Some e), sub_alter pop s b)
                                   | [] => (Ok None, b) end
                       | None => (Ok None, b) end);
      match t with
      | Some e => atomic (modify (jot (Dropped s e "shutdown")));; drain n s
      | None => mret tt
      end
  end.
Definition wait_stopped (s : nat) : P Bus unit := blocking (λ b,
  x ← b_all b !! s; if (sb_wg x =? 0)%nat then Some (tt, b) else None).
Definition remove (n : nat) (s : nat) : P Bus unit :=
  Lock;;
  old ← atomic (gets b_subs);
  atomic (modify (set_subs (filter (λ x, x ≠ s) old)));;
  Unlock;;
  atomic (modify (sub_alter (with_cancelled true) s));;
  wait_stopped s;;
  drain n s.

(** [once.Do]: the first caller runs it, the others wait for it. *)
Definition once_enter (s : nat) : P Bus bool := blocking (λ b,
  x ← b_all b !! s;
  match sb_once x with
  | NotYet => Some (true, sub_alter (with_once Running) s b)
  | Running => None
  | Done => Some (false, b)
  end).
Definition cancel (n : nat) (s : nat) : P Bus unit :=
  first ← once_enter s;
  if first : bool then remove n s;; atomic (modify (sub_alter (with_once Done) s)) else mret tt.
