(* ===== verification/EventBusRules.v ===== *)
(** * What the event bus guarantees

    Publishing never blocks; each subscriber's handler sees a prefix of what its
    queue accepted, in order, and the rest is counted or still queued, under
    every interleaving; nothing is delivered after a cancel has returned. *)

From S2P Require Import Prelude Interleave EventBus.

(** ** Reading the log *)

Definition sent (s : nat) (l : list note) : list BusEvent :=
  omap (λ n, match n with Sent s' e => if decide (s' = s) then Some e else None | _ => None end) l.
Definition handled (s : nat) (l : list note) : list BusEvent :=
  omap (λ n, match n with Handled s' e => if decide (s' = s) then Some e else None | _ => None end) l.
Definition shut_down (s : nat) (l : list note) : list BusEvent :=
  omap (λ n, match n with
             | Dropped s' e r => if decide (s' = s ∧ r = "shutdown") then Some e else None
             | _ => None end) l.

(** ** Publishing *)

(** What a publish adds, given the queues it meets. *)
Definition offered (b : Bus) (e : BusEvent) (s : nat) : list note :=
  match b_all b !! s with
  | Some x => if sb_wants x (be_Name e)
              then [if (length (sb_queue x) <? b_queueCap b)%nat then Sent s e else Dropped s e "backpressure"]
              else []
  | None => []
  end.

(** ** Where a thread is *)

Inductive role :=
  | Idle
  | Client (s : nat)                        (* has the cancel function *)
  | New (s : nat) | Listed (s : nat) | Starting (s : nat)
  | Runner (s : nat) (e : option BusEvent) | Dropping (s : nat) (e : BusEvent) | Quitting (s : nat)
  | PreCut (s : nat) | PostCut (s : nat) | Waiting (s : nat) | Draining (s : nat) (e : option BusEvent).
Record ghost := { role_of : role; lock_of : option (option (list nat)) }.

Definition hit (s s' : nat) : nat := if decide (s = s') then 1 else 0.
Definition n_client s g := match role_of g with Client s' => hit s s' | _ => 0 end.
Definition n_new s g := match role_of g with New s' => hit s s' | _ => 0 end.
Definition n_listed s g := match role_of g with Listed s' => hit s s' | _ => 0 end.
Definition n_starting s g := match role_of g with Starting s' => hit s s' | _ => 0 end.
Definition n_runner s g := match role_of g with Runner s' _ => hit s s' | _ => 0 end.
Definition n_dropping s g := match role_of g with Dropping s' _ => hit s s' | _ => 0 end.
Definition n_quitting s g := match role_of g with Quitting s' => hit s s' | _ => 0 end.
Definition n_precut s g := match role_of g with PreCut s' => hit s s' | _ => 0 end.
Definition n_postcut s g := match role_of g with PostCut s' => hit s s' | _ => 0 end.
Definition n_waiting s g := match role_of g with Waiting s' => hit s s' | _ => 0 end.
Definition n_draining s g := match role_of g with Draining s' _ => hit s s' | _ => 0 end.
Definition n_lock g := match lock_of g with Some _ => 1 | None => 0 end.
Definition holding (s : nat) (g : ghost) : option BusEvent :=
  match role_of g with
  | Runner s' e | Draining s' e => if decide (s = s') then e else None
  | Dropping s' e => if decide (s = s') then Some e else None
  | _ => None
  end.

Definition tot (f : ghost → nat) (gs : list ghost) : nat := sum_list (f <$> gs).
Lemma tot_cons f g gs : tot f (g :: gs) = f g + tot f gs.
Proof. done. Qed.
Lemma tot_perm f gs gs' : gs ≡ₚ gs' → tot f gs = tot f gs'.
Proof. intros Hp. unfold tot. by rewrite Hp. Qed.

Definition b2n (b : bool) : nat := if b then 1 else 0.

(** What holds of one subscriber. *)
Record sub_ok (gs : list ghost) (b : Bus) (s : nat) (x : subscriber) : Prop := {
  so_setup : tot (n_new s) gs + tot (n_listed s) gs + sb_wg x ≤ 1;
  so_wg : tot (n_starting s) gs + tot (n_runner s) gs + tot (n_dropping s) gs + tot (n_quitting s) gs = sb_wg x;
  so_once : tot (n_precut s) gs + tot (n_postcut s) gs + tot (n_waiting s) gs + tot (n_draining s) gs
            = (if decide (sb_once x = Running) then 1 else 0);
  so_ready : 0 < tot (n_client s) gs ∨ sb_once x ≠ NotYet →
    tot (n_new s) gs + tot (n_listed s) gs + tot (n_starting s) gs = 0;
  so_drained : 0 < tot (n_draining s) gs ∨ sb_once x = Done → sb_wg x = 0;
  so_cancelled : 0 < tot (n_dropping s) gs + tot (n_waiting s) gs + tot (n_draining s) gs ∨ sb_once x = Done → sb_cancelled x = true;
  so_listed : s ∈ b_subs b ↔ tot (n_new s) gs = 0 ∧ (sb_once x = NotYet ∨ 0 < tot (n_precut s) gs);
  so_cap : length (sb_queue x) ≤ b_queueCap b;
  so_fifo : sent s (b_log b) = handled s (b_log b) ++ shut_down s (b_log b) ++ omap (holding s) gs ++ sb_queue x;
  so_prefix : shut_down s (b_log b) ≠ [] →
    tot (n_new s) gs + tot (n_listed s) gs + tot (n_starting s) gs + tot (n_runner s) gs = 0
    ∧ sb_cancelled x = true
}.

(** A thread that has a subscriber in hand, and the lock. *)
Definition bounded (n : nat) (g : ghost) : Prop :=
  match role_of g with
  | Idle => True
  | Client s | New s | Listed s | Starting s | Runner s _ | Dropping s _ | Quitting s | PreCut s | PostCut s | Waiting s
  | Draining s _ => s < n
  end.
Definition reads (b : Bus) (g : ghost) : Prop := ∀ l, lock_of g = Some (Some l) → l = b_subs b.
Record bus_inv (gs : list ghost) (b : Bus) : Prop := {
  bi_subs : ∀ s x, b_all b !! s = Some x → sub_ok gs b s x;
  bi_fresh : ∀ s, length (b_all b) ≤ s →
    (s ∉ b_subs b) ∧ sent s (b_log b) = [] ∧ handled s (b_log b) = [] ∧ shut_down s (b_log b) = [];
  bi_bounded : Forall (bounded (length (b_all b))) gs;
  bi_lock : tot n_lock gs = b2n (b_writeMu b);
  bi_reads : Forall (reads b) gs
}.

(** Nothing is delivered to a removed subscriber. *)
Definition silenced (b b' : Bus) : Prop :=
  ∀ s x, b_all b !! s = Some x → sb_once x = Done →
    handled s (b_log b') = handled s (b_log b) ∧ ∃ x', b_all b' !! s = Some x' ∧ sb_once x' = Done.

Definition settled (g : ghost) : Prop :=
  lock_of g = None ∧ match role_of g with Idle | Client _ => True | _ => False end.
Abbreviation during p Q g := (holds settled bus_inv silenced p Q g).

(** ** One step at one subscriber *)

Definition about (s : nat) (g : ghost) : Prop :=
  match role_of g with
  | Idle => True
  | Client s' | New s' | Listed s' | Starting s' | Runner s' _ | Dropping s' _ | Quitting s' | PreCut s' | PostCut s' | Waiting s'
  | Draining s' _ => s' = s
  end.

Ltac unfold_counts :=
  unfold n_client, n_new, n_listed, n_starting, n_runner, n_dropping, n_quitting, n_precut, n_postcut, n_waiting, n_draining in *.
Lemma hit_same s : hit s s = 1. Proof. unfold hit. by rewrite decide_True. Qed.
Lemma hit_other s s' : s ≠ s' → hit s s' = 0. Proof. intros. unfold hit. by rewrite decide_False. Qed.

Lemma about_other s s0 g :
  about s0 g → s ≠ s0 →
  n_client s g = 0 ∧ n_new s g = 0 ∧ n_listed s g = 0 ∧ n_starting s g = 0 ∧ n_runner s g = 0 ∧
  n_dropping s g = 0 ∧ n_quitting s g = 0 ∧ n_precut s g = 0 ∧ n_postcut s g = 0 ∧ n_waiting s g = 0 ∧ n_draining s g = 0 ∧
  holding s g = None.
Proof.
  unfold about, holding. unfold_counts. intros Ha Hne.
  destruct (role_of g); subst; rewrite ?hit_other, ?decide_False by done; done.
Qed.

Lemma holding_none s gs : tot (n_runner s) gs + tot (n_dropping s) gs + tot (n_draining s) gs = 0 → omap (holding s) gs = [].
Proof.
  induction gs as [|g gs IH]; [done|]. rewrite !tot_cons. intros Hz. cbn [omap list_omap].
  rewrite IH by lia. unfold_counts. unfold holding. destruct (role_of g) as [| | | | |s' e|s' e| | | | |s' e]; try done;
    case_decide; subst; rewrite ?hit_same in *; done || lia.
Qed.

Lemma sub_ok_other gs b b' g g' s s0 x :
  sub_ok (g :: gs) b s x → s ≠ s0 → about s0 g → about s0 g' → b_queueCap b' = b_queueCap b →
  (s ∈ b_subs b' ↔ s ∈ b_subs b) → sent s (b_log b') = sent s (b_log b) →
  handled s (b_log b') = handled s (b_log b) → shut_down s (b_log b') = shut_down s (b_log b) →
  sub_ok (g' :: gs) b' s x.
Proof.
  intros Hok Hne (A1 & A2 & A3 & A4 & A5 & A6 & A7 & A8 & A9 & A10 & A11 & A12)%(about_other s) (B1 & B2 & B3 & B4 & B5 & B6 & B7 & B8 & B9 & B10 & B11 & B12)%(about_other s)
    Hcap Hsub Hs Hh Hd; [|done..].
  destruct Hok as [H1 H2 H3 H4 H5 H6 H7 H8 H9 H10]. rewrite !tot_cons, ?A1, ?A2, ?A3, ?A4, ?A5, ?A6, ?A7, ?A8, ?A9, ?A10, ?A11 in *.
  cbn [omap list_omap] in H9. rewrite A12 in H9.
  split; rewrite ?tot_cons, ?B1, ?B2, ?B3, ?B4, ?B5, ?B6, ?B7, ?B8, ?B9, ?B10, ?B11, ?Hcap, ?Hs, ?Hh, ?Hd, ?Hsub; try done.
  cbn [omap list_omap]. by rewrite B12.
Qed.

Definition lock_ok (gs : list ghost) (b : Bus) : Prop := tot n_lock gs = b2n (b_writeMu b) ∧ Forall (reads b) gs.
Lemma lock_same g g' gs b b' :
  lock_ok (g :: gs) b → lock_of g' = lock_of g → b_subs b' = b_subs b → b_writeMu b' = b_writeMu b → lock_ok (g' :: gs) b'.
Proof.
  intros [Ht Hr] Hl Hs Hm. split.
  { rewrite tot_cons, Hm, <- Ht, tot_cons. unfold n_lock. by rewrite Hl. }
  inv Hr as [|? ? Hg Hgs]. unfold reads in *. constructor; [rewrite Hl, Hs; done|]. by rewrite Hs.
Qed.

Lemma step_inv f s0 g g' gs b b' :
  bus_inv (g :: gs) b → about s0 g → about s0 g' → s0 < length (b_all b) → b_all b' = alter f s0 (b_all b) →
  b_queueCap b' = b_queueCap b → lock_ok (g' :: gs) b' →
  (∀ s, s ≠ s0 → (s ∈ b_subs b' ↔ s ∈ b_subs b) ∧ sent s (b_log b') = sent s (b_log b) ∧
    handled s (b_log b') = handled s (b_log b) ∧ shut_down s (b_log b') = shut_down s (b_log b)) →
  (∀ x, b_all b !! s0 = Some x → sub_ok (g :: gs) b s0 x → sub_ok (g' :: gs) b' s0 (f x) ∧
    (sb_once x = Done → handled s0 (b_log b') = handled s0 (b_log b) ∧ sb_once (f x) = Done)) →
  bus_inv (g' :: gs) b' ∧ silenced b b'.
Proof.
  intros [H1 H2 H3 H4 H5] Ha Ha' Hlt Hall Hcap [Hl Hr] Hoth Hx.
  assert (∀ s, s ≠ s0 → b_all b' !! s = b_all b !! s) as Hsame.
  { intros s Hne. by rewrite Hall, list_lookup_alter_ne. }
  destruct (lookup_lt_is_Some_2 _ _ Hlt) as [x0 Hx0]. destruct (Hx x0 Hx0 (H1 _ _ Hx0)) as [Hok Hdone].
  assert (b_all b' !! s0 = Some (f x0)) as Hx0' by by rewrite Hall, list_lookup_alter_eq, Hx0.
  split; [split|].
  - intros s x Hs. destruct (decide (s = s0)) as [->|Hne]; [by rewrite Hx0' in Hs; simplify_eq|].
    rewrite Hsame in Hs by done. destruct (Hoth s Hne) as (? & ? & ? & ?).
    by eapply (sub_ok_other gs b b' g g'); [apply H1|..].
  - rewrite Hall, length_alter. intros s Hs. assert (s ≠ s0) as Hne by lia.
    destruct (Hoth s Hne) as (E1 & -> & -> & ->). rewrite E1. by apply H2.
  - rewrite Hall, length_alter. inv H3. constructor; [|done].
    unfold bounded, about in *. by destruct (role_of g'); subst.
  - done.
  - done.
  - intros s x Hs Hd. destruct (decide (s = s0)) as [->|Hne].
    + rewrite Hx0 in Hs. simplify_eq. destruct (Hdone Hd). split; [done|]. by exists (f x).
    + destruct (Hoth s Hne) as (_ & _ & -> & _). rewrite Hsame by done. split; [done|]. by exists x.
Qed.

(** ** Automation: the effect of one note, and of one role, on the counts *)

Lemma omap_snoc {A B} (f : A → option B) l a : omap f (l ++ [a]) = omap f l ++ match f a with Some b => [b] | None => [] end.
Proof. rewrite omap_app. simpl. by destruct (f a). Qed.

Abbreviation G r := {| role_of := r; lock_of := None |}.
Abbreviation GL r l := {| role_of := r; lock_of := Some l |}.

Ltac counts :=
  rewrite ?tot_cons in *;
  cbn [n_client n_new n_listed n_starting n_runner n_dropping n_quitting n_precut n_postcut n_waiting n_draining role_of] in *;
  rewrite ?hit_same in *.
Lemma inv_lock gs b : bus_inv gs b → lock_ok gs b.
Proof. by intros [_ _ _ ? ?]. Qed.
Lemma silenced_refl b : silenced b b.
Proof. intros s x Hx Hd. split; [done|by exists x]. Qed.
Lemma silenced_same b b' : b_all b' = b_all b → b_log b' = b_log b → silenced b b'.
Proof. intros E1 E2 s x Hx Hd. rewrite E1, E2. split; [done|by exists x]. Qed.

(** Nothing moves but the lock. *)
Lemma frame_inv g g' gs b b' :
  bus_inv (g :: gs) b → role_of g' = role_of g → b_all b' = b_all b → b_queueCap b' = b_queueCap b →
  b_log b' = b_log b → b_subs b' = b_subs b → lock_ok (g' :: gs) b' → bus_inv (g' :: gs) b' ∧ silenced b b'.
Proof.
  intros [H1 H2 H3 H4 H5] Hr E1 E2 E3 E4 [Hl Hrd]. split; [|by apply silenced_same]. split; [..|done|done].
  - intros s x Hs. rewrite E1 in Hs. destruct (H1 s x Hs) as [K1 K2 K3 K4 K5 K6 K7 K8 K9 K10].
    rewrite ?tot_cons in *. cbn [omap list_omap] in *. unfold_counts. unfold holding in *.
    split; rewrite ?tot_cons; unfold_counts; cbn [omap list_omap]; unfold holding; rewrite ?Hr, ?E2, ?E3, ?E4; done.
  - rewrite E1, E3, E4. done.
  - rewrite E1. inv H3. constructor; [|done]. unfold bounded. by rewrite Hr.
Qed.

Lemma during_read {A} (f : Bus → A) (Q : res A → ghost → Prop) g :
  (∀ gs b, bus_inv (g :: gs) b → ∃ g', bus_inv (g' :: gs) b ∧ Q (Ok (f b)) g') → during (atomic (gets f)) Q g.
Proof.
  intros H. apply holds_atomic. intros gs b HI. destruct (H gs b HI) as (g' & HI' & HQ). exists g'.
  split_and!; [done|apply silenced_refl|done].
Qed.

(** A thread moves from role to role at [s], doing [f] to the subscriber and [u] to the rest. *)
Lemma holds_move {A} (m : M Bus A) (Q : res A → ghost → Prop) g g' s f :
  about s g → about s g' → lock_of g' = lock_of g →
  (∀ gs b, bus_inv (g :: gs) b → s < length (b_all b)) →
  (∀ b, b_all (m b).2 = alter f s (b_all b) ∧ b_queueCap (m b).2 = b_queueCap b ∧ b_subs (m b).2 = b_subs b ∧
    b_writeMu (m b).2 = b_writeMu b) →
  (∀ b s', s' ≠ s → sent s' (b_log (m b).2) = sent s' (b_log b) ∧
    handled s' (b_log (m b).2) = handled s' (b_log b) ∧ shut_down s' (b_log (m b).2) = shut_down s' (b_log b)) →
  (∀ gs b x, b_all b !! s = Some x → sub_ok (g :: gs) b s x → sub_ok (g' :: gs) (m b).2 s (f x) ∧
    (sb_once x = Done → handled s (b_log (m b).2) = handled s (b_log b) ∧ sb_once (f x) = Done)) →
  (∀ b, Q (m b).1 g') → during (atomic m) Q g.
Proof.
  intros Ha Ha' Hl Hlt Hst Hlog Hx HQ. apply holds_atomic. intros gs b HI. exists g'.
  destruct (Hst b) as (E1 & E2 & E3 & E4).
  destruct (step_inv f s g g' gs b (m b).2 HI Ha Ha' (Hlt gs b HI) E1 E2) as [HI' Hs].
  - by apply (lock_same _ _ _ _ _ (inv_lock _ _ HI)).
  - intros s' Hne. rewrite E3. split; [done|]. by apply Hlog.
  - intros x Hxx. by apply Hx.
  - split_and!; auto.
Qed.

Lemma bound_of g gs b : bus_inv (g :: gs) b → bounded (length (b_all b)) g.
Proof. intros [_ _ H _ _]. by inv H. Qed.
Lemma sent_snoc s n l :
  sent s (l ++ [n]) = sent s l ++ (match n with Sent s' e => if decide (s' = s) then [e] else [] | _ => [] end).
Proof. unfold sent. rewrite omap_snoc. by destruct n; repeat case_decide. Qed.
Lemma handled_snoc s n l :
  handled s (l ++ [n]) = handled s l ++ (match n with Handled s' e => if decide (s' = s) then [e] else [] | _ => [] end).
Proof. unfold handled. rewrite omap_snoc. by destruct n; repeat case_decide. Qed.
Lemma shut_snoc s n l :
  shut_down s (l ++ [n]) = shut_down s l ++
    (match n with Dropped s' e r => if decide (s' = s ∧ r = "shutdown") then [e] else [] | _ => [] end).
Proof. unfold shut_down. rewrite omap_snoc. by destruct n; repeat case_decide. Qed.
Definition note_at (s : nat) (n : note) : Prop :=
  match n with Sent s' _ | Handled s' _ | Dropped s' _ _ => s' = s end.
Lemma log_other s s' n l : note_at s n → s' ≠ s →
  sent s' (l ++ [n]) = sent s' l ∧ handled s' (l ++ [n]) = handled s' l ∧ shut_down s' (l ++ [n]) = shut_down s' l.
Proof.
  intros Hn Hne. rewrite sent_snoc, handled_snoc, shut_snoc.
  destruct n; simpl in Hn; subst; split_and!; repeat case_decide; intuition congruence || by rewrite ?app_nil_r.
Qed.
Lemma alter_id {A} s (l : list A) : alter (λ x, x) s l = l.
Proof. revert s; induction l as [|a l IH]; intros [|s]; [done..|]. cbn. f_equal. apply IH. Qed.

(** A note at [s] with a move of role. *)
Lemma during_note n s g g' (Q : res unit → ghost → Prop) :
  about s g → about s g' → lock_of g' = lock_of g → note_at s n →
  (∀ k, bounded k g → s < k) →
  (∀ gs b x, b_all b !! s = Some x → sub_ok (g :: gs) b s x → sub_ok (g' :: gs) (jot n b) s x ∧
    (sb_once x = Done → handled s (b_log (jot n b)) = handled s (b_log b))) →
  Q (Ok tt) g' → during (atomic (modify (jot n))) Q g.
Proof.
  intros Ha Ha' Hl Hn Hlt Hx HQ. apply (holds_move _ _ g g' s (λ x, x)); [done|done|done| | | | |].
  - intros gs b HI. by eapply Hlt, bound_of.
  - intros b. by rewrite alter_id.
  - intros b s' Hne. by apply (log_other s).
  - intros gs b x Hxx Hok. destruct (Hx gs b x Hxx Hok) as [H1 H2]. split; [exact H1|]. intros Hd. split; [by apply H2|done].
  - done.
Qed.

(** ** The steps of the goroutine *)

Lemma decide_refl {A} (s : nat) (x y : A) : (if decide (s = s) then x else y) = x.
Proof. by rewrite decide_True. Qed.
Lemma decide_shutdown {A} (s : nat) (x y : A) : (if decide (s = s ∧ "shutdown" = "shutdown") then x else y) = x.
Proof. by rewrite decide_True. Qed.
Lemma decide_delivery {A} (s : nat) (x y : A) : (if decide (s = s ∧ "delivery" = "shutdown") then x else y) = y.
Proof. rewrite decide_False; [done|by intros []]. Qed.
Lemma decide_backpressure {A} (s : nat) (x y : A) : (if decide (s = s ∧ "backpressure" = "shutdown") then x else y) = y.
Proof. rewrite decide_False; [done|by intros []]. Qed.
Ltac logs :=
  cbn [omap list_omap holding role_of b_log set_log jot] in *; rewrite ?sent_snoc, ?handled_snoc, ?shut_snoc;
  rewrite ?decide_refl, ?decide_shutdown, ?decide_delivery, ?decide_backpressure in *; rewrite ?app_nil_r.
Ltac open_sub :=
  let H1 := fresh "S1" in let H2 := fresh "S2" in let H3 := fresh "S3" in let H4 := fresh "S4" in
  let H5 := fresh "S5" in let H6 := fresh "S6" in let H7 := fresh "S7" in let H8 := fresh "S8" in
  let H9 := fresh "S9" in let H10 := fresh "S10" in
  intros [H1 H2 H3 H4 H5 H6 H7 H8 H9 H10]; counts; rewrite ?Nat.add_0_l in *; logs.
Ltac close_sub :=
  split; counts; cbn [b_subs b_queueCap sb_wg sb_once sb_queue sb_cancelled with_wg with_queue with_once
    with_cancelled] in *; rewrite ?Nat.add_0_l in *; logs; try done; try lia; try tauto;
  try (intros Hi; match goal with H : 0 < tot (n_client _) _ ∨ _ → _ |- _ => specialize (H Hi); lia end);
  try (intros Hn; match goal with H : shut_down _ _ ≠ [] → _ |- _ => destruct (H Hn); split; [lia|done] end).

Lemma during_call s e (Q : res unit → ghost → Prop) :
  Q (Ok tt) (G (Runner s None)) → during (atomic (call s e)) Q (G (Runner s (Some e))).
Proof.
  intros HQ. apply (during_note _ s _ (G (Runner s None))); [done|done|done|done|by intros k| |done].
  intros gs b x Hx. open_sub. assert (shut_down s (b_log b) = []) as Hs.
  { destruct (shut_down s (b_log b)); [done|]. destruct S10; [done|lia]. }
  split; [close_sub|].
  - rewrite S9, Hs. simpl. by rewrite <- app_assoc.
  - intros Hd. rewrite S5 in S2 by auto. lia.
Qed.

Lemma during_drop s e (Q : res unit → ghost → Prop) :
  Q (Ok tt) (G (Quitting s)) → during (atomic (modify (jot (Dropped s e "shutdown")))) Q (G (Dropping s e)).
Proof.
  intros HQ. apply (during_note _ s _ (G (Quitting s))); [done|done|done|done|by intros k| |done].
  intros gs b x Hx. open_sub.
  assert (tot (n_runner s) gs + tot (n_dropping s) gs + tot (n_draining s) gs = 0) as Hz.
  { destruct (decide (0 < tot (n_draining s) gs)); [rewrite S5 in S2 by auto|]; lia. }
  assert (sb_cancelled x = true) as Hc by (apply S6; left; lia).
  split; [close_sub|by rewrite ?handled_snoc, ?app_nil_r].
  - rewrite S9, (holding_none s gs Hz). simpl. by rewrite <- !app_assoc.
  - intros _. split; [lia|done].
Qed.

Lemma during_delivery s e (Q : res unit → ghost → Prop) :
  Q (Ok tt) (G (Runner s None)) →
  during (atomic (modify (jot (Dropped s e "delivery")))) Q (G (Runner s None)).
Proof.
  intros HQ. apply (during_note _ s _ (G (Runner s None))); [done|done|done|done|by intros k| |done].
  intros gs b x Hx. open_sub.
  split; [close_sub|by rewrite ?handled_snoc, ?app_nil_r].
Qed.

Lemma during_cancelled_read s e (Q : res bool → ghost → Prop) :
  Q (Ok true) (G (Dropping s e)) → Q (Ok false) (G (Runner s (Some e))) →
  during (atomic (gets (λ b, cancelled b s))) Q (G (Runner s (Some e))).
Proof.
  intros H1 H2. apply during_read. intros gs b HI. unfold cancelled.
  pose proof (bound_of _ _ _ HI) as Hlt. cbn in Hlt. destruct (lookup_lt_is_Some_2 _ _ Hlt) as [x Hx]. rewrite Hx.
  destruct (sb_cancelled x) eqn:Hc; [|by eexists].
  exists (G (Dropping s e)). split; [|done].
  apply (step_inv (λ x, x) s (G (Runner s (Some e))) (G (Dropping s e)) gs b b HI); [done..|by rewrite alter_id|done| |done|].
  - by apply (lock_same _ _ _ _ _ (inv_lock _ _ HI)).
  - intros y Hy. simplify_eq. open_sub. split; [close_sub|done].
Qed.

Lemma lookup_sub gs b g s : bus_inv (g :: gs) b → (∀ k, bounded k g → s < k) → ∃ x, b_all b !! s = Some x.
Proof. intros HI Hs. apply lookup_lt_is_Some_2, Hs. by eapply bound_of. Qed.

(** A move of role at [s] without any other change. *)
Lemma recast g g' s gs b :
  bus_inv (g :: gs) b → about s g → about s g' → lock_of g' = lock_of g → s < length (b_all b) →
  (∀ x, b_all b !! s = Some x → sub_ok (g :: gs) b s x → sub_ok (g' :: gs) b s x) → bus_inv (g' :: gs) b.
Proof.
  intros HI Ha Ha' Hl Hs Hx.
  apply (step_inv (λ x, x) s g g' gs b b HI); [done|done|done|by rewrite alter_id|done| |done|].
  - by apply (lock_same _ _ _ _ _ (inv_lock _ _ HI)).
  - intros y Hy Hok. split; [by apply Hx|done].
Qed.

Lemma sub_ok_ext gs b b' s x :
  sub_ok gs b s x → b_subs b' = b_subs b → b_queueCap b' = b_queueCap b → b_log b' = b_log b → sub_ok gs b' s x.
Proof. intros [K1 K2 K3 K4 K5 K6 K7 K8 K9 K10] E1 E2 E3. split; rewrite ?E1, ?E2, ?E3; done. Qed.

Lemma during_turn s (Q : res (option BusEvent) → ghost → Prop) :
  Q (Ok None) (G (Quitting s)) → (∀ e, Q (Ok (Some e)) (G (Runner s (Some e)))) →
  during (turn s) Q (G (Runner s None)).
Proof.
  intros H0 H1. apply holds_blocking. intros gs b a b' HI E.
  destruct (lookup_sub gs b _ s HI) as [x Hx]; [by intros k|]. unfold turn in E. rewrite Hx in E. cbn [mbind option_bind] in E.
  assert (∀ b1, b_all b1 = b_all b → b_queueCap b1 = b_queueCap b → b_log b1 = b_log b → b_subs b1 = b_subs b →
    b_writeMu b1 = b_writeMu b → ∃ g', bus_inv (g' :: gs) b1 ∧ silenced b b1 ∧ Q (Ok None) g') as Hstop.
  { intros b1 E1 E2 E3 E4 E5. exists (G (Quitting s)). apply and_assoc. split; [|done]. apply (frame_inv (G (Quitting s)) (G (Quitting s)) gs b); [|done..|].
    - apply (recast _ _ s gs b HI); [done|done|done|by apply bound_of in HI|]. intros y Hy. open_sub. close_sub.
    - apply (lock_same _ (G (Quitting s)) gs b b1 (inv_lock _ _ HI)); done. }
  assert (∀ e q b1, sb_queue x = e :: q → b_all b1 = alter pop s (b_all b) → b_queueCap b1 = b_queueCap b →
    b_log b1 = b_log b → b_subs b1 = b_subs b → b_writeMu b1 = b_writeMu b →
    ∃ g', bus_inv (g' :: gs) b1 ∧ silenced b b1 ∧ Q (Ok (Some e)) g') as Htake.
  { intros e q b1 Hq E1 E2 E3 E4 E5. exists (G (Runner s (Some e))). apply and_assoc. split; [|done].
    apply (step_inv pop s (G (Runner s None)) _ gs b b1 HI); [done|done|by eapply bound_of in HI|done|done| | |].
    - apply (lock_same _ _ gs b b1 (inv_lock _ _ HI)); done.
    - intros s' _. by rewrite E3, E4.
    - intros y Hy. simplify_eq. rewrite E3. intros Hok. split; [|done]. apply (sub_ok_ext _ b); [|done..].
      revert Hok. open_sub. unfold pop. rewrite Hq in *. cbn [tail length] in *.
      assert (omap (holding s) gs = []) as Hz.
      { apply holding_none. destruct (decide (0 < tot (n_draining s) gs)); [rewrite S5 in S2 by auto|]; lia. }
      close_sub. by rewrite S9, Hz. }
  destruct (sb_queue x) as [|e q] eqn:Hq; destruct (sb_cancelled x); [..|unfold pick in E; destruct (b_choices b) as [|[] cs]|];
    simplify_eq; [by apply Hstop|by apply Hstop|by eapply Htake|by apply Hstop|by eapply Htake].
Qed.

(** The end of the goroutine. *)
Lemma during_stopped s (Q : res unit → ghost → Prop) :
  Q (Ok tt) (G Idle) →
  during (atomic (modify (sub_alter (λ x, with_wg (pred (sb_wg x)) x) s))) Q (G (Quitting s)).
Proof.
  intros HQ. apply (holds_move _ _ _ (G Idle) s (λ x, with_wg (pred (sb_wg x)) x)); [done|done|done| |done|done| |done].
  - intros gs b HI. by apply bound_of in HI.
  - intros gs b x Hx. open_sub. split; [|done]. apply (sub_ok_ext _ b); [|done..]. close_sub.
Qed.

Lemma during_stuck {A} (Q : res A → ghost → Prop) g : during stuck Q g.
Proof. by apply holds_blocking. Qed.
Lemma during_same {A} (f : Bus → A) (Q : res A → ghost → Prop) g : (∀ a, Q (Ok a) g) → during (atomic (gets f)) Q g.
Proof. intros H. apply during_read. intros gs b HI. by exists g. Qed.
Lemma during_outcome (Q : res bool → ghost → Prop) g : (∀ a, Q (Ok a) g) → during (atomic outcome) Q g.
Proof.
  intros H. apply holds_atomic. intros gs b HI. exists g. unfold outcome. destruct (b_outcomes b) as [|o os]; simpl.
  - split_and!; [done|apply silenced_refl|done].
  - apply and_assoc. split; [|done]. apply (frame_inv g g gs b); try done.
    by apply (lock_same _ g gs b _ (inv_lock _ _ HI)).
Qed.

Lemma during_run n s : during (sub_run n s) (λ _ g, g = G Idle) (G (Runner s None)).
Proof.
  unfold sub_run. apply holds_defer.
  assert (during (run_loop n s) (λ _ g, g = G (Quitting s)) (G (Runner s None))) as Hrun.
  2: { eapply holds_mono; [exact Hrun|]. intros r g ->. by apply during_stopped. }
  induction n as [|n IH]; [apply during_stuck|]. cbn [run_loop]. apply holds_bind, during_turn; [done|].
  intros e. apply holds_bind, during_cancelled_read; [by apply during_drop|].
  apply holds_bind, during_call, holds_bind, during_outcome. intros failed.
  apply holds_bind. destruct failed; [|exact IH]. apply holds_bind, during_same. intros []; [exact IH|].
  by apply during_delivery.
Qed.

(** ** Publishing, from any thread that is not about a subscriber *)

Lemma during_offer e s (Q : res unit → ghost → Prop) :
  Q (Ok tt) (G Idle) → during (atomic (offer e s)) Q (G Idle).
Proof.
  intros HQ. apply holds_atomic. intros gs b HI. exists (G Idle). apply and_assoc. split; [|done].
  unfold offer. cbn [modify snd]. destruct (b_all b !! s) as [x|] eqn:Hx; [|by split; [|apply silenced_refl]].
  pose proof (lookup_lt_Some _ _ _ Hx) as Hlt.
  destruct (Nat.ltb_spec (length (sb_queue x)) (b_queueCap b)).
  - apply (step_inv (push e) s (G Idle) _ gs b _ HI); [done..| | |].
    { by apply (lock_same _ _ gs b _ (inv_lock _ _ HI)). }
    + intros s' Hne. split; [done|]. by apply (log_other s).
    + intros y Hy. simplify_eq. open_sub. split; [|intros Hd; split; [|done]; cbn; by rewrite ?handled_snoc, ?app_nil_r].
      unfold push. close_sub.
      * rewrite length_app. cbn. lia.
      * change (sent s (b_log b) ++ [e] = handled s (b_log b) ++ shut_down s (b_log b) ++ omap (holding s) gs ++ sb_queue x ++ [e]).
        by rewrite S9, <- !app_assoc.
  - apply (step_inv (λ x, x) s (G Idle) _ gs b _ HI); [done|done|done|by rewrite alter_id|done| | |].
    { by apply (lock_same _ _ gs b _ (inv_lock _ _ HI)). }
    + intros s' Hne. split; [done|]. by apply (log_other s).
    + intros y Hy. simplify_eq. open_sub. split; [close_sub|intros Hd; split; [|done]; cbn; by rewrite ?handled_snoc, ?app_nil_r].
Qed.
Lemma during_for_each {A} (f : A → P Bus unit) l g :
  (∀ a, a ∈ l → during (f a) (λ _ g', g' = g) g) → during (for_each f l) (λ _ g', g' = g) g.
Proof.
  intros Hf. induction l as [|a l IH]; [done|]. cbn [for_each]. apply holds_bind.
  eapply holds_mono; [apply Hf; by left|]. intros [u|e] ? ->; [|done]. apply IH. intros x Hx. apply Hf. by right.
Qed.
Lemma during_Publish e : during (Publish e) (λ _ g, g = G Idle) (G Idle).
Proof.
  unfold Publish. apply holds_bind, during_same. intros subs. apply during_for_each. intros s _.
  apply holds_bind, during_same. intros []; [by apply during_offer|done].
Qed.

(** ** The writer lock *)

Lemma during_Lock r (Q : res unit → ghost → Prop) : Q (Ok tt) (GL r None) → during Lock Q (G r).
Proof.
  intros HQ. apply holds_blocking. intros gs b a b' HI E. exists (GL r None). apply and_assoc.
  destruct (b_writeMu b) eqn:Hm; [done|]. injection E as <- <-. split; [|done].
  apply (frame_inv (G r) _ gs b); [done..|]. destruct (inv_lock _ _ HI) as [Hl Hr]. split.
  - rewrite Hm in Hl. rewrite tot_cons in *. cbn in *. lia.
  - inv Hr as [|? ? _ Hgs]. by constructor.
Qed.
Lemma during_Unlock r l (Q : res unit → ghost → Prop) : Q (Ok tt) (G r) → during Unlock Q (GL r l).
Proof.
  intros HQ. apply holds_atomic. intros gs b HI. exists (G r). apply and_assoc. split; [|done].
  apply (frame_inv (GL r l) _ gs b); [done..|]. destruct (inv_lock _ _ HI) as [Hl Hr]. split.
  - rewrite tot_cons in *. cbn in *. destruct (b_writeMu b); cbn in Hl; lia.
  - inv Hr as [|? ? _ Hgs]. by constructor.
Qed.
Lemma during_read_subs r (Q : res (list nat) → ghost → Prop) :
  (∀ old, Q (Ok old) (GL r (Some old))) → during (atomic (gets b_subs)) Q (GL r None).
Proof.
  intros HQ. apply during_read. intros gs b HI. exists (GL r (Some (b_subs b))). split; [|done].
  apply (frame_inv (GL r None) _ gs b); [done..|]. destruct (inv_lock _ _ HI) as [Hl Hr]. split; [done|].
  inv Hr. constructor; [|done]. by intros l [= <-].
Qed.

(** While a thread holds the lock the list is the one it read, and it may replace it. *)
Lemma during_store_subs r r' s old new (Q : res unit → ghost → Prop) :
  about s (G r) → about s (G r') → (∀ k, bounded k (G r) → s < k) →
  (∀ s', s' ≠ s → s' ∈ new ↔ s' ∈ old) →
  (∀ gs b x, b_all b !! s = Some x → b_subs b = old → sub_ok (GL r (Some old) :: gs) b s x →
    sub_ok (GL r' None :: gs) (set_subs new b) s x) →
  Q (Ok tt) (GL r' None) → during (atomic (modify (set_subs new))) Q (GL r (Some old)).
Proof.
  intros Ha Ha' Hs Hnew Hx HQ. apply holds_atomic. intros gs b HI. exists (GL r' None). apply and_assoc. split; [|done].
  destruct (inv_lock _ _ HI) as [Hl Hr]. apply Forall_cons in Hr as [Hold Hr]. specialize (Hold old eq_refl). subst old.
  apply (step_inv (λ x, x) s (GL r (Some (b_subs b))) _ gs b _ HI); [done|done| |by rewrite alter_id|done| | |].
  - apply Hs. apply bound_of in HI. exact HI.
  - split; [done|]. constructor; [done|]. rewrite tot_cons in Hl. cbn in Hl.
    assert (tot n_lock gs = 0) as Hz by (destruct (b_writeMu b); cbn in Hl; lia). clear -Hz.
    induction gs as [|g gs IH]; [done|]. rewrite tot_cons in Hz. unfold n_lock in Hz at 1.
    destruct (lock_of g) eqn:Eg; [lia|]. constructor; [by intros l; rewrite Eg|]. apply IH. lia.
  - intros s' Hne. split; [|done]. by apply Hnew.
  - intros x Hxx Hok. split; [by apply Hx|done].
Qed.

(** ** Subscribing *)

Lemma tot_zero f gs : Forall (λ g, f g = 0) gs → tot f gs = 0.
Proof. induction 1 as [|g gs Hg _ IH]; [done|]. rewrite tot_cons. lia. Qed.
Lemma bounded_about n s g : bounded n g → n ≤ s → ∃ s0, s ≠ s0 ∧ about s0 g.
Proof.
  unfold bounded, about. destruct (role_of g); intros Hb Hn; try (eexists; split; [|reflexivity]; lia).
  exists (S s). split; [lia|done].
Qed.
Lemma fresh_tots n s gs :
  Forall (bounded n) gs → n ≤ s →
  tot (n_client s) gs = 0 ∧ tot (n_new s) gs = 0 ∧ tot (n_listed s) gs = 0 ∧ tot (n_starting s) gs = 0 ∧
  tot (n_runner s) gs = 0 ∧ tot (n_dropping s) gs = 0 ∧ tot (n_quitting s) gs = 0 ∧ tot (n_precut s) gs = 0 ∧
  tot (n_postcut s) gs = 0 ∧ tot (n_waiting s) gs = 0 ∧ tot (n_draining s) gs = 0.
Proof.
  intros Hb Hn. split_and!; apply tot_zero; (eapply Forall_impl; [exact Hb|]); cbn beta; intros g Hg;
    destruct (bounded_about _ _ _ Hg Hn) as (s0 & Hne & Ha); apply (about_other s) in Ha; tauto.
Qed.

Lemma during_alloc name wants (Q : res nat → ghost → Prop) :
  (∀ s, Q (Ok s) (G (New s))) → during (atomic (alloc name wants)) Q (G Idle).
Proof.
  intros HQ. apply holds_atomic. intros gs b HI. exists (G (New (length (b_all b)))). apply and_assoc. split; [|apply HQ].
  destruct HI as [H1 H2 H3 H4 H5]. cbn [alloc snd].
  set (n := length (b_all b)) in *. apply Forall_cons in H3 as [_ H3].
  destruct (fresh_tots n n gs H3 (le_n n)) as (Z1 & Z2 & Z3 & Z4 & Z5 & Z6 & Z7 & Z8 & Z9 & Z10 & Z11).
  destruct (H2 n (le_n n)) as (F1 & F2 & F3 & F4).
  split; [split|].
  - intros s x Hs. cbn [set_all b_all] in Hs. apply lookup_app_Some in Hs as [Hs|[Hge Hs]].
    + apply (sub_ok_other gs b _ (G Idle) _ s n); [by apply H1| |done..].
      apply lookup_lt_Some in Hs. unfold n. lia.
    + destruct (s - length (b_all b)) as [|k] eqn:Ek; [|by destruct k]. assert (s = n) as -> by (unfold n; lia).
      cbn in Hs. injection Hs as <-. split; counts; cbn [sb_wg sb_once sb_queue sb_cancelled new_subscriber] in *;
        rewrite ?Z1, ?Z2, ?Z3, ?Z4, ?Z5, ?Z6, ?Z7, ?Z8, ?Z9, ?Z10, ?Z11; try done; try lia.
      * intros [|]; [lia|done].
      * intros [|]; [lia|done].
      * split; [by intros ?%F1|lia].
      * cbn. lia.
      * logs. cbn [set_all b_log]. rewrite F2, F3, F4, holding_none by lia. done.
  - intros s Hs. cbn [set_all b_all] in Hs. rewrite length_app in Hs. cbn in Hs. apply H2. unfold n in *. lia.
  - cbn [set_all b_all]. rewrite length_app. constructor; [unfold bounded; cbn; unfold n; lia|].
    eapply Forall_impl; [exact H3|]. cbn beta. intros g. unfold bounded. destruct (role_of g); cbn; unfold n; lia || done.
  - done.
  - inv H5. by constructor.
  - intros s x Hx Hd. split; [done|]. exists x. split; [|done]. cbn. by apply lookup_app_l_Some.
Qed.

Lemma during_wg_Add s (Q : res unit → ghost → Prop) :
  Q (Ok tt) (G (Starting s)) →
  during (atomic (modify (sub_alter (λ x, with_wg (S (sb_wg x)) x) s))) Q (G (Listed s)).
Proof.
  intros HQ. apply (holds_move _ _ _ (G (Starting s)) s (λ x, with_wg (S (sb_wg x)) x)); [done|done|done| |done|done| |done].
  - intros gs b HI. by apply bound_of in HI.
  - intros gs b x Hx. open_sub.
    assert (sb_once x = NotYet) as Ho. { destruct (decide (sb_once x = NotYet)) as [|Hn]; [done|]. specialize (S4 (or_intror Hn)). lia. }
    split; [|by rewrite Ho]. apply (sub_ok_ext _ b); [|done..]. 
    assert (tot (n_draining s) gs = 0) as Hz by (rewrite Ho, decide_False in S3 by done; lia).
    close_sub.
    intros [|]; [lia|congruence].
Qed.

Lemma holding_le gs b s x : sub_ok gs b s x → length (omap (holding s) gs) ≤ 1.
Proof.
  intros [K1 K2 K3 K4 K5 K6 K7 K8 K9 K10].
  assert (tot (n_runner s) gs + tot (n_dropping s) gs + tot (n_draining s) gs ≤ 1) as Ht.
  { destruct (decide (0 < tot (n_draining s) gs)) as [Hd|]; [|lia]. specialize (K5 (or_introl Hd)).
    destruct (decide (sb_once x = Running)); lia. }
  clear -Ht. induction gs as [|g gs IH]; [done|]. rewrite !tot_cons in Ht. cbn [omap list_omap].
  destruct (holding s g) as [e|] eqn:Eg; [|apply IH; lia]. cbn. rewrite holding_none; [done|].
  unfold_counts. unfold holding in Eg. destruct (role_of g); try done; case_decide; simplify_eq; rewrite ?hit_same in *; lia.
Qed.
Lemma bus_inv_perm gs gs' b : gs ≡ₚ gs' → bus_inv gs b → bus_inv gs' b.
Proof.
  intros Hp [H1 H2 H3 H4 H5]. split; [..|by rewrite <- Hp|by rewrite <- (tot_perm _ _ _ Hp)|by rewrite <- Hp]; [|done].
  intros s x Hx. destruct (H1 s x Hx) as [K1 K2 K3 K4 K5 K6 K7 K8 K9 K10].
  split; rewrite <- ?(tot_perm _ _ _ Hp); try done. rewrite K9. do 3 f_equal.
  assert (omap (holding s) gs ≡ₚ omap (holding s) gs') as Hh by by rewrite Hp.
  pose proof (holding_le _ _ _ _ (H1 s x Hx)) as Hl.
  destruct (omap (holding s) gs) as [|e [|]]; [|  |cbn in Hl; lia].
  - by apply Permutation_nil_l in Hh.
  - by apply Permutation_singleton_l in Hh.
Qed.
Lemma bus_inv_idle gs b : bus_inv gs b → bus_inv (G Idle :: gs) b.
Proof.
  intros [H1 H2 H3 H4 H5]. split; [|done|by constructor|done|by constructor].
  intros s x Hx. destruct (H1 s x Hx) as [K1 K2 K3 K4 K5 K6 K7 K8 K9 K10]. by split.
Qed.

Lemma during_go n s (Q : res unit → ghost → Prop) :
  Q (Ok tt) (G (Client s)) → during (go (sub_run n s)) Q (G (Starting s)).
Proof.
  intros HQ. intros gs b HI. exists (G (Client s)), (G (Runner s None)). split_and!; [|exact HQ|].
  2: { apply holds_forget. eapply holds_mono; [apply during_run|]. by intros r g ->. }
  pose proof (bound_of _ _ _ HI) as Hlt. cbn in Hlt.
  apply bus_inv_idle in HI. eapply bus_inv_perm in HI; [|apply Permutation_swap].
  apply (recast _ (G (Runner s None)) s) in HI; [|done|done|done|done|].
  - eapply bus_inv_perm in HI; [|apply Permutation_swap].
    apply (recast _ (G (Client s)) s) in HI; [done|done|done|done|done|]. intros x Hx. open_sub. close_sub.
  - intros x Hx. open_sub. close_sub.
Qed.

Lemma during_Subscribe n name wants :
  during (Subscribe n name wants) (λ r g, match r with Ok s => g = G (Client s) | Err _ => False end) (G Idle).
Proof.
  unfold Subscribe. apply holds_bind, during_alloc. intros s. apply holds_bind, during_Lock.
  apply holds_bind, during_read_subs. intros old.
  apply holds_bind, (during_store_subs (New s) (Listed s) s); [done|done|by intros k|..].
  - intros s' Hne. rewrite elem_of_app, list_elem_of_singleton. intuition congruence.
  - intros gs b x Hx <-. open_sub.
    assert (sb_once x = NotYet) as Ho. { destruct (decide (sb_once x = NotYet)) as [|Hn]; [done|]. specialize (S4 (or_intror Hn)). lia. }
    close_sub.
    cbn [set_subs b_subs]. rewrite elem_of_app, list_elem_of_singleton. split; [|by right]. intros _. split; [lia|by left].
  - apply holds_bind, during_Unlock, holds_bind, during_wg_Add, holds_bind, during_go. by apply holds_ret.
Qed.

(** ** Cancelling *)

Lemma during_enter s (Q : res bool → ghost → Prop) :
  Q (Ok true) (G (PreCut s)) → Q (Ok false) (G (Client s)) → during (once_enter s) Q (G (Client s)).
Proof.
  intros H1 H2. apply holds_blocking. intros gs b a b' HI E.
  destruct (lookup_sub gs b _ s HI) as [x Hx]; [by intros k|]. unfold once_enter in E. rewrite Hx in E. cbn [mbind option_bind] in E.
  destruct (sb_once x) eqn:Ho; [|done|].
  - injection E as <- <-. exists (G (PreCut s)). apply and_assoc. split; [|done].
    apply (step_inv (with_once Running) s (G (Client s)) _ gs b _ HI); [done|done|by apply bound_of in HI|done|done| |done|].
    + by apply (lock_same _ _ gs b _ (inv_lock _ _ HI)).
    + intros y Hy. simplify_eq. open_sub. split; [|by rewrite Ho]. apply (sub_ok_ext _ b); [|done..].
      rewrite Ho, decide_False in S3 by done. close_sub.
      * rewrite decide_True by done. lia.
      * intros [|]; [lia|done].
      * intros [|]; [apply S6; by left|done].
      * rewrite S7, Ho. split; intros [? _]; (split; [done|]); [right; lia|by left].
  - injection E as <- <-. exists (G (Client s)). split_and!; [done|apply silenced_refl|done].
Qed.

(** Cutting the list, and cancelling the context. *)
Lemma during_cut s old (Q : res unit → ghost → Prop) :
  Q (Ok tt) (GL (PostCut s) None) →
  during (atomic (modify (set_subs (filter (λ x, x ≠ s) old)))) Q (GL (PreCut s) (Some old)).
Proof.
  intros HQ. apply (during_store_subs (PreCut s) (PostCut s) s); [done|done|by intros k|..|done].
  - intros s' Hne. rewrite list_elem_of_filter. tauto.
  - intros gs b x Hx <-. open_sub. destruct (decide (sb_once x = Running)) as [Ho|]; [|lia].
    close_sub; [rewrite decide_True by done; lia|].
    cbn [set_subs b_subs]. rewrite list_elem_of_filter, Ho. split; [by intros [? _]|]. intros [_ [?|?]]; [done|lia].
Qed.
Lemma during_cancel s (Q : res unit → ghost → Prop) :
  Q (Ok tt) (G (Waiting s)) → during (atomic (modify (sub_alter (with_cancelled true) s))) Q (G (PostCut s)).
Proof.
  intros HQ. apply (holds_move _ _ _ (G (Waiting s)) s (with_cancelled true)); [done|done|done| |done|done| |done].
  - intros gs b HI. by apply bound_of in HI.
  - intros gs b x Hx. open_sub. split; [|done]. apply (sub_ok_ext _ b); [|done..]. close_sub.
Qed.
Lemma during_wait s (Q : res unit → ghost → Prop) :
  Q (Ok tt) (G (Draining s None)) → during (wait_stopped s) Q (G (Waiting s)).
Proof.
  intros HQ. apply holds_blocking. intros gs b a b' HI E.
  destruct (lookup_sub gs b _ s HI) as [x Hx]; [by intros k|]. unfold wait_stopped in E. rewrite Hx in E. cbn [mbind option_bind] in E.
  destruct (Nat.eqb_spec (sb_wg x) 0) as [Hw|]; [|done]. injection E as <- <-.
  exists (G (Draining s None)). split_and!; [|apply silenced_refl|done].
  apply (recast _ _ s gs b HI); [done|done|done|by apply bound_of in HI|].
  intros y Hy. simplify_eq. open_sub. close_sub. intros _. apply S6. left. lia.
Qed.

Definition take_next (s : nat) : M Bus (option BusEvent) := λ b,
  match b_all b !! s with
  | Some x => match sb_queue x with e :: _ => (Ok (Some e), sub_alter pop s b) | [] => (Ok None, b) end
  | None => (Ok None, b)
  end.
Lemma during_take s (Q : res (option BusEvent) → ghost → Prop) :
  Q (Ok None) (G (Draining s None)) → (∀ e, Q (Ok (Some e)) (G (Draining s (Some e)))) →
  during (atomic (take_next s)) Q (G (Draining s None)).
Proof.
  intros H0 H1. apply holds_atomic. intros gs b HI.
  destruct (lookup_sub gs b _ s HI) as [x Hx]; [by intros k|]. unfold take_next. rewrite Hx.
  destruct (sb_queue x) as [|e q] eqn:Hq; cbn [fst snd].
  - exists (G (Draining s None)). split_and!; [done|apply silenced_refl|done].
  - exists (G (Draining s (Some e))). apply and_assoc. split; [|done].
    apply (step_inv pop s (G (Draining s None)) _ gs b _ HI); [done|done|by apply bound_of in HI|done|done| |done|].
    + by apply (lock_same _ _ gs b _ (inv_lock _ _ HI)).
    + intros y Hy. simplify_eq. intros Hok. split; [|done]. apply (sub_ok_ext _ b); [|done..].
      revert Hok. open_sub. unfold pop. rewrite Hq in *. cbn [tail length] in *.
      assert (omap (holding s) gs = []) as Hz.
      { apply holding_none. rewrite S5 in S2 by (left; lia). destruct (decide (sb_once x = Running)); lia. }
      close_sub. by rewrite S9, Hz.
Qed.
Lemma during_discard s e (Q : res unit → ghost → Prop) :
  Q (Ok tt) (G (Draining s None)) →
  during (atomic (modify (jot (Dropped s e "shutdown")))) Q (G (Draining s (Some e))).
Proof.
  intros HQ. apply (during_note _ s _ (G (Draining s None))); [done|done|done|done|by intros k| |done].
  intros gs b x Hx. open_sub.
  assert (omap (holding s) gs = []) as Hz.
  { apply holding_none. rewrite S5 in S2 by (left; lia). destruct (decide (sb_once x = Running)); lia. }
  assert (sb_cancelled x = true) as Hc by (apply S6; left; lia).
  assert (sb_wg x = 0) as Hw by (apply S5; left; lia).
  assert (sb_once x ≠ NotYet) as Ho by (destruct (decide (sb_once x = Running)); [congruence|lia]).
  specialize (S4 (or_intror Ho)).
  split; [close_sub|by rewrite ?handled_snoc, ?app_nil_r].
  - by rewrite S9, Hz, <- !app_assoc.
  - intros _. split; [lia|done].
Qed.

Lemma during_drain n s (Q : res unit → ghost → Prop) :
  Q (Ok tt) (G (Draining s None)) → during (drain n s) Q (G (Draining s None)).
Proof.
  intros HQ. induction n as [|n IH]; [apply during_stuck|]. cbn [drain]. apply holds_bind.
  apply (during_take s); [exact HQ|]. intros e. apply holds_bind, during_discard. exact IH.
Qed.

Lemma during_done s (Q : res unit → ghost → Prop) :
  Q (Ok tt) (G Idle) → during (atomic (modify (sub_alter (with_once Done) s))) Q (G (Draining s None)).
Proof.
  intros HQ. apply (holds_move _ _ _ (G Idle) s (with_once Done)); [done|done|done| |done|done| |done].
  - intros gs b HI. by apply bound_of in HI.
  - intros gs b x Hx. open_sub. split; [|done]. apply (sub_ok_ext _ b); [|done..].
    destruct (decide (sb_once x = Running)) as [Ho|]; [|lia].
    close_sub.
    + rewrite decide_False by done. lia.
    + intros _. apply S4. right. congruence.
    + intros _. apply S6. left. lia.
    + rewrite S7, Ho. split; intros [? [?|?]]; (done || lia).
Qed.

Lemma during_cancel_call n s : during (cancel n s) (λ _ g, settled g) (G (Client s)).
Proof.
  unfold cancel. apply holds_bind, during_enter; [|done]. unfold remove.
  repeat apply holds_bind. apply during_Lock, holds_bind, during_read_subs. intros old.
  apply holds_bind, during_cut, holds_bind, during_Unlock, holds_bind, during_cancel, holds_bind, during_wait.
  by apply during_drain, during_done.
Qed.

(** ** Any number of publishers and clients *)

(** A client subscribes and may call the cancel function from several goroutines; [n] bounds
    the turns of its goroutine, each [k] the events a cancel drains. *)
Inductive bus_program : prog Bus unit → Prop :=
  | bp_publish e : bus_program (forget (Publish e))
  | bp_client n name wants cancels :
      bus_program (forget (s ← Subscribe n name wants; for_each (λ k, go (cancel k s)) cancels)).
Definition bus_start (b : Bus) : Prop := b_subs b = [] ∧ b_all b = [] ∧ b_writeMu b = false ∧ b_log b = [].

Lemma during_go_cancel k s : during (go (cancel k s)) (λ _ g, g = G (Client s)) (G (Client s)).
Proof.
  intros gs b HI. exists (G (Client s)), (G (Client s)). split_and!; [|done|].
  2: { apply holds_forget. eapply holds_mono; [apply during_cancel_call|done]. }
  pose proof (bound_of _ _ _ HI) as Hlt. cbn in Hlt. apply bus_inv_idle in HI.
  apply (recast _ (G (Client s)) s) in HI; [done|done|done|done|done|]. intros x Hx. open_sub. close_sub.
Qed.

Lemma bus_program_settles p : bus_program p → during p (λ _, settled) (G Idle).
Proof.
  intros [e|n name wants cancels]; apply holds_forget.
  - eapply holds_mono; [apply during_Publish|]. by intros r g ->.
  - apply holds_bind. eapply holds_mono; [apply during_Subscribe|]. intros [s|e] g; [|done]. intros ->.
    eapply holds_mono; [apply during_for_each|by intros r g ->]. intros k _. apply during_go_cancel.
Qed.
Lemma bus_start_inv k b : bus_start b → bus_inv (replicate k (G Idle)) b.
Proof.
  intros (E1 & E2 & E3 & E4). split.
  - intros s x Hx. by rewrite E2 in Hx.
  - intros s _. rewrite E1, E4. split_and!; [|done..]. apply not_elem_of_nil.
  - by apply Forall_replicate.
  - rewrite E3. by induction k.
  - by apply Forall_replicate.
Qed.
Lemma bus_pool ps ps' b b' :
  Forall bus_program ps → bus_start b → rtc pool_step (ps, b) (ps', b') →
  ∃ gs, Forall2 (λ p g, during p (λ _, settled) g) ps' gs ∧ bus_inv gs b'.
Proof.
  intros Hps Hb Hr.
  destruct (holds_pool settled bus_inv silenced (λ gs gs' b, bus_inv_perm gs gs' b) ps (replicate (length ps) (G Idle)) b ps' b')
    as (gs & H1 & H2 & _); [|by apply bus_start_inv|done|by exists gs].
  clear Hr. induction Hps; simpl; constructor; [by apply bus_program_settles|done].
Qed.

(** C21: Under every interleaving of publishers, clients and cancels, the events a handler was called with are a
    prefix, in order, of what the subscriber's queue accepted; after them come those counted as
    dropped at shutdown, at most one in hand, and the queue, which is never over its
    bound; only a cancelled subscriber drops at shutdown; once its cancel has
    returned nothing is in hand and it is out of the list that publishers read, and until
    it is called a running subscriber is in it. *)
Theorem deliveries_in_order ps ps' b b' s x :
  Forall bus_program ps → bus_start b → rtc pool_step (ps, b) (ps', b') → b_all b' !! s = Some x →
  ∃ flight, sent s (b_log b') = handled s (b_log b') ++ shut_down s (b_log b') ++ flight ++ sb_queue x ∧
    length flight ≤ 1 ∧ length (sb_queue x) ≤ b_queueCap b' ∧
    (shut_down s (b_log b') ≠ [] → sb_cancelled x = true) ∧
    (sb_once x = Done → flight = [] ∧ sb_cancelled x = true ∧ s ∉ b_subs b') ∧
    (sb_once x = NotYet → sb_wg x = 1 → s ∈ b_subs b').
Proof.
  intros Hps Hb Hr Hx. destruct (bus_pool ps ps' b b' Hps Hb Hr) as (gs & _ & HI).
  pose proof (bi_subs _ _ HI s x Hx) as Hok. pose proof (holding_le _ _ _ _ Hok) as Hl.
  destruct Hok as [K1 K2 K3 K4 K5 K6 K7 K8 K9 K10].
  exists (omap (holding s) gs). split; [done|]. split; [done|]. split; [done|]. split; [|split].
  - intros Hn. by destruct (K10 Hn).
  - intros Hd. specialize (K5 (or_intror Hd)). rewrite Hd, decide_False in K3 by done.
    split_and!; [apply holding_none; lia|auto|]. rewrite K7, Hd. intros [_ [|]]; [done|lia].
  - intros Hn Hw. apply K7. split; [lia|by left].
Qed.

(** Once the cancel of a subscriber has returned, its handler is never called again. *)
Theorem cancel_silences ps ps1 ps2 b b1 b2 s x :
  Forall bus_program ps → bus_start b → rtc pool_step (ps, b) (ps1, b1) → rtc pool_step (ps1, b1) (ps2, b2) →
  b_all b1 !! s = Some x → sb_once x = Done → handled s (b_log b2) = handled s (b_log b1).
Proof.
  intros Hps Hb Hr1 Hr2 Hx Hd. destruct (bus_pool ps ps1 b b1 Hps Hb Hr1) as (gs & Hps1 & HI).
  destruct (holds_pool settled bus_inv silenced (λ gs gs' b, bus_inv_perm gs gs' b) ps1 gs b1 ps2 b2 Hps1 HI Hr2)
    as (_ & _ & _ & Hs). clear -Hs Hx Hd.
  induction Hs as [|b1 b3 b2 H1 _ IH] in x, Hx, Hd; [done|].
  destruct (H1 s x Hx Hd) as [<- (x' & Hx' & Hd')]. by eapply IH.
Qed.

(** ** Publishing alone *)

(** The queue of a subscriber after a publish. *)
Definition after_offer (b : Bus) (e : BusEvent) (s : nat) (x : subscriber) : subscriber :=
  if sb_wants x (be_Name e) && (length (sb_queue x) <? b_queueCap b)%nat then push e x else x.
Definition offer_if_wanted (e : BusEvent) (s : nat) : P Bus unit :=
  w ← atomic (gets (λ b, wanted b (be_Name e) s)); if w : bool then atomic (offer e s) else mret tt.

Lemma offer_if_wanted_run e s b :
  ∃ b', run (offer_if_wanted e s) b = Some (Ok tt, b') ∧ b_log b' = b_log b ++ offered b e s ∧
    b_subs b' = b_subs b ∧ b_queueCap b' = b_queueCap b ∧
    ∀ s', b_all b' !! s' = if decide (s' = s) then after_offer b e s <$> b_all b !! s else b_all b !! s'.
Proof.
  unfold offer_if_wanted, offered, after_offer, wanted. rewrite run_bind, run_atomic. cbn [gets].
  destruct (b_all b !! s) as [x|] eqn:Hx; cbn [fmap option_fmap option_map].
  2: { exists b. rewrite app_nil_r. split_and!; [done..|]. intros s'. by destruct (decide (s' = s)) as [->|Hne]. }
  destruct (sb_wants x (be_Name e)); cbn [andb].
  2: { exists b. rewrite app_nil_r. split_and!; [done..|]. intros s'. by destruct (decide (s' = s)) as [->|Hne]. }
  rewrite run_atomic. unfold offer, modify. rewrite Hx.
  destruct (length (sb_queue x) <? b_queueCap b)%nat; eexists; (split; [reflexivity|]); (split_and!; [done..|]); intros s'; cbn.
  - destruct (decide (s' = s)) as [->|Hne]; [by rewrite list_lookup_alter_eq, Hx|by rewrite list_lookup_alter_ne].
  - destruct (decide (s' = s)) as [->|Hne]; done.
Qed.
Lemma offers_run e l b :
  NoDup l →
  ∃ b', run (for_each (offer_if_wanted e) l) b = Some (Ok tt, b') ∧
    b_log b' = b_log b ++ concat (map (offered b e) l) ∧ b_subs b' = b_subs b ∧ b_queueCap b' = b_queueCap b ∧
    ∀ s, b_all b' !! s = if decide (s ∈ l) then after_offer b e s <$> b_all b !! s else b_all b !! s.
Proof.
  intros Hl. induction Hl as [|s l Hs Hl IH] in b |- *.
  { exists b. cbn. rewrite app_nil_r. split_and!; [done..|]. intros s. by rewrite decide_False by apply not_elem_of_nil. }
  cbn [for_each map concat]. rewrite run_bind.
  destruct (offer_if_wanted_run e s b) as (b1 & -> & L1 & S1 & C1 & A1).
  destruct (IH b1) as (b2 & -> & L2 & S2 & C2 & A2). exists b2.
  assert (∀ s', s' ∈ l → b_all b1 !! s' = b_all b !! s') as Hsame.
  { intros s' Hin. rewrite A1, decide_False; [done|]. by intros ->. }
  split_and!; [done| |congruence|congruence|].
  - rewrite L2, L1, <- app_assoc. do 3 f_equal. apply map_ext_in. intros s' Hin%list_elem_of_In.
    unfold offered. by rewrite Hsame, C1.
  - intros s'. rewrite A2. destruct (decide (s' ∈ l)) as [Hin|Hn].
    + rewrite Hsame by done. rewrite decide_True by by right. unfold after_offer. by rewrite C1.
    + rewrite A1. destruct (decide (s' = s)) as [->|Hne].
      * by rewrite decide_True by by left.
      * rewrite decide_False; [done|]. intros [->|]%elem_of_cons; done.
Qed.

(** C22: Publishing never blocks, whatever the queues, the subscribers and the other threads do; alone, it
    offers the event once to each listed subscriber that wants it, whose queue takes it
    if it has room and otherwise stays as it is, the drop being counted. *)
Theorem Publish_never_blocks e :
  total (Publish e) ∧
  ∀ b, NoDup (b_subs b) →
    ∃ b', run (Publish e) b = Some (Ok tt, b') ∧
      b_log b' = b_log b ++ concat (map (offered b e) (b_subs b)) ∧ b_subs b' = b_subs b ∧
      ∀ s, b_all b' !! s = if decide (s ∈ b_subs b) then after_offer b e s <$> b_all b !! s else b_all b !! s.
Proof.
  split.
  - apply total_bind; [by apply total_atomic|]. intros subs.
    induction subs as [|s subs IH]; [done|]. cbn [for_each]. apply total_bind; [|intros []; exact IH].
    apply total_bind; [by apply total_atomic|]. intros []; [by apply total_atomic|done].
  - intros b Hb. unfold Publish. rewrite run_bind, run_atomic. cbn [gets].
    destruct (offers_run e (b_subs b) b Hb) as (b' & Hr & HL & HS & _ & HA). exists b'. by split_and!.
Qed.

(** ** Concrete inputs *)

Definition demo_solved (id : string) : BusEvent :=
  {| be_Name := "challenge.solved"; be_ID := id; be_OccurredAt := 0; be_Data := ∅ |}.
Definition demo_threads : list (prog Bus unit) :=
  [forget (Publish (demo_solved "e1"));
   forget (s ← Subscribe 5 "notifier" (λ _, true); for_each (λ k, go (cancel k s)) [5])].
Lemma demo_bus_programs : Forall bus_program demo_threads.
Proof. repeat constructor. Qed.
Lemma demo_bus_start : bus_start (NewBus [] []).
Proof. by split_and!. Qed.

(** Subscribe, publish, handle; then cancel. *)
Definition demo_handled : list nat := repeat 1 8 ++ repeat 0 3 ++ repeat 2 4.
Definition demo_cancelled : list nat := repeat 3 6 ++ repeat 2 2 ++ repeat 3 3.
(** Between the publisher's read of the list and its send, the subscriber is cancelled. *)
Definition demo_late : list nat := repeat 1 8 ++ repeat 0 2 ++ demo_cancelled ++ [0].

Definition done_b (s : nat) (b : Bus) : bool :=
  match b_all b !! s with Some x => bool_decide (sb_once x = Done) | None => false end.
Lemma done_b_true s b : done_b s b = true → ∃ x, b_all b !! s = Some x ∧ sb_once x = Done.
Proof.
  unfold done_b. destruct (b_all b !! s) as [x|]; [|done]. intros H%bool_decide_eq_true. by exists x.
Qed.

Lemma deliveries_in_order_witness :
  match exec demo_late demo_threads (NewBus [] []) with
  | Some (_, b') => ∃ x flight, b_all b' !! 0 = Some x ∧ sb_once x = Done ∧ flight = [] ∧
      sent 0 (b_log b') = handled 0 (b_log b') ++ shut_down 0 (b_log b') ++ flight ++ sb_queue x
  | None => False
  end.
Proof.
  assert (match exec demo_late demo_threads (NewBus [] []) with
          | Some (_, b') => done_b 0 b' | None => false end = true) as Hrun by (vm_compute; reflexivity).
  destruct (exec demo_late demo_threads (NewBus [] [])) as [[ps' b']|] eqn:Ex; [|discriminate Hrun].
  apply done_b_true in Hrun as (x & Hx & Hd).
  destruct (deliveries_in_order _ _ _ _ 0 x demo_bus_programs demo_bus_start (exec_sound _ _ _ _ _ Ex) Hx)
    as (flight & Hs & _ & _ & _ & Hf & _).
  exists x, flight. destruct (Hf Hd) as [-> _]. by split_and!.
Defined.

Lemma cancel_silences_witness :
  match exec (demo_handled ++ demo_cancelled) demo_threads (NewBus [] []) with
  | Some (ps1, b1) =>
      handled 0 (b_log b1) = [demo_solved "e1"] ∧
      ∀ ps2 b2, rtc pool_step (ps1, b1) (ps2, b2) → handled 0 (b_log b2) = handled 0 (b_log b1)
  | None => False
  end.
Proof.
  assert (match exec (demo_handled ++ demo_cancelled) demo_threads (NewBus [] []) with
          | Some (_, b') => done_b 0 b' | None => false end = true) as Hrun by (vm_compute; reflexivity).
  assert (match exec (demo_handled ++ demo_cancelled) demo_threads (NewBus [] []) with
          | Some (_, b') => handled 0 (b_log b') = [demo_solved "e1"] | None => False end) as He by (vm_compute; reflexivity).
  destruct (exec _ demo_threads (NewBus [] [])) as [[ps1 b1]|] eqn:Ex; [|discriminate Hrun].
  split; [exact He|]. intros ps2 b2 Hr. apply done_b_true in Hrun as (x & Hx & Hd).
  exact (cancel_silences _ ps1 ps2 _ b1 b2 0 x demo_bus_programs demo_bus_start (exec_sound _ _ _ _ _ Ex) Hr Hx Hd).
Defined.

(** An event accepted by the queue of a subscriber removed meanwhile is neither
    handled nor counted: every thread has ended and it is still queued. *)
Theorem late_send_is_lost :
  match exec demo_late demo_threads (NewBus [] []) with
  | Some (ps', b') => Forall (λ p, p = Ret tt) ps' ∧ b_log b' = [Sent 0 (demo_solved "e1")]
  | None => False
  end.
Proof.
  assert (match exec demo_late demo_threads (NewBus [] []) with
          | Some (ps', _) => forallb ended ps' | None => false end = true) as Hend by (vm_compute; reflexivity).
  assert (match exec demo_late demo_threads (NewBus [] []) with
          | Some (_, b') => b_log b' = [Sent 0 (demo_solved "e1")] | None => False end) as Hlog by (vm_compute; reflexivity).
  destruct (exec _ demo_threads (NewBus [] [])) as [[ps1 b1]|]; [|discriminate Hend].
  split; [by apply ended_all|exact Hlog].
Qed.

Lemma Publish_never_blocks_witness :
  match exec (repeat 1 8) demo_threads (NewBus [] []) with
  | Some (_, b) => b_subs b = [0] ∧
      ∃ b', run (Publish (demo_solved "e2")) b = Some (Ok tt, b') ∧
        b_log b' = b_log b ++ concat (map (offered b (demo_solved "e2")) (b_subs b))
  | None => False
  end.
Proof.
  assert (match exec (repeat 1 8) demo_threads (NewBus [] []) with
          | Some (_, b) => b_subs b = [0] | None => False end) as Hs by (vm_compute; reflexivity).
  destruct (exec _ demo_threads (NewBus [] [])) as [[ps b]|]; [|destruct Hs]. split; [exact Hs|].
  destruct (Publish_never_blocks (demo_solved "e2")) as [_ Hp].
  destruct (Hp b) as (b' & Hr & Hl & _); [rewrite Hs; apply NoDup_singleton|]. exists b'. by split.
Defined.

(** Dropping the newest leaves holes: with room for one event, the second of three is
    dropped and the third is accepted once the first has been taken. *)
Theorem drops_leave_holes :
  let ps := [forget (Publish (demo_solved "e1")); forget (Publish (demo_solved "e2")); forget (Publish (demo_solved "e3"));
             forget (s ← Subscribe 5 "notifier" (λ _, true); for_each (λ k, go (cancel k s)) [])] in
  match exec (repeat 3 7 ++ repeat 0 3 ++ repeat 1 3 ++ repeat 4 4 ++ repeat 2 3 ++ repeat 4 3)
          ps (WithQueueCap 1 (NewBus [] [])) with
  | Some (_, b') => handled 0 (b_log b') = [demo_solved "e1"; demo_solved "e3"] ∧
      Dropped 0 (demo_solved "e2") "backpressure" ∈ b_log b'
  | None => False
  end.
Proof.
  intros ps.
  assert (match exec (repeat 3 7 ++ repeat 0 3 ++ repeat 1 3 ++ repeat 4 4 ++ repeat 2 3 ++ repeat 4 3)
                  ps (WithQueueCap 1 (NewBus [] [])) with
          | Some (_, b') => b_log b' = [Sent 0 (demo_solved "e1"); Dropped 0 (demo_solved "e2") "backpressure";
              Handled 0 (demo_solved "e1"); Sent 0 (demo_solved "e3"); Handled 0 (demo_solved "e3")]
          | None => False end) as Hl by (vm_compute; reflexivity).
  destruct (exec _ ps _) as [[ps' b']|]; [|destruct Hl]. rewrite Hl. split; [reflexivity|].
  right. left.
Qed.
