(* ===== verification/Hub.v ===== *)
(** * The websocket hub ([internal/ws])

    Live scoreboard updates: one goroutine owns the set of connections and fans frames
    out to an ordered queue per connection, each drained by that connection's handler.
    Admission control bounds the connections of this public endpoint.  The hub
    shares no state with the services, so its programs run on a state of their own. *)

From S2P Require Import Prelude Env.

(** ** Frames and clients *)

(** [message], before its encoding: what the envelope's type and data say. *)
Inductive frame :=
  | FrameHello (frozen : bool)
  | FrameScoreboard (snap : Snapshot)
  | FrameEventPhase (phase : string).

Definition broadcastMinGap : duration := Second.
Definition pingInterval : duration := (30 * Second)%Z.
Definition clientQueueCap : nat := 64.

(** [cl_wake] is the buffered channel of capacity one; [cl_gone] is the request's context. *)
Record client := {
  cl_key : string; cl_queue : list frame; cl_tailSnap : bool; cl_overflow : bool;
  cl_wake : bool; cl_gone : bool
}.
Definition newClient (key : string) : client :=
  {| cl_key := key; cl_queue := []; cl_tailSnap := false; cl_overflow := false; cl_wake := false; cl_gone := false |}.
Definition with_wake v x := {| cl_key := cl_key x; cl_queue := cl_queue x; cl_tailSnap := cl_tailSnap x; cl_overflow := cl_overflow x; cl_wake := v; cl_gone := cl_gone x |}.
Definition with_gone v x := {| cl_key := cl_key x; cl_queue := cl_queue x; cl_tailSnap := cl_tailSnap x; cl_overflow := cl_overflow x; cl_wake := cl_wake x; cl_gone := v |}.
Definition with_overflow v x := {| cl_key := cl_key x; cl_queue := cl_queue x; cl_tailSnap := cl_tailSnap x; cl_overflow := v; cl_wake := cl_wake x; cl_gone := cl_gone x |}.
Definition with_queue q t x := {| cl_key := cl_key x; cl_queue := q; cl_tailSnap := t; cl_overflow := cl_overflow x; cl_wake := cl_wake x; cl_gone := cl_gone x |}.

(** The locked part of [enqueue]. *)
Definition push (msg : frame) (isSnapshot : bool) (x : client) : client :=
  if isSnapshot && cl_tailSnap x && negb (bool_decide (cl_queue x = []))
  then with_queue (removelast (cl_queue x) ++ [msg]) (cl_tailSnap x) x
  else if (clientQueueCap <=? length (cl_queue x))%nat then with_overflow true x
  else with_queue (cl_queue x ++ [msg]) isSnapshot x.

(** ** Admission control ([limits.go]) *)

Record Limits := {
  MaxConns : Z; MaxConnsPerKey : Z; HandshakeBurst : Z; HandshakeWindow : duration
}.
Definition DefaultLimits : Limits :=
  {| MaxConns := 20000; MaxConnsPerKey := 256; HandshakeBurst := 600; HandshakeWindow := Minute |}.

(** A map read of a key that is not there is zero, or the empty list. *)
Record admissions := {
  ad_limits : Limits; ad_total : Z; ad_perKey : gmap string Z;
  ad_hsHits : gmap string (list time); ad_forgive : gmap string Z
}.
Definition newAdmissions (l : Limits) : admissions :=
  {| ad_limits := l; ad_total := 0; ad_perKey := ∅; ad_hsHits := ∅; ad_forgive := ∅ |}.
Definition with_forgive m a := {| ad_limits := ad_limits a; ad_total := ad_total a; ad_perKey := ad_perKey a; ad_hsHits := ad_hsHits a; ad_forgive := m |}.
Definition with_hits m a := {| ad_limits := ad_limits a; ad_total := ad_total a; ad_perKey := ad_perKey a; ad_hsHits := m; ad_forgive := ad_forgive a |}.
Definition with_counts n m a := {| ad_limits := ad_limits a; ad_total := n; ad_perKey := m; ad_hsHits := ad_hsHits a; ad_forgive := ad_forgive a |}.

Definition at_key (m : gmap string Z) (key : string) : Z := default 0%Z (m !! key).
(** [m[key]--], and the key goes with its last unit. *)
Definition take_one (key : string) (m : gmap string Z) : gmap string Z :=
  if (at_key m key - 1 =? 0)%Z then delete key m else <[key := (at_key m key - 1)%Z]> m.

Definition forgiveHandshake (key : string) (a : admissions) : admissions :=
  if (at_key (ad_forgive a) key <? 4)%Z
  then with_forgive (<[key := (at_key (ad_forgive a) key + 1)%Z]> (ad_forgive a)) a else a.

(** The handshakes still in the window. *)
Definition recent (now : time) (w : duration) (hits : list time) : list time :=
  filter (λ t, (now - t < w)%Z) hits.
(** The handshake rate: whether it fires, and what it records. *)
Definition rate (now : time) (key : string) (a : admissions) : bool * admissions :=
  let l := ad_limits a in
  if (0 <? HandshakeBurst l)%Z then
    let hits := recent now (HandshakeWindow l) (default [] (ad_hsHits a !! key)) in
    if (HandshakeBurst l <=? Z.of_nat (length hits))%Z
    then (true, with_hits (<[key := hits]> (ad_hsHits a)) a)
    else (false, with_hits (<[key := hits ++ [now]]> (ad_hsHits a)) a)
  else (false, a).
(** The limit that fired, or none: a slot is reserved. *)
Definition admissions_admit (now : time) (key : string) (a : admissions) : option string * admissions :=
  let forgiven := (0 <? at_key (ad_forgive a) key)%Z in
  let a := if forgiven then with_forgive (take_one key (ad_forgive a)) a else a in
  let '(denied, a) := if forgiven then (false, a) else rate now key a in
  let l := ad_limits a in
  if denied then (Some "handshake_rate", a) else
  if (0 <? MaxConns l)%Z && (MaxConns l <=? ad_total a)%Z then (Some "global", a) else
  if (0 <? MaxConnsPerKey l)%Z && (MaxConnsPerKey l <=? at_key (ad_perKey a) key)%Z then (Some "per_key", a) else
  (None, with_counts (ad_total a + 1) (<[key := (at_key (ad_perKey a) key + 1)%Z]> (ad_perKey a)) a).
Definition release (key : string) (a : admissions) : admissions :=
  with_counts (if (0 <? ad_total a)%Z then ad_total a - 1 else ad_total a)%Z
    (if (0 <? at_key (ad_perKey a) key)%Z then take_one key (ad_perKey a) else ad_perKey a) a.
Definition retryAfterSeconds (limit : string) (a : admissions) : Z :=
  if bool_decide (limit = "handshake_rate") && (0 <? HandshakeWindow (ad_limits a))%Z
  then (HandshakeWindow (ad_limits a) ÷ Second)%Z else 5%Z.

(** ** The hub's state *)

Record outbound := { ob_data : frame; ob_isScoreboard : bool; ob_frozen : bool }.

(** What happens, in order: a message the hub took, a client it registered and what it greeted
    it with, the frames a handler drained to write and those its connection took, and
    the rest that reaches the outside. *)
Inductive note :=
  | Took (f : frame)
  | Greeted (c : nat) (hello : frame) (board : option frame)
  | Drained (c : nat) (fs : list frame)
  | Wrote (c : nat) (f : frame)
  | Closed (c : nat) (reason : string)
  | Conns (n : nat)
  | Rejected (limit : string) (retry : Z)
  | BroadcastDropped (kind : string).

(** [h_all] holds every client ever made, a pointer being its index.  [h_register] and
    [h_unregister] are the unbuffered channels: the clients whose handlers are at the send.
    [h_stop] is the context of [Run], [h_choices] the choices of [select] and [h_faults] whether
    each operation on a connection fails. *)
Record Hub := {
  h_all : list client; h_clients : gset nat; h_register : gset nat; h_unregister : gset nat;
  h_incoming : list outbound; h_stop : bool; h_done : bool;
  h_lastScoreboard : option frame; h_lastFrozen : bool; h_admit : admissions;
  h_now : time; h_choices : list nat; h_faults : list bool; h_log : list note
}.
Definition set_all v h := {| h_all := v; h_clients := h_clients h; h_register := h_register h; h_unregister := h_unregister h; h_incoming := h_incoming h; h_stop := h_stop h; h_done := h_done h; h_lastScoreboard := h_lastScoreboard h; h_lastFrozen := h_lastFrozen h; h_admit := h_admit h; h_now := h_now h; h_choices := h_choices h; h_faults := h_faults h; h_log := h_log h |}.
Definition set_clients v h := {| h_all := h_all h; h_clients := v; h_register := h_register h; h_unregister := h_unregister h; h_incoming := h_incoming h; h_stop := h_stop h; h_done := h_done h; h_lastScoreboard := h_lastScoreboard h; h_lastFrozen := h_lastFrozen h; h_admit := h_admit h; h_now := h_now h; h_choices := h_choices h; h_faults := h_faults h; h_log := h_log h |}.
Definition set_register v h := {| h_all := h_all h; h_clients := h_clients h; h_register := v; h_unregister := h_unregister h; h_incoming := h_incoming h; h_stop := h_stop h; h_done := h_done h; h_lastScoreboard := h_lastScoreboard h; h_lastFrozen := h_lastFrozen h; h_admit := h_admit h; h_now := h_now h; h_choices := h_choices h; h_faults := h_faults h; h_log := h_log h |}.
Definition set_unregister v h := {| h_all := h_all h; h_clients := h_clients h; h_register := h_register h; h_unregister := v; h_incoming := h_incoming h; h_stop := h_stop h; h_done := h_done h; h_lastScoreboard := h_lastScoreboard h; h_lastFrozen := h_lastFrozen h; h_admit := h_admit h; h_now := h_now h; h_choices := h_choices h; h_faults := h_faults h; h_log := h_log h |}.
Definition set_incoming v h := {| h_all := h_all h; h_clients := h_clients h; h_register := h_register h; h_unregister := h_unregister h; h_incoming := v; h_stop := h_stop h; h_done := h_done h; h_lastScoreboard := h_lastScoreboard h; h_lastFrozen := h_lastFrozen h; h_admit := h_admit h; h_now := h_now h; h_choices := h_choices h; h_faults := h_faults h; h_log := h_log h |}.
Definition set_stop v h := {| h_all := h_all h; h_clients := h_clients h; h_register := h_register h; h_unregister := h_unregister h; h_incoming := h_incoming h; h_stop := v; h_done := h_done h; h_lastScoreboard := h_lastScoreboard h; h_lastFrozen := h_lastFrozen h; h_admit := h_admit h; h_now := h_now h; h_choices := h_choices h; h_faults := h_faults h; h_log := h_log h |}.
Definition set_done v h := {| h_all := h_all h; h_clients := h_clients h; h_register := h_register h; h_unregister := h_unregister h; h_incoming := h_incoming h; h_stop := h_stop h; h_done := v; h_lastScoreboard := h_lastScoreboard h; h_lastFrozen := h_lastFrozen h; h_admit := h_admit h; h_now := h_now h; h_choices := h_choices h; h_faults := h_faults h; h_log := h_log h |}.
Definition set_lastScoreboard v h := {| h_all := h_all h; h_clients := h_clients h; h_register := h_register h; h_unregister := h_unregister h; h_incoming := h_incoming h; h_stop := h_stop h; h_done := h_done h; h_lastScoreboard := v; h_lastFrozen := h_lastFrozen h; h_admit := h_admit h; h_now := h_now h; h_choices := h_choices h; h_faults := h_faults h; h_log := h_log h |}.
Definition set_lastFrozen v h := {| h_all := h_all h; h_clients := h_clients h; h_register := h_register h; h_unregister := h_unregister h; h_incoming := h_incoming h; h_stop := h_stop h; h_done := h_done h; h_lastScoreboard := h_lastScoreboard h; h_lastFrozen := v; h_admit := h_admit h; h_now := h_now h; h_choices := h_choices h; h_faults := h_faults h; h_log := h_log h |}.
Definition set_admit v h := {| h_all := h_all h; h_clients := h_clients h; h_register := h_register h; h_unregister := h_unregister h; h_incoming := h_incoming h; h_stop := h_stop h; h_done := h_done h; h_lastScoreboard := h_lastScoreboard h; h_lastFrozen := h_lastFrozen h; h_admit := v; h_now := h_now h; h_choices := h_choices h; h_faults := h_faults h; h_log := h_log h |}.
Definition set_now v h := {| h_all := h_all h; h_clients := h_clients h; h_register := h_register h; h_unregister := h_unregister h; h_incoming := h_incoming h; h_stop := h_stop h; h_done := h_done h; h_lastScoreboard := h_lastScoreboard h; h_lastFrozen := h_lastFrozen h; h_admit := h_admit h; h_now := v; h_choices := h_choices h; h_faults := h_faults h; h_log := h_log h |}.
Definition set_choices v h := {| h_all := h_all h; h_clients := h_clients h; h_register := h_register h; h_unregister := h_unregister h; h_incoming := h_incoming h; h_stop := h_stop h; h_done := h_done h; h_lastScoreboard := h_lastScoreboard h; h_lastFrozen := h_lastFrozen h; h_admit := h_admit h; h_now := h_now h; h_choices := v; h_faults := h_faults h; h_log := h_log h |}.
Definition set_faults v h := {| h_all := h_all h; h_clients := h_clients h; h_register := h_register h; h_unregister := h_unregister h; h_incoming := h_incoming h; h_stop := h_stop h; h_done := h_done h; h_lastScoreboard := h_lastScoreboard h; h_lastFrozen := h_lastFrozen h; h_admit := h_admit h; h_now := h_now h; h_choices := h_choices h; h_faults := v; h_log := h_log h |}.
Definition set_log v h := {| h_all := h_all h; h_clients := h_clients h; h_register := h_register h; h_unregister := h_unregister h; h_incoming := h_incoming h; h_stop := h_stop h; h_done := h_done h; h_lastScoreboard := h_lastScoreboard h; h_lastFrozen := h_lastFrozen h; h_admit := h_admit h; h_now := h_now h; h_choices := h_choices h; h_faults := h_faults h; h_log := v |}.
Definition NewHub (now : time) (choices : list nat) (faults : list bool) : Hub :=
  {| h_all := []; h_clients := ∅; h_register := ∅; h_unregister := ∅; h_incoming := []; h_stop := false; h_done := false;
     h_lastScoreboard := None; h_lastFrozen := false; h_admit := newAdmissions DefaultLimits;
     h_now := now; h_choices := choices; h_faults := faults; h_log := [] |}.
Definition SetLimits (l : Limits) (h : Hub) : Hub :=
  let a := h_admit h in
  set_admit {| ad_limits := l; ad_total := ad_total a; ad_perKey := ad_perKey a; ad_hsHits := ad_hsHits a; ad_forgive := ad_forgive a |} h.

Definition client_alter (f : client → client) (c : nat) (h : Hub) : Hub := set_all (alter f c (h_all h)) h.
Definition jot (n : note) (h : Hub) : Hub := set_log (h_log h ++ [n]) h.
Definition on_admit (f : admissions → admissions) (h : Hub) : Hub := set_admit (f (h_admit h)) h.
Definition stuck {A} : P Hub A := blocking (λ _, None).

(** One of the ready cases of a [select]; none is ready: it waits. *)
Definition select_ready {A} (ready : list A) (h : Hub) : option (A * Hub) :=
  match ready with
  | [] => None
  | x :: _ =>
      match h_choices h with
      | [] => Some (x, h)
      | n :: ns => a ← ready !! (n mod length ready); Some (a, set_choices ns h)
      end
  end.
Definition fault : M Hub bool := λ h,
  match h_faults h with [] => (Ok false, h) | b :: bs => (Ok b, set_faults bs h) end.

(** ** Broadcasting *)

Definition incomingCap : nat := 16.
(** A non-blocking send: the channel takes it, or it is dropped and counted. *)
Definition offer (kind : string) (m : outbound) : M Hub unit := modify (λ h,
  if (length (h_incoming h) <? incomingCap)%nat then set_incoming (h_incoming h ++ [m]) h
  else jot (BroadcastDropped kind) h).
Definition BroadcastScoreboard (snap : Snapshot) : P Hub unit :=
  atomic (offer "scoreboard" {| ob_data := FrameScoreboard snap; ob_isScoreboard := true; ob_frozen := sn_Frozen snap |}).
Definition BroadcastPhase (phase : string) : P Hub unit :=
  atomic (offer "phase" {| ob_data := FrameEventPhase phase; ob_isScoreboard := false; ob_frozen := false |}).

(** ** The hub's goroutine *)

Definition signal (c : nat) : M Hub unit := modify (client_alter (with_wake true) c).
Definition enqueue (c : nat) (msg : frame) (isSnapshot : bool) : P Hub unit :=
  atomic (modify (client_alter (push msg isSnapshot) c));;
  atomic (signal c).
Definition fanout (msg : frame) (isSnapshot : bool) : P Hub unit :=
  cs ← atomic (gets (λ h, elements (h_clients h)));
  for_each (λ c, enqueue c msg isSnapshot) cs.

(** What [Run] waits for: the timer fires once its deadline has passed. *)
Inductive hub_case := CaseDone | CaseRegister (c : nat) | CaseUnregister (c : nat) | CaseIncoming | CaseTimer.
Definition hub_ready (timer : option time) (h : Hub) : list hub_case :=
  (if h_stop h then [CaseDone] else []) ++
  (CaseRegister <$> elements (h_register h)) ++ (CaseUnregister <$> elements (h_unregister h)) ++
  (if bool_decide (h_incoming h = []) then [] else [CaseIncoming]) ++
  match timer with Some t => if (t <=? h_now h)%Z then [CaseTimer] else [] | None => [] end.

(** The sender's handler goes on; the client is in, and is to be greeted with what is known. *)
Definition take_register (c : nat) (h : Hub) : Hub :=
  let h := set_clients ({[c]} ∪ h_clients h) (set_register (h_register h ∖ {[c]}) h) in
  jot (Conns (size (h_clients h))) (jot (Greeted c (FrameHello (h_lastFrozen h)) (h_lastScoreboard h)) h).
Definition take_unregister (c : nat) (h : Hub) : Hub :=
  let h := set_unregister (h_unregister h ∖ {[c]}) h in
  if decide (c ∈ h_clients h)
  then let h := set_clients (h_clients h ∖ {[c]}) h in jot (Conns (size (h_clients h))) h
  else h.
(** A scoreboard is remembered as it is taken. *)
Definition remember (m : outbound) (h : Hub) : Hub :=
  if ob_isScoreboard m then set_lastFrozen (ob_frozen m) (set_lastScoreboard (Some (ob_data m)) h) else h.
Definition take_incoming (m : outbound) (ms : list outbound) (h : Hub) : Hub :=
  jot (Took (ob_data m)) (remember m (set_incoming ms h)).

(** [select]: the receive of the case it chose, with what the case does to the variables
    that are the hub's alone. *)
Inductive hub_event :=
  | Done | Registered (c : nat) (frozen : bool) (board : option frame) | Unregistered | Received (m : outbound) | Fired.
Definition hub_select (timer : option time) : P Hub hub_event := blocking (λ h,
  '(case, h) ← select_ready (hub_ready timer h) h;
  match case with
  | CaseDone => Some (Done, h)
  | CaseRegister c => Some (Registered c (h_lastFrozen h) (h_lastScoreboard h), take_register c h)
  | CaseUnregister c => Some (Unregistered, take_unregister c h)
  | CaseIncoming =>
      match h_incoming h with
      | m :: ms => Some (Received m, take_incoming m ms h)
      | [] => None
      end
  | CaseTimer => Some (Fired, h)
  end).

(** The pending snapshot goes out; the time it was sent. *)
Definition flush (pending : option frame) (lastSend : option time) : P Hub (option time) :=
  match pending with
  | None => mret lastSend
  | Some msg => fanout msg true;; now ← atomic (gets h_now); mret (Some now)
  end.
(** The time since the last send; none was sent at the zero time. *)
Definition gap_passed (now : time) (lastSend : option time) : bool :=
  match lastSend with None => true | Some t => (broadcastMinGap <=? now - t)%Z end.

(** At most [n] turns of the endless loop.  [lastSend], [pending] and [timer] are its
    variables: the pending snapshot when there is one, the timer's deadline when it is set. *)
Fixpoint Run_loop (n : nat) (lastSend : option time) (pending : option frame) (timer : option time) : P Hub unit :=
  match n with
  | 0 => stuck
  | S n =>
      ev ← hub_select timer;
      match ev with
      | Done =>
          cs ← atomic (gets (λ h, elements (h_clients h)));
          for_each (λ c, atomic (modify (jot (Closed c "going away")))) cs
      | Registered c frozen board =>
          enqueue c (FrameHello frozen) false;;
          (match board with Some b => enqueue c b true | None => mret tt end);;
          Run_loop n lastSend pending timer
      | Unregistered => Run_loop n lastSend pending timer
      | Received m =>
          if ob_isScoreboard m then
            now ← atomic (gets h_now);
            if gap_passed now lastSend
            then sent ← flush (Some (ob_data m)) lastSend; Run_loop n sent None timer
            else Run_loop n lastSend (Some (ob_data m)) (Some (default now lastSend + broadcastMinGap)%Z)
          else
            sent ← flush pending lastSend;
            fanout (ob_data m) false;;
            Run_loop n sent None timer
      | Fired =>
          sent ← flush pending lastSend;
          Run_loop n sent None None
      end
  end.
Definition Run (n : nat) : P Hub unit :=
  defer (atomic (modify (set_done true))) (Run_loop n None None None).

(** ** A connection's handler ([handler.go]) *)

Definition alloc (key : string) : M Hub nat := λ h, (Ok (length (h_all h)), set_all (h_all h ++ [newClient key]) h).
Definition gone (c : nat) (h : Hub) : bool := match h_all h !! c with Some x => cl_gone x | None => true end.

(** [select { case ch <- c: case <-h.done: }] on an unbuffered channel: whether the hub took it. *)
Definition send_register (c : nat) : P Hub bool :=
  atomic (modify (λ h, set_register ({[c]} ∪ h_register h) h));;
  blocking (λ h,
    if decide (c ∈ h_register h)
    then if h_done h then Some (false, set_register (h_register h ∖ {[c]}) h) else None
    else Some (true, h)).
Definition send_unregister (c : nat) : P Hub unit :=
  atomic (modify (λ h, set_unregister ({[c]} ∪ h_unregister h) h));;
  blocking (λ h,
    if decide (c ∈ h_unregister h)
    then if h_done h then Some (tt, set_unregister (h_unregister h ∖ {[c]}) h) else None
    else Some (tt, h)).

(** The reads are ignored until one fails: the client left, or the connection was closed. *)
Definition readPump (c : nat) : P Hub unit := atomic (modify (client_alter (with_gone true) c)).

Definition drain (c : nat) : M Hub (list frame * bool) := λ h,
  match h_all h !! c with
  | Some x => (Ok (cl_queue x, cl_overflow x), jot (Drained c (if cl_overflow x then [] else cl_queue x)) (client_alter (with_queue [] false) c h))
  | None => (Ok ([], false), h)
  end.
(** Whether the write succeeded. *)
Definition writeFrame (c : nat) (msg : frame) : P Hub bool :=
  failed ← atomic fault;
  if failed : bool then mret false else
  atomic (modify (jot (Wrote c msg)));; mret true.
Fixpoint write_all (c : nat) (fs : list frame) : P Hub bool :=
  match fs with
  | [] => mret true
  | f :: fs => ok ← writeFrame c f; if ok : bool then write_all c fs else mret false
  end.

Inductive pump_event := PumpGone | PumpWake | PumpPing.
(** [select] of the write pump, the token taken; [next] is the ticker's next tick. *)
Definition pump_select (c : nat) (next : time) : P Hub pump_event := blocking (λ h,
  x ← h_all h !! c;
  '(ev, h) ← select_ready
    ((if cl_gone x then [PumpGone] else []) ++ (if cl_wake x then [PumpWake] else []) ++
     (if (next <=? h_now h)%Z then [PumpPing] else [])) h;
  match ev with
  | PumpWake => Some (ev, client_alter (with_wake false) c h)
  | _ => Some (ev, h)
  end).
(** A slow ticker drops ticks: the next one after now. *)
Definition next_tick (now next : time) : time := (next + pingInterval * ((now - next) / pingInterval + 1))%Z.

Fixpoint writePump_loop (n : nat) (c : nat) (key : string) (next : time) : P Hub unit :=
  match n with
  | 0 => stuck
  | S n =>
      ev ← pump_select c next;
      match ev with
      | PumpGone => mret tt
      | PumpWake =>
          d ← atomic (drain c);
          if d.2 : bool then
            atomic (modify (on_admit (forgiveHandshake key)));;
            atomic (modify (jot (Closed c "slow consumer")))
          else
            ok ← write_all c d.1;
            if ok : bool then writePump_loop n c key next else mret tt
      | PumpPing =>
          now ← atomic (gets h_now);
          failed ← atomic fault;
          g ← atomic (gets (gone c));
          if failed && negb g then mret tt else writePump_loop n c key (next_tick now next)
      end
  end.
Definition writePump (n : nat) (c : nat) (key : string) : P Hub unit :=
  now ← atomic (gets h_now);
  writePump_loop n c key (now + pingInterval)%Z.

(** A connection from its handshake to its end; [Accept] may fail.  The slot is released
    on every path out. *)
Definition serve (n : nat) (key : string) : P Hub unit :=
  failed ← atomic fault;
  if failed : bool then mret tt else
  c ← atomic (alloc key);
  registered ← send_register c;
  if negb registered then atomic (modify (jot (Closed c "server shutting down"))) else
  defer (atomic (modify (client_alter (with_gone true) c))) (
    go (readPump c);;
    writePump n c key;;
    send_unregister c;;
    atomic (modify (jot (Closed c "")))).
Definition Handler (n : nat) (key : string) : P Hub unit :=
  limit ← atomic (λ h, let '(r, a) := admissions_admit (h_now h) key (h_admit h) in (Ok r, set_admit a h));
  match limit with
  | Some l => atomic (modify (λ h, jot (Rejected l (retryAfterSeconds l (h_admit h))) h))
  | None => defer (atomic (modify (on_admit (release key)))) (serve n key)
  end.

(** ** What goes on around it: time passes, the server stops *)

Definition Tick (d : Z) : P Hub unit := atomic (modify (λ h, set_now (h_now h + Z.abs d)%Z h)).
Definition Shutdown : P Hub unit := atomic (modify (set_stop true)).
