(* ===== verification/HubRules.v ===== *)
(** * What the websocket hub guarantees

    Every client is shown the hub's stream in order: only a snapshot that another
    snapshot directly replaces may be missing, so a phase never overtakes a board nor is
    overtaken; connections never exceed the caps, every slot is returned, and the
    handshake rate holds in every window; under every interleaving. *)

From S2P Require Import Prelude Env Interleave Hub.

(** ** What may be shown of a stream *)

Definition snap (f : frame) : bool := match f with FrameScoreboard _ => true | _ => false end.

(** [feeds stream shown]: the stream in order, where a snapshot may be left out when
    another directly follows, and shown again while it is the latest. *)
Inductive feeds : list frame → list frame → Prop :=
  | feeds_nil : feeds [] []
  | feeds_keep f l l' : feeds l l' → feeds (f :: l) (f :: l')
  | feeds_skip a b l l' : snap a = true → snap b = true → feeds (b :: l) l' → feeds (a :: b :: l) l'
  | feeds_again a l l' : snap a = true → feeds (a :: l) l' → feeds (a :: l) (a :: l').

Lemma feeds_refl l : feeds l l.
Proof. induction l; by constructor. Qed.
Lemma feeds_app l1 l1' l2 l2' : feeds l1 l1' → feeds l2 l2' → feeds (l1 ++ l2) (l1' ++ l2').
Proof.
  induction 1; intros H2; simpl in *; [done|by apply feeds_keep, IHfeeds|by apply feeds_skip; auto|by apply feeds_again; auto].
Qed.
Lemma feeds_snoc l l' f : feeds l l' → feeds (l ++ [f]) (l' ++ [f]).
Proof. intros H. apply feeds_app; [done|apply feeds_refl]. Qed.
Lemma feeds_nil_l l : feeds [] l → l = [].
Proof. by inversion 1. Qed.
Lemma feeds_nil_r l : feeds l [] → l = [].
Proof.
  intros H. remember [] as e eqn:E in H. revert E. induction H as [| |? ? ? ? ? ? ? IH|]; intros E; try done. by specialize (IH E).
Qed.

(** What is shown can itself be thinned the same way. *)
Lemma feeds_thin l l1 l2 a b : feeds l (l1 ++ a :: b :: l2) → snap a = true → snap b = true → feeds l (l1 ++ b :: l2).
Proof.
  intros H Ha Hb. remember (l1 ++ a :: b :: l2) as s eqn:E. revert l1 E.
  induction H as [|f l l' H IH|x y l l' Hx Hy H IH|x l l' Hx H IH]; intros l1 E.
  - by destruct l1.
  - destruct l1 as [|? l1]; simplify_eq/=; [|by apply feeds_keep, IH].
    inversion H; subst; [by apply feeds_skip|by apply feeds_skip|by apply feeds_skip; [..|apply feeds_again]].
  - apply feeds_skip; auto.
  - destruct l1 as [|? l1]; simplify_eq/=; [done|]. apply feeds_again; auto.
Qed.

(** The newest snapshot takes the place of the one that has not been shown. *)
Lemma feeds_replace l l' a f : feeds l (l' ++ [a]) → snap a = true → snap f = true → feeds (l ++ [f]) (l' ++ [f]).
Proof.
  intros H Ha Hf. apply (feeds_thin _ l' [] a f); [|done..].
  replace (l' ++ [a; f]) with ((l' ++ [a]) ++ [f]) by by rewrite <- app_assoc. by apply feeds_snoc.
Qed.
Lemma feeds_repeat l l' a : feeds (l ++ [a]) (l' ++ [a]) → snap a = true → feeds (l ++ [a]) (l' ++ [a; a]).
Proof.
  intros H Ha. remember (l ++ [a]) as s eqn:Es. remember (l' ++ [a]) as s' eqn:Es'. revert l Es l' Es'.
  induction H as [|f s s' H IH|x y s s' Hx Hy H IH|x s s' Hx H IH]; intros l Es l' Es'.
  - by destruct l.
  - destruct l as [|? l], l' as [|? l']; simplify_eq/=.
    + apply feeds_again; [done|]. apply feeds_keep, feeds_nil.
    + by apply feeds_nil_l, eq_sym, app_cons_not_nil in H.
    + by apply feeds_nil_r, eq_sym, app_cons_not_nil in H.
    + apply feeds_keep. by eapply IH.
  - destruct l as [|? l]; simplify_eq/=. apply feeds_skip; [done..|]. by eapply IH.
  - destruct l' as [|? l']; simplify_eq/=.
    + apply feeds_again; [done|]. apply feeds_nil_r in H. by destruct l.
    + apply feeds_again; [done|]. by eapply IH.
Qed.

(** No hello and no phase is lost, or reordered. *)
Lemma feeds_phases l l' : feeds l l' → filter (λ f, snap f = false) l = filter (λ f, snap f = false) l'.
Proof.
  assert (∀ a s, snap a = true → filter (λ f, snap f = false) (a :: s) = filter (λ f, snap f = false) s) as Hcons.
  { intros a s Ha. rewrite filter_cons_False; [done|]. by rewrite Ha. }
  induction 1 as [|f l l' H IH|a b l l' Ha Hb H IH|a l l' Ha H IH]; [done| |by rewrite Hcons|by rewrite (Hcons _ l')].
  destruct (decide (snap f = false)); [rewrite !filter_cons_True by done; by f_equal|by rewrite !filter_cons_False].
Qed.
(** A phase is shown after the newest board that came before it. *)
Lemma feeds_split l l1 f l2 : feeds l (l1 ++ f :: l2) → snap f = false →
  ∃ s1 s2, l = s1 ++ f :: s2 ∧ feeds s1 l1 ∧ feeds s2 l2.
Proof.
  intros H Hf. remember (l1 ++ f :: l2) as s eqn:E. revert l1 E.
  induction H as [|g l l' H IH|x y l l' Hx Hy H IH|x l l' Hx H IH]; intros l1 E.
  - by destruct l1.
  - destruct l1 as [|g' l1]; injection E as -> ->; [exists [], l; split_and!; [done|constructor|done]|].
    destruct (IH l1 eq_refl) as (s1 & s2 & -> & H1 & H2). exists (g' :: s1), s2. split_and!; [done|by constructor|done].
  - destruct (IH l1 E) as (s1 & s2 & Es & H1 & H2). destruct s1 as [|y' s1]; injection Es as -> ->; [congruence|].
    exists (x :: y' :: s1), s2. split_and!; [done|by constructor|done].
  - destruct l1 as [|x' l1]; injection E as -> ->; [congruence|].
    destruct (IH l1 eq_refl) as (s1 & s2 & Es & H1 & H2). destruct s1 as [|y' s1]; injection Es as -> ->; [congruence|].
    exists (y' :: s1), s2. split_and!; [done|by constructor|done].
Qed.
Lemma feeds_last l l' a : feeds (l ++ [a]) l' → snap a = true → last l' = Some a.
Proof.
  intros H Ha. remember (l ++ [a]) as s eqn:E. revert l E.
  induction H as [|g s s' H IH|x y s s' Hx Hy H IH|x s s' Hx H IH]; intros l E.
  - by destruct l.
  - destruct l as [|? l]; simplify_eq/=; [by apply feeds_nil_l in H as ->|].
    specialize (IH l eq_refl). destruct s'; [done|]. by rewrite last_cons_cons.
  - destruct l as [|? l]; simplify_eq/=. by apply (IH l).
  - specialize (IH l E). destruct s'; [done|]. by rewrite last_cons_cons.
Qed.

(** ** Reading the log *)

Definition fed (c : nat) (st : bool * list frame) (n : note) : bool * list frame :=
  match n with
  | Greeted c' hello board => if decide (c' = c) then (true, hello :: option_list board) else st
  | Took f => if st.1 then (true, st.2 ++ [f]) else st
  | _ => st
  end.
(** The hub's stream for a client: its greeting, then every message the hub takes. *)
Definition fed_of (c : nat) (l : list note) : bool * list frame := foldl (fed c) (false, []) l.
Definition joined (c : nat) (l : list note) : bool := (fed_of c l).1.
Definition stream (c : nat) (l : list note) : list frame := (fed_of c l).2.
Definition drained (c : nat) (l : list note) : list frame :=
  l ≫= (λ n, match n with Drained c' fs => if decide (c' = c) then fs else [] | _ => [] end).
Definition wrote (c : nat) (l : list note) : list frame :=
  l ≫= (λ n, match n with Wrote c' f => if decide (c' = c) then [f] else [] | _ => [] end).

Lemma fed_of_snoc c l n : fed_of c (l ++ [n]) = fed c (fed_of c l) n.
Proof. unfold fed_of. by rewrite foldl_app. Qed.
Lemma drained_snoc c l n : drained c (l ++ [n]) =
  drained c l ++ match n with Drained c' fs => if decide (c' = c) then fs else [] | _ => [] end.
Proof. unfold drained. rewrite bind_app. simpl. by rewrite app_nil_r. Qed.
Lemma wrote_snoc c l n : wrote c (l ++ [n]) =
  wrote c l ++ match n with Wrote c' f => if decide (c' = c) then [f] else [] | _ => [] end.
Proof. unfold wrote. rewrite bind_app. simpl. by rewrite app_nil_r. Qed.

(** ** Where a thread is *)

(** The hub: the snapshot it holds back, what it has taken and not yet offered to each
    client, and its clients.  A handler: whether its client has yet to be offered to the
    hub, and the frames it has drained and not written. *)
Inductive role :=
  | Idle
  | AtHub (pending : option frame) (owed : nat → list frame) (clients : gset nat)
  | AtClient (c : nat) (fresh : bool) (hand : list frame).
Definition hub_of (g : role) : option (option frame * (nat → list frame) * gset nat) :=
  match g with AtHub p o cl => Some (p, o, cl) | _ => None end.
Definition client_of (g : role) : option nat := match g with AtClient c _ _ => Some c | _ => None end.

Record client_ok (o : nat → list frame) (h : Hub) (c : nat) (x : client) : Prop := {
  co_register : c ∈ h_register h → joined c (h_log h) = false;
  co_clients : c ∈ h_clients h → joined c (h_log h) = true;
  co_new : joined c (h_log h) = false → cl_queue x = [] ∧ drained c (h_log h) = [] ∧ stream c (h_log h) = [];
  co_tail : cl_tailSnap x = true → ∀ q t, cl_queue x = q ++ [t] → snap t = true;
  co_cap : length (cl_queue x) ≤ clientQueueCap;
  co_wrote : wrote c (h_log h) `prefix_of` drained c (h_log h);
  co_feeds : ∃ rest, feeds (stream c (h_log h)) (drained c (h_log h) ++ rest) ∧
    (cl_overflow x = false → ∃ r, rest = cl_queue x ++ r ∧ (c ∈ h_clients h → r = o c))
}.
Definition handler_ok (h : Hub) (g : role) : Prop :=
  match g with
  | AtClient c fresh fs => c < length (h_all h) ∧ drained c (h_log h) = wrote c (h_log h) ++ fs ∧
      (fresh = true → joined c (h_log h) = false ∧ (c ∉ h_register h))
  | _ => True
  end.
Record hub_ok (h : Hub) (p : option frame) (o : nat → list frame) (cl : gset nat) : Prop := {
  ho_clients : cl = h_clients h;
  ho_pending : ∀ f, p = Some f → snap f = true ∧ h_lastScoreboard h = Some f;
  ho_owed : ∀ c, c ∈ cl → length (o c) ≤ 3;
  ho_all : ∀ c x, h_all h !! c = Some x → client_ok o h c x
}.
Record hub_inv (gs : list role) (h : Hub) : Prop := {
  hi_hub : ∃ p o cl, omap hub_of gs = [(p, o, cl)] ∧ hub_ok h p o cl;
  hi_owned : NoDup (omap client_of gs);
  hi_handlers : Forall (handler_ok h) gs;
  hi_fresh : ∀ c, length (h_all h) ≤ c → fed_of c (h_log h) = (false, []) ∧ drained c (h_log h) = [] ∧ wrote c (h_log h) = [] ∧
    (c ∉ h_register h) ∧ (c ∉ h_clients h);
  hi_incoming : Forall (λ m, ob_isScoreboard m = snap (ob_data m)) (h_incoming h);
  hi_last : ∀ f, h_lastScoreboard h = Some f → snap f = true
}.

Lemma hub_inv_perm gs gs' h : gs ≡ₚ gs' → hub_inv gs h → hub_inv gs' h.
Proof.
  intros Hp [(p & o & cl & Hh & Hok) Ho Hf Hfr Hi Hl]. split; [|by rewrite <- Hp|by rewrite <- Hp|done..].
  exists p, o, cl. split; [|done]. symmetry. apply Permutation_singleton_l. by rewrite <- Hh, Hp.
Qed.
Lemma hub_inv_idle g gs h : hub_inv (g :: gs) h → hub_inv (g :: Idle :: gs) h.
Proof. intros [Hh Ho Hf Hfr Hi Hl]. split; [exact Hh|exact Ho| |done..]. inv Hf. by repeat constructor. Qed.

(** ** Steps that frames do not notice *)

Definition same_frames (x y : client) : Prop :=
  cl_queue x = cl_queue y ∧ cl_tailSnap x = cl_tailSnap y ∧ cl_overflow x = cl_overflow y.
Record quiet (h h' : Hub) : Prop := {
  qu_all : ∀ c y, h_all h' !! c = Some y → ∃ x, h_all h !! c = Some x ∧ same_frames x y;
  qu_length : length (h_all h') = length (h_all h);
  qu_clients : h_clients h' = h_clients h;
  qu_register : h_register h' ⊆ h_register h;
  qu_incoming : Forall (λ m, ob_isScoreboard m = snap (ob_data m)) (h_incoming h) → Forall (λ m, ob_isScoreboard m = snap (ob_data m)) (h_incoming h');
  qu_last : h_lastScoreboard h' = h_lastScoreboard h;
  qu_fed : ∀ c, fed_of c (h_log h') = fed_of c (h_log h);
  qu_drained : ∀ c, drained c (h_log h') = drained c (h_log h);
  qu_wrote : ∀ c, wrote c (h_log h') = wrote c (h_log h)
}.
Lemma quiet_client o h h' c x y : quiet h h' → same_frames x y → client_ok o h c x → client_ok o h' c y.
Proof.
  intros Hq (E1 & E2 & E3) Hc. destruct Hc. unfold joined, stream in *.
  split; unfold joined, stream; rewrite ?(qu_fed _ _ Hq), ?(qu_drained _ _ Hq), ?(qu_wrote _ _ Hq), ?(qu_clients _ _ Hq), <- ?E1, <- ?E2, <- ?E3; auto.
  intros Hr. by apply co_register0, (qu_register _ _ Hq).
Qed.
Lemma silent_inv gs h h' : quiet h h' → hub_inv gs h → hub_inv gs h'.
Proof.
  intros Hq [(p & o & cl & Hh & [H1 H2 H3 H4]) Ho Hf Hfr Hi Hl]. split.
  - exists p, o, cl. split; [done|]. split; [by rewrite (qu_clients _ _ Hq)|by rewrite (qu_last _ _ Hq)|done|].
    intros c y (x & Hx & Hs)%(qu_all _ _ Hq). eapply quiet_client; eauto.
  - done.
  - eapply Forall_impl; [exact Hf|]. intros [| |c fresh fs]; [done..|]. intros (Hlt & Hd & Hr). unfold handler_ok, joined in *.
    rewrite (qu_length _ _ Hq), (qu_fed _ _ Hq), (qu_drained _ _ Hq), (qu_wrote _ _ Hq). split_and!; [done..|].
    intros Efr. destruct (Hr Efr) as [Hj Hr']. split; [done|]. intros Hc. by apply Hr', (qu_register _ _ Hq).
  - intros c Hc. rewrite (qu_length _ _ Hq) in Hc. destruct (Hfr c Hc) as (F1 & F2 & F3 & F4 & F5).
    rewrite (qu_fed _ _ Hq), (qu_drained _ _ Hq), (qu_wrote _ _ Hq), (qu_clients _ _ Hq). split_and!; [done..| |done].
    intros Hr. by apply F4, (qu_register _ _ Hq).
  - by apply (qu_incoming _ _ Hq).
  - by rewrite (qu_last _ _ Hq).
Qed.

Lemma same_frames_refl x : same_frames x x.
Proof. by split_and!. Qed.
#[local] Hint Resolve same_frames_refl : core.
Lemma quiet_trans h1 h2 h3 : quiet h1 h2 → quiet h2 h3 → quiet h1 h3.
Proof.
  intros [A1 A2 A3 A4 A5 A6 A7 A8 A9] [B1 B2 B3 B4 B5 B6 B7 B8 B9].
  split; [|congruence|congruence|set_solver|auto|congruence|intros c; congruence..].
  intros c z (y & Hy & E1 & E2 & E3)%B1. destruct (A1 c y Hy) as (x & Hx & F1 & F2 & F3).
  exists x. split; [done|]. unfold same_frames. split_and!; congruence.
Qed.
(** Only the fields that frames do not depend on differ. *)
Lemma quiet_fields h h' : h_all h' = h_all h → h_clients h' = h_clients h → h_register h' ⊆ h_register h →
  h_incoming h' = h_incoming h → h_lastScoreboard h' = h_lastScoreboard h → h_log h' = h_log h → quiet h h'.
Proof. intros E1 E2 E3 E4 E5 E6. split; rewrite ?E1, ?E2, ?E4, ?E5, ?E6; eauto. Qed.
Definition silent (n : note) : bool :=
  match n with Took _ | Greeted _ _ _ | Drained _ _ | Wrote _ _ => false | _ => true end.
Lemma quiet_jot n h : silent n = true → quiet h (jot n h).
Proof.
  intros Hn. split; simpl; eauto; intros c; rewrite ?fed_of_snoc, ?drained_snoc, ?wrote_snoc;
    destruct n; simplify_eq/=; by rewrite ?app_nil_r.
Qed.
Lemma quiet_alter f c h : (∀ x, same_frames x (f x)) → quiet h (client_alter f c h).
Proof.
  intros Hf. split; simpl; eauto; [|by rewrite length_alter].
  intros c' y Hy. destruct (decide (c = c')) as [->|Hne].
  - rewrite list_lookup_alter_eq in Hy. apply fmap_Some in Hy as (x & Hx & ->). eauto.
  - rewrite list_lookup_alter_ne in Hy by done. eauto.
Qed.
Lemma quiet_offer kind m h : ob_isScoreboard m = snap (ob_data m) → quiet h (offer kind m h).2.
Proof.
  intros Hm. unfold offer, modify. simpl. destruct (_ <? _)%nat; [|by apply quiet_jot].
  split; simpl; eauto. intros H. apply Forall_app. by repeat constructor.
Qed.
Lemma quiet_choices ns h : quiet h (set_choices ns h).
Proof. by apply quiet_fields. Qed.
#[local] Hint Resolve quiet_choices : core.
Lemma quiet_refl h : quiet h h.
Proof. by apply quiet_fields. Qed.
Lemma silent_fault h : quiet h (fault h).2.
Proof. unfold fault. destruct (h_faults h); by apply quiet_fields. Qed.

Abbreviation hk := (holds (λ _ : role, True) hub_inv (λ _ _, True)).

Lemma hk_quiet {A} (m : M Hub A) (Q : res A → role → Prop) g :
  (∀ h, quiet h (m h).2) → (∀ h, Q (m h).1 g) → hk (atomic m) Q g.
Proof. intros Hq HQ. apply holds_atomic. intros gs h HI. exists g. split_and!; [by eapply silent_inv|done|done]. Qed.
Lemma hk_modify f (Q : res unit → role → Prop) g : (∀ h, quiet h (f h)) → Q (Ok tt) g → hk (atomic (modify f)) Q g.
Proof. intros Hf HQ. by apply hk_quiet. Qed.
Lemma hk_gets {A} (f : Hub → A) (Q : res A → role → Prop) g : (∀ a, Q (Ok a) g) → hk (atomic (gets f)) Q g.
Proof. intros HQ. apply hk_quiet; [intros h; apply quiet_refl|intros h; apply HQ]. Qed.
Lemma hk_quiet_blocking {A} (f : Hub → option (A * Hub)) (Q : res A → role → Prop) g :
  (∀ h a h', f h = Some (a, h') → quiet h h') → (∀ a, Q (Ok a) g) → hk (blocking f) Q g.
Proof.
  intros Hq HQ. apply holds_blocking. intros gs h a h' HI E. exists g. split_and!; [|done|apply HQ].
  eapply silent_inv; [by eapply Hq|done].
Qed.
Lemma hk_stuck {A} (Q : res A → role → Prop) g : hk (stuck : P Hub A) Q g.
Proof. apply holds_blocking. done. Qed.

Lemma omap_hub p o cl gs : omap hub_of gs = [] → omap hub_of (AtHub p o cl :: gs) = [(p, o, cl)].
Proof. intros E. change (omap hub_of (AtHub p o cl :: gs)) with ((p, o, cl) :: omap hub_of gs). by rewrite E. Qed.

(** ** The hub's steps *)

Section TheHub.
Context (gs : list role) (h : Hub) (p : option frame) (o : nat → list frame) (cl : gset nat).
Hypothesis HI : hub_inv (AtHub p o cl :: gs) h.

Lemma hub_alone : omap hub_of gs = [] ∧ hub_ok h p o cl.
Proof. destruct (hi_hub _ _ HI) as (p' & o' & cl' & Hh & Hok). simpl in Hh. by simplify_eq. Qed.

(** A change of the hub's own variables, when nothing is owed beyond them. *)
Lemma hub_variables p' o' :
  (∀ f, p' = Some f → snap f = true ∧ h_lastScoreboard h = Some f) →
  (∀ c, c ∈ cl → o' c = o c) → hub_inv (AtHub p' o' cl :: gs) h.
Proof.
  intros Hp' Ho'. destruct hub_alone as [Hg [H1 H2 H3 H4]]. destruct HI as [_ Ho Hf Hfr Hi Hl].
  split; [|exact Ho|by inv Hf; constructor|done..].
  exists p', o', cl. split; [by apply omap_hub|]. split; [done|done|by intros c Hc; rewrite Ho'; auto|].
  intros c x Hx. destruct (H4 c x Hx) as [C1 C2 C3 C4 C5 C6 (rest & C7 & C8)]. split; [done..|].
  exists rest. split; [done|]. intros Hov. destruct (C8 Hov) as (r & -> & Hr). exists r. split; [done|].
  intros Hc. rewrite Ho' by (by rewrite H1). auto.
Qed.

(** The locked part of [enqueue]: the frame moves from what is owed to the queue. *)
Lemma hub_push c f r : c ∈ cl → o c = f :: r →
  hub_inv (AtHub p (λ c', if decide (c' = c) then r else o c') cl :: gs) (client_alter (push f (snap f)) c h).
Proof.
  intros Hc Eo. destruct hub_alone as [Hg [H1 H2 H3 H4]]. destruct HI as [_ Ho Hf Hfr Hi Hl].
  split; [|exact Ho| |simpl; by rewrite length_alter|done..].
  - exists p, (λ c', if decide (c' = c) then r else o c'), cl. split; [by apply omap_hub|]. split; [done|done| |].
    + intros c' Hc'. specialize (H3 c' Hc'). case_decide; [|done]. subst. rewrite Eo in H3. simpl in H3. lia.
    + intros c' y Hy. simpl in Hy. destruct (decide (c' = c)) as [->|Hne].
      2:{ rewrite list_lookup_alter_ne in Hy by done. destruct (H4 c' y Hy) as [C1 C2 C3 C4 C5 C6 (rest & C7 & C8)].
          split; [done..|]. exists rest. split; [done|]. intros Hov. destruct (C8 Hov) as (r' & -> & Hr).
          exists r'. split; [done|]. intros. rewrite decide_False by done. auto. }
      rewrite list_lookup_alter_eq in Hy. apply fmap_Some in Hy as (x & Hx & ->).
      destruct (H4 c x Hx) as [C1 C2 C3 C4 C5 C6 (rest & C7 & C8)]. rewrite H1 in Hc. specialize (C2 Hc).
      unfold push. destruct (snap f && cl_tailSnap x && _) eqn:Eb.
      * apply andb_prop in Eb as [[Ef Et]%andb_prop Hne]. apply negb_true_iff, bool_decide_eq_false in Hne.
        destruct (exists_last Hne) as (q & t & Eq). rewrite Eq, removelast_last in *.
        split; cbn [with_queue cl_queue cl_tailSnap cl_overflow]; auto.
        -- intros E. change (joined c (h_log h) = false) in E. congruence.
        -- intros _ q' t' [-> ->]%app_inj_tail. done.
        -- rewrite length_app in *. simpl in *. lia.
        -- destruct (cl_overflow x) eqn:Eov.
           ++ exists rest. split; [done|]. done.
           ++ destruct (C8 eq_refl) as (r' & -> & Hr). specialize (Hr Hc). subst r'. rewrite Eo in C7.
              exists ((q ++ [f]) ++ r). split.
              ** rewrite <- app_assoc in C7 |- *. rewrite (app_assoc _ q) in C7 |- *. simpl in C7 |- *.
                 eapply feeds_thin; [exact C7|by eapply C4|done].
              ** intros _. exists r. split; [done|]. by rewrite decide_True.
      * destruct (_ <=? _)%nat eqn:El.
        -- split; cbn [with_overflow cl_queue cl_tailSnap cl_overflow]; auto. exists rest. split; [done|]. done.
        -- apply Nat.leb_gt in El. split; cbn [with_queue cl_queue cl_tailSnap cl_overflow]; auto.
           ++ intros E. change (joined c (h_log h) = false) in E. congruence.
           ++ intros Ef q t [_ <-]%app_inj_tail. done.
           ++ rewrite length_app. simpl. lia.
           ++ exists rest. split; [done|]. intros Hov. destruct (C8 Hov) as (r' & -> & Hr). specialize (Hr Hc). subst r'.
              exists r. split; [by rewrite Eo, <- app_assoc|]. by rewrite decide_True.
  - inv Hf. constructor; [done|]. eapply Forall_impl; [done|]. intros [| |c' fresh fs]; [done..|].
    intros (Hlt & Hd & Hr). split_and!; [simpl; by rewrite length_alter|done..].
Qed.

(** A note that adds nothing to what was drained or written. *)
Lemma handlers_note n h' : (∀ c, drained c (h_log h ++ [n]) = drained c (h_log h)) → (∀ c, wrote c (h_log h ++ [n]) = wrote c (h_log h)) →
  h_all h' = h_all h → h_register h' ⊆ h_register h → h_log h' = h_log h ++ [n] →
  (∀ c, joined c (h_log h) = false → c ∉ h_register h → joined c (h_log h ++ [n]) = false) →
  Forall (handler_ok h) gs → Forall (handler_ok h') gs.
Proof.
  intros Hd Hw Ea Er El Hj Hf. eapply Forall_impl; [exact Hf|]. intros [| |c fresh fs]; [done..|]. intros (Hlt & E & Hr). simpl.
  rewrite Ea, El, Hd, Hw. split_and!; [done..|]. intros Ef. destruct (Hr Ef). split; [auto|set_solver].
Qed.

(** Receiving a message: it is owed to every client, and the hub's own pending
    snapshot is what a new snapshot replaces. *)
Definition owed_of (p' : option frame) (m : outbound) : list frame :=
  if ob_isScoreboard m then [ob_data m] else option_list p' ++ [ob_data m].
Lemma hub_take m ms : h_incoming h = m :: ms → (∀ c, c ∈ cl → o c = option_list p) →
  hub_inv (AtHub (if ob_isScoreboard m then Some (ob_data m) else p) (λ _, owed_of p m) cl :: gs)
    (take_incoming m ms h).
Proof.
  intros Em Eo. destruct hub_alone as [Hg [H1 H2 H3 H4]]. destruct HI as [_ Ho Hf Hfr Hi Hl].
  rewrite Em in Hi. apply Forall_cons in Hi as [Hm Hms].
  assert (h_log (take_incoming m ms h) = h_log h ++ [Took (ob_data m)]) as EL
    by (unfold take_incoming, remember; by destruct (ob_isScoreboard m)).
  assert (h_all (take_incoming m ms h) = h_all h) as EA
    by (unfold take_incoming, remember; by destruct (ob_isScoreboard m)).
  assert (h_register (take_incoming m ms h) = h_register h) as ER
    by (unfold take_incoming, remember; by destruct (ob_isScoreboard m)).
  assert (h_clients (take_incoming m ms h) = h_clients h) as EC
    by (unfold take_incoming, remember; by destruct (ob_isScoreboard m)).
  assert (∀ c, joined c (h_log h ++ [Took (ob_data m)]) = joined c (h_log h)) as Ej.
  { intros c. unfold joined. rewrite fed_of_snoc. simpl. destruct (fed_of c (h_log h)) as [[] l]; done. }
  split; [|exact Ho| | | |].
  - eexists _, _, cl. split; [by apply omap_hub|]. split; [by rewrite EC| | |].
    + unfold take_incoming, remember. intros f. destruct (ob_isScoreboard m) eqn:Eb; simpl; [|apply H2].
      intros [= <-]. by rewrite <- Hm.
    + intros c _. unfold owed_of. destruct (ob_isScoreboard m), p; simpl; lia.
    + intros c x Hx. rewrite EA in Hx. destruct (H4 c x Hx) as [C1 C2 C3 C4 C5 C6 (rest & C7 & C8)].
      split; rewrite ?ER, ?EC, ?EL, ?Ej, ?drained_snoc, ?wrote_snoc, ?app_nil_r; auto.
      { intros E. destruct (C3 E) as (? & ? & ?). split_and!; [done..|]. unfold stream in *. rewrite fed_of_snoc. simpl.
        unfold joined in E. by rewrite E. }
      unfold stream. rewrite fed_of_snoc. simpl. fold (joined c (h_log h)). fold (stream c (h_log h)).
      destruct (joined c (h_log h)) eqn:Ejc; simpl.
      2:{ exists rest. split; [done|]. intros Hov. destruct (C8 Hov) as (r & -> & Hr). exists r. split; [done|].
          intros Hc. by apply C2 in Hc. }
      destruct (cl_overflow x) eqn:Eov.
      { exists (rest ++ [ob_data m]). rewrite app_assoc. split; [by apply feeds_snoc|done]. }
      destruct (C8 eq_refl) as (r & -> & Hr). destruct (decide (c ∈ h_clients h)) as [Hc|Hc].
      2:{ exists ((cl_queue x ++ r) ++ [ob_data m]). rewrite app_assoc. split; [by apply feeds_snoc|].
          intros _. exists (r ++ [ob_data m]). by rewrite <- !app_assoc. }
      specialize (Hr Hc). rewrite Eo in Hr by (by rewrite H1). subst r.
      exists (cl_queue x ++ owed_of p m). split; [|by eexists].
      unfold owed_of. destruct (ob_isScoreboard m) eqn:Eb; [destruct p as [f0|]|]; simpl in C7 |- *.
      * destruct (H2 f0 eq_refl) as [Hf0 _]. rewrite app_assoc in C7 |- *. by eapply feeds_replace; [..|by rewrite <- Hm].
      * rewrite app_nil_r in C7. rewrite app_assoc. by apply feeds_snoc.
      * rewrite !app_assoc in *. by apply feeds_snoc.
  - apply Forall_cons in Hf as [_ Hgs]. constructor; [done|].
    apply (handlers_note (Took (ob_data m))); [..|done]; try done; intros c; rewrite ?drained_snoc, ?wrote_snoc, ?app_nil_r, ?Ej; auto.
    by rewrite ER.
  - intros c Hc. rewrite EA in Hc. destruct (Hfr c Hc) as (F1 & F2 & F3 & F4).
    rewrite EL, ER, EC, fed_of_snoc, drained_snoc, wrote_snoc, F1, F2, F3. done.
  - unfold take_incoming, remember. by destruct (ob_isScoreboard m).
  - unfold take_incoming, remember. destruct (ob_isScoreboard m) eqn:Eb; simpl; [|done]. intros f [= <-]. by rewrite <- Hm.
Qed.

(** Registering: the client is owed its greeting. *)
Lemma hub_greet c : c ∈ h_register h → (∀ c, c ∈ cl → o c = option_list p) →
  hub_inv (AtHub p (λ c', if decide (c' = c) then FrameHello (h_lastFrozen h) :: option_list (h_lastScoreboard h) ++ option_list p else o c')
    ({[c]} ∪ cl) :: gs) (take_register c h).
Proof.
  intros Hreg Eo. destruct hub_alone as [Hg [H1 H2 H3 H4]]. destruct HI as [_ Ho Hf Hfr Hi Hl].
  assert (c < length (h_all h)) as Hlt.
  { destruct (decide (c < length (h_all h))) as [|Hge]; [done|]. destruct (Hfr c) as (_ & _ & _ & [] & _); [lia|done]. }
  assert (joined c (h_log h) = false) as Hj.
  { destruct (lookup_lt_is_Some_2 _ _ Hlt) as [x Hx]. by apply (co_register _ _ _ _ (H4 c x Hx)). }
  set (hello := FrameHello (h_lastFrozen h)) in *. set (board := h_lastScoreboard h) in *.
  set (h1 := jot (Greeted c hello board) (set_clients ({[c]} ∪ h_clients h) (set_register (h_register h ∖ {[c]}) h))).
  assert (∀ g, hub_inv g h1 → hub_inv g (take_register c h)) as Hconns.
  { intros g. apply silent_inv. by apply quiet_jot. }
  apply Hconns. clear Hconns.
  assert (∀ c', c' ≠ c → fed_of c' (h_log h1) = fed_of c' (h_log h)) as Ene.
  { intros c' Hne. unfold h1. simpl. rewrite fed_of_snoc. simpl. by rewrite decide_False by congruence. }
  assert (fed_of c (h_log h1) = (true, hello :: option_list board)) as Ec.
  { unfold h1. simpl. rewrite fed_of_snoc. simpl. by rewrite decide_True. }
  assert (∀ c', drained c' (h_log h1) = drained c' (h_log h) ∧ wrote c' (h_log h1) = wrote c' (h_log h)) as Edw.
  { intros c'. unfold h1. simpl. by rewrite drained_snoc, wrote_snoc, !app_nil_r. }
  split; [|exact Ho| | |done|done].
  - eexists _, _, _. split; [by apply omap_hub|]. split; [simpl; by rewrite H1|done| |].
    + intros c' Hc'. case_decide; [|set_solver]. simpl. destruct board, p; simpl; lia.
    + intros c' x Hx. change (h_all h1) with (h_all h) in Hx.
      destruct (H4 c' x Hx) as [C1 C2 C3 C4 C5 C6 (rest & C7 & C8)]. destruct (Edw c') as [Ed Ew].
      destruct (decide (c' = c)) as [->|Hne].
      * destruct (C3 Hj) as (Eq & Edr & Est).
        split; unfold joined, stream; rewrite ?Ec, ?Ed, ?Ew; simpl; auto; [set_solver|done|].
        exists (hello :: option_list board ++ option_list p). rewrite Edr, Eq. simpl. split.
        -- apply feeds_keep. destruct p as [f|]; simpl; [|rewrite app_nil_r; apply feeds_refl].
           destruct (H2 f eq_refl) as [Hf1 Hf2]. assert (board = Some f) as -> by exact Hf2. simpl.
           by apply feeds_again, feeds_keep, feeds_nil.
        -- intros _. eexists. split; [done|]. intros _. by rewrite decide_True.
      * split; unfold joined, stream; rewrite ?Ene, ?Ed, ?Ew by done; simpl; auto.
        { set_solver. } { set_solver. }
        exists rest. split; [done|]. intros Hov. destruct (C8 Hov) as (r & -> & Hr). exists r. split; [done|].
        rewrite decide_False by done. set_solver.
  - apply Forall_cons in Hf as [_ Hgs]. constructor; [done|]. rewrite Forall_forall in *. intros [| |c' fresh fs] Hin; [done..|].
    destruct (Hgs _ Hin) as (Hlt' & Hd & Hr). destruct (Edw c') as [Ed Ew]. simpl. unfold h1 in Ed, Ew. simpl in Ed, Ew.
    rewrite Ed, Ew. split_and!; [done..|]. intros ->. destruct (Hr eq_refl) as [Hj' Hr']. split; [|set_solver].
    assert (c' ≠ c) as Hne by (by intros ->). unfold joined in *.
    specialize (Ene c' Hne). unfold h1 in Ene. simpl in Ene. by rewrite Ene.
  - intros c' Hc'. change (h_all h1) with (h_all h) in Hc'. destruct (Hfr c' Hc') as (F1 & F2 & F3 & F4).
    destruct (Edw c') as [-> ->]. rewrite Ene by lia. split_and!; [done..| |]; simpl; [set_solver|]. intros [->%elem_of_singleton|]%elem_of_union; [lia|tauto].
Qed.

Lemma hub_leave c : hub_inv (AtHub p o (cl ∖ {[c]}) :: gs) (take_unregister c h).
Proof.
  destruct hub_alone as [Hg [H1 H2 H3 H4]]. destruct HI as [_ Ho Hf Hfr Hi Hl].
  set (h0 := set_unregister (h_unregister h ∖ {[c]}) h).
  assert (hub_inv (AtHub p o (cl ∖ {[c]}) :: gs) (set_clients (h_clients h0 ∖ {[c]}) h0)) as Hin.
  { split; [|exact Ho|by apply Forall_cons in Hf as [_ Hf]; constructor| |done..].
    2:{ intros c' Hc'. destruct (Hfr c' Hc') as (F1 & F2 & F3 & F4 & F5). split_and!; [done..|]. simpl. set_solver. }
    exists p, o, (cl ∖ {[c]}). split; [by apply omap_hub|]. split; [simpl; by rewrite H1|done|set_solver|].
    intros c' x Hx. destruct (H4 c' x Hx) as [C1 C2 C3 C4 C5 C6 (rest & C7 & C8)].
    split; simpl; auto; [set_solver|]. exists rest. split; [done|]. intros Hov.
    destruct (C8 Hov) as (r & -> & Hr). exists r. split; [done|]. set_solver. }
  unfold take_unregister. fold h0. case_decide as Hc; [by eapply silent_inv, Hin; apply quiet_jot|].
  eapply silent_inv, Hin. apply quiet_fields; try done. simpl. simpl in Hc. set_solver.
Qed.
End TheHub.

(** ** The hub's programs *)

Definition upd (o : nat → list frame) (c : nat) (r : list frame) : nat → list frame :=
  λ c', if decide (c' = c) then r else o c'.
Lemma upd_eq o c r : upd o c r c = r.
Proof. unfold upd. by rewrite decide_True. Qed.
Lemma upd_ne o c c' r : c' ≠ c → upd o c r c' = o c'.
Proof. intros. unfold upd. by rewrite decide_False. Qed.

Lemma hk_enqueue c f b p o r cl (Q : res unit → role → Prop) :
  snap f = b → c ∈ cl → o c = f :: r → Q (Ok tt) (AtHub p (upd o c r) cl) → hk (enqueue c f b) Q (AtHub p o cl).
Proof.
  intros <- Hc Eo HQ. apply holds_bind, holds_atomic. intros gs h HI.
  exists (AtHub p (upd o c r) cl). split_and!; [by apply hub_push|done|].
  by apply hk_modify; [intros h'; apply quiet_alter|].
Qed.

Lemma hk_offer_all f b p cl (Q : res unit → role → Prop) : snap f = b → ∀ cs o o',
  NoDup cs → (∀ c, c ∈ cs → c ∈ cl ∧ o c = f :: o' c) → (∀ c, c ∉ cs → c ∈ cl → o c = o' c) →
  (∀ o1, (∀ c, c ∈ cl → o1 c = o' c) → Q (Ok tt) (AtHub p o1 cl)) →
  hk (for_each (λ c, enqueue c f b) cs) Q (AtHub p o cl).
Proof.
  intros Hb cs. induction cs as [|c cs IH]; intros o o' Hnd Hin Hout HQ.
  - apply (HQ o). intros c Hc. by apply Hout, Hc; apply not_elem_of_nil.
  - apply NoDup_cons in Hnd as [Hnc Hnd]. destruct (Hin c ltac:(left)) as [Hc Eo].
    apply holds_bind, (hk_enqueue c f b p o (o' c) cl); [done..|]. apply (IH _ o'); [done| | |done].
    + intros c' Hc'. rewrite upd_ne by (by intros ->). apply Hin. by right.
    + intros c' Hc' Hcl. destruct (decide (c' = c)) as [->|Hne]; [by rewrite upd_eq|].
      rewrite upd_ne by done. apply Hout; [|done]. by intros [->|]%elem_of_cons.
Qed.

(** A frame owed to all, then [o'], is offered to all. *)
Lemma hk_fanout f b p o o' cl (Q : res unit → role → Prop) :
  snap f = b → (∀ c, c ∈ cl → o c = f :: o' c) →
  (∀ o1, (∀ c, c ∈ cl → o1 c = o' c) → Q (Ok tt) (AtHub p o1 cl)) → hk (fanout f b) Q (AtHub p o cl).
Proof.
  intros Hb Ho HQ. apply holds_bind, holds_atomic. intros gs h HI. exists (AtHub p o cl). split_and!; [done..|].
  destruct (hub_alone _ _ _ _ _ HI) as [_ [-> _ _ _]]. cbn [fst gets].
  apply (hk_offer_all f b p _ Q Hb _ o o'); [apply NoDup_elements|..|done].
  - intros c Hc%elem_of_elements. auto.
  - intros c Hc Hc'. by rewrite elem_of_elements in Hc.
Qed.

(** The pending snapshot, owed to all, goes out, and no snapshot is pending. *)
Lemma hk_flush p o o' cl lastSend (Q : res (option time) → role → Prop) :
  (∀ f, p = Some f → snap f = true) → (∀ c, c ∈ cl → o c = option_list p ++ o' c) →
  (∀ t o1, (∀ c, c ∈ cl → o1 c = o' c) → Q (Ok t) (AtHub None o1 cl)) → hk (flush p lastSend) Q (AtHub p o cl).
Proof.
  intros Hp Ho HQ. destruct p as [f|]; [|by apply HQ]. unfold flush. apply holds_bind.
  apply (hk_fanout f true _ o o'); [by apply Hp|done|]. intros o1 Ho1. apply holds_bind, holds_atomic. intros gs h HI.
  exists (AtHub None o1 cl). split_and!; [by refine (hub_variables _ _ _ _ _ HI None o1 _ _)|done|by apply HQ].
Qed.

Lemma select_ready_spec {A} (l : list A) h x h' : select_ready l h = Some (x, h') → x ∈ l ∧ ∃ ns, h' = set_choices ns h.
Proof.
  unfold select_ready. destruct l as [|y l]; [done|]. destruct (h_choices h) as [|n ns] eqn:En.
  - intros [= <- <-]. split; [left|]. exists []. rewrite <- En. by destruct h.
  - destruct (_ !! _) as [z|] eqn:Ez; [|done]. intros [= <- <-]. split; [by eapply list_elem_of_lookup_2|by eexists].
Qed.

Lemma hk_run_loop n lastSend p timer o cl :
  (∀ f, p = Some f → snap f = true) → (∀ c, c ∈ cl → o c = option_list p) →
  hk (Run_loop n lastSend p timer) (λ _ _, True) (AtHub p o cl).
Proof.
  revert lastSend p timer o cl. induction n as [|n IH]; intros lastSend p timer o cl Hp Ho; [apply hk_stuck|].
  apply holds_bind, holds_blocking. intros gs h ev h' HI E.
  destruct (select_ready (hub_ready timer h) h) as [[case h1]|] eqn:Es; [|done].
  apply select_ready_spec in Es as [Hin [ns ->]].
  assert (hub_inv (AtHub p o cl :: gs) (set_choices ns h)) as HI1 by (eapply silent_inv; [apply quiet_choices|done]).
  destruct case as [|c|c| |]; simpl in E.
  - injection E as <- <-. exists (AtHub p o cl). split_and!; [done..|].
    apply holds_bind, hk_gets. intros cs. clear. induction cs as [|c cs IHcs]; [done|].
    by apply holds_bind, hk_modify; [intros; apply quiet_jot|].
  - injection E as <- <-. eexists. split_and!; [apply (hub_greet _ _ _ _ _ HI1 c); [|done]|done|].
    { revert Hin. unfold hub_ready. simpl. rewrite !elem_of_app, !list_elem_of_fmap.
      intros [H|[(c' & [= ->] & Hc)|[(? & ? & _)|[H|H]]]]; [..|by apply elem_of_elements in Hc|done| |];
        repeat case_match; simplify_eq/=; apply list_elem_of_singleton in H || (by apply elem_of_nil in H); done. }
    cbn [h_lastFrozen h_lastScoreboard set_choices]. apply holds_bind.
    eapply hk_enqueue; [done|set_solver|by rewrite decide_True|]. apply holds_bind.
    destruct (h_lastScoreboard h) as [b|] eqn:Eb.
    + apply (hk_enqueue c b true _ _ (option_list p)); [by apply (hi_last _ _ HI)|set_solver|by rewrite upd_eq|].
      apply IH; [done|]. intros c' Hc'. destruct (decide (c' = c)) as [->|Hne]; [by rewrite upd_eq|].
      rewrite !upd_ne, decide_False by done. set_solver.
    + apply IH; [done|]. intros c' Hc'. destruct (decide (c' = c)) as [->|Hne]; [by rewrite upd_eq|].
      rewrite upd_ne, decide_False by done. set_solver.
  - injection E as <- <-. eexists. split_and!; [by apply hub_leave|done|]. apply IH; [done|set_solver].
  - destruct (h_incoming h) as [|m ms] eqn:Em; [done|]. injection E as <- <-.
    pose proof (hi_incoming _ _ HI) as Hall. rewrite Em in Hall. apply Forall_cons in Hall as [Hm _].
    eexists. split_and!; [by refine (hub_take _ _ _ _ _ HI1 m ms Em _)|done|]. unfold owed_of. destruct (ob_isScoreboard m) eqn:Eb.
    + apply holds_bind, hk_gets. intros now. destruct (gap_passed now lastSend).
      * apply holds_bind, (hk_flush _ _ (λ _, [])); [by intros f [= <-]|done|]. intros t o1 Ho1. apply IH; [done|].
        intros c Hc. by apply Ho1.
      * apply IH; [by intros f [= <-]|done].
    + apply holds_bind, (hk_flush _ _ (λ _, [ob_data m])); [done|done|]. intros t o1 Ho1.
      apply holds_bind, (hk_fanout _ _ _ _ (λ _, [])); [done|done|]. intros o2 Ho2. apply IH; [done|]. intros c Hc. by apply Ho2.
  - injection E as <- <-. eexists. split_and!; [exact HI1|done|].
    apply holds_bind, (hk_flush _ _ (λ _, [])); [done|intros c Hc; by rewrite app_nil_r, Ho|].
    intros t o1 Ho1. apply IH; [done|]. intros c Hc. by apply Ho1.
Qed.
Lemma hk_run n : hk (Run n) (λ _ _, True) (AtHub None (λ _, []) ∅).
Proof.
  apply holds_defer. eapply holds_mono; [by apply hk_run_loop|]. intros r g _.
  apply hk_modify; [|by destruct r]. intros h. by apply quiet_fields.
Qed.

(** ** The handlers' steps *)

Section AClient.
Context (gs : list role) (h : Hub).

Lemma others_untouched c fresh hand h' : NoDup (omap client_of (AtClient c fresh hand :: gs)) →
  h_all h = h_all h' ∨ length (h_all h') = length (h_all h) →
  (∀ c', c' ≠ c → drained c' (h_log h') = drained c' (h_log h) ∧ wrote c' (h_log h') = wrote c' (h_log h)
     ∧ joined c' (h_log h') = joined c' (h_log h) ∧ (c' ∈ h_register h' → c' ∈ h_register h)) →
  Forall (handler_ok h) gs → Forall (handler_ok h') gs.
Proof.
  intros Hnd Hlen Hsame. rewrite !Forall_forall. intros Hf [| |c' fr fs] Hin; [done..|].
  assert (c' ≠ c) as Hne.
  { intros ->. apply NoDup_cons in Hnd as [Hnc _]. apply Hnc, list_elem_of_omap. by eexists. }
  destruct (Hf _ Hin) as (Hlt & Hd & Hr). destruct (Hsame c' Hne) as (Ed & Ew & Ej & Er).
  split_and!; [destruct Hlen as [<-|Hlen]; simpl in *; lia|by rewrite Ed, Ew|]. intros E. destruct (Hr E). rewrite Ej. auto.
Qed.

Lemma client_alloc key : hub_inv (Idle :: gs) h →
  hub_inv (AtClient (length (h_all h)) true [] :: gs) (set_all (h_all h ++ [newClient key]) h).
Proof.
  intros [(p & o & cl & Hh & [H1 H2 H3 H4]) Ho Hf Hfr Hi Hl].
  destruct (Hfr (length (h_all h)) ltac:(done)) as (F1 & F2 & F3 & F4 & F5).
  split; [| | | |done|done].
  - exists p, o, cl. split; [exact Hh|]. split; [done..|]. intros c x Hx. simpl in Hx.
    apply lookup_snoc_Some in Hx as [[Hlt Hx]|[-> <-]]; [by destruct (H4 c x Hx)|].
    split; simpl; unfold joined, stream; rewrite ?F1, ?F2, ?F3; try done; [lia|].
    exists []. split; [constructor|]. intros _. exists []. done.
  - change (NoDup (length (h_all h) :: omap client_of gs)). apply NoDup_cons. split; [|exact Ho].
    intros (g & Hg & Eg)%list_elem_of_omap. apply Forall_cons in Hf as [_ Hf]. rewrite Forall_forall in Hf.
    destruct g as [| |c fr fs]; simplify_eq/=. destruct (Hf _ Hg) as [Hlt _]. lia.
  - apply Forall_cons in Hf as [_ Hf]. constructor.
    + simpl. rewrite length_app, F2, F3. unfold joined. rewrite F1. simpl. split_and!; [lia|done|done].
    + eapply Forall_impl; [exact Hf|]. intros [| |c fr fs]; [done..|]. intros (Hlt & Hd & Hr).
      split_and!; [simpl; rewrite length_app; lia|done|done].
  - intros c Hc. simpl in *. rewrite length_app in Hc. apply Hfr. lia.
Qed.

Lemma client_offer c : hub_inv (AtClient c true [] :: gs) h →
  hub_inv (AtClient c false [] :: gs) (set_register ({[c]} ∪ h_register h) h).
Proof.
  intros [(p & o & cl & Hh & [H1 H2 H3 H4]) Ho Hf Hfr Hi Hl].
  apply Forall_cons in Hf as [(Hlt & Hd & Hr) Hf]. destruct (Hr eq_refl) as [Hj Hnr].
  split; [|exact Ho| | |done|done].
  - exists p, o, cl. split; [exact Hh|]. split; [done..|]. intros c' x Hx.
    destruct (H4 c' x Hx) as [C1 C2 C3 C4 C5 C6 C7]. split; auto.
    simpl. intros [->%elem_of_singleton|]%elem_of_union; [done|auto].
  - constructor; [done|]. eapply others_untouched; [exact Ho|by left| |exact Hf].
    intros c' Hne. simpl. set_solver.
  - intros c' Hc'. destruct (Hfr c' Hc') as (F1 & F2 & F3 & F4 & F5). split_and!; [done..| |done].
    simpl in *. intros [->%elem_of_singleton|]%elem_of_union; [lia|done].
Qed.

(** Draining: what was queued is in hand, unless the client overflowed. *)
Lemma client_drain c : hub_inv (AtClient c false [] :: gs) h →
  hub_inv (AtClient c false (match (drain c h).1 with Ok (fs, false) => fs | _ => [] end) :: gs) (drain c h).2.
Proof.
  intros HI. pose proof HI as [(p & o & cl & Hh & [H1 H2 H3 H4]) Ho Hf Hfr Hi Hl].
  apply Forall_cons in Hf as [(Hlt & Hd & _) Hf]. unfold drain.
  destruct (h_all h !! c) as [x|] eqn:Ex; [|by apply lookup_ge_None in Ex; lia].
  set (h' := jot _ _). set (fs := if cl_overflow x then [] else cl_queue x).
  assert (∀ c', fed_of c' (h_log h') = fed_of c' (h_log h)) as Ef by (intros; unfold h'; simpl; by rewrite fed_of_snoc).
  assert (∀ c', drained c' (h_log h') = drained c' (h_log h) ++ if decide (c = c') then fs else []) as Ed
    by (intros; unfold h'; simpl; by rewrite drained_snoc).
  assert (∀ c', wrote c' (h_log h') = wrote c' (h_log h)) as Ew by (intros; unfold h'; simpl; by rewrite wrote_snoc, app_nil_r).
  assert (length (h_all h') = length (h_all h)) as EL by (simpl; by rewrite length_alter).
  assert ((if cl_overflow x then [] else cl_queue x) = fs) as Efs by done.
  replace (match (Ok (cl_queue x, cl_overflow x), h').1 with Ok (fs, false) => fs | _ => [] end) with fs
    by (unfold fs; simpl; by destruct (cl_overflow x)).
  split; [|exact Ho| | |done|done].
  - exists p, o, cl. split; [exact Hh|]. split; [done..|]. intros c' y Hy.
    destruct (decide (c = c')) as [<-|Hne].
    + simpl in Hy. rewrite list_lookup_alter_eq, Ex in Hy. injection Hy as <-.
      destruct (H4 c x Ex) as [C1 C2 C3 C4 C5 C6 (rest & C7 & C8)].
      split; unfold joined, stream; rewrite ?Ef, ?Ed, ?Ew, ?decide_True by done;
        cbn [with_queue cl_queue cl_tailSnap cl_overflow]; auto; [|done|simpl; lia|by apply prefix_app_r|].
      * intros E. destruct (C3 E) as (E1 & E2 & E3). rewrite E2. split_and!; [done| |done].
        unfold fs. rewrite E1. by destruct (cl_overflow x).
      * unfold fs. destruct (cl_overflow x) eqn:Eov.
        -- exists rest. rewrite app_nil_r. done.
        -- destruct (C8 eq_refl) as (r & -> & Hr). exists r. rewrite <- app_assoc. split; [done|]. intros _. by exists r.
    + simpl in Hy. rewrite list_lookup_alter_ne in Hy by done. destruct (H4 c' y Hy) as [C1 C2 C3 C4 C5 C6 C7].
      split; unfold joined, stream; rewrite ?Ef, ?Ed, ?Ew, ?decide_False, ?app_nil_r by done; auto.
  - constructor.
    + simpl. rewrite length_alter. fold h'. split_and!; [done| |done].
      change (drained c (h_log h') = wrote c (h_log h') ++ fs). rewrite Ed, Ew, decide_True, Hd, app_nil_r by done. done.
    + eapply (others_untouched c false []); [exact Ho|by right| |exact Hf]. intros c' Hne.
      unfold joined. rewrite Ef, Ed, Ew, decide_False, app_nil_r by done. done.
  - intros c' Hc'. assert (length (h_all h) ≤ c') as Hge by (by rewrite <- EL). destruct (Hfr c' Hge) as (F1 & F2 & F3 & F4 & F5).
    rewrite Ef, Ed, Ew, decide_False, app_nil_r by lia. done.
Qed.

Lemma client_wrote c f fs : hub_inv (AtClient c false (f :: fs) :: gs) h →
  hub_inv (AtClient c false fs :: gs) (jot (Wrote c f) h).
Proof.
  intros [(p & o & cl & Hh & [H1 H2 H3 H4]) Ho Hf Hfr Hi Hl].
  apply Forall_cons in Hf as [(Hlt & Hd & _) Hf]. set (h' := jot _ _).
  assert (∀ c', fed_of c' (h_log h') = fed_of c' (h_log h)) as Ef by (intros; unfold h'; simpl; by rewrite fed_of_snoc).
  assert (∀ c', drained c' (h_log h') = drained c' (h_log h)) as Ed by (intros; unfold h'; simpl; by rewrite drained_snoc, app_nil_r).
  assert (∀ c', wrote c' (h_log h') = wrote c' (h_log h) ++ if decide (c = c') then [f] else []) as Ew
    by (intros; unfold h'; simpl; by rewrite wrote_snoc).
  split; [|exact Ho| | |done|done].
  - exists p, o, cl. split; [exact Hh|]. split; [done..|]. intros c' x Hx.
    destruct (H4 c' x Hx) as [C1 C2 C3 C4 C5 C6 C7]. split; unfold joined, stream; rewrite ?Ef, ?Ed, ?Ew; auto.
    case_decide as E; [subst c'|by rewrite app_nil_r]. exists fs. by rewrite Hd, <- app_assoc.
  - constructor.
    + split_and!; [done| |done]. change (drained c (h_log h') = wrote c (h_log h') ++ fs).
      by rewrite Ed, Ew, decide_True, Hd, <- app_assoc.
    + eapply (others_untouched c false []); [exact Ho|by left| |exact Hf]. intros c' Hne.
      unfold joined. rewrite Ef, Ed, Ew, decide_False, app_nil_r by done. done.
  - intros c' Hc'. destruct (Hfr c' Hc') as (F1 & F2 & F3 & F4 & F5).
    rewrite Ef, Ed, Ew, decide_False, app_nil_r by (simpl in Hc'; lia). done.
Qed.
End AClient.

(** ** The handlers' programs *)

Abbreviation idle := (λ (_ : res _) (_ : role), True).

Lemma hk_write_all c fs (Q : res bool → role → Prop) :
  Q (Ok true) (AtClient c false []) → (∀ fs', Q (Ok false) (AtClient c false fs')) →
  hk (write_all c fs) Q (AtClient c false fs).
Proof.
  intros Ht Hf. induction fs as [|f fs IH]; [by apply holds_ret|].
  apply holds_bind, holds_bind, hk_quiet; [apply silent_fault|]. intros h. unfold fault.
  assert (∀ b, hk (if b : bool then (mret false : P Hub bool) else (atomic (modify (jot (Wrote c f)));; mret true))
    (λ r g, match r with Ok ok => hk (if ok : bool then write_all c fs else (mret false : P Hub bool)) Q g | Err e => Q (Err e) g end)
    (AtClient c false (f :: fs))) as Hb.
  { intros [].
    - apply holds_ret, holds_ret, Hf.
    - apply holds_bind, holds_atomic. intros gs h' HI. exists (AtClient c false fs).
      split_and!; [by apply client_wrote|done|]. by apply holds_ret. }
  destruct (h_faults h) as [|b bs]; apply Hb.
Qed.

Lemma hk_write_pump n c key next : hk (writePump_loop n c key next) idle (AtClient c false []).
Proof.
  revert next. induction n as [|n IH]; intros next; [apply hk_stuck|].
  apply holds_bind, hk_quiet_blocking.
  { intros h ev h' E. destruct (h_all h !! c); [|done]. simpl in E.
    destruct (select_ready _ h) as [[e h1]|] eqn:Es; [|done]. apply select_ready_spec in Es as [_ [ns ->]]. simpl in E.
    destruct e; injection E as <- <-; [done| |done]. eapply quiet_trans; [apply quiet_choices|]. by apply quiet_alter. }
  intros [].
  - by apply holds_ret.
  - apply holds_bind, holds_atomic. intros gs h HI. eexists. split_and!; [by apply client_drain|done|].
    unfold drain. destruct (h_all h !! c) as [x|] eqn:Ex.
    + simpl. destruct (cl_overflow x).
      * apply holds_bind, hk_modify; [intros; by apply quiet_fields|]. by apply hk_modify; [intros; apply quiet_jot|].
      * apply holds_bind, hk_write_all; [apply IH|]. intros. by apply holds_ret.
    + simpl. apply holds_bind. apply (hk_write_all c []); [apply IH|]. intros. by apply holds_ret.
  - apply holds_bind, hk_gets. intros now. apply holds_bind, hk_quiet; [apply silent_fault|]. intros h.
    assert (∀ b, hk (g ← atomic (gets (gone c)); if b && negb g then (mret tt : P Hub unit) else writePump_loop n c key (next_tick now next))
      idle (AtClient c false [])) as Hb.
    { intros b. apply holds_bind, hk_gets. intros g. destruct (b && negb g); [by apply holds_ret|apply IH]. }
    unfold fault. destruct (h_faults h); apply Hb.
Qed.

Lemma hk_handler n key : hk (Handler n key) idle Idle.
Proof.
  apply holds_bind, hk_quiet.
  { intros h. destruct (admissions_admit _ _ _). by apply quiet_fields. }
  intros h. destruct (admissions_admit _ _ _) as [[l|] a]; cbn [fst].
  { apply hk_modify; [|done]. intros. by apply quiet_jot. }
  apply holds_defer. eapply (holds_mono _ _ _ _ idle).
  2:{ intros r g _. apply hk_modify; [intros; by apply quiet_fields|]. by destruct r. }
  clear h a. apply holds_bind, hk_quiet; [apply silent_fault|]. intros h.
  assert (∀ b, hk (if b : bool then (mret tt : P Hub unit) else c ← atomic (alloc key); registered ← send_register c;
    if negb registered then atomic (modify (jot (Closed c "server shutting down"))) else
    defer (atomic (modify (client_alter (with_gone true) c)))
      (go (readPump c);; writePump n c key;; send_unregister c;; atomic (modify (jot (Closed c ""))))) idle Idle) as Hb.
  2:{ unfold serve, fault. destruct (h_faults h); apply Hb. }
  clear h. intros []; [by apply holds_ret|].
  apply holds_bind, holds_atomic. intros gs h HI. eexists. split_and!; [by apply client_alloc|done|].
  unfold alloc. cbn [fst]. generalize (length (h_all h)). clear gs h HI. intros c.
  apply holds_bind, holds_bind, holds_atomic. intros gs h HI. eexists. split_and!; [by apply client_offer|done|].
  unfold modify at 1. cbn [fst]. clear gs h HI. apply hk_quiet_blocking.
  { intros h a h' E. case_decide; [destruct (h_done h); [|done]|]; injection E as <- <-; [|apply quiet_refl].
    apply quiet_fields; try done. simpl. set_solver. }
  intros []; [|by apply hk_modify; [intros; apply quiet_jot|]].
  apply holds_defer. eapply (holds_mono _ _ _ _ idle).
  2:{ intros r g _. apply hk_modify; [intros; by apply quiet_alter|]. by destruct r. }
  apply holds_bind. unfold go. intros gs h HI. exists (AtClient c false []), Idle. split_and!; [by apply hub_inv_idle| |].
  2:{ apply holds_forget. apply hk_modify; [|done]. intros. by apply quiet_alter. }
  change (hk (writePump n c key;; send_unregister c;; atomic (modify (jot (Closed c "")))) idle (AtClient c false [])).
  apply holds_bind. unfold writePump. apply holds_bind, hk_gets. intros now.
  eapply (holds_mono _ _ _ _ idle); [apply hk_write_pump|]. intros [u|e] g _; [|done].
  apply holds_bind. unfold send_unregister. apply holds_bind, hk_modify; [intros; by apply quiet_fields|].
  apply hk_quiet_blocking.
  { intros h' a h'' E. case_decide; [destruct (h_done h'); [|done]|]; injection E as <- <-; [by apply quiet_fields|apply quiet_refl]. }
  intros []. by apply hk_modify; [intros; apply quiet_jot|].
Qed.

(** ** Any number of connections and broadcasts *)

(** What runs beside the hub's goroutine; [n] bounds the turns of a write pump. *)
Inductive hub_program : prog Hub unit → Prop :=
  | hp_handler n key : hub_program (forget (Handler n key))
  | hp_scoreboard s : hub_program (forget (BroadcastScoreboard s))
  | hp_phase ph : hub_program (forget (BroadcastPhase ph))
  | hp_tick d : hub_program (forget (Tick d))
  | hp_shutdown : hub_program (forget Shutdown).
Definition hub_start (h : Hub) : Prop :=
  h_all h = [] ∧ h_clients h = ∅ ∧ h_register h = ∅ ∧ h_incoming h = [] ∧ h_lastScoreboard h = None ∧ h_log h = [].

Lemma hk_program p : hub_program p → hk p (λ _ _, True) Idle.
Proof.
  intros []; apply holds_forget.
  - apply hk_handler.
  - by apply hk_quiet; [intros; apply quiet_offer|].
  - by apply hk_quiet; [intros; apply quiet_offer|].
  - by apply hk_modify; [intros; apply quiet_fields|].
  - by apply hk_modify; [intros; apply quiet_fields|].
Qed.
Lemma hub_start_inv k h : hub_start h → hub_inv (AtHub None (λ _, []) ∅ :: replicate k Idle) h.
Proof.
  intros (E1 & E2 & E3 & E4 & E5 & E6).
  assert (∀ A (f : role → option A), f Idle = None → omap f (replicate k Idle) = []) as Hnil.
  { intros A f Hf. induction k as [|k IH]; [done|]. change (omap f (replicate (S k) Idle)) with
      (match f Idle with Some y => y :: omap f (replicate k Idle) | None => omap f (replicate k Idle) end). by rewrite Hf. }
  split.
  - exists None, (λ _, []), ∅. split; [by apply omap_hub, Hnil|]. split; [done|done|set_solver|].
    intros c x Hx. by rewrite E1 in Hx.
  - change (NoDup (omap client_of (replicate k Idle))). rewrite Hnil by done. constructor.
  - constructor; [done|]. by apply Forall_replicate.
  - intros c _. rewrite E2, E3, E6. split_and!; [done..|set_solver|set_solver].
  - by rewrite E4.
  - by rewrite E5.
Qed.

(** C25: Under every interleaving of connections, broadcasts and the hub, what a client's connection was given
    is the hub's stream for it, in order: its greeting, then every message the hub took; the
    only thing left out is a scoreboard that another directly follows, so no phase is lost
    or overtaken by a board.  A connected client that did not overflow misses nothing:
    the rest is in hand, in its queue, or among at most three frames the hub has yet to offer;
    and no queue is over its bound. *)
Theorem frames_in_order n ps ps' h h' c x :
  Forall hub_program ps → hub_start h → rtc pool_step (forget (Run n) :: ps, h) (ps', h') → h_all h' !! c = Some x →
  (∃ rest, feeds (stream c (h_log h')) (wrote c (h_log h') ++ rest)) ∧
  (c ∈ h_clients h' → cl_overflow x = false → ∃ hand owed,
    feeds (stream c (h_log h')) (wrote c (h_log h') ++ hand ++ cl_queue x ++ owed) ∧ length owed ≤ 3) ∧
  length (cl_queue x) ≤ clientQueueCap.
Proof.
  intros Hps Hh Hr Hx.
  destruct (holds_pool (λ _ : role, True) hub_inv (λ _ _, True) hub_inv_perm (forget (Run n) :: ps) (AtHub None (λ _, []) ∅ :: replicate (length ps) Idle) h ps' h')
    as (gs & _ & [(p & o & cl & _ & [H1 _ H3 H4]) _ _ _ _ _] & _); [|by apply hub_start_inv|exact Hr|].
  { constructor; [apply holds_forget, hk_run|]. clear Hr. induction Hps; simpl; constructor; [by apply hk_program|done]. }
  destruct (H4 c x Hx) as [_ _ _ _ C5 [hand Eh] (rest & C7 & C8)]. rewrite Eh, <- app_assoc in C7.
  split; [by eexists|]. split; [|done]. intros Hc Hov. destruct (C8 Hov) as (r & -> & Hr'). specialize (Hr' Hc). subst r.
  exists hand, (o c). split; [done|]. apply H3. by rewrite H1.
Qed.

(** ** Concrete runs *)

Definition demo_snap (count : nat) (frozen : bool) : Snapshot :=
  {| sn_Frozen := frozen; sn_GeneratedAt := 0; sn_Standings := []; sn_SolveCount := count |}.
(** The hub; a connection; a board, a phase, and two more boards, the second within the gap. *)
Definition demo_hub : list (prog Hub unit) :=
  [forget (Run 9); forget (Handler 5 "user:1"); forget (BroadcastScoreboard (demo_snap 1 false));
   forget (BroadcastPhase "running"); forget (BroadcastScoreboard (demo_snap 2 false));
   forget (BroadcastScoreboard (demo_snap 3 true))].
Definition demo_hub_schedule : list nat :=
  [1; 1; 1; 1] ++ repeat 0 3 ++ [2; 3; 4; 5] ++ repeat 0 14 ++ repeat 1 11.
Definition connected (c : nat) (h : Hub) : bool :=
  match h_all h !! c with
  | Some x => bool_decide (c ∈ h_clients h) && negb (cl_overflow x) && (2 <? length (wrote c (h_log h)))%nat
  | None => false
  end.

Lemma frames_in_order_witness :
  match exec demo_hub_schedule demo_hub (NewHub 0 [] []) with
  | Some (_, h') => ∃ x, h_all h' !! 0 = Some x ∧ 2 < length (wrote 0 (h_log h')) ∧
      ∃ hand owed, feeds (stream 0 (h_log h')) (wrote 0 (h_log h') ++ hand ++ cl_queue x ++ owed) ∧ length owed ≤ 3
  | None => False
  end.
Proof.
  assert (match exec demo_hub_schedule demo_hub (NewHub 0 [] []) with
          | Some (_, h') => connected 0 h' | None => false end = true) as Hrun by (vm_compute; reflexivity).
  destruct (exec _ demo_hub _) as [[ps' h']|] eqn:Ex; [|discriminate Hrun].
  unfold connected in Hrun. destruct (h_all h' !! 0) as [x|] eqn:Hx; [|discriminate Hrun].
  apply andb_prop in Hrun as [[Hc%bool_decide_eq_true Hov%negb_true_iff]%andb_prop Hl%Nat.ltb_lt].
  exists x. split; [done|]. split; [done|].
  refine (proj1 (proj2 (frames_in_order 9 (tail demo_hub) ps' (NewHub 0 [] []) h' 0 x _ _ _ Hx)) Hc Hov).
  - repeat constructor.
  - by split_and!.
  - exact (exec_sound _ _ _ _ _ Ex).
Defined.

(** A phase broadcast while the channel is full is dropped: the clients stay connected
    and never learn of it. *)
Definition many_phases : list (prog Hub unit) :=
  [forget (Run 30); forget (Handler 5 "user:1")] ++ replicate 16 (forget (BroadcastPhase "running")) ++
  [forget (BroadcastPhase "ended")].
Theorem full_channel_drops_phase :
  match exec ([1; 1; 1; 1; 0; 0; 0; 1; 1; 1] ++ seq 2 17 ++ repeat 0 64) many_phases (NewHub 0 [] []) with
  | Some (_, h') => BroadcastDropped "phase" ∈ h_log h' ∧ h_incoming h' = [] ∧
      0 ∈ h_clients h' ∧ cl_overflow <$> h_all h' !! 0 = Some false ∧
      FrameEventPhase "ended" ∉ stream 0 (h_log h')
  | None => False
  end.
Proof.
  assert (match exec ([1; 1; 1; 1; 0; 0; 0; 1; 1; 1] ++ seq 2 17 ++ repeat 0 64) many_phases (NewHub 0 [] []) with
  | Some (_, h') =>
      existsb (λ n, match n with BroadcastDropped k => bool_decide (k = "phase") | _ => false end) (h_log h') &&
      (length (h_incoming h') =? 0)%nat && bool_decide (0 ∈ h_clients h') &&
      bool_decide (cl_overflow <$> h_all h' !! 0 = Some false) &&
      forallb (λ f, match f with FrameEventPhase k => negb (bool_decide (k = "ended")) | _ => true end) (stream 0 (h_log h'))
  | None => false end = true) as H by (vm_compute; reflexivity).
  destruct (exec _ _ _) as [[ps' h']|]; [|discriminate H].
  apply andb_prop in H as [[[[H1 H2]%andb_prop H3]%andb_prop H4]%andb_prop H5].
  apply existsb_exists in H1 as (n & Hn & En). apply list_elem_of_In in Hn. destruct n; try discriminate En.
  apply bool_decide_eq_true in En as ->. apply Nat.eqb_eq, nil_length_inv in H2.
  apply bool_decide_eq_true in H3, H4. split_and!; [done..|]. intros Hin%list_elem_of_In.
  rewrite forallb_forall in H5. by specialize (H5 _ Hin).
Qed.
