(* ===== verification/HubLimits.v ===== *)
(** * The websocket endpoint's limits

    Connections never exceed the global cap nor a key's, every reserved slot is
    returned on every path, under every interleaving; and in no window does a key
    pass more handshakes than the burst allows. *)

From S2P Require Import Prelude Env Interleave Hub HubRules.

(** ** Slots *)

(** A thread's ghost is the key it holds a slot for, and the connection it has opened. *)
Abbreviation slot := (option (string * option nat)).
Definition holds_key (key : string) (g : slot) : nat := if decide (fst <$> g = Some key) then 1 else 0.
Definition holders (gs : list slot) : nat := length (omap id gs).
Definition holders_of (key : string) (gs : list slot) : nat := sum_list (holds_key key <$> gs).
Lemma holders_of_cons key g gs : holders_of key (g :: gs) = holds_key key g + holders_of key gs.
Proof. done. Qed.

(** *** The connections that are open *)

Definition closes (c : nat) (n : note) : bool := match n with Closed c' _ => bool_decide (c' = c) | _ => false end.
Definition is_open (h : Hub) (c : nat) : bool := bool_decide (is_Some (h_all h !! c)) && negb (existsb (closes c) (h_log h)).
Definition opened (h : Hub) : list nat := List.filter (is_open h) (seq 0 (length (h_all h))).
Definition opened_by (key : string) (h : Hub) : list nat :=
  List.filter (λ c, bool_decide (cl_key <$> h_all h !! c = Some key)) (opened h).

Section Slots.
Context (l : Limits).

Record slots (a : admissions) (total : nat) (per : string → nat) : Prop := {
  sl_limits : ad_limits a = l;
  sl_total : ad_total a = Z.of_nat total;
  sl_perKey : ∀ key, ad_perKey a !! key = if decide (per key = 0) then None else Some (Z.of_nat (per key));
  sl_cap : (0 < MaxConns l → ad_total a ≤ MaxConns l)%Z;
  sl_keycap : ∀ key, (0 < MaxConnsPerKey l → Z.of_nat (per key) ≤ MaxConnsPerKey l)%Z
}.
Lemma slots_at a total per key : slots a total per → at_key (ad_perKey a) key = Z.of_nat (per key).
Proof. intros [_ _ H _ _]. unfold at_key. rewrite H. case_decide as E; [by rewrite E|done]. Qed.

(** Only admission and release touch the counts. *)
Definition same_slots (a a' : admissions) : Prop :=
  ad_limits a' = ad_limits a ∧ ad_total a' = ad_total a ∧ ad_perKey a' = ad_perKey a.
Lemma slots_same a a' total per : same_slots a a' → slots a total per → slots a' total per.
Proof. intros (E1 & E2 & E3) []. split; rewrite ?E1, ?E2, ?E3; auto. Qed.
Lemma slots_ext a total total' per per' : total = total' → (∀ key, per key = per' key) → slots a total per → slots a total' per'.
Proof. intros -> E []. split; auto; intros key; rewrite <- E; auto. Qed.

Lemma same_forgiveHandshake key a : same_slots a (forgiveHandshake key a).
Proof. unfold forgiveHandshake. by destruct (_ <? _)%Z. Qed.
Lemma same_rate now key a : same_slots a (rate now key a).2.
Proof. unfold rate. by repeat case_match. Qed.

Lemma admit_slots now key a total per : slots a total per →
  match admissions_admit now key a with
  | (None, a') => slots a' (S total) (λ k, if decide (k = key) then S (per k) else per k)
  | (Some _, a') => slots a' total per
  end.
Proof.
  intros Hs. unfold admissions_admit.
  set (forgiven := (0 <? at_key (ad_forgive a) key)%Z).
  set (a1 := if forgiven then with_forgive (take_one key (ad_forgive a)) a else a).
  assert (slots a1 total per) as Hs1 by (eapply slots_same, Hs; unfold a1; by destruct forgiven).
  assert (slots (if forgiven then (false, a1) else rate now key a1).2 total per) as Hs2.
  { eapply slots_same, Hs1. destruct forgiven; [done|apply same_rate]. }
  destruct (if forgiven then (false, a1) else rate now key a1) as [denied a2]. simpl in Hs2.
  destruct denied; [done|]. pose proof Hs2 as [Hl Ht Hp Hc Hk]. rewrite Hl.
  destruct ((0 <? MaxConns l)%Z && _) eqn:E1; [done|]. destruct ((0 <? MaxConnsPerKey l)%Z && _) eqn:E2; [done|].
  apply andb_false_iff in E1. apply andb_false_iff in E2. rewrite !Z.ltb_ge, !Z.leb_gt in *.
  rewrite (slots_at _ _ _ _ Hs2) in *. split; cbn [with_counts ad_limits ad_total ad_perKey]; [done|lia| |lia|].
  - intros k. destruct (decide (k = key)) as [->|]; [rewrite lookup_insert_eq, decide_False by done; f_equal; lia|by rewrite lookup_insert_ne, Hp by done].
  - intros k Hpos. specialize (Hk k Hpos). case_decide as E; [subst k|]; lia.
Qed.

Lemma release_slots key a total per : slots a (S total) per → 0 < per key →
  slots (release key a) total (λ k, if decide (k = key) then pred (per k) else per k).
Proof.
  intros Hs Hpos. pose proof Hs as [Hl Ht Hp Hc Hk]. unfold release. rewrite (slots_at _ _ _ _ Hs).
  replace (0 <? ad_total a)%Z with true by (symmetry; apply Z.ltb_lt; lia).
  replace (0 <? Z.of_nat (per key))%Z with true by (symmetry; apply Z.ltb_lt; lia).
  split; cbn [with_counts ad_limits ad_total ad_perKey]; [done|lia| |lia|].
  - intros k. unfold take_one. rewrite (slots_at _ _ _ _ Hs). destruct (Z.eqb_spec (Z.of_nat (per key) - 1) 0).
    + destruct (decide (k = key)) as [->|]; [rewrite lookup_delete_eq, decide_True by lia; done|by rewrite lookup_delete_ne, Hp by done].
    + destruct (decide (k = key)) as [->|]; [rewrite lookup_insert_eq, decide_False by lia; f_equal; lia|by rewrite lookup_insert_ne, Hp by done].
  - intros k Hm. specialize (Hk k Hm). case_decide; lia.
Qed.

(** ** The invariant of the pool *)

(** Whoever opened a connection that is still open is holding a slot for its key. *)
Definition served (gs : list slot) (h : Hub) : Prop :=
  ∀ c x, h_all h !! c = Some x → existsb (closes c) (h_log h) = false → Some (cl_key x, Some c) ∈ gs.
Definition slots_inv (gs : list slot) (h : Hub) : Prop :=
  slots (h_admit h) (holders gs) (λ key, holders_of key gs) ∧ served gs h.
Lemma slots_inv_perm gs gs' h : gs ≡ₚ gs' → slots_inv gs h → slots_inv gs' h.
Proof.
  intros Hp [Hs Hv]. split; [|intros c x Hc Ho; rewrite <- Hp; by apply Hv].
  eapply slots_ext, Hs; [unfold holders; by rewrite Hp|]. intros key. unfold holders_of. by rewrite Hp.
Qed.
Definition rest_same (h h' : Hub) : Prop :=
  same_slots (h_admit h) (h_admit h') ∧ cl_key <$> h_all h' = cl_key <$> h_all h ∧ h_log h `prefix_of` h_log h'.
Lemma served_same gs h h' : rest_same h h' → served gs h → served gs h'.
Proof.
  intros (_ & Hk & [k Hl]) Hv c x Hc Ho. assert ((cl_key <$> h_all h') !! c = Some (cl_key x)) as E by by rewrite list_lookup_fmap, Hc.
  rewrite Hk, list_lookup_fmap in E. destruct (h_all h !! c) as [y|] eqn:Ey; [|done]. injection E as <-. apply Hv; [done|].
  rewrite Hl, existsb_app in Ho. by apply orb_false_iff in Ho as [? _].
Qed.
Lemma rest_same_inv gs h h' : rest_same h h' → slots_inv gs h → slots_inv gs h'.
Proof. intros Hr [Hs Hv]. split; [eapply slots_same, Hs; apply Hr|by eapply served_same]. Qed.
Lemma served_more gs gs' h : gs ⊆ gs' → served gs h → served gs' h.
Proof. intros Hg Hv c x Hc Ho. by apply Hg, Hv. Qed.

(** A ghost that opened nothing can change. *)
Lemma served_swap g g' gs h : (∀ key c, g ≠ Some (key, Some c)) → served (g :: gs) h → served (g' :: gs) h.
Proof. intros Hg Hv c x Hc Ho. specialize (Hv c x Hc Ho). rewrite elem_of_cons in *. destruct Hv as [Hv|?]; [by destruct (Hg (cl_key x) c)|by right]. Qed.

Abbreviation hs := (holds (λ g : slot, g = None) slots_inv (λ _ _, True)).
Abbreviation apart := (all_respect (λ _ : Hub, True) rest_same).
(** The program ends without an error, if it ends. *)
Abbreviation no_throw := (λ p, holds (λ _ : unit, True) (λ _ (_ : Hub), True) (λ _ _, True) p (λ r _, ∃ a, r = Ok a) tt).

Lemma hs_apart {A} (p : prog Hub A) g : apart p → hs p (λ _ g', g' = g) g.
Proof.
  intros Hp. eapply (holds_frame _ _ _ rest_same None); [exact Hp| | |done].
  - intros gs h h' Hs Hr. split; [|done]. by eapply rest_same_inv.
  - intros gs h g1 [Hs Hv]. split; [done|]. eapply served_more, Hv. set_solver.
Qed.
Lemma hs_apart_ok {A} (p : P Hub A) g : apart p → no_throw p → hs p (λ r g', g' = g ∧ ∃ a, r = Ok a) g.
Proof.
  assert (∀ (R : Type) (q : prog Hub R) (Q : R → Prop), apart q → holds (λ _ : unit, True) (λ _ (_ : Hub), True) (λ _ _, True) q (λ r _, Q r) tt →
    hs q (λ r g', g' = g ∧ Q r) g) as Hall; [|intros H1 H2; by apply (Hall _ p (λ r, ∃ a, r = Ok a))].
  intros R q Q. induction q as [R r|R X f k IH|R child IHc k IH]; intros Ha Hn; [done| |].
  - intros gs h x h' HI E. destruct (Ha [] h x h' Logic.I E) as ([] & _ & Hr & Hk). destruct (Hn [] h x h' Logic.I E) as ([] & _ & _ & Hk').
    exists g. split_and!; [by eapply rest_same_inv|done|by apply IH].
  - intros gs h HI. destruct (Ha [] h Logic.I) as ([] & [] & _ & Hk & Hc). destruct (Hn [] h Logic.I) as ([] & [] & _ & Hk' & _).
    exists g, None. split_and!; [|by apply IH|by apply hs_apart]. destruct HI as [Hs Hv]. split; [done|]. eapply served_more, Hv. set_solver.
Qed.

Lemma no_throw_ret {A} (a : A) : no_throw (mret a : P Hub A).
Proof. by exists a. Qed.
Lemma no_throw_bind {A B} (p : P Hub A) (k : A → P Hub B) : no_throw p → (∀ a, no_throw (k a)) → no_throw (p ≫= k).
Proof. intros Hp Hk. apply holds_bind. eapply holds_mono; [exact Hp|]. intros r [] [a ->]. apply Hk. Qed.
Lemma no_throw_atomic {A} (m : M Hub A) : (∀ h, ∃ a, (m h).1 = Ok a) → no_throw (atomic m).
Proof. intros Hm. apply holds_atomic. intros gs h _. exists tt. split_and!; [done..|apply Hm]. Qed.
Lemma no_throw_blocking {A} (f : Hub → option (A * Hub)) : no_throw (blocking f).
Proof. apply holds_blocking. intros gs h a h' _ _. exists tt. split_and!; [done..|by exists a]. Qed.
Lemma no_throw_modify f : no_throw (atomic (modify f)).
Proof. apply no_throw_atomic. intros h. by exists tt. Qed.
Lemma no_throw_gets {A} (f : Hub → A) : no_throw (atomic (gets f)).
Proof. apply no_throw_atomic. intros h. by eexists. Qed.
Lemma no_throw_fault : no_throw (atomic fault).
Proof. apply no_throw_atomic. intros h. unfold fault. destruct (h_faults h); by eexists. Qed.
#[local] Hint Resolve no_throw_ret no_throw_modify no_throw_gets no_throw_fault no_throw_blocking : core.

Lemma hs_admit key (Q : res (option string) → slot → Prop) :
  (∀ limit, Q (Ok (Some limit)) None) → Q (Ok None) (Some (key, None)) →
  hs (atomic (λ h, let '(r, a) := admissions_admit (h_now h) key (h_admit h) in (Ok r, set_admit a h))) Q None.
Proof.
  intros H1 H2. apply holds_atomic. intros gs h [HI Hv]. pose proof (admit_slots (h_now h) key _ _ _ HI) as Ha.
  destruct (admissions_admit _ _ _) as [[limit|] a].
  - exists None. split_and!; [by split|done|apply H1].
  - exists (Some (key, None)). split_and!; [|done|done]. split; [|by eapply served_swap, Hv].
    eapply slots_ext, Ha; [done|]. intros k. rewrite !holders_of_cons. unfold holds_key. cbn [fmap option_fmap option_map fst].
    repeat case_decide; simplify_eq; first [lia|congruence].
Qed.
Lemma hs_release key : hs (atomic (modify (on_admit (release key)))) (λ _ g, g = None) (Some (key, None)).
Proof.
  apply holds_atomic. intros gs h [HI Hv]. exists None. split_and!; [|done|done]. split; [|by eapply served_swap, Hv].
  eapply slots_ext, (release_slots key _ (holders gs)); [done| |exact HI|].
  - intros k. rewrite !holders_of_cons. unfold holds_key. cbn [fmap option_fmap option_map fst]. repeat case_decide; simplify_eq; first [lia|congruence].
  - cbn beta. rewrite holders_of_cons. unfold holds_key. rewrite decide_True by done. lia.
Qed.
(** A connection is opened by one who holds a slot for its key; it is not let go before it is closed. *)
Lemma hs_alloc key : hs (atomic (alloc key)) (λ r g, ∃ c, r = Ok c ∧ g = Some (key, Some c)) (Some (key, None)).
Proof.
  apply holds_atomic. intros gs h [HI Hv]. exists (Some (key, Some (length (h_all h)))). split_and!; [|done|by eexists]. split; [done|].
  intros c x Hc Ho. cbn in Hc. apply lookup_app_Some in Hc as [Hc|[Hge Hc]].
  - specialize (Hv c x Hc Ho). rewrite elem_of_cons in *. destruct Hv as [?|?]; [done|by right].
  - apply list_lookup_singleton_Some in Hc as [Hz <-]. assert (c = length (h_all h)) as -> by lia. by left.
Qed.
Lemma hs_close key c reason : hs (atomic (modify (jot (Closed c reason)))) (λ r g, g = Some (key, None) ∧ ∃ a, r = Ok a) (Some (key, Some c)).
Proof.
  apply holds_atomic. intros gs h [HI Hv]. exists (Some (key, None)). split_and!; [|done|done|by eexists]. split; [done|].
  intros c' x Hc Ho. cbn in Hc, Ho. rewrite existsb_app in Ho. apply orb_false_iff in Ho as [Ho Hne]. specialize (Hv c' x Hc Ho).
  rewrite elem_of_cons in *. destruct Hv as [[= -> ->]|?]; [|by right]. cbn in Hne. by rewrite bool_decide_eq_true_2 in Hne.
Qed.

(** ** Everything else leaves the slots alone *)

Lemma keys_alter f c (xs : list client) : (∀ x, cl_key (f x) = cl_key x) → cl_key <$> alter f c xs = cl_key <$> xs.
Proof. intros Hf. apply list_eq. intros k. rewrite !list_lookup_fmap. destruct (decide (k = c)) as [->|]; [rewrite list_lookup_alter_eq; by destruct (xs !! c); simpl; rewrite ?Hf|by rewrite list_lookup_alter_ne]. Qed.
Lemma key_push m b x : cl_key (push m b x) = cl_key x.
Proof. unfold push. by destruct (_ && _ && _); [|destruct (_ <=? _)]. Qed.
Ltac rest := intros; split; [try done|split; cbn; [try done; try (apply keys_alter; intros; first [done|apply key_push])|try done; repeat apply prefix_app_r; try done]].

Lemma apart_modify f : (∀ h, rest_same h (f h)) → apart (atomic (modify f)).
Proof. intros Hf. apply all_respect_atomic. intros h _. split; [done|apply Hf]. Qed.
Lemma rest_same_refl h : rest_same h h.
Proof. done. Qed.
Lemma apart_gets {A} (f : Hub → A) : apart (atomic (gets f)).
Proof. by apply all_respect_atomic. Qed.
Lemma apart_fault : apart (atomic fault).
Proof. apply all_respect_atomic. intros h _. split; [done|]. unfold fault. by destruct (h_faults h). Qed.
Lemma apart_for_each {A} (f : A → P Hub unit) xs : (∀ x, apart (f x)) → apart (for_each f xs).
Proof. intros Hf. induction xs as [|x xs IH]; [done|]. by apply all_respect_bind. Qed.
Lemma apart_stuck {A} : apart (stuck : P Hub A).
Proof. by apply all_respect_blocking. Qed.
Lemma apart_enqueue c f b : apart (enqueue c f b).
Proof. apply all_respect_bind; [apply apart_modify; rest|]. intros _. apply apart_modify; rest. Qed.
Lemma apart_fanout f b : apart (fanout f b).
Proof. apply all_respect_bind; [apply apart_gets|]. intros cs. apply apart_for_each. intros c. apply apart_enqueue. Qed.
Lemma apart_flush p t : apart (flush p t).
Proof.
  destruct p as [f|]; [|done]. apply all_respect_bind; [apply apart_fanout|]. intros _.
  apply all_respect_bind; [apply apart_gets|done].
Qed.
#[local] Hint Resolve apart_gets apart_fault apart_stuck apart_enqueue apart_fanout apart_flush : resp.
#[local] Hint Extern 1 (apart (atomic (modify _))) => apply apart_modify; by rest : resp.

Lemma apart_hub_select timer : apart (hub_select timer).
Proof.
  apply all_respect_blocking. intros h ev h' _ E. split; [done|].
  destruct (select_ready _ h) as [[case h1]|] eqn:Es; [|done].
  apply select_ready_spec in Es as [_ [ns ->]]. simpl in E.
  destruct case; try (injection E as <- <-; done).
  - injection E as <- <-. rest.
  - injection E as <- <-. unfold take_unregister. case_decide; rest.
  - destruct (h_incoming h) as [|m ms]; [done|]. injection E as <- <-. unfold take_incoming, remember.
    destruct (ob_isScoreboard m); rest.
Qed.
Lemma apart_run_loop n t p timer : apart (Run_loop n t p timer).
Proof.
  revert t p timer. induction n as [|n IH]; intros t p timer; [apply apart_stuck|].
  apply all_respect_bind; [apply apart_hub_select|]. intros [|c fr b| |m|]; [|by respect..].
  apply all_respect_bind; [apply apart_gets|]. intros cs. apply apart_for_each. intros c. apply apart_modify; rest.
Qed.
Lemma apart_run n : apart (Run n).
Proof. apply all_respect_defer; [apply apart_modify; rest|apply apart_run_loop]. Qed.

(** *** A connection, once it is open *)

Definition minor {A} (p : P Hub A) : Prop := apart p ∧ no_throw p.
Lemma minor_ret {A} (a : A) : minor (mret a : P Hub A).
Proof. split; [done|by exists a]. Qed.
Lemma minor_bind {A B} (p : P Hub A) (k : A → P Hub B) : minor p → (∀ a, minor (k a)) → minor (p ≫= k).
Proof. intros [H1 H2] Hk. split; [apply all_respect_bind; [done|apply Hk]|apply no_throw_bind; [done|apply Hk]]. Qed.
Lemma minor_modify f : (∀ h, rest_same h (f h)) → minor (atomic (modify f)).
Proof. intros Hf. split; [by apply apart_modify|apply no_throw_modify]. Qed.
Lemma minor_gets {A} (f : Hub → A) : minor (atomic (gets f)).
Proof. split; [apply apart_gets|apply no_throw_gets]. Qed.
Lemma minor_fault : minor (atomic fault).
Proof. split; [apply apart_fault|apply no_throw_fault]. Qed.
Lemma minor_blocking {A} (f : Hub → option (A * Hub)) : (∀ h a h', f h = Some (a, h') → rest_same h h') → minor (blocking f).
Proof. intros Hf. split; [|apply no_throw_blocking]. apply all_respect_blocking. intros h a h' _ E. split; [done|by eapply Hf]. Qed.
Lemma hs_minor {A} (p : P Hub A) g : minor p → hs p (λ r g', g' = g ∧ ∃ a, r = Ok a) g.
Proof. intros [H1 H2]. by apply hs_apart_ok. Qed.

Lemma minor_write_all c fs : minor (write_all c fs).
Proof.
  induction fs as [|f fs IH]; [apply minor_ret|]. apply minor_bind; [|intros []; [done|apply minor_ret]]. unfold writeFrame.
  apply minor_bind; [apply minor_fault|]. intros []; [apply minor_ret|]. apply minor_bind; [apply minor_modify; rest|]. intros _. apply minor_ret.
Qed.
Lemma minor_drain c : minor (atomic (drain c)).
Proof.
  split.
  - apply all_respect_atomic. intros h _. split; [done|]. unfold drain. destruct (h_all h !! c); [rest|done].
  - apply no_throw_atomic. intros h. unfold drain. destruct (h_all h !! c); by eexists.
Qed.
Lemma minor_write_pump n c key t : minor (writePump_loop n c key t).
Proof.
  revert t. induction n as [|n IH]; intros t; [by apply minor_blocking|]. apply minor_bind.
  { apply minor_blocking. intros h ev h' E. destruct (h_all h !! c); [|done]. simpl in E.
    destruct (select_ready _ h) as [[e h1]|] eqn:Es; [|done]. apply select_ready_spec in Es as [_ [ns ->]]. simpl in E.
    destruct e; injection E as <- <-; rest. }
  intros [].
  - apply minor_ret.
  - apply minor_bind; [apply minor_drain|]. intros [fs []]; cbn [fst snd].
    + apply minor_bind; [|intros _; apply minor_modify; rest]. apply minor_modify. rest. apply same_forgiveHandshake.
    + apply minor_bind; [apply minor_write_all|]. intros []; [apply IH|apply minor_ret].
  - apply minor_bind; [apply minor_gets|]. intros now. apply minor_bind; [apply minor_fault|]. intros failed.
    apply minor_bind; [apply minor_gets|]. intros g. destruct (_ && _); [apply minor_ret|apply IH].
Qed.
Lemma minor_register c : minor (send_register c).
Proof.
  apply minor_bind; [apply minor_modify; rest|]. intros _. apply minor_blocking. intros h a h' E.
  case_decide; [destruct (h_done h); [|done]|]; by injection E as <- <-.
Qed.
Lemma minor_unregister c : minor (send_unregister c).
Proof.
  apply minor_bind; [apply minor_modify; rest|]. intros _. apply minor_blocking. intros h a h' E.
  case_decide; [destruct (h_done h); [|done]|]; by injection E as <- <-.
Qed.
Lemma minor_gone c : minor (atomic (modify (client_alter (with_gone true) c))).
Proof. apply minor_modify. rest. Qed.
Lemma minor_read_pump c : minor (go (readPump c)).
Proof.
  split; intros gs h _; exists tt, tt.
  - split_and!; [done|done|]. apply all_respect_forget, minor_gone.
  - split; [done|]. split; [by exists tt|]. apply (holds_forget (λ _ : unit, True)). eapply holds_mono; [apply minor_gone|done].
Qed.

(** The whole connection keeps its slot, and is closed at the end. *)
Lemma hs_serve n key : hs (serve n key) (λ r g, g = Some (key, None) ∧ ∃ a, r = Ok a) (Some (key, None)).
Proof.
  unfold serve. apply holds_bind. eapply holds_mono; [apply hs_minor, minor_fault|]. intros r g [-> [failed ->]].
  destruct failed; [apply holds_ret; split; [done|by eexists]|].
  apply holds_bind. eapply holds_mono; [apply hs_alloc|]. intros r g (c & -> & ->).
  apply holds_bind. eapply holds_mono; [apply hs_minor, minor_register|]. intros r g [-> [registered ->]].
  destruct registered; cbn [negb]; [|apply hs_close]. apply holds_defer.
  assert (hs (go (readPump c);; writePump n c key;; send_unregister c;; atomic (modify (jot (Closed c ""))))
    (λ r g, g = Some (key, None) ∧ ∃ a, r = Ok a) (Some (key, Some c))) as Hs.
  { apply holds_bind. eapply holds_mono; [apply hs_minor, minor_read_pump|]. intros r g [-> [? ->]].
    apply holds_bind. eapply holds_mono; [apply hs_minor; apply minor_bind; [apply minor_gets|intros t; apply minor_write_pump]|]. intros r g [-> [? ->]].
    apply holds_bind. eapply holds_mono; [apply hs_minor, minor_unregister|]. intros r g [-> [? ->]]. apply hs_close. }
  eapply holds_mono; [exact Hs|]. intros r g [-> [a ->]]. eapply holds_mono; [apply hs_minor, minor_gone|].
  intros r g [-> [? ->]]. split; [done|by eexists].
Qed.

Lemma hs_handler n key : hs (Handler n key) (λ _ g, g = None) None.
Proof.
  apply holds_bind, hs_admit.
  - intros limit. eapply holds_mono; [apply hs_apart, apart_modify; rest|]. by intros r g ->.
  - apply holds_defer. eapply holds_mono; [apply hs_serve|]. intros r g [-> _].
    eapply holds_mono; [apply hs_release|]. intros r' g ->. by destruct r'.
Qed.
Lemma hs_program p : hub_program p → hs p (λ _ g, g = None) None.
Proof.
  intros []; apply holds_forget; [apply hs_handler|..]; (eapply holds_mono; [apply hs_apart|by intros r g ->]);
    [apply apart_modify; intros h; destruct (_ <? _)%nat; by rest..
    |apply apart_modify; rest|apply apart_modify; rest].
Qed.
Lemma hs_run n : hs (forget (Run n)) (λ _ g, g = None) None.
Proof. apply holds_forget. eapply holds_mono; [apply hs_apart, apart_run|]. by intros r g ->. Qed.
End Slots.

Lemma slots_start l k h : h_admit h = newAdmissions l → h_all h = [] → slots_inv l (replicate k None) h.
Proof.
  intros E E0. split; [|by intros c x; rewrite E0]. rewrite E. assert (holders (replicate k None) = 0) as -> by (by induction k).
  assert (∀ key, holders_of key (replicate k None) = 0) as H0 by (intros; by induction k).
  split; simpl; [done|done| |lia|]; intros key; rewrite H0; [done|lia].
Qed.

(** The open connections are no more than the slots that are held. *)
Lemma opened_lookup h c : c ∈ opened h → ∃ x, h_all h !! c = Some x ∧ existsb (closes c) (h_log h) = false.
Proof.
  unfold opened. rewrite list_elem_of_In, List.filter_In. intros [_ Ho]. apply andb_true_iff in Ho as [[x Hx]%bool_decide_eq_true Hn].
  exists x. split; [done|]. by apply negb_true_iff in Hn.
Qed.
Lemma opened_NoDup h : NoDup (opened h).
Proof. apply NoDup_ListNoDup, List.NoDup_filter, NoDup_ListNoDup, NoDup_seq. Qed.
(** As many of [gs] are the slot of a connection of [cs], when each of [cs] has one. *)
Lemma slots_of_conns (gs : list slot) (key : nat → string) cs : NoDup cs → (∀ c, c ∈ cs → Some (key c, Some c) ∈ gs) →
  length cs ≤ holders gs.
Proof.
  intros Hn Hg. assert ((λ c, Some (key c, Some c)) <$> cs ⊆+ gs) as Hs.
  { apply NoDup_submseteq; [apply NoDup_fmap_2; [|done]; intros c c' E; congruence|].
    intros g (c & -> & Hc)%list_elem_of_fmap. by apply Hg. }
  apply submseteq_Permutation in Hs as [k Hk]. unfold holders. rewrite Hk, omap_app, length_app.
  etrans; [|apply Nat.le_add_r]. clear. induction cs as [|c cs IH]; [done|]. cbn. apply le_n_S, IH.
Qed.
Lemma holders_of_filter key gs : holders_of key gs = holders (filter (λ g, fst <$> g = Some key) gs).
Proof.
  induction gs as [|g gs IH]; [done|]. rewrite holders_of_cons, IH, filter_cons. unfold holds_key. case_decide as E; [|done].
  by destruct g.
Qed.
Lemma opened_bounds gs h : served gs h → length (opened h) ≤ holders gs ∧ ∀ key, length (opened_by key h) ≤ holders_of key gs.
Proof.
  intros Hv. set (key := λ c, default "" (cl_key <$> h_all h !! c)).
  assert (∀ c, c ∈ opened h → Some (key c, Some c) ∈ gs) as Ho.
  { intros c (x & Hx & Hn)%opened_lookup. unfold key. rewrite Hx. by apply Hv. }
  split; [by eapply slots_of_conns; [apply opened_NoDup|]|]. intros k. rewrite holders_of_filter.
  apply (slots_of_conns _ key); [apply NoDup_ListNoDup, List.NoDup_filter, NoDup_ListNoDup, opened_NoDup|].
  intros c (Hc & Hk%bool_decide_eq_true)%list_elem_of_In%List.filter_In. apply list_elem_of_In in Hc.
  apply list_elem_of_filter. split; [|by apply Ho]. cbn. unfold key. by rewrite Hk.
Qed.

(** C26: Under every interleaving of connections (refused, failed at the upgrade, shed, or closed by either side),
    broadcasts and shutdown: the connections that are open - accepted, and not closed yet - are at
    most as many as the live count says, overall and for each key, because each is opened
    after its slot is reserved and closed before that is released; neither count exceeds its
    cap; and once every handler has returned both are back to nothing. *)
Theorem connections_bounded l n ps ps' h h' :
  Forall hub_program ps → h_admit h = newAdmissions l → h_all h = [] → rtc pool_step (forget (Run n) :: ps, h) (ps', h') →
  (Z.of_nat (length (opened h')) ≤ ad_total (h_admit h'))%Z ∧
  (∀ key, Z.of_nat (length (opened_by key h')) ≤ at_key (ad_perKey (h_admit h')) key)%Z ∧
  ((0 < MaxConns l)%Z → (ad_total (h_admit h') ≤ MaxConns l)%Z) ∧
  (∀ key, (0 < MaxConnsPerKey l)%Z → (at_key (ad_perKey (h_admit h')) key ≤ MaxConnsPerKey l)%Z) ∧
  (Forall (λ p, p = Ret tt) ps' → ad_total (h_admit h') = 0%Z ∧ ad_perKey (h_admit h') = ∅).
Proof.
  intros Hps Hh H0 Hr.
  destruct (holds_pool (λ g : slot, g = None) (slots_inv l) (λ _ _, True) (slots_inv_perm l)
    (forget (Run n) :: ps) (replicate (S (length ps)) None) h ps' h') as (gs & Hgs & [HI Hv] & _); [|by apply slots_start|exact Hr|].
  { constructor; [apply hs_run|]. clear Hr. induction Hps; simpl; constructor; [by apply hs_program|done]. }
  pose proof HI as [Hl Ht Hp Hc Hk]. destruct (opened_bounds _ _ Hv) as [O1 O2]. split_and!.
  - rewrite Ht. lia.
  - intros key. rewrite (slots_at _ _ _ _ _ HI). specialize (O2 key). lia.
  - done.
  - intros key Hpos. rewrite (slots_at _ _ _ _ _ HI). by apply Hk.
  - intros Hend. pose proof (holds_ended _ _ _ _ _ Hgs Hend) as Hnone.
    assert (holders gs = 0 ∧ ∀ key, holders_of key gs = 0) as [H1 H2].
    { clear -Hnone. induction Hnone as [|g gs -> _ [IH1 IH2]]; [done|]. split; [done|]. intros key. by rewrite holders_of_cons, IH2. }
    split; [by rewrite Ht, H1|]. apply map_eq. intros key. by rewrite Hp, H2, lookup_empty.
Qed.

Definition one_each : Limits := {| MaxConns := 2; MaxConnsPerKey := 1; HandshakeBurst := 5; HandshakeWindow := Minute |}.
Definition three_clients : list (prog Hub unit) :=
  [forget (Run 9); forget (Handler 5 "user:1"); forget (Handler 5 "user:1"); forget (Handler 5 "user:2")].
Lemma connections_bounded_witness :
  match exec ([1; 1; 1; 1; 2; 2; 3; 3; 3; 3] ++ repeat 0 6) three_clients (SetLimits one_each (NewHub 0 [] [])) with
  | Some (_, h') => opened h' = [0; 1] ∧ Rejected "per_key" 5 ∈ h_log h' ∧
      (Z.of_nat (length (opened_by "user:1" h')) ≤ 1)%Z
  | None => False
  end.
Proof.
  assert (match exec ([1; 1; 1; 1; 2; 2; 3; 3; 3; 3] ++ repeat 0 6) three_clients (SetLimits one_each (NewHub 0 [] [])) with
    | Some (_, h') => bool_decide (opened h' = [0; 1]) &&
        existsb (λ n, match n with Rejected l r => bool_decide (l = "per_key") && (r =? 5)%Z | _ => false end) (h_log h')
    | None => false end = true) as H by (vm_compute; reflexivity).
  destruct (exec _ three_clients _) as [[ps' h']|] eqn:Ex; [|discriminate H].
  apply andb_prop in H as [H1%bool_decide_eq_true (x & Hx & Ex')%existsb_exists]. apply list_elem_of_In in Hx.
  destruct x; try discriminate Ex'. apply andb_prop in Ex' as [->%bool_decide_eq_true ->%Z.eqb_eq].
  split; [done|]. split; [done|].
  destruct (connections_bounded one_each 9 (tail three_clients) ps' (SetLimits one_each (NewHub 0 [] [])) h') as (_ & O & _ & K & _).
  - repeat constructor.
  - reflexivity.
  - reflexivity.
  - exact (exec_sound _ _ _ _ _ Ex).
  - etrans; [apply O|]. by apply (K "user:1").
Defined.

(** ** The handshake rate *)

(** What reaches the counters, one call at a time: they are only touched under the mutex. *)
Inductive op := OpAdmit (now : time) (key : string) | OpRelease (key : string) | OpForgive (key : string).
Definition op_apply (o : op) (a : admissions) : admissions :=
  match o with
  | OpAdmit now key => (admissions_admit now key a).2
  | OpRelease key => release key a
  | OpForgive key => forgiveHandshake key a
  end.
(** A handshake that the rate let pass, and that no exemption was spent on. *)
Definition passes (key : string) (o : op) (a : admissions) : option time :=
  match o with
  | OpAdmit now k =>
      if bool_decide (k = key) && negb (0 <? at_key (ad_forgive a) key)%Z &&
         negb (bool_decide ((admissions_admit now k a).1 = Some "handshake_rate"))
      then Some now else None
  | _ => None
  end.
Fixpoint passed (key : string) (ops : list op) (a : admissions) : list time :=
  match ops with
  | [] => []
  | o :: ops => option_list (passes key o a) ++ passed key ops (op_apply o a)
  end.
Definition op_time (o : op) : option time := match o with OpAdmit now _ => Some now | _ => None end.

Lemma recent_recent now now' w l : (now' ≤ now)%Z → recent now w (recent now' w l) = recent now w l.
Proof.
  intros Hle. unfold recent. induction l as [|t l IH]; [done|]. rewrite !filter_cons. case_decide as E.
  - rewrite filter_cons. by rewrite IH.
  - rewrite (decide_False (P := (now - t < w)%Z)) by lia. done.
Qed.
Lemma recent_app now w l l' : recent now w (l ++ l') = recent now w l ++ recent now w l'.
Proof. apply filter_app. Qed.

Definition hits (key : string) (a : admissions) : list time := default [] (ad_hsHits a !! key).
(** The pass history: at each pass fewer than the burst lie in the window before it. *)
Definition spaced (w : duration) (burst : Z) (P : list time) : Prop :=
  ∀ P1 s P2, P = P1 ++ s :: P2 → (Z.of_nat (length (recent s w P1)) < burst)%Z.
Record tracked (l : Limits) (key : string) (lo : time) (a : admissions) (P : list time) : Prop := {
  tk_limits : ad_limits a = l;
  tk_hits : ∀ now, (lo ≤ now)%Z → recent now (HandshakeWindow l) (hits key a) = recent now (HandshakeWindow l) P;
  tk_spaced : spaced (HandshakeWindow l) (HandshakeBurst l) P
}.

Lemma spaced_snoc w b P s : spaced w b P → (Z.of_nat (length (recent s w P)) < b)%Z → spaced w b (P ++ [s]).
Proof.
  intros HP Hs P1 s1 P2 E. destruct P2 as [|x P2 _] using rev_ind.
  - apply app_inj_tail in E as [-> ->]. done.
  - rewrite app_comm_cons, app_assoc in E. apply app_inj_tail in E as [E ->]. by eapply HP.
Qed.
Lemma spaced_window w b P t : (0 ≤ b)%Z → spaced w b P →
  (Z.of_nat (length (filter (λ s, t ≤ s ∧ s < t + w)%Z P)) ≤ b)%Z.
Proof.
  intros Hb. induction P as [|s P IH] using rev_ind; intros HP; [done|].
  assert (spaced w b P) as HP'.
  { intros P1 s1 P2 ->. eapply (HP P1 s1 (P2 ++ [s])). by rewrite <- app_assoc. }
  rewrite filter_app, filter_cons, filter_nil. case_decide as Hs; [|rewrite app_nil_r; auto].
  specialize (HP P s [] eq_refl). rewrite length_app. simpl.
  assert (length (filter (λ u, t ≤ u ∧ u < t + w)%Z P) ≤ length (recent s w P)); [|lia].
  clear -Hs. unfold recent. induction P as [|u P IH]; [done|]. rewrite !filter_cons.
  repeat case_decide; simpl; lia.
Qed.

Lemma rate_spec now key a : (0 < HandshakeBurst (ad_limits a))%Z →
  hits key (rate now key a).2 = recent now (HandshakeWindow (ad_limits a)) (hits key a) ++ (if (rate now key a).1 then [] else [now]) ∧
  ((rate now key a).1 = false → (Z.of_nat (length (recent now (HandshakeWindow (ad_limits a)) (hits key a))) < HandshakeBurst (ad_limits a))%Z) ∧
  (∀ k, k ≠ key → hits k (rate now key a).2 = hits k a).
Proof.
  intros Hb. unfold rate, hits. rewrite (proj2 (Z.ltb_lt _ _) Hb).
  destruct (Z.leb_spec (HandshakeBurst (ad_limits a)) (Z.of_nat (length (recent now (HandshakeWindow (ad_limits a)) (default [] (ad_hsHits a !! key))))));
    cbn [fst snd with_hits ad_hsHits]; rewrite lookup_insert_eq; cbn [default]; rewrite ?app_nil_r;
    (split_and!; [done|done|intros k Hk; by rewrite lookup_insert_ne]).
Qed.

(** An admission is its rate, then counts that the rate does not read. *)
Lemma admit_rate now key a : (0 <? at_key (ad_forgive a) key)%Z = false →
  ((admissions_admit now key a).1 = Some "handshake_rate" ↔ (rate now key a).1 = true) ∧
  (∀ k, hits k (admissions_admit now key a).2 = hits k (rate now key a).2) ∧ ad_limits (admissions_admit now key a).2 = ad_limits a.
Proof.
  intros Hf. unfold admissions_admit. rewrite Hf. destruct (same_rate now key a) as [El _].
  destruct (rate now key a) as [[] a2]; cbn [fst snd] in *; [split_and!; done|].
  destruct (_ && _); [by split_and!|]. destruct (_ && _); by split_and!.
Qed.
Lemma admit_forgiven now key a : (0 <? at_key (ad_forgive a) key)%Z = true →
  (∀ k, hits k (admissions_admit now key a).2 = hits k a) ∧ ad_limits (admissions_admit now key a).2 = ad_limits a.
Proof. intros Hf. unfold admissions_admit. rewrite Hf. cbn iota beta. destruct (_ && _); [done|]. by destruct (_ && _). Qed.

Lemma tracked_step l key lo a P o : (0 < HandshakeBurst l)%Z →
  (∀ now, op_time o = Some now → (lo ≤ now)%Z) → tracked l key lo a P →
  tracked l key (default lo (op_time o)) (op_apply o a) (P ++ option_list (passes key o a)).
Proof.
  intros Hb Ht [Hl Hh Hs].
  assert (∀ a', ad_limits a' = l → hits key a' = hits key a → tracked l key lo a' (P ++ [])) as Hsame.
  { intros a' E1 E2. rewrite app_nil_r. split; [done| |done]. by rewrite E2. }
  destruct o as [now k|k|k]; simpl.
  - specialize (Ht now eq_refl). destruct (0 <? at_key (ad_forgive a) k)%Z eqn:Ef.
    { destruct (admit_forgiven now k a Ef) as [E1 E2].
      assert (passes key (OpAdmit now k) a = None) as Ep.
      { unfold passes. destruct (bool_decide_reflect (k = key)) as [<-|]; [|done]. by rewrite Ef. }
      unfold passes in Ep. rewrite Ep. destruct (Hsame (admissions_admit now k a).2) as [S1 S2 S3]; [by rewrite E2|done|].
      split; [done| |done]. intros now' Hle. apply S2. lia. }
    destruct (admit_rate now k a Ef) as (E1 & E2 & E3).
    assert (0 < HandshakeBurst (ad_limits a))%Z as Hb' by (by rewrite Hl).
    destruct (rate_spec now k a Hb') as (R1 & R2 & R3). rewrite Hl in *.
    destruct (bool_decide_reflect (k = key)) as [->|Hne]; simpl.
    2:{ destruct (Hsame (admissions_admit now k a).2) as [S1 S2 S3]; [done|by rewrite E2, R3|].
        split; [done| |done]. intros now' Hle. apply S2. lia. }
    rewrite Ef. simpl. destruct (bool_decide_reflect ((admissions_admit now key a).1 = Some "handshake_rate")) as [Hd|Hd]; simpl.
    + apply E1 in Hd. rewrite Hd, app_nil_r in R1. rewrite app_nil_r. split; [done| |done]. intros now' Hle.
      rewrite E2, R1, recent_recent by done. apply Hh. lia.
    + rewrite E1 in Hd. apply not_true_iff_false in Hd. specialize (R2 Hd). rewrite Hd in R1. split; [done| |].
      * intros now' Hle. rewrite E2, R1, !recent_app, recent_recent by done. f_equal. apply Hh. lia.
      * apply spaced_snoc; [done|]. by rewrite <- Hh.
  - by apply Hsame.
  - apply Hsame; [|]; unfold forgiveHandshake; by destruct (_ <? _)%Z.
Qed.

Lemma tracked_run l key ops : ∀ lo a P, (0 < HandshakeBurst l)%Z → StronglySorted Z.le (omap op_time ops) →
  Forall (λ now, lo ≤ now)%Z (omap op_time ops) → tracked l key lo a P →
  spaced (HandshakeWindow l) (HandshakeBurst l) (P ++ passed key ops a).
Proof.
  induction ops as [|o ops IH]; intros lo a P Hb Hs Hlo Ha; [rewrite app_nil_r; apply Ha|].
  cbn [passed]. rewrite app_assoc.
  assert (∀ now, op_time o = Some now → (lo ≤ now)%Z ∧ Forall (λ now', now ≤ now')%Z (omap op_time ops)) as Ho.
  { intros now E. change (omap op_time (o :: ops)) with (match op_time o with Some y => y :: omap op_time ops | None => omap op_time ops end) in Hs, Hlo.
    rewrite E in Hs, Hlo. inversion Hs. inversion Hlo. done. }
  assert (StronglySorted Z.le (omap op_time ops)) as Hs'.
  { change (omap op_time (o :: ops)) with (match op_time o with Some y => y :: omap op_time ops | None => omap op_time ops end) in Hs.
    destruct (op_time o); [by inversion Hs|done]. }
  apply (IH (default lo (op_time o))); [done|done| |by apply tracked_step; [|intros now E; apply Ho|]].
  destruct (op_time o) as [now|] eqn:E; [by apply Ho|].
  change (omap op_time (o :: ops)) with (match op_time o with Some y => y :: omap op_time ops | None => omap op_time ops end) in Hlo.
  by rewrite E in Hlo.
Qed.

(** Whatever admissions, releases and exemptions reach the counters, in any window as long as the limit's
    at most the burst of a key's handshakes pass the rate, not counting those that an
    exemption, given for a connection the server shed, let through. *)
Theorem handshake_rate l ops key t :
  (0 < HandshakeBurst l)%Z → StronglySorted Z.le (omap op_time ops) →
  (Z.of_nat (length (filter (λ s, t ≤ s ∧ s < t + HandshakeWindow l)%Z (passed key ops (newAdmissions l)))) ≤ HandshakeBurst l)%Z.
Proof.
  intros Hb Hs. apply spaced_window; [lia|].
  assert (∃ lo, Forall (λ now, lo ≤ now)%Z (omap op_time ops)) as [lo Hlo].
  { clear -Hs. destruct Hs as [|x xs _ Hx]; [by exists 0%Z|]. exists x. by constructor. }
  apply (tracked_run l key ops lo (newAdmissions l) []); [done..|]. split; [done|done|].
  intros P1 s P2 E. by destruct P1.
Qed.
Definition burst_of_two : Limits := {| MaxConns := 0; MaxConnsPerKey := 0; HandshakeBurst := 2; HandshakeWindow := 10 |}.
Definition some_ops : list op :=
  [OpAdmit 0 "k"; OpAdmit 3 "k"; OpAdmit 4 "k"; OpForgive "k"; OpAdmit 5 "k"; OpRelease "k"; OpAdmit 11 "k"; OpAdmit 12 "k"].
Lemma handshake_rate_witness :
  passed "k" some_ops (newAdmissions burst_of_two) = [0; 3; 11]%Z ∧
  (Z.of_nat (length (filter (λ s, 3 ≤ s ∧ s < 3 + 10)%Z (passed "k" some_ops (newAdmissions burst_of_two)))) ≤ 2)%Z.
Proof.
  split; [vm_compute; reflexivity|]. refine (handshake_rate burst_of_two some_ops "k" 3 _ _); [done|].
  repeat constructor; lia.
Defined.
