(* ===== verification/Challenges.v ===== *)
(** * Challenge authoring ([internal/challenges], [internal/handlers/admin_challenges.go])

    The type registry, validation, create, update and delete, with the constraints of the
    challenges table. *)

From Stdlib Require Import Ascii.
From S2P Require Import Prelude Interleave Text Env Store Events Users Runtime Tokens Accounts.

(** ** [typeregistry.go] *)

(** A validation's answer; an author's config is replaced by a non-empty normal form. *)
Record ConfigValidation := {
  cv_OK : bool; cv_FieldErrors : gmap string string; cv_Normalized : gmap string string
}.
(** What asking a type to validate a config answers: a plugin is reached in the world. *)
Definition ChallengeType : Type := gmap string string → World → res ConfigValidation.
Definition builtinType : ChallengeType :=
  λ _ _, Ok {| cv_OK := true; cv_FieldErrors := ∅; cv_Normalized := ∅ |}.

Record ctEntry := { ct_ct : ChallengeType; ct_protected : bool }.
Record TypeRegistry := { tr_m : gmap string ctEntry; tr_base : gmap string ctEntry }.
Definition NewTypeRegistry (builtins : list (string * ChallengeType)) : TypeRegistry :=
  let m := foldl (λ m p, <[p.1 := {| ct_ct := p.2; ct_protected := true |}]> m) ∅ builtins in
  {| tr_m := m; tr_base := m |}.
Definition defaultTypeRegistry : TypeRegistry :=
  NewTypeRegistry [("standard", builtinType); ("container", builtinType)].
Definition type_Deregister (id : string) (r : TypeRegistry) : TypeRegistry :=
  match tr_m r !! id with
  | None => r
  | Some _ =>
      let next := delete id (tr_m r) in
      {| tr_m := match tr_base r !! id with Some b => <[id := b]> next | None => next end;
         tr_base := tr_base r |}
  end.
Definition type_Get (id : string) (r : TypeRegistry) : option ChallengeType := ct_ct <$> tr_m r !! id.
Definition type_IsRegistered (id : string) (r : TypeRegistry) : bool := is_Some_b (tr_m r !! id).
Definition type_Register (id : string) (ct : ChallengeType) (override : bool) (r : TypeRegistry)
    : res unit * TypeRegistry :=
  let put p := {| tr_m := <[id := {| ct_ct := ct; ct_protected := p |}]> (tr_m r); tr_base := tr_base r |} in
  match tr_m r !! id with
  | Some e => if ct_protected e && negb override
              then (Err (ErrOther "challenges: type is a protected built-in"), r) else (Ok tt, put (ct_protected e))
  | None => (Ok tt, put false)
  end.

(** ** [service.go] *)

Definition slug_char (c : ascii) : bool :=
  let n := nat_of_ascii c in ((48 <=? n) && (n <=? 57) || (97 <=? n) && (n <=? 122))%nat.
(** [^[a-z0-9]+(-[a-z0-9]+)*$]: non-empty words of such characters between single hyphens. *)
Definition slugRe (s : string) : bool :=
  forallb (λ w, negb (bool_decide (w = [])) && forallb slug_char w) (split_on "-" (to_bytes s)).
Definition validCats : list string := ["web"; "pwn"; "crypto"; "rev"; "forensics"; "misc"].
Definition validDiffs : list string := ["intro"; "easy"; "medium"; "hard"; "insane"].

(** Runs of other characters become one hyphen; [open] when the last one written is it. *)
Fixpoint hyphenate (open : bool) (l : list ascii) : list ascii :=
  match l with
  | [] => []
  | c :: l => if slug_char c then c :: hyphenate false l
              else if open then hyphenate true l else "-"%char :: hyphenate true l
  end.
Fixpoint drop_hyphens (l : list ascii) : list ascii :=
  match l with
  | c :: l' => if Ascii.eqb c "-" then drop_hyphens l' else l
  | [] => []
  end.
Definition trim_hyphens (l : list ascii) : list ascii := rev (drop_hyphens (rev (drop_hyphens l))).
Definition slugify `{Libs} (title : string) : string :=
  of_bytes (trim_hyphens (hyphenate false (to_bytes (ToLower (TrimSpace title))))).

(** ** [admin.go]: the inputs *)

Record CreateInput := {
  ci_Slug : option string; ci_Title : string; ci_Category : string; ci_Description : string;
  ci_Difficulty : option string; ci_Kind : string; ci_Type : string; ci_TypeConfig : gmap string string;
  ci_Flag : string; ci_FlagCaseInsensitive : bool; ci_Scoring : string; ci_PointsInitial : Z;
  ci_PointsMin : option Z; ci_Decay : option Z; ci_MaxAttempts : option Z; ci_Visible : bool;
  ci_Image : option string; ci_InternalPort : option Z; ci_MemLimitMB : option Z; ci_CPUMillis : option Z;
  ci_ContainerEnv : gmap string string; ci_ConnectionTemplate : option string;
  ci_Instancing : string; ci_FlagMode : string; ci_InstanceTTLSeconds : option Z;
  ci_Egress : option bool; ci_WritablePaths : list string
}.
(** [None] leaves a field as it is; the [Set] flags tell clearing from leaving. *)
Record UpdateInput := {
  ui_Slug : option string; ui_Title : option string; ui_Category : option string;
  ui_Description : option string; ui_SetDifficulty : bool; ui_Difficulty : option string;
  ui_Flag : option string; ui_FlagCaseInsensitive : option bool; ui_Scoring : option string;
  ui_Type : option string; ui_TypeConfig : option (gmap string string);
  ui_PointsInitial : option Z; ui_SetPointsMin : bool; ui_PointsMin : option Z;
  ui_SetDecay : bool; ui_Decay : option Z; ui_SetMaxAttempts : bool; ui_MaxAttempts : option Z;
  ui_Visible : option bool; ui_SetImage : bool; ui_Image : option string;
  ui_SetInternalPort : bool; ui_InternalPort : option Z; ui_MemLimitMB : option Z; ui_CPUMillis : option Z;
  ui_ContainerEnv : option (gmap string string); ui_SetConnectionTmpl : bool;
  ui_ConnectionTemplate : option string; ui_Instancing : option string; ui_FlagMode : option string;
  ui_SetInstanceTTL : bool; ui_InstanceTTLSeconds : option Z; ui_Egress : option bool;
  ui_WritablePaths : option (list string)
}.

Definition clampI32 (v : Z) : Z :=
  if (2147483647 <? v)%Z then 2147483647 else if (v <? -2147483648)%Z then -2147483648 else v.
Definition i32p (p : option Z) : option Z := clampI32 <$> p.
(** The empty string stands for a field that was not sent. *)
Definition or_default (s d : string) : string := if bool_decide (s = "") then d else s.
Definition with_defaults (i : CreateInput) : CreateInput :=
  {| ci_Slug := ci_Slug i; ci_Title := ci_Title i; ci_Category := ci_Category i; ci_Description := ci_Description i;
     ci_Difficulty := ci_Difficulty i; ci_Kind := or_default (ci_Kind i) "standard";
     ci_Type := or_default (ci_Type i) "standard"; ci_TypeConfig := ci_TypeConfig i; ci_Flag := ci_Flag i;
     ci_FlagCaseInsensitive := ci_FlagCaseInsensitive i; ci_Scoring := or_default (ci_Scoring i) "dynamic";
     ci_PointsInitial := ci_PointsInitial i; ci_PointsMin := ci_PointsMin i; ci_Decay := ci_Decay i;
     ci_MaxAttempts := ci_MaxAttempts i; ci_Visible := ci_Visible i; ci_Image := ci_Image i;
     ci_InternalPort := ci_InternalPort i; ci_MemLimitMB := ci_MemLimitMB i; ci_CPUMillis := ci_CPUMillis i;
     ci_ContainerEnv := ci_ContainerEnv i; ci_ConnectionTemplate := ci_ConnectionTemplate i;
     ci_Instancing := or_default (ci_Instancing i) "shared"; ci_FlagMode := or_default (ci_FlagMode i) "static";
     ci_InstanceTTLSeconds := ci_InstanceTTLSeconds i; ci_Egress := ci_Egress i;
     ci_WritablePaths := ci_WritablePaths i |}.

(** ** [validate.go] *)

Abbreviation fields := (gmap string (list string)).
Definition outside (lo hi : Z) (o : option Z) : bool :=
  match o with Some n => (n <? lo)%Z || (hi <? n)%Z | None => false end.
Definition missing_or (bad : Z → bool) (o : option Z) : bool :=
  match o with Some n => bad n | None => true end.
Definition no_text (o : option string) : bool :=
  match o with Some s => bool_decide (s = "") | None => true end.

Definition validateContainerLimits (mem cpu : option Z) (v : fields) : fields :=
  let v := add_if (outside 16 8192 mem) "mem_limit_mb" "must be between 16 and 8192" v in
  add_if (outside 100 8000 cpu) "cpu_millis" "must be between 100 and 8000" v.

Definition not_one_of (s a b : string) : bool :=
  negb (bool_decide (s = "")) && negb (bool_decide (s = a)) && negb (bool_decide (s = b)).
Definition validateInstancing (kind instancing flagMode : string) (ttl : option Z) (egress : option bool)
    (hasWritable : bool) (v : fields) : fields :=
  let v := add_if (not_one_of instancing "shared" "per_team") "instancing" "must be 'shared' or 'per_team'" v in
  let v := add_if (not_one_of flagMode "static" "per_instance") "flag_mode" "must be 'static' or 'per_instance'" v in
  let v := add_if (match ttl with Some t => t <? 0 | None => false end)%Z "instance_ttl_seconds" "must be >= 0" v in
  if bool_decide (kind = "container") then v else
  let v := add_if (bool_decide (instancing = "per_team")) "instancing" "per_team requires a container challenge" v in
  let v := add_if (bool_decide (flagMode = "per_instance")) "flag_mode" "per_instance requires a container challenge" v in
  let v := add_if (is_Some_b ttl) "instance_ttl_seconds" "only applies to container challenges" v in
  let v := add_if (bool_decide (egress = Some false)) "egress" "egress control only applies to container challenges" v in
  add_if hasWritable "writable_paths" "only apply to container challenges" v.

Section Validate.
(** Which types and scoring modes are registered. *)
Context (IsRegisteredType IsRegisteredMode : string → bool).

Definition check_dynamic (scoring : string) (min decay : option Z) (initial : Z) (v : fields) : fields :=
  if bool_decide (scoring = "dynamic") then
    let v := if missing_or (λ m, m <? 1)%Z min then Add "points_min" "is required and positive for dynamic scoring" v
             else add_if (missing_or (λ m, initial <? m)%Z min) "points_min" "cannot exceed points_initial" v in
    add_if (missing_or (λ d, d <? 1)%Z decay) "decay" "is required and positive for dynamic scoring" v
  else v.

Definition check_container (i : CreateInput) (v : fields) : fields :=
  if bool_decide (ci_Kind i = "container") then
    let v := add_if (no_text (ci_Image i)) "image" "is required for container challenges" v in
    add_if (missing_or (λ p, (p <? 1) || (65535 <? p))%Z (ci_InternalPort i)) "internal_port"
      "is required for container challenges (1-65535)" v
  else v.

Definition validateCreate (i : CreateInput) (slug : string) : fields :=
  let v := NewValidation in
  let v := add_if (negb (slugRe slug)) "slug" "must be lowercase alphanumeric words separated by single hyphens" v in
  let v := add_if (bad_length 1 200 (ci_Title i)) "title" "must be between 1 and 200 characters" v in
  let v := add_if (negb (bool_decide (ci_Category i ∈ validCats))) "category"
             "must be one of web, pwn, crypto, rev, forensics, misc" v in
  let v := add_if (match ci_Difficulty i with Some d => negb (bool_decide (d ∈ validDiffs)) | None => false end)
             "difficulty" "must be one of intro, easy, medium, hard, insane" v in
  let v := add_if (negb (bool_decide (ci_Kind i = "standard")) && negb (bool_decide (ci_Kind i = "container")))
             "kind" "must be 'standard' or 'container'" v in
  let v := add_if (negb (IsRegisteredType (ci_Type i))) "type" "unknown challenge type: no such type is registered" v in
  let v := add_if (String.length (ci_Flag i) <? 1)%nat "flag" "is required" v in
  let v := add_if (negb (IsRegisteredMode (ci_Scoring i))) "scoring" "unknown scoring mode: no such mode is registered" v in
  let v := add_if (ci_PointsInitial i <? 1)%Z "points_initial" "must be a positive integer" v in
  let v := check_dynamic (ci_Scoring i) (ci_PointsMin i) (ci_Decay i) (ci_PointsInitial i) v in
  let v := check_container i v in
  let v := validateContainerLimits (ci_MemLimitMB i) (ci_CPUMillis i) v in
  let v := add_if (match ci_MaxAttempts i with Some n => n <? 1 | None => false end)%Z "max_attempts" "must be positive when set" v in
  validateInstancing (ci_Kind i) (ci_Instancing i) (ci_FlagMode i) (ci_InstanceTTLSeconds i) (ci_Egress i)
    (negb (bool_decide (ci_WritablePaths i = []))) v.

(** A container challenge keeps an image and a port. *)
Definition check_kept (cur : Challenge) (i : UpdateInput) (v : fields) : fields :=
  if bool_decide (c_Kind cur = "container") then
    let image := if ui_SetImage i then ui_Image i else c_Image cur in
    let port := if ui_SetInternalPort i then i32p (ui_InternalPort i) else c_InternalPort cur in
    let v := add_if (no_text image) "image" "a container challenge must keep an image" v in
    add_if (negb (is_Some_b port)) "internal_port" "a container challenge must keep an internal port" v
  else v.

(** The row that would result, field by field. *)
Definition validateUpdate (cur : Challenge) (i : UpdateInput) : fields :=
  let v := NewValidation in
  let v := add_if (match ui_Type i with Some t => negb (IsRegisteredType t) | None => false end)
             "type" "unknown challenge type: no such type is registered" v in
  let scoring := default (c_Scoring cur) (ui_Scoring i) in
  let v := add_if (is_Some_b (ui_Scoring i) && negb (IsRegisteredMode scoring)) "scoring"
             "unknown scoring mode: no such mode is registered" v in
  let initial := default (c_PointsInitial cur) (ui_PointsInitial i) in
  let v := add_if (is_Some_b (ui_PointsInitial i) && (initial <? 1)%Z) "points_initial" "must be a positive integer" v in
  let min := default 0%Z (if ui_SetPointsMin i then ui_PointsMin i else c_PointsMin cur) in
  let decay := default 0%Z (if ui_SetDecay i then ui_Decay i else c_Decay cur) in
  let v := check_dynamic scoring (Some min) (Some decay) initial v in
  let v := add_if (match ui_Slug i with Some s => negb (slugRe s) | None => false end) "slug"
             "must be lowercase alphanumeric words separated by single hyphens" v in
  let v := add_if (match ui_Category i with Some s => negb (bool_decide (s ∈ validCats)) | None => false end) "category"
             "must be one of web, pwn, crypto, rev, forensics, misc" v in
  let v := add_if (ui_SetDifficulty i && match ui_Difficulty i with Some d => negb (bool_decide (d ∈ validDiffs)) | None => false end)
             "difficulty" "must be one of intro, easy, medium, hard, insane" v in
  let v := add_if (match ui_Title i with Some t => bad_length 1 200 t | None => false end) "title"
             "must be between 1 and 200 characters" v in
  let v := add_if (match ui_Flag i with Some f => (String.length f <? 1)%nat | None => false end) "flag" "cannot be empty" v in
  let v := check_kept cur i v in
  let v := validateContainerLimits (ui_MemLimitMB i) (ui_CPUMillis i) v in
  validateInstancing (c_Kind cur) (default (c_Instancing cur) (ui_Instancing i)) (default (c_FlagMode cur) (ui_FlagMode i))
    (if ui_SetInstanceTTL i then ui_InstanceTTLSeconds i else c_InstanceTtlSeconds cur)
    (Some (default (c_Egress cur) (ui_Egress i)))
    (match ui_WritablePaths i with Some ps => negb (bool_decide (ps = [])) | None => false end) v.
End Validate.

(** ** [db/gen/challenges.sql.go], on the constraints of the migrations *)

Definition challenge_checks (c : Challenge) : list (bool * error) :=
  [ checked (negb (bool_decide (c_Category c ∈ validCats))) "challenges_category_check";
    checked (match c_Difficulty c with Some d => negb (bool_decide (d ∈ validDiffs)) | None => false end)
      "challenges_difficulty_check";
    checked (negb (bool_decide (c_Kind c ∈ ["standard"; "container"]))) "challenges_kind_check";
    checked (c_PointsInitial c <=? 0)%Z "challenges_points_initial_check";
    checked (match c_MaxAttempts c with Some n => n <=? 0 | None => false end)%Z "challenges_max_attempts_check";
    checked (outside 1 65535 (c_InternalPort c)) "challenges_internal_port_check";
    checked (outside 16 8192 (Some (c_MemLimitMb c))) "challenges_mem_limit_mb_check";
    checked (outside 100 8000 (Some (c_CpuMillis c))) "challenges_cpu_millis_check";
    checked (bool_decide (c_Scoring c = "dynamic") &&
             (missing_or (λ m, (m <=? 0) || (c_PointsInitial c <? m))%Z (c_PointsMin c) ||
              missing_or (λ d, d <=? 0)%Z (c_Decay c))) "chk_challenges_dynamic_fields";
    checked (bool_decide (c_Kind c = "container") &&
             (negb (is_Some_b (c_Image c)) || negb (is_Some_b (c_InternalPort c)))) "chk_challenges_container_fields";
    checked (negb (bool_decide (c_Instancing c ∈ ["shared"; "per_team"]))) "challenges_instancing_check";
    checked (negb (bool_decide (c_FlagMode c ∈ ["static"; "per_instance"]))) "challenges_flag_mode_check";
    checked (match c_InstanceTtlSeconds c with Some t => t <? 0 | None => false end)%Z "challenges_instance_ttl_seconds_check";
    checked (negb (bool_decide (c_Kind c = "container")) &&
             (negb (bool_decide (c_Instancing c = "shared")) || negb (bool_decide (c_FlagMode c = "static")) ||
              is_Some_b (c_InstanceTtlSeconds c) || negb (c_Egress c) || negb (bool_decide (c_WritablePaths c = []))))
      "chk_challenges_instancing_kind" ].
Definition slug_taken (d : DB) (id : uuid) (slug : string) : bool :=
  existsb (λ c, negb (bool_decide (c_ID c = id)) && bool_decide (c_Slug c = slug)) (chal_rows d).

Definition CreateChallenge (row : time → Challenge) : M World Challenge :=
  query (λ now d,
    let r := row now in
    guarded (challenge_checks r ++
             [ unique (is_Some_b (challenges d !! c_ID r)) "challenges_pkey";
               unique (slug_taken d (c_ID r) (c_Slug r)) "uq_challenges_slug" ])
      (Ok r, set_challenges (<[c_ID r := r]> (challenges d)) d) d).
Definition UpdateChallenge (id : uuid) (change : time → Challenge → Challenge) : M World Challenge :=
  query (λ now d,
    match challenges d !! id with
    | None => (Err ErrNoRows, d)
    | Some c =>
        let r := change now c in
        guarded (challenge_checks r ++ [ unique (slug_taken d id (c_Slug r)) "uq_challenges_slug" ])
          (Ok r, set_challenges (<[id := r]> (challenges d)) d) d
    end).
(** Instances and submissions of the challenge go with it. *)
Definition DeleteChallenge (id : uuid) : M World unit :=
  query (λ _ d,
    (Ok tt, set_instances (filter (λ p, i_ChallengeID p.2 ≠ id) (instances d))
              (set_submissions (filter (λ s, s_ChallengeID s ≠ id) (submissions d))
                 (set_attachments (filter (λ p, at_ChallengeID p.2 ≠ id) (attachments d))
                    (set_challenges (delete id (challenges d)) d))))).

Definition attachment_rows (d : DB) : list ChallengeAttachment := (map_to_list (attachments d)).*2.
Definition CreateAttachment (id challenge : uuid) (filename : string) (size : Z) (content_type key : string)
    : M World ChallengeAttachment :=
  query (λ now d,
    let r := {| at_ID := id; at_ChallengeID := challenge; at_Filename := filename; at_SizeBytes := size;
                at_ContentType := content_type; at_ObjectKey := key; at_CreatedAt := now |} in
    guarded [ checked (size <? 0)%Z "challenge_attachments_size_bytes_check";
              unique (is_Some_b (attachments d !! id)) "challenge_attachments_pkey";
              unique (existsb (λ a, bool_decide (at_ChallengeID a = challenge) && bool_decide (at_Filename a = filename))
                        (attachment_rows d)) "uq_attachments_challenge_filename";
              foreign (negb (is_Some_b (challenges d !! challenge))) "challenge_attachments_challenge_id_fkey" ]
      (Ok r, set_attachments (<[id := r]> (attachments d)) d) d).
Definition GetAttachment (id challenge : uuid) : M World ChallengeAttachment :=
  select (λ d, one (a ← attachments d !! id; if decide (at_ChallengeID a = challenge) then Some a else None)).
Definition DeleteAttachment_row (id : uuid) : M World unit :=
  query (λ _ d, (Ok tt, set_attachments (delete id (attachments d)) d)).
(** In order of filename; the order among equal keys is left open by the statement. *)
Definition ListAttachments (challenge : uuid) : M World (list ChallengeAttachment) :=
  select (λ d, Ok (List.filter (λ a, bool_decide (at_ChallengeID a = challenge)) (attachment_rows d))).

(** ** [admin.go]: the operations *)

Section Service.
Context {L : Libs}.

Definition create_row (i : CreateInput) (id : uuid) (slug : string) (config : gmap string string) (now : time) : Challenge :=
  {| c_ID := id; c_Slug := slug; c_Title := ci_Title i; c_Category := ci_Category i; c_Description := ci_Description i;
     c_Difficulty := ci_Difficulty i; c_Kind := ci_Kind i; c_Flag := ci_Flag i;
     c_FlagCaseInsensitive := ci_FlagCaseInsensitive i; c_Scoring := ci_Scoring i;
     c_PointsInitial := clampI32 (ci_PointsInitial i); c_PointsMin := i32p (ci_PointsMin i); c_Decay := i32p (ci_Decay i);
     c_MaxAttempts := i32p (ci_MaxAttempts i); c_Visible := ci_Visible i; c_Image := ci_Image i;
     c_InternalPort := i32p (ci_InternalPort i);
     c_MemLimitMb := default 256%Z (i32p (ci_MemLimitMB i)); c_CpuMillis := default 500%Z (i32p (ci_CPUMillis i));
     c_ContainerEnv := ci_ContainerEnv i; c_ConnectionTemplate := ci_ConnectionTemplate i;
     c_CreatedAt := now; c_UpdatedAt := now; c_Instancing := ci_Instancing i; c_FlagMode := ci_FlagMode i;
     c_InstanceTtlSeconds := i32p (ci_InstanceTTLSeconds i); c_Egress := default true (ci_Egress i);
     c_WritablePaths := ci_WritablePaths i; c_Type := ci_Type i; c_TypeConfig := config |}.
Definition update_row (i : UpdateInput) (config : option (gmap string string)) (now : time) (c : Challenge) : Challenge :=
  {| c_ID := c_ID c; c_Slug := default (c_Slug c) (ui_Slug i); c_Title := default (c_Title c) (ui_Title i);
     c_Category := default (c_Category c) (ui_Category i); c_Description := default (c_Description c) (ui_Description i);
     c_Difficulty := if ui_SetDifficulty i then ui_Difficulty i else c_Difficulty c; c_Kind := c_Kind c;
     c_Flag := default (c_Flag c) (ui_Flag i);
     c_FlagCaseInsensitive := default (c_FlagCaseInsensitive c) (ui_FlagCaseInsensitive i);
     c_Scoring := default (c_Scoring c) (ui_Scoring i);
     c_PointsInitial := default (c_PointsInitial c) (i32p (ui_PointsInitial i));
     c_PointsMin := if ui_SetPointsMin i then i32p (ui_PointsMin i) else c_PointsMin c;
     c_Decay := if ui_SetDecay i then i32p (ui_Decay i) else c_Decay c;
     c_MaxAttempts := if ui_SetMaxAttempts i then i32p (ui_MaxAttempts i) else c_MaxAttempts c;
     c_Visible := default (c_Visible c) (ui_Visible i);
     c_Image := if ui_SetImage i then ui_Image i else c_Image c;
     c_InternalPort := if ui_SetInternalPort i then i32p (ui_InternalPort i) else c_InternalPort c;
     c_MemLimitMb := default (c_MemLimitMb c) (i32p (ui_MemLimitMB i));
     c_CpuMillis := default (c_CpuMillis c) (i32p (ui_CPUMillis i));
     c_ContainerEnv := default (c_ContainerEnv c) (ui_ContainerEnv i);
     c_ConnectionTemplate := if ui_SetConnectionTmpl i then ui_ConnectionTemplate i else c_ConnectionTemplate c;
     c_CreatedAt := c_CreatedAt c; c_UpdatedAt := now;
     c_Instancing := default (c_Instancing c) (ui_Instancing i); c_FlagMode := default (c_FlagMode c) (ui_FlagMode i);
     c_InstanceTtlSeconds := if ui_SetInstanceTTL i then i32p (ui_InstanceTTLSeconds i) else c_InstanceTtlSeconds c;
     c_Egress := default (c_Egress c) (ui_Egress i); c_WritablePaths := default (c_WritablePaths c) (ui_WritablePaths i);
     c_Type := default (c_Type c) (ui_Type i); c_TypeConfig := default (c_TypeConfig c) config |}.

Definition mapConflict (e : error) : error :=
  if is_unique e then Conflict "a challenge with that slug already exists" else e.

Definition type_down (id : string) : error := Unavailable ("challenge type " +:+ id +:+ " is temporarily unavailable; try again") 0.
Definition type_missing (id : string) : error := Unavailable ("challenge type " +:+ id +:+ " is not available") 0.
(** [types] is the registry as this call finds it. *)
Definition validateTypeConfig (types : TypeRegistry) (id : string) (cfg : gmap string string)
    : P World (gmap string string) :=
  match type_Get id types with
  | None => throw (type_missing id)
  | Some ct =>
      r ← try (atomic (λ w, (ct cfg w, w)));
      match r with
      | Err _ => throw (type_down id)
      | Ok v =>
          if negb (cv_OK v) then
            let errs := foldl (λ e p, Add ("type_config." +:+ p.1) p.2 e) NewValidation (map_to_list (cv_FieldErrors v)) in
            throw (Validation (if decide (errs = ∅) then Add "type_config" "rejected by the challenge type" errs else errs))
          else mret (if decide (cv_Normalized v = ∅) then cfg else cv_Normalized v)
      end
  end.

(** The registries as the validation finds them, and the types as the config check does. *)
Context (types types' : TypeRegistry) (IsRegisteredMode : string → bool).
Abbreviation IsRegisteredType := (λ id, type_IsRegistered id types).

Definition chal_Create (i : CreateInput) : P World Challenge :=
  let i := with_defaults i in
  let slug := match ci_Slug i with Some s => s | None => slugify (ci_Title i) end in
  OrNil (validateCreate IsRegisteredType IsRegisteredMode i slug);;
  config ← validateTypeConfig types' (ci_Type i) (ci_TypeConfig i);
  id ← map_err (Wrap "challenges: generating id") (atomic NewV7);
  map_err mapConflict (atomic (CreateChallenge (create_row i id slug config))).

Definition chal_Update (id : uuid) (i : UpdateInput) : P World Challenge :=
  cur ← map_err (no_rows_as ErrNotFound "challenges: get for update") (atomic (GetChallengeByID id));
  OrNil (validateUpdate IsRegisteredType IsRegisteredMode cur i);;
  config ← match ui_TypeConfig i with
           | None => mret None
           | Some cfg => c ← validateTypeConfig types' (default (c_Type cur) (ui_Type i)) cfg; mret (Some c)
           end;
  map_err mapConflict (atomic (UpdateChallenge id (update_row i config))).

Definition chal_Delete (id : uuid) (eventRunning confirm : bool) : P World unit :=
  c ← map_err (no_rows_as ErrNotFound "challenges: get for delete") (atomic (GetChallengeByID id));
  if c_Visible c && eventRunning && negb confirm
  then throw (Conflict "refusing to delete a visible challenge during a running event; pass confirm=true")
  else map_err (Wrap "challenges: delete") (atomic (DeleteChallenge id)).

Definition Full : Type := Challenge * list ChallengeAttachment * nat.
Definition loadFull (c : Challenge) : P World Full :=
  atts ← map_err (Wrap "challenges: listing attachments") (atomic (ListAttachments (c_ID c)));
  n ← map_err (Wrap "challenges: counting solves") (atomic (CountChallengeSolves (c_ID c)));
  mret (c, atts, n).
Definition GetAdmin (id : uuid) : P World Full :=
  c ← map_err (no_rows_as ErrNotFound "challenges: get") (atomic (GetChallengeByID id));
  loadFull c.

(** ** [attachments.go], over an object store ([internal/storage/store.go]) *)

Context (Put : string → list N → string → P World unit) (Delete : string → P World unit).

Definition UploadAttachment (challenge : uuid) (filename contentType : string) (body : list N)
    : P World ChallengeAttachment :=
  map_err (no_rows_as ErrNotFound "challenges: get for upload") (atomic (GetChallengeByID challenge));;
  id ← map_err (Wrap "challenges: generating id") (atomic NewV7);
  let contentType := or_default contentType "application/octet-stream" in
  let key := "challenges/" +:+ uuid_String challenge +:+ "/" +:+ uuid_String id +:+ "/" +:+ filename in
  Put key body contentType;;
  r ← try (atomic (CreateAttachment id challenge filename (Z.of_nat (length body)) contentType key));
  match r with
  | Ok att => mret att
  | Err e =>
      _ ← try (Delete key);
      throw (if is_unique e then Conflict ("an attachment named " +:+ filename +:+ " already exists on this challenge")
             else Wrap "challenges: recording attachment" e)
  end.
Definition DeleteAttachment (challenge attachment : uuid) : P World unit :=
  att ← map_err (no_rows_as ErrNotFound "challenges: get attachment") (atomic (GetAttachment attachment challenge));
  Delete (at_ObjectKey att);;
  map_err (Wrap "challenges: delete attachment") (atomic (DeleteAttachment_row attachment)).

(** ** [handlers/admin_challenges.go] *)

(** The container manager, and the recompute hooks, when they are set. *)
Context `{ChallengeRuntime} (caller : option Identity) (has_runtime : bool)
  (Recompute RecomputeForce : option (P World unit)).
Definition recompute_hook : P World unit := match Recompute with Some p => p | None => mret tt end.
Definition recomputeForce_hook : P World unit := match RecomputeForce with Some p => p | None => recompute_hook end.
Definition mapRuntimeErr (e : error) : error :=
  if IsUnavailable e then Unavailable "the container runtime is unavailable" 0 else e.

Definition h_AdminCreateChallenge (i : CreateInput) : P World Full :=
  actor ← requireAdmin caller;
  c ← chal_Create i;
  atomic (audit_Log (u_ID actor) "challenge.create" "challenge" (uuid_String (c_ID c)) {[ "slug" := c_Slug c ]});;
  full ← GetAdmin (c_ID c);
  recompute_hook;;
  mret full.
Definition h_AdminUpdateChallenge (id : uuid) (i : UpdateInput) : P World Full :=
  actor ← requireAdmin caller;
  c ← chal_Update id i;
  atomic (audit_Log (u_ID actor) "challenge.update" "challenge" (uuid_String (c_ID c)) ∅);;
  full ← GetAdmin (c_ID c);
  recomputeForce_hook;;
  mret full.
Definition destroyInstanceIfAny (challenge : uuid) : P World unit :=
  if negb has_runtime then mret tt else
  r ← try (DestroyForChallenge challenge);
  match r with
  | Err e => if IsUnavailable e then mret tt else throw (mapRuntimeErr e)
  | Ok _ => mret tt
  end.
Definition h_AdminDeleteChallenge (id : uuid) (confirm : bool) : P World unit :=
  actor ← requireAdmin caller;
  e ← try Events.Get;
  running ← match e with
            | Ok e => p ← Events.Phase_ e; mret (bool_decide (p = Events.PhaseRunning))
            | Err _ => mret false
            end;
  destroyInstanceIfAny id;;
  chal_Delete id running confirm;;
  atomic (audit_Log (u_ID actor) "challenge.delete" "challenge" (uuid_String id) ∅);;
  recomputeForce_hook.
End Service.
