(* ===== verification/ChallengeRules.v ===== *)
(** * What authoring guarantees of a challenge

    The constraints of the table as a type, what each validation establishes, and
    that every authoring operation keeps every challenge well formed. *)

From S2P Require Import Prelude Interleave Text Env Demo Store Users Tokens Accounts AuthDemo Challenges.

(** ** The constraints, read as a proposition *)

Definition int32 (n : Z) : Prop := (-2147483648 ≤ n ≤ 2147483647)%Z.

Record db_ok (c : Challenge) : Prop := {
  ok_category : c_Category c ∈ validCats;
  ok_difficulty : ∀ d, c_Difficulty c = Some d → d ∈ validDiffs;
  ok_kind : c_Kind c = "standard" ∨ c_Kind c = "container";
  ok_points : (0 < c_PointsInitial c)%Z;
  ok_attempts : ∀ n, c_MaxAttempts c = Some n → (0 < n)%Z;
  ok_port : ∀ p, c_InternalPort c = Some p → (1 ≤ p ≤ 65535)%Z;
  ok_mem : (16 ≤ c_MemLimitMb c ≤ 8192)%Z;
  ok_cpu : (100 ≤ c_CpuMillis c ≤ 8000)%Z;
  ok_dynamic : c_Scoring c = "dynamic" →
    ∃ m d, c_PointsMin c = Some m ∧ c_Decay c = Some d ∧ (0 < m ≤ c_PointsInitial c)%Z ∧ (0 < d)%Z;
  ok_container : c_Kind c = "container" → is_Some (c_Image c) ∧ is_Some (c_InternalPort c);
  ok_instancing : c_Instancing c = "shared" ∨ c_Instancing c = "per_team";
  ok_flag_mode : c_FlagMode c = "static" ∨ c_FlagMode c = "per_instance";
  ok_ttl : ∀ t, c_InstanceTtlSeconds c = Some t → (0 ≤ t)%Z;
  ok_plain : c_Kind c ≠ "container" →
    c_Instancing c = "shared" ∧ c_FlagMode c = "static" ∧ c_InstanceTtlSeconds c = None ∧
    c_Egress c = true ∧ c_WritablePaths c = []
}.

Lemma bool_elem2 (x a b : string) : bool_decide (x ∈ [a; b]) = true ↔ x = a ∨ x = b.
Proof. rewrite bool_decide_eq_true, !elem_of_cons, elem_of_nil. tauto. Qed.
Lemma opt_false {A} (o : option A) (f : A → bool) :
  match o with Some a => f a | None => false end = false ↔ ∀ a, o = Some a → f a = false.
Proof. destruct o; split; [by intros ? ? [= ->]|by intros H; apply H|done|done]. Qed.
Lemma missing_or_false (o : option Z) (f : Z → bool) : missing_or f o = false ↔ ∃ a, o = Some a ∧ f a = false.
Proof.
  destruct o; simpl; split; [intros H; by eexists|by intros (? & [= ->] & ?)|done|by intros (? & ? & _)].
Qed.

Lemma checks_db_ok c : Forall (λ x, x.1 = false) (challenge_checks c) ↔ db_ok c.
Proof.
  unfold challenge_checks, checked, outside. rewrite !Forall_cons. cbn [fst].
  rewrite !negb_false_iff, !bool_elem2, !opt_false, !bool_decide_eq_true, !Z.leb_gt, !orb_false_iff, !Z.ltb_ge.
  split.
  - intros (H1 & H2 & H3 & H4 & H5 & H6 & H7 & H8 & H9 & H10 & H11 & H12 & H13 & H14 & _). split; try done; try lia.
    + intros d Hd. by apply H2, negb_false_iff, bool_decide_eq_true in Hd.
    + intros n Hn. apply H5 in Hn. lia.
    + intros p Hp. apply H6 in Hp. lia.
    + intros Hs. rewrite Hs, bool_decide_true, andb_true_l, orb_false_iff, !missing_or_false in H9 by done.
      destruct H9 as [(m & Hm & Hb) (d & Hd & Hb')]. apply orb_false_iff in Hb. exists m, d. split_and!; [done..|lia|lia|lia].
    + intros Hk. rewrite Hk, bool_decide_true, andb_true_l, orb_false_iff, !negb_false_iff in H10 by done.
      by rewrite !is_Some_b_true in H10.
    + intros t Ht. apply H13 in Ht. lia.
    + intros Hk. rewrite bool_decide_false in H14 by done. cbn [negb andb] in H14.
      rewrite !orb_false_iff, !negb_false_iff, !bool_decide_eq_true, is_Some_b_false in H14. tauto.
  - intros [H1 H2 H3 H4 H5 H6 H7 H8 H9 H10 H11 H12 H13 H14]. split_and!; try done; try lia.
    + intros d Hd. apply negb_false_iff, bool_decide_eq_true. auto.
    + intros n Hn. apply H5 in Hn. lia.
    + intros p Hp. apply H6 in Hp. lia.
    + case_bool_decide as Hs; [|done]. destruct (H9 Hs) as (m & d & -> & -> & ? & ?). simpl. lia.
    + case_bool_decide as Hk; [|done]. destruct (H10 Hk) as [[? ->] [? ->]]. done.
    + intros t Ht. apply H13 in Ht. lia.
    + case_bool_decide as Hk; [done|]. destruct (H14 Hk) as (-> & -> & -> & -> & ->). done.
Qed.

(** ** What an empty set of messages says *)

Lemma add_if_empty b f m v : add_if b f m v = ∅ ↔ b = false ∧ v = ∅.
Proof. unfold add_if. destruct b; split; [by intros ?%Add_ne_empty|by intros []|done|by intros []]. Qed.

Lemma check_dynamic_empty sc mn dc ini v :
  check_dynamic sc mn dc ini v = ∅ →
  v = ∅ ∧ (sc = "dynamic" → ∃ m d, mn = Some m ∧ dc = Some d ∧ (1 ≤ m ≤ ini)%Z ∧ (1 ≤ d)%Z).
Proof.
  unfold check_dynamic. case_bool_decide as Hs; [|done]. rewrite add_if_empty, missing_or_false.
  intros [(d & -> & Hd) H]. destruct (missing_or _ mn) eqn:Em; [by apply Add_ne_empty in H|].
  apply missing_or_false in Em as (m & -> & Hm). apply add_if_empty in H as [Hi ->]. simpl in Hi.
  split; [done|]. intros _. exists m, d. split_and!; [done..|lia|lia|lia].
Qed.
Lemma check_container_empty i v :
  check_container i v = ∅ →
  v = ∅ ∧ (ci_Kind i = "container" → ∃ img p, ci_Image i = Some img ∧ ci_InternalPort i = Some p ∧ (1 ≤ p ≤ 65535)%Z).
Proof.
  unfold check_container. case_bool_decide as Hk; [|done]. rewrite !add_if_empty, missing_or_false.
  intros ((p & Hp & Hb) & Himg & ->). split; [done|]. intros _.
  destruct (ci_Image i) as [img|]; [|done]. exists img, p. split_and!; [done..|lia|lia].
Qed.
Lemma check_kept_empty cur i v :
  check_kept cur i v = ∅ →
  v = ∅ ∧ (c_Kind cur = "container" →
    is_Some (if ui_SetImage i then ui_Image i else c_Image cur) ∧
    is_Some (if ui_SetInternalPort i then i32p (ui_InternalPort i) else c_InternalPort cur)).
Proof.
  unfold check_kept. case_bool_decide as Hk; [|done]. rewrite !add_if_empty, negb_false_iff, is_Some_b_true.
  intros (Hp & Hi & ->). split; [done|]. intros _. split; [|done].
  by destruct (if ui_SetImage i then ui_Image i else c_Image cur).
Qed.
Lemma limits_empty mem cpu v :
  validateContainerLimits mem cpu v = ∅ → v = ∅ ∧ outside 16 8192 mem = false ∧ outside 100 8000 cpu = false.
Proof. unfold validateContainerLimits. rewrite !add_if_empty. tauto. Qed.
Lemma not_one_of_false s a b : not_one_of s a b = false → s = "" ∨ s = a ∨ s = b.
Proof. unfold not_one_of. repeat case_bool_decide; auto; done. Qed.
Lemma instancing_empty kind ins fm ttl eg hw v :
  validateInstancing kind ins fm ttl eg hw v = ∅ →
  v = ∅ ∧ (ins = "" ∨ ins = "shared" ∨ ins = "per_team") ∧ (fm = "" ∨ fm = "static" ∨ fm = "per_instance") ∧
  (∀ t, ttl = Some t → 0 ≤ t)%Z ∧
  (kind ≠ "container" → ins ≠ "per_team" ∧ fm ≠ "per_instance" ∧ ttl = None ∧ eg ≠ Some false ∧ hw = false).
Proof.
  unfold validateInstancing. case_bool_decide as Hk; rewrite !add_if_empty.
  - intros (H1 & H2%not_one_of_false & H3%not_one_of_false & ->). split_and!; try done. rewrite opt_false in H1.
    intros t Ht. apply H1 in Ht. lia.
  - intros (-> & H5%bool_decide_eq_false & H4%is_Some_b_false & H3%bool_decide_eq_false & H2%bool_decide_eq_false &
      H1 & Hf%not_one_of_false & Hi%not_one_of_false & ->).
    split_and!; try done. by intros t ->.
Qed.
Lemma title_bounds title : bad_length 1 200 title = false → 1 ≤ String.length title ≤ 200.
Proof. unfold bad_length. rewrite orb_false_iff, !Nat.ltb_ge. tauto. Qed.

(** A challenge as authors may have left it. *)
Record well_formed (c : Challenge) : Prop := {
  wf_db : db_ok c;
  wf_slug : slugRe (c_Slug c) = true;
  wf_title : 1 ≤ String.length (c_Title c) ≤ 200;
  wf_flag : c_Flag c ≠ "";
  wf_width : int32 (c_PointsInitial c) ∧ (∀ m, c_PointsMin c = Some m → int32 m) ∧ (∀ d, c_Decay c = Some d → int32 d) ∧
    (∀ n, c_MaxAttempts c = Some n → int32 n) ∧ (∀ t, c_InstanceTtlSeconds c = Some t → int32 t)
}.

Lemma clamp_int32 n : int32 (clampI32 n).
Proof.
  unfold int32, clampI32. destruct (Z.ltb_spec 2147483647 n); [lia|]. destruct (Z.ltb_spec n (-2147483648)); lia.
Qed.
Lemma clamp_mono a b : (a ≤ b)%Z → (clampI32 a ≤ clampI32 b)%Z.
Proof.
  unfold clampI32. intros Hab. destruct (Z.ltb_spec 2147483647 a), (Z.ltb_spec 2147483647 b), (Z.ltb_spec a (-2147483648)),
    (Z.ltb_spec b (-2147483648)); lia.
Qed.
Lemma clamp_id n : int32 n → clampI32 n = n.
Proof.
  unfold int32, clampI32. destruct (Z.ltb_spec 2147483647 n); [lia|]. destruct (Z.ltb_spec n (-2147483648)); lia.
Qed.
Lemma clamp_pos n : (0 < n)%Z → (0 < clampI32 n)%Z.
Proof.
  unfold clampI32. destruct (Z.ltb_spec 2147483647 n); [lia|]. destruct (Z.ltb_spec n (-2147483648)); lia.
Qed.
Lemma i32p_some o n : i32p o = Some n → ∃ m, o = Some m ∧ n = clampI32 m.
Proof. destruct o; [|done]. intros [= <-]. eauto. Qed.

Lemma outside_default lo hi d o : (lo ≤ d ≤ hi)%Z → int32 lo → int32 hi → outside lo hi o = false →
  (lo ≤ default d (i32p o) ≤ hi)%Z.
Proof.
  intros Hd Hlo Hhi Ho. destruct o as [n|]; simpl in *; [|done].
  rewrite clamp_id; unfold int32 in *; lia.
Qed.
Lemma or_default_ne s d : d ≠ "" → or_default s d ≠ "".
Proof. unfold or_default. by case_bool_decide. Qed.
Lemma clamp_lower n k : (0 ≤ k ≤ 1)%Z → (k ≤ n)%Z → (k ≤ clampI32 n)%Z.
Proof.
  unfold clampI32. destruct (Z.ltb_spec 2147483647 n); [lia|]. destruct (Z.ltb_spec n (-2147483648)); lia.
Qed.

(** A validated creation makes a well-formed row, up to the port of a challenge without a
    container, which is not looked at. *)
Lemma create_well_formed T M i0 slug id cfg now :
  let i := with_defaults i0 in
  validateCreate T M i slug = ∅ → outside 1 65535 (i32p (ci_InternalPort i)) = false →
  well_formed (create_row i id slug cfg now).
Proof.
  intros i. unfold validateCreate.
  intros (H & Hins & Hfm & Httl & Hplain)%instancing_empty Hport.
  assert (ci_Instancing i ≠ "" ∧ ci_FlagMode i ≠ "") as [Hi1 Hi2] by (split; by apply or_default_ne).
  apply add_if_empty in H as [Hma H]. rewrite opt_false in Hma.
  apply limits_empty in H as (H & Hmem & Hcpu).
  apply check_container_empty in H as [H Hcont].
  apply check_dynamic_empty in H as [H' Hdyn].
  rewrite !add_if_empty, !negb_false_iff, opt_false, !bool_decide_eq_true, Nat.ltb_ge, Z.ltb_ge, andb_false_iff,
    !negb_false_iff, !bool_decide_eq_true in H'.
  destruct H' as (Hpts & _ & Hflag & _ & Hkind & Hdiff & Hcat & Htitle%title_bounds & Hslug & _).
  split; [split| | | |]; cbn [create_row c_Slug c_Title c_Flag c_Category c_Difficulty c_Kind c_PointsInitial c_MaxAttempts
    c_InternalPort c_MemLimitMb c_CpuMillis c_Scoring c_PointsMin c_Decay c_Image c_Instancing c_FlagMode c_InstanceTtlSeconds
    c_Egress c_WritablePaths]; try done.
  - intros d Hd. apply Hdiff in Hd. by apply negb_false_iff, bool_decide_eq_true in Hd.
  - apply clamp_pos. lia.
  - intros n (m & Hm & ->)%i32p_some. apply Hma in Hm. apply clamp_pos. lia.
  - intros p Hp. unfold outside in Hport. rewrite opt_false in Hport. apply Hport in Hp. lia.
  - by apply outside_default.
  - by apply outside_default.
  - intros (m & d & -> & -> & Hm & Hd)%Hdyn. exists (clampI32 m), (clampI32 d).
    pose proof (clamp_mono m (ci_PointsInitial i)). pose proof (clamp_pos m). pose proof (clamp_pos d).
    split_and!; [done..|lia|lia|lia].
  - intros (img & p & -> & -> & _)%Hcont. eauto.
  - tauto.
  - tauto.
  - intros t (m & Hm & ->)%i32p_some. apply Httl in Hm. apply clamp_lower; lia.
  - intros (H1 & H2 & -> & H4 & H5)%Hplain. apply negb_false_iff, bool_decide_eq_true in H5.
    split_and!; [tauto|tauto|done| |done]. by destruct (ci_Egress i) as [[]|].
  - by intros E; rewrite E in Hflag; inv Hflag.
  - split; [apply clamp_int32|]. split_and!; intros ? (? & _ & ->)%i32p_some; apply clamp_int32.
Qed.


(** What an update's own fields say, whatever the row they were checked against. *)
Lemma update_fields T M cur i :
  validateUpdate T M cur i = ∅ →
  (∀ s, ui_Slug i = Some s → slugRe s = true) ∧ (∀ t, ui_Title i = Some t → 1 ≤ String.length t ≤ 200) ∧
  (∀ f, ui_Flag i = Some f → f ≠ "") ∧ (∀ c, ui_Category i = Some c → c ∈ validCats) ∧
  (ui_SetDifficulty i = true → ∀ d, ui_Difficulty i = Some d → d ∈ validDiffs) ∧
  outside 16 8192 (ui_MemLimitMB i) = false ∧ outside 100 8000 (ui_CPUMillis i) = false ∧
  (∀ n, ui_PointsInitial i = Some n → (1 ≤ n)%Z) ∧
  (default (c_Scoring cur) (ui_Scoring i) = "dynamic" →
    (1 ≤ default 0 (if ui_SetPointsMin i then ui_PointsMin i else c_PointsMin cur)
       ≤ default (c_PointsInitial cur) (ui_PointsInitial i))%Z ∧
    (1 ≤ default 0 (if ui_SetDecay i then ui_Decay i else c_Decay cur))%Z) ∧
  (c_Kind cur = "container" →
    is_Some (if ui_SetImage i then ui_Image i else c_Image cur) ∧
    is_Some (if ui_SetInternalPort i then i32p (ui_InternalPort i) else c_InternalPort cur)) ∧
  (let ins := default (c_Instancing cur) (ui_Instancing i) in ins = "" ∨ ins = "shared" ∨ ins = "per_team") ∧
  (let fm := default (c_FlagMode cur) (ui_FlagMode i) in fm = "" ∨ fm = "static" ∨ fm = "per_instance") ∧
  (∀ t, (if ui_SetInstanceTTL i then ui_InstanceTTLSeconds i else c_InstanceTtlSeconds cur) = Some t → (0 ≤ t)%Z) ∧
  (c_Kind cur ≠ "container" →
    default (c_Instancing cur) (ui_Instancing i) ≠ "per_team" ∧ default (c_FlagMode cur) (ui_FlagMode i) ≠ "per_instance" ∧
    (if ui_SetInstanceTTL i then ui_InstanceTTLSeconds i else c_InstanceTtlSeconds cur) = None ∧
    default (c_Egress cur) (ui_Egress i) = true ∧ (∀ ps, ui_WritablePaths i = Some ps → ps = [])).
Proof.
  unfold validateUpdate. intros (H & Hins & Hfm & Httl & Hplain)%instancing_empty.
  apply limits_empty in H as (H & Hmem & Hcpu). apply check_kept_empty in H as [H Hkept].
  rewrite !add_if_empty, !opt_false in H. destruct H as (Hflag & Htitle & Hdiff & Hcat & Hslug & H).
  apply check_dynamic_empty in H as [H Hdyn]. rewrite !add_if_empty in H. destruct H as (Hpts & _).
  split_and!; try done.
  - intros s Hs. by apply Hslug, negb_false_iff in Hs.
  - intros t Ht. by apply Htitle, title_bounds in Ht.
  - intros f Hf. apply Hflag, Nat.ltb_ge in Hf. intros ->. inv Hf.
  - intros c Hc. by apply Hcat, negb_false_iff, bool_decide_eq_true in Hc.
  - intros Hset d Hd. rewrite Hset, andb_true_l, opt_false in Hdiff.
    by apply Hdiff, negb_false_iff, bool_decide_eq_true in Hd.
  - intros n Hn. rewrite Hn in Hpts. simpl in Hpts. lia.
  - intros Hs. destruct (Hdyn Hs) as (m & d & [= <-] & [= <-] & Hm & Hd). by split.
  - intros Hk. destruct (Hplain Hk) as (H1 & H2 & H3 & H4 & H5). split_and!; [done..| |].
    + by destruct (default (c_Egress cur) (ui_Egress i)).
    + intros ps Hps. rewrite Hps in H5. by apply negb_false_iff, bool_decide_eq_true in H5.
Qed.

(** A validated update of the row it was checked against respects the table's
    constraints, up to four fields: the attempts and the port, whose ranges are not
    looked at, and the instancing and flag mode, which may be sent empty. *)
Lemma update_db_ok T M c i cfg now :
  well_formed c → validateUpdate T M c i = ∅ →
  (ui_SetMaxAttempts i = true → ∀ n, ui_MaxAttempts i = Some n → (0 < n)%Z) →
  (ui_SetInternalPort i = true → ∀ p, ui_InternalPort i = Some p → (1 ≤ p ≤ 65535)%Z) →
  ui_Instancing i ≠ Some "" → ui_FlagMode i ≠ Some "" → db_ok (update_row i cfg now c).
Proof.
  intros [[K1 K2 K3 K4 K5 K6 K7 K8 K9 K10 K11 K12 K13 K14] _ _ _ (W1 & W2 & W3 & _)]
    (_ & _ & _ & Hcat & Hdiff & Hmem & Hcpu & Hpts & Hdyn & Hkept & Hins & Hfm & Httl & Hplain)%update_fields Hatt Hport Hi Hf.
  assert (default (c_Instancing c) (ui_Instancing i) ≠ "") as Hi' by (destruct (ui_Instancing i); simpl; [congruence|by destruct K11 as [-> | ->]]).
  assert (default (c_FlagMode c) (ui_FlagMode i) ≠ "") as Hf' by (destruct (ui_FlagMode i); simpl; [congruence|by destruct K12 as [-> | ->]]).
  cbv zeta in Hins, Hfm.
  split; cbn [update_row c_Category c_Difficulty c_Kind c_PointsInitial c_MaxAttempts
    c_InternalPort c_MemLimitMb c_CpuMillis c_Scoring c_PointsMin c_Decay c_Image c_Instancing c_FlagMode c_InstanceTtlSeconds
    c_Egress c_WritablePaths]; try done.
  - destruct (ui_Category i) as [x|]; simpl; auto.
  - destruct (ui_SetDifficulty i); auto.
  - destruct (ui_PointsInitial i) as [n|]; simpl; [apply clamp_pos; specialize (Hpts n eq_refl); lia|done].
  - destruct (ui_SetMaxAttempts i); [|done]. intros n (m & Hm & ->)%i32p_some. apply clamp_pos. auto.
  - destruct (ui_SetInternalPort i); [|done]. intros p (m & Hm & ->)%i32p_some. specialize (Hport eq_refl m Hm).
    rewrite clamp_id; unfold int32; lia.
  - by apply outside_default.
  - by apply outside_default.
  - intros Hs. destruct (Hdyn Hs) as [Hm Hd].
    assert (∃ m, (if ui_SetPointsMin i then i32p (ui_PointsMin i) else c_PointsMin c) = Some m ∧
      m = clampI32 (default 0 (if ui_SetPointsMin i then ui_PointsMin i else c_PointsMin c))%Z) as (m & -> & ->).
    { destruct (ui_SetPointsMin i); [destruct (ui_PointsMin i); simpl in *; [by eexists|lia]|].
      destruct (c_PointsMin c) as [m|] eqn:Em; simpl in *; [|lia]. exists m. by rewrite clamp_id by auto. }
    assert (∃ d, (if ui_SetDecay i then i32p (ui_Decay i) else c_Decay c) = Some d ∧
      d = clampI32 (default 0 (if ui_SetDecay i then ui_Decay i else c_Decay c))%Z) as (d & -> & ->).
    { destruct (ui_SetDecay i); [destruct (ui_Decay i); simpl in *; [by eexists|lia]|].
      destruct (c_Decay c) as [d|] eqn:Ed; simpl in *; [|lia]. exists d. by rewrite clamp_id by auto. }
    assert (default (c_PointsInitial c) (i32p (ui_PointsInitial i)) =
      clampI32 (default (c_PointsInitial c) (ui_PointsInitial i))) as ->.
    { destruct (ui_PointsInitial i); simpl; [done|]. by rewrite clamp_id. }
    eexists _, _. split_and!; [done..|apply clamp_pos; lia|apply clamp_mono; lia|apply clamp_pos; lia].
  - tauto.
  - tauto.
  - destruct (ui_SetInstanceTTL i); [|done]. intros t (m & Hm & ->)%i32p_some. apply Httl in Hm. apply clamp_lower; lia.
  - intros Hk. destruct (Hplain Hk) as (H1 & H2 & H3 & H4 & H5). split_and!; [tauto|tauto| |done|].
    + destruct (ui_SetInstanceTTL i); [|done]. by rewrite H3.
    + destruct (ui_WritablePaths i) as [ps|]; simpl; [auto|]. by apply K14.
Qed.

(** ** What the table accepts of what was validated *)

(** C24: Validation mirrors the table's constraints but for a few fields: a validated creation is accepted
    by every check if and only if its port, when it has one, is in range (the port of a
    challenge without a container is not validated); a validated update of a well-formed
    challenge if and only if its attempts are positive, its port is in range, and neither
    its instancing nor its flag mode is sent empty. *)
Theorem validation_mirrors_checks T M cfg now :
  (∀ i slug id, validateCreate T M (with_defaults i) slug = ∅ →
    (Forall (λ x, x.1 = false) (challenge_checks (create_row (with_defaults i) id slug cfg now)) ↔
     ∀ p, ci_InternalPort i = Some p → (1 ≤ p ≤ 65535)%Z)) ∧
  (∀ c i cfg', well_formed c → validateUpdate T M c i = ∅ →
    (Forall (λ x, x.1 = false) (challenge_checks (update_row i cfg' now c)) ↔
     (ui_SetMaxAttempts i = true → ∀ n, ui_MaxAttempts i = Some n → (0 < n)%Z) ∧
     (ui_SetInternalPort i = true → ∀ p, ui_InternalPort i = Some p → (1 ≤ p ≤ 65535)%Z) ∧
     ui_Instancing i ≠ Some "" ∧ ui_FlagMode i ≠ Some "")).
Proof.
  assert (∀ p, (1 ≤ clampI32 p ≤ 65535)%Z ↔ (1 ≤ p ≤ 65535)%Z) as Hport.
  { intros p. unfold clampI32. destruct (Z.ltb_spec 2147483647 p); [lia|]. destruct (Z.ltb_spec p (-2147483648)); lia. }
  split.
  - intros i slug id Hv. rewrite checks_db_ok. split.
    + intros Hok p Hp. apply Hport. eapply (ok_port _ Hok). cbn. by rewrite Hp.
    + intros Hp. apply (create_well_formed T M i slug id cfg now Hv). unfold outside. rewrite opt_false.
      intros q (p & Hq & ->)%i32p_some. apply Hp in Hq. rewrite clamp_id by (unfold int32; lia). lia.
  - intros c i cfg' Hwf Hv. rewrite checks_db_ok. split.
    + intros Hok. split_and!.
      * intros Hs n Hn. assert (0 < clampI32 n)%Z as Hc by (apply (ok_attempts _ Hok); cbn; by rewrite Hs, Hn).
        unfold clampI32 in Hc. destruct (Z.ltb_spec 2147483647 n); [lia|]. destruct (Z.ltb_spec n (-2147483648)); lia.
      * intros Hs p Hp. apply Hport, (ok_port _ Hok). cbn. by rewrite Hs, Hp.
      * intros E. destruct (ok_instancing _ Hok) as [H|H]; cbn in H; by rewrite E in H.
      * intros E. destruct (ok_flag_mode _ Hok) as [H|H]; cbn in H; by rewrite E in H.
    + intros (H1 & H2 & H3 & H4). by eapply update_db_ok.
Qed.

(** ** Every operation keeps every challenge well formed *)

Record chal_inv (d : DB) : Prop := {
  ci_rows : ∀ id c, challenges d !! id = Some c → c_ID c = id ∧ well_formed c;
  ci_slugs : ∀ id id' c c', challenges d !! id = Some c → challenges d !! id' = Some c' →
    c_Slug c = c_Slug c' → id = id'
}.

Lemma slug_taken_false d id slug :
  slug_taken d id slug = false → chal_inv d → ∀ id' c, challenges d !! id' = Some c → c_Slug c = slug → id' = id.
Proof.
  intros Ht HI id' c Hc Hs. destruct (decide (id' = id)) as [|Hne]; [done|].
  enough (slug_taken d id slug = true) by congruence. unfold slug_taken, chal_rows. apply existsb_exists. exists c.
  split; [apply list_elem_of_In, elem_of_rows; eauto|].
  destruct (ci_rows d HI _ _ Hc) as [-> _]. rewrite bool_decide_false, bool_decide_true by done. done.
Qed.
Lemma chal_inv_insert d r :
  chal_inv d → slug_taken d (c_ID r) (c_Slug r) = false → well_formed r →
  chal_inv (set_challenges (<[c_ID r := r]> (challenges d)) d).
Proof.
  intros HI Ht Hr. pose proof (slug_taken_false _ _ _ Ht HI) as Hs. split; cbn [challenges set_challenges].
  - intros id c [[<- <-]|[_ Hc]]%lookup_insert_Some; [done|]. by apply HI.
  - intros id id' c c'. rewrite !lookup_insert_Some. intros [[<- <-]|[Hn Hc]] [[<- <-]|[Hn' Hc']] E; [done| | |].
    + symmetry. by eapply Hs.
    + by eapply Hs.
    + by eapply (ci_slugs d HI).
Qed.

Lemma update_well_formed T M cur i cfg now c :
  well_formed c → validateUpdate T M cur i = ∅ → db_ok (update_row i cfg now c) → well_formed (update_row i cfg now c).
Proof.
  intros [_ W1 W2 W3 (V1 & V2 & V3 & V4 & V5)] (Hslug & Htitle & Hflag & _)%update_fields Hdb.
  split; cbn [update_row c_Slug c_Title c_Flag c_PointsInitial c_PointsMin c_Decay c_MaxAttempts c_InstanceTtlSeconds]; [done|..].
  - destruct (ui_Slug i); simpl; auto.
  - destruct (ui_Title i); simpl; auto.
  - destruct (ui_Flag i); simpl; auto.
  - split_and!.
    + destruct (ui_PointsInitial i); simpl; [apply clamp_int32|done].
    + destruct (ui_SetPointsMin i); [|done]. intros m (? & _ & ->)%i32p_some. apply clamp_int32.
    + destruct (ui_SetDecay i); [|done]. intros m (? & _ & ->)%i32p_some. apply clamp_int32.
    + destruct (ui_SetMaxAttempts i); [|done]. intros m (? & _ & ->)%i32p_some. apply clamp_int32.
    + destruct (ui_SetInstanceTTL i); [|done]. intros m (? & _ & ->)%i32p_some. apply clamp_int32.
Qed.

Section Authoring.
Context {L : Libs}.

Lemma validateTypeConfig_keeps (J : DB → Prop) types id cfg : all_steps (dbi J) (validateTypeConfig types id cfg).
Proof.
  unfold validateTypeConfig. destruct (type_Get id types) as [ct|]; [|done].
  apply all_steps_bind; [apply all_steps_try, all_steps_atomic; by intros w Hw|]. intros [v|e]; [|done].
  by destruct (negb (cv_OK v)).
Qed.

Lemma Create_keeps types types' M i : all_steps (dbi chal_inv) (chal_Create types types' M i).
Proof.
  unfold chal_Create. set (slug := match ci_Slug (with_defaults i) with Some s => s | None => _ end).
  unfold OrNil. destruct (decide (validateCreate _ M (with_defaults i) slug = ∅)) as [Hv|]; [|done].
  change (mret tt ≫= ?k) with (k tt). cbn beta. apply all_steps_bind; [apply validateTypeConfig_keeps|]. intros cfg.
  apply all_steps_bind; [apply all_steps_map_err, all_steps_atomic, preserves_dbi_NewV7|]. intros id.
  apply all_steps_map_err, all_steps_atomic, preserves_dbi_query. intros now d r d' HI (Hc & -> & ->)%guarded_ok.
  apply Forall_app in Hc as [Hc Hu]. inv Hu as [|? ? _ Hu']. inv Hu' as [|? ? Hs _].
  apply chal_inv_insert; [done|exact Hs|]. apply (create_well_formed _ M i slug id cfg now Hv).
  unfold outside. rewrite opt_false. intros p Hp. apply checks_db_ok in Hc. pose proof (ok_port _ Hc p Hp). lia.
Qed.
Lemma Update_keeps types types' M id i : all_steps (dbi chal_inv) (chal_Update types types' M id i).
Proof.
  unfold chal_Update. apply all_steps_bind; [apply all_steps_map_err, all_steps_atomic, preserves_dbi_select|]. intros cur.
  unfold OrNil. destruct (decide (validateUpdate _ M cur i = ∅)) as [Hv|]; [|done].
  change (mret tt ≫= ?k) with (k tt). cbn beta. apply all_steps_bind.
  { destruct (ui_TypeConfig i); [|done]. apply all_steps_bind; [apply validateTypeConfig_keeps|done]. }
  intros cfg. apply all_steps_map_err, all_steps_atomic, preserves_dbi_query. intros now d r d' HI.
  destruct (challenges d !! id) as [c|] eqn:Hc; [|done]. intros (Hck & -> & ->)%guarded_ok.
  apply Forall_app in Hck as [Hck Hu]. inv Hu as [|? ? Hs _]. destruct (ci_rows d HI _ _ Hc) as [Hid Hwf].
  replace id with (c_ID (update_row i cfg now c)) by done. apply chal_inv_insert; [done|simpl; by rewrite Hid|].
  eapply update_well_formed; [done|exact Hv|by apply checks_db_ok].
Qed.
Lemma Delete_keeps id running confirm : all_steps (dbi chal_inv) (chal_Delete id running confirm).
Proof.
  unfold chal_Delete. apply all_steps_bind; [apply all_steps_map_err, all_steps_atomic, preserves_dbi_select|]. intros c.
  destruct (_ && _); [done|]. apply all_steps_map_err, all_steps_atomic, preserves_dbi_query.
  intros now d u d' HI [= <- <-]. split; cbn [challenges set_instances set_submissions set_attachments set_challenges].
  - intros id' c' [_ Hc]%lookup_delete_Some. by apply HI.
  - intros id1 id2 c1 c2 [_ H1]%lookup_delete_Some [_ H2]%lookup_delete_Some. by eapply (ci_slugs d HI).
Qed.

(** Any number of authors, on any registries. *)
Inductive authoring : prog World unit → Prop :=
  | au_create types types' M i : authoring (forget (chal_Create types types' M i))
  | au_update types types' M id i : authoring (forget (chal_Update types types' M id i))
  | au_delete id running confirm : authoring (forget (chal_Delete id running confirm)).

(** C23: Under every interleaving of creations, updates and deletions, every failure, and whatever types and
    scoring modes are registered, every challenge stays well formed: it satisfies each
    constraint on its kind, scoring, limits and instancing, its slug is a slug and no
    other's, its title and its flag are not empty, and its numbers fit their columns. *)
Theorem challenges_well_formed ps ps' w w' :
  Forall authoring ps → chal_inv (w_db w) → rtc pool_step (ps, w) (ps', w') → chal_inv (w_db w').
Proof.
  intros Hps HI Hr. refine (proj1 (all_steps_pool (dbi chal_inv) ps ps' w w' _ HI Hr)).
  eapply Forall_impl; [exact Hps|]. intros p [types types' M i|types types' M id i|id running confirm].
  - apply all_steps_forget, Create_keeps.
  - apply all_steps_forget, Update_keeps.
  - apply all_steps_forget, Delete_keeps.
Qed.
End Authoring.

(** ** Concrete inputs *)

Section Demo.
#[local] Existing Instance demo_libs.

Definition demo_create : CreateInput :=
  {| ci_Slug := None; ci_Title := "Warm Up!"; ci_Category := "web"; ci_Description := ""; ci_Difficulty := Some "easy";
     ci_Kind := ""; ci_Type := ""; ci_TypeConfig := ∅; ci_Flag := "osctf{x}"; ci_FlagCaseInsensitive := false;
     ci_Scoring := ""; ci_PointsInitial := 500; ci_PointsMin := Some 100%Z; ci_Decay := Some 30%Z; ci_MaxAttempts := None;
     ci_Visible := true; ci_Image := None; ci_InternalPort := None; ci_MemLimitMB := None; ci_CPUMillis := None;
     ci_ContainerEnv := ∅; ci_ConnectionTemplate := None; ci_Instancing := ""; ci_FlagMode := "";
     ci_InstanceTTLSeconds := None; ci_Egress := None; ci_WritablePaths := [] |}.
Definition no_change : Challenges.UpdateInput :=
  {| ui_Slug := None; ui_Title := None; ui_Category := None; ui_Description := None; ui_SetDifficulty := false;
     ui_Difficulty := None; ui_Flag := None; ui_FlagCaseInsensitive := None; ui_Scoring := None; ui_Type := None;
     ui_TypeConfig := None; ui_PointsInitial := None; ui_SetPointsMin := false; ui_PointsMin := None;
     ui_SetDecay := false; ui_Decay := None; ui_SetMaxAttempts := false; ui_MaxAttempts := None; ui_Visible := None;
     ui_SetImage := false; ui_Image := None; ui_SetInternalPort := false; ui_InternalPort := None; ui_MemLimitMB := None;
     ui_CPUMillis := None; ui_ContainerEnv := None; ui_SetConnectionTmpl := false; ui_ConnectionTemplate := None;
     ui_Instancing := None; ui_FlagMode := None; ui_SetInstanceTTL := false; ui_InstanceTTLSeconds := None;
     ui_Egress := None; ui_WritablePaths := None |}.
Definition attempts_update (n : Z) : Challenges.UpdateInput :=
  {| ui_Slug := None; ui_Title := None; ui_Category := None; ui_Description := None; ui_SetDifficulty := false;
     ui_Difficulty := None; ui_Flag := None; ui_FlagCaseInsensitive := None; ui_Scoring := None; ui_Type := None;
     ui_TypeConfig := None; ui_PointsInitial := None; ui_SetPointsMin := false; ui_PointsMin := None;
     ui_SetDecay := false; ui_Decay := None; ui_SetMaxAttempts := true; ui_MaxAttempts := Some n; ui_Visible := None;
     ui_SetImage := false; ui_Image := None; ui_SetInternalPort := false; ui_InternalPort := None; ui_MemLimitMB := None;
     ui_CPUMillis := None; ui_ContainerEnv := None; ui_SetConnectionTmpl := false; ui_ConnectionTemplate := None;
     ui_Instancing := None; ui_FlagMode := None; ui_SetInstanceTTL := false; ui_InstanceTTLSeconds := None;
     ui_Egress := None; ui_WritablePaths := None |}.

Lemma demo_well_formed id kind ins fm :
  (kind, ins, fm) = ("container", "per_team", "per_instance") ∨ (kind, ins, fm) = ("standard", "shared", "static") →
  slugRe (c_Slug (demo_challenge id kind ins fm)) = true → well_formed (demo_challenge id kind ins fm).
Proof.
  intros Hk Hs. split; [| exact Hs|cbn; lia|done|].
  - apply checks_db_ok. destruct Hk as [[= -> -> ->]|[= -> -> ->]];
      repeat (constructor; [vm_compute; reflexivity|]); constructor.
  - unfold int32. cbn. split_and!; [lia|lia|done|done| |done]. intros n [= <-]. lia.
Qed.
Lemma demo_chal_inv : chal_inv demo_db.
Proof.
  assert (∀ id c, challenges demo_db !! id = Some c →
    (id = 31%N ∧ c = demo_challenge 31 "container" "per_team" "per_instance") ∨
    (id = 32%N ∧ c = demo_challenge 32 "standard" "shared" "static")) as Hrows.
  { intros id c. cbn [challenges demo_db]. rewrite lookup_insert_Some, lookup_singleton_Some. naive_solver. }
  split.
  - intros id c [[-> ->]|[-> ->]]%Hrows; (split; [done|]); apply demo_well_formed; auto.
  - intros id id' c c' [[-> ->]|[-> ->]]%Hrows [[-> ->]|[-> ->]]%Hrows; done.
Qed.

Definition all_modes (m : string) : bool := bool_decide (m = "static") || bool_decide (m = "dynamic").
Definition demo_authors : list (prog World unit) :=
  [forget (chal_Create defaultTypeRegistry defaultTypeRegistry all_modes demo_create);
   forget (chal_Update defaultTypeRegistry defaultTypeRegistry all_modes 31 no_change)].
Lemma challenges_well_formed_witness :
  match exec [0; 1; 0; 0; 1] demo_authors (demo_world demo_db Hour) with
  | Some (_, w') => size (challenges (w_db w')) = 3 ∧ chal_inv (w_db w')
  | None => False
  end.
Proof.
  assert (match exec [0; 1; 0; 0; 1] demo_authors (demo_world demo_db Hour) with
          | Some (_, w') => (size (challenges (w_db w')) =? 3)%nat | None => false end = true) as Hrun by (vm_compute; reflexivity).
  destruct (exec _ demo_authors _) as [[ps' w']|] eqn:Ex; [|discriminate Hrun].
  split; [by apply Nat.eqb_eq in Hrun|].
  refine (challenges_well_formed demo_authors ps' (demo_world demo_db Hour) w' _ demo_chal_inv (exec_sound _ _ _ _ _ Ex)).
  repeat constructor.
Defined.

Lemma validation_mirrors_checks_witness :
  Forall (λ x, x.1 = false)
    (challenge_checks (update_row no_change None 0 (demo_challenge 31 "container" "per_team" "per_instance"))) .
Proof.
  refine (proj2 (proj2 (validation_mirrors_checks (λ _, true) all_modes ∅ 0)
    (demo_challenge 31 "container" "per_team" "per_instance") no_change None _ _) _).
  - by apply (ci_rows _ demo_chal_inv 31).
  - reflexivity.
  - by split_and!.
Defined.

(** Zero attempts pass the validation of an update and break the table's constraint: the author gets the
    database's error, not a message about the field. *)
Theorem zero_attempts_unvalidated :
  match solo (chal_Update defaultTypeRegistry defaultTypeRegistry all_modes 31 (attempts_update 0))
          (demo_world demo_db Hour) with
  | Some (Err e, _) => e = PgError "23514" "challenges_max_attempts_check"
  | _ => False
  end.
Proof. vm_compute. reflexivity. Qed.
End Demo.
