(* ===== verification/Relate.v ===== *)
(** * Two runs side by side

    A program run from two related states: [alike] says that the runs end in related
    results and related states, so that what the relation hides cannot be told from the
    result. *)

From S2P Require Import Prelude.

(** Results agree: values related by [V], or the same error. *)
Definition agree {A B} (V : A → B → Prop) (r1 : res A) (r2 : res B) : Prop :=
  match r1, r2 with
  | Ok a, Ok b => V a b
  | Err e, Err e' => e = e'
  | _, _ => False
  end.

Lemma agree_eq {A} (r1 r2 : res A) : agree eq r1 r2 → r1 = r2.
Proof. destruct r1, r2; simpl; intros; by subst. Qed.
Lemma agree_refl {A} (r : res A) : agree eq r r.
Proof. by destruct r. Qed.

Section Alike.
Context {S : Type} (R : S → S → Prop).

Definition alike {A B} (V : A → B → Prop) (p : P S A) (q : P S B) : Prop :=
  ∀ s1 s2, R s1 s2 →
    match run p s1, run q s2 with
    | Some (r1, s1'), Some (r2, s2') => agree V r1 r2 ∧ R s1' s2'
    | _, _ => False
    end.

Lemma alike_ret {A B} (V : A → B → Prop) a b : V a b → alike V (mret a) (mret b).
Proof. intros HV s1 s2 HR. done. Qed.
Lemma alike_throw {A B} (V : A → B → Prop) e : alike V (throw e) (throw e).
Proof. intros s1 s2 HR. done. Qed.
Lemma alike_mono {A B} (V V' : A → B → Prop) p q : alike V p q → (∀ a b, V a b → V' a b) → alike V' p q.
Proof.
  intros H HV s1 s2 HR. specialize (H s1 s2 HR).
  destruct (run p s1) as [[r1 s1']|], (run q s2) as [[r2 s2']|]; try done.
  destruct H as [HA HR']. split; [|done]. destruct r1, r2; simpl in *; auto.
Qed.
Lemma alike_bind {A B C D} (V : A → B → Prop) (W : C → D → Prop) p q k k' :
  alike V p q → (∀ a b, V a b → alike W (k a) (k' b)) → alike W (p ≫= k) (q ≫= k').
Proof.
  intros H Hk s1 s2 HR. specialize (H s1 s2 HR). rewrite !run_bind.
  destruct (run p s1) as [[r1 s1']|], (run q s2) as [[r2 s2']|]; try done.
  destruct H as [HA HR']. destruct r1, r2; simpl in HA; try done. by apply (Hk _ _ HA).
Qed.
Lemma alike_try {A B} (V : A → B → Prop) p q : alike V p q → alike (agree V) (try p) (try q).
Proof.
  intros H s1 s2 HR. specialize (H s1 s2 HR). rewrite !run_try.
  by destruct (run p s1) as [[r1 s1']|], (run q s2) as [[r2 s2']|].
Qed.
Lemma alike_map_err {A B} (V : A → B → Prop) f p q : alike V p q → alike V (map_err f p) (map_err f q).
Proof.
  intros H. apply (alike_bind (agree V)); [by apply alike_try|].
  intros [a|e] [b|e'] HA; simpl in HA; try done. subst. by apply alike_throw.
Qed.
Lemma alike_atomic {A B} (V : A → B → Prop) (m : M S A) (m' : M S B) :
  (∀ s1 s2, R s1 s2 → agree V (m s1).1 (m' s2).1 ∧ R (m s1).2 (m' s2).2) → alike V (atomic m) (atomic m').
Proof.
  intros H s1 s2 HR. rewrite !run_atomic. specialize (H s1 s2 HR).
  by destruct (m s1), (m' s2).
Qed.
(** The same program on both sides, its result known to be equal. *)
Lemma alike_let {A C D} (W : C → D → Prop) (p : P S A) k k' :
  alike eq p p → (∀ a, alike W (k a) (k' a)) → alike W (p ≫= k) (p ≫= k').
Proof. intros Hp Hk. apply (alike_bind eq); [done|]. by intros a ? <-. Qed.
Lemma alike_try_eq {A} (p : P S A) : alike eq p p → alike eq (try p) (try p).
Proof. intros H. eapply alike_mono; [by apply alike_try|]. intros a b. apply agree_eq. Qed.
End Alike.

Create HintDb alike discriminated.
#[export] Hint Resolve alike_ret alike_throw : alike.

(** Walk through one program on both sides whose results are equal, leaving its actions. *)
Ltac alikes_one :=
  intros;
  lazymatch goal with
  | |- alike _ eq (mret _) (mret _) => apply alike_ret; reflexivity
  | |- alike _ _ (throw _) (throw _) => apply alike_throw
  | _ => first
    [ solve [auto 3 with alike]
    | lazymatch goal with
      | |- alike _ _ (?p ≫= _) (?p ≫= _) => apply alike_let
      | |- alike _ eq (try _) (try _) => apply alike_try_eq
      | |- alike _ _ (map_err _ _) (map_err _ _) => apply alike_map_err
      | |- alike _ _ (match ?x with _ => _ end) (match ?x with _ => _ end) => destruct x
      end ]
  end.
Ltac alikes := repeat alikes_one; intros.

(** ** Lists and maps that agree through a projection *)

Lemma Forall2_filter {A B} (W : A → B → Prop) (p : A → bool) (q : B → bool) l1 l2 :
  Forall2 (λ a b, p a = q b ∧ (p a = true → W a b)) l1 l2 → Forall2 W (List.filter p l1) (List.filter q l2).
Proof.
  induction 1 as [|a b l1 l2 [E H] _ IH]; simpl; [constructor|]. rewrite <- E. destruct (p a); [|done].
  constructor; auto.
Qed.
Lemma Forall2_find {A B} (W : A → B → Prop) (p : A → bool) (q : B → bool) l1 l2 :
  Forall2 (λ a b, p a = q b ∧ (p a = true → W a b)) l1 l2 → option_Forall2 W (List.find p l1) (List.find q l2).
Proof.
  induction 1 as [|a b l1 l2 [E H] _ IH]; simpl; [constructor|]. rewrite <- E. destruct (p a); [|done].
  constructor; auto.
Qed.
Lemma rows_agree {V V' T} (f : V → T) (g : V' → T) (m1 : gmap N V) (m2 : gmap N V') :
  f <$> m1 = g <$> m2 → Forall2 (λ a b, f a = g b) (map_to_list m1).*2 (map_to_list m2).*2.
Proof.
  intros E. assert (f <$> (map_to_list m1).*2 = g <$> (map_to_list m2).*2) as H.
  { apply (f_equal (λ m, (map_to_list m).*2)) in E. rewrite !map_to_list_fmap, <- !list_fmap_compose in E.
    rewrite <- !list_fmap_compose. exact E. }
  revert H. generalize (map_to_list m1).*2 (map_to_list m2).*2. intros l1.
  induction l1 as [|a l1 IH]; intros [|b l2] H; simplify_eq/=; constructor; auto.
Qed.
Lemma Forall2_map_eq {A B T} (f : A → T) (g : B → T) l1 l2 :
  Forall2 (λ a b, f a = g b) l1 l2 ↔ map f l1 = map g l2.
Proof.
  split.
  - induction 1; simpl; congruence.
  - revert l2. induction l1 as [|a l1 IH]; intros [|b l2] H; simplify_eq/=; constructor; auto.
Qed.

(** Sorting commutes with a map that the order does not see. *)
Section SortMap.
Context {A B : Type} (f : A → B) (leA : A → A → bool) (leB : B → B → bool) (Hle : ∀ x y, leB (f x) (f y) = leA x y).
Local Abbreviation RA := (λ a b, Is_true (leA a b)).
Local Abbreviation RB := (λ a b, Is_true (leB a b)).
Lemma list_merge_map l1 l2 : list_merge RB (map f l1) (map f l2) = map f (list_merge RA l1 l2).
Proof.
  revert l2; induction l1 as [|x1 l1 IH1]; intros l2; induction l2 as [|x2 l2 IH2]; try done.
  change (map f (x1 :: l1)) with (f x1 :: map f l1) in *. change (map f (x2 :: l2)) with (f x2 :: map f l2) in *.
  rewrite (list_merge_cons RB), (list_merge_cons RA).
  destruct (decide (Is_true (leB (f x1) (f x2)))) as [H|H], (decide (Is_true (leA x1 x2))) as [H'|H']; rewrite Hle in H; try done;
    simpl; f_equal.
  - by rewrite <- IH1.
  - by rewrite <- IH2.
Qed.
Lemma merge_list_to_stack_map st l :
  merge_list_to_stack RB (map (option_map (map f)) st) (map f l) = map (option_map (map f)) (merge_list_to_stack RA st l).
Proof.
  revert l; induction st as [|[l'|] st IH]; intros l; simpl; [done| |done]. f_equal. rewrite <- IH. by rewrite list_merge_map.
Qed.
Lemma merge_stack_map st : merge_stack RB (map (option_map (map f)) st) = map f (merge_stack RA st).
Proof. induction st as [|[l|] st IH]; simpl; [done| |done]. by rewrite IH, list_merge_map. Qed.
Lemma merge_sort_map l : merge_sort RB (map f l) = map f (merge_sort RA l).
Proof.
  unfold merge_sort. change (@nil (option (list B))) with (map (option_map (map f)) (@nil (option (list A)))).
  generalize (@nil (option (list A))). induction l as [|x l IH]; intros st; simpl.
  - by rewrite merge_stack_map.
  - rewrite <- IH. f_equal. apply (merge_list_to_stack_map st [x]).
Qed.
End SortMap.
