(* ===== verification/Views.v ===== *)
(** * What the pages show ([internal/challenges/participant.go], [internal/handlers/challenges.go],
      [teams.go], [users.go], [guards.go], [events.go], [challenge_mappers.go])

    The participants' board and challenge pages, the public pages of teams and users with
    the freeze that hides their solves, the event, and the submission endpoint. *)

From S2P Require Import Prelude Env Store Events Scoring Runtime Submissions Scoreboard Users Teams Tokens Sessions Accounts Challenges.

(** ** Statements ([db/gen/challenges.sql.go], [submissions.sql.go]) *)

Section Views.
Context {L : Libs}.
(** How the database orders texts: its collation. *)
Context (text_le : string → string → bool).

(** Lexicographic: [category], then [points_initial], then [title]. *)
Definition board_le (a b : Challenge) : bool :=
  if negb (text_le (c_Category b) (c_Category a)) then text_le (c_Category a) (c_Category b) else
  if negb (text_le (c_Category a) (c_Category b)) then false else
  if bool_decide (c_PointsInitial a = c_PointsInitial b) then text_le (c_Title a) (c_Title b)
  else (c_PointsInitial a <? c_PointsInitial b)%Z.
Definition ListVisibleChallenges : M World (list Challenge) :=
  select (λ d, Ok (merge_sort (λ a b, Is_true (board_le a b)) (List.filter c_Visible (chal_rows d)))).

(** One row of a solve list: the join of a submission with its challenge, and, on a
    team's list, with its user. *)
Record SolveRow := {
  vs_ChallengeID : uuid; vs_SolvedAt : time; vs_Username : option string; vs_Slug : string; vs_Title : string; vs_Category : string
}.
Definition solve_row (d : DB) (username : option string) (s : Submission) : option SolveRow :=
  c ← challenges d !! s_ChallengeID s;
  if s_Correct s && c_Visible c
  then Some {| vs_ChallengeID := s_ChallengeID s; vs_SolvedAt := Env.s_CreatedAt s; vs_Username := username;
               vs_Slug := c_Slug c; vs_Title := c_Title c; vs_Category := c_Category c |}
  else None.
Definition team_solves (d : DB) (team : uuid) : list SolveRow :=
  omap (λ s, u ← users d !! Env.s_UserID s; solve_row d (Some (u_Username u)) s)
    (order_by Env.s_CreatedAt (List.filter (λ s, bool_decide (s_TeamID s = team)) (submissions d))).
Definition user_solves (d : DB) (user : uuid) : list SolveRow :=
  omap (solve_row d None) (order_by Env.s_CreatedAt (List.filter (λ s, bool_decide (Env.s_UserID s = user)) (submissions d))).
Definition ListTeamSolves (team : uuid) : M World (list SolveRow) := select (λ d, Ok (team_solves d team)).
Definition ListUserSolves (user : uuid) : M World (list SolveRow) := select (λ d, Ok (user_solves d user)).

(** ** [challenges/participant.go] *)

Definition CurrentPoints (c : Challenge) (solves : nat) : Z := Value (c_Scoring c) (scoreParams c) (Z.of_nat solves).

Record BoardEntry := { be_Challenge : Challenge; be_Points : Z; be_Solves : nat; be_SolvedByMe : bool }.
Definition solved_check (challenge team : uuid) : P World bool :=
  if decide (team = uuid_Nil) then mret false
  else map_err (Wrap "challenges: solved check") (atomic (HasTeamSolved challenge team)).
Definition board_entry (team : uuid) (c : Challenge) : P World BoardEntry :=
  n ← map_err (Wrap "challenges: counting solves") (atomic (CountChallengeSolves (c_ID c)));
  mine ← solved_check (c_ID c) team;
  mret {| be_Challenge := c; be_Points := CurrentPoints c n; be_Solves := n; be_SolvedByMe := mine |}.
Fixpoint map_prog {A B} (f : A → P World B) (l : list A) : P World (list B) :=
  match l with
  | [] => mret []
  | a :: l => b ← f a; bs ← map_prog f l; mret (b :: bs)
  end.
Definition ListVisible (team : uuid) : P World (list BoardEntry) :=
  rows ← map_err (Wrap "challenges: listing visible") (atomic ListVisibleChallenges);
  map_prog (board_entry team) rows.

Record Detail := { dt_Entry : BoardEntry; dt_Attachments : list ChallengeAttachment; dt_AttemptsUsed : nat }.
Definition GetVisibleDetail (slug : string) (team : uuid) : P World Detail :=
  c ← map_err (no_rows_as ErrNotFound "challenges: get by slug") (atomic (GetChallengeBySlug slug));
  if negb (c_Visible c) then throw ErrNotFound else
  n ← map_err (Wrap "challenges: counting solves") (atomic (CountChallengeSolves (c_ID c)));
  atts ← map_err (Wrap "challenges: listing attachments") (atomic (ListAttachments (c_ID c)));
  mine ← solved_check (c_ID c) team;
  used ← (if decide (team = uuid_Nil) then mret 0
          else map_err (Wrap "challenges: counting attempts") (atomic (CountTeamAttempts (c_ID c) team)));
  mret {| dt_Entry := {| be_Challenge := c; be_Points := CurrentPoints c n; be_Solves := n; be_SolvedByMe := mine |};
          dt_Attachments := atts; dt_AttemptsUsed := used |}.

Definition GetBySlug (slug : string) : P World Challenge :=
  map_err (no_rows_as ErrNotFound "challenges: get by slug") (atomic (GetChallengeBySlug slug)).
Definition GetByID (id : uuid) : P World Challenge :=
  map_err (no_rows_as ErrNotFound "challenges: get by id") (atomic (GetChallengeByID id)).
Definition CurrentValue (challenge : uuid) : P World Z :=
  c ← map_err (Wrap "challenges: current value") (atomic (GetChallengeByID challenge));
  n ← map_err (Wrap "challenges: current value solve count") (atomic (CountChallengeSolves challenge));
  mret (CurrentPoints c n).

Record AttachmentContent := { ct_Filename : string; ct_ContentType : string; ct_Size : Z; ct_Body : list N }.
(** [Open] is the object store's. *)
Definition OpenAttachment (Open : string → P World (list N)) (challenge attachment : uuid) : P World AttachmentContent :=
  att ← map_err (no_rows_as ErrNotFound "challenges: get attachment") (atomic (GetAttachment attachment challenge));
  body ← Open (at_ObjectKey att);
  mret {| ct_Filename := at_Filename att; ct_ContentType := at_ContentType att; ct_Size := at_SizeBytes att; ct_Body := body |}.

(** ** The caller ([guards.go]) *)

Context (caller : option Identity).

(** [errors.Is] on the two sentinels. *)
Definition is_denied (e : error) : bool :=
  match cause e with ErrUnauthenticated | ErrForbidden | Forbidden _ => true | _ => false end.
(** Unauthenticated or forbidden is not an admin; other errors propagate. *)
Definition callerIsAdmin : P World bool :=
  r ← try (requireAdmin caller);
  match r with
  | Ok _ => mret true
  | Err e => if is_denied e then mret false else throw e
  end.
Definition callerID : option uuid := id_UserID <$> caller.
Definition teamIDOrNil (user : uuid) : P World uuid :=
  r ← try (TeamOf user);
  mret match r with Ok (Some t) => tr_ID t | _ => uuid_Nil end.

(** [time.Time{}], January 1 of year 1. *)
Definition zero_time : time := (-62135596800 * Second)%Z.

(** The freeze decision and its point; [None] when it is not known.  A successful read is
    remembered, a failed one is answered by what was. *)
Definition freezeState : P World (option (bool * time)) :=
  r ← try Events.Get;
  match r with
  | Err _ =>
      last ← atomic (gets w_freeze);
      atomic (emit (Log "WARN" "freeze visibility: events read failed"));;
      mret last
  | Ok e =>
      fr ← Events.Frozen e;
      let at_ := default zero_time (e_FreezeAt e) in
      atomic (modify (set_freeze (Some (fr, at_))));;
      mret (Some (fr, at_))
  end.

(** Whether solves from a point on are hidden from the caller, and the point; [events] tells
    whether the service is wired. *)
Definition freezeHidesSolvesAfter (events : bool) (resourceTeam : option uuid) : P World (bool * time) :=
  if negb events then mret (true, zero_time) else
  st ← freezeState;
  match st with
  | None => mret (true, zero_time)
  | Some (false, _) => mret (false, zero_time)
  | Some (true, freezeAt) =>
      admin ← try callerIsAdmin;
      if bool_decide (admin = Ok true) then mret (false, zero_time) else
      own ← match resourceTeam, callerID with
            | Some team, Some id => try (IsMember team id)
            | _, _ => mret (Ok false)
            end;
      if bool_decide (own = Ok true) then mret (false, zero_time) else mret (true, freezeAt)
  end.

(** ** [handlers/challenges.go], [challenge_mappers.go] *)

(** Visible past the start, or to an administrator. *)
Definition eventStarted : P World bool :=
  e ← Events.Get;
  ph ← Events.Phase_ e;
  if bool_decide (ph = Events.PhasePre) then callerIsAdmin else mret true.
Definition not_started : error := Forbidden "the event has not started yet".

Context (has_runtime : bool) (publicHost : string).

(** [apigen.Challenge], [ChallengeDetail] and [TeamInstance]: the fields the mappers fill. *)
Record ApiChallenge := {
  pc_Id : uuid; pc_Slug : string; pc_Title : string; pc_Category : string; pc_Difficulty : option string;
  pc_Points : Z; pc_Solves : nat; pc_SolvedByMe : bool; pc_Kind : string; pc_Instancing : string;
  pc_HasInstance : bool; pc_ConnectionInfo : option string
}.
Definition toChallenge (e : BoardEntry) : ApiChallenge :=
  let c := be_Challenge e in
  {| pc_Id := c_ID c; pc_Slug := c_Slug c; pc_Title := c_Title c; pc_Category := c_Category c; pc_Difficulty := c_Difficulty c;
     pc_Points := be_Points e; pc_Solves := be_Solves e; pc_SolvedByMe := be_SolvedByMe e; pc_Kind := c_Kind c;
     pc_Instancing := c_Instancing c; pc_HasInstance := false; pc_ConnectionInfo := None |}.
Record TeamInstance := {
  ti_Id : uuid; ti_State : State; ti_StartedAt : option time; ti_ExpiresAt : option time; ti_HostPort : option Z;
  ti_Error : option string; ti_ConnectionInfo : option string
}.
Definition some_text (s : string) : option string := if bool_decide (s = "") then None else Some s.
Definition some_port (p : Z) : option Z := if (p =? 0)%Z then None else Some p.
Definition toTeamInstance (ch : Challenge) (inst : Instance) : TeamInstance :=
  {| ti_Id := in_ID inst; ti_State := in_State inst; ti_StartedAt := in_StartedAt inst; ti_ExpiresAt := in_ExpiresAt inst;
     ti_HostPort := some_port (in_HostPort inst); ti_Error := some_text (in_Err inst);
     ti_ConnectionInfo := if has_runtime then some_text (ConnectionInfo publicHost ch inst) else None |}.
Record ApiAttachment := { aa_Id : uuid; aa_Filename : string; aa_SizeBytes : Z }.
Definition toAttachment (a : ChallengeAttachment) : ApiAttachment :=
  {| aa_Id := at_ID a; aa_Filename := at_Filename a; aa_SizeBytes := at_SizeBytes a |}.
Record ApiChallengeDetail := {
  pd_Challenge : ApiChallenge; pd_FlagMode : string; pd_Description : string; pd_Attachments : list ApiAttachment;
  pd_MaxAttempts : option Z; pd_AttemptsUsed : nat; pd_Instance : option TeamInstance
}.
Definition toChallengeDetail (d : Detail) : ApiChallengeDetail :=
  let c := be_Challenge (dt_Entry d) in
  {| pd_Challenge := toChallenge (dt_Entry d); pd_FlagMode := c_FlagMode c; pd_Description := c_Description c;
     pd_Attachments := map toAttachment (dt_Attachments d); pd_MaxAttempts := c_MaxAttempts c;
     pd_AttemptsUsed := dt_AttemptsUsed d; pd_Instance := None |}.

Definition with_instance (conn : option string) (c : ApiChallenge) : ApiChallenge :=
  {| pc_Id := pc_Id c; pc_Slug := pc_Slug c; pc_Title := pc_Title c; pc_Category := pc_Category c;
     pc_Difficulty := pc_Difficulty c; pc_Points := pc_Points c; pc_Solves := pc_Solves c;
     pc_SolvedByMe := pc_SolvedByMe c; pc_Kind := pc_Kind c; pc_Instancing := pc_Instancing c;
     pc_HasInstance := true; pc_ConnectionInfo := conn |}.
Definition enrichInstance (ch : Challenge) (c : ApiChallenge) : P World ApiChallenge :=
  if negb has_runtime || negb (bool_decide (c_Kind ch = "container")) then mret c else
  o ← InstanceForChallenge (c_ID ch);
  mret match o with
       | Some inst => with_instance (some_text (ConnectionInfo publicHost ch inst)) c
       | None => c
       end.
Definition enrichDetailInstance (ch : Challenge) (team : uuid) (d : ApiChallengeDetail) : P World ApiChallengeDetail :=
  if negb has_runtime || negb (bool_decide (c_Kind ch = "container")) then mret d else
  o ← (if bool_decide (c_Instancing ch = "per_team")
       then if decide (team = uuid_Nil) then mret None
            else r ← try (ManagerGetTeamInstance (c_ID ch) team); mret match r with Ok o => o | Err _ => None end
       else InstanceForChallenge (c_ID ch));
  mret match o with
       | Some inst =>
           let ti := toTeamInstance ch inst in
           {| pd_Challenge := with_instance (ti_ConnectionInfo ti) (pd_Challenge d); pd_FlagMode := pd_FlagMode d;
              pd_Description := pd_Description d; pd_Attachments := pd_Attachments d; pd_MaxAttempts := pd_MaxAttempts d;
              pd_AttemptsUsed := pd_AttemptsUsed d; pd_Instance := Some ti |}
       | None => d
       end.

Definition h_ListChallenges : P World (list ApiChallenge) :=
  id ← requireUser caller;
  started ← eventStarted;
  if negb started then throw not_started else
  team ← teamIDOrNil (id_UserID id);
  entries ← ListVisible team;
  map_prog (λ e, enrichInstance (be_Challenge e) (toChallenge e)) entries.
Definition h_GetChallenge (slug : string) : P World ApiChallengeDetail :=
  id ← requireUser caller;
  started ← eventStarted;
  if negb started then throw not_started else
  team ← teamIDOrNil (id_UserID id);
  d ← GetVisibleDetail slug team;
  enrichDetailInstance (be_Challenge (dt_Entry d)) team (toChallengeDetail d).
Definition h_DownloadAttachment (Open : string → P World (list N)) (slug : string) (attachment : uuid) : P World AttachmentContent :=
  _ ← requireUser caller;
  started ← eventStarted;
  if negb started then throw not_started else
  c ← GetBySlug slug;
  allowed ← (if c_Visible c then mret true
             else admin ← try callerIsAdmin; mret (bool_decide (admin = Ok true)));
  if negb allowed then throw ErrNotFound else OpenAttachment Open (c_ID c) attachment.

(** ** [handlers/teams.go], [users.go] *)

Record Solve := {
  sv_ChallengeId : uuid; sv_Slug : string; sv_Title : string; sv_Category : string; sv_Points : Z; sv_SolvedAt : time;
  sv_Username : option string
}.
(** The rows shown, each with the challenge's current value. *)
Definition shown (hide : bool) (cutoff : time) (r : SolveRow) : bool := negb (hide && negb (vs_SolvedAt r <? cutoff)%Z).
Definition to_solve (r : SolveRow) : P World Solve :=
  pts ← CurrentValue (vs_ChallengeID r);
  mret {| sv_ChallengeId := vs_ChallengeID r; sv_Slug := vs_Slug r; sv_Title := vs_Title r; sv_Category := vs_Category r;
          sv_Points := pts; sv_SolvedAt := vs_SolvedAt r; sv_Username := vs_Username r |}.
Record TeamDetail := {
  td_Id : uuid; td_Name : string; td_Members : list ListTeamMembersRow; td_Points : Z; td_Solves : list Solve;
  td_InviteCode : option string
}.
Definition h_GetTeam (events : bool) (id : uuid) : P World TeamDetail :=
  team ← team_Get id;
  rows ← atomic (ListTeamSolves (t_ID (tv_Row team)));
  hc ← freezeHidesSolvesAfter events (Some (t_ID (tv_Row team)));
  solves ← map_prog to_solve (List.filter (shown hc.1 hc.2) rows);
  code ← match callerID with
         | Some u => m ← IsMember (t_ID (tv_Row team)) u;
                     mret (if m : bool then Some (t_InviteCode (tv_Row team)) else None)
         | None => mret None
         end;
  mret {| td_Id := t_ID (tv_Row team); td_Name := t_Name (tv_Row team); td_Members := tv_Members team;
          td_Points := foldr Z.add 0%Z (map sv_Points solves); td_Solves := solves; td_InviteCode := code |}.
Record TeamSummary := { ts_Id : uuid; ts_Name : string; ts_MemberCount : nat; ts_Points : Z }.
Definition h_ListTeams : P World (list TeamSummary) :=
  rows ← PublicList;
  mret (map (λ r, {| ts_Id := lp_ID r; ts_Name := lp_Name r; ts_MemberCount := lp_MemberCount r; ts_Points := 0 |}) rows).

Record PublicUser := { pu_Id : uuid; pu_Username : string; pu_Solves : list Solve; pu_Team : option (uuid * string) }.
Definition h_GetUser (events : bool) (id : uuid) : P World PublicUser :=
  u ← user_Get id;
  (if u_Hidden u
   then admin ← try callerIsAdmin; if bool_decide (admin = Ok true) then mret tt else throw ErrNotFound
   else mret tt);;
  rows ← atomic (ListUserSolves (u_ID u));
  team ← TeamOf (u_ID u);
  hc ← freezeHidesSolvesAfter events (tr_ID <$> team);
  solves ← map_prog to_solve (List.filter (shown hc.1 hc.2) rows);
  mret {| pu_Id := u_ID u; pu_Username := u_Username u; pu_Solves := solves;
          pu_Team := (λ t, (tr_ID t, tr_Name t)) <$> team |}.
End Views.
