(* ===== verification/Endpoints.v ===== *)
(** * The remaining endpoints, and the ticker ([internal/handlers/submissions.go],
      [instances_scheduler.go], [admin_instances.go], [admin_teams.go], [events.go],
      [scoreboard.go]; [cmd/platform/main.go])

    Flag submission, the controls of instances for teams and administrators, the event and
    its freeze, the teams' administration, the board, and the loop that captures the
    freeze, refreshes the board and tears instances down when the event ends. *)

From S2P Require Import Prelude Env Store Events Scoring Runtime Scheduler Submissions Scoreboard Users Teams Tokens Sessions Accounts Challenges Views.

Section Endpoints.
Context {L : Libs} (c : AuthConf) {RT : ChallengeRuntime}.
Context (caller : option Identity).
(** Is the scheduler, is the runtime, is the board configured? *)
Context (has_scheduler has_runtime has_board : bool).
Context (publicHost : string) (portStart portEnd : Z) (cfg : Config) (prefix : string).

(** ** Recomputing the board after a request ([guards.go], the hooks of [main.go]) *)

(** The hook [main] sets: the error of a recompute is logged. *)
Definition recompute_logged (wired : bool) : P World unit :=
  r ← try (Scoreboard.Recompute wired);
  match r with Ok _ => mret tt | Err _ => atomic (emit (Log "WARN" "scoreboard recompute failed")) end.
Definition recomputeForce_logged (wired : bool) : P World unit :=
  r ← try (Scoreboard.RecomputeForce wired);
  match r with Ok _ => mret tt | Err _ => atomic (emit (Log "WARN" "scoreboard force recompute failed")) end.

(** ** Submitting a flag *)

Section Submit.
Context (checker : option ChallengeTypes) (scorer : option Scorer) (bus : bool).
Context (Recompute : P World unit).
Record SubmitResult := { sr_Correct : bool; sr_Points : option Z }.
Definition submit_limits (team user : uuid) (slug : string) : P World unit :=
  limit c "sub-team-chal" (uuid_String team +:+ ":" +:+ slug) 10 Minute;;
  limit c "sub-user" (uuid_String user) 30 Minute.
Definition h_SubmitFlag (slug : string) (body : option string) : P World SubmitResult :=
  id ← requireUser caller;
  match body with
  | None => throw ErrBadRequest
  | Some flag =>
      team ← TeamOf (id_UserID id);
      match team with
      | None => throw (Forbidden "you must be on a team to submit flags")
      | Some ref =>
          submit_limits (tr_ID ref) (id_UserID id) slug;;
          row ← GetRow (tr_ID ref);
          admin ← callerIsAdmin caller;
          res ← Submit checker scorer bus true
            {| si_UserID := id_UserID id; si_TeamID := tr_ID ref; si_Slug := slug; si_Flag := flag;
               si_TeamBanned := t_Banned row; si_BypassWindow := admin |};
          atomic (emit (Inc "Submissions" [if rs_Correct res then "true" else "false"]));;
          (if rs_Correct res then Recompute else mret tt);;
          mret {| sr_Correct := rs_Correct res; sr_Points := rs_Points res |}
      end
  end.
End Submit.

(** ** A team's instances *)

Definition requireScheduler : P World unit :=
  if has_scheduler then mret tt else throw (Unavailable "the instance scheduler is not configured" 0).
Definition callerTeam : P World (uuid * uuid) :=
  id ← requireUser caller;
  ref ← TeamOf (id_UserID id);
  match ref with
  | None => throw (Forbidden "you must be on a team to use instances")
  | Some t => mret (id_UserID id, tr_ID t)
  end.
(** The payload, and whether the instance is new (201 or 200). *)
Definition h_StartInstance (slug : string) : P World (TeamInstance * bool) :=
  requireScheduler;;
  ut ← callerTeam;
  ch ← GetBySlug slug;
  r ← map_err mapRuntimeErr (Start portStart portEnd cfg prefix ut.1 ut.2 (c_ID ch));
  mret (toTeamInstance has_runtime publicHost ch r.1, r.2).
Definition h_StopInstance (slug : string) : P World unit :=
  requireScheduler;;
  ut ← callerTeam;
  ch ← GetBySlug slug;
  map_err mapRuntimeErr (Stop ut.1 ut.2 (c_ID ch)).
Definition h_ExtendInstance (slug : string) : P World TeamInstance :=
  requireScheduler;;
  ut ← callerTeam;
  ch ← GetBySlug slug;
  inst ← map_err mapRuntimeErr (Extend cfg ut.2 (c_ID ch));
  mret (toTeamInstance has_runtime publicHost ch inst).

(** ** Instances, for administrators *)

Definition requireRuntime : P World unit :=
  if has_runtime then mret tt else throw (Unavailable "the container runtime is not configured" 0).

(** [apigen.Instance] and [apigen.AdminInstance]. *)
Record ApiInstance := {
  ai_Id : uuid; ai_State : State; ai_StartedAt : option time; ai_LastHealthAt : option time; ai_HostPort : option Z;
  ai_Error : option string; ai_ConnectionInfo : option string
}.
Definition instancePayload (ch : Challenge) (inst : Instance) : ApiInstance :=
  {| ai_Id := in_ID inst; ai_State := in_State inst; ai_StartedAt := in_StartedAt inst; ai_LastHealthAt := in_LastHealthAt inst;
     ai_HostPort := some_port (in_HostPort inst); ai_Error := some_text (in_Err inst);
     ai_ConnectionInfo := some_text (ConnectionInfo publicHost ch inst) |}.
Definition loadChallenge (id : uuid) : P World Challenge :=
  full ← GetAdmin id; mret full.1.1.
Definition h_AdminDeployInstance (id : uuid) : P World ApiInstance :=
  actor ← requireAdmin caller;
  requireRuntime;;
  inst ← map_err mapRuntimeErr (Deploy portStart portEnd id);
  ch ← loadChallenge id;
  atomic (audit_Log (u_ID actor) "instance.deploy" "instance" (uuid_String (in_ID inst))
    {[ "challenge_id" := uuid_String id; "state" := State_string (in_State inst) ]});;
  mret (instancePayload ch inst).
Definition h_AdminGetInstance (id : uuid) : P World ApiInstance :=
  _ ← requireAdmin caller;
  requireRuntime;;
  o ← map_err mapRuntimeErr (Runtime.Get id);
  match o with
  | None => throw ErrNotFound
  | Some inst => ch ← loadChallenge id; mret (instancePayload ch inst)
  end.
Definition h_AdminRestartInstance (id : uuid) : P World ApiInstance :=
  actor ← requireAdmin caller;
  requireRuntime;;
  inst ← map_err mapRuntimeErr (Restart portStart portEnd id);
  ch ← loadChallenge id;
  atomic (audit_Log (u_ID actor) "instance.restart" "instance" (uuid_String (in_ID inst)) ∅);;
  mret (instancePayload ch inst).
Definition h_AdminDestroyInstance (id : uuid) : P World unit :=
  actor ← requireAdmin caller;
  requireRuntime;;
  map_err mapRuntimeErr (Destroy id);;
  atomic (audit_Log (u_ID actor) "instance.destroy" "challenge" (uuid_String id) ∅).
Definition h_AdminGetInstanceLogs (id : uuid) (tail : option Z) : P World string :=
  _ ← requireAdmin caller;
  requireRuntime;;
  map_err mapRuntimeErr (Logs id (default 200%Z tail)).

Record AdminInstance := {
  an_Id : uuid; an_ChallengeId : uuid; an_State : State; an_TeamId : option uuid; an_StartedAt : option time;
  an_ExpiresAt : option time; an_LastHealthAt : option time; an_HostPort : option Z; an_Network : option string;
  an_Error : option string; an_ChallengeSlug : option string; an_TeamName : option string
}.
(** The slug and the name are left out when they cannot be read. *)
Definition toAdminInstance (inst : Instance) : P World AdminInstance :=
  ch ← try (GetByID (in_ChallengeID inst));
  team ← match in_TeamID inst with
         | Some t => r ← try (GetRow t); mret (match r with Ok row => Some (t_Name row) | Err _ => None end)
         | None => mret None
         end;
  mret {| an_Id := in_ID inst; an_ChallengeId := in_ChallengeID inst; an_State := in_State inst; an_TeamId := in_TeamID inst;
          an_StartedAt := in_StartedAt inst; an_ExpiresAt := in_ExpiresAt inst; an_LastHealthAt := in_LastHealthAt inst;
          an_HostPort := some_port (in_HostPort inst); an_Network := some_text (in_Network inst);
          an_Error := some_text (in_Err inst);
          an_ChallengeSlug := match ch with Ok x => Some (c_Slug x) | Err _ => None end; an_TeamName := team |}.
(** What the runtime reports, when it can: the manager asks for an optional interface. *)
Context (ListUnadopted : option (P World (list UnadoptedContainer))) (ListUnadoptedNetworks : option (P World (list UnadoptedNetwork))).
Definition listed {A} (o : option (P World (list A))) : P World (option (list A)) :=
  r ← try (match o with Some p => p | None => mret [] end);
  mret (match r with Ok [] | Err _ => None | Ok l => Some l end).
Record AdminInstanceList := {
  al_Items : list AdminInstance; al_Unadopted : option (list UnadoptedContainer); al_Networks : option (list UnadoptedNetwork)
}.
Definition h_AdminListInstances : P World AdminInstanceList :=
  _ ← requireAdmin caller;
  requireRuntime;;
  insts ← ListAll;
  items ← map_prog toAdminInstance insts;
  us ← listed ListUnadopted;
  ns ← listed ListUnadoptedNetworks;
  mret {| al_Items := items; al_Unadopted := us; al_Networks := ns |}.
Definition h_AdminDestroyInstanceById (id : uuid) : P World unit :=
  actor ← requireAdmin caller;
  requireRuntime;;
  map_err mapRuntimeErr (DestroyInstance id);;
  atomic (audit_Log (u_ID actor) "instance.cleanup" "instance" (uuid_String id) {[ "reason" := "admin" ]}).

(** ** Attachments and plugins, for administrators *)

(** The object store, and the cap on an upload. *)
Section Files.
Context (Put : string → list N → string → P World unit) (Delete : string → P World unit) (MaxAttachmentMB : Z).
(** The first part of the multipart body; its content may fail to be read. *)
Record part := { pt_FormName : string; pt_FileName : string; pt_ContentType : string; pt_Content : res (list N) }.
Definition attachment_checks (r : option (res part)) : P World (string * string * list N) :=
  match r with
  | None => throw ErrBadRequest
  | Some (Err _) => throw (Wrap "expected a 'file' part" ErrBadRequest)
  | Some (Ok p) =>
      if negb (bool_decide (pt_FormName p = "file")) then throw (Wrap "the multipart field must be named 'file'" ErrBadRequest) else
      if bool_decide (pt_FileName p = "") then throw (Wrap "the uploaded file has no name" ErrBadRequest) else
      match pt_Content p with
      | Err e => throw (Wrap "challenges: reading upload" e)
      | Ok content =>
          let maxBytes := (MaxAttachmentMB * 1024 * 1024)%Z in
          let buf := take (Z.to_nat (maxBytes + 1)) content in
          if (maxBytes <? Z.of_nat (length buf))%Z
          then throw (Validation (Add "file" ("exceeds the " +:+ Itoa MaxAttachmentMB +:+ " MB limit") NewValidation))
          else mret (pt_FileName p, pt_ContentType p, buf)
      end
  end.
Definition h_AdminUploadAttachment (id : uuid) (body : option (res part)) : P World ChallengeAttachment :=
  actor ← requireAdmin caller;
  f ← attachment_checks body;
  att ← UploadAttachment Put Delete id f.1.1 f.1.2 f.2;
  atomic (audit_Log (u_ID actor) "challenge.attachment.upload" "challenge" (uuid_String id) {[ "filename" := f.1.1 ]});;
  mret att.
Definition h_AdminDeleteAttachment (id attachment : uuid) : P World unit :=
  actor ← requireAdmin caller;
  DeleteAttachment Delete id attachment;;
  atomic (audit_Log (u_ID actor) "challenge.attachment.delete" "attachment" (uuid_String attachment) ∅).
End Files.
Definition h_AdminGetChallenge (id : uuid) : P World Full :=
  _ ← requireAdmin caller; GetAdmin id.

Record PluginStatus := { pl_Name : string; pl_Type : string; pl_State : string; pl_Reason : string }.
Record AdminPluginStatus := { ap_Name : string; ap_Type : string; ap_State : string; ap_Reason : option string }.
Definition h_AdminListPlugins (PluginSnapshot : option (P World (list PluginStatus))) : P World (list AdminPluginStatus) :=
  _ ← requireAdmin caller;
  l ← match PluginSnapshot with Some p => p | None => mret [] end;
  mret (map (λ p, {| ap_Name := pl_Name p; ap_Type := pl_Type p; ap_State := pl_State p; ap_Reason := some_text (pl_Reason p) |}) l).
Definition ErrNoSuchPlugin : error := ErrOther "plugin: no such plugin".
Definition h_AdminReloadPlugin (PluginReload : option (string → P World unit)) (name : string) : P World unit :=
  _ ← requireAdmin caller;
  match PluginReload with
  | None => throw ErrNotFound
  | Some reload =>
      r ← try (reload name);
      match r with
      | Ok _ => mret tt
      | Err e =>
          if decide (cause e = ErrNoSuchPlugin) then throw ErrNotFound else
          atomic (emit (Log "WARN" "plugin reload failed; the previous instance is retained"));;
          throw (Unavailable "the plugin did not come up; the previous instance is still serving" 0)
      end
  end.

(** ** Teams, for administrators *)

Record TeamAdmin := { ta_Id : uuid; ta_Name : string; ta_Banned : bool; ta_Hidden : bool; ta_MemberCount : nat; ta_CreatedAt : time }.
Definition h_AdminUpdateTeam (id : uuid) (body : option (option bool * option bool)) : P World TeamAdmin :=
  actor ← requireAdmin caller;
  match body with
  | None => throw ErrBadRequest
  | Some (banned, hidden) =>
      t ← team_AdminUpdate id banned hidden;
      n ← MemberCount (t_ID t);
      atomic (audit_Log (u_ID actor) "team.update" "team" (uuid_String id)
        {[ "banned" := show_bool banned; "hidden" := show_bool hidden ]});;
      mret {| ta_Id := t_ID t; ta_Name := t_Name t; ta_Banned := t_Banned t; ta_Hidden := t_Hidden t; ta_MemberCount := n;
              ta_CreatedAt := t_CreatedAt t |}
  end.

(** ** The event *)

Record ApiEvent := {
  ev_Name : string; ev_Description : string; ev_StartsAt : time; ev_EndsAt : time; ev_Frozen : bool; ev_Phase : Phase
}.
Definition h_GetEvent : P World ApiEvent :=
  e ← Events.Get;
  frozen ← Events.Frozen e;
  phase ← Events.Phase_ e;
  mret {| ev_Name := e_Name e; ev_Description := e_Description e; ev_StartsAt := e_StartsAt e; ev_EndsAt := e_EndsAt e;
          ev_Frozen := frozen; ev_Phase := phase |}.
Definition h_AdminGetEvent : P World Event :=
  _ ← requireAdmin caller; Events.Get.
Record EventUpdate := {
  eu_Name : option string; eu_Description : option string; eu_StartsAt : option time; eu_EndsAt : option time; eu_FreezeAt : option time
}.
(** Every update sets the freeze; clearing it removes the frozen board. *)
Definition h_AdminUpdateEvent (Recompute : P World unit) (body : option EventUpdate) : P World Event :=
  actor ← requireAdmin caller;
  match body with
  | None => throw ErrBadRequest
  | Some b =>
      e ← Events.Update {| Events.ui_Name := eu_Name b; Events.ui_Description := eu_Description b; Events.ui_StartsAt := eu_StartsAt b;
                           Events.ui_EndsAt := eu_EndsAt b; Events.ui_SetFreeze := true; Events.ui_FreezeAt := eu_FreezeAt b |};
      (if negb (is_Some_b (e_FreezeAt e)) && has_board then ClearFreeze else mret tt);;
      atomic (audit_Log (u_ID actor) "event.update" "event" (uuid_String (e_ID e)) ∅);;
      Recompute;;
      mret e
  end.

(** ** The board *)

Definition h_GetScoreboard : P World Snapshot :=
  admin ← callerIsAdmin caller;
  Current admin.

(** ** The tickers ([cmd/platform/main.go]) *)

Record TickState := { tk_lastPhase : option Phase; tk_endCleanupDone : bool }.
Definition tick_start : TickState := {| tk_lastPhase := None; tk_endCleanupDone := false |}.
Definition warn {A} (msg : string) (p : P World A) : P World unit :=
  r ← try p;
  match r with Ok _ => mret tt | Err _ => atomic (emit (Log "WARN" msg)) end.
(** The event has ended: tear down what is left, until a pass leaves nothing. *)
Definition end_cleanup (done : bool) : P World bool :=
  if done then mret true else
  r ← CleanupEnded;
  match r with
  | (_, Some _) => atomic (emit (Log "WARN" "event-end instance cleanup failed"));; mret false
  | (O, None) => mret true
  | (S _, None) => atomic (emit (Log "WARN" "event-end instance cleanup incomplete; retrying next tick"));; mret false
  end.
Section Tick.
Context (wired : bool) (BroadcastPhase : Phase → P World unit).
Definition tick (s : TickState) : P World TickState :=
  warn "freeze snapshot failed" MaybeSnapshotFreeze;;
  warn "periodic scoreboard reconcile failed" (ReconcileIfBehind wired);;
  g ← try Events.Get;
  match g with
  | Err _ => mret s
  | Ok e =>
      phase ← Events.Phase_ e;
      (if is_Some_b (tk_lastPhase s) && negb (bool_decide (tk_lastPhase s = Some phase))
       then BroadcastPhase phase;; warn "recompute on phase change failed" (Scoreboard.Recompute wired)
       else mret tt);;
      done ← (if bool_decide (phase = PhaseEnded) then end_cleanup (tk_endCleanupDone s) else mret false);
      mret {| tk_lastPhase := Some phase; tk_endCleanupDone := done |}
  end.
(** [n] rounds of the loop. *)
Fixpoint runTickers (n : nat) (s : TickState) : P World TickState :=
  match n with O => mret s | S n => s' ← tick s; runTickers n s' end.
End Tick.
(** One round of [runReconcile]. *)
Definition reconcile_tick : P World unit := warn "runtime reconcile failed" rt_Reconcile.
End Endpoints.
