(* ===== verification/AdminLists.v ===== *)
(** * The administrators' lists and counters ([internal/handlers/admin_users.go],
      [admin_teams.go], [admin_challenges.go], [admin_submissions.go]; the services'
      [admin.go]; [internal/db/queries/])

    Users, teams, challenges and submissions, a page at a time, and the dashboard.
    [ILIKE], the collation of [text], and the two columns the rows of the model leave out
    ([users.created_at] and [submissions.ip], which nothing updates) are parameters. *)

From S2P Require Import Prelude Env Store Events Scoring Runtime Scheduler Submissions Scoreboard Users Teams Tokens Sessions Accounts Challenges Views Endpoints.

Section Lists.
Context {L : Libs} (caller : option Identity).
Context (ILike : string → string → bool) (text_le : string → string → bool).
Context (user_CreatedAt : User → time) (submission_Ip : Submission → option string).

(** ** Filters and pages *)

(** [$n IS NULL OR column = $n]. *)
Definition matches {A} `{EqDecision A} (f : option A) (column : A) : bool :=
  match f with None => true | Some v => bool_decide (column = v) end.
(** [$n IS NULL OR column ILIKE '%' || $n || '%']. *)
Definition contains (q : option string) (column : string) : bool :=
  match q with None => true | Some q => ILike column ("%" +:+ q +:+ "%") end.
(** [LIMIT $1 OFFSET $2]. *)
Definition page_of {A} (limit offset : Z) (l : list A) : list A :=
  take (Z.to_nat limit) (drop (Z.to_nat offset) l).

Record Page (A : Type) := { pa_Items : list A; pa_Total : nat; pa_Page : Z; pa_PerPage : Z }.
#[global] Arguments pa_Items {A}. #[global] Arguments pa_Total {A}.
#[global] Arguments pa_Page {A}. #[global] Arguments pa_PerPage {A}.
Definition paged {A} (p : Params) (items : list A) (total : nat) : Page A :=
  {| pa_Items := items; pa_Total := total; pa_Page := pg_Page p; pa_PerPage := pg_PerPage p |}.

(** ** Users *)

Record UserFilters := { uf_Query : option string; uf_Banned : option bool; uf_Hidden : option bool; uf_Role : option string }.
Definition user_selected (f : UserFilters) (u : User) : bool :=
  (contains (uf_Query f) (u_Username u) || contains (uf_Query f) (u_Email u)) &&
  matches (uf_Banned f) (u_Banned u) && matches (uf_Hidden f) (u_Hidden u) && matches (uf_Role f) (u_Role u).
Definition ListUsersAdmin (limit offset : Z) (f : UserFilters) : M World (list (User * option (uuid * string))) :=
  select (λ d, Ok (map (λ u, (u, option_map (λ t, (t_ID t, t_Name t)) (user_team d (u_ID u))))
    (page_of limit offset (order_by (λ u, - user_CreatedAt u)%Z (List.filter (user_selected f) (user_rows d)))))).
Definition CountUsersAdmin (f : UserFilters) : M World nat :=
  select (λ d, Ok (length (List.filter (user_selected f) (user_rows d)))).

Definition user_ListAdmin (p : Params) (f : UserFilters) : P World (list (User * option (uuid * string)) * nat) :=
  items ← map_err (Wrap "users: listing") (atomic (ListUsersAdmin (Limit p) (Offset p) f));
  total ← map_err (Wrap "users: counting") (atomic (CountUsersAdmin f));
  mret (items, total).

Record UserAdmin := {
  ua_Id : uuid; ua_Username : string; ua_Email : string; ua_Role : string; ua_Banned : bool; ua_Hidden : bool;
  ua_CreatedAt : time; ua_Team : option (uuid * string)
}.
Definition toUserAdmin (r : User * option (uuid * string)) : UserAdmin :=
  {| ua_Id := u_ID r.1; ua_Username := u_Username r.1; ua_Email := u_Email r.1; ua_Role := u_Role r.1;
     ua_Banned := u_Banned r.1; ua_Hidden := u_Hidden r.1; ua_CreatedAt := user_CreatedAt r.1; ua_Team := r.2 |}.
Definition h_AdminListUsers (page perPage : option Z) (f : UserFilters) : P World (Page UserAdmin) :=
  _ ← requireAdmin caller;
  let p := Normalize page perPage in
  '(items, total) ← user_ListAdmin p f;
  mret (paged p (map toUserAdmin items) total).

(** ** Teams *)

Definition ListTeamsAdmin (limit offset : Z) (q : option string) : M World (list (Team * nat)) :=
  select (λ d, Ok (map (λ t, (t, length (List.filter (member_of (t_ID t)) (members d))))
    (page_of limit offset (order_by (λ t, - t_CreatedAt t)%Z (List.filter (λ t, contains q (t_Name t)) (team_rows d)))))).
Definition CountTeamsAdmin (q : option string) : M World nat :=
  select (λ d, Ok (length (List.filter (λ t, contains q (t_Name t)) (team_rows d)))).

Definition team_ListAdmin (p : Params) (q : option string) : P World (list (Team * nat) * nat) :=
  items ← map_err (Wrap "teams: listing") (atomic (ListTeamsAdmin (Limit p) (Offset p) q));
  total ← map_err (Wrap "teams: counting") (atomic (CountTeamsAdmin q));
  mret (items, total).
Definition h_AdminListTeams (page perPage : option Z) (q : option string) : P World (Page TeamAdmin) :=
  _ ← requireAdmin caller;
  let p := Normalize page perPage in
  '(items, total) ← team_ListAdmin p q;
  mret (paged p (map (λ '(t, n),
    {| ta_Id := t_ID t; ta_Name := t_Name t; ta_Banned := t_Banned t; ta_Hidden := t_Hidden t; ta_MemberCount := n;
       ta_CreatedAt := t_CreatedAt t |}) items) total).

(** ** Challenges *)

Record ChallengeFilters := { cf_Category : option string; cf_Visible : option bool; cf_Kind : option string }.
Definition challenge_selected (f : ChallengeFilters) (c : Challenge) : bool :=
  matches (cf_Category f) (c_Category c) && matches (cf_Visible f) (c_Visible c) && matches (cf_Kind f) (c_Kind c).
(** [ORDER BY category, title]. *)
Definition category_title_le (a b : Challenge) : bool :=
  if negb (text_le (c_Category b) (c_Category a)) then text_le (c_Category a) (c_Category b) else
  if negb (text_le (c_Category a) (c_Category b)) then false else text_le (c_Title a) (c_Title b).
Definition ListChallengesAdmin (limit offset : Z) (f : ChallengeFilters) : M World (list Challenge) :=
  select (λ d, Ok (page_of limit offset
    (merge_sort (λ a b, Is_true (category_title_le a b)) (List.filter (challenge_selected f) (chal_rows d))))).
Definition CountChallengesAdmin (f : ChallengeFilters) : M World nat :=
  select (λ d, Ok (length (List.filter (challenge_selected f) (chal_rows d)))).

Fixpoint load_all (rows : list Challenge) : P World (list Full) :=
  match rows with
  | [] => mret []
  | c :: rows => full ← loadFull c; rest ← load_all rows; mret (full :: rest)
  end.
Definition challenge_ListAdmin (p : Params) (f : ChallengeFilters) : P World (list Full * nat) :=
  rows ← map_err (Wrap "challenges: listing") (atomic (ListChallengesAdmin (Limit p) (Offset p) f));
  total ← map_err (Wrap "challenges: counting") (atomic (CountChallengesAdmin f));
  items ← load_all rows;
  mret (items, total).
Definition h_AdminListChallenges (page perPage : option Z) (f : ChallengeFilters) : P World (Page Full) :=
  _ ← requireAdmin caller;
  let p := Normalize page perPage in
  '(items, total) ← challenge_ListAdmin p f;
  mret (paged p items total).

(** ** Submissions *)

Record SubmissionFilters := {
  sf_ChallengeID : option uuid; sf_TeamID : option uuid; sf_UserID : option uuid; sf_Correct : option bool;
  sf_Since : option time; sf_Until : option time
}.
Definition submission_selected (f : SubmissionFilters) (s : Submission) : bool :=
  matches (sf_ChallengeID f) (s_ChallengeID s) && matches (sf_TeamID f) (s_TeamID s) && matches (sf_UserID f) (Env.s_UserID s) &&
  matches (sf_Correct f) (s_Correct s) &&
  match sf_Since f with None => true | Some t => (t <=? Env.s_CreatedAt s)%Z end &&
  match sf_Until f with None => true | Some t => (Env.s_CreatedAt s <? t)%Z end.

Record SubmissionAdmin := {
  sa_Id : uuid; sa_Challenge : uuid * string * string; sa_Team : uuid * string; sa_User : uuid * string;
  sa_Provided : string; sa_Correct : bool; sa_Ip : option string; sa_CreatedAt : time
}.
(** The join of a submission with its challenge, team and user. *)
Definition submission_row (d : DB) (s : Submission) : option SubmissionAdmin :=
  c ← challenges d !! s_ChallengeID s;
  t ← teams d !! s_TeamID s;
  u ← users d !! Env.s_UserID s;
  Some {| sa_Id := Env.s_ID s; sa_Challenge := (s_ChallengeID s, c_Slug c, c_Title c); sa_Team := (s_TeamID s, t_Name t);
          sa_User := (Env.s_UserID s, u_Username u); sa_Provided := s_Provided s; sa_Correct := s_Correct s;
          sa_Ip := submission_Ip s; sa_CreatedAt := Env.s_CreatedAt s |}.
Definition ListSubmissionsAdmin (limit offset : Z) (f : SubmissionFilters) : M World (list SubmissionAdmin) :=
  select (λ d, Ok (page_of limit offset (order_by (λ r, - sa_CreatedAt r)%Z
    (omap (submission_row d) (List.filter (submission_selected f) (submissions d)))))).
Definition CountSubmissionsAdmin (f : SubmissionFilters) : M World nat :=
  select (λ d, Ok (length (List.filter (submission_selected f) (submissions d)))).

Definition h_AdminListSubmissions (page perPage : option Z) (f : SubmissionFilters) : P World (Page SubmissionAdmin) :=
  _ ← requireAdmin caller;
  let p := Normalize page perPage in
  rows ← atomic (ListSubmissionsAdmin (Limit p) (Offset p) f);
  total ← atomic (CountSubmissionsAdmin f);
  mret (paged p rows total).

(** ** The dashboard *)

Definition CountUsers : M World nat := select (λ d, Ok (size (users d))).
Definition CountTeams : M World nat := select (λ d, Ok (size (teams d))).
Definition CountSubmissions : M World nat := select (λ d, Ok (length (submissions d))).
Definition CountSolves : M World nat := select (λ d, Ok (length (List.filter s_Correct (submissions d)))).
Definition CountRunningInstances : M World nat :=
  select (λ d, Ok (length (List.filter (is_state StateRunning) (inst_rows d)))).

Record AdminStats := {
  as_Users : nat; as_Teams : nat; as_Submissions : nat; as_Solves : nat; as_InstancesRunning : nat; as_WsConnections : Z
}.
Definition Stats : P World (nat * nat * nat * nat * nat) :=
  u ← map_err (Wrap "submissions: count users") (atomic CountUsers);
  t ← map_err (Wrap "submissions: count teams") (atomic CountTeams);
  n ← map_err (Wrap "submissions: count submissions") (atomic CountSubmissions);
  s ← map_err (Wrap "submissions: count solves") (atomic CountSolves);
  i ← map_err (Wrap "submissions: count instances") (atomic CountRunningInstances);
  mret (u, t, n, s, i).
(** [ws] is what the gauge of the hub's connections reads. *)
Definition h_AdminGetStats (ws : P World Z) : P World AdminStats :=
  _ ← requireAdmin caller;
  '(u, t, n, s, i) ← Stats;
  connections ← ws;
  mret {| as_Users := u; as_Teams := t; as_Submissions := n; as_Solves := s; as_InstancesRunning := i; as_WsConnections := connections |}.
End Lists.
