(* ===== verification/Secrets.v ===== *)
(** * What the challenge pages cannot tell

    The pages of [Views], run on two databases that agree on what a participant may know:
    the answers are the same.  So no answer depends on a flag, on a submitted text, on the
    image, environment or limits of a container, or on anything at all of a hidden
    challenge; and a hidden challenge is answered like a missing one. *)

From S2P Require Import Prelude Env Store Events Scoring Runtime Submissions Scoreboard Users Teams Tokens Sessions Accounts Challenges ChallengeRules Demo Relate Views.

(** ** What a participant may know *)

(** Of a visible challenge, what is not its flag, its container or its type's configuration. *)
Definition strip (c : Challenge) : Challenge :=
  {| c_ID := c_ID c; c_Slug := c_Slug c; c_Title := c_Title c; c_Category := c_Category c; c_Description := c_Description c;
     c_Difficulty := c_Difficulty c; c_Kind := c_Kind c; c_Flag := ""; c_FlagCaseInsensitive := false;
     c_Scoring := c_Scoring c; c_PointsInitial := c_PointsInitial c; c_PointsMin := c_PointsMin c; c_Decay := c_Decay c;
     c_MaxAttempts := c_MaxAttempts c; c_Visible := c_Visible c; c_Image := None; c_InternalPort := None;
     c_MemLimitMb := 0; c_CpuMillis := 0; c_ContainerEnv := ∅; c_ConnectionTemplate := c_ConnectionTemplate c;
     c_CreatedAt := 0; c_UpdatedAt := 0; c_Instancing := c_Instancing c; c_FlagMode := c_FlagMode c;
     c_InstanceTtlSeconds := None; c_Egress := false; c_WritablePaths := []; c_Type := ""; c_TypeConfig := ∅ |}.
Definition public (c : Challenge) : option Challenge := if c_Visible c then Some (strip c) else None.
Definition visible_in (d : DB) (challenge : uuid) : bool :=
  match challenges d !! challenge with Some c => c_Visible c | None => false end.
(** Of an instance, what is not its flag, its container or its network. *)
Definition instance_view (d : DB) (i : Instance_) :=
  if visible_in d (i_ChallengeID i)
  then Some (i_ID i, i_ChallengeID i, i_TeamID i, i_State i, i_HostPort i, i_StartedAt i, i_ExpiresAt i, i_Error i)
  else None.
Definition attachment_view (d : DB) (a : ChallengeAttachment) : option ChallengeAttachment :=
  if visible_in d (at_ChallengeID a) then Some a else None.
(** Of the log of one challenge, which teams tried and whether they were right. *)
Definition log_view (challenge : uuid) (d : DB) : list (uuid * bool) :=
  map (λ s, (s_TeamID s, s_Correct s)) (List.filter (λ s, bool_decide (s_ChallengeID s = challenge)) (submissions d)).

Record same_public (d1 d2 : DB) : Prop := {
  sp_users : users d1 = users d2;
  sp_teams : teams d1 = teams d2;
  sp_members : members d1 = members d2;
  sp_event : event d1 = event d2;
  sp_challenges : public <$> challenges d1 = public <$> challenges d2;
  sp_attachments : attachment_view d1 <$> attachments d1 = attachment_view d2 <$> attachments d2;
  sp_instances : instance_view d1 <$> instances d1 = instance_view d2 <$> instances d2;
  sp_log : ∀ c, visible_in d1 c = true → log_view c d1 = log_view c d2
}.
(** Challenges are stored under their ids, and their slugs are unique ([ChallengeRules.chal_inv]). *)
Record named (d : DB) : Prop := {
  nm_ids : ∀ id c, challenges d !! id = Some c → c_ID c = id;
  nm_slugs : ∀ id id' c c', challenges d !! id = Some c → challenges d !! id' = Some c' → c_Slug c = c_Slug c' → id = id'
}.
Lemma chal_inv_named d : chal_inv d → named d.
Proof. intros HI. split; [intros; by eapply (ci_rows d HI)|apply (ci_slugs d HI)]. Qed.

Section Lookups.
Context (d1 d2 : DB) (H : same_public d1 d2).

Lemma public_lookup id : public <$> challenges d1 !! id = public <$> challenges d2 !! id.
Proof. rewrite <- !lookup_fmap. by rewrite (sp_challenges _ _ H). Qed.
Lemma public_visible a b : public a = public b → c_Visible a = c_Visible b.
Proof. unfold public. by destruct (c_Visible a), (c_Visible b). Qed.
Lemma visible_agree id : visible_in d1 id = visible_in d2 id.
Proof.
  unfold visible_in. pose proof (public_lookup id) as E.
  destruct (challenges d1 !! id), (challenges d2 !! id); simplify_eq/=; [|done]. by apply public_visible.
Qed.

(** *** The log *)

Lemma solves_view c d : solves_of c (submissions d) = length (List.filter snd (log_view c d)).
Proof.
  unfold solves_of, log_view. induction (submissions d) as [|s l IH]; [done|]. simpl.
  destruct (bool_decide _); simpl; [|exact IH]. destruct (s_Correct s); simpl; [f_equal|]; exact IH.
Qed.
Lemma solved_view c t d : solved_b c t (submissions d) = existsb (λ v, bool_decide (v.1 = t) && v.2) (log_view c d).
Proof.
  unfold solved_b, log_view, for_pair. induction (submissions d) as [|s l IH]; [done|]. simpl. rewrite IH.
  by destruct (bool_decide (s_ChallengeID s = c)).
Qed.
Lemma attempts_view c t d : attempts_of c t (submissions d) = length (List.filter (λ v, bool_decide (v.1 = t)) (log_view c d)).
Proof.
  unfold attempts_of, log_view, for_pair. induction (submissions d) as [|s l IH]; [done|]. simpl.
  destruct (bool_decide (s_ChallengeID s = c)); simpl; [|exact IH].
  destruct (bool_decide (s_TeamID s = t)); simpl; [f_equal|]; exact IH.
Qed.

(** *** Challenges *)

Lemma chal_rows_agree : Forall2 (λ a b, public a = public b) (chal_rows d1) (chal_rows d2).
Proof. apply rows_agree, (sp_challenges _ _ H). Qed.

(** A visible challenge is found by its slug on both sides; else on neither. *)
Definition by_slug (slug : string) (d : DB) : option Challenge :=
  List.find (λ c, bool_decide (c_Slug c = slug)) (chal_rows d).
Lemma by_slug_some d slug c : by_slug slug d = Some c → c_Slug c = slug ∧ ∃ id, challenges d !! id = Some c.
Proof.
  intros E. apply List.find_some in E as [Hin Hs%bool_decide_eq_true]. split; [done|].
  apply elem_of_rows. by apply list_elem_of_In.
Qed.
Lemma by_slug_public d slug r :
  named d → (by_slug slug d ≫= public = Some r ↔ c_Slug r = slug ∧ ∃ id, public <$> challenges d !! id = Some (Some r)).
Proof.
  intros Hn. split.
  - destruct (by_slug slug d) as [c|] eqn:E; [|done]. simpl. intros Hp.
    apply by_slug_some in E as [Hs [id E]]. split; [|exists id; rewrite E; simpl; by rewrite Hp].
    unfold public in Hp. destruct (c_Visible c); [|done]. by simplify_eq/=.
  - intros [Hs [id E]]. destruct (challenges d !! id) as [c|] eqn:Ec; simplify_eq/=.
    assert (c_Slug c = c_Slug r) as Hs by (unfold public in E; destruct (c_Visible c); [|done]; by simplify_eq/=).
    destruct (by_slug (c_Slug r) d) as [c'|] eqn:E'.
    + apply by_slug_some in E' as [Hs' [id' E']]. simpl.
      assert (id' = id) as -> by (eapply (nm_slugs _ Hn); [exact E'|exact Ec|congruence]). congruence.
    + exfalso. assert (c ∈ chal_rows d) as Hin by (apply elem_of_rows; eauto).
      apply list_elem_of_In in Hin. pose proof (List.find_none _ _ E' _ Hin) as Hf. simpl in Hf.
      by rewrite bool_decide_true in Hf.
Qed.
Lemma by_slug_agree slug : named d1 → named d2 → by_slug slug d1 ≫= public = by_slug slug d2 ≫= public.
Proof.
  intros Hn1 Hn2. apply option_eq. intros r. rewrite !by_slug_public by done.
  by setoid_rewrite public_lookup.
Qed.
End Lookups.

(** ** The pages, side by side *)

Section Pages.
Context {L : Libs} (text_le : string → string → bool) (caller : option Identity) (has_runtime : bool) (publicHost : string).
Context (D1 D2 : DB) (N1 : named D1) (N2 : named D2) (H : same_public D1 D2).

(** Worlds over the two databases that differ in nothing else. *)
Definition sides (w1 w2 : World) : Prop := w_db w1 = D1 ∧ w_db w2 = D2 ∧ w1 = set_db D1 w2.

(** A read fails on both sides or answers on both, and changes neither's tables. *)
Lemma select_sides {A B} (f : DB → res A) (g : DB → res B) w1 w2 :
  sides w1 w2 → ∃ w1' w2', sides w1' w2' ∧
    ((select f w1 = (Err ErrConn, w1') ∧ select g w2 = (Err ErrConn, w2')) ∨
     (select f w1 = (f D1, w1') ∧ select g w2 = (g D2, w2'))).
Proof.
  intros (E1 & E2 & E). assert (w_faults w1 = w_faults w2) as Ef by (by rewrite E).
  assert (∀ fs, sides (set_faults fs w1) (set_faults fs w2)) as Hfs.
  { intros fs. split_and!; [done..|]. by rewrite E. }
  assert (∀ v1 v2, sides v1 v2 → sides (set_db D1 v1) (set_db D2 v2)) as Hdb.
  { intros v1 v2 (F1 & F2 & F). split_and!; [done..|]. by rewrite F. }
  unfold select, query, mbind, M_bind, next_fault. rewrite Ef. destruct (w_faults w2) as [|[|] fs].
  - rewrite E1, E2. destruct (f D1), (g D2); eexists _, _; (split; [|by right]); auto; try (by split_and!).
    + split_and!; [done..|]. by rewrite E.
    + split_and!; [done..|]. by rewrite E.
  - eexists _, _. split; [apply Hfs|by left].
  - simpl. rewrite E1, E2. destruct (f D1), (g D2); eexists _, _; (split; [|by right]); auto.
    + split_and!; [done..|]. by rewrite E.
    + split_and!; [done..|]. by rewrite E.
Qed.
Lemma alike_select {A B} (V : A → B → Prop) (f : DB → res A) (g : DB → res B) :
  agree V (f D1) (g D2) → alike sides V (atomic (select f)) (atomic (select g)).
Proof.
  intros HV. apply alike_atomic. intros w1 w2 HR.
  by destruct (select_sides f g w1 w2 HR) as (w1' & w2' & HR' & [[-> ->]|[-> ->]]).
Qed.
Lemma alike_gets {A} (f : World → A) :
  (∀ d w, f (set_db d w) = f w) → alike sides eq (atomic (gets f)) (atomic (gets f)).
Proof. intros Hf. apply alike_atomic. intros w1 w2 (E1 & E2 & E). split; [|done]. simpl. by rewrite E, Hf. Qed.

(** What both sides read is equal. *)
Lemma alike_users id : alike sides eq (atomic (GetUserByID id)) (atomic (GetUserByID id)).
Proof. apply alike_select. rewrite (sp_users _ _ H). apply agree_refl. Qed.
Lemma alike_event : alike sides eq (atomic GetEvent) (atomic GetEvent).
Proof. apply alike_select. rewrite (sp_event _ _ H). apply agree_refl. Qed.
Lemma alike_user_team id : alike sides eq (atomic (GetUserTeam id)) (atomic (GetUserTeam id)).
Proof. apply alike_select. unfold user_team. rewrite (sp_teams _ _ H), (sp_members _ _ H). apply agree_refl. Qed.

Lemma alike_requireAdmin : alike sides eq (requireAdmin caller) (requireAdmin caller).
Proof.
  unfold requireAdmin, requireUser, user_Get.
  apply alike_let; [destruct caller; [by apply alike_ret|apply alike_throw]|]. intros i.
  apply alike_let; [apply alike_map_err, alike_map_err, alike_users|]. intros u.
  destruct (_ || _); [apply alike_throw|by apply alike_ret].
Qed.
Lemma alike_callerIsAdmin : alike sides eq (callerIsAdmin caller) (callerIsAdmin caller).
Proof.
  unfold callerIsAdmin. apply alike_let; [apply alike_try_eq, alike_requireAdmin|].
  intros [u|e]; [by apply alike_ret|]. destruct (is_denied e); [by apply alike_ret|apply alike_throw].
Qed.
Lemma alike_eventStarted : alike sides eq (eventStarted caller) (eventStarted caller).
Proof.
  unfold eventStarted, Events.Get, Events.Phase_.
  apply alike_let; [apply alike_map_err, alike_event|]. intros e.
  apply alike_let; [apply alike_let; [by apply alike_gets|]; intros; by apply alike_ret|]. intros ph.
  destruct (bool_decide _); [apply alike_callerIsAdmin|by apply alike_ret].
Qed.
Lemma alike_teamIDOrNil u : alike sides eq (teamIDOrNil u) (teamIDOrNil u).
Proof.
  unfold teamIDOrNil, TeamOf. apply alike_let; [|intros; by apply alike_ret]. apply alike_try_eq.
  apply alike_let; [apply alike_try_eq, alike_user_team|].
  intros [t|e]; [by apply alike_ret|]. destruct (is_no_rows e); [by apply alike_ret|apply alike_throw].
Qed.

(** Two copies of one visible challenge. *)
Definition twin (a b : Challenge) : Prop := public a = public b ∧ visible_in D1 (c_ID a) = true ∧ c_Visible a = true.
Lemma twin_public a b : twin a b → strip a = strip b ∧ c_Visible b = true.
Proof.
  intros (E & _ & Hv). pose proof (public_visible _ _ E) as Hv'. unfold public in E.
  rewrite <- Hv', Hv in E. split; [by apply (inj Some)|congruence].
Qed.
Lemma twin_field {T} (f : Challenge → T) a b : (∀ c, f (strip c) = f c) → twin a b → f a = f b.
Proof. intros Hf [E _]%twin_public. rewrite <- (Hf a), <- (Hf b). by rewrite E. Qed.
Lemma twin_id a b : twin a b → c_ID a = c_ID b.
Proof. by apply (twin_field c_ID). Qed.
Lemma twin_rows id a b : challenges D1 !! id = Some a → public a = public b → c_Visible a = true → twin a b.
Proof.
  intros Ea E Hv. split_and!; [done| |done]. unfold visible_in. by rewrite (nm_ids _ N1 _ _ Ea), Ea.
Qed.
Lemma CurrentPoints_twin a b n : twin a b → CurrentPoints a n = CurrentPoints b n.
Proof. apply (twin_field (λ c, CurrentPoints c n)). done. Qed.

Lemma attachment_twin c x y :
  visible_in D1 c = true → attachment_view D1 x = attachment_view D2 y →
  bool_decide (at_ChallengeID x = c) = bool_decide (at_ChallengeID y = c) ∧ (at_ChallengeID y = c → x = y).
Proof.
  intros Hv E. unfold attachment_view in E. rewrite <- (visible_agree _ _ H) in E.
  destruct (decide (at_ChallengeID x = c)) as [Ex|Ex], (decide (at_ChallengeID y = c)) as [Ey|Ey];
    rewrite ?Ex, ?Ey, ?Hv in E.
  - by simplify_eq.
  - destruct (visible_in D1 (at_ChallengeID y)); by simplify_eq.
  - destruct (visible_in D1 (at_ChallengeID x)); by simplify_eq.
  - by rewrite !bool_decide_false.
Qed.

(** Reads about a visible challenge agree. *)
Section Visible.
Context (a b : Challenge) (Ht : twin a b).
Lemma twin_log : log_view (c_ID a) D1 = log_view (c_ID b) D2.
Proof. rewrite <- (twin_id _ _ Ht). apply (sp_log _ _ H). apply Ht. Qed.
Lemma alike_solves : alike sides eq (atomic (CountChallengeSolves (c_ID a))) (atomic (CountChallengeSolves (c_ID b))).
Proof. apply alike_select. simpl. by rewrite !solves_view, twin_log. Qed.
Lemma alike_attempts t :
  alike sides eq (atomic (CountTeamAttempts (c_ID a) t)) (atomic (CountTeamAttempts (c_ID b) t)).
Proof. apply alike_select. simpl. by rewrite !attempts_view, twin_log. Qed.
Lemma alike_solved t : alike sides eq (solved_check (c_ID a) t) (solved_check (c_ID b) t).
Proof.
  unfold solved_check. destruct (decide _); [by apply alike_ret|]. apply alike_map_err, alike_select. simpl.
  by rewrite !solved_view, twin_log.
Qed.
Lemma alike_attachments : alike sides eq (atomic (ListAttachments (c_ID a))) (atomic (ListAttachments (c_ID b))).
Proof.
  apply alike_select. simpl. rewrite <- (twin_id _ _ Ht). pose proof (proj1 (proj2 Ht)) as Hv.
  assert (∀ l1 l2 : list ChallengeAttachment, Forall2 eq l1 l2 → l1 = l2) as Heq by (induction 1; congruence).
  apply Heq, Forall2_filter. eapply Forall2_impl; [exact (rows_agree _ _ _ _ (sp_attachments _ _ H))|].
  intros x y E. destruct (attachment_twin (c_ID a) x y Hv E) as [-> HE]. split; [done|].
  intros Hy%bool_decide_eq_true. auto.
Qed.
Lemma alike_attachment id :
  alike sides eq (atomic (GetAttachment id (c_ID a))) (atomic (GetAttachment id (c_ID b))).
Proof.
  apply alike_select. rewrite <- (twin_id _ _ Ht). pose proof (proj1 (proj2 Ht)) as Hv.
  pose proof (f_equal (λ m, m !! id) (sp_attachments _ _ H)) as E. simpl in E. rewrite !lookup_fmap in E.
  destruct (attachments D1 !! id) as [x|], (attachments D2 !! id) as [y|]; simplify_eq/=; [|done].
  destruct (attachment_twin (c_ID a) x y Hv E) as [Hxy HE].
  destruct (decide (at_ChallengeID y = c_ID a)) as [Ey|Ey].
  - by rewrite (HE Ey), decide_True.
  - rewrite decide_False; [done|]. intros Ex. rewrite (bool_decide_true _ Ex), (bool_decide_false _ Ey) in Hxy. done.
Qed.

(** Two copies of one instance, the container and network left open. *)
Definition inst_twin (i j : Instance) : Prop :=
  in_ID i = in_ID j ∧ in_State i = in_State j ∧ in_StartedAt i = in_StartedAt j ∧ in_ExpiresAt i = in_ExpiresAt j ∧
  in_HostPort i = in_HostPort j ∧ in_Err i = in_Err j.
Lemma view_twin x y :
  instance_view D1 x = instance_view D2 y →
  bool_decide (i_ChallengeID x = c_ID a) = bool_decide (i_ChallengeID y = c_ID a) ∧
  (i_ChallengeID y = c_ID a → i_TeamID x = i_TeamID y ∧ inst_twin (rowToInstance x) (rowToInstance y)).
Proof using Ht H.
  intros E. unfold instance_view in E. rewrite <- (visible_agree _ _ H) in E. pose proof (proj1 (proj2 Ht)) as Hv.
  destruct (decide (i_ChallengeID x = c_ID a)) as [Ex|Ex], (decide (i_ChallengeID y = c_ID a)) as [Ey|Ey];
    rewrite ?Ex, ?Ey, ?Hv in E.
  - split; [by rewrite !bool_decide_true|]. intros _. unfold inst_twin, rowToInstance. cbn.
    apply (inj Some) in E. injection E as EI ET ES EP EA EX EE. by rewrite EI, ET, ES, EP, EA, EX, EE.
  - destruct (visible_in D1 (i_ChallengeID y)); [|done]. apply (inj Some) in E. congruence.
  - destruct (visible_in D1 (i_ChallengeID x)); [|done]. apply (inj Some) in E. congruence.
  - by rewrite !bool_decide_false.
Qed.
Lemma find_twin (p : Instance_ → bool) (q : option uuid → bool) :
  (∀ i, p i = bool_decide (i_ChallengeID i = c_ID a) && q (i_TeamID i)) →
  option_Forall2 (λ x y, inst_twin (rowToInstance x) (rowToInstance y))
    (List.find p (inst_rows D1)) (List.find p (inst_rows D2)).
Proof using Ht H.
  intros Hp. apply Forall2_find. eapply Forall2_impl; [exact (rows_agree _ _ _ _ (sp_instances _ _ H))|].
  intros x y E. apply view_twin in E as [Hxy HE]. rewrite !Hp, Hxy.
  destruct (decide (i_ChallengeID y = c_ID a)) as [Ey|Ey];
    [rewrite (bool_decide_true _ Ey)|by rewrite (bool_decide_false _ Ey)].
  destruct (HE Ey) as [-> HI]. done.
Qed.
Lemma agree_one {A B} (W : A → B → Prop) o o' : option_Forall2 W o o' → agree W (one o) (one o').
Proof. by intros []. Qed.
Lemma alike_shared :
  alike sides (option_Forall2 inst_twin) (InstanceForChallenge (c_ID a)) (InstanceForChallenge (c_ID b)).
Proof using Ht H.
  unfold InstanceForChallenge. rewrite <- (twin_id _ _ Ht).
  eapply alike_bind; [apply alike_try, alike_select, agree_one, (find_twin _ (λ t, negb (is_Some_b t))); done|].
  intros [x|e] [y|e'] HA; simpl in HA; try done; apply alike_ret; [by constructor|constructor].
Qed.
Lemma alike_team_instance t :
  alike sides (option_Forall2 inst_twin) (ManagerGetTeamInstance (c_ID a) t) (ManagerGetTeamInstance (c_ID b) t).
Proof using Ht H.
  unfold ManagerGetTeamInstance, or_absent. rewrite <- (twin_id _ _ Ht).
  assert (alike sides (agree (λ x y, inst_twin (rowToInstance x) (rowToInstance y)))
    (try (atomic (GetTeamInstance (c_ID a) t))) (try (atomic (GetTeamInstance (c_ID a) t)))) as Hr.
  { apply alike_try, alike_select, agree_one, (find_twin _ (λ o, bool_decide (o = Some t))). done. }
  eapply alike_bind; [eapply alike_bind; [exact Hr|]|].
  - intros [x|e] [y|e'] HA; simpl in HA; try done.
    + apply (alike_ret _ (option_Forall2 (λ x y, inst_twin (rowToInstance x) (rowToInstance y)))). by constructor.
    + subst. destruct (is_no_rows e'); [apply alike_ret; constructor|apply alike_throw].
  - intros o o' Ho. apply alike_ret. destruct Ho; simpl; by constructor.
Qed.
Lemma ConnectionInfo_twin i j : inst_twin i j → ConnectionInfo publicHost a i = ConnectionInfo publicHost b j.
Proof using Ht.
  intros (_ & Es & _ & _ & Ep & _). unfold ConnectionInfo. rewrite Es, Ep.
  by rewrite (twin_field c_ConnectionTemplate _ _ (λ _, eq_refl) Ht).
Qed.
Lemma toTeamInstance_twin i j :
  inst_twin i j → toTeamInstance has_runtime publicHost a i = toTeamInstance has_runtime publicHost b j.
Proof using Ht.
  intros HI. unfold toTeamInstance. rewrite (ConnectionInfo_twin _ _ HI).
  destruct HI as (-> & -> & -> & -> & -> & ->). done.
Qed.
End Visible.

(** *** The board and the challenge page *)

Lemma strip_twin id a b : challenges D1 !! id = Some a → c_Visible a = true → strip a = strip b → twin a b.
Proof using N1.
  intros Ea Hv E. eapply twin_rows; [exact Ea| |done]. assert (c_Visible b = true) as Hb.
  { apply (f_equal c_Visible) in E. simpl in E. congruence. }
  unfold public. by rewrite Hv, Hb, E.
Qed.
Lemma Forall2_both {A B} (T : A → Prop) (W : A → B → Prop) l1 l2 :
  Forall T l1 → Forall2 W l1 l2 → Forall2 (λ a b, T a ∧ W a b) l1 l2.
Proof. intros HT. induction 1; [constructor|]. apply Forall_cons in HT as [HT1 HT2]. constructor; auto. Qed.
Lemma alike_board : alike sides (Forall2 twin) (atomic (ListVisibleChallenges text_le)) (atomic (ListVisibleChallenges text_le)).
Proof using N1 H.
  apply alike_select. simpl. set (rows d := List.filter c_Visible (chal_rows d)).
  set (le := λ a b, Is_true (board_le text_le a b)).
  assert (map strip (rows D1) = map strip (rows D2)) as E.
  { apply Forall2_map_eq, Forall2_filter. eapply Forall2_impl; [apply (chal_rows_agree _ _ H)|].
    intros x y E. split; [by apply public_visible|]. intros Hv. unfold public in E.
    rewrite Hv in E. destruct (c_Visible y); [by apply (inj Some)|done]. }
  assert (map strip (merge_sort le (rows D1)) = map strip (merge_sort le (rows D2))) as Es.
  { unfold le. by rewrite <- !(merge_sort_map strip (board_le text_le) (board_le text_le)), E. }
  eapply Forall2_impl; [apply (Forall2_both (λ a, (∃ id, challenges D1 !! id = Some a) ∧ c_Visible a = true) (λ a b, strip a = strip b))|].
  - rewrite merge_sort_Permutation. apply List.Forall_forall. intros a Ha. apply List.filter_In in Ha as [Ha Hv].
    split; [|done]. by apply elem_of_rows, list_elem_of_In.
  - by apply Forall2_map_eq.
  - simpl. intros a b [[[id Ea] Hv] Eb]. by eapply strip_twin.
Qed.

Definition entry_twin (e f : BoardEntry) : Prop :=
  twin (be_Challenge e) (be_Challenge f) ∧ be_Points e = be_Points f ∧ be_Solves e = be_Solves f ∧
  be_SolvedByMe e = be_SolvedByMe f.
Lemma toChallenge_twin e f : entry_twin e f → toChallenge e = toChallenge f.
Proof.
  intros (Ht & Ep & Es & Em). destruct e as [a p n m], f as [b p' n' m']. simpl in *. subst.
  by apply (twin_field (λ c, toChallenge {| be_Challenge := c; be_Points := p'; be_Solves := n'; be_SolvedByMe := m' |})).
Qed.
Lemma alike_board_entry team a b : twin a b → alike sides entry_twin (board_entry team a) (board_entry team b).
Proof using H.
  intros Ht. unfold board_entry.
  apply (alike_bind _ eq); [apply alike_map_err; by apply alike_solves|]. intros n ? <-.
  apply (alike_bind _ eq); [by apply alike_solved|]. intros m ? <-.
  apply alike_ret. by split_and!; simpl; [|rewrite (CurrentPoints_twin a b)|..].
Qed.
Lemma alike_map_prog {A B A' B'} (W : A → A' → Prop) (V : B → B' → Prop) (f : A → P World B) (g : A' → P World B') l l' :
  Forall2 W l l' → (∀ a b, W a b → alike sides V (f a) (g b)) → alike sides (Forall2 V) (map_prog f l) (map_prog g l').
Proof.
  intros Hl Hf. induction Hl as [|a b l l' Hab _ IH]; [by apply alike_ret|].
  apply (alike_bind _ V); [by apply Hf|]. intros x y Hxy.
  apply (alike_bind _ (Forall2 V)); [exact IH|]. intros xs ys Hs. apply alike_ret. by constructor.
Qed.
Lemma Forall2_eq_eq {A} (l1 l2 : list A) : Forall2 eq l1 l2 → l1 = l2.
Proof. induction 1; congruence. Qed.

Lemma alike_enrich a b c :
  twin a b → alike sides eq (enrichInstance has_runtime publicHost a c) (enrichInstance has_runtime publicHost b c).
Proof using H.
  intros Ht. unfold enrichInstance. rewrite <- (twin_field c_Kind _ _ (λ _, eq_refl) Ht).
  destruct (_ || _); [by apply alike_ret|].
  eapply alike_bind; [by apply alike_shared|]. intros o o' Ho. apply alike_ret.
  destruct Ho as [i j HI|]; [|done]. by rewrite (ConnectionInfo_twin a b Ht i j).
Qed.
Lemma alike_enrichDetail a b team d :
  twin a b →
  alike sides eq (enrichDetailInstance has_runtime publicHost a team d) (enrichDetailInstance has_runtime publicHost b team d).
Proof using H.
  intros Ht. unfold enrichDetailInstance. rewrite <- (twin_field c_Kind _ _ (λ _, eq_refl) Ht).
  destruct (_ || _); [by apply alike_ret|]. rewrite <- (twin_field c_Instancing _ _ (λ _, eq_refl) Ht).
  apply (alike_bind _ (option_Forall2 inst_twin)).
  - destruct (bool_decide _); [|by apply alike_shared]. destruct (decide _); [apply alike_ret; constructor|].
    eapply alike_bind; [apply alike_try, alike_team_instance; exact Ht|].
    intros [o|e] [o'|e'] HA; simpl in HA; try done. apply alike_ret. constructor.
  - intros o o' Ho. apply alike_ret. destruct Ho as [i j HI|]; [|done].
    by rewrite (toTeamInstance_twin a b Ht i j).
Qed.

(** *** A challenge by its slug *)

(** A visible challenge is found on both sides; what is hidden or missing on one is
    hidden or missing on the other. *)
Definition slug_twin (r1 r2 : res Challenge) : Prop :=
  match r1, r2 with
  | Ok a, Ok b => twin a b ∨ (c_Visible a = false ∧ c_Visible b = false)
  | Ok a, Err e => c_Visible a = false ∧ e = ErrNotFound
  | Err e, Ok b => c_Visible b = false ∧ e = ErrNotFound
  | Err e, Err e' => e = e'
  end.
Lemma run_GetBySlug slug w1 w2 :
  sides w1 w2 → ∃ r1 w1' r2 w2',
    run (GetBySlug slug) w1 = Some (r1, w1') ∧ run (GetBySlug slug) w2 = Some (r2, w2') ∧
    sides w1' w2' ∧ slug_twin r1 r2.
Proof using N1 N2 H.
  intros HR. unfold GetBySlug, map_err. rewrite !run_bind, !run_try, !run_atomic.
  unfold GetChallengeBySlug at 1 2. fold (by_slug slug).
  destruct (select_sides (λ d, one (by_slug slug d)) (λ d, one (by_slug slug d)) w1 w2 HR)
    as (w1' & w2' & HR' & [[E1 E2]|[E1 E2]]); unfold by_slug in E1, E2; rewrite E1, E2; clear E1 E2.
  { by eexists _, _, _, _. }
  pose proof (by_slug_agree D1 D2 H slug N1 N2) as E. fold (by_slug slug D1) (by_slug slug D2).
  destruct (by_slug slug D1) as [a|] eqn:Ea, (by_slug slug D2) as [b|] eqn:Eb; simpl in *;
    eexists _, _, _, _; (split; [reflexivity|split; [reflexivity|split; [done|]]]); simpl; [|unfold public in E..|done].
  - apply by_slug_some in Ea as [_ [id Ea]]. destruct (c_Visible a) eqn:Hv.
    + left. by eapply twin_rows.
    + right. split; [done|]. rewrite <- (public_visible _ _ E). exact Hv.
  - by destruct (c_Visible a).
  - by destruct (c_Visible b).
Qed.

Lemma alike_GetVisibleDetail slug team :
  alike sides (λ d e, entry_twin (dt_Entry d) (dt_Entry e) ∧ toChallengeDetail d = toChallengeDetail e)
    (GetVisibleDetail slug team) (GetVisibleDetail slug team).
Proof using N1 N2 H.
  intros w1 w2 HR. unfold GetVisibleDetail. fold (GetBySlug slug). rewrite !run_bind.
  destruct (run_GetBySlug slug w1 w2 HR) as (r1 & w1' & r2 & w2' & -> & -> & HR' & Hs).
  destruct r1 as [a|e], r2 as [b|e']; simpl in Hs.
  2,3: by destruct Hs as [-> ->].
  2: by subst.
  destruct Hs as [Ht|[-> ->]]; [|done]. rewrite (proj2 (proj2 Ht)), (proj2 (twin_public _ _ Ht)). cbn [negb].
  refine ((_ : alike sides _ _ _) w1' w2' HR').
  apply (alike_bind _ eq); [apply alike_map_err; by apply alike_solves|]. intros n ? <-.
  apply (alike_bind _ eq); [apply alike_map_err; by apply alike_attachments|]. intros atts ? <-.
  apply (alike_bind _ eq); [by apply alike_solved|]. intros mine ? <-.
  apply (alike_bind _ eq).
  { destruct (decide _); [by apply alike_ret|]. apply alike_map_err. by apply alike_attempts. }
  intros used ? <-. apply alike_ret. split.
  { split_and!; try done. simpl. by apply CurrentPoints_twin. }
  apply (twin_field (λ c, toChallengeDetail {| dt_Entry := {| be_Challenge := c; be_Points := CurrentPoints c n; be_Solves := n;
    be_SolvedByMe := mine |}; dt_Attachments := atts; dt_AttemptsUsed := used |})); done.
Qed.

(** ** The requests *)

Lemma alike_requireUser : alike sides eq (requireUser caller) (requireUser caller).
Proof. unfold requireUser. destruct caller; [by apply alike_ret|apply alike_throw]. Qed.
Lemma alike_ListChallenges :
  alike sides eq (h_ListChallenges text_le caller has_runtime publicHost) (h_ListChallenges text_le caller has_runtime publicHost).
Proof using N1 H.
  unfold h_ListChallenges, ListVisible.
  apply alike_let; [apply alike_requireUser|]. intros i.
  apply alike_let; [apply alike_eventStarted|]. intros started. destruct started; [|apply alike_throw].
  apply alike_let; [apply alike_teamIDOrNil|]. intros team.
  apply (alike_bind _ (Forall2 entry_twin)).
  - apply (alike_bind _ (Forall2 twin)); [apply alike_map_err, alike_board|]. intros l l' Hl.
    apply (alike_map_prog twin); [done|]. intros a b. apply alike_board_entry.
  - intros l l' Hl. eapply alike_mono; [|apply Forall2_eq_eq].
    apply (alike_map_prog entry_twin); [done|]. intros e f He. rewrite (toChallenge_twin _ _ He).
    apply alike_enrich, He.
Qed.
Lemma alike_GetChallenge slug :
  alike sides eq (h_GetChallenge caller has_runtime publicHost slug) (h_GetChallenge caller has_runtime publicHost slug).
Proof using N1 N2 H.
  unfold h_GetChallenge.
  apply alike_let; [apply alike_requireUser|]. intros i.
  apply alike_let; [apply alike_eventStarted|]. intros started. destruct started; [|apply alike_throw].
  apply alike_let; [apply alike_teamIDOrNil|]. intros team.
  eapply alike_bind; [apply alike_GetVisibleDetail|]. intros d e [Ht ->]. apply alike_enrichDetail, Ht.
Qed.

(** What the caller of a request gets to see. *)
Definition answer {A} (p : P World A) (w : World) : option (res A) := fst <$> run p w.
Lemma alike_answer {A} (p q : P World A) w1 w2 : alike sides eq p q → sides w1 w2 → answer p w1 = answer q w2.
Proof.
  intros Hp HR. specialize (Hp w1 w2 HR). unfold answer.
  destruct (run p w1) as [[r1 w1']|], (run q w2) as [[r2 w2']|]; try done.
  by destruct Hp as [->%agree_eq _].
Qed.
Lemma answer_bind {A B} (p : P World A) (k : A → P World B) w1 w2 :
  alike sides eq p p → (∀ a w1 w2, sides w1 w2 → answer (k a) w1 = answer (k a) w2) → sides w1 w2 →
  answer (p ≫= k) w1 = answer (p ≫= k) w2.
Proof.
  intros Hp Hk HR. specialize (Hp w1 w2 HR). unfold answer in *. rewrite !run_bind.
  destruct (run p w1) as [[r1 w1']|], (run p w2) as [[r2 w2']|]; try done.
  destruct Hp as [->%agree_eq HR']. destruct r2 as [a|e]; [by apply Hk|done].
Qed.

(** The caller's row makes an administrator. *)
Definition is_admin (d : DB) : bool :=
  match caller with
  | Some i => match users d !! id_UserID i with
              | Some u => negb (u_Banned u) && bool_decide (u_Role u = "admin")
              | None => false
              end
  | None => false
  end.
Lemma callerIsAdmin_runs w :
  ∃ r w', run (callerIsAdmin caller) w = Some (r, w') ∧ w_db w' = w_db w ∧ (r = Ok true → is_admin (w_db w) = true).
Proof.
  unfold callerIsAdmin, requireAdmin, requireUser, user_Get, is_admin, map_err. destruct caller as [i|].
  2: { eexists _, _. split; [reflexivity|]. split; [done|]. by intros [=]. }
  rewrite !run_bind, !run_try, !run_bind.
  replace (run (mret i : P World Identity) w) with (Some (Ok i, w)) by done.
  rewrite !run_bind, !run_try, !run_bind, !run_try, run_atomic.
  destruct (GetUserByID (id_UserID i) w) as [[u|e] w'] eqn:E.
  - apply select_ok in E as (Eu & Edb & _). destruct (users (w_db w) !! id_UserID i) as [u'|]; [|done]. simplify_eq/=.
    destruct (u_Banned u || negb (bool_decide (u_Role u = "admin"))) eqn:Eb; simpl;
      eexists _, _; (split; [reflexivity|]); (split; [done|]); [by intros [=]|]. intros _.
    destruct (u_Banned u); [done|]. by apply negb_false_iff in Eb.
  - apply query_err in E. simpl. eexists _, _. split; [reflexivity|]. split; [done|]. by intros [=].
Qed.

Lemma answer_DownloadAttachment Open slug att w1 w2 :
  (∀ key, alike sides eq (Open key) (Open key)) → is_admin D1 = false → sides w1 w2 →
  answer (h_DownloadAttachment caller Open slug att) w1 = answer (h_DownloadAttachment caller Open slug att) w2.
Proof using N1 N2 H.
  intros HO Ha. unfold h_DownloadAttachment. apply answer_bind; [apply alike_requireUser|]. intros _.
  clear w1 w2. intros w1 w2. apply answer_bind; [apply alike_eventStarted|]. clear w1 w2. intros [|] w1 w2 HR; [|done].
  assert (is_admin D2 = false) as Ha2 by (unfold is_admin in *; by rewrite <- (sp_users _ _ H)).
  set (rest := λ c : Challenge, _). cbn [negb]. unfold answer. rewrite !run_bind.
  destruct (run_GetBySlug slug w1 w2 HR) as (r1 & w1' & r2 & w2' & -> & -> & HR' & Hs).
  assert (∀ c w, c_Visible c = false → is_admin (w_db w) = false → fst <$> run (rest c) w = Some (Err ErrNotFound)) as Hhid.
  { intros c w Hc Hw. unfold rest. rewrite Hc, run_bind, run_bind, run_try.
    destruct (callerIsAdmin_runs w) as (r & w' & -> & _ & Hr). simpl.
    rewrite bool_decide_false; [done|]. intros ->. rewrite Hr in Hw; done. }
  destruct HR' as (E1 & E2 & E). destruct r1 as [a|e], r2 as [b|e']; simpl in Hs.
  - destruct Hs as [Ht|[Hva Hvb]]; [|by rewrite !Hhid by (rewrite ?E1, ?E2; done)].
    unfold rest. rewrite (proj2 (proj2 Ht)), (proj2 (twin_public _ _ Ht)).
    refine (alike_answer _ _ w1' w2' _ _); [|by split_and!].
    apply alike_let; [by apply alike_ret|]. intros [|]; [|apply alike_throw].
    unfold OpenAttachment. apply (alike_bind _ eq); [apply alike_map_err; by apply alike_attachment|]. intros x ? <-.
    apply alike_let; [apply HO|]. intros body. by apply alike_ret.
  - destruct Hs as [Hv ->]. by rewrite Hhid by (rewrite ?E1; done).
  - destruct Hs as [Hv ->]. by rewrite Hhid by (rewrite ?E2; done).
  - by subst.
Qed.
End Pages.

(** C27: Take two databases that agree on what a participant may know, and differ in any
    other way: in the flags, the submitted texts, the containers' images, environments and
    limits, and in everything there is to hidden challenges (their texts, attachments,
    instances and logs).  The same request to the challenge list, to a challenge page or
    to an attachment by a caller who is not an administrator is answered the same,
    whatever reads fail on the way. *)
Theorem challenge_pages_keep_secrets (text_le : string → string → bool) (caller : option Identity)
    (has_runtime : bool) (publicHost : string) (Open : string → P World (list N)) (w1 w2 : World)
    (H1 : named (w_db w1)) (H2 : named (w_db w2)) (Hsame : same_public (w_db w1) (w_db w2))
    (Hrest : w1 = set_db (w_db w1) w2)
    (Hadmin : is_admin caller (w_db w1) = false)
    (HOpen : ∀ key, alike (sides (w_db w1) (w_db w2)) eq (Open key) (Open key)) :
  answer (h_ListChallenges text_le caller has_runtime publicHost) w1 =
    answer (h_ListChallenges text_le caller has_runtime publicHost) w2 ∧
  (∀ slug, answer (h_GetChallenge caller has_runtime publicHost slug) w1 =
    answer (h_GetChallenge caller has_runtime publicHost slug) w2) ∧
  (∀ slug att, answer (h_DownloadAttachment caller Open slug att) w1 =
    answer (h_DownloadAttachment caller Open slug att) w2).
Proof.
  assert (sides (w_db w1) (w_db w2) w1 w2) as HR by (by split_and!).
  split_and!.
  - eapply alike_answer; [|exact HR]. by apply alike_ListChallenges.
  - intros slug. eapply alike_answer; [|exact HR]. by apply alike_GetChallenge.
  - intros slug att. by apply (answer_DownloadAttachment caller (w_db w1) (w_db w2)).
Qed.

(** ** Concrete secrets *)

(** [named], decided. *)
Lemma named_decide d :
  bool_decide (map_Forall (λ id c, c_ID c = id ∧
    map_Forall (λ id' c', c_Slug c = c_Slug c' → id = id') (challenges d)) (challenges d)) = true → named d.
Proof.
  intros Hd%bool_decide_eq_true. split.
  - intros id c Hc. apply (Hd id c Hc).
  - intros id id' c c' Hc Hc'. exact (proj2 (Hd id c Hc) id' c' Hc').
Qed.

Definition demo_secret (visible : bool) (id : uuid) (flag title : string) : Challenge :=
  let c := demo_challenge id "container" "per_team" "static" in
  {| c_ID := id; c_Slug := c_Slug c; c_Title := title; c_Category := "pwn"; c_Description := "";
     c_Difficulty := None; c_Kind := "container"; c_Flag := flag; c_FlagCaseInsensitive := false;
     c_Scoring := "static"; c_PointsInitial := 100; c_PointsMin := None; c_Decay := None;
     c_MaxAttempts := Some 3%Z; c_Visible := visible; c_Image := Some title; c_InternalPort := Some 80%Z;
     c_MemLimitMb := 128; c_CpuMillis := 500; c_ContainerEnv := ∅; c_ConnectionTemplate := None; c_CreatedAt := 0;
     c_UpdatedAt := 0; c_Instancing := "per_team"; c_FlagMode := "static"; c_InstanceTtlSeconds := None; c_Egress := true;
     c_WritablePaths := []; c_Type := "standard"; c_TypeConfig := ∅ |}.
(** One visible challenge with a secret flag, one hidden one with a secret title, an
    instance with a secret flag and a wrong submission with a secret text. *)
Definition demo_secrets (secret : string) : DB :=
  set_instances {[ 41%N := {| i_ID := 41%N; i_ChallengeID := 31%N; i_State := StateRunning; i_ContainerID := Some secret;
    i_HostPort := Some 30000%Z; i_Error := None; i_StartedAt := None; i_LastHealthAt := None; i_CreatedAt := 0;
    i_UpdatedAt := 0; i_TeamID := Some 21%N; i_Flag := Some secret; i_ExpiresAt := None; i_Network := None |} ]}
  (set_submissions [ {| s_ID := 50%N; s_ChallengeID := 31%N; s_TeamID := 21%N; Env.s_UserID := 11%N; s_Provided := secret;
    s_Correct := false; Env.s_CreatedAt := Hour; s_ScoredValue := None; s_ScoredBy := None |} ]
  (set_challenges {[ 31%N := demo_secret true 31 secret "Open"; 32%N := demo_secret false 32 "flag" secret ]} demo_db)).
Definition demo_player : Identity :=
  {| id_UserID := 11%N; id_Role := "user"; id_SessionToken := "s"; id_Method := AuthSession; id_Scopes := []; id_TokenID := 0%N |}.

Lemma challenge_pages_keep_secrets_witness :
  let answer_to secret := answer (h_GetChallenge (Some demo_player) true "h.org" (c_Slug (demo_secret true 31 "" "")))
    (demo_world (demo_secrets secret) Hour) in
  answer_to "swordfish" = answer_to "open sesame" ∧
  match answer_to "swordfish" with
  | Some (Ok d) => (pd_AttemptsUsed d, ti_HostPort <$> pd_Instance d) = (1, Some (Some 30000%Z))
  | _ => False
  end.
Proof.
  assert (∀ s, named (demo_secrets s)) as HN.
  { intros s. apply named_decide. vm_compute. reflexivity. }
  assert (same_public (demo_secrets "swordfish") (demo_secrets "open sesame")) as HS.
  { split; try reflexivity; try (vm_compute; reflexivity).
    intros c _. unfold log_view. simpl. by destruct (bool_decide _). }
  split; [|vm_compute; reflexivity].
  exact (proj1 (proj2 (challenge_pages_keep_secrets (λ a b, (a <=? b)%string) (Some demo_player) true "h.org"
    (λ _, mret []) (demo_world (demo_secrets "swordfish") Hour) (demo_world (demo_secrets "open sesame") Hour)
    (HN _) (HN _) HS eq_refl eq_refl (λ _, alike_ret _ eq [] [] eq_refl))) _).
Defined.
