(* ===== verification/FreezeRules.v ===== *)
(** * The freeze on the public pages

    While the event is frozen, the pages of teams and users show a stranger no solve at or
    after the freeze point, whatever fails and whatever runs in between; and the places
    where the code falls short of what its comments promise. *)

From S2P Require Import Prelude Interleave Env Store Events Scoring Runtime Submissions Scoreboard Users Teams Tokens Sessions Accounts Challenges Demo Relate Views Secrets.

(** ** A frozen event, seen by a stranger *)

(** The caller's own team. *)
Definition own_team (caller : option Identity) (d : DB) : option uuid :=
  i ← caller; t_ID <$> user_team d (id_UserID i).

(** The event is frozen from [f] on, nothing else is remembered about it, and the caller
    is not an administrator and on team [mine] or on none. *)
Record frozen_for (caller : option Identity) (mine : option uuid) (f : time) (w : World) : Prop := {
  ff_event : ∃ e, event (w_db w) = Some e ∧ e_FreezeAt e = Some f;
  ff_clock : (f ≤ w_clock w)%Z;
  ff_known : w_freeze w = None ∨ w_freeze w = Some (true, f);
  ff_admin : is_admin caller (w_db w) = false;
  ff_team : own_team caller (w_db w) = mine
}.

Lemma ff_faults caller mine f w fs : frozen_for caller mine f w → frozen_for caller mine f (set_faults fs w).
Proof. intros []. by split. Qed.

(** A read under an invariant that does not look at the faults. *)
Lemma safe_read_any (J : World → Prop) {A} (g : DB → res A) (Q : res A → Prop) :
  (∀ w fs, J w → J (set_faults fs w)) → (∀ w, J w → Q (g (w_db w))) → Q (Err ErrConn) → safe J (atomic (select g)) Q.
Proof.
  intros HJ HQ HE. apply safe_atomic. intros w HI. pose proof (HQ w HI) as Hw.
  unfold select, query, mbind, M_bind, next_fault. destruct (w_faults w) as [|[|] fs]; simpl; auto;
    (destruct (g (w_db w)); simpl; [|by auto]).
  - by rewrite set_db_same.
  - split; [|done]. exact (HJ w fs HI).
Qed.
Lemma safe_query_read caller mine f {A} (g : DB → res A) (Q : res A → Prop) :
  (∀ w, frozen_for caller mine f w → Q (g (w_db w))) → Q (Err ErrConn) → safe (frozen_for caller mine f) (atomic (select g)) Q.
Proof. apply safe_read_any, ff_faults. Qed.

Section Freeze.
Context {L : Libs} (caller : option Identity) (mine : option uuid) (f : time).
Abbreviation I := (frozen_for caller mine f).

(** A read of which nothing needs to be known. *)
Lemma safe_any_read {A} (g : DB → res A) : safe I (atomic (select g)) (λ _, True).
Proof. by apply safe_query_read. Qed.
(** Its result has a property that every result has. *)
Lemma safe_always {A} (p : prog World A) (Q : A → Prop) : safe I p (λ _, True) → (∀ a, Q a) → safe I p Q.
Proof. intros Hp HQ. eapply safe_mono; [exact Hp|]. auto. Qed.

Lemma preserves_read {A} (g : DB → res A) : preserves I (select g).
Proof.
  intros w HI. unfold select, query, mbind, M_bind, next_fault.
  destruct (w_faults w) as [|[|] fs]; simpl; [|by apply ff_faults|];
    (destruct (g (w_db w)); simpl; rewrite ?set_db_same; [|by try apply ff_faults]); [done|exact (ff_faults _ _ _ _ fs HI)].
Qed.
Lemma safe_reads {A} (p : prog World A) : all_steps I p → safe I p (λ _, True).
Proof. apply all_steps_safe. Qed.

Lemma freezeState_known :
  safe I freezeState (λ r, r = Ok None ∨ r = Ok (Some (true, f))).
Proof.
  unfold freezeState, Events.Get, Events.Frozen.
  apply safe_bind, safe_try, safe_map_err, safe_query_read.
  - intros w HI. destruct (ff_event _ _ _ _ HI) as (e & -> & Ef). cbn [one].
    apply safe_bind, safe_bind, safe_atomic. intros w1 HI1. split; [exact HI1|]. cbn [fst gets clock_now].
    assert (frozen_at (w_clock w1) e = true) as ->.
    { unfold frozen_at. rewrite Ef. apply negb_true_iff, Z.ltb_ge, (ff_clock _ _ _ _ HI1). }
    apply safe_ret, safe_bind, safe_atomic. intros w2 HI2. rewrite Ef. split; [|right; done].
    destruct HI2. split; try done. by right.
  - apply safe_bind, safe_atomic. intros w HI. split; [exact HI|]. apply safe_bind, safe_atomic. intros w1 HI1.
    split; [destruct HI1; by split|]. cbn [fst gets clock_now]. destruct (ff_known _ _ _ _ HI) as [->| ->]; [by left|by right].
Qed.

Lemma callerIsAdmin_stranger : safe I (callerIsAdmin caller) (λ r, r ≠ Ok true).
Proof.
  unfold callerIsAdmin, requireAdmin, requireUser, user_Get. apply safe_bind, safe_try, safe_bind.
  pose proof (λ w, ff_admin caller mine f w) as Ha. unfold is_admin in Ha.
  destruct caller as [i|]; [|by apply safe_throw, safe_ret].
  apply safe_ret, safe_bind, safe_map_err, safe_map_err, safe_query_read; [|by apply safe_ret].
  intros w HI. specialize (Ha w HI). destruct (users (w_db w) !! id_UserID i) as [u|]; [|by apply safe_ret]. cbn [one].
  assert (u_Banned u || negb (bool_decide (u_Role u = "admin")) = true) as ->.
  { destruct (u_Banned u); [done|]. simpl in *. by rewrite Ha. }
  by apply safe_throw, safe_ret.
Qed.

Lemma IsMember_stranger team i :
  caller = Some i → mine ≠ Some team → safe I (IsMember team (id_UserID i)) (λ r, r ≠ Ok true).
Proof.
  intros Hc Hm. unfold IsMember. apply safe_bind, safe_try, safe_query_read.
  - intros w HI. pose proof (ff_team _ _ _ _ HI) as Ht. unfold own_team in Ht. rewrite Hc in Ht. simpl in Ht.
    destruct (user_team (w_db w) (id_UserID i)) as [t|]; cbn [fmap option_fmap option_map] in Ht; [|by apply safe_ret].
    apply safe_ret. rewrite bool_decide_false; [done|]. intros <-. by subst.
  - by intros [=].
Qed.

(** The team of a page is not the caller's. *)
Definition not_mine (team : option uuid) : Prop := ∀ t, team = Some t → mine ≠ Some t.
(** A stranger's view is cut at the freeze point, or shows nothing. *)
Lemma hides_from_stranger events team :
  safe I (freezeHidesSolvesAfter caller events team)
    (λ r, ∃ hc, r = Ok hc ∧ (not_mine team → hc = (true, f) ∨ hc = (true, zero_time))).
Proof.
  unfold freezeHidesSolvesAfter. destruct events; [|apply safe_ret; eauto]. cbn [negb].
  apply safe_bind. eapply safe_mono; [apply freezeState_known|]. intros r [->| ->]; [apply safe_ret; eauto|].
  apply safe_bind, safe_try. eapply safe_mono; [apply callerIsAdmin_stranger|]. intros admin Ha.
  rewrite bool_decide_false by exact Ha.
  apply safe_bind. apply (safe_mono _ _ (λ r, ∃ own, r = Ok own ∧ (not_mine team → own ≠ Ok true))).
  - destruct team as [t|]; [|apply safe_ret; by eexists]. unfold callerID.
    destruct caller as [i|] eqn:Hc; [|apply safe_ret; by eexists].
    simpl. apply safe_try. rewrite <- Hc. destruct (decide (mine = Some t)) as [Hm|Hm].
    + eapply safe_mono; [apply safe_reads; unfold IsMember; steps; apply preserves_read|].
      intros r _. exists r. split; [done|]. intros Hn. by destruct (Hn t eq_refl).
    + eapply safe_mono; [by apply IsMember_stranger|]. intros r Hr. by exists r.
  - intros r (own & -> & Ho). case_bool_decide as Hown; apply safe_ret; eexists; (split; [done|]); [|by left].
    intros Hn. by destruct (Ho Hn).
Qed.

(** *** The pages *)

(** Every solve of a page is a row that was shown. *)
Lemma safe_map_prog {A B} (W : A → B → Prop) (g : A → P World B) l :
  (∀ a, safe I (g a) (λ r, ∀ b, r = Ok b → W a b)) → safe I (map_prog g l) (λ r, ∀ bs, r = Ok bs → Forall2 W l bs).
Proof.
  intros Hg. induction l as [|a l IH]; [by apply safe_ret; intros bs [= <-]|].
  apply safe_bind. eapply safe_mono; [apply Hg|]. intros [b|e] Hb; [|done].
  apply safe_bind. eapply safe_mono; [apply IH|]. intros [bs|e] Hbs; [|done].
  apply safe_ret. intros ? [= <-]. constructor; auto.
Qed.
Lemma to_solve_row r : safe I (to_solve r) (λ o, ∀ s, o = Ok s → sv_SolvedAt s = vs_SolvedAt r).
Proof.
  unfold to_solve. apply safe_bind. eapply safe_mono.
  { apply safe_reads. unfold CurrentValue. steps; apply preserves_read. }
  intros [pts|e] _; [|done]. apply safe_ret. by intros s [= <-].
Qed.
(** A page cut at the freeze point, or at no point, shows what came before it. *)
Lemma shown_before cutoff rows :
  (cutoff ≤ f)%Z →
  safe I (map_prog to_solve (List.filter (shown true cutoff) rows))
    (λ r, ∀ ss, r = Ok ss → Forall (λ s, (sv_SolvedAt s < f)%Z) ss).
Proof.
  intros Hc. eapply safe_mono; [apply (safe_map_prog (λ r s, sv_SolvedAt s = vs_SolvedAt r)), to_solve_row|].
  intros r Hr ss ->. specialize (Hr ss eq_refl). revert Hr.
  assert (Forall (λ r, (vs_SolvedAt r < cutoff)%Z) (List.filter (shown true cutoff) rows)) as HF.
  { apply List.Forall_forall. intros x [_ Hx]%List.filter_In. unfold shown in Hx. simpl in Hx.
    rewrite negb_involutive in Hx. by apply Z.ltb_lt. }
  generalize dependent (List.filter (shown true cutoff) rows). intros l HF Hr.
  induction Hr as [|a b l ss Hab _ IH]; constructor; apply Forall_cons in HF as [Ha HF]; [|auto].
  lia.
Qed.

Context (Hf : (zero_time ≤ f)%Z).

(** The rows left for a stranger's page. *)
Lemma stranger_rows {B} events team rows (k : list Solve → P World B) (Q : res B → Prop) :
  (∀ e, Q (Err e)) → (∀ ss, (not_mine team → Forall (λ s, (sv_SolvedAt s < f)%Z) ss) → safe I (k ss) Q) →
  safe I (hc ← freezeHidesSolvesAfter caller events team;
          solves ← map_prog to_solve (List.filter (shown hc.1 hc.2) rows); k solves) Q.
Proof using Hf.
  intros HE Hk. apply safe_bind. eapply safe_mono; [apply hides_from_stranger|].
  intros r (hc & -> & Hhc). apply safe_bind.
  apply (safe_mono _ _ (λ r, ∀ ss, r = Ok ss → not_mine team → Forall (λ s, (sv_SolvedAt s < f)%Z) ss)).
  2: { intros [ss|e] Hss; [|apply HE]. by apply Hk, Hss. }
  destruct (decide (hc.1 = true ∧ hc.2 ≤ f)%Z) as [[E Hle]|Hn].
  - rewrite E. eapply safe_mono; [by apply shown_before|]. auto.
  - eapply safe_mono; [apply (safe_map_prog (λ _ _, True))|].
    + intros r. by eapply safe_mono; [apply to_solve_row|].
    + intros r _ ss _ Ht. exfalso. destruct (Hhc Ht) as [->| ->]; by apply Hn.
Qed.

(** A program of reads before the rest. *)
Lemma reads_then {A B} (p : P World A) (k : A → P World B) (Q : res B → Prop) :
  all_steps I p → (∀ e, Q (Err e)) → (∀ a, safe I (k a) Q) → safe I (p ≫= k) Q.
Proof.
  intros Hp HE Hk. apply safe_bind. eapply safe_mono; [by apply safe_reads|]. intros [a|e] _; [apply Hk|apply HE].
Qed.

Definition team_page_cut (r : res TeamDetail) : Prop :=
  ∀ p, r = Ok p → mine ≠ Some (td_Id p) →
  Forall (λ s, (sv_SolvedAt s < f)%Z) (td_Solves p) ∧ td_InviteCode p = None.
Definition user_page_cut (r : res PublicUser) : Prop :=
  ∀ p, r = Ok p → (∀ t, fst <$> pu_Team p = Some t → mine ≠ Some t) →
  Forall (λ s, (sv_SolvedAt s < f)%Z) (pu_Solves p).

Lemma team_page_safe events id : safe I (h_GetTeam caller events id) team_page_cut.
Proof using Hf.
  unfold h_GetTeam. apply reads_then; [|done|].
  { unfold team_Get, load. steps; apply preserves_read. }
  intros team. apply reads_then; [steps; apply preserves_read|done|]. intros rows.
  apply stranger_rows; [done|]. intros ss Hss. apply safe_bind.
  apply (safe_mono _ _ (λ r, ∀ code, r = Ok code → mine ≠ Some (t_ID (tv_Row team)) → code = None)).
  - unfold callerID. destruct caller as [i|] eqn:Hc; [|by apply safe_ret; intros code [= <-]].
    cbn [fmap option_fmap option_map]. rewrite <- Hc. apply safe_bind. destruct (decide (mine = Some (t_ID (tv_Row team)))) as [Hm|Hm].
    + eapply safe_mono; [apply safe_reads; unfold IsMember; steps; apply preserves_read|].
      intros [m|e] _; [|done]. apply safe_ret. by intros code _ Hn.
    + eapply safe_mono; [by apply IsMember_stranger|]. intros [[]|e] Hr; [done| |done]. apply safe_ret. by intros code [= <-].
  - intros [code|e] Hcode; [|done]. apply safe_ret. intros p [= <-] Hm. simpl in *.
    split; [|by apply Hcode]. apply Hss. by intros t [= <-].
Qed.
Lemma user_page_safe events id : safe I (h_GetUser caller events id) user_page_cut.
Proof using Hf.
  unfold h_GetUser. apply reads_then; [unfold user_Get; steps; apply preserves_read|done|]. intros u.
  apply reads_then; [|done|].
  { unfold callerIsAdmin, requireAdmin, requireUser, user_Get. steps; apply preserves_read. }
  intros _. apply reads_then; [steps; apply preserves_read|done|]. intros rows.
  apply reads_then; [unfold TeamOf; steps; apply preserves_read|done|]. intros team.
  apply stranger_rows; [done|]. intros ss Hss. apply safe_ret. intros p [= <-] Hm. simpl in *.
  apply Hss. intros t Ht. apply Hm. by destruct team; simplify_eq/=.
Qed.
End Freeze.

(** C28: While the event is frozen from a point on, and as long as no other freeze state
    is remembered, the pages of teams and users show a caller who is neither an
    administrator nor on the page's team no solve at or after that point, and no invite
    code: amid any other activity that leaves the freeze, the caller's role and the
    caller's team alone (solves may be logged, reads may fail at any step), and whether
    or not the event service is wired. *)
Theorem frozen_pages_hide {L : Libs} (caller : option Identity) (mine : option uuid) (f : time) (events : bool)
    (id : uuid) (E : World → World → Prop) (w w' : World)
    (HI : frozen_for caller mine f w) (Hf : (zero_time ≤ f)%Z)
    (HE : ∀ w1 w2, frozen_for caller mine f w1 → E w1 w2 → frozen_for caller mine f w2) :
  (∀ p, amid E (h_GetTeam caller events id) w (Ok p) w' → mine ≠ Some (td_Id p) →
     Forall (λ s, (sv_SolvedAt s < f)%Z) (td_Solves p) ∧ td_InviteCode p = None) ∧
  (∀ p, amid E (h_GetUser caller events id) w (Ok p) w' → (∀ t, fst <$> pu_Team p = Some t → mine ≠ Some t) →
     Forall (λ s, (sv_SolvedAt s < f)%Z) (pu_Solves p)).
Proof.
  split; intros p Hr.
  - exact (proj2 (safe_amid _ E _ _ _ _ _ (team_page_safe caller mine f Hf events id) HE HI Hr) p eq_refl).
  - exact (proj2 (safe_amid _ E _ _ _ _ _ (user_page_safe caller mine f Hf events id) HE HI Hr) p eq_refl).
Qed.

(** ** Concrete pages *)

#[local] Existing Instance demo_libs.

Definition demo_frozen_event : Event :=
  {| e_ID := 1%N; e_Name := "Demo"; e_Description := ""; e_StartsAt := 0;
     e_EndsAt := (10 * Hour)%Z; e_FreezeAt := Some (2 * Hour)%Z |}.
Definition demo_dynamic : Challenge :=
  {| c_ID := 32%N; c_Slug := "chal"; c_Title := "Chal"; c_Category := "pwn"; c_Description := ""; c_Difficulty := None;
     c_Kind := "standard"; c_Flag := "f"; c_FlagCaseInsensitive := false; c_Scoring := "dynamic"; c_PointsInitial := 500;
     c_PointsMin := Some 100%Z; c_Decay := Some 2%Z; c_MaxAttempts := None; c_Visible := true; c_Image := None;
     c_InternalPort := None; c_MemLimitMb := 128; c_CpuMillis := 500; c_ContainerEnv := ∅; c_ConnectionTemplate := None;
     c_CreatedAt := 0; c_UpdatedAt := 0; c_Instancing := "shared"; c_FlagMode := "static"; c_InstanceTtlSeconds := None;
     c_Egress := true; c_WritablePaths := []; c_Type := "standard"; c_TypeConfig := ∅ |}.
Definition demo_sub (id team user : uuid) (at_ : time) : Submission :=
  {| s_ID := id; s_ChallengeID := 32%N; s_TeamID := team; Env.s_UserID := user; s_Provided := "***"; s_Correct := true;
     Env.s_CreatedAt := at_; s_ScoredValue := None; s_ScoredBy := None |}.
(** The event freezes after two hours; team 21 solved before, team 22 after. *)
Definition before_freeze : Submission := demo_sub 50 21 11 Hour.
Definition after_freeze : Submission := demo_sub 51 22 12 (5 * (Hour / 2)).
Definition demo_freeze_db (subs : list Submission) : DB :=
  set_event (Some demo_frozen_event) (set_submissions subs (set_challenges {[ 32%N := demo_dynamic ]} demo_db)).
Definition demo_page (team : uuid) (w : World) : option (Z * list time) :=
  match run (h_GetTeam None true team) w with
  | Some (Ok p, _) => Some (td_Points p, map sv_SolvedAt (td_Solves p))
  | _ => None
  end.

Lemma frozen_pages_hide_witness :
  let w := demo_world (demo_freeze_db [before_freeze; after_freeze]) (3 * Hour) in
  demo_page 22 w = Some (0%Z, []) ∧
  ∀ p w', amid (λ _ _, False) (h_GetTeam None true 22) w (Ok p) w' →
    Forall (λ s, (sv_SolvedAt s < 2 * Hour)%Z) (td_Solves p) ∧ td_InviteCode p = None.
Proof.
  intros w. split; [vm_compute; reflexivity|]. intros p w' Hr.
  apply (proj1 (frozen_pages_hide None None (2 * Hour) true 22 (λ _ _, False) w w'
    ltac:(split; [by eexists|by vm_compute|by left|done|done]) ltac:(by vm_compute) (λ _ _ _ F, match F with end)) p Hr).
  discriminate.
Defined.

(** ** Where the code and its comments part *)

(** The remembered state also goes stale the other way: a page read before the freeze
    point remembers that the event is not frozen; once it is, a failed read of the event
    serves that memory, and a stranger sees the solves of the freeze. *)
Theorem stale_memory_leaks :
  match run (h_GetTeam None true 22) (demo_world (demo_freeze_db [before_freeze]) Hour) with
  | Some (Ok _, w) =>
      let later := set_clock (3 * Hour)%Z (set_db (demo_freeze_db [before_freeze; after_freeze]) w) in
      w_freeze w = Some (false, (2 * Hour)%Z) ∧
      demo_page 22 later = Some (0%Z, []) ∧
      demo_page 22 (set_faults [false; false; false; true] later) = Some (100%Z, [(5 * (Hour / 2))%Z])
  | _ => False
  end.
Proof. vm_compute. done. Qed.

(** The points of a page are those of the live challenge values: a stranger's page of a
    team that solved before the freeze tells whether somebody has solved since. *)
Theorem frozen_points_move :
  demo_page 21 (demo_world (demo_freeze_db [before_freeze]) (3 * Hour)) = Some (400%Z, [Hour]) ∧
  demo_page 21 (demo_world (demo_freeze_db [before_freeze; after_freeze]) (3 * Hour)) = Some (100%Z, [Hour]).
Proof. by vm_compute. Qed.
