(* ===== verification/AdminRules.v ===== *)
(** * Who may use the administrators' endpoints

    Every administrators' endpoint of the development, for a caller who is not an
    administrator: the answer is a refusal and nothing has happened. *)

From S2P Require Import Prelude Interleave Env Store Events Scoring Runtime FakeRuntime Scheduler SchedulerSpec Submissions Scoreboard Users Teams Tokens Sessions Accounts AuthApi Challenges Demo AuthDemo Relate Views Secrets FreezeRules Endpoints AdminLists.

Section Admin.
Context {L : Libs} (c : AuthConf) {RT : ChallengeRuntime} (caller : option Identity).
Context (types types' : TypeRegistry) (IsRegisteredMode : string → bool).
Context (Put : string → list N → string → P World unit) (Delete : string → P World unit) (MaxAttachmentMB : Z).
Context (has_runtime has_board : bool) (publicHost : string) (portStart portEnd : Z).
Context (Recompute RecomputeForce : option (P World unit)).
Context (ListUnadopted : option (P World (list UnadoptedContainer))) (ListUnadoptedNetworks : option (P World (list UnadoptedNetwork))).
Context (PluginSnapshot : option (P World (list PluginStatus))) (PluginReload : option (string → P World unit)).
Context (ILike text_le : string → string → bool) (user_CreatedAt : User → time) (submission_Ip : Submission → option string).
Context (ws : P World Z).

(** The administrators' endpoints: each method [Admin*] of the server
    ([src/internal/handlers/], one constructor each). *)
Inductive admin_request : ∀ {A : Type}, P World A → Prop :=
  | ar_users target banned hidden role : admin_request (h_AdminUpdateUser c caller target banned hidden role)
  | ar_list_users page per f : admin_request (h_AdminListUsers caller ILike user_CreatedAt page per f)
  | ar_list_teams page per q : admin_request (h_AdminListTeams caller ILike page per q)
  | ar_list_challenges page per f : admin_request (h_AdminListChallenges caller text_le page per f)
  | ar_list_submissions page per f : admin_request (h_AdminListSubmissions caller submission_Ip page per f)
  | ar_stats : admin_request (h_AdminGetStats caller ws)
  | ar_password target new : admin_request (h_AdminResetPassword c caller target new)
  | ar_tokens page per : admin_request (h_AdminListTokens c caller page per)
  | ar_revoke token : admin_request (h_AdminRevokeToken c caller token)
  | ar_create i : admin_request (h_AdminCreateChallenge types types' IsRegisteredMode caller Recompute i)
  | ar_update id i : admin_request (h_AdminUpdateChallenge types types' IsRegisteredMode caller Recompute RecomputeForce id i)
  | ar_delete id confirm : admin_request (h_AdminDeleteChallenge caller has_runtime Recompute RecomputeForce id confirm)
  | ar_get id : admin_request (h_AdminGetChallenge caller id)
  | ar_upload id body : admin_request (h_AdminUploadAttachment caller Put Delete MaxAttachmentMB id body)
  | ar_remove id att : admin_request (h_AdminDeleteAttachment caller Delete id att)
  | ar_deploy id : admin_request (h_AdminDeployInstance caller has_runtime publicHost portStart portEnd id)
  | ar_instance id : admin_request (h_AdminGetInstance caller has_runtime publicHost id)
  | ar_restart id : admin_request (h_AdminRestartInstance caller has_runtime publicHost portStart portEnd id)
  | ar_destroy id : admin_request (h_AdminDestroyInstance caller has_runtime id)
  | ar_logs id tail : admin_request (h_AdminGetInstanceLogs caller has_runtime id tail)
  | ar_fleet : admin_request (h_AdminListInstances caller has_runtime ListUnadopted ListUnadoptedNetworks)
  | ar_destroy_id id : admin_request (h_AdminDestroyInstanceById caller has_runtime id)
  | ar_team id body : admin_request (h_AdminUpdateTeam caller id body)
  | ar_event : admin_request (h_AdminGetEvent caller)
  | ar_event_update p body : admin_request (h_AdminUpdateEvent caller has_board p body)
  | ar_plugins : admin_request (h_AdminListPlugins caller PluginSnapshot)
  | ar_reload name : admin_request (h_AdminReloadPlugin caller PluginReload name).

(** ** The refusal *)

(** 401 or 403. *)
Definition refused {A} (r : res A) : Prop := ∃ e, r = Err e ∧ is_denied e = true.

Section Refuse.
Context (J : World → Prop) (HJ : ∀ w fs, J w → J (set_faults fs w)) (Ha : ∀ w, J w → is_admin caller (w_db w) = false).

Lemma refused_bind {A B} (p : P World A) (k : A → P World B) : safe J p refused → safe J (p ≫= k) refused.
Proof.
  intros Hp. apply safe_bind. eapply safe_mono; [exact Hp|]. intros r (e & -> & He). by exists e.
Qed.
Lemma requireAdmin_refuses : safe J (requireAdmin caller) refused.
Proof using HJ Ha.
  unfold requireAdmin, requireUser, user_Get. unfold is_admin in Ha. apply safe_bind.
  destruct caller as [i|]; [|by apply safe_throw; eexists].
  apply safe_ret, safe_bind, safe_map_err, safe_map_err, (safe_read_any J _ _ HJ); [|by eexists].
  intros w Hw. specialize (Ha w Hw). destruct (users (w_db w) !! id_UserID i) as [u|]; [|by eexists]. cbn [one].
  assert (u_Banned u || negb (bool_decide (u_Role u = "admin")) = true) as ->.
  { destruct (u_Banned u); [done|]. simpl in *. by rewrite Ha. }
  by apply safe_throw; eexists.
Qed.
Lemma requireSessionAdmin_refuses : safe J (requireSessionAdmin caller) refused.
Proof using HJ Ha.
  unfold requireSessionAdmin. apply safe_bind. pose proof requireAdmin_refuses as Hk.
  unfold requireSession, requireUser. apply safe_bind.
  destruct caller as [i|]; [|by apply safe_throw; eexists].
  apply safe_ret. destruct (bool_decide _); [apply safe_ret, Hk|by apply safe_throw; eexists].
Qed.
Lemma admin_request_refused {A} (p : P World A) : admin_request p → safe J p refused.
Proof using HJ Ha.
  intros []; apply refused_bind; first [apply requireAdmin_refuses|apply requireSessionAdmin_refuses].
Qed.
End Refuse.
(** C29: A caller who is not an administrator gets nothing from the administrators'
    endpoints: the 27 methods [Admin*] of the server, reads and writes alike.  Each of them, amid any activity that does not make the caller one, ends in
    a 401 or a 403, whatever its arguments and whatever reads fail; and any number of such
    requests, interleaved, leave the world as it was: no row, no container, no cookie, no
    audit entry. *)
Theorem strangers_refused (w : World) (Ha : is_admin caller (w_db w) = false) :
  (∀ A (p : P World A) (E : World → World → Prop) r w', admin_request p →
     (∀ w1 w2, is_admin caller (w_db w1) = false → E w1 w2 → is_admin caller (w_db w2) = false) →
     amid E p w r w' → refused r) ∧
  (∀ ps ps' w', Forall (λ q, ∃ A (p : P World A), admin_request p ∧ q = forget p) ps → rtc pool_step (ps, w) (ps', w') →
     ∃ fs, w' = set_faults fs w).
Proof.
  split.
  - intros A p E r w' Hp HE Hr.
    refine (proj2 (safe_amid (λ w, is_admin caller (w_db w) = false) E p refused w r w' _ HE Ha Hr)).
    by apply admin_request_refused.
  - intros ps ps' w' Hps Hr. refine (safe_pool (λ w', ∃ fs, w' = set_faults fs w) ps ps' w w' _ _ Hr).
    + eapply Forall_impl; [exact Hps|]. intros q (A & p & Hp & ->). eapply safe_forget, admin_request_refused; [| |exact Hp].
      * intros w1 fs [fs1 ->]. by exists fs.
      * by intros w1 [fs1 ->].
    + exists (w_faults w). by destruct w.
Qed.
End Admin.

(** ** A player at the administrators' door *)

#[local] Existing Instance demo_libs.
#[local] Instance door_rt : ChallengeRuntime := FakeRuntime SchedulerSpec.demo_conf.

(** Resets a password, reads everyone's submissions, and bans a team. *)
Definition demo_intruder : list (prog World unit) :=
  [forget (h_AdminResetPassword AuthDemo.demo_conf (Some demo_player) 1 "hunter2 hunter2");
   forget (h_AdminListSubmissions (Some demo_player) (λ _, None) None None
     {| sf_ChallengeID := None; sf_TeamID := None; sf_UserID := None; sf_Correct := None; sf_Since := None; sf_Until := None |});
   forget (h_AdminUpdateTeam (Some demo_player) 21 (Some (Some true, None)))].

Lemma strangers_refused_witness :
  is_admin (Some demo_player) (w_db demo_accounts) = false ∧
  match exec [0; 1; 2] demo_intruder demo_accounts with
  | Some (_, w) => ∃ fs, w = set_faults fs demo_accounts
  | None => False
  end.
Proof.
  split; [vm_compute; reflexivity|].
  assert (match exec [0; 1; 2] demo_intruder demo_accounts with Some _ => true | None => false end = true) as Hrun
    by (vm_compute; reflexivity).
  destruct (exec [0; 1; 2] demo_intruder demo_accounts) as [[ps w]|] eqn:E; [|discriminate Hrun].
  refine (proj2 (strangers_refused AuthDemo.demo_conf (Some demo_player) defaultTypeRegistry defaultTypeRegistry (λ _, true)
    (λ _ _ _, mret tt) (λ _, mret tt) 1 true true "h" 1 2 None None None None None None
    (λ _ _, true) String.leb (λ _, 0%Z) (λ _, None) (mret 0%Z) demo_accounts _) demo_intruder ps w _
    (exec_sound _ _ _ _ _ E)); [vm_compute; reflexivity|].
  apply Forall_cons; split; [eexists _, _; split; [apply ar_password|reflexivity]|].
  apply Forall_cons; split; [eexists _, _; split; [apply ar_list_submissions|reflexivity]|].
  apply Forall_cons; split; [eexists _, _; split; [apply ar_team|reflexivity]|apply Forall_nil_2].
Defined.
