(* ===== verification/TickRules.v ===== *)
(** * The board after an administrator's change, and the loop of the tickers

    Where the published board stays behind what administrators did; and the loop that
    tears instances down once the event has ended. *)

From S2P Require Import Prelude Interleave Env Store Events Scoring Runtime FakeRuntime Scheduler SchedulerSpec Sweeps Submissions Scoreboard Users Teams Tokens Sessions Accounts AuthApi Challenges Demo AuthDemo Relate Views Secrets FreezeRules Endpoints.

(** ** The end of the event *)

(** What the ticker remembers once it has torn the instances down, and what is then left. *)
Definition tick_done : TickState := {| tk_lastPhase := Some PhaseEnded; tk_endCleanupDone := true |}.
Definition shared_instances (db : DB) : gmap uuid Instance_ := filter (λ p, is_per_team p.2 = false) (instances db).

(** What the board's upkeep leaves alone. *)
Record still (w w' : World) : Prop := {
  st_db : w_db w' = w_db w; st_clock : w_clock w' = w_clock w; st_sched : w_sched w' = w_sched w; st_faults : w_faults w' = []
}.
#[export] Instance still_trans : Transitive still.
Proof. intros x y z [] []. split; congruence. Qed.

(** While nothing fails, started with the board's lock taken or not ([b]), the program ends
    with the lock in state [b'] and leaves the rest alone. *)
Definition calm (b b' : bool) {A} (p : prog World A) : Prop :=
  ∀ w, w_faults w = [] → bd_mu (w_board w) = b →
    ∃ r w', run p w = Some (r, w') ∧ still w w' ∧ bd_mu (w_board w') = b'.

Create HintDb calm discriminated.
Section Calm.
Context {A : Type}.
Lemma calm_ret b (a : A) : calm b b (mret a : P World A).
Proof. intros w Hf Hm. by exists (Ok a), w. Qed.
Lemma calm_throw b e : calm b b (throw e : P World A).
Proof. intros w Hf Hm. by exists (Err e), w. Qed.
Lemma calm_bind {B} b b' (p : P World A) (k : A → P World B) : calm b b' p → (∀ a, calm b' b' (k a)) → calm b b' (p ≫= k).
Proof.
  intros Hp Hk w Hf Hm. destruct (Hp w Hf Hm) as (r & w1 & E & S1 & M1). rewrite run_bind, E.
  destruct r as [a|e]; [|by exists (Err e), w1].
  destruct (Hk a w1 (st_faults _ _ S1) M1) as (r & w2 & -> & S2 & M2). exists r, w2. split_and!; [done|by etrans|done].
Qed.
(** After what cannot fail, the rest may move the lock. *)
Lemma calm_seq {B} b b1 b' (p : P World A) (k : A → P World B) :
  infallible p → calm b b1 p → (∀ a, calm b1 b' (k a)) → calm b b' (p ≫= k).
Proof.
  intros Hi Hp Hk w Hf Hm. destruct (Hp w Hf Hm) as (r & w1 & E & S1 & M1). rewrite run_bind, E.
  apply Hi in E. destruct r as [a|e]; [|done].
  destruct (Hk a w1 (st_faults _ _ S1) M1) as (r & w2 & -> & S2 & M2). exists r, w2. split_and!; [done|by etrans|done].
Qed.
Lemma calm_try b b' (p : P World A) : calm b b' p → calm b b' (try p).
Proof.
  intros Hp w Hf Hm. destruct (Hp w Hf Hm) as (r & w1 & E & S1). exists (Ok r), w1. by rewrite run_try, E.
Qed.
Lemma calm_atomic b (m : M World A) :
  (∀ w, w_faults w = [] → still w (m w).2 ∧ bd_mu (w_board (m w).2) = bd_mu (w_board w)) → calm b b (atomic m).
Proof.
  intros Hm w Hf Hb. destruct (Hm w Hf) as [HS HM]. exists (m w).1, (m w).2. rewrite run_atomic.
  split_and!; [by destruct (m w)|done|congruence].
Qed.
Lemma calm_select b (f : DB → res A) : calm b b (atomic (select f)).
Proof. apply calm_atomic. intros w Hf. by rewrite select_nofault. Qed.
Lemma calm_gets b (f : World → A) : calm b b (atomic (gets f)).
Proof. by apply calm_atomic. Qed.
Lemma calm_redis b (f : BoardState → A * BoardState) : (∀ s, bd_mu (f s).2 = bd_mu s) → calm b b (atomic (redis f)).
Proof.
  intros Hb. apply calm_atomic. intros w Hf. unfold redis, mbind, M_bind, next_fault. rewrite Hf.
  specialize (Hb (w_board w)). destruct (f (w_board w)) as [a s] eqn:E. simpl in *. split; [by split|done].
Qed.
Lemma calm_lock b (k : unit → P World A) : (∀ a, calm true b (k a)) → calm false b (Lock ≫= k).
Proof.
  intros Hk w Hf Hm. unfold Lock. rewrite run_bind, run_blocking, Hm.
  destruct (Hk tt (on_board (with_mu true) w) Hf eq_refl) as (r & w2 & -> & [] & M2). exists r, w2. by split_and!.
Qed.
Lemma calm_unlock b (k : unit → P World A) : (∀ a, calm false b (k a)) → calm true b (Unlock ≫= k).
Proof.
  intros Hk w Hf Hm. unfold Unlock. rewrite run_bind, run_atomic. simpl.
  destruct (Hk tt (on_board (with_mu false) w) Hf eq_refl) as (r & w2 & -> & [] & M2). exists r, w2. by split_and!.
Qed.
End Calm.
Lemma calm_emit b e : calm b b (atomic (emit e)).
Proof. apply calm_atomic. intros w Hf. split; [by split|done]. Qed.
Lemma calm_modify b f : (∀ w, w_faults w = [] → still w (f w) ∧ bd_mu (w_board (f w)) = bd_mu (w_board w)) → calm b b (atomic (modify f)).
Proof. intros Hf. by apply calm_atomic. Qed.
Lemma calm_map_err {A} b b' f (p : P World A) : calm b b' p → calm b b' (map_err f p).
Proof. intros Hp. apply calm_bind; [by apply calm_try|]. intros [a|e]; [apply calm_ret|apply calm_throw]. Qed.
Lemma calm_defer_unlock {A} (p : P World A) : calm true true p → calm true false (defer Unlock p).
Proof.
  intros Hp. unfold defer. eapply calm_seq; [apply infallible_try|by apply calm_try|]. intros r.
  apply calm_unlock. intros _. destruct r; [apply calm_ret|apply calm_throw].
Qed.
#[export] Hint Resolve calm_ret calm_throw calm_select calm_gets calm_emit : calm.

(** Walk through a program that leaves the lock as it is. *)
Ltac calms :=
  repeat (intros;
    lazymatch goal with
    | |- calm _ _ (mret _) => apply calm_ret
    | |- calm _ _ (throw _) => apply calm_throw
    | _ => first
      [ solve [auto 2 with calm]
      | lazymatch goal with
        | |- calm _ _ (_ ≫= _) => apply calm_bind
        | |- calm _ _ (try _) => apply calm_try
        | |- calm _ _ (map_err _ _) => apply calm_map_err
        | |- calm _ _ (atomic _) => first [apply calm_select|apply calm_gets|apply calm_emit|solve [apply calm_redis; done]]
        | |- calm _ _ (match ?x with _ => _ end) => destruct x
        end ]
    end).

Lemma calm_frozen b : calm b b frozen.
Proof. unfold frozen, Events.Get, Frozen. calms. Qed.
Lemma calm_compute b : calm b b compute.
Proof. unfold compute. calms. Qed.
#[export] Hint Resolve calm_frozen calm_compute : calm.
Lemma calm_read b k : calm b b (read k).
Proof. unfold read. calms. Qed.
Lemma calm_write b snap : calm b b (write snap).
Proof. unfold write. calms. Qed.
Lemma calm_writeNX b snap : calm b b (writeNX snap).
Proof. unfold writeNX. apply calm_map_err, calm_redis. intros s. by destruct (bd_frozen s). Qed.
Lemma calm_Exists b : calm b b Exists.
Proof. unfold Exists. calms. Qed.
#[export] Hint Resolve calm_read calm_write calm_writeNX calm_Exists : calm.
Lemma calm_publish force snap count : calm false false (publish force snap count).
Proof.
  unfold publish. apply calm_lock. intros _.
  eapply calm_seq; [by apply infallible_atomic|apply calm_gets|]. intros last.
  destruct (_ && _); [apply calm_unlock; intros _; apply calm_ret|].
  eapply calm_seq; [apply infallible_try|apply calm_try, calm_write|]. intros r.
  apply (calm_seq _ true).
  - destruct (is_ok r); [by apply infallible_atomic|apply infallible_ret].
  - destruct (is_ok r); [|apply calm_ret]. apply calm_modify. intros w Hf. by split.
  - intros _. apply calm_unlock. intros _. destruct r; [apply calm_ret|apply calm_throw].
Qed.
Lemma calm_MaybeSnapshotFreeze : calm false false MaybeSnapshotFreeze.
Proof.
  unfold MaybeSnapshotFreeze. apply calm_bind; [apply calm_frozen|]. intros f. destruct (negb f); [apply calm_ret|].
  apply calm_bind; [apply calm_map_err, calm_Exists|]. intros e. destruct e; [apply calm_ret|].
  apply calm_lock. intros _. apply calm_defer_unlock. calms.
Qed.
#[export] Hint Resolve calm_publish calm_MaybeSnapshotFreeze : calm.
Lemma calm_served isAdmin repair : calm false false (served isAdmin repair).
Proof.
  unfold served, degradeToRecompute, readRepair.
  calms.
Qed.
#[export] Hint Resolve calm_served : calm.
Lemma calm_Recompute wired : calm false false (Scoreboard.Recompute wired).
Proof.
  unfold Scoreboard.Recompute, recompute. apply calm_bind; [apply calm_compute|]. intros c.
  apply calm_bind; [apply calm_frozen|]. intros f. apply calm_bind; [apply calm_publish|]. intros p.
  destruct (negb p); [apply calm_ret|]. destruct (_ && _); [|apply calm_ret].
  apply calm_bind; [apply calm_served|]. intros pub. unfold broadcast. apply calm_modify. intros w Hf. by split.
Qed.
Lemma calm_Reconcile wired : calm false false (ReconcileIfBehind wired).
Proof. unfold ReconcileIfBehind. calms; apply calm_Recompute. Qed.
Lemma calm_warn {A} b msg (p : P World A) : calm b b p → calm b b (warn msg p).
Proof. intros Hp. unfold warn. calms. Qed.

Section Ended.
Context `{Libs} `{!ChallengeRuntime} `{Hrt : !RuntimeDestroys}.
Context (wired : bool) (BroadcastPhase : Phase → P World unit) (HB : ∀ ph, calm false false (BroadcastPhase ph))
  (HBi : ∀ ph, infallible (BroadcastPhase ph)).

(** A part of the tick that only keeps the board up, before the rest. *)
Lemma run_calm {A B} (p : P World A) (k : A → P World B) (Q : res B → World → Prop) w :
  calm false false p → infallible p → w_faults w = [] → bd_mu (w_board w) = false →
  (∀ a w', still w w' → bd_mu (w_board w') = false → wp (k a) Q w') → wp (p ≫= k) Q w.
Proof.
  intros Hp Hi Hf Hm Hk. destruct (Hp w Hf Hm) as (r & w1 & E & S1 & M1). apply wp_bind. unfold wp at 1. rewrite E.
  apply Hi in E. destruct r as [a|e]; [|done]. by apply Hk.
Qed.
Lemma infallible_warn {A} msg (p : P World A) : infallible (warn msg p).
Proof.
  unfold warn. apply infallible_bind; [apply infallible_try|]. intros [a|e]; [apply infallible_ret|].
  by apply infallible_atomic.
Qed.

(** C30: Once the event has ended, one round of the ticker in which nothing fails, no lock
    is held and the tear-down has not yet been completed ends, whatever the earlier rounds
    did: it completes the tear-down, no instance of a team is left, every shared instance
    is, and the ticker remembers that it is done. *)
Theorem ended_event_torn_down (s : TickState) (e : Event) (w : World)
    (Hq : quiet w) (Hm : bd_mu (w_board w) = false) (Hpk : ∀ u i, instances (w_db w) !! u = Some i → i_ID i = u)
    (He : event (w_db w) = Some e) (Hend : phase_at (w_clock w) e = PhaseEnded) (Hs : tk_endCleanupDone s = false) :
  wp (tick wired BroadcastPhase s) (λ r w',
    r = Ok tick_done ∧ instances (w_db w') = shared_instances (w_db w)) w.
Proof using Hrt HB HBi.
  destruct Hq as [Hf Hteam]. unfold tick.
  apply run_calm; [apply calm_warn, calm_MaybeSnapshotFreeze|apply infallible_warn|done|done|]. intros _ w1 S1 M1.
  apply run_calm; [apply calm_warn, calm_Reconcile|apply infallible_warn|apply S1|done|]. intros _ w2 S2 M2.
  pose proof (still_trans _ _ _ S1 S2) as [Edb Eck Esc Ef]. clear S1 S2 M1 w1.
  assert (quiet w2) as Hq2 by (split; [done|by rewrite Esc]).
  apply wp_bind. unfold wp at 1. rewrite run_try, (Get_run w2 Hq2), Edb, He. cbv beta iota.
  apply wp_bind. unfold wp at 1, Phase_. rewrite run_bind, run_atomic. cbn [clock_now gets run mret P_ret].
  rewrite Eck, Hend. apply run_calm.
  { destruct (_ && _); [|apply calm_ret]. apply calm_bind; [apply HB|]. intros _. apply calm_warn, calm_Recompute. }
  { destruct (_ && _); [|apply infallible_ret]. apply infallible_bind; [apply HBi|]. intros _. apply infallible_warn. }
  { done. }
  { done. }
  intros _ w3 S3 M3. rewrite bool_decide_true by done. unfold end_cleanup. rewrite Hs.
  pose proof (CleanupEnded_exact w3) as Hc. destruct S3 as [Edb3 Eck3 Esc3 Ef3].
  rewrite Edb3, Edb, He, Eck3, Eck in Hc. rewrite decide_True in Hc by exact Hend.
  assert (quiet w3) as Hq3 by (split; [done|by rewrite Esc3, Esc]). specialize (Hc Hq3 Hpk).
  apply wp_bind, wp_bind. eapply wp_mono; [exact Hc|]. intros r w4 (-> & _ & Hi). cbv beta iota.
  by apply wp_ret, wp_ret.
Qed.
End Ended.

#[local] Existing Instance demo_libs.
#[local] Instance tick_rt : ChallengeRuntime := FakeRuntime SchedulerSpec.demo_conf.

(** ** Boards that stay behind *)

Definition demo_solved (id challenge team user : uuid) (at_ : time) : Submission :=
  {| s_ID := id; s_ChallengeID := challenge; s_TeamID := team; Env.s_UserID := user; s_Provided := "***"; s_Correct := true;
     Env.s_CreatedAt := at_; s_ScoredValue := None; s_ScoredBy := None |}.
(** Team 21 has solved both challenges. *)
Definition demo_board_db : DB :=
  set_users {[ 1%N := demo_account 1 "root" "admin"; 11%N := demo_user 11; 12%N := demo_user 12 ]}
    (set_submissions [demo_solved 50 31 21 11 10; demo_solved 51 32 21 11 20] demo_db).
(** What a stranger sees: the teams and their points. *)
Definition public_board : P World (list (uuid * Z)) :=
  s ← h_GetScoreboard None; mret (map (λ e, (b_TeamID e, b_Points e)) (sn_Standings s)).
Definition log_solve (s : Submission) : P World unit :=
  atomic (modify (λ w, set_db (set_submissions (submissions (w_db w) ++ [s]) (w_db w)) w)).
Definition demo_tick : P World TickState := tick true (λ _, mret tt) tick_start.

(** An administrator hides a team.  Nothing recomputes the board, the guard on the number
    of solves drops the recompute after the next solve of another team, the ticker finds the
    log no longer than the board: a stranger keeps seeing the hidden team, and not the solve. *)
Definition hide_and_solve : P World (list (uuid * Z)) :=
  Scoreboard.Recompute true;;
  h_AdminUpdateTeam (Some demo_admin) 21 (Some (None, Some true));;
  log_solve (demo_solved 52 32 22 12 30);;
  recompute_logged true;;
  demo_tick;;
  public_board.
Definition answer_of {A} (p : P World A) (w : World) : option (res A) := fst <$> run p w.

Theorem hidden_team_stays :
  answer_of hide_and_solve (demo_world demo_board_db Hour) = Some (Ok [(21%N, 200%Z); (22%N, 0%Z)]).
Proof. by vm_compute. Qed.

(** The clock moves. *)
Definition at_clock (t : time) : P World unit := atomic (modify (λ w, set_dbnow t (set_clock t w))).
Definition freeze_at (t : time) : P World Event :=
  h_AdminUpdateEvent (Some demo_admin) true (recompute_logged true)
    (Some {| eu_Name := None; eu_Description := None; eu_StartsAt := None; eu_EndsAt := None; eu_FreezeAt := Some t |}).
(** A freeze is captured, then moved to a later time: the board is live again, a solve is
    published; at the new freeze point the board of the old one is served. *)
Definition freeze_moved : P World (list (uuid * Z) * list (uuid * Z) * list (uuid * Z)) :=
  Scoreboard.Recompute true;;
  freeze_at (2 * Hour);;
  at_clock (2 * Hour);; demo_tick;;
  b1 ← public_board;
  at_clock (3 * Hour);;
  freeze_at (5 * Hour);;
  log_solve (demo_solved 52 32 22 12 (4 * Hour));;
  recompute_logged true;;
  at_clock (4 * Hour);; demo_tick;;
  b2 ← public_board;
  at_clock (5 * Hour);; demo_tick;;
  b3 ← public_board;
  mret (b1, b2, b3).
Theorem old_freeze_returns :
  answer_of freeze_moved (demo_world demo_board_db Hour) =
  Some (Ok ([(21%N, 200%Z); (22%N, 0%Z)], [(21%N, 200%Z); (22%N, 100%Z)], [(21%N, 200%Z); (22%N, 0%Z)])).
Proof. by vm_compute. Qed.

(** ** A start that outlives the event *)

(** A start has passed its checks when the event ends; the tick finds no instance and
    latches; the start deploys; the next ticks do nothing. *)
Definition outliving : list (prog World unit) :=
  [forget (Start 30000 30010 demo_cfg "osctf" 11 21 31); forget (at_clock (11 * Hour));
   forget (runTickers true (λ _, mret tt) 3 tick_start)].
Theorem start_outlives_event :
  match exec (repeat 0 13 ++ [1] ++ repeat 2 30 ++ repeat 0 10 ++ repeat 2 8) outliving (demo_world demo_db Hour) with
  | Some ([Ret _; Ret _; Ret _], w) => map i_State (inst_rows (w_db w)) = [StateRunning] ∧ phase_at (w_clock w) demo_event = PhaseEnded
  | _ => False
  end.
Proof. vm_compute. done. Qed.

(** Two team instances and a shared one, an hour after the end. *)
Lemma ended_event_torn_down_witness :
  let w := demo_world sweep_db (11 * Hour) in
  wp (tick true (λ _, mret tt) tick_start) (λ r w',
    r = Ok tick_done ∧ instances (w_db w') = shared_instances (w_db w)) w ∧
  size (instances (w_db w)) ≠ size (shared_instances (w_db w)).
Proof.
  intros w. split; [|vm_compute; discriminate].
  apply (ended_event_torn_down (Hrt := fake_destroys SchedulerSpec.demo_conf eq_refl) true (λ _, mret tt)
    (λ _, calm_ret false tt) (λ _, infallible_ret tt) tick_start demo_event w); [by split|reflexivity| |reflexivity|reflexivity|reflexivity].
  exact sweep_db_pk.
Defined.
