(* ===== verification/PluginFiles.v ===== *)
(** * What plugins are on disk ([internal/plugin/manifest.go], [config.go], [discovery.go], [sweep.go])

    A plugin's manifest and its validation, the config it is launched with, which plugins of
    the directory are launched at all, and the sweep that kills the children an earlier
    process left behind. *)

From Stdlib Require Import Ascii.
From S2P Require Import Prelude Text Challenges.

(** ** The manifest ([manifest.go]) *)

Record ConfigKey := { ck_Type : string; ck_Required : bool; ck_Secret : bool; ck_Default : string }.
Record Manifest := {
  m_Name : string; m_Type : string; m_ABI : string; m_Version : string; m_Executable : string;
  m_Description : string; m_Override : bool; m_Config : gmap string ConfigKey
}.

(** The types a manifest may name, with the keys under which they are dispensed. *)
Definition pluginTypes : gmap string string :=
  {[ "auth" := "auth"; "scoring" := "scoring"; "notification" := "notification"; "challenge_type" := "challenge_type" ]}.
Definition nameRE : string → bool := slugRe.
Definition configTypeOK (t : string) : bool := bool_decide (t ∈ ["string"; "int"; "bool"]).
Definition dispenseKey (m : Manifest) : string := default "" (pluginTypes !! m_Type m).

(** [strconv.Atoi]: an optional sign and decimal digits, within 64 bits. *)
Definition Atoi (s : string) : option Z :=
  let digits (l : list ascii) : option N :=
    match l with
    | [] => None
    | _ => match scan_digits 0 l with (n, []) => Some n | _ => None end
    end in
  let in_range (z : Z) : option Z := if decide (- 2 ^ 63 ≤ z < 2 ^ 63)%Z then Some z else None in
  match to_bytes s with
  | "-"%char :: l => n ← digits l; in_range (- Z.of_N n)%Z
  | "+"%char :: l => n ← digits l; in_range (Z.of_N n)
  | l => n ← digits l; in_range (Z.of_N n)
  end.
(** [strconv.ParseBool]. *)
Definition ParseBool (s : string) : option bool :=
  if decide (s ∈ ["1"; "t"; "T"; "true"; "TRUE"; "True"]) then Some true else
  if decide (s ∈ ["0"; "f"; "F"; "false"; "FALSE"; "False"]) then Some false else None.

Definition ABIMajor : Z := 1.
(** What stands before the first dot. *)
Definition major_of (abi : string) : string := default "" (head (Split abi ".")).
Definition checkABIMajor (abi : string) : res unit :=
  match Atoi (TrimSpace (major_of abi)) with
  | None => Err (ErrOther "abi is not a valid major.minor")
  | Some n => if decide (n = ABIMajor) then Ok tt else Err (ErrOther "abi major is not the host's")
  end.

(** One declared key. *)
Definition check_key (c : ConfigKey) : res unit :=
  if negb (bool_decide (ck_Type c = "")) && negb (configTypeOK (ck_Type c))
  then Err (ErrOther "config: type must be string/int/bool")
  else if ck_Secret c && negb (bool_decide (ck_Default c = ""))
  then Err (ErrOther "config: a secret key must not carry a value in the manifest (env-only)")
  else Ok tt.
Fixpoint check_keys (l : list (string * ConfigKey)) : res unit :=
  match l with
  | [] => Ok tt
  | p :: l => match check_key p.2 with Ok _ => check_keys l | e => e end
  end.
(** The keys come in the order [range] gives them, which the language leaves open. *)
Definition validate (range : gmap string ConfigKey → list (string * ConfigKey)) (m : Manifest) : res unit :=
  if negb (nameRE (m_Name m)) then Err (ErrOther "name must match ^[a-z0-9]+(-[a-z0-9]+)*$") else
  match pluginTypes !! m_Type m with
  | None => Err (ErrOther "type is not one of auth/scoring/notification/challenge_type")
  | Some _ =>
      match checkABIMajor (m_ABI m) with
      | Err e => Err e
      | Ok _ =>
          if bool_decide (TrimSpace (m_Executable m) = "") then Err (ErrOther "executable is required")
          else check_keys (range (m_Config m))
      end
  end.

(** ** The config a plugin is launched with ([config.go]) *)

Section Config.
(** The runes of [strings.ToUpper], and the process's environment. *)
Context (ToUpper : string → list N) (lookupEnv : string → option string).

Definition env_rune (r : N) : bool := ((65 <=? r) && (r <=? 90) || (48 <=? r) && (r <=? 57))%N.
Definition envToken (s : string) : string :=
  of_bytes (map (λ r, if env_rune r then ascii_of_N r else "_"%char) (ToUpper s)).
Definition configEnvVar (pluginName key : string) : string :=
  "OSCTF_PLUGIN_" +:+ envToken pluginName +:+ "_" +:+ envToken key.

(** What is wrong with a value; the message quotes it. *)
Definition checkConfigType (typ val : string) : option string :=
  if decide (typ = "int") then match Atoi val with None => Some ("must be an int, got " +:+ val) | Some _ => None end else
  if decide (typ = "bool") then match ParseBool val with None => Some ("must be a bool, got " +:+ val) | Some _ => None end else
  None.

(** One key: its value, nothing, or why the plugin must not be launched. *)
Definition resolve_key (name key : string) (decl : ConfigKey) : res (option string) :=
  let env := configEnvVar name key in
  let refused msg : res (option string) := Err (ErrOther ("plugin " +:+ name +:+ ": " +:+ msg)) in
  let checked val :=
    if decide (val = "") then
      if ck_Required decl then refused ("required config " +:+ key +:+ " has no value: set " +:+ env) else Ok None
    else match checkConfigType (ck_Type decl) val with
         | None => Ok (Some val)
         | Some msg =>
             if ck_Secret decl then refused ("secret config " +:+ key +:+ " is not a valid " +:+ ck_Type decl)
             else refused ("config " +:+ key +:+ " " +:+ msg)
         end in
  match lookupEnv env with
  | Some val => checked val
  | None =>
      if ck_Secret decl then
        if ck_Required decl then refused ("required secret config " +:+ key +:+ " is unset: set " +:+ env) else Ok None
      else checked (ck_Default decl)
  end.
Fixpoint resolve_keys (name : string) (l : list (string * ConfigKey)) (out : gmap string string) : res (gmap string string) :=
  match l with
  | [] => Ok out
  | (key, decl) :: l =>
      match resolve_key name key decl with
      | Err e => Err e
      | Ok None => resolve_keys name l out
      | Ok (Some val) => resolve_keys name l (<[key := val]> out)
      end
  end.
(** The declared keys, sorted. *)
Definition sorted_keys (m : gmap string ConfigKey) : list (string * ConfigKey) :=
  merge_sort (λ p q, Is_true (String.leb p.1 q.1)) (map_to_list m).
Definition resolveConfig (m : Manifest) : res (gmap string string) :=
  resolve_keys (m_Name m) (sorted_keys (m_Config m)) ∅.
End Config.

(** ** Discovery ([discovery.go]) *)

(** What reading a file gave, and what [os.Stat] says of one. *)
Inductive read_file := Absent | Unreadable | Contents (data : string).
Record file_info := { fi_IsRegular : bool; fi_OwnerExec : bool }.
(** One entry of the plugins directory: its manifest, and the files next to it. *)
Record dir_entry := {
  de_Name : string; de_IsDir : bool; de_manifest : read_file; de_stat : string → option file_info
}.
Record discovered := { d_manifest : Manifest; d_dir : string; d_executable : string }.

Section Discovery.
(** The YAML decoder, and the order of [range]. *)
Context (parse : string → res Manifest) (range : gmap string ConfigKey → list (string * ConfigKey)).

Definition parseManifest (data : string) : res Manifest :=
  match parse data with Ok m => Ok m | Err e => Err (Wrap "parse manifest" e) end.
Definition checkExecutable (info : option file_info) : res unit :=
  match info with
  | None => Err (ErrOther "no such file")
  | Some i =>
      if negb (fi_IsRegular i) then Err (ErrOther "is not a regular file")
      else if negb (fi_OwnerExec i) then Err (ErrOther "is not executable (owner-exec bit unset)")
      else Ok tt
  end.
Definition loadOne (e : dir_entry) : option discovered :=
  match de_manifest e with
  | Contents data =>
      match parseManifest data with
      | Err _ => None
      | Ok m =>
          match validate range m with
          | Err _ => None
          | Ok _ =>
              match checkExecutable (de_stat e (m_Executable m)) with
              | Err _ => None
              | Ok _ => Some {| d_manifest := m; d_dir := de_Name e; d_executable := m_Executable m |}
              end
          end
      end
  | Absent | Unreadable => None
  end.
Definition d_name (d : discovered) : string := m_Name (d_manifest d).
(** The plugins of a name that another of them has too are all dropped. *)
Definition fail_collisions (found : list discovered) : list discovered :=
  filter (λ d, length (filter (λ d', d_name d' = d_name d) found) ≤ 1) found.
Definition sort_entries (entries : list dir_entry) : list dir_entry :=
  merge_sort (λ x y, Is_true (String.leb (de_Name x) (de_Name y))) entries.
Definition discoverPlugins (root : res (option (list dir_entry))) : res (list discovered) :=
  match root with
  | Err e => Err (Wrap "scan plugins dir" e)
  | Ok None => Ok []
  | Ok (Some entries) => Ok (fail_collisions (omap loadOne (filter (λ e, de_IsDir e = true) (sort_entries entries))))
  end.
Definition CountByType (root : res (option (list dir_entry))) (ptype : string) : nat :=
  match discoverPlugins root with
  | Err _ => 0
  | Ok found => length (filter (λ d, m_Type (d_manifest d) = ptype) found)
  end.
End Discovery.

(** ** The sweep of leaked children ([sweep.go]) *)

Record pidfileRecord := { pf_PID : Z; pf_Token : string; pf_Owner : Z }.
(** A live process: its command line, unless it cannot be read, and whether killing it fails. *)
Record process := { ps_command : option string; ps_immune : bool }.
(** The host's processes, and the pidfiles, by file name: [None] cannot be read or parsed. *)
Record OS := { os_procs : gmap Z process; os_pidfiles : gmap string (option pidfileRecord) }.
Definition set_procs v s := {| os_procs := v; os_pidfiles := os_pidfiles s |}.
Definition set_pidfiles v s := {| os_procs := os_procs s; os_pidfiles := v |}.

Definition pidTokenArg : string := "--osctf-plugin-token=".
Definition tokenArg (token : string) : string := pidTokenArg +:+ token.
Definition readPidfile (path : string) : M OS pidfileRecord := λ s,
  match os_pidfiles s !! path with
  | Some (Some r) => (if (0 <? pf_PID r)%Z then Ok r else Err (ErrOther "pidfile missing pid"), s)
  | _ => (Err (ErrOther "malformed pidfile"), s)
  end.
Definition writePidfile (name : string) (pid : Z) (token : string) (owner : Z) : M OS string := λ s,
  let path := name +:+ ".pid" in
  (Ok path, set_pidfiles (<[path := Some {| pf_PID := pid; pf_Token := token; pf_Owner := owner |}]> (os_pidfiles s)) s).
Definition processAlive (pid : Z) (s : OS) : bool := (0 <? pid)%Z && bool_decide (is_Some (os_procs s !! pid)).
(** [strings.Contains]. *)
Fixpoint contains (l sub : list ascii) : bool :=
  match strip sub l with
  | Some _ => true
  | None => match l with [] => false | _ :: l => contains l sub end
  end.
Definition processMatchesToken (pid : Z) (token : string) (s : OS) : bool :=
  negb (bool_decide (token = "")) &&
  match os_procs s !! pid with
  | Some {| ps_command := Some out |} => contains (to_bytes out) (to_bytes token)
  | _ => false
  end.
(** [SIGKILL]: the process is gone, unless the signal is refused. *)
Definition kill_process (pid : Z) : M OS unit := λ s,
  match os_procs s !! pid with
  | Some p => if ps_immune p then (Err (ErrOther "operation not permitted"), s) else (Ok tt, set_procs (delete pid (os_procs s)) s)
  | None => (Err (ErrOther "no such process"), s)
  end.
Definition remove_file (path : string) : M OS unit := modify (λ s, set_pidfiles (delete path (os_pidfiles s)) s).

(** One pidfile: the pid that was reclaimed, if any. *)
Definition sweep_one (path : string) : P OS (option Z) :=
  read ← try (atomic (readPidfile path));
  match read with
  | Err _ => mret None
  | Ok r =>
      alive ← atomic (gets (processAlive (pf_PID r)));
      if negb alive then atomic (remove_file path);; mret None else
      owned ← (if decide (pf_Owner r = 0%Z) then mret false else atomic (gets (processAlive (pf_Owner r))));
      if owned : bool then mret None else
      ours ← atomic (gets (processMatchesToken (pf_PID r) (pf_Token r)));
      if ours : bool then
        killed ← try (atomic (kill_process (pf_PID r)));
        match killed with
        | Err _ => mret None
        | Ok _ => atomic (remove_file path);; mret (Some (pf_PID r))
        end
      else atomic (remove_file path);; mret None
  end.
Fixpoint sweep_all (paths : list string) (reclaimed : list Z) : P OS (list Z) :=
  match paths with
  | [] => mret reclaimed
  | path :: paths =>
      r ← sweep_one path;
      sweep_all paths (reclaimed ++ match r with Some pid => [pid] | None => [] end)
  end.
(** The entries that are files named [*.pid]. *)
Definition HasSuffix (s suffix : string) : bool :=
  match strip (rev (to_bytes suffix)) (rev (to_bytes s)) with Some _ => true | None => false end.
Definition pidfiles_of (entries : list (string * bool)) : list string :=
  (filter (λ e, e.2 = false ∧ HasSuffix e.1 ".pid" = true) entries).*1.
(** [os.ReadDir] gives the names, sorted, and which are directories; the directory may be
    absent or unreadable. *)
Definition sweepOrphans (dir : res (option (list (string * bool)))) : P OS (list Z) :=
  match dir with
  | Err e => throw e
  | Ok None => mret []
  | Ok (Some entries) => sweep_all (pidfiles_of entries) []
  end.
