(* ===== verification/Plugins.v ===== *)
(** * The plugin host ([internal/plugin], [cmd/platform/plugin_registrar.go])

    Plugins are processes of their own.  The loader discovers them, launches each under a
    supervisor that restarts it, quarantines it, reloads and stops it, publishes what a
    ready plugin provides, and lets calls through to ready plugins only, within an in-flight
    budget.  The loader shares no state with the services: its programs run on a state of
    their own, [Host]. *)

From Stdlib Require Import Ascii.
From S2P Require Import Prelude Text Env Scoring Challenges AuthApi PluginFiles.

(** ** The state machine ([state.go]) *)

Inductive State :=
  | StateDiscovered | StateLaunching | StateReady | StateUnhealthy
  | StateRestarting | StateFailed | StateDraining | StateStopped.
#[export] Instance State_eq_dec : EqDecision State.
Proof. solve_decision. Defined.

Definition legalTransitions (from : State) : list State :=
  match from with
  | StateDiscovered => [StateLaunching; StateFailed]
  | StateLaunching => [StateReady; StateRestarting; StateFailed]
  | StateReady => [StateUnhealthy; StateDraining]
  | StateUnhealthy => [StateReady; StateRestarting; StateDraining]
  | StateRestarting => [StateLaunching; StateFailed]
  | StateFailed => [StateLaunching]
  | StateDraining => [StateStopped]
  | StateStopped => []
  end.
(** The next state, when the transition is one of those. *)
Definition to (next m : State) : option State := if decide (next ∈ legalTransitions m) then Some next else None.
Definition servesNew (m : State) : bool := bool_decide (m = StateReady).

(** ** The loader's state *)

(** What [Info] reports, the type as a manifest spells it. *)
Record InfoResponse := { in_Type : string; in_Name : string; in_Abi : string; in_Capabilities : list string }.

(** A live plugin process with its connection; a pointer is its index.  [cn_infoClient]
    says whether its client can be asked [Info], [cn_drained] is the drain context, and [cn_owner] the
    plugin it was launched for. *)
Record conn := {
  cn_owner : string; cn_infoClient : bool; cn_pid : Z; cn_inflight : Z;
  cn_drained : bool; cn_exited : bool
}.
Definition with_inflight v x := {| cn_owner := cn_owner x; cn_infoClient := cn_infoClient x; cn_pid := cn_pid x; cn_inflight := v; cn_drained := cn_drained x; cn_exited := cn_exited x |}.
Definition with_drained v x := {| cn_owner := cn_owner x; cn_infoClient := cn_infoClient x; cn_pid := cn_pid x; cn_inflight := cn_inflight x; cn_drained := v; cn_exited := cn_exited x |}.
Definition with_exited v x := {| cn_owner := cn_owner x; cn_infoClient := cn_infoClient x; cn_pid := cn_pid x; cn_inflight := cn_inflight x; cn_drained := cn_drained x; cn_exited := v |}.

(** A buffered channel of tokens: its capacity, and how many are in it. *)
Record sem := { sm_cap : nat; sm_taken : nat }.
Definition with_taken v x := {| sm_cap := sm_cap x; sm_taken := v |}.
(** The goroutine that waits for a process to end: its cancel, and the channel it closes. *)
Record watcher := { wt_cancelled : bool; wt_closed : bool }.

Record budget := { bu_perPluginCap : Z; bu_global : option nat; bu_queueWait : duration }.

(** [mg_cur] is the published connection, [mg_sem] the plugin's semaphore. *)
Record managed := {
  mg_ptype : string; mg_m : State; mg_cur : option nat; mg_sem : nat; mg_registered : bool;
  mg_reason : string
}.
Definition with_ptype v x := {| mg_ptype := v; mg_m := mg_m x; mg_cur := mg_cur x; mg_sem := mg_sem x; mg_registered := mg_registered x; mg_reason := mg_reason x |}.
Definition with_m v x := {| mg_ptype := mg_ptype x; mg_m := v; mg_cur := mg_cur x; mg_sem := mg_sem x; mg_registered := mg_registered x; mg_reason := mg_reason x |}.
Definition with_cur v x := {| mg_ptype := mg_ptype x; mg_m := mg_m x; mg_cur := v; mg_sem := mg_sem x; mg_registered := mg_registered x; mg_reason := mg_reason x |}.
Definition with_registered v x := {| mg_ptype := mg_ptype x; mg_m := mg_m x; mg_cur := mg_cur x; mg_sem := mg_sem x; mg_registered := v; mg_reason := mg_reason x |}.
Definition with_reason v x := {| mg_ptype := mg_ptype x; mg_m := mg_m x; mg_cur := mg_cur x; mg_sem := mg_sem x; mg_registered := mg_registered x; mg_reason := v |}.

(** A supervisor; [su_reloadCh] are the requests whose callers are at the send. *)
Record supervisor := {
  su_expectType : string; su_launches : nat; su_curPID : Z; su_attempts : Z; su_readySince : time;
  su_reloadCh : gset nat; su_done : bool
}.
Definition with_launches v x := {| su_expectType := su_expectType x; su_launches := v; su_curPID := su_curPID x; su_attempts := su_attempts x; su_readySince := su_readySince x; su_reloadCh := su_reloadCh x; su_done := su_done x |}.
Definition with_curPID v x := {| su_expectType := su_expectType x; su_launches := su_launches x; su_curPID := v; su_attempts := su_attempts x; su_readySince := su_readySince x; su_reloadCh := su_reloadCh x; su_done := su_done x |}.
Definition with_attempts v x := {| su_expectType := su_expectType x; su_launches := su_launches x; su_curPID := su_curPID x; su_attempts := v; su_readySince := su_readySince x; su_reloadCh := su_reloadCh x; su_done := su_done x |}.
Definition with_readySince v x := {| su_expectType := su_expectType x; su_launches := su_launches x; su_curPID := su_curPID x; su_attempts := su_attempts x; su_readySince := v; su_reloadCh := su_reloadCh x; su_done := su_done x |}.
Definition with_reloadCh v x := {| su_expectType := su_expectType x; su_launches := su_launches x; su_curPID := su_curPID x; su_attempts := su_attempts x; su_readySince := su_readySince x; su_reloadCh := v; su_done := su_done x |}.
Definition with_done v x := {| su_expectType := su_expectType x; su_launches := su_launches x; su_curPID := su_curPID x; su_attempts := su_attempts x; su_readySince := su_readySince x; su_reloadCh := su_reloadCh x; su_done := v |}.

(** An auth plugin's provider, by its capabilities. *)
Record authCapabilities := { ac_password : bool; ac_redirect : bool }.
(** Where what plugins provide is published. *)
Record Registries := {
  rg_types : TypeRegistry; rg_scoring : Registry Engine; rg_callers : gset string;
  rg_cancels : gmap string (list string); rg_auth : AuthRegistry authCapabilities
}.
Definition with_types v x := {| rg_types := v; rg_scoring := rg_scoring x; rg_callers := rg_callers x; rg_cancels := rg_cancels x; rg_auth := rg_auth x |}.
Definition with_scoring v x := {| rg_types := rg_types x; rg_scoring := v; rg_callers := rg_callers x; rg_cancels := rg_cancels x; rg_auth := rg_auth x |}.
Definition with_callers v x := {| rg_types := rg_types x; rg_scoring := rg_scoring x; rg_callers := v; rg_cancels := rg_cancels x; rg_auth := rg_auth x |}.
Definition with_cancels v x := {| rg_types := rg_types x; rg_scoring := rg_scoring x; rg_callers := rg_callers x; rg_cancels := v; rg_auth := rg_auth x |}.
Definition with_auth v x := {| rg_types := rg_types x; rg_scoring := rg_scoring x; rg_callers := rg_callers x; rg_cancels := rg_cancels x; rg_auth := v |}.

(** What happens, in order. *)
Inductive note :=
  | Moved (name : string) (from next : State)
  | IllegalTransition (name : string) (from next : State)
  | Launching (name : string)
  | FailedAttempt (name : string)
  | Serving (name : string) (since : time)
  | Forgiven (name : string) (now : time)
  | Quarantined (name : string)
  | OperatorReload (name : string)
  | Called (name method : string) (c : nat)
  | Shed (name level : string)
  | Killed (c : nat).

(** [p_stop] is the context the supervisors run under, which only a loader that got so far as to launch can
    cancel ([p_bootCancel]); [p_ctx] the callers' contexts that are
    cancelled; [p_asked] counts reload requests and [p_results] are their answers; [p_rand] is
    the jitter's source, [p_choices] the choices of [select], [p_gauge] the metric of calls in flight. *)
Record Host := {
  p_plugins : gmap string managed; p_budget : budget; p_sems : list sem; p_conns : list conn;
  p_exits : list watcher; p_sups : gmap string supervisor; p_reg : Registries;
  p_pidfiles : gset string; p_asked : nat; p_results : gmap nat (res unit); p_bootCancel : bool; p_stop : bool;
  p_ctx : gset nat; p_now : time; p_rand : list Z; p_choices : list nat; p_gauge : gmap string Z; p_log : list note
}.
Definition set_plugins v h := {| p_plugins := v; p_budget := p_budget h; p_sems := p_sems h; p_conns := p_conns h; p_exits := p_exits h; p_sups := p_sups h; p_reg := p_reg h; p_pidfiles := p_pidfiles h; p_asked := p_asked h; p_results := p_results h; p_bootCancel := p_bootCancel h; p_stop := p_stop h; p_ctx := p_ctx h; p_now := p_now h; p_rand := p_rand h; p_choices := p_choices h; p_gauge := p_gauge h; p_log := p_log h |}.
Definition set_sems v h := {| p_plugins := p_plugins h; p_budget := p_budget h; p_sems := v; p_conns := p_conns h; p_exits := p_exits h; p_sups := p_sups h; p_reg := p_reg h; p_pidfiles := p_pidfiles h; p_asked := p_asked h; p_results := p_results h; p_bootCancel := p_bootCancel h; p_stop := p_stop h; p_ctx := p_ctx h; p_now := p_now h; p_rand := p_rand h; p_choices := p_choices h; p_gauge := p_gauge h; p_log := p_log h |}.
Definition set_conns v h := {| p_plugins := p_plugins h; p_budget := p_budget h; p_sems := p_sems h; p_conns := v; p_exits := p_exits h; p_sups := p_sups h; p_reg := p_reg h; p_pidfiles := p_pidfiles h; p_asked := p_asked h; p_results := p_results h; p_bootCancel := p_bootCancel h; p_stop := p_stop h; p_ctx := p_ctx h; p_now := p_now h; p_rand := p_rand h; p_choices := p_choices h; p_gauge := p_gauge h; p_log := p_log h |}.
Definition set_exits v h := {| p_plugins := p_plugins h; p_budget := p_budget h; p_sems := p_sems h; p_conns := p_conns h; p_exits := v; p_sups := p_sups h; p_reg := p_reg h; p_pidfiles := p_pidfiles h; p_asked := p_asked h; p_results := p_results h; p_bootCancel := p_bootCancel h; p_stop := p_stop h; p_ctx := p_ctx h; p_now := p_now h; p_rand := p_rand h; p_choices := p_choices h; p_gauge := p_gauge h; p_log := p_log h |}.
Definition set_sups v h := {| p_plugins := p_plugins h; p_budget := p_budget h; p_sems := p_sems h; p_conns := p_conns h; p_exits := p_exits h; p_sups := v; p_reg := p_reg h; p_pidfiles := p_pidfiles h; p_asked := p_asked h; p_results := p_results h; p_bootCancel := p_bootCancel h; p_stop := p_stop h; p_ctx := p_ctx h; p_now := p_now h; p_rand := p_rand h; p_choices := p_choices h; p_gauge := p_gauge h; p_log := p_log h |}.
Definition set_reg v h := {| p_plugins := p_plugins h; p_budget := p_budget h; p_sems := p_sems h; p_conns := p_conns h; p_exits := p_exits h; p_sups := p_sups h; p_reg := v; p_pidfiles := p_pidfiles h; p_asked := p_asked h; p_results := p_results h; p_bootCancel := p_bootCancel h; p_stop := p_stop h; p_ctx := p_ctx h; p_now := p_now h; p_rand := p_rand h; p_choices := p_choices h; p_gauge := p_gauge h; p_log := p_log h |}.
Definition set_pidfiles v h := {| p_plugins := p_plugins h; p_budget := p_budget h; p_sems := p_sems h; p_conns := p_conns h; p_exits := p_exits h; p_sups := p_sups h; p_reg := p_reg h; p_pidfiles := v; p_asked := p_asked h; p_results := p_results h; p_bootCancel := p_bootCancel h; p_stop := p_stop h; p_ctx := p_ctx h; p_now := p_now h; p_rand := p_rand h; p_choices := p_choices h; p_gauge := p_gauge h; p_log := p_log h |}.
Definition set_asked v h := {| p_plugins := p_plugins h; p_budget := p_budget h; p_sems := p_sems h; p_conns := p_conns h; p_exits := p_exits h; p_sups := p_sups h; p_reg := p_reg h; p_pidfiles := p_pidfiles h; p_asked := v; p_results := p_results h; p_bootCancel := p_bootCancel h; p_stop := p_stop h; p_ctx := p_ctx h; p_now := p_now h; p_rand := p_rand h; p_choices := p_choices h; p_gauge := p_gauge h; p_log := p_log h |}.
Definition set_results v h := {| p_plugins := p_plugins h; p_budget := p_budget h; p_sems := p_sems h; p_conns := p_conns h; p_exits := p_exits h; p_sups := p_sups h; p_reg := p_reg h; p_pidfiles := p_pidfiles h; p_asked := p_asked h; p_results := v; p_bootCancel := p_bootCancel h; p_stop := p_stop h; p_ctx := p_ctx h; p_now := p_now h; p_rand := p_rand h; p_choices := p_choices h; p_gauge := p_gauge h; p_log := p_log h |}.
Definition set_stop v h := {| p_plugins := p_plugins h; p_budget := p_budget h; p_sems := p_sems h; p_conns := p_conns h; p_exits := p_exits h; p_sups := p_sups h; p_reg := p_reg h; p_pidfiles := p_pidfiles h; p_asked := p_asked h; p_results := p_results h; p_bootCancel := p_bootCancel h; p_stop := v; p_ctx := p_ctx h; p_now := p_now h; p_rand := p_rand h; p_choices := p_choices h; p_gauge := p_gauge h; p_log := p_log h |}.
Definition set_bootCancel v h := {| p_plugins := p_plugins h; p_budget := p_budget h; p_sems := p_sems h; p_conns := p_conns h; p_exits := p_exits h; p_sups := p_sups h; p_reg := p_reg h; p_pidfiles := p_pidfiles h; p_asked := p_asked h; p_results := p_results h; p_bootCancel := v; p_stop := p_stop h; p_ctx := p_ctx h; p_now := p_now h; p_rand := p_rand h; p_choices := p_choices h; p_gauge := p_gauge h; p_log := p_log h |}.
Definition set_ctx v h := {| p_plugins := p_plugins h; p_budget := p_budget h; p_sems := p_sems h; p_conns := p_conns h; p_exits := p_exits h; p_sups := p_sups h; p_reg := p_reg h; p_pidfiles := p_pidfiles h; p_asked := p_asked h; p_results := p_results h; p_bootCancel := p_bootCancel h; p_stop := p_stop h; p_ctx := v; p_now := p_now h; p_rand := p_rand h; p_choices := p_choices h; p_gauge := p_gauge h; p_log := p_log h |}.
Definition set_now v h := {| p_plugins := p_plugins h; p_budget := p_budget h; p_sems := p_sems h; p_conns := p_conns h; p_exits := p_exits h; p_sups := p_sups h; p_reg := p_reg h; p_pidfiles := p_pidfiles h; p_asked := p_asked h; p_results := p_results h; p_bootCancel := p_bootCancel h; p_stop := p_stop h; p_ctx := p_ctx h; p_now := v; p_rand := p_rand h; p_choices := p_choices h; p_gauge := p_gauge h; p_log := p_log h |}.
Definition set_rand v h := {| p_plugins := p_plugins h; p_budget := p_budget h; p_sems := p_sems h; p_conns := p_conns h; p_exits := p_exits h; p_sups := p_sups h; p_reg := p_reg h; p_pidfiles := p_pidfiles h; p_asked := p_asked h; p_results := p_results h; p_bootCancel := p_bootCancel h; p_stop := p_stop h; p_ctx := p_ctx h; p_now := p_now h; p_rand := v; p_choices := p_choices h; p_gauge := p_gauge h; p_log := p_log h |}.
Definition set_choices v h := {| p_plugins := p_plugins h; p_budget := p_budget h; p_sems := p_sems h; p_conns := p_conns h; p_exits := p_exits h; p_sups := p_sups h; p_reg := p_reg h; p_pidfiles := p_pidfiles h; p_asked := p_asked h; p_results := p_results h; p_bootCancel := p_bootCancel h; p_stop := p_stop h; p_ctx := p_ctx h; p_now := p_now h; p_rand := p_rand h; p_choices := v; p_gauge := p_gauge h; p_log := p_log h |}.
Definition set_gauge v h := {| p_plugins := p_plugins h; p_budget := p_budget h; p_sems := p_sems h; p_conns := p_conns h; p_exits := p_exits h; p_sups := p_sups h; p_reg := p_reg h; p_pidfiles := p_pidfiles h; p_asked := p_asked h; p_results := p_results h; p_bootCancel := p_bootCancel h; p_stop := p_stop h; p_ctx := p_ctx h; p_now := p_now h; p_rand := p_rand h; p_choices := p_choices h; p_gauge := v; p_log := p_log h |}.
Definition set_log v h := {| p_plugins := p_plugins h; p_budget := p_budget h; p_sems := p_sems h; p_conns := p_conns h; p_exits := p_exits h; p_sups := p_sups h; p_reg := p_reg h; p_pidfiles := p_pidfiles h; p_asked := p_asked h; p_results := p_results h; p_bootCancel := p_bootCancel h; p_stop := p_stop h; p_ctx := p_ctx h; p_now := p_now h; p_rand := p_rand h; p_choices := p_choices h; p_gauge := p_gauge h; p_log := v |}.

Definition jot (n : note) (h : Host) : Host := set_log (p_log h ++ [n]) h.
Definition plugin_alter (f : managed → managed) (name : string) (h : Host) : Host := set_plugins (alter f name (p_plugins h)) h.
Definition sup_alter (f : supervisor → supervisor) (name : string) (h : Host) : Host := set_sups (alter f name (p_sups h)) h.
Definition conn_alter (f : conn → conn) (c : nat) (h : Host) : Host := set_conns (alter f c (p_conns h)) h.
Definition exit_alter (f : watcher → watcher) (w : nat) (h : Host) : Host := set_exits (alter f w (p_exits h)) h.
Definition stuck {A} : P Host A := blocking (λ _, None).

(** One of the ready cases of a [select]; none is ready: it waits. *)
Definition select_ready {A} (ready : list A) (h : Host) : option (A * Host) :=
  match ready with
  | [] => None
  | x :: _ =>
      match p_choices h with
      | [] => Some (x, h)
      | n :: ns => a ← ready !! (n mod length ready); Some (a, set_choices ns h)
      end
  end.

(** A context, by whether it is done. *)
Definition ctx := Host → bool.
Definition Background : ctx := λ _, false.
Definition caller_ctx (i : nat) : ctx := λ h, bool_decide (i ∈ p_ctx h).
Definition boot_ctx : ctx := p_stop.
Definition WithDeadline (c : ctx) (deadline : time) : ctx := λ h, c h || (deadline <=? p_now h)%Z.
(** [mergeCtx] with the drain context of the connection. *)
Definition mergeCtx (a : ctx) (c : nat) : ctx := λ h,
  a h || match p_conns h !! c with Some x => cn_drained x | None => false end.

(** ** The in-flight budget and dispatch ([loader.go]) *)

Definition newBudget (perPluginCap globalCap : Z) (queueWait : duration) (h : list sem) : budget * list sem :=
  if (0 <? globalCap)%Z
  then ({| bu_perPluginCap := perPluginCap; bu_global := Some (length h); bu_queueWait := queueWait |},
        h ++ [{| sm_cap := Z.to_nat globalCap; sm_taken := 0 |}])
  else ({| bu_perPluginCap := perPluginCap; bu_global := None; bu_queueWait := queueWait |}, h).

Definition sem_free (i : nat) (h : Host) : bool :=
  match p_sems h !! i with Some s => (sm_taken s <? sm_cap s)%nat | None => false end.
Definition sem_put (i : nat) (h : Host) : Host := set_sems (alter (λ s, with_taken (S (sm_taken s)) s) i (p_sems h)) h.
Definition sem_drop (i : nat) (h : Host) : Host := set_sems (alter (λ s, with_taken (pred (sm_taken s)) s) i (p_sems h)) h.
(** [select] between sending a token and a context. *)
Definition sem_send (i : nat) (c : ctx) : P Host bool := blocking (λ h,
  '(sent, h) ← select_ready ((if sem_free i h then [true] else []) ++ (if c h then [false] else [])) h;
  Some (sent, if sent : bool then sem_put i h else h)).
(** Receiving a token waits for one. *)
Definition sem_receive (i : nat) : P Host unit := blocking (λ h,
  s ← p_sems h !! i; if (0 <? sm_taken s)%nat then Some (tt, sem_drop i h) else None).

Definition ErrNotReady : error := ErrOther "plugin: not ready".
(** It answers [errors.Is] like an unavailable service. *)
Definition ShedError (name level : string) (retryAfter : duration) : error :=
  Unavailable (if decide (level = "global") then "plugin " +:+ name +:+ ": global plugin budget exhausted"
               else "plugin " +:+ name +:+ ": at per-plugin in-flight cap") retryAfter.

(** A slot was not to be had: the caller gave up, or the call is shed. *)
Definition shed_or_cancelled (c : ctx) (name level : string) : P Host unit :=
  gone ← atomic (gets c);
  if gone : bool then throw ErrCtx else
  wait ← atomic (gets (λ h, bu_queueWait (p_budget h)));
  atomic (modify (jot (Shed name level)));;
  throw (ShedError name level wait).
Definition acquire (c : ctx) (name : string) (s : nat) : P Host unit :=
  b ← atomic (gets p_budget);
  now ← atomic (gets p_now);
  let acqCtx := WithDeadline c (now + bu_queueWait b) in
  sent ← sem_send s acqCtx;
  if negb sent then shed_or_cancelled c name "per_plugin" else
  match bu_global b with
  | None => mret tt
  | Some g =>
      sent ← sem_send g acqCtx;
      if sent : bool then mret tt else sem_receive s;; shed_or_cancelled c name "global"
  end.
(** What [acquire] returns with the slots. *)
Definition release (s : nat) : P Host unit :=
  b ← atomic (gets p_budget);
  (match bu_global b with Some g => sem_receive g | None => mret tt end);;
  sem_receive s.

(** The published connection and the semaphore of a plugin that may be called. *)
Definition ready_conn (name : string) (h : Host) : option (nat * nat) :=
  p ← p_plugins h !! name;
  if servesNew (mg_m p) then c ← mg_cur p; Some (c, mg_sem p) else None.
Definition count_inflight (d : Z) (c : nat) : M Host unit :=
  modify (conn_alter (λ x, with_inflight (cn_inflight x + d)%Z x) c).
(** The gauge of calls in flight, by plugin. *)
Definition gauge_of (name : string) (h : Host) : Z := default 0%Z (p_gauge h !! name).
Definition gauge (d : Z) (name : string) : M Host unit := modify (λ h, set_gauge (<[name := (gauge_of name h + d)%Z]> (p_gauge h)) h).
Definition dispatch {A} (c : ctx) (name method : string) (call : ctx → nat → P Host A) : P Host A :=
  serve ← atomic (gets (ready_conn name));
  match serve with
  | None => throw ErrNotReady
  | Some (cn, s) =>
      acquire c name s;;
      defer (release s)
        (atomic (count_inflight 1 cn);;
         atomic (gauge 1 name);;
         defer (atomic (count_inflight (-1) cn);; atomic (gauge (-1) name))
           (atomic (modify (jot (Called name method cn)));;
            call (mergeCtx c cn) cn))
  end.

(** [track], and the state of a plugin before it: [discovered], with a semaphore of its own. *)
Definition track (name : string) : M Host unit := modify (λ h,
  let cap := if (bu_perPluginCap (p_budget h) <=? 0)%Z then 64%Z else bu_perPluginCap (p_budget h) in
  let mg := {| mg_ptype := ""; mg_m := StateDiscovered; mg_cur := None; mg_sem := length (p_sems h);
               mg_registered := false; mg_reason := "" |} in
  set_plugins (<[name := mg]> (p_plugins h))
    (set_sems (p_sems h ++ [{| sm_cap := Z.to_nat cap; sm_taken := 0 |}]) h)).
Definition setType (name ptype : string) : M Host unit := modify (plugin_alter (with_ptype ptype) name).
Definition setLoadReason (name reason : string) : M Host unit := modify (plugin_alter (with_reason reason) name).

(** A guarded transition; an illegal one is a bug, and changes nothing. *)
Definition move (name : string) (next : State) (h : Host) : Host :=
  match p_plugins h !! name with
  | None => h
  | Some p =>
      match to next (mg_m p) with
      | Some m => jot (Moved name (mg_m p) next) (plugin_alter (with_m m) name h)
      | None => jot (IllegalTransition name (mg_m p) next) h
      end
  end.
(** [failLoad]: quarantined before it was ever launched.  An error of the transition is ignored. *)
Definition failLoad (name ptype reason : string) : M Host unit := λ h,
  let h := match p_plugins h !! name with Some _ => h | None => (track name h).2 end in
  let h := plugin_alter (λ p, with_reason reason (with_ptype ptype p)) name h in
  (Ok tt, match p_plugins h !! name with
          | Some p => match to StateFailed (mg_m p) with
                      | Some m => jot (Moved name (mg_m p) StateFailed) (plugin_alter (with_m m) name h)
                      | None => h
                      end
          | None => h
          end).

Record PluginStatus := { st_Name : string; st_Type : string; st_State : State; st_Reason : string }.
(** Every tracked plugin, by name. *)
Definition Snapshot (h : Host) : list PluginStatus :=
  merge_sort (λ x y, Is_true (String.leb (st_Name x) (st_Name y)))
    ((λ p, {| st_Name := p.1; st_Type := mg_ptype p.2; st_State := mg_m p.2; st_Reason := mg_reason p.2 |})
       <$> map_to_list (p_plugins h)).

(** ** What a plugin process does *)

(** How a launch may fail: before there is a process, or after. *)
Inductive launch_fault := StartFails | HandshakeFails | DispenseFails | PidfileFails.
Record launch_outcome := { lo_pid : Z; lo_infoClient : bool; lo_fault : option launch_fault }.

(** The other side: what the launches of each plugin come to, and its answers.  A call may wait, look at its
    context and fail; it changes nothing of the host. *)
Class PluginProcesses := {
  spawned : string → nat → launch_outcome;
  rpc_Info : ctx → nat → P Host InfoResponse;
  rpc_Subscriptions : ctx → nat → P Host (list string);
  rpc_Notify : string → ctx → nat → P Host bool;
  rpc_Value : Z → Z → Z → Z → ctx → nat → P Host Z;
  rpc_CheckFlag : string → gmap string string → gmap string string → ctx → nat → P Host bool;
  rpc_ValidateConfig : gmap string string → ctx → nat → P Host ConfigValidation;
  (** A plugin's type, as the challenge service asks it. *)
  challengeTypeAdapter : string → ChallengeType
}.

Section Host.
Context `{PluginProcesses}.

(** ** The registrar ([plugin_registrar.go]) *)

Definition on_reg (f : Registries → Registries) : M Host unit := modify (λ h, set_reg (f (p_reg h)) h).
Definition with_timeout (c : ctx) (d : duration) : P Host ctx := now ← atomic (gets p_now); mret (WithDeadline c (now + d)).

Definition subscriptionsTimeout : duration := (5 * Second)%Z.
(** The events the plugin asks for; all of them when it cannot be asked. *)
Definition notifyWants (name : string) : P Host (list string) :=
  c ← with_timeout Background subscriptionsTimeout;
  r ← try (dispatch c name "Subscriptions" rpc_Subscriptions);
  mret (match r with Ok names => names | Err _ => ["*"] end).
(** The predicate it makes of them. *)
Definition wants (names : list string) (event : string) : bool :=
  if decide (names = []) then false else bool_decide ("*" ∈ names) || bool_decide (event ∈ names).

Definition authInfoTimeout : duration := (5 * Second)%Z.
Definition capabilities_of (l : list string) : authCapabilities :=
  {| ac_password := bool_decide ("password" ∈ l); ac_redirect := bool_decide ("redirect" ∈ l) |}.
Definition pluginAuthCapabilities (name : string) : P Host authCapabilities :=
  c ← with_timeout Background authInfoTimeout;
  r ← try (dispatch c name "Info" rpc_Info);
  mret (match r with Ok resp => capabilities_of (in_Capabilities resp) | Err _ => capabilities_of [] end).
Definition registerAuth (name : string) : P Host unit :=
  caps ← pluginAuthCapabilities name;
  if negb (ac_password caps) && negb (ac_redirect caps)
  then throw (ErrOther "auth plugin advertises no usable capability")
  else atomic (λ h, let '(r, a) := auth_Register name caps false (rg_auth (p_reg h)) in
                    (r, set_reg (with_auth a (p_reg h)) h)).

(** A mode is marked for validation with an engine the board never asks. *)
Definition scoringMarker : Engine := StaticValue.
Definition Register (name ptype : string) : P Host unit :=
  if decide (ptype = "challenge_type") then
    atomic (λ h, let '(r, t) := type_Register name (challengeTypeAdapter name) false (rg_types (p_reg h)) in
                 (r, set_reg (with_types t (p_reg h)) h))
  else if decide (ptype = "scoring") then
    atomic (λ h, let '(r, s) := Scoring.Register name scoringMarker false (rg_scoring (p_reg h)) in
                 (r, set_reg (with_scoring s (p_reg h)) h));;
    atomic (on_reg (λ g, with_callers ({[name]} ∪ rg_callers g) g))
  else if decide (ptype = "notification") then
    names ← notifyWants name;
    atomic (on_reg (λ g, with_cancels (<[name := names]> (rg_cancels g)) g))
  else if decide (ptype = "auth") then registerAuth name
  else mret tt.
Definition Deregister (name ptype : string) : P Host unit :=
  if decide (ptype = "challenge_type") then atomic (on_reg (λ g, with_types (type_Deregister name (rg_types g)) g))
  else if decide (ptype = "scoring") then
    atomic (on_reg (λ g, with_callers (rg_callers g ∖ {[name]}) g));;
    atomic (on_reg (λ g, with_scoring (Scoring.Deregister name (rg_scoring g)) g))
  else if decide (ptype = "notification") then atomic (on_reg (λ g, with_cancels (delete name (rg_cancels g)) g))
  else if decide (ptype = "auth") then atomic (on_reg (λ g, with_auth (auth_Deregister name (rg_auth g)) g))
  else mret tt.

(** What the services reach a plugin by.  Each is one dispatched call. *)
Definition CheckFlag (c : ctx) (id submitted : string) (config instance : gmap string string) : P Host bool :=
  dispatch c id "CheckFlag" (rpc_CheckFlag submitted config instance).
Definition ValidateConfig (c : ctx) (id : string) (cfg : gmap string string) : P Host ConfigValidation :=
  dispatch c id "ValidateConfig" (rpc_ValidateConfig cfg).
Definition notifyHandler (c : ctx) (name event : string) : P Host bool :=
  dispatch c name "Notify" (rpc_Notify event).
(** The value, the rule that gave it, and whether there is one. *)
Definition Score (fallback : bool) (c : ctx) (mode : string) (params : ChallengeScoring) (solves : Z) : P Host (Z * string * bool) :=
  live ← atomic (gets (λ h, bool_decide (mode ∈ rg_callers (p_reg h))));
  let no_answer := if fallback then (StaticValue params solves, "fallback"%string, true) else (0%Z, "pending"%string, false) in
  if negb live then mret no_answer else
  r ← try (dispatch c mode "Value"
    (rpc_Value (int32_of (sc_Initial params)) (int32_of (sc_Min params)) (int32_of (sc_Decay params)) (int32_of solves)));
  mret (match r with Ok value => (value, mode, true) | Err _ => no_answer end).

(** [registerReady]: published once, when the plugin first becomes ready. *)
Definition registerReady (name : string) : P Host unit :=
  claim ← atomic (λ h,
    match p_plugins h !! name with
    | Some p => if mg_registered p then (Ok None, h) else (Ok (Some (mg_ptype p)), plugin_alter (with_registered true) name h)
    | None => (Ok None, h)
    end);
  match claim with
  | None => mret tt
  | Some ptype =>
      r ← try (Register name ptype);
      match r with Ok _ => mret tt | Err _ => atomic (modify (plugin_alter (with_registered false) name)) end
  end.
(** [revert]: withdrawn, before the process is killed; again and again if need be. *)
Definition revert (name : string) : P Host unit :=
  claim ← atomic (λ h,
    match p_plugins h !! name with
    | Some p => if mg_registered p then (Ok (Some (mg_ptype p)), plugin_alter (with_registered false) name h) else (Ok None, h)
    | None => (Ok None, h)
    end);
  match claim with None => mret tt | Some ptype => Deregister name ptype end.

(** ** The supervisor ([supervisor.go], [launch.go], [identity.go]) *)

Record superConfig := {
  maxAttempts : Z; baseBackoff : duration; maxBackoff : duration; healthStable : duration; drainTimeout : duration
}.
(** [newSupervisor] fills what is not set. *)
Definition with_defaults (c : superConfig) : superConfig :=
  let or_else (v d : Z) := if (v <=? 0)%Z then d else v in
  {| maxAttempts := or_else (maxAttempts c) 5%Z; baseBackoff := or_else (baseBackoff c) (200 * 1000000)%Z;
     maxBackoff := or_else (maxBackoff c) (30 * Second)%Z; healthStable := or_else (healthStable c) Minute;
     drainTimeout := or_else (drainTimeout c) (30 * Second)%Z |}.

(** Doubling up to the cap: [d] after [i] more doublings. *)
Fixpoint doubled (i : nat) (max d : duration) : duration :=
  match i with
  | 0 => d
  | S i => if (d <? max)%Z then doubled i max (2 * d)%Z else d
  end.
Definition backoff_cap (base max : duration) (attempt : Z) : duration :=
  let d := doubled (Z.to_nat (attempt - 1)) max base in if (max <? d)%Z then max else d.
(** A uniform random point up to that: [rand.Int63n] of one more. *)
Definition backoffDelay (base max : duration) (attempt : Z) : M Host duration := λ h,
  let d := backoff_cap base max attempt in
  if (d <=? 0)%Z then (Ok 0%Z, h) else
  match p_rand h with
  | [] => (Ok 0%Z, h)
  | r :: rs => (Ok (r mod (d + 1))%Z, set_rand rs h)
  end.

(** [realSleep]: until the time has passed or the context is done. *)
Definition realSleep (c : ctx) (d : duration) : P Host unit :=
  if (d <=? 0)%Z then mret tt else
  now ← atomic (gets p_now);
  gone ← blocking (λ h, select_ready ((if c h then [true] else []) ++ (if (now + d <=? p_now h)%Z then [false] else [])) h);
  if gone : bool then throw ErrCtx else mret tt.

Definition kill (c : nat) : M Host unit := modify (λ h, jot (Killed c) (conn_alter (with_exited true) c h)).
Definition transition (name : string) (next : State) : M Host unit := modify (move name next).

(** The child is started: a connection to it, not yet usable. *)
Definition start_process (name : string) (o : launch_outcome) : M Host nat := λ h,
  (Ok (length (p_conns h)),
   set_conns (p_conns h ++ [{| cn_owner := name; cn_infoClient := lo_infoClient o; cn_pid := lo_pid o; cn_inflight := 0;
                               cn_drained := false; cn_exited := false |}]) h).
(** [realLaunch]: the process, its handshake, its client, its pidfile. *)
Definition realLaunch (pidfileDir : bool) (name : string) : P Host nat :=
  n ← atomic (gets (λ h, match p_sups h !! name with Some s => su_launches s | None => 0 end));
  let o := spawned name n in
  match lo_fault o with
  | Some StartFails => throw (ErrOther "launch: the process does not start")
  | f =>
      c ← atomic (start_process name o);
      match f with
      | Some HandshakeFails => atomic (kill c);; throw (ErrOther "launch: handshake")
      | Some DispenseFails => atomic (kill c);; throw (ErrOther "launch: dispense")
      | f =>
          if negb pidfileDir then mret c else
          match f with
          | Some _ => atomic (kill c);; throw (Wrap "write pidfile" (ErrOther "write"))
          | None => atomic (modify (λ h, set_pidfiles ({[name]} ∪ p_pidfiles h) h));; mret c
          end
      end
  end.

Context (cfg : superConfig) (pidfileDir : bool).

Definition sup_get {A} (f : supervisor → A) (d : A) (name : string) (h : Host) : A :=
  match p_sups h !! name with Some s => f s | None => d end.
Definition launch (name : string) : P Host nat :=
  atomic (modify (λ h, jot (Launching name) (sup_alter (λ s, with_launches (S (su_launches s)) s) name h)));;
  realLaunch pidfileDir name.
Definition attachDrain (c : nat) : M Host unit := modify (conn_alter (with_drained false) c).

(** Quarantine: out of [unhealthy] the way goes through [restarting]. *)
Definition quarantine (name : string) : M Host unit := modify (λ h,
  match p_plugins h !! name with
  | None => h
  | Some p =>
      let h := if decide (mg_m p = StateUnhealthy) then move name StateRestarting h else h in
      jot (Quarantined name) (plugin_alter (with_cur None) name (move name StateFailed h))
  end).
Definition answer (r : nat) (v : res unit) : M Host unit := modify (λ h, set_results (<[r := v]> (p_results h)) h).
(** A receive from the reload channel lets its sender go on. *)
Definition take_reload (name : string) (r : nat) (h : Host) : Host :=
  sup_alter (λ s, with_reloadCh (su_reloadCh s ∖ {[r]}) s) name h.
Definition waiting (name : string) (h : Host) : list nat := sup_get (λ s, elements (su_reloadCh s)) [] name h.

(** Whether to stop, once quarantined: on a stop, or not on an operator's reload. *)
Definition parkUntilReload (name : string) : P Host bool :=
  ev ← blocking (λ h,
    '(ev, h) ← select_ready ((if p_stop h then [None] else []) ++ (Some <$> waiting name h)) h;
    Some (ev, match ev with Some r => take_reload name r h | None => h end));
  match ev with
  | None => mret true
  | Some r =>
      atomic (modify (λ h, jot (OperatorReload name) (sup_alter (with_attempts 0%Z) name h)));;
      atomic (answer r (Ok tt));;
      mret false
  end.
Definition backoffOrQuarantine (name : string) (atCap : bool) : P Host bool :=
  attempts ← atomic (λ h,
    (Ok (sup_get su_attempts 0 name h + 1)%Z,
     jot (FailedAttempt name) (sup_alter (λ s, with_attempts (su_attempts s + 1)%Z s) name h)));
  if atCap then
    revert name;;
    atomic (quarantine name);;
    parkUntilReload name
  else
    atomic (transition name StateRestarting);;
    d ← atomic (backoffDelay (baseBackoff cfg) (maxBackoff cfg) attempts);
    r ← try (realSleep boot_ctx d);
    mret (negb (is_ok r)).

Definition identityTimeout : duration := (5 * Second)%Z.
Definition abiMajorOf (abi : string) : Z := default (-1)%Z (Atoi (TrimSpace (major_of abi))).
(** Why the running binary is not what its manifest says, if it is not. *)
Definition verifyIdentity (name : string) (c : nat) : P Host (option string) :=
  expectType ← atomic (gets (sup_get su_expectType "" name));
  if decide (expectType = "") then mret None else
  can ← atomic (gets (λ h, match p_conns h !! c with Some x => cn_infoClient x | None => false end));
  if negb can then mret None else
  t ← with_timeout Background identityTimeout;
  r ← try (rpc_Info t c);
  mret (match r with
        | Err _ => Some ("the binary did not answer Info on the service its manifest declares" : string)
        | Ok resp =>
            if negb (bool_decide (in_Type resp = expectType)) then Some ("the binary reports another type" : string) else
            if negb (bool_decide (in_Name resp = name)) then Some ("the binary reports another name" : string) else
            if negb (bool_decide (abiMajorOf (in_Abi resp) = ABIMajor)) then Some ("the binary was built against another ABI major" : string)
            else None
        end).
Definition quarantineIdentity (name reason : string) : P Host bool :=
  atomic (setLoadReason name reason);;
  revert name;;
  atomic (quarantine name);;
  parkUntilReload name.

(** Launching until there is a connection; none when the supervisor is to stop.  At most [n] turns. *)
Fixpoint launchWithRetry (n : nat) (name : string) : P Host (option nat) :=
  match n with
  | 0 => stuck
  | S n =>
      atomic (transition name StateLaunching);;
      r ← try (launch name);
      stop ← atomic (gets p_stop);
      if stop : bool then (match r with Ok c => atomic (kill c) | Err _ => mret tt end);; mret None else
      match r with
      | Ok c => mret (Some c)
      | Err _ =>
          attempts ← atomic (gets (sup_get su_attempts 0%Z name));
          stop ← backoffOrQuarantine name (maxAttempts cfg <=? attempts + 1)%Z;
          if stop : bool then mret None else launchWithRetry n name
      end
  end.

(** The new readiness clock and pid, after the lock is left. *)
Definition note_ready (name : string) (c : nat) : P Host unit :=
  atomic (modify (λ h, jot (Serving name (p_now h)) (sup_alter (with_readySince (p_now h)) name h)));;
  atomic (modify (λ h, sup_alter (with_curPID (match p_conns h !! c with Some x => cn_pid x | None => 0%Z end)) name h)).
Definition becomeReady (name : string) (c : nat) : P Host unit :=
  atomic (modify (λ h, plugin_alter (with_cur (Some c)) name (move name StateReady h)));;
  note_ready name c.
Definition swapTo (name : string) (c : nat) : P Host unit :=
  atomic (modify (plugin_alter (with_cur (Some c)) name));;
  note_ready name c.
Definition markUnhealthy (name : string) : M Host unit :=
  modify (λ h, plugin_alter (with_cur None) name (move name StateUnhealthy h)).

Definition drainPoll : duration := (10 * 1000000)%Z.
(** The polls until no call is left or the deadline has passed: each sleeps [drainPoll] at least. *)
Fixpoint drain_polls (n : nat) (c : nat) (deadline : time) : P Host unit :=
  match n with
  | 0 => mret tt
  | S n =>
      busy ← atomic (gets (λ h, match p_conns h !! c with Some x => (0 <? cn_inflight x)%Z | None => false end));
      if negb busy then mret tt else
      now ← atomic (gets p_now);
      if negb (now <? deadline)%Z then mret tt else
      r ← try (realSleep Background drainPoll);
      match r with Ok _ => drain_polls n c deadline | Err _ => mret tt end
  end.
Definition drain_fuel : nat := S (Z.to_nat (drainTimeout cfg / drainPoll + 1)).
Definition drain (c : nat) : P Host unit :=
  atomic (modify (conn_alter (with_drained true) c));;
  now ← atomic (gets p_now);
  drain_polls drain_fuel c (now + drainTimeout cfg).
Definition drainAndKill (c : nat) : P Host unit := drain c;; atomic (kill c).

Definition watch (c : nat) : P Host nat :=
  w ← atomic (λ h, (Ok (length (p_exits h)), set_exits (p_exits h ++ [{| wt_cancelled := false; wt_closed := false |}]) h));
  go (blocking (λ h,
        let exited := match p_conns h !! c with Some x => cn_exited x | None => true end in
        let cancelled := match p_exits h !! w with Some x => wt_cancelled x | None => true end in
        if exited || cancelled || p_stop h then Some (tt, h) else None);;
      atomic (modify (exit_alter (λ x, {| wt_cancelled := wt_cancelled x; wt_closed := true |}) w)));;
  mret w.
Definition cancelWatch (w : nat) : M Host unit := modify (exit_alter (λ x, {| wt_cancelled := true; wt_closed := wt_closed x |}) w).

(** A stop of a running plugin. *)
Definition teardown (name : string) (c : nat) : P Host unit :=
  revert name;;
  atomic (transition name StateDraining);;
  drain c;;
  atomic (kill c);;
  atomic (modify (λ h, plugin_alter (with_cur None) name (move name StateStopped h)));;
  atomic (modify (sup_alter (with_curPID 0%Z) name));;
  if pidfileDir then atomic (modify (λ h, set_pidfiles (p_pidfiles h ∖ {[name]}) h)) else mret tt.

(** A crash counts as a failed attempt; a long enough streak of readiness before it forgives
    the earlier ones.  Whether to stop. *)
Definition afterCrash (name : string) (dead : nat) : P Host bool :=
  atomic (kill dead);;
  atomic (markUnhealthy name);;
  now ← atomic (gets p_now);
  atomic (modify (λ h,
    let up := (now - sup_get su_readySince 0 name h)%Z in
    let h := if (healthStable cfg <=? up)%Z then jot (Forgiven name now) (sup_alter (with_attempts 0%Z) name h) else h in
    sup_alter (with_readySince 0%Z) name h));;
  atomic (modify (sup_alter (with_curPID 0%Z) name));;
  attempts ← atomic (gets (sup_get su_attempts 0%Z name));
  backoffOrQuarantine name (maxAttempts cfg <=? attempts + 1)%Z.

Inductive serve_event := Stop_case | Exited | Reload_ (r : nat).
Inductive serveOutcome := outcomeStopped | outcomeCrashed.
Definition serve_ready (name : string) (w : nat) (h : Host) : list serve_event :=
  (if p_stop h then [Stop_case] else []) ++
  (if match p_exits h !! w with Some x => wt_closed x | None => false end then [Exited] else []) ++
  (Reload_ <$> waiting name h).
Definition serve_select (name : string) (w : nat) : P Host serve_event := blocking (λ h,
  '(ev, h) ← select_ready (serve_ready name w h) h;
  Some (ev, match ev with Reload_ r => take_reload name r h | _ => h end)).

(** At most [n] turns: [cur] is the connection, [w] its watcher. *)
Fixpoint serve_loop (n : nat) (name : string) (cur w : nat) : P Host serveOutcome :=
  match n with
  | 0 => stuck
  | S n =>
      ev ← serve_select name w;
      match ev with
      | Stop_case =>
          atomic (cancelWatch w);; teardown name cur;; mret outcomeStopped
      | Exited =>
          atomic (cancelWatch w);;
          stop ← afterCrash name cur;
          mret (if stop : bool then outcomeStopped else outcomeCrashed)
      | Reload_ req =>
          r ← try (launch name);
          stop ← atomic (gets p_stop);
          if stop : bool then
            (match r with Ok c => atomic (kill c) | Err _ => mret tt end);;
            atomic (answer req (Err ErrCtx));;
            atomic (cancelWatch w);; teardown name cur;; mret outcomeStopped
          else
            match r with
            | Err e => atomic (answer req (Err (Wrap "reload: new instance did not become ready" e)));; serve_loop n name cur w
            | Ok c =>
                atomic (cancelWatch w);;
                atomic (attachDrain c);;
                swapTo name c;;
                drainAndKill cur;;
                w ← watch c;
                atomic (answer req (Ok tt));;
                serve_loop n name c w
            end
      end
  end.
Definition serve (n : nat) (name : string) (cur : nat) : P Host serveOutcome :=
  becomeReady name cur;;
  registerReady name;;
  w ← watch cur;
  serve_loop n name cur w.

(** The actor: the only writer of its plugin's state. *)
Fixpoint run_loop (n : nat) (name : string) : P Host unit :=
  match n with
  | 0 => stuck
  | S n =>
      launched ← launchWithRetry (S n) name;
      match launched with
      | None => mret tt
      | Some c =>
          reason ← verifyIdentity name c;
          match reason with
          | Some reason =>
              atomic (kill c);;
              stop ← quarantineIdentity name reason;
              if stop : bool then mret tt else run_loop n name
          | None =>
              atomic (attachDrain c);;
              outcome ← serve (S n) name c;
              match outcome with outcomeStopped => mret tt | outcomeCrashed => run_loop n name end
          end
      end
  end.
(** The deferred calls run last to first: [revert], then closing [done]. *)
Definition run (n : nat) (name : string) : P Host unit :=
  defer (atomic (modify (sup_alter (with_done true) name)))
    (defer (revert name) (run_loop n name)).

(** [reload]: a request, and its answer; the caller's context or the end of the actor ends the wait. *)
Definition errStopped : error := ErrOther "plugin: supervisor stopped".
Definition is_done (name : string) (h : Host) : bool := sup_get su_done false name h.
Definition reload (c : ctx) (name : string) : P Host unit :=
  r ← atomic (λ h, (Ok (p_asked h), sup_alter (λ s, with_reloadCh ({[p_asked h]} ∪ su_reloadCh s) s) name (set_asked (S (p_asked h)) h)));
  sent ← blocking (λ h,
    if negb (bool_decide (r ∈ waiting name h)) then Some (Ok tt, h) else
    '(e, h) ← select_ready ((if c h then [ErrCtx] else []) ++ (if is_done name h then [errStopped] else [])) h;
    Some (Err e, take_reload name r h));
  match sent with
  | Err e => throw e
  | Ok _ =>
      answered ← blocking (λ h,
        select_ready ((match p_results h !! r with Some v => [v] | None => [] end) ++
                      (if c h then [Err ErrCtx] else []) ++ (if is_done name h then [Err errStopped] else [])) h);
      match answered with Ok _ => mret tt | Err e => throw e end
  end.
Definition ErrNoSuchPlugin : error := ErrOther "plugin: no such plugin".
Definition Reload (c : ctx) (name : string) : P Host unit :=
  found ← atomic (gets (λ h, (bool_decide (is_Some (p_sups h !! name)), bool_decide (is_Some (p_plugins h !! name)))));
  match found with
  | (true, _) => reload c name
  | (false, true) => throw (Wrap "quarantined at load and has no running supervisor" ErrNoSuchPlugin)
  | (false, false) => throw ErrNoSuchPlugin
  end.

(** ** Boot and shutdown ([boot.go]) *)

(** The plugin's config, resolved against the environment of the process. *)
Context (config_of : Manifest → res (gmap string string)).

Definition newSupervisor (name expectType : string) : M Host unit := modify (λ h,
  set_sups (<[name := {| su_expectType := expectType; su_launches := 0; su_curPID := 0; su_attempts := 0;
                         su_readySince := 0; su_reloadCh := ∅; su_done := false |}]> (p_sups h)) h).
(** A start token could not be minted, or it could. *)
Definition launchDiscovered (n : nat) (token_ok : bool) (d : discovered) : P Host unit :=
  let name := d_name d in let ptype := m_Type (d_manifest d) in
  if negb token_ok then mret tt else
  match config_of (d_manifest d) with
  | Err _ => atomic (failLoad name ptype "invalid config")
  | Ok _ =>
      atomic (track name);;
      atomic (setType name ptype);;
      atomic (newSupervisor name ptype);;
      go (run n name)
  end.
Fixpoint launch_all (n : nat) (tokens : list bool) (found : list discovered) : P Host unit :=
  match found with
  | [] => mret tt
  | d :: found => launchDiscovered n (default true (head tokens)) d;; launch_all n (tail tokens) found
  end.
(** [found] is what discovery gave. *)
Definition Boot (n : nat) (Enabled : bool) (tokens : list bool) (found : res (list discovered)) : P Host unit :=
  if negb Enabled then mret tt else
  match found with
  | Err _ => mret tt
  | Ok [] => mret tt
  | Ok found => atomic (modify (set_bootCancel true));; launch_all n tokens found
  end.

(** Every supervisor is told to stop, and waited for within the shutdown's budget. *)
Fixpoint wait_done (c : ctx) (names : list string) : P Host unit :=
  match names with
  | [] => mret tt
  | name :: names =>
      expired ← blocking (λ h, select_ready ((if is_done name h then [false] else []) ++ (if c h then [true] else [])) h);
      if expired : bool then mret tt else wait_done c names
  end.
Definition Stop (c : ctx) : P Host unit :=
  running ← atomic (gets (λ h, (p_bootCancel h, (map_to_list (p_sups h)).*1)));
  (if running.1 : bool then atomic (modify (set_stop true)) else mret tt);;
  wait_done c running.2.
End Host.

(** [New], with the registries as the process starts. *)
Definition New (PerPluginCap GlobalCap : Z) (QueueWait : duration) (now : time) (rand : list Z) (choices : list nat) : Host :=
  let cap := if (PerPluginCap <=? 0)%Z then 64%Z else PerPluginCap in
  let wait := if (QueueWait <=? 0)%Z then Second else QueueWait in
  let '(b, sems) := newBudget cap GlobalCap wait [] in
  {| p_plugins := ∅; p_budget := b; p_sems := sems; p_conns := []; p_exits := []; p_sups := ∅;
     p_reg := {| rg_types := defaultTypeRegistry; rg_scoring := defaultRegistry; rg_callers := ∅; rg_cancels := ∅;
                 rg_auth := auth_NewRegistry "email" {| ac_password := true; ac_redirect := false |} |};
     p_pidfiles := ∅; p_asked := 0; p_results := ∅; p_bootCancel := false; p_stop := false; p_ctx := ∅; p_now := now; p_rand := rand;
     p_choices := choices; p_gauge := ∅; p_log := [] |}.
