(* ===== verification/PluginFileRules.v ===== *)
(** * What is launched, with what, and what is swept

    The plugins that discovery returns have distinct names and valid manifests; a secret of
    the environment shows in no refusal; the sweep kills only what it can identify. *)

From Stdlib Require Import Ascii.
From S2P Require Import Prelude Interleave Text Challenges PluginFiles.

(** ** Discovery *)

Lemma filter_names_split (name : string) (l1 l2 : list discovered) :
  length (filter (λ d, d_name d = name) (l1 ++ l2)) = length (filter (λ d, d_name d = name) l1) + length (filter (λ d, d_name d = name) l2).
Proof. by rewrite filter_app, length_app. Qed.
Lemma fail_collisions_NoDup found : NoDup (d_name <$> fail_collisions found).
Proof.
  unfold fail_collisions. set (P := λ d, length (filter (λ d', d_name d' = d_name d) found) ≤ 1).
  assert (∀ l pre, found = pre ++ l → NoDup (d_name <$> filter P l)) as H; [|by apply (H found [])].
  induction l as [|d l IH]; intros pre E; [constructor|]. assert (NoDup (d_name <$> filter P l)) as Hl.
  { apply (IH (pre ++ [d])). by rewrite <- app_assoc. }
  destruct (decide (P d)) as [Hd|Hd]; [|by rewrite filter_cons_False by done]. rewrite filter_cons_True by done.
  apply NoDup_cons. split; [|done]. intros (d' & Ed & [_ Hin]%list_elem_of_filter)%list_elem_of_fmap.
  unfold P in Hd. rewrite E, filter_names_split, filter_cons_True in Hd by done.
  apply list_elem_of_split in Hin as (l1 & l2 & ->). rewrite filter_app, filter_cons_True in Hd by done.
  simpl in Hd. rewrite length_app in Hd. simpl in Hd. lia.
Qed.
Section Discover.
Context (parse : string → res Manifest) (range : gmap string ConfigKey → list (string * ConfigKey)).
Lemma discoverPlugins_NoDup root found : discoverPlugins parse range root = Ok found → NoDup (d_name <$> found).
Proof. destruct root as [[entries|]|e]; simpl; [|by intros [= <-]; constructor|done]. intros [= <-]. apply fail_collisions_NoDup. Qed.
End Discover.

(** ** The config of a plugin *)

Section Config.
Context (ToUpper : string → list N).

(** What a key is given: by its variable, or by the manifest unless it is a secret. *)
Definition given (lookupEnv : string → option string) (name key : string) (decl : ConfigKey) : string :=
  match lookupEnv (configEnvVar ToUpper name key) with Some val => val | None => if ck_Secret decl then "" else ck_Default decl end.
Definition well_typed (decl : ConfigKey) (val : string) : Prop := checkConfigType (ck_Type decl) val = None.
Definition key_ok (lookupEnv : string → option string) (name key : string) (decl : ConfigKey) : Prop :=
  if decide (given lookupEnv name key decl = "") then ck_Required decl = false else well_typed decl (given lookupEnv name key decl).
(** The refusals that may name a secret key; none quotes its value. *)
Definition secret_refusals (name key : string) (decl : ConfigKey) : list error :=
  let env := configEnvVar ToUpper name key in
  let refused msg := ErrOther ("plugin " +:+ name +:+ ": " +:+ msg) in
  [refused ("required secret config " +:+ key +:+ " is unset: set " +:+ env);
   refused ("required config " +:+ key +:+ " has no value: set " +:+ env);
   refused ("secret config " +:+ key +:+ " is not a valid " +:+ ck_Type decl)].
Definition may_refuse (lookupEnv : string → option string) (name key : string) (decl : ConfigKey) (e : error) : Prop :=
  if ck_Secret decl then e ∈ secret_refusals name key decl else resolve_key ToUpper lookupEnv name key decl = Err e.

Lemma resolve_key_given lookupEnv name key decl :
  match resolve_key ToUpper lookupEnv name key decl with
  | Ok v => key_ok lookupEnv name key decl ∧
      v = if decide (given lookupEnv name key decl = "") then None else Some (given lookupEnv name key decl)
  | Err e => ¬ key_ok lookupEnv name key decl ∧ may_refuse lookupEnv name key decl e
  end.
Proof.
  unfold may_refuse, secret_refusals, resolve_key, key_ok, given, well_typed. cbn zeta.
  destruct (lookupEnv _) as [val|]; [generalize val as v; intros v|destruct (ck_Secret decl); [|generalize (ck_Default decl) as v; intros v]].
  - destruct (decide (v = "")) as [->|]; [|destruct (checkConfigType _ v)]; destruct (ck_Required decl), (ck_Secret decl); (split; [done|first [done|set_solver]]).
  - destruct (ck_Required decl); (split; [done|first [done|set_solver]]).
  - destruct (decide (v = "")) as [->|]; [|destruct (checkConfigType _ v)]; destruct (ck_Required decl); (split; [done|first [done|set_solver]]).
Qed.
Lemma resolve_keys_spec lookupEnv name l out : NoDup l.*1 →
  match resolve_keys ToUpper lookupEnv name l out with
  | Ok out' => (∀ key decl, (key, decl) ∈ l → key_ok lookupEnv name key decl ∧
        out' !! key = if decide (given lookupEnv name key decl = "") then out !! key else Some (given lookupEnv name key decl)) ∧
      ∀ key, key ∉ l.*1 → out' !! key = out !! key
  | Err e => ∃ key decl, (key, decl) ∈ l ∧ ¬ key_ok lookupEnv name key decl ∧ may_refuse lookupEnv name key decl e
  end.
Proof.
  revert out. induction l as [|[k d] l IH]; intros out Hn; [split; [by intros ? ? ?%elem_of_nil|done]|].
  apply NoDup_cons in Hn as [Hk Hn]. cbn [resolve_keys]. pose proof (resolve_key_given lookupEnv name k d) as Hg.
  destruct (resolve_key _ _ _ _ _) as [v|e].
  - destruct Hg as [Hok ->].
    assert (∀ out1, (∀ key, key ≠ k → out1 !! key = out !! key) →
      out1 !! k = (if decide (given lookupEnv name k d = "") then out !! k else Some (given lookupEnv name k d)) →
      match resolve_keys ToUpper lookupEnv name l out1 with
      | Ok out' => (∀ key decl, (key, decl) ∈ (k, d) :: l → key_ok lookupEnv name key decl ∧
          out' !! key = if decide (given lookupEnv name key decl = "") then out !! key else Some (given lookupEnv name key decl)) ∧
          ∀ key, key ∉ ((k, d) :: l).*1 → out' !! key = out !! key
      | Err e => ∃ key decl, (key, decl) ∈ (k, d) :: l ∧ ¬ key_ok lookupEnv name key decl ∧ may_refuse lookupEnv name key decl e
      end) as Hl.
    { intros out1 H1 H2. specialize (IH out1 Hn). destruct (resolve_keys _ _ _ _ _) as [out'|e].
      - destruct IH as [Hin Hout]. split.
        + intros key decl [[= -> ->]|Hl]%elem_of_cons; [split; [done|by rewrite Hout, H2]|].
          destruct (Hin key decl Hl) as [? ->]. split; [done|]. by rewrite (H1 key) by (intros ->; apply Hk; exact (list_elem_of_fmap_2 fst _ _ Hl)).
        + intros key Hne. rewrite fmap_cons in Hne. apply not_elem_of_cons in Hne as [Hne Hnl]. rewrite (Hout key Hnl). by apply H1.
      - destruct IH as (key & decl & Hin & Hk'). exists key, decl. split; [by right|done]. }
    destruct (decide (given lookupEnv name k d = "")); apply Hl; [done|done|intros key Hne; by rewrite lookup_insert_ne by congruence|apply lookup_insert_eq].
  - exists k, d. split; [left|done].
Qed.
Lemma sorted_keys_elem m key decl : (key, decl) ∈ sorted_keys m ↔ m !! key = Some decl.
Proof. unfold sorted_keys. rewrite merge_sort_Permutation. apply elem_of_map_to_list. Qed.
Lemma sorted_keys_NoDup m : NoDup (sorted_keys m).*1.
Proof. unfold sorted_keys. rewrite merge_sort_Permutation. apply NoDup_fst_map_to_list. Qed.

(** A plugin's config is resolved exactly when every declared key is fine: required keys have a
    value, and values are of their type.  It then maps each declared key to its variable's value,
    else to the default if it is no secret, and nothing else.  Otherwise the refusal is about a
    key that is not fine, and no secret's value is in it: each is one that could come of any
    environment with the same variables of public keys. *)
Theorem resolveConfig_exact m lookupEnv :
  match resolveConfig ToUpper lookupEnv m with
  | Ok out => (∀ key decl, m_Config m !! key = Some decl → key_ok lookupEnv (m_Name m) key decl) ∧
      ∀ key, out !! key = decl ← m_Config m !! key;
        if decide (given lookupEnv (m_Name m) key decl = "") then None else Some (given lookupEnv (m_Name m) key decl)
  | Err e => (∃ key decl, m_Config m !! key = Some decl ∧ ¬ key_ok lookupEnv (m_Name m) key decl) ∧
      ∀ env', (∀ key decl, m_Config m !! key = Some decl → ck_Secret decl = false →
          env' (configEnvVar ToUpper (m_Name m) key) = lookupEnv (configEnvVar ToUpper (m_Name m) key)) →
        ∃ key decl, m_Config m !! key = Some decl ∧ may_refuse env' (m_Name m) key decl e
  end.
Proof.
  unfold resolveConfig. pose proof (resolve_keys_spec lookupEnv (m_Name m) (sorted_keys (m_Config m)) ∅ (sorted_keys_NoDup _)) as H.
  destruct (resolve_keys _ _ _ _ _) as [out|e].
  - destruct H as [Hin Hout]. split.
    + intros key decl Hk%sorted_keys_elem. by apply Hin.
    + intros key. destruct (m_Config m !! key) as [decl|] eqn:Ek; simpl.
      * apply sorted_keys_elem, Hin in Ek as [_ ->]. by rewrite lookup_empty.
      * rewrite Hout; [apply lookup_empty|]. intros ([k decl] & -> & Hk%sorted_keys_elem)%list_elem_of_fmap. simpl in Ek. congruence.
  - destruct H as (key & decl & Hk%sorted_keys_elem & Hno & Hr). split; [eauto|]. intros env' Heq. exists key, decl. split; [done|].
    unfold may_refuse in *. destruct (ck_Secret decl) eqn:Es; [done|]. rewrite <- Hr. unfold resolve_key. by rewrite (Heq key decl Hk Es).
Qed.
End Config.

(** ** The sweep *)

(** What the sweep does about one pidfile, in one step. *)
Definition swept_one (path : string) (s : OS) : option Z * OS :=
  match os_pidfiles s !! path with
  | Some (Some r) =>
      let removed := set_pidfiles (delete path (os_pidfiles s)) s in
      if negb (0 <? pf_PID r)%Z then (None, s) else
      if negb (processAlive (pf_PID r) s) then (None, removed) else
      if negb (bool_decide (pf_Owner r = 0%Z)) && processAlive (pf_Owner r) s then (None, s) else
      if negb (processMatchesToken (pf_PID r) (pf_Token r) s) then (None, removed) else
      match os_procs s !! pf_PID r with
      | Some p => if ps_immune p then (None, s) else (Some (pf_PID r), set_procs (delete (pf_PID r) (os_procs s)) removed)
      | None => (None, s)
      end
  | _ => (None, s)
  end.
Lemma sweep_one_run path s : run (sweep_one path) s = Some (Ok (swept_one path s).1, (swept_one path s).2).
Proof.
  unfold sweep_one, swept_one. rewrite run_bind, run_try, run_atomic. unfold readPidfile.
  destruct (os_pidfiles s !! path) as [[r|]|]; [|done|done]. destruct (0 <? pf_PID r)%Z; [|done]. cbn [negb].
  rewrite run_bind, run_atomic. cbn [gets]. destruct (processAlive (pf_PID r) s); cbn [negb]; [|done].
  destruct (decide (pf_Owner r = 0%Z)) as [E|E].
  - rewrite bool_decide_true by done. cbn [negb andb]. rewrite run_bind. cbn [run mret P_ret]. rewrite run_bind, run_atomic. cbn [gets].
    destruct (processMatchesToken _ _ s); cbn [negb]; [|done]. rewrite run_bind, run_try, run_atomic. unfold kill_process.
    destruct (os_procs s !! pf_PID r) as [p|]; [|done]. by destruct (ps_immune p).
  - rewrite bool_decide_false by done. cbn [negb andb]. rewrite run_bind, run_atomic. cbn [gets]. destruct (processAlive (pf_Owner r) s); [done|].
    rewrite run_bind, run_atomic. cbn [gets].
    destruct (processMatchesToken _ _ s); cbn [negb]; [|done]. rewrite run_bind, run_try, run_atomic. unfold kill_process.
    destruct (os_procs s !! pf_PID r) as [p|]; [|done]. by destruct (ps_immune p).
Qed.

(** The process [pid] is a plugin that was left behind: a pidfile among those listed names it, with a
    token that is in its command line, and without a live owner, or with one that the sweep reclaims too. *)
Definition mine (s : OS) (listed : list string) (gone : list Z) (pid : Z) : Prop :=
  ∃ path r, path ∈ listed ∧ os_pidfiles s !! path = Some (Some r) ∧ pf_PID r = pid ∧ processAlive pid s = true ∧
    processMatchesToken pid (pf_Token r) s = true ∧ (pf_Owner r = 0%Z ∨ processAlive (pf_Owner r) s = false ∨ pf_Owner r ∈ gone).
Record sweeping (s0 : OS) (listed : list string) (gone : list Z) (s : OS) : Prop := {
  sw_procs : ∀ pid, os_procs s !! pid = if decide (pid ∈ gone) then None else os_procs s0 !! pid;
  sw_mine : ∀ pid, pid ∈ gone → mine s0 listed gone pid;
  sw_files : ∀ path, os_pidfiles s !! path = os_pidfiles s0 !! path ∨ os_pidfiles s !! path = None ∧ path ∈ listed;
  sw_removed : ∀ path r, os_pidfiles s0 !! path = Some (Some r) → os_pidfiles s !! path = None →
    processAlive (pf_PID r) s = false ∨ processMatchesToken (pf_PID r) (pf_Token r) s = false
}.
Lemma mine_mono s listed gone gone' pid : gone ⊆ gone' → mine s listed gone pid → mine s listed gone' pid.
Proof. intros Hs (path & r & ? & ? & ? & ? & ? & Ho). exists path, r. split_and!; try done. set_solver. Qed.
Lemma alive_gone s0 listed gone s pid : sweeping s0 listed gone s →
  processAlive pid s = processAlive pid s0 && negb (bool_decide (pid ∈ gone)).
Proof.
  intros [Hp _ _ _]. unfold processAlive. rewrite Hp. destruct (decide (pid ∈ gone)); [rewrite (bool_decide_true (pid ∈ gone)) by done|rewrite (bool_decide_false (pid ∈ gone)) by done].
  - rewrite bool_decide_false by (by intros []). by rewrite !andb_false_r.
  - by rewrite andb_true_r.
Qed.
Lemma token_gone s0 listed gone s pid token : sweeping s0 listed gone s →
  processMatchesToken pid token s = processMatchesToken pid token s0 && negb (bool_decide (pid ∈ gone)).
Proof.
  intros [Hp _ _ _]. unfold processMatchesToken. rewrite Hp. destruct (decide (pid ∈ gone)); [rewrite (bool_decide_true (pid ∈ gone)) by done|rewrite (bool_decide_false (pid ∈ gone)) by done].
  - by rewrite !andb_false_r.
  - by rewrite andb_true_r.
Qed.
(** A pidfile is removed. *)
Lemma sweeping_remove s0 listed gone s path r : sweeping s0 listed gone s → path ∈ listed → os_pidfiles s0 !! path = Some (Some r) →
  processAlive (pf_PID r) s = false ∨ processMatchesToken (pf_PID r) (pf_Token r) s = false →
  sweeping s0 listed gone (set_pidfiles (delete path (os_pidfiles s)) s).
Proof.
  intros [Hp Hm Hf Hr] Hin E0 Hgone. split; [done|done| |].
  - intros q. simpl. destruct (decide (path = q)) as [<-|Hne]; [rewrite lookup_delete_eq; by right|rewrite lookup_delete_ne by done; apply Hf].
  - intros q r'. simpl. destruct (decide (path = q)) as [<-|Hne]; [intros E _; by simplify_eq|rewrite lookup_delete_ne by done; apply Hr].
Qed.
Lemma sweeping_kill s0 listed gone s pid : sweeping s0 listed gone s → mine s0 listed gone pid →
  sweeping s0 listed (gone ++ [pid]) (set_procs (delete pid (os_procs s)) s).
Proof.
  intros HI Hmine. pose proof HI as [Hp Hm Hf Hr]. assert (gone ⊆ gone ++ [pid]) as Hsub by set_solver. split.
  - intros q. simpl. destruct (decide (pid = q)) as [<-|Hne].
    + rewrite lookup_delete_eq, decide_True by set_solver. done.
    + rewrite lookup_delete_ne, Hp by done. destruct (decide (q ∈ gone)); [rewrite decide_True by set_solver|rewrite decide_False by set_solver]; done.
  - intros q [Hq| ->%list_elem_of_singleton]%elem_of_app; (eapply mine_mono; [exact Hsub|auto]).
  - done.
  - intros path r E0 E. specialize (Hr path r E0 E). unfold processAlive, processMatchesToken in *. simpl.
    destruct (decide (pid = pf_PID r)) as [->|Hne]; [rewrite lookup_delete_eq; left; apply andb_false_r|by rewrite lookup_delete_ne].
Qed.
Lemma sweeping_step s0 listed gone s path : sweeping s0 listed gone s → path ∈ listed → os_pidfiles s !! path = os_pidfiles s0 !! path →
  sweeping s0 listed (gone ++ option_list (swept_one path s).1) (swept_one path s).2 ∧
  (∀ q, q ≠ path → os_pidfiles (swept_one path s).2 !! q = os_pidfiles s !! q) ∧
  ∀ r p, os_pidfiles s0 !! path = Some (Some r) → os_procs s0 !! pf_PID r = Some p → ps_immune p = false → mine s0 [path] [] (pf_PID r) →
    pf_PID r ∈ gone ++ option_list (swept_one path s).1.
Proof.
  intros HI Hin Ef. assert (gone ++ [] = gone) as Enil by apply app_nil_r. unfold swept_one. rewrite Ef.
  destruct (os_pidfiles s0 !! path) as [[r|]|] eqn:E0; [|simpl; rewrite Enil; by split_and!..].
  assert (mine s0 [path] [] (pf_PID r) → processAlive (pf_PID r) s0 = true ∧ processMatchesToken (pf_PID r) (pf_Token r) s0 = true ∧
    (pf_Owner r = 0%Z ∨ processAlive (pf_Owner r) s0 = false)) as Hmine.
  { intros (q & r' & ->%list_elem_of_singleton & E & _ & Ha & Ht & Ho). rewrite E0 in E. injection E as <-.
    split_and!; [done|done|]. destruct Ho as [Ho|[Ho|Ho%elem_of_nil]]; [by left|by right|done]. }
  pose proof (alive_gone _ _ _ _ (pf_PID r) HI) as Ea. pose proof (token_gone _ _ _ _ (pf_PID r) (pf_Token r) HI) as Et.
  destruct (Z.ltb_spec 0 (pf_PID r)) as [Hpid|Hpid]; cbn [negb].
  2:{ simpl. rewrite Enil. split_and!; [done|done|]. intros x p [= <-] _ _ Hm. destruct (Hmine Hm) as (Ha & _). unfold processAlive in Ha.
      rewrite (proj2 (Z.ltb_ge 0 _)) in Ha by done. done. }
  destruct (processAlive (pf_PID r) s) eqn:Hal; cbn [negb].
  2:{ simpl. rewrite Enil. split_and!; [by eapply sweeping_remove; [|..|left]|intros q Hq; by apply lookup_delete_ne|].
      intros x p [= <-] _ _ Hm. destruct (Hmine Hm) as (Ha & _). rewrite Ha in Ea. simpl in Ea.
      symmetry in Ea. apply negb_false_iff in Ea. by apply bool_decide_eq_true in Ea. }
  destruct (negb (bool_decide (pf_Owner r = 0%Z)) && processAlive (pf_Owner r) s) eqn:Hown.
  { simpl. rewrite Enil. split_and!; [done|done|]. intros x p [= <-] _ _ Hm. exfalso. destruct (Hmine Hm) as (_ & _ & Ho).
    apply andb_prop in Hown as [Hz%negb_true_iff%bool_decide_eq_false Hown]. destruct Ho as [?|Ho]; [done|].
    by rewrite (alive_gone _ _ _ _ _ HI), Ho in Hown. }
  destruct (processMatchesToken (pf_PID r) (pf_Token r) s) eqn:Htok; cbn [negb].
  2:{ simpl. rewrite Enil. split_and!; [by eapply sweeping_remove; [|..|right]|intros q Hq; by apply lookup_delete_ne|].
      intros x p [= <-] _ _ Hm. destruct (Hmine Hm) as (_ & Ht & _). rewrite Ht in Et. simpl in Et.
      symmetry in Et. apply negb_false_iff in Et. by apply bool_decide_eq_true in Et. }
  symmetry in Ea, Et. apply andb_prop in Ea as [Ea Hng%negb_true_iff%bool_decide_eq_false]. apply andb_prop in Et as [Et _].
  assert (os_procs s !! pf_PID r = os_procs s0 !! pf_PID r) as Eproc by (rewrite (sw_procs _ _ _ _ HI); by rewrite decide_False).
  rewrite Eproc. destruct (os_procs s0 !! pf_PID r) as [p|] eqn:Ep.
  2:{ exfalso. revert Ea. unfold processAlive. rewrite Ep, bool_decide_false by (by intros []). by rewrite andb_false_r. }
  destruct (ps_immune p) eqn:Eim; simpl.
  { rewrite Enil. split_and!; [done|done|]. intros x p' [= <-] Ep' Eim' _. congruence. }
  split_and!; [|intros q Hq; by apply lookup_delete_ne|intros x p' [= <-] _ _ _; set_solver].
  assert (mine s0 listed gone (pf_PID r)) as Hm.
  { exists path, r. split_and!; try done. apply andb_false_iff in Hown as [Hz%negb_false_iff%bool_decide_eq_true|Ho]; [by left|right].
    rewrite (alive_gone _ _ _ _ _ HI) in Ho. destruct (processAlive (pf_Owner r) s0); [right|by left]. simpl in Ho.
    apply negb_false_iff in Ho. by apply bool_decide_eq_true in Ho. }
  pose proof (sweeping_kill _ _ _ _ _ HI Hm) as HI'. refine (sweeping_remove s0 listed _ (set_procs (delete (pf_PID r) (os_procs s)) s) path r HI' Hin E0 _). left.
  rewrite (alive_gone _ _ _ _ _ HI'), bool_decide_true by set_solver. apply andb_false_r.
Qed.
Lemma sweep_all_run s0 listed paths gone s : NoDup paths → paths ⊆ listed → sweeping s0 listed gone s →
  (∀ path, path ∈ paths → os_pidfiles s !! path = os_pidfiles s0 !! path) →
  ∃ gone' s', run (sweep_all paths gone) s = Some (Ok gone', s') ∧ sweeping s0 listed gone' s' ∧ gone ⊆ gone' ∧
    ∀ path r p, path ∈ paths → os_pidfiles s0 !! path = Some (Some r) → os_procs s0 !! pf_PID r = Some p → ps_immune p = false →
      mine s0 [path] [] (pf_PID r) → pf_PID r ∈ gone'.
Proof.
  revert gone s. induction paths as [|path paths IH]; intros gone s Hn Hs HI Hf.
  { exists gone, s. split_and!; [done|done|done|]. by intros path r p ?%elem_of_nil. }
  apply NoDup_cons in Hn as [Hp Hn]. cbn [sweep_all]. rewrite run_bind, sweep_one_run.
  destruct (sweeping_step s0 listed gone s path HI) as (HI' & Hother & Hdone); [set_solver|apply Hf; left|].
  destruct (swept_one path s) as [o s1]. simpl in *.
  destruct (IH (gone ++ option_list o) s1) as (gone' & s' & Er & HI2 & Hsub & Hall); [done|set_solver|done| |].
  { intros q Hq. rewrite Hother by (intros ->; done). apply Hf. by right. }
  exists gone', s'. split_and!; [by destruct o|done|set_solver|].
  intros q r p [->|Hq]%elem_of_cons E0 Ep Ei Hm; [|by eapply Hall]. apply Hsub. by eapply Hdone.
Qed.

(** The sweep, run alone, reclaims exactly the plugins left behind.  A process is killed only if a
    listed pidfile names it with a token that is in its command line, and no live process owns it
    (or one that is reclaimed too); every such process of a dead or unknown owner is killed unless the
    signal is refused; no other process is touched.  A pidfile is removed only if its
    process is gone or is not the plugin it names, and no other file is. *)
Theorem sweepOrphans_exact entries s : NoDup entries.*1 →
  ∃ gone s', run (sweepOrphans (Ok (Some entries))) s = Some (Ok gone, s') ∧
    (∀ pid, os_procs s' !! pid = if decide (pid ∈ gone) then None else os_procs s !! pid) ∧
    (∀ pid, pid ∈ gone → mine s (pidfiles_of entries) gone pid) ∧
    (∀ pid p, os_procs s !! pid = Some p → ps_immune p = false → mine s (pidfiles_of entries) [] pid → pid ∈ gone) ∧
    (∀ path, os_pidfiles s' !! path = os_pidfiles s !! path ∨ os_pidfiles s' !! path = None ∧ path ∈ pidfiles_of entries) ∧
    (∀ path r, os_pidfiles s !! path = Some (Some r) → os_pidfiles s' !! path = None →
      processAlive (pf_PID r) s' = false ∨ processMatchesToken (pf_PID r) (pf_Token r) s' = false).
Proof.
  intros Hn. assert (NoDup (pidfiles_of entries)) as Hnd.
  { unfold pidfiles_of. eapply sublist_NoDup; [exact Hn|]. apply fmap_sublist, sublist_filter. }
  destruct (sweep_all_run s (pidfiles_of entries) (pidfiles_of entries) [] s) as (gone & s' & Er & [Hp Hm Hf Hr] & _ & Hall); [done|done| |done|].
  { split; [done|by intros pid ?%elem_of_nil|by left|]. congruence. }
  exists gone, s'. split_and!; try done.
  intros pid p Ep Ei (path & r & Hin & E0 & <- & Ha & Ht & Ho). apply (Hall path r p); try done. exists path, r. split_and!; try done. left.
Qed.

(** ** Examples *)

(** [strings.ToUpper] on ASCII. *)
Definition upper_ascii (s : string) : list N :=
  (λ a, let n := N_of_ascii a in if ((97 <=? n) && (n <=? 122))%N then (n - 32)%N else n) <$> to_bytes s.
Definition a_key (typ : string) (required secret : bool) (default : string) : ConfigKey :=
  {| ck_Type := typ; ck_Required := required; ck_Secret := secret; ck_Default := default |}.
Definition a_manifest (name : string) (config : gmap string ConfigKey) : Manifest :=
  {| m_Name := name; m_Type := "notification"; m_ABI := "1.0"; m_Version := "1"; m_Executable := "run"; m_Description := "";
     m_Override := false; m_Config := config |}.
Definition hook : Manifest := a_manifest "web-hook" {[ "url" := a_key "string" true true ""; "retries" := a_key "int" false false "3" ]}.
Definition an_env (vars : gmap string string) : string → option string := λ v, vars !! v.
Lemma resolveConfig_exact_witness :
  resolveConfig upper_ascii (an_env {[ "OSCTF_PLUGIN_WEB_HOOK_URL" := "https://x" ]}) hook = Ok {[ "url" := "https://x"; "retries" := "3" ]} ∧
  resolveConfig upper_ascii (an_env {[ "OSCTF_PLUGIN_WEB_HOOK_URL" := "https://x"; "OSCTF_PLUGIN_WEB_HOOK_RETRIES" := "many" ]}) hook =
    Err (ErrOther "plugin web-hook: config retries must be an int, got many") ∧
  ∃ key decl, m_Config hook !! key = Some decl ∧
    may_refuse upper_ascii (an_env {[ "OSCTF_PLUGIN_WEB_HOOK_RETRIES" := "many" ]}) "web-hook" key decl
      (ErrOther "plugin web-hook: config retries must be an int, got many").
Proof.
  split; [vm_compute; reflexivity|]. split; [vm_compute; reflexivity|].
  pose proof (resolveConfig_exact upper_ascii hook (an_env {[ "OSCTF_PLUGIN_WEB_HOOK_URL" := "https://x"; "OSCTF_PLUGIN_WEB_HOOK_RETRIES" := "many" ]})) as H.
  replace (resolveConfig _ _ _) with (Err (ErrOther "plugin web-hook: config retries must be an int, got many") : res (gmap string string)) in H by (vm_compute; reflexivity).
  apply (proj2 H). intros key decl Hk Hs. unfold hook in Hk. simpl in Hk.
  apply lookup_insert_Some in Hk as [[<- <-]|[_ [<- <-]%lookup_singleton_Some]]; [done|]. vm_compute. reflexivity.
Defined.

(** A plugin left behind, one whose platform still runs, and a pid that is another program's now. *)
Definition leftovers : OS :=
  {| os_procs := {[ 7%Z := {| ps_command := Some "/p/hook --osctf-plugin-token=osctf-1"; ps_immune := false |};
                    8%Z := {| ps_command := Some "/p/hook --osctf-plugin-token=osctf-2"; ps_immune := false |};
                    9%Z := {| ps_command := Some "postgres"; ps_immune := false |};
                    50%Z := {| ps_command := Some "platform"; ps_immune := false |} ]};
     os_pidfiles := {[ "a.pid" := Some {| pf_PID := 7; pf_Token := "osctf-1"; pf_Owner := 40 |};
                       "b.pid" := Some {| pf_PID := 8; pf_Token := "osctf-2"; pf_Owner := 50 |};
                       "c.pid" := Some {| pf_PID := 9; pf_Token := "osctf-3"; pf_Owner := 0 |};
                       "d.pid" := None ]} |}.
Definition listing : list (string * bool) := [("a.pid", false); ("b.pid", false); ("c.pid", false); ("d.pid", false); ("notes", false)].
Lemma sweepOrphans_exact_witness :
  ∃ gone s', run (sweepOrphans (Ok (Some listing))) leftovers = Some (Ok gone, s') ∧ gone = [7%Z] ∧
    os_procs s' !! 7%Z = None ∧ os_procs s' !! 8%Z = os_procs leftovers !! 8%Z ∧ os_procs s' !! 9%Z = os_procs leftovers !! 9%Z ∧
    fst <$> map_to_list (os_pidfiles s') ≡ₚ ["b.pid"; "d.pid"].
Proof.
  destruct (sweepOrphans_exact listing leftovers) as (gone & s' & E & Hp & _).
  { apply (bool_decide_unpack _). vm_compute. exact Logic.I. }
  exists gone, s'. split; [exact E|]. rewrite !Hp.
  assert (run (sweepOrphans (Ok (Some listing))) leftovers = Some (Ok [7%Z],
    {| os_procs := delete 7%Z (os_procs leftovers); os_pidfiles := delete "c.pid" (delete "a.pid" (os_pidfiles leftovers)) |})) as E'
    by (vm_compute; reflexivity).
  rewrite E' in E. injection E as <- <-. repeat split; vm_compute; reflexivity.
Defined.

(** The variables of two plugins may be the same one: what is a secret of one is then a public value of the other. *)
Lemma env_vars_collide :
  configEnvVar upper_ascii "web-hook" "key" = configEnvVar upper_ascii "web" "hook_key" ∧
  let env := an_env {[ configEnvVar upper_ascii "web-hook" "key" := "hunter2" ]} in
  resolveConfig upper_ascii env (a_manifest "web-hook" {[ "key" := a_key "string" true true "" ]}) = Ok {[ "key" := "hunter2" ]} ∧
  resolveConfig upper_ascii env (a_manifest "web" {[ "hook_key" := a_key "int" false false "" ]}) =
    Err (ErrOther "plugin web: config hook_key must be an int, got hunter2").
Proof. vm_compute. done. Qed.
