(* ===== verification/PluginRules.v ===== *)
(** * What the plugin host guarantees

    Under every interleaving of supervisors, calls, reloads, crashes and the stop: the state
    machine is never left, only a ready plugin is published as one, what a plugin provides is
    withdrawn before it ends, no process outlives its supervisor, and a crash loop ends in
    quarantine. *)

From S2P Require Import Prelude Interleave Env Scoring Challenges AuthApi PluginFiles Plugins.

(** A plugin is another process: a call to it changes nothing of the host. *)
Definition outside {A} (p : P Host A) : Prop := all_respect (λ _, True) (=) p.
Class PluginLaws `{PluginProcesses} : Prop := {
  out_Info : ∀ c n, outside (rpc_Info c n);
  out_Subscriptions : ∀ c n, outside (rpc_Subscriptions c n);
  out_Notify : ∀ e c n, outside (rpc_Notify e c n);
  out_Value : ∀ a b d s c n, outside (rpc_Value a b d s c n);
  out_CheckFlag : ∀ s f i c n, outside (rpc_CheckFlag s f i c n);
  out_ValidateConfig : ∀ f c n, outside (rpc_ValidateConfig f c n)
}.

(** ** What is published *)

Definition types_published (name : string) (r : TypeRegistry) : bool :=
  match tr_m r !! name with Some e => negb (ct_protected e) | None => false end.
Definition auth_published {A} (name : string) (r : AuthRegistry A) : bool :=
  match ar_m r !! name with Some e => negb (pe_protected e) | None => false end.
(** A plugin of this type and name is reached by the services: scoring through its caller, for the
    mode's entry in the registry of modes is a mark for validation. *)
Definition published (ptype name : string) (g : Registries) : bool :=
  if decide (ptype = "challenge_type") then types_published name (rg_types g) else
  if decide (ptype = "scoring") then bool_decide (name ∈ rg_callers g) else
  if decide (ptype = "notification") then bool_decide (is_Some (rg_cancels g !! name)) else
  if decide (ptype = "auth") then auth_published name (rg_auth g) else false.
(** The built-in types are protected. *)
Definition reg_ok (g : Registries) : Prop := map_Forall (λ _ e, ct_protected e = true) (tr_base (rg_types g)).

(** ** Who owns what *)

(** What a supervisor knows of its plugin: all that it alone writes.  [lf_procs] are the processes
    it started and has not killed; [lf_parked] says whether it is quarantined, and [lf_since], while
    its readiness clock runs, when it became ready. *)
Record life := {
  lf_name : string; lf_type : string; lf_st : State; lf_cur : option nat; lf_reg : bool;
  lf_pub : bool; lf_procs : list nat; lf_att : Z; lf_parked : bool; lf_since : option time
}.
Definition at_st v l := {| lf_name := lf_name l; lf_type := lf_type l; lf_st := v; lf_cur := lf_cur l; lf_reg := lf_reg l; lf_pub := lf_pub l; lf_procs := lf_procs l; lf_att := lf_att l; lf_parked := lf_parked l; lf_since := lf_since l |}.
Definition at_cur v l := {| lf_name := lf_name l; lf_type := lf_type l; lf_st := lf_st l; lf_cur := v; lf_reg := lf_reg l; lf_pub := lf_pub l; lf_procs := lf_procs l; lf_att := lf_att l; lf_parked := lf_parked l; lf_since := lf_since l |}.
Definition at_reg v l := {| lf_name := lf_name l; lf_type := lf_type l; lf_st := lf_st l; lf_cur := lf_cur l; lf_reg := v; lf_pub := lf_pub l; lf_procs := lf_procs l; lf_att := lf_att l; lf_parked := lf_parked l; lf_since := lf_since l |}.
Definition at_pub v l := {| lf_name := lf_name l; lf_type := lf_type l; lf_st := lf_st l; lf_cur := lf_cur l; lf_reg := lf_reg l; lf_pub := v; lf_procs := lf_procs l; lf_att := lf_att l; lf_parked := lf_parked l; lf_since := lf_since l |}.
Definition at_procs v l := {| lf_name := lf_name l; lf_type := lf_type l; lf_st := lf_st l; lf_cur := lf_cur l; lf_reg := lf_reg l; lf_pub := lf_pub l; lf_procs := v; lf_att := lf_att l; lf_parked := lf_parked l; lf_since := lf_since l |}.
Definition at_att v l := {| lf_name := lf_name l; lf_type := lf_type l; lf_st := lf_st l; lf_cur := lf_cur l; lf_reg := lf_reg l; lf_pub := lf_pub l; lf_procs := lf_procs l; lf_att := v; lf_parked := lf_parked l; lf_since := lf_since l |}.
Definition at_parked v l := {| lf_name := lf_name l; lf_type := lf_type l; lf_st := lf_st l; lf_cur := lf_cur l; lf_reg := lf_reg l; lf_pub := lf_pub l; lf_procs := lf_procs l; lf_att := lf_att l; lf_parked := v; lf_since := lf_since l |}.
Definition at_since v l := {| lf_name := lf_name l; lf_type := lf_type l; lf_st := lf_st l; lf_cur := lf_cur l; lf_reg := lf_reg l; lf_pub := lf_pub l; lf_procs := lf_procs l; lf_att := lf_att l; lf_parked := lf_parked l; lf_since := v |}.

Definition serving (st : State) : Prop := st ∈ [StateLaunching; StateReady; StateUnhealthy; StateRestarting].
Record life_ok (l : life) : Prop := {
  lk_cur : match lf_cur l with Some _ => lf_st l ∈ [StateReady; StateDraining] | None => lf_st l ∉ [StateReady; StateDraining] end;
  lk_pub : lf_reg l = true ∨ lf_pub l = true → serving (lf_st l);
  lk_type : lf_pub l = true → lf_type l ∈ ["challenge_type"; "scoring"; "notification"; "auth"];
  lk_procs : length (lf_procs l) ≤ 2;
  lk_ended : lf_st l ∈ [StateFailed; StateStopped] → lf_procs l = []
}.

(** The failed attempts in a row of a plugin, whether it is quarantined, and since when it has been
    ready without one, by what happened. *)
Definition count_note (name : string) (s : Z * bool * option time) (n : note) : Z * bool * option time :=
  match n with
  | FailedAttempt m => if decide (m = name) then (s.1.1 + 1, s.1.2, None)%Z else s
  | Serving m t => if decide (m = name) then (s.1, Some t) else s
  | Forgiven m _ => if decide (m = name) then (0%Z, s.1.2, s.2) else s
  | Quarantined m => if decide (m = name) then (s.1.1, true, s.2) else s
  | OperatorReload m => if decide (m = name) then (0%Z, false, s.2) else s
  | _ => s
  end.
Definition status (name : string) (log : list note) : Z * bool * option time := foldl (count_note name) (0%Z, false, None) log.

(** A decidable proposition without variables. *)
Ltac closed := refine (bool_decide_eq_true_1 _ _); vm_compute; reflexivity.

Section Rules.
Context `{PluginProcesses} (cfg : superConfig) (pidfileDir : bool).

(** What may happen after [log]: no illegal transition, no launch of a plugin that has used its attempts up
    or is quarantined, no forgiving but after a long enough time of readiness. *)
Definition note_ok (log : list note) (n : note) : Prop :=
  match n with
  | IllegalTransition _ _ _ => False
  | Launching name => ((status name log).1.1 < maxAttempts cfg)%Z ∧ (status name log).1.2 = false
  | Forgiven name now => ∃ since, (status name log).2 = Some since ∧ (healthStable cfg ≤ now - since)%Z
  | _ => True
  end.
Definition log_ok (log : list note) : Prop := ∀ before n after, log = before ++ n :: after → note_ok before n.

(** The failed attempts a supervisor counts, and its readiness clock. *)
Definition attempts_of (name : string) (h : Host) : option (Z * time) := (λ s, (su_attempts s, su_readySince s)) <$> p_sups h !! name.
Record owns (l : life) (h : Host) : Prop := {
  ow_plugin : ∃ p, p_plugins h !! lf_name l = Some p ∧ mg_ptype p = lf_type l ∧ mg_m p = lf_st l ∧
    mg_cur p = lf_cur l ∧ mg_registered p = lf_reg l;
  ow_pub : published (lf_type l) (lf_name l) (p_reg h) = true → lf_pub l = true;
  ow_att : ∃ r, attempts_of (lf_name l) h = Some (lf_att l, r) ∧
    ∀ t, lf_since l = Some t → (status (lf_name l) (p_log h)).2 = Some t ∧ (t ≤ r)%Z;
  ow_status : (status (lf_name l) (p_log h)).1 = (lf_att l, lf_parked l);
  ow_procs : ∀ c, c ∈ lf_procs l ∨ lf_cur l = Some c → ∃ x, p_conns h !! c = Some x ∧ cn_owner x = lf_name l;
  ow_ok : life_ok l
}.

(** A thread runs on behalf of no plugin, launches those discovered (with their type once it has
    tracked them), with perhaps the life of the next supervisor in hand, or is a supervisor. *)
Inductive ghost := Idle | Booting (next : option life) (booked : list (string * option string)) | Actor (l : life).
Definition lives_of (g : ghost) : list life :=
  match g with Idle => [] | Booting next _ => option_list next | Actor l => [l] end.
Definition booked_of (g : ghost) : list (string * option string) := match g with Booting _ booked => booked | _ => [] end.
Definition lives (gs : list ghost) : list life := gs ≫= lives_of.
Definition booked (gs : list ghost) : list (string * option string) := gs ≫= booked_of.
Definition names (gs : list ghost) : list string := (lf_name <$> lives gs) ++ (booked gs).*1.

(** No supervisor runs for it: it is out of service. *)
Record at_rest (name : string) (p : managed) (g : Registries) : Prop := {
  ar_cur : mg_cur p = None;
  ar_reg : mg_registered p = false;
  ar_pub : published (mg_ptype p) name g = false;
  ar_st : mg_m p ∉ [StateReady; StateDraining]
}.
Record fresh (name : string) (tracked : option string) (h : Host) : Prop := {
  fr_plugin : match tracked with
    | Some ptype => ∃ p, p_plugins h !! name = Some p ∧ mg_m p = StateDiscovered ∧ mg_ptype p = ptype
    | None => p_plugins h !! name = None
    end;
  fr_pub : ∀ t, published t name (p_reg h) = false;
  fr_status : status name (p_log h) = (0%Z, false, None)
}.
Record plugins_inv (gs : list ghost) (h : Host) : Prop := {
  pi_names : NoDup (names gs);
  pi_lives : ∀ l, l ∈ lives gs → owns l h;
  pi_booked : ∀ b, b ∈ booked gs → fresh b.1 b.2 h;
  pi_rest : ∀ name p, p_plugins h !! name = Some p → name ∉ (lf_name <$> lives gs) → at_rest name p (p_reg h);
  pi_procs : ∀ c x, p_conns h !! c = Some x → cn_exited x = false →
    ∃ l, l ∈ lives gs ∧ lf_name l = cn_owner x ∧ c ∈ lf_procs l;
  pi_log : log_ok (p_log h);
  pi_reg : reg_ok (p_reg h)
}.
Lemma plugins_inv_perm gs gs' h : gs ≡ₚ gs' → plugins_inv gs h → plugins_inv gs' h.
Proof.
  intros Hp []. assert (lives gs ≡ₚ lives gs') as El by (unfold lives; by rewrite Hp).
  assert (booked gs ≡ₚ booked gs') as Eb by (unfold booked; by rewrite Hp).
  split; [|intros l; rewrite <- El; auto|intros b; rewrite <- Eb; auto|intros name p Hn; rewrite <- El; auto| |done|done].
  - unfold names in *. by rewrite <- El, <- Eb.
  - intros c x Hc Hx. destruct (pi_procs0 c x Hc Hx) as (l & ? & ?). exists l. by rewrite <- El.
Qed.

Lemma log_ok_snoc log n : log_ok log → note_ok log n → log_ok (log ++ [n]).
Proof.
  intros Hl Hn before n' after E. destruct (decide (after = [])) as [->|Ha].
  - apply app_inj_tail in E as [-> ->]. done.
  - destruct (exists_last Ha) as (a & y & ->). rewrite app_comm_cons, app_assoc in E.
    apply app_inj_tail in E as [-> _]. by eapply Hl.
Qed.
Lemma log_ok_app log ns : log_ok log → (∀ before n after, ns = before ++ n :: after → note_ok (log ++ before) n) → log_ok (log ++ ns).
Proof.
  induction ns as [|n ns IH] using rev_ind; intros Hl Hn; [by rewrite app_nil_r|].
  rewrite app_assoc. apply log_ok_snoc; [|by apply (Hn ns n [])].
  apply IH; [done|]. intros before n' after ->. apply (Hn before n' (after ++ [n])). by rewrite <- app_assoc.
Qed.
Lemma status_app name log ns : status name (log ++ ns) = foldl (count_note name) (status name log) ns.
Proof. apply foldl_app. Qed.

(** A note that says nothing of this plugin's attempts. *)
Definition about (name : string) (n : note) : Prop :=
  match n with
  | FailedAttempt m | Serving m _ | Forgiven m _ | Quarantined m | OperatorReload m | Launching m => m = name
  | _ => True
  end.
Lemma status_other name m log ns : m ≠ name → Forall (about m) ns → status name (log ++ ns) = status name log.
Proof.
  intros Hne Hns. rewrite status_app. generalize (status name log). induction Hns as [|n ns Hn _ IH]; intros s; [done|].
  simpl. rewrite IH. destruct n; simpl in *; subst; try done; by rewrite decide_False.
Qed.
(** A note that counts for nobody. *)
Definition idle_note (n : note) : Prop :=
  match n with Called _ _ _ | Shed _ _ | Killed _ | Moved _ _ _ => True | _ => False end.
Lemma status_idle name log ns : Forall idle_note ns → status name (log ++ ns) = status name log.
Proof.
  intros Hns. rewrite status_app. generalize (status name log). induction Hns as [|n ns Hn _ IH]; intros s; [done|].
  simpl. rewrite IH. by destruct n.
Qed.
Lemma log_ok_idle log ns : log_ok log → Forall idle_note ns → log_ok (log ++ ns).
Proof.
  intros Hl Hns. apply log_ok_app; [done|]. intros before n after ->.
  apply Forall_app in Hns as [_ [Hn _]%Forall_cons]. by destruct n.
Qed.
Lemma log_ok_last log ns n : log_ok log → Forall idle_note ns → note_ok (log ++ ns) n → log_ok (log ++ ns ++ [n]).
Proof. intros Hl Hns Hn. rewrite app_assoc. apply log_ok_snoc; [by apply log_ok_idle|done]. Qed.

(** Connections are never forgotten, and stay dead. *)
Definition conns_le (h h' : Host) : Prop := ∀ c x, p_conns h !! c = Some x →
  ∃ x', p_conns h' !! c = Some x' ∧ cn_owner x' = cn_owner x ∧ (cn_exited x = true → cn_exited x' = true).
#[local] Instance conns_le_refl : Reflexive conns_le.
Proof. intros h c x Hc. by exists x. Qed.
Lemma owns_conns l h h' : conns_le h h' → (∀ c, c ∈ lf_procs l ∨ lf_cur l = Some c → ∃ x, p_conns h !! c = Some x ∧ cn_owner x = lf_name l) →
  ∀ c, c ∈ lf_procs l ∨ lf_cur l = Some c → ∃ x, p_conns h' !! c = Some x ∧ cn_owner x = lf_name l.
Proof. intros Hle Hc c Hin. destruct (Hc c Hin) as (x & Hx & <-). destruct (Hle c x Hx) as (x' & ? & ? & _). eauto. Qed.

(** What everybody but a supervisor leaves alone. *)
Record life_same (h h' : Host) : Prop := {
  ls_plugins : p_plugins h' = p_plugins h;
  ls_att : ∀ n, attempts_of n h' = attempts_of n h;
  ls_reg : p_reg h' = p_reg h;
  ls_len : length (p_conns h') = length (p_conns h);
  ls_conns : conns_le h h';
  ls_log : ∃ ns, p_log h' = p_log h ++ ns ∧ Forall idle_note ns
}.
Lemma inv_same gs h h' : life_same h h' → plugins_inv gs h → plugins_inv gs h'.
Proof.
  intros [Ep Ea Er El Hc (ns & En & Hns)] []. split; [done|..].
  - intros l Hl. destruct (pi_lives0 l Hl). split; rewrite ?Ep, ?Ea, ?Er, ?En, ?status_idle by done; [done..|by eapply owns_conns|done].
  - intros b Hb. destruct (pi_booked0 b Hb). split; rewrite ?Ep, ?Er, ?En, ?status_idle by done; done.
  - rewrite Ep, Er. done.
  - intros c x' Hx' Hl. assert (is_Some (p_conns h !! c)) as [x Hx].
    { apply lookup_lt_is_Some. rewrite <- El. by eapply lookup_lt_Some. }
    destruct (Hc c x Hx) as (x1 & Hx1 & Ho & Hd). rewrite Hx' in Hx1. injection Hx1 as <-. rewrite Ho.
    apply (pi_procs0 c x Hx). destruct (cn_exited x); [by rewrite Hd in Hl|done].
  - rewrite En. by apply log_ok_idle.
  - by rewrite Er.
Qed.

(** What a step on behalf of a plugin may do. *)
Record own_step (l l' : life) (h h' : Host) : Prop := {
  os_name : lf_name l' = lf_name l;
  os_plugins : ∀ m, m ≠ lf_name l → p_plugins h' !! m = p_plugins h !! m;
  os_att : ∀ m, m ≠ lf_name l → attempts_of m h' = attempts_of m h;
  os_pub : ∀ t m, m ≠ lf_name l → published t m (p_reg h') = published t m (p_reg h);
  os_reg : reg_ok (p_reg h) → reg_ok (p_reg h');
  os_conns : conns_le h h';
  os_procs : ∀ c x', p_conns h' !! c = Some x' → cn_exited x' = false →
    cn_owner x' = lf_name l ∧ c ∈ lf_procs l' ∨
    cn_owner x' ≠ lf_name l ∧ ∃ x, p_conns h !! c = Some x ∧ cn_owner x = cn_owner x' ∧ cn_exited x = false;
  os_log : ∃ ns, p_log h' = p_log h ++ ns ∧ Forall (about (lf_name l)) ns;
  os_log_ok : log_ok (p_log h) → log_ok (p_log h');
  os_owns : owns l' h'
}.
Lemma inv_own g g' l l' gs h h' :
  lives_of g = [l] → lives_of g' = [l'] → booked_of g' = booked_of g →
  own_step l l' h h' → plugins_inv (g :: gs) h → plugins_inv (g' :: gs) h'.
Proof.
  intros Eg Eg' Eb [] HI. destruct HI as [HN HL HB HR HP HG HRG].
  assert (lives (g :: gs) = l :: lives gs) as El by (unfold lives; rewrite bind_cons, Eg; done).
  assert (lives (g' :: gs) = l' :: lives gs) as El' by (unfold lives; rewrite bind_cons, Eg'; done).
  assert (booked (g' :: gs) = booked (g :: gs)) as EB by (unfold booked; rewrite !bind_cons, Eb; done).
  unfold names in HN. rewrite El in *. rewrite fmap_cons in *. destruct os_log0 as (ns & En & Hns).
  assert (∀ m, m ∈ lives gs → lf_name m ≠ lf_name l) as Hother.
  { intros m Hm E. apply NoDup_app in HN as [[Hn _]%NoDup_cons _]. apply Hn. rewrite <- E. by apply list_elem_of_fmap_2. }
  assert (∀ b, b ∈ booked (g :: gs) → b.1 ≠ lf_name l) as Hbook.
  { intros b Hb E. apply NoDup_app in HN as (_ & Hd & _). eapply (Hd (lf_name l)); [left|]. rewrite <- E. by apply list_elem_of_fmap_2. }
  split.
  - unfold names. by rewrite El', EB, fmap_cons, os_name0.
  - rewrite El'. intros m [->|Hm]%elem_of_cons; [done|]. pose proof (Hother m Hm) as Hne.
    destruct (HL m ltac:(by right)). split; [by rewrite os_plugins0|by rewrite os_pub0|by rewrite os_att0, En, (status_other _ (lf_name l)) by done| |by eapply owns_conns|done].
    rewrite En. by rewrite (status_other _ (lf_name l)).
  - rewrite EB. intros b Hb. pose proof (Hbook b Hb) as Hne. destruct (HB b Hb). split; [by rewrite os_plugins0|intros t; by rewrite os_pub0|].
    rewrite En. by rewrite (status_other _ (lf_name l)).
  - rewrite El'. intros m p Hm Hn. rewrite fmap_cons, os_name0 in Hn. assert (m ≠ lf_name l) as Hne by set_solver.
    rewrite os_plugins0 in Hm by done. destruct (HR m p Hm Hn). split; [done|done|by rewrite os_pub0|done].
  - rewrite El'. intros c x' Hx' Hl. destruct (os_procs0 c x' Hx' Hl) as [[Ho Hc]|(Ho & x & Hx & Eo & Ex)].
    + exists l'. split_and!; [left|by rewrite os_name0|done].
    + destruct (HP c x Hx Ex) as (m & [->|Hm]%elem_of_cons & Em & Hc); [congruence|]. exists m. split_and!; [by right|congruence|done].
  - auto.
  - auto.
Qed.

Abbreviation hp := (holds (λ g, lives_of g = []) plugins_inv (λ _ _, True)).
Lemma hp_same {A} (p : prog Host A) g : all_respect (λ _, True) life_same p → hp p (λ _ g', g' = g) g.
Proof.
  intros Hp. eapply (holds_frame _ _ _ life_same Idle); [exact Hp| | |done].
  - intros gs h h' HI HR. split; [by eapply inv_same|done].
  - intros gs h g1 []. by split.
Qed.

(** What a supervisor may count on. *)
Record known (l : life) (h : Host) : Prop := {
  kn_owns : owns l h;
  kn_alive : ∀ c x, p_conns h !! c = Some x → cn_exited x = false → cn_owner x = lf_name l → c ∈ lf_procs l;
  kn_reg : reg_ok (p_reg h)
}.
Lemma inv_known g l gs h : lives_of g = [l] → plugins_inv (g :: gs) h → known l h.
Proof.
  intros Eg [HN HL HB HR HP HG HRG]. assert (lives (g :: gs) = l :: lives gs) as El by (unfold lives; rewrite bind_cons, Eg; done).
  split; [|intros c x Hx Ex Eo|done].
  - apply HL. rewrite El. left.
  - destruct (HP c x Hx Ex) as (m & Hm & Em & Hc). rewrite El in Hm. apply elem_of_cons in Hm as [->|Hm]; [done|].
    exfalso. unfold names in HN. rewrite El, fmap_cons in HN. apply NoDup_app in HN as [HN _]. apply NoDup_cons in HN as [Hn _].
    apply Hn. rewrite <- Eo, <- Em. by apply list_elem_of_fmap_2.
Qed.
Lemma hp_own {A} (m : M Host A) (Q : res A → ghost → Prop) l :
  (∀ h, known l h → ∃ l', own_step l l' h (m h).2 ∧ Q (m h).1 (Actor l')) → hp (atomic m) Q (Actor l).
Proof.
  intros Hm. apply holds_atomic. intros gs h HI. destruct (Hm h (inv_known (Actor l) l _ _ eq_refl HI)) as (l' & Hs & HQ).
  exists (Actor l'). split_and!; [by apply (inv_own (Actor l) (Actor l') l l' gs h)|done|done].
Qed.

(** ** The steps of a supervisor *)

(** A step that rewrites the plugin's entry. *)
Lemma own_plugin l l' h h' f ns :
  known l h → p_plugins h' = alter f (lf_name l) (p_plugins h) → (∀ m, attempts_of m h' = attempts_of m h) →
  p_reg h' = p_reg h → p_conns h' = p_conns h → p_log h' = p_log h ++ ns →
  Forall (about (lf_name l)) ns → (log_ok (p_log h) → log_ok (p_log h ++ ns)) →
  (∀ t, foldl (count_note (lf_name l)) (lf_att l, lf_parked l, t) ns = (lf_att l, lf_parked l', t)) → lf_since l' = lf_since l →
  lf_name l' = lf_name l → lf_type l' = lf_type l → lf_procs l' = lf_procs l → lf_att l' = lf_att l → lf_pub l' = lf_pub l →
  (∀ p, mg_m p = lf_st l → mg_cur p = lf_cur l → mg_registered p = lf_reg l →
    mg_ptype (f p) = mg_ptype p ∧ mg_m (f p) = lf_st l' ∧ mg_cur (f p) = lf_cur l' ∧ mg_registered (f p) = lf_reg l') →
  (∀ c, lf_cur l' = Some c → c ∈ lf_procs l ∨ lf_cur l = Some c) → life_ok l' → own_step l l' h h'.
Proof.
  intros [[(p & Hp & Et & Es & Ec & Er) Hpub Hatt Hst Hpr Hok] Hal Hrg] Ep Ea Eg En El Hab Hlo Hs Hsi E1 E2 E3 E4 E5 Hf Hcur Hok'.
  assert (conns_le h h') as Hle by (intros c x Hx; exists x; by rewrite En).
  split; rewrite ?Eg; try done.
  - intros m Hm. rewrite Ep. by apply lookup_alter_ne.
  - intros c x'. rewrite En. intros Hx' Hd. destruct (decide (cn_owner x' = lf_name l)); [left|right; eauto].
    rewrite E3. eauto.
  - rewrite El. eauto.
  - by rewrite El.
  - split; rewrite ?E1, ?E2, ?E4, ?E5, ?Eg, ?Ea; [|done| | | |done].
    + exists (f p). destruct (Hf p Es Ec Er) as (? & ? & ? & ?). rewrite Ep, lookup_alter_eq, Hp. split_and!; [done|congruence|done..].
    + destruct Hatt as (r & Hatt & Hr). exists r. split; [done|]. rewrite El, status_app, Hsi. destruct (status _ _) as [s1 t]. cbn in Hst, Hr. by subst s1; rewrite Hs.
    + rewrite El, status_app. destruct (status _ _) as [s1 t]. cbn in Hst. by subst s1; rewrite Hs.
    + rewrite E3. intros c Hc. rewrite En. apply Hpr. destruct Hc as [?|Hc]; [by left|by apply Hcur].
Qed.

Lemma move_known l h next : known l h → next ∈ legalTransitions (lf_st l) →
  move (lf_name l) next h = jot (Moved (lf_name l) (lf_st l) next) (plugin_alter (with_m next) (lf_name l) h).
Proof.
  intros [[(p & Hp & Et & <- & Ec & Er) _ _ _ _ _] _ _] Hn. unfold move. rewrite Hp. unfold to. by rewrite decide_True.
Qed.
Lemma log_ok_moved log name from next : log_ok log → log_ok (log ++ [Moved name from next]).
Proof. intros Hl. apply log_ok_idle; [done|]. by repeat constructor. Qed.

(** A move to [next] that publishes [cur], in one locked step. *)
Lemma hp_move_cur l name next cur :
  lf_name l = name → next ∈ legalTransitions (lf_st l) → (∀ c, cur = Some c → c ∈ lf_procs l ∨ lf_cur l = Some c) →
  life_ok (at_cur cur (at_st next l)) →
  hp (atomic (modify (λ h, plugin_alter (with_cur cur) name (move name next h))))
    (λ r g, r = Ok tt ∧ g = Actor (at_cur cur (at_st next l))) (Actor l).
Proof.
  intros <- Hn Hc Hok. apply hp_own. intros h Hk. exists (at_cur cur (at_st next l)). split; [|done].
  cbn [modify fst snd]. rewrite (move_known l) by done.
  apply (own_plugin _ _ _ _ (λ p, with_cur cur (with_m next p)) [Moved (lf_name l) (lf_st l) next]); try done.
  - unfold jot, plugin_alter, set_plugins. simpl. apply map_eq. intros m. destruct (decide (m = lf_name l)) as [->|Hm].
    + rewrite !lookup_alter_eq. by destruct (p_plugins h !! _).
    + by rewrite !lookup_alter_ne by done.
  - by repeat constructor.
  - apply log_ok_moved.
Qed.
Lemma hp_transition l name next :
  lf_name l = name → next ∈ legalTransitions (lf_st l) → life_ok (at_st next l) →
  hp (atomic (transition name next)) (λ r g, r = Ok tt ∧ g = Actor (at_st next l)) (Actor l).
Proof.
  intros <- Hn Hok. apply hp_own. intros h Hk. exists (at_st next l). split; [|done].
  cbn [transition modify fst snd]. rewrite (move_known l) by done.
  apply (own_plugin _ _ _ _ (with_m next) [Moved (lf_name l) (lf_st l) next]); try done; [by repeat constructor|apply log_ok_moved|].
  intros c Hc. by right.
Qed.
(** Publishing another connection while the state stays. *)
Lemma hp_swap l name c :
  lf_name l = name → c ∈ lf_procs l → life_ok (at_cur (Some c) l) →
  hp (atomic (modify (plugin_alter (with_cur (Some c)) name))) (λ r g, r = Ok tt ∧ g = Actor (at_cur (Some c) l)) (Actor l).
Proof.
  intros <- Hc Hok. apply hp_own. intros h Hk. exists (at_cur (Some c) l). split; [|done].
  apply (own_plugin _ _ _ _ (with_cur (Some c)) []); try done; [by rewrite app_nil_r|by rewrite app_nil_r|]. intros c' [= <-]. by left.
Qed.
Lemma hp_reason l name r : lf_name l = name →
  hp (atomic (setLoadReason name r)) (λ r g, r = Ok tt ∧ g = Actor l) (Actor l).
Proof.
  intros <-. apply hp_own. intros h Hk. exists l. split; [|done]. pose proof Hk as [[] _ _].
  apply (own_plugin _ _ _ _ (with_reason r) []); try done; [by rewrite app_nil_r|by rewrite app_nil_r|]. intros c Hc. by right.
Qed.
Lemma hp_quarantine l name :
  lf_name l = name → lf_st l ∈ [StateLaunching; StateUnhealthy] → lf_procs l = [] → lf_reg l = false → lf_pub l = false →
  hp (atomic (quarantine name)) (λ r g, r = Ok tt ∧ g = Actor (at_parked true (at_cur None (at_st StateFailed l)))) (Actor l).
Proof.
  intros <- Hst Hpr Hr Hpb. apply hp_own. intros h Hk. set (l' := at_parked true (at_cur None (at_st StateFailed l))).
  exists l'. split; [|done].
  assert (life_ok l') as Hok. { split; simpl; [closed|intros [?|?]; congruence|congruence|rewrite Hpr; simpl; lia|done]. }
  pose proof Hk as [[(p & Hp & Et & Es & Ec & Er) _ _ _ _ _] _ _].
  unfold quarantine, modify. simpl. rewrite Hp, Es. destruct (decide (lf_st l = StateUnhealthy)) as [Hu|Hu].
  - rewrite (move_known l h StateRestarting Hk) by (rewrite Hu; closed).
    unfold move. simpl. rewrite lookup_alter_eq, Hp. simpl.
    apply (own_plugin _ _ _ _ (λ p, with_cur None (with_m StateFailed (with_m StateRestarting p)))
      [Moved (lf_name l) (lf_st l) StateRestarting; Moved (lf_name l) StateRestarting StateFailed; Quarantined (lf_name l)]); try done.
    + simpl. apply map_eq. intros m. destruct (decide (m = lf_name l)) as [->|Hm]; [by rewrite !lookup_alter_eq, Hp|by rewrite !lookup_alter_ne by done].
    + simpl. by rewrite <- !app_assoc.
    + by repeat constructor.
    + intros Hl. apply (log_ok_last _ [_; _]); [done|by repeat constructor|done].
    + intros t. simpl. by rewrite decide_True.
  - rewrite (move_known l h StateFailed Hk) by (apply elem_of_cons in Hst as [->|?%list_elem_of_singleton]; [closed|done]).
    apply (own_plugin _ _ _ _ (λ p, with_cur None (with_m StateFailed p)) [Moved (lf_name l) (lf_st l) StateFailed; Quarantined (lf_name l)]); try done.
    + simpl. apply map_eq. intros m. destruct (decide (m = lf_name l)) as [->|Hm]; [by rewrite !lookup_alter_eq, Hp|by rewrite !lookup_alter_ne by done].
    + simpl. by rewrite <- app_assoc.
    + by repeat constructor.
    + intros Hl. apply (log_ok_last _ [_]); [done|by repeat constructor|done].
    + intros t. simpl. by rewrite decide_True.
Qed.

Lemma log_same name h h' : p_log h' = p_log h → ∃ ns, p_log h' = p_log h ++ ns ∧ Forall (about name) ns.
Proof. intros ->. exists []. split; [by rewrite app_nil_r|constructor]. Qed.

(** A step that rewrites the supervisor. *)
Lemma own_sup l l' h h' f ns :
  known l h → p_sups h' = alter f (lf_name l) (p_sups h) → p_plugins h' = p_plugins h →
  p_reg h' = p_reg h → p_conns h' = p_conns h → p_log h' = p_log h ++ ns →
  Forall (about (lf_name l)) ns → (log_ok (p_log h) → log_ok (p_log h ++ ns)) →
  (∀ s, (foldl (count_note (lf_name l)) (lf_att l, lf_parked l, s) ns).1 = (lf_att l', lf_parked l')) →
  (∀ s, su_attempts s = lf_att l → su_attempts (f s) = lf_att l') →
  (∀ s x t, (∀ t, lf_since l = Some t → s = Some t ∧ (t ≤ su_readySince x)%Z) → lf_since l' = Some t →
     (foldl (count_note (lf_name l)) (lf_att l, lf_parked l, s) ns).2 = Some t ∧ (t ≤ su_readySince (f x))%Z) →
  l' = at_since (lf_since l') (at_parked (lf_parked l') (at_att (lf_att l') l)) → own_step l l' h h'.
Proof.
  intros [[Hp Hpub Hatt Hst Hpr Hok] Hal Hrg] Ep Epl Eg En El Hab Hlo Hs Hf Hsi E.
  assert (lf_name l' = lf_name l ∧ lf_type l' = lf_type l ∧ lf_procs l' = lf_procs l ∧ lf_cur l' = lf_cur l ∧
    lf_pub l' = lf_pub l ∧ lf_st l' = lf_st l ∧ lf_reg l' = lf_reg l) as (E1 & E2 & E3 & E4 & E5 & E6 & E7) by (rewrite E; done).
  assert (conns_le h h') as Hle by (intros c x Hx; exists x; by rewrite En).
  split; rewrite ?Eg; try done.
  - intros m Hm. by rewrite Epl.
  - intros m Hm. unfold attempts_of. by rewrite Ep, lookup_alter_ne.
  - intros c x'. rewrite En. intros Hx' Hd. destruct (decide (cn_owner x' = lf_name l)); [left|right; eauto]. rewrite E3. eauto.
  - rewrite El. eauto.
  - by rewrite El.
  - split; rewrite ?E1, ?E2, ?E3, ?E4, ?E5, ?E6, ?E7, ?Eg, ?Epl; [done|done| | |by rewrite En|].
    + destruct Hatt as (r & Hatt & Hr). unfold attempts_of in *. rewrite Ep, lookup_alter_eq. destruct (p_sups h !! lf_name l) as [s|]; simpl in *; [|done].
      injection Hatt as Ha Eb. subst r. exists (su_readySince (f s)). rewrite El, status_app. destruct (status _ _) as [s1 t]. cbn in Hst, Hr. subst s1.
      split; [by rewrite (Hf s)|]. intros t' Ht'. by apply (Hsi t s).
    + rewrite El, status_app. destruct (status _ _) as [s1 t]. cbn in Hst. subst s1. apply Hs.
    + rewrite E. by destruct Hok.
Qed.
Lemma known_sup l h : known l h → ∃ s, p_sups h !! lf_name l = Some s ∧ su_attempts s = lf_att l ∧
  ∀ t, lf_since l = Some t → (status (lf_name l) (p_log h)).2 = Some t ∧ (t ≤ su_readySince s)%Z.
Proof.
  intros [[_ _ (r & Ha & Hr) _ _ _] _ _]. unfold attempts_of in Ha. destruct (p_sups h !! lf_name l) as [s|]; [|done].
  injection Ha as Ha <-. by exists s.
Qed.
Lemma hp_failed l name : lf_name l = name →
  hp (atomic (λ h, (Ok (sup_get su_attempts 0 name h + 1)%Z,
       jot (FailedAttempt name) (sup_alter (λ s, with_attempts (su_attempts s + 1)%Z s) name h))))
    (λ r g, r = Ok (lf_att l + 1)%Z ∧ g = Actor (at_since None (at_att (lf_att l + 1)%Z l))) (Actor l).
Proof.
  intros <-. apply hp_own. intros h Hk. exists (at_since None (at_att (lf_att l + 1)%Z l)). split.
  - apply (own_sup _ _ _ _ (λ s, with_attempts (su_attempts s + 1)%Z s) [FailedAttempt (lf_name l)]); try done; [by repeat constructor| | |].
    + intros Hl. by apply log_ok_snoc.
    + intros s. simpl. by rewrite decide_True.
    + by intros s <-.
  - destruct (known_sup l h Hk) as (s & Es & <- & _). unfold sup_get. simpl. by rewrite Es.
Qed.
Lemma hp_operator l name : lf_name l = name →
  hp (atomic (modify (λ h, jot (OperatorReload name) (sup_alter (with_attempts 0%Z) name h))))
    (λ r g, r = Ok tt ∧ g = Actor (at_parked false (at_att 0%Z l))) (Actor l).
Proof.
  intros <-. apply hp_own. intros h Hk. exists (at_parked false (at_att 0%Z l)). split; [|done].
  apply (own_sup _ _ _ _ (with_attempts 0%Z) [OperatorReload (lf_name l)]); try done; [by repeat constructor| | |].
  - intros Hl. by apply log_ok_snoc.
  - intros s. simpl. by rewrite decide_True.
  - intros s x t Hs Ht. simpl. rewrite decide_True by done. by apply Hs.
Qed.
(** The readiness clock starts. *)
Lemma hp_clock l name : lf_name l = name →
  hp (atomic (modify (λ h, jot (Serving name (p_now h)) (sup_alter (with_readySince (p_now h)) name h))))
    (λ r g, r = Ok tt ∧ ∃ t, g = Actor (at_since (Some t) l)) (Actor l).
Proof.
  intros <-. apply hp_own. intros h Hk. exists (at_since (Some (p_now h)) l). split; [|by eauto].
  apply (own_sup _ _ _ _ (with_readySince (p_now h)) [Serving (lf_name l) (p_now h)]); try done; [by repeat constructor| | |].
  - intros Hl. by apply log_ok_snoc.
  - intros s. simpl. by rewrite decide_True.
  - intros s x t _ [= <-]. simpl. by rewrite decide_True.
Qed.
(** Forgiving, after a crash: the earlier attempts count or they do not; the clock stops. *)
Lemma hp_forgive l name (now : time) : lf_name l = name → is_Some (lf_since l) →
  hp (atomic (modify (λ h,
    let up := (now - sup_get su_readySince 0 name h)%Z in
    let h := if (healthStable cfg <=? up)%Z then jot (Forgiven name now) (sup_alter (with_attempts 0%Z) name h) else h in
    sup_alter (with_readySince 0%Z) name h)))
    (λ r g, r = Ok tt ∧ ∃ a, g = Actor (at_since None (at_att a l)) ∧ (a = lf_att l ∨ a = 0%Z)) (Actor l).
Proof.
  intros <- [t Ht]. apply hp_own. intros h Hk. cbn [modify fst snd]. destruct (known_sup l h Hk) as (x & Hx & _ & Hsi).
  destruct (Hsi t Ht) as [Hst Hle]. unfold sup_get. rewrite Hx. cbn beta iota.
  set (up := (now - su_readySince x)%Z). destruct (Z.leb_spec (healthStable cfg) up) as [Hs|Hs].
  - exists (at_since None (at_att 0%Z l)). split; [|by eauto].
    apply (own_sup _ _ _ _ (λ s, with_readySince 0%Z (with_attempts 0%Z s)) [Forgiven (lf_name l) now]); try done; [|by repeat constructor| |].
    + simpl. apply map_eq. intros m. destruct (decide (m = lf_name l)) as [->|Hm]; [rewrite !lookup_alter_eq; by destruct (p_sups h !! _)|by rewrite !lookup_alter_ne by done].
    + intros Hl. apply log_ok_snoc; [done|]. exists t. split; [done|]. unfold up in Hs. lia.
    + intros s. simpl. by rewrite decide_True.
  - exists (at_since None l). split; [|split; [done|]; exists (lf_att l); split; [by destruct l|by left]].
    apply (own_sup _ _ _ _ (with_readySince 0%Z) []); try done; by rewrite app_nil_r.
Qed.

(** Starting and killing processes. *)
Lemma hp_start l name o :
  lf_name l = name → life_ok (at_procs (0 :: lf_procs l) l) →
  hp (atomic (start_process name o)) (λ r g, ∃ c, r = Ok c ∧ g = Actor (at_procs (c :: lf_procs l) l) ∧ c ∉ lf_procs l) (Actor l).
Proof.
  intros <- Hok. apply hp_own. intros h [[Hp Hpub Hatt Hst Hpr _] Hal Hrg]. set (c := length (p_conns h)).
  exists (at_procs (c :: lf_procs l) l). split.
  2: { exists c. split_and!; [done..|]. intros Hin. destruct (Hpr c (or_introl Hin)) as (x & Hx%lookup_lt_Some & _). unfold c in Hx. lia. }
  assert (∀ h', p_conns h' = p_conns h ++ [{| cn_owner := lf_name l; cn_infoClient := lo_infoClient o; cn_pid := lo_pid o;
    cn_inflight := 0; cn_drained := false; cn_exited := false |}] → conns_le h h') as Hle.
  { intros h' En c' x Hx. exists x. rewrite En. split; [by apply lookup_app_l_Some|done]. }
  split; try done; [by apply Hle| |by apply log_same|].
  - simpl. intros c' x' [Hx'|[Hx' Hy]]%lookup_app_Some Hd.
    + destruct (decide (cn_owner x' = lf_name l)); [left|right; eauto]. split; [done|]. right. eauto.
    + left. apply list_lookup_singleton_Some in Hy as [? <-]. split; [done|]. replace c' with c by (unfold c; lia). left.
  - split; [done|done|done|done| |destruct Hok; split; try done; by intros Hs%lk_ended0].
    simpl. intros c' Hc'. destruct (decide (c' = c)) as [->|Hne].
    + eexists. split; [by apply list_lookup_middle|done].
    + destruct (Hpr c') as (x & Hx & Ho); [destruct Hc' as [[?|?]%elem_of_cons|?]; [done|by left|by right]|]. exists x. split; [by apply lookup_app_l_Some|done].
Qed.
Definition without (c : nat) (l : list nat) : list nat := filter (λ x, x ≠ c) l.
Lemma life_ok_without c l : life_ok l → life_ok (at_procs (without c (lf_procs l)) l).
Proof.
  intros []. split; simpl; [done|done|done| |].
  - etrans; [apply length_filter|done].
  - intros Hs. by rewrite lk_ended0.
Qed.
Lemma hp_kill l c : hp (atomic (kill c)) (λ r g, r = Ok tt ∧ g = Actor (at_procs (without c (lf_procs l)) l)) (Actor l).
Proof.
  apply hp_own. intros h [[Hp Hpub Hatt Hst Hpr Hok] Hal Hrg]. exists (at_procs (without c (lf_procs l)) l). split; [|done].
  assert (∀ h', p_conns h' = alter (with_exited true) c (p_conns h) → conns_le h h') as Hle.
  { intros h' En c' x Hx. rewrite En. destruct (decide (c = c')) as [<-|Hne].
    - rewrite list_lookup_alter_eq, Hx. by exists (with_exited true x).
    - rewrite list_lookup_alter_ne by done. by exists x. }
  split; try done; [by apply Hle| |by exists [Killed c]; split; [|repeat constructor]| |].
  - simpl. intros c' x' Hx' Hd. assert (c ≠ c') as Hne.
    { intros <-. rewrite list_lookup_alter_eq in Hx'. destruct (p_conns h !! c); [by injection Hx' as <-|done]. }
    rewrite list_lookup_alter_ne in Hx' by done. destruct (decide (cn_owner x' = lf_name l)); [left|right; eauto].
    split; [done|]. apply list_elem_of_filter. split; [done|eauto].
  - intros Hl. by apply log_ok_snoc.
  - split; [done|done| | | |by apply life_ok_without].
    + simpl. by rewrite status_app.
    + simpl. rewrite status_app. exact Hst.
    + simpl. intros c' Hc'. assert (∃ x, p_conns h !! c' = Some x ∧ cn_owner x = lf_name l) as (x & Hx & <-).
      { apply Hpr. destruct Hc' as [[_ ?]%list_elem_of_filter|?]; auto. }
      edestruct (Hle (conn_alter (with_exited true) c h) eq_refl c' x Hx) as (x' & ? & ? & _). eauto.
Qed.

(** ** Publishing and withdrawing *)

Lemma own_reg l b h f :
  known l h → (∀ t m, m ≠ lf_name l → published t m (f (p_reg h)) = published t m (p_reg h)) →
  (reg_ok (p_reg h) → reg_ok (f (p_reg h))) →
  (published (lf_type l) (lf_name l) (f (p_reg h)) = true → b = true) → life_ok (at_pub b l) →
  own_step l (at_pub b l) h (set_reg (f (p_reg h)) h).
Proof.
  intros [[Hp Hpub Hatt Hst Hpr Hok] Hal Hrg] Hf Hr Hb Hok'.
  assert (conns_le h (set_reg (f (p_reg h)) h)) as Hle by (intros c x Hx; by exists x).
  split; try done; [|by apply log_same].
  simpl. intros c x' Hx' Hd. destruct (decide (cn_owner x' = lf_name l)); [left; eauto|right; eauto].
Qed.
Lemma hp_reg {A} l b (m : M Host A) (Q : res A → ghost → Prop) :
  (∀ h, known l h → ∃ r f, m h = (r, set_reg (f (p_reg h)) h) ∧
    (∀ t k, k ≠ lf_name l → published t k (f (p_reg h)) = published t k (p_reg h)) ∧
    (reg_ok (p_reg h) → reg_ok (f (p_reg h))) ∧
    (published (lf_type l) (lf_name l) (f (p_reg h)) = true → b = true) ∧ Q r (Actor (at_pub b l))) →
  life_ok (at_pub b l) → hp (atomic m) Q (Actor l).
Proof.
  intros Hm Hok. apply hp_own. intros h Hk. destruct (Hm h Hk) as (r & f & E & H1 & H2 & H3 & HQ).
  exists (at_pub b l). rewrite E. split; [|done]. by apply own_reg.
Qed.

(** One of the registries changes, at one name. *)
Lemma published_marks r g t m : published t m (with_scoring r g) = published t m g.
Proof. done. Qed.
Lemma published_types name r g t m :
  (∀ k, k ≠ name → types_published k r = types_published k (rg_types g)) → m ≠ name →
  published t m (with_types r g) = published t m g.
Proof. intros Hr Hm. unfold published. by repeat case_decide; rewrite ?Hr. Qed.
Lemma published_callers name r g t m :
  (∀ k, k ≠ name → k ∈ r ↔ k ∈ rg_callers g) → m ≠ name → published t m (with_callers r g) = published t m g.
Proof.
  intros Hr Hm. unfold published. repeat case_decide; simpl in *; first [done|exfalso; specialize (Hr m Hm); tauto].
Qed.
Lemma published_cancels name r g t m :
  (∀ k, k ≠ name → r !! k = rg_cancels g !! k) → m ≠ name → published t m (with_cancels r g) = published t m g.
Proof. intros Hr Hm. unfold published. by repeat case_decide; simpl; rewrite ?Hr. Qed.
Lemma published_auth name r g t m :
  (∀ k, k ≠ name → auth_published k r = auth_published k (rg_auth g)) → m ≠ name →
  published t m (with_auth r g) = published t m g.
Proof. intros Hr Hm. unfold published. by repeat case_decide; simpl; rewrite ?Hr. Qed.

Lemma type_Register_other name ct r k : k ≠ name → types_published k (type_Register name ct false r).2 = types_published k r.
Proof.
  intros Hk. unfold type_Register, types_published. destruct (tr_m r !! name) as [e|]; [destruct (_ && _); [done|]|]; simpl; by rewrite lookup_insert_ne.
Qed.
Lemma type_Register_base name ct r : tr_base (type_Register name ct false r).2 = tr_base r.
Proof. unfold type_Register. destruct (tr_m r !! name) as [e|]; [by destruct (_ && _)|done]. Qed.
(** A refusal publishes nothing. *)
Lemma type_Register_refused name ct r e : (type_Register name ct false r).1 = Err e →
  types_published name (type_Register name ct false r).2 = false.
Proof.
  unfold type_Register, types_published. destruct (tr_m r !! name) as [x|] eqn:E; [|done].
  destruct (ct_protected x) eqn:Ep; [|done]. intros _. simpl. by rewrite E, Ep.
Qed.
Lemma type_Deregister_other name r k : k ≠ name → types_published k (type_Deregister name r) = types_published k r.
Proof.
  intros Hk. unfold type_Deregister, types_published. destruct (tr_m r !! name); [|done]. simpl.
  destruct (tr_base r !! name); [rewrite lookup_insert_ne by done|]; by rewrite lookup_delete_ne.
Qed.
Lemma type_Deregister_base name r : tr_base (type_Deregister name r) = tr_base r.
Proof. unfold type_Deregister. by destruct (tr_m r !! name). Qed.
Lemma type_Deregister_withdrawn name r : map_Forall (λ _ e, ct_protected e = true) (tr_base r) →
  types_published name (type_Deregister name r) = false.
Proof.
  intros Hb. unfold type_Deregister, types_published. destruct (tr_m r !! name) as [e|] eqn:E; [|by rewrite E]. simpl.
  destruct (tr_base r !! name) as [b|] eqn:Eb; [rewrite lookup_insert_eq; by rewrite (Hb _ _ Eb)|by rewrite lookup_delete_eq].
Qed.

Lemma auth_Register_other {A} name (a : A) r k : k ≠ name → auth_published k (auth_Register name a false r).2 = auth_published k r.
Proof.
  intros Hk. unfold auth_Register, auth_published. destruct (ar_m r !! name) as [x|]; [destruct (_ && _); [done|]|]; simpl; by rewrite lookup_insert_ne.
Qed.
Lemma auth_Register_refused {A} name (a : A) r x : (auth_Register name a false r).1 = Err x →
  auth_published name (auth_Register name a false r).2 = false.
Proof.
  unfold auth_Register, auth_published. destruct (ar_m r !! name) as [y|] eqn:E; [|done].
  destruct (pe_protected y) eqn:Ep; [|done]. intros _. simpl. by rewrite E, Ep.
Qed.
Lemma auth_Deregister_other {A} name (r : AuthRegistry A) k : k ≠ name → auth_published k (auth_Deregister name r) = auth_published k r.
Proof.
  intros Hk. unfold auth_Deregister, auth_published. destruct (ar_m r !! name) as [e|]; [|done].
  destruct (pe_protected e); [done|]. simpl. by rewrite lookup_delete_ne.
Qed.
Lemma auth_Deregister_withdrawn {A} name (r : AuthRegistry A) : auth_published name (auth_Deregister name r) = false.
Proof.
  unfold auth_Deregister, auth_published. destruct (ar_m r !! name) as [e|] eqn:E; [|by rewrite E].
  destruct (pe_protected e) eqn:Ep; [by rewrite E, Ep|]. simpl. by rewrite lookup_delete_eq.
Qed.

(** ** What everybody may do *)

Abbreviation same := (all_respect (λ _ : Host, True) life_same).
Lemma life_same_fields h h' :
  p_plugins h' = p_plugins h → p_sups h' = p_sups h → p_reg h' = p_reg h → p_conns h' = p_conns h → p_log h' = p_log h → life_same h h'.
Proof.
  intros E1 E2 E3 E4 E5. split; [done|intros n; unfold attempts_of; by rewrite E2|done|by rewrite E4|intros c x; rewrite E4; eauto|].
  exists []. by rewrite app_nil_r.
Qed.
#[local] Instance life_same_refl : Reflexive life_same.
Proof. intros h. by apply life_same_fields. Qed.
Lemma life_same_jot n h : idle_note n → life_same h (jot n h).
Proof.
  intros Hn. split; try done; [intros c x; eauto|]. exists [n]. split; [done|]. by repeat constructor.
Qed.
Lemma life_same_conn f c h : (∀ x, cn_owner (f x) = cn_owner x ∧ (cn_exited x = true → cn_exited (f x) = true)) → life_same h (conn_alter f c h).
Proof.
  intros Hf. split; try done; [apply length_alter| |by exists []; rewrite app_nil_r].
  intros c' x Hx. simpl. destruct (decide (c = c')) as [<-|Hne].
  - rewrite list_lookup_alter_eq, Hx. exists (f x). split; [done|]. apply Hf.
  - rewrite list_lookup_alter_ne by done. eauto.
Qed.
Lemma life_same_sup f name h : (∀ s, su_attempts (f s) = su_attempts s ∧ su_readySince (f s) = su_readySince s) → life_same h (sup_alter f name h).
Proof.
  intros Hf. split; try done; [|intros c x; eauto|by exists []; rewrite app_nil_r].
  intros n. unfold attempts_of. simpl. destruct (decide (n = name)) as [->|Hne].
  - rewrite lookup_alter_eq. destruct (p_sups h !! name) as [s|]; [|done]. simpl. by destruct (Hf s) as [-> ->].
  - by rewrite lookup_alter_ne.
Qed.
Lemma same_modify f : (∀ h, life_same h (f h)) → same (atomic (modify f)).
Proof. intros Hf. apply all_respect_atomic. by split. Qed.
Lemma same_gets {A} (f : Host → A) : same (atomic (gets f)).
Proof. by apply all_respect_atomic. Qed.
Lemma same_stuck {A} : same (stuck : P Host A).
Proof. by apply all_respect_blocking. Qed.
Lemma outside_same {A} (p : P Host A) : outside p → same p.
Proof. apply all_respect_weaken. by intros h h' _ ->. Qed.

Lemma select_choice {A} (l : list A) h x h' : select_ready l h = Some (x, h') → x ∈ l ∧ ∃ ns, h' = set_choices ns h.
Proof.
  unfold select_ready. destruct l as [|y l]; [done|]. destruct (p_choices h) as [|n ns] eqn:En.
  - intros [= <- <-]. split; [left|]. exists []. rewrite <- En. by destruct h.
  - destruct (_ !! _) as [z|] eqn:Ez; [|done]. intros [= <- <-]. split; [by eapply list_elem_of_lookup_2|by eexists].
Qed.
Lemma same_select {A B} (l : Host → list A) (f : A → Host → B * Host) :
  (∀ a ns h, life_same h (f a (set_choices ns h)).2) →
  same (blocking (λ h, '(a, h) ← select_ready (l h) h; Some (f a h))).
Proof.
  intros Hf. apply all_respect_blocking. intros h b h' _ E. split; [done|].
  destruct (select_ready (l h) h) as [[a h1]|] eqn:Es; [|done]. apply select_choice in Es as [_ [ns ->]].
  simpl in E. injection E as E. specialize (Hf a ns h). by rewrite E in Hf.
Qed.
Lemma same_choice {A} (l : Host → list A) : same (blocking (λ h, select_ready (l h) h)).
Proof.
  apply all_respect_blocking. intros h a h' _ [_ [ns ->]]%select_choice. split; [done|]. by apply life_same_fields.
Qed.
Hint Resolve same_gets same_stuck same_choice : resp.

Lemma same_sem_send i c : same (sem_send i c).
Proof. apply (same_select _ (λ (sent : bool) h, (sent, if sent then sem_put i h else h))). intros [] ns h; by apply life_same_fields. Qed.
Lemma same_sem_receive i : same (sem_receive i).
Proof.
  apply all_respect_blocking. intros h a h' _ E. split; [done|]. destruct (p_sems h !! i) as [s|]; [|done]. simpl in E.
  destruct (0 <? sm_taken s)%nat; [|done]. injection E as _ <-. by apply life_same_fields.
Qed.
Hint Resolve same_sem_send same_sem_receive : resp.
Lemma same_acquire c name s : same (acquire c name s).
Proof.
  assert (∀ level, same (shed_or_cancelled c name level)) as Hg.
  { intros level. apply all_respect_bind; [apply same_gets|]. intros []; [done|]. apply all_respect_bind; [apply same_gets|]. intros w.
    apply all_respect_bind; [apply same_modify; intros h; by apply life_same_jot|done]. }
  apply all_respect_bind; [apply same_gets|]. intros b. apply all_respect_bind; [apply same_gets|]. intros t.
  apply all_respect_bind; [apply same_sem_send|]. intros []; [|apply Hg]. cbn [negb]. destruct (bu_global b) as [g|]; [|done].
  apply all_respect_bind; [apply same_sem_send|]. intros []; [done|]. apply all_respect_bind; [apply same_sem_receive|]. auto.
Qed.
Lemma same_release s : same (release s).
Proof.
  apply all_respect_bind; [apply same_gets|]. intros b. apply all_respect_bind; [|intros _; apply same_sem_receive].
  destruct (bu_global b); [apply same_sem_receive|done].
Qed.
Lemma same_inflight d c : same (atomic (count_inflight d c)).
Proof. apply same_modify. intros h. by apply life_same_conn. Qed.
Lemma same_gauge d name : same (atomic (gauge d name)).
Proof. apply same_modify. intros h. by apply life_same_fields. Qed.
Hint Resolve same_acquire same_release same_inflight same_gauge : resp.
Lemma same_dispatch {A} c name method (call : ctx → nat → P Host A) : (∀ c n, outside (call c n)) → same (dispatch c name method call).
Proof.
  intros Hc. apply all_respect_bind; [apply same_gets|]. intros [[cn s]|]; [|done].
  apply all_respect_bind; [apply same_acquire|]. intros _. apply all_respect_defer; [apply same_release|].
  apply all_respect_bind; [apply same_inflight|]. intros _. apply all_respect_bind; [apply same_gauge|]. intros _.
  apply all_respect_defer; [apply all_respect_bind; [apply same_inflight|intros _; apply same_gauge]|].
  apply all_respect_bind; [apply same_modify; intros h; by apply life_same_jot|]. intros _. by apply outside_same.
Qed.
Lemma same_with_timeout c d : same (with_timeout c d).
Proof. apply all_respect_bind; [apply same_gets|done]. Qed.
Lemma same_realSleep c d : same (realSleep c d).
Proof.
  unfold realSleep. destruct (d <=? 0)%Z; [done|]. apply all_respect_bind; [apply same_gets|]. intros now.
  apply all_respect_bind; [apply same_choice|]. by intros [].
Qed.
Hint Resolve same_with_timeout same_realSleep : resp.
Lemma same_drain c : same (drain cfg c).
Proof.
  unfold drain. apply all_respect_bind; [apply same_modify; intros h; by apply life_same_conn|]. intros _.
  apply all_respect_bind; [apply same_gets|]. intros now. generalize (drain_fuel cfg) as n. intros n.
  induction n as [|n IH]; [done|]. cbn [drain_polls]. apply all_respect_bind; [apply same_gets|]. intros []; [|done]. cbn [negb].
  apply all_respect_bind; [apply same_gets|]. intros t. destruct (negb _); [done|].
  apply all_respect_bind; [apply all_respect_try, same_realSleep|]. by intros [].
Qed.
Lemma same_watch c : same (watch c).
Proof.
  unfold watch. apply all_respect_bind; [apply all_respect_atomic; intros h _; split; [done|by apply life_same_fields]|]. intros w.
  apply all_respect_bind; [|done]. intros gs h _. exists tt, tt. split_and!; [done|done|]. apply all_respect_forget.
  apply all_respect_bind; [|intros _; apply same_modify; intros h'; by apply life_same_fields].
  apply all_respect_blocking. intros h1 a h2 _ E. split; [done|]. destruct (_ || _); [|done]. by injection E as _ <-.
Qed.
Lemma same_answer r v : same (atomic (answer r v)).
Proof. apply same_modify. intros h. by apply life_same_fields. Qed.
Lemma same_cancelWatch w : same (atomic (cancelWatch w)).
Proof. apply same_modify. intros h. by apply life_same_fields. Qed.
Lemma same_curPID name : same (atomic (modify (sup_alter (with_curPID 0%Z) name))).
Proof. apply same_modify. intros h. by apply life_same_sup. Qed.
Lemma same_attachDrain c : same (atomic (attachDrain c)).
Proof. apply same_modify. intros h. by apply life_same_conn. Qed.
Hint Resolve same_drain same_watch same_answer same_cancelWatch same_curPID same_attachDrain : resp.
Lemma life_same_trans h1 h2 h3 : life_same h1 h2 → life_same h2 h3 → life_same h1 h3.
Proof.
  intros [] []. split; [congruence|intros n; rewrite ls_att1; apply ls_att0|congruence|congruence| |].
  - intros c x Hx. destruct (ls_conns0 c x Hx) as (x1 & Hx1 & E1 & D1). destruct (ls_conns1 c x1 Hx1) as (x2 & Hx2 & E2 & D2).
    exists x2. split_and!; [done|congruence|auto].
  - destruct ls_log0 as (a & Ea & Fa), ls_log1 as (b & Eb & Fb). exists (a ++ b). rewrite Eb, Ea, app_assoc. split; [done|by apply Forall_app].
Qed.
Lemma life_same_take name r h : life_same h (take_reload name r h).
Proof. by apply life_same_sup. Qed.

Context {HL : PluginLaws}.

(** ** The supervisor's programs, one by one *)

Lemma hp_bind {A B} (p : P Host A) (k : A → P Host B) (Q : res B → ghost → Prop) g (Q0 : res A → ghost → Prop) :
  hp p Q0 g → (∀ a g', Q0 (Ok a) g' → hp (k a) Q g') → (∀ e g', Q0 (Err e) g' → Q (Err e) g') → hp (p ≫= k) Q g.
Proof. intros Hp Hk He. apply holds_bind. eapply holds_mono; [exact Hp|]. intros [a|e] g'; auto. Qed.
Lemma hp_seq {A B} (p : P Host A) (k : A → P Host B) (Q : res B → ghost → Prop) g :
  same p → (∀ a, hp (k a) Q g) → (∀ e, Q (Err e) g) → hp (p ≫= k) Q g.
Proof. intros Hp Hk He. eapply hp_bind; [by apply hp_same|by intros a g' ->|by intros e g' ->]. Qed.
Lemma hp_quiet {A} (p : P Host A) g : same p → unfailing p → hp p (λ r g', is_ok r = true ∧ g' = g) g.
Proof. intros Hp He. eapply holds_mono; [exact (holds_ends _ _ _ p _ _ _ (hp_same p g Hp) He)|]. by intros r g' [-> E]. Qed.
Lemma hp_calm {A B} (p : P Host A) (k : A → P Host B) (Q : res B → ghost → Prop) g :
  same p → unfailing p → (∀ a, hp (k a) Q g) → hp (p ≫= k) Q g.
Proof.
  intros Hp He Hk. apply holds_bind. eapply holds_mono; [apply holds_ends; [by apply hp_same|exact He]|].
  intros [a|e] g' [-> E]; [apply Hk|done].
Qed.
Lemma hp_try_seq {A B} (p : P Host A) (k : res A → P Host B) (Q : res B → ghost → Prop) g :
  same p → (∀ a, hp (k a) Q g) → hp (try p ≫= k) Q g.
Proof.
  intros Hp Hk. apply holds_bind, holds_try. eapply holds_mono; [by apply hp_same|]. by intros r g' ->.
Qed.
(** After a step whose result is known. *)
Lemma hp_then {B} (p : P Host unit) (k : unit → P Host B) (Q : res B → ghost → Prop) g g' :
  hp p (λ r x, r = Ok tt ∧ x = g') g → hp (k tt) Q g' → hp (p ≫= k) Q g.
Proof.
  intros Hp Hk. eapply hp_bind; [exact Hp| |by intros e x [? _]]. by intros [] x [_ ->].
Qed.
Lemma hp_stuck {A} (Q : res A → ghost → Prop) g : hp (stuck : P Host A) Q g.
Proof. by apply holds_blocking. Qed.

(** What a plugin provides is withdrawn. *)
Lemma life_ok_withdrawn l : life_ok l → life_ok (at_pub false l).
Proof. intros []. split; try done. simpl. intros [?|?]; [|done]. apply lk_pub0. by left. Qed.
Lemma hp_withdraw l f :
  (∀ t k g, k ≠ lf_name l → published t k (f g) = published t k g) → (∀ g, reg_ok g → reg_ok (f g)) →
  (∀ g, reg_ok g → published (lf_type l) (lf_name l) (f g) = false) → life_ok l →
  hp (atomic (on_reg f)) (λ r g, r = Ok tt ∧ g = Actor (at_pub false l)) (Actor l).
Proof.
  intros Hf Hg Hp Hok. apply (hp_reg l false); [|by apply life_ok_withdrawn]. intros h Hk. exists (Ok tt), f.
  split_and!; [done|auto|auto| |done..]. rewrite Hp; [done|apply Hk].
Qed.
(** A change that is not seen. *)
Lemma own_reg_unseen l h f : known l h → (∀ t k g, published t k (f g) = published t k g) → (∀ g, reg_ok g → reg_ok (f g)) →
  own_step l l h (set_reg (f (p_reg h)) h).
Proof.
  intros Hk Hf Hg. pose proof Hk as [[] _ _]. assert (at_pub (lf_pub l) l = l) as El by (by destruct l).
  rewrite <- El at 2. apply own_reg; [done|auto|auto|by rewrite Hf|by rewrite El].
Qed.
Lemma hp_unseen l f : (∀ t k g, published t k (f g) = published t k g) → (∀ g, reg_ok g → reg_ok (f g)) →
  hp (atomic (on_reg f)) (λ r g, r = Ok tt ∧ g = Actor l) (Actor l).
Proof. intros Hf Hg. apply hp_own. intros h Hk. exists l. split; [by apply own_reg_unseen|done]. Qed.
Lemma hp_Deregister l : life_ok l →
  hp (Deregister (lf_name l) (lf_type l)) (λ r g, r = Ok tt ∧ g = Actor (at_pub false l)) (Actor l).
Proof.
  intros Hok. unfold Deregister. case_decide as H1; [|case_decide as H2; [|case_decide as H3; [|case_decide as H4]]].
  - apply hp_withdraw; [intros; apply (published_types (lf_name l)); [|done]; intros; by apply type_Deregister_other| | |done].
    + intros g Hg. unfold reg_ok. simpl. by rewrite type_Deregister_base.
    + intros g Hg. unfold published. rewrite decide_True by done. by apply type_Deregister_withdrawn.
  - eapply hp_then; [apply hp_withdraw; [| | |done]|].
    + intros t k g Hne. apply (published_callers (lf_name l)); [|done]. intros k' Hk'. rewrite elem_of_difference, elem_of_singleton. tauto.
    + done.
    + intros g _. unfold published. rewrite decide_False, decide_True by done. apply bool_decide_eq_false_2. simpl. rewrite elem_of_difference, elem_of_singleton. tauto.
    + by apply hp_unseen.
  - apply hp_withdraw; [intros; apply (published_cancels (lf_name l)); [|done]; intros; by apply lookup_delete_ne|done| |done].
    intros g _. unfold published. rewrite !decide_False, decide_True by done. simpl. by rewrite lookup_delete_eq.
  - apply hp_withdraw; [intros; apply (published_auth (lf_name l)); [|done]; intros; by apply auth_Deregister_other|done| |done].
    intros g _. unfold published. rewrite !decide_False, decide_True by done. apply auth_Deregister_withdrawn.
  - split; [done|]. destruct l, Hok. simpl in *. destruct lf_pub0; [|done]. specialize (lk_type0 eq_refl).
    rewrite !elem_of_cons, elem_of_nil in lk_type0. tauto.
Qed.

(** Nothing is published that is not registered: so it is between the supervisor's calls. *)
Record sound (l : life) : Prop := { sn_ok : life_ok l; sn_settled : lf_reg l = false → lf_pub l = false }.
Definition same_plugin (l l' : life) : Prop := lf_name l' = lf_name l ∧ lf_type l' = lf_type l.
Lemma at_pub_same l : at_pub (lf_pub l) l = l.
Proof. by destruct l. Qed.

Lemma own_refl l h : known l h → own_step l l h h.
Proof.
  intros [Ho Ha Hr]. split; try done; [|by apply log_same].
  intros c x Hx Hd. destruct (decide (cn_owner x = lf_name l)); [left; eauto|right; eauto].
Qed.

Lemma hp_Register l : life_ok l → serving (lf_st l) → lf_pub l = false →
  hp (Register (lf_name l) (lf_type l)) (λ r g, if is_ok r then ∃ b, g = Actor (at_pub b l) ∧ life_ok (at_pub b l) else g = Actor l) (Actor l).
Proof.
  intros Hok Hs Hp.
  assert (lf_type l ∈ ["challenge_type"; "scoring"; "notification"; "auth"] → life_ok (at_pub true l)) as Hok' by (destruct Hok; by split).
  assert (∀ f, lf_type l ∈ ["challenge_type"; "scoring"; "notification"; "auth"] →
    (∀ t k g, k ≠ lf_name l → published t k (f g) = published t k g) → (∀ g, reg_ok g → reg_ok (f g)) →
    hp (atomic (on_reg f)) (λ r g, if is_ok r then ∃ b, g = Actor (at_pub b l) ∧ life_ok (at_pub b l) else g = Actor l) (Actor l)) as Hon.
  { intros f Ht Hf Hg. apply (hp_reg l true); [|auto]. intros h Hk. exists (Ok tt), f. split_and!; [done|auto|auto|done|exists true; auto]. }
  (* A registry that may refuse: it is the same then. *)
  assert (∀ (m : M Host unit), lf_type l ∈ ["challenge_type"; "scoring"; "notification"; "auth"] →
    (∀ h, known l h → ∃ r f, m h = (r, set_reg (f (p_reg h)) h) ∧
      (∀ t k g, k ≠ lf_name l → published t k (f g) = published t k g) ∧ (∀ g, reg_ok g → reg_ok (f g)) ∧
      (is_ok r = false → published (lf_type l) (lf_name l) (f (p_reg h)) = false)) →
    hp (atomic m) (λ r g, if is_ok r then ∃ b, g = Actor (at_pub b l) ∧ life_ok (at_pub b l) else g = Actor l) (Actor l)) as Hmay.
  { intros m Ht Hm. apply hp_own. intros h Hk. destruct (Hm h Hk) as (r & f & -> & Hf & Hg & He). destruct (is_ok r) eqn:Er; simpl.
    - exists (at_pub true l). rewrite Er. split; [|exists true; auto]. apply own_reg; auto.
    - exists (at_pub false l). rewrite Er. split; [|by rewrite <- Hp, at_pub_same].
      apply own_reg; [done|auto|auto| |by apply life_ok_withdrawn]. by rewrite He. }
  unfold Register. case_decide as H1; [|case_decide as H2; [|case_decide as H3; [|case_decide as H4]]].
  - apply Hmay; [rewrite H1; closed|]. intros h Hk. pose proof (type_Register_refused (lf_name l) (challengeTypeAdapter (lf_name l)) (rg_types (p_reg h))) as He.
    destruct (type_Register _ _ _ _) as [r t] eqn:E. exists r, (λ g, with_types (type_Register (lf_name l) (challengeTypeAdapter (lf_name l)) false (rg_types g)).2 g).
    cbn beta. rewrite E. split_and!; [done| | |].
    + intros t' k g Hne. apply (published_types (lf_name l)); [|done]. intros. by apply type_Register_other.
    + intros g Hg. unfold reg_ok. simpl. by rewrite type_Register_base.
    + intros Hr. unfold published. rewrite decide_True by done. destruct r; [done|]. by eapply He.
  - eapply (hp_bind _ _ _ _ (λ r g, g = Actor l)); [|intros [] g ->|by intros e g ->].
    + apply hp_own. intros h Hk. exists l. destruct (Scoring.Register _ _ _ _) as [r t]. split; [|done].
      by apply (own_reg_unseen l h (with_scoring t)).
    + apply Hon; [rewrite H2; closed| |done]. intros t k g Hne. apply (published_callers (lf_name l)); [|done].
      intros k' Hk'. rewrite elem_of_union, elem_of_singleton. tauto.
  - apply hp_seq; [|intros names|done].
    + unfold notifyWants. apply all_respect_bind; [apply same_with_timeout|]. intros c.
      apply all_respect_bind; [apply all_respect_try, same_dispatch, out_Subscriptions|done].
    + apply Hon; [rewrite H3; closed| |done]. intros t k g Hne. apply (published_cancels (lf_name l)); [|done]. intros. by apply lookup_insert_ne.
  - unfold registerAuth. apply hp_seq; [|intros caps|done].
    + unfold pluginAuthCapabilities. apply all_respect_bind; [apply same_with_timeout|]. intros c.
      apply all_respect_bind; [apply all_respect_try, same_dispatch, out_Info|done].
    + destruct (_ && _); [done|]. apply Hmay; [rewrite H4; closed|]. intros h Hk.
      pose proof (auth_Register_refused (lf_name l) caps (rg_auth (p_reg h))) as He.
      destruct (auth_Register _ _ _ _) as [r a] eqn:E. exists r, (λ g, with_auth (auth_Register (lf_name l) caps false (rg_auth g)).2 g).
      cbn beta. rewrite E. split_and!; [done| |done|].
      * intros t' k g Hne. apply (published_auth (lf_name l)); [|done]. intros. by apply auth_Register_other.
      * intros Hr. unfold published. rewrite !decide_False, decide_True by done. destruct r; [done|]. by eapply He.
  - simpl. exists (lf_pub l). by rewrite !at_pub_same.
Qed.

(** The flag that says a provider is registered. *)
Lemma own_flag l h b : known l h → life_ok (at_reg b l) → own_step l (at_reg b l) h (plugin_alter (with_registered b) (lf_name l) h).
Proof.
  intros Hk Hok. apply (own_plugin _ _ _ _ (with_registered b) []); try done; [by rewrite app_nil_r|by rewrite app_nil_r|].
  intros c Hc. by right.
Qed.
Lemma hp_registerReady l name : lf_name l = name → sound l → lf_st l = StateReady →
  hp (registerReady name) (λ r g, r = Ok tt ∧ ∃ a b, g = Actor (at_reg a (at_pub b l)) ∧ sound (at_reg a (at_pub b l))) (Actor l).
Proof.
  intros <- Hs Hst. destruct Hs as [Hok Hset]. assert (serving (lf_st l)) as Hsv by (rewrite Hst; closed).
  assert (∀ a, life_ok (at_reg a l)) as Hflag by (intros a; destruct Hok; by split).
  eapply (hp_bind _ _ _ _ (λ r g, match r with
    | Ok None => g = Actor l ∧ lf_reg l = true
    | Ok (Some t) => g = Actor (at_reg true l) ∧ t = lf_type l ∧ lf_reg l = false
    | Err _ => False end)).
  - apply hp_own. intros h Hk. pose proof Hk as [[(p & Hp & Et & Es & Ec & Er) _ _ _ _ _] _ _]. rewrite Hp, Er.
    destruct (lf_reg l) eqn:Erl; simpl.
    + exists l. split; [by apply own_refl|done].
    + exists (at_reg true l). split; [by apply own_flag|]. by rewrite Et.
  - intros [t|] g; [intros (-> & -> & Hr)|intros [-> Hr]].
    + specialize (Hset Hr). apply holds_bind, holds_try. eapply holds_mono; [apply (hp_Register (at_reg true l)); done|].
      intros [[]|e] g Hg; cbn [is_ok] in Hg.
      * destruct Hg as (b & -> & Hb). split; [done|]. exists true, b. split; [done|]. split; [|done]. by destruct Hb.
      * subst g. eapply holds_mono; [apply (hp_own _ (λ r g, r = Ok tt ∧ g = Actor l))|].
        -- intros h Hk. exists l. split; [|done]. assert (l = at_reg false (at_reg true l)) as El by (rewrite <- Hr; by destruct l).
           rewrite El at 2. apply own_flag; [done|]. by rewrite <- El.
        -- intros r g [-> ->]. split; [done|]. exists false, (lf_pub l). rewrite at_pub_same, <- Hr.
           assert (at_reg (lf_reg l) l = l) as -> by (by destruct l). done.
    + split; [done|]. exists true, (lf_pub l). rewrite <- Hr, at_pub_same. assert (at_reg (lf_reg l) l = l) as -> by (by destruct l). done.
  - by intros e g [].
Qed.

Lemma hp_revert l name : lf_name l = name → sound l →
  hp (revert name) (λ r g, r = Ok tt ∧ g = Actor (at_reg false (at_pub false l))) (Actor l).
Proof.
  intros <- [Hok Hset].
  assert (life_ok (at_reg false l)) as Hok' by (destruct Hok; split; try done; simpl; intros [?|?]; [done|]; apply lk_pub0; by right).
  eapply (hp_bind _ _ _ _ (λ r g, match r with
    | Ok None => g = Actor (at_reg false (at_pub false l))
    | Ok (Some t) => g = Actor (at_reg false l) ∧ t = lf_type l
    | Err _ => False end)).
  - apply hp_own. intros h Hk. pose proof Hk as [[(p & Hp & Et & Es & Ec & Er) _ _ _ _ _] _ _]. rewrite Hp, Er.
    destruct (lf_reg l) eqn:Erl; simpl.
    + exists (at_reg false l). split; [by apply own_flag|]. by rewrite Et.
    + exists l. split; [by apply own_refl|]. f_equal. specialize (Hset eq_refl). destruct l. simpl in *. by subst.
  - intros [t|] g; [intros [-> ->]|intros ->; done]. by apply (hp_Deregister (at_reg false l)).
  - by intros e g [].
Qed.
Lemma sound_reverted l : sound l → sound (at_reg false (at_pub false l)).
Proof. intros [[] _]. split; [split; try done; by intros [?|?]|done]. Qed.

(** Between two launches: no process, nothing published as ready. *)
Record idle_life (l : life) : Prop := {
  il_sound : sound l; il_procs : lf_procs l = []; il_cur : lf_cur l = None; il_st : lf_st l ∈ [StateDiscovered; StateLaunching; StateRestarting; StateUnhealthy; StateFailed; StateStopped]
}.
Record launchable (l : life) : Prop := {
  la_idle : idle_life l; la_st : lf_st l ∈ [StateDiscovered; StateRestarting; StateFailed];
  la_att : (lf_att l < maxAttempts cfg)%Z; la_parked : lf_parked l = false
}.
(** One that is up and published. *)
Record up (c : nat) (l : life) : Prop := {
  up_sound : sound l; up_st : lf_st l = StateReady; up_cur : lf_cur l = Some c; up_procs : lf_procs l = [c];
  up_att : (lf_att l < maxAttempts cfg)%Z; up_parked : lf_parked l = false; up_since : is_Some (lf_since l)
}.
(** One just launched. *)
Record launched (c : nat) (l : life) : Prop := {
  ld_sound : sound l; ld_st : lf_st l = StateLaunching; ld_cur : lf_cur l = None; ld_procs : lf_procs l = [c];
  ld_att : (lf_att l < maxAttempts cfg)%Z; ld_parked : lf_parked l = false
}.
(** What becomes of the supervisor of [l]. *)
Definition then_ (P : life → Prop) (l : life) (g : ghost) : Prop := ∃ l', g = Actor l' ∧ same_plugin l l' ∧ P l'.

Context (Hmax : (0 < maxAttempts cfg)%Z).

Lemma hp_parkUntilReload l name : lf_name l = name → idle_life l → lf_st l = StateFailed →
  hp (parkUntilReload name) (λ r g, ∃ stop, r = Ok stop ∧ then_ (if stop : bool then idle_life else launchable) l g) (Actor l).
Proof.
  intros <- Hi Hst. apply hp_calm; [|apply unfailing_blocking|intros [r|]].
  - apply (same_select _ (λ ev h, (ev, match ev with Some r => take_reload (lf_name l) r h | None => h end))).
    intros [r|] ns h; [|by apply life_same_fields]. eapply life_same_trans; [|apply life_same_take]. by apply life_same_fields.
  - eapply hp_then; [by apply hp_operator|]. apply hp_calm; [apply same_answer|apply unfailing_modify|intros _].
    exists false. split; [done|]. eexists. split; [done|]. split; [done|]. destruct Hi as [[[] ?] ? ? ?].
    split; [|simpl; rewrite Hst; closed|exact Hmax|done]. by split; [split; [split|]|..].
  - exists true. split; [done|]. by exists l.
Qed.
Lemma hp_backoffOrQuarantine l name atCap :
  lf_name l = name → sound l → lf_procs l = [] → lf_cur l = None → lf_st l ∈ [StateLaunching; StateUnhealthy] →
  (atCap = false → (lf_att l + 1 < maxAttempts cfg)%Z) → lf_parked l = false →
  hp (backoffOrQuarantine cfg name atCap)
    (λ r g, ∃ stop, r = Ok stop ∧ then_ (if stop : bool then idle_life else launchable) l g) (Actor l).
Proof.
  intros <- Hs Hpr Hc Hst Hcap Hpk. set (l1 := at_since None (at_att (lf_att l + 1)%Z l)).
  assert (sound l1) as Hs1 by (by destruct Hs as [[] ?]; split; [split|]).
  eapply (hp_bind _ _ _ _ (λ r g, r = Ok (lf_att l + 1)%Z ∧ g = Actor l1)); [by apply hp_failed|intros a g [[= ->] ->]|by intros e g []].
  destruct atCap.
  - eapply hp_then; [by apply hp_revert|]. eapply hp_then; [by apply hp_quarantine|].
    eapply holds_mono; [apply hp_parkUntilReload; [done| |done]|].
    + destruct (sound_reverted _ Hs1) as [[] Hset]. split; [|done|done|closed]. split; [|done].
      split; simpl; [closed|by intros [?|?]|done|by rewrite Hpr; simpl; lia|done].
    + intros r g (stop & -> & l' & -> & Hp & Hl). exists stop. split; [done|]. by exists l'.
  - specialize (Hcap eq_refl). eapply hp_then; [apply hp_transition; [done| |]|].
    + simpl. apply elem_of_cons in Hst as [->| ->%list_elem_of_singleton]; closed.
    + destruct Hs1 as [[] _]. split; simpl in *; [rewrite Hc; closed|intros _; closed|done|done|done].
    + apply hp_calm; [| |intros d].
      * apply all_respect_atomic. intros h _. split; [done|]. unfold backoffDelay. destruct (_ <=? 0)%Z; [done|].
        destruct (p_rand h); [done|]. by apply life_same_fields.
      * intros h r h' [= E]. unfold backoffDelay in E. destruct (_ <=? 0)%Z; [by injection E as <- _|]. destruct (p_rand h); by injection E as <- _.
      * apply hp_try_seq; [apply same_realSleep|]. intros r. exists (negb (is_ok r)). split; [done|].
        exists (at_st StateRestarting l1). split; [done|]. split; [done|].
        assert (idle_life (at_st StateRestarting l1)) as Hi.
        { destruct Hs1 as [[] Hset]. split; [|done|done|closed]. split; [|done].
          split; simpl in *; [rewrite Hc; closed|intros _; closed|done|done|done]. }
        destruct (negb _); [done|]. split; [done|closed|done|done].
Qed.

Lemma without_fresh c l : c ∉ l → without c l = l.
Proof.
  unfold without. induction l as [|x l IH]; intros Hc; [done|]. apply not_elem_of_cons in Hc as [Hne Hc].
  rewrite filter_cons_True by (by intros ->). by rewrite IH.
Qed.
Lemma without_cons c l : without c (c :: l) = without c l.
Proof. unfold without. by rewrite filter_cons_False by (intros ?; done). Qed.

Lemma hp_launch l name : lf_name l = name → life_ok l → length (lf_procs l) ≤ 1 → lf_st l ∉ [StateFailed; StateStopped] →
  (lf_att l < maxAttempts cfg)%Z → lf_parked l = false →
  hp (launch pidfileDir name) (λ r g, match r with
    | Ok c => g = Actor (at_procs (c :: lf_procs l) l) ∧ c ∉ lf_procs l
    | Err _ => g = Actor l end) (Actor l).
Proof.
  intros <- Hok Hlen Hst Hatt Hpk. unfold launch. apply (hp_then _ _ _ _ (Actor l)).
  { apply hp_own. intros h Hk. exists l. split; [|done].
    apply (own_sup _ _ _ _ (λ s, with_launches (S (su_launches s)) s) [Launching (lf_name l)]); try done; [by repeat constructor| |by intros s x t Hx Ht; apply Hx|by destruct l].
    intros Hl. apply log_ok_snoc; [done|]. simpl. destruct Hk as [[_ _ _ -> _ _] _ _]. done. }
  set (Q := λ (r : res nat) g, match r with
    | Ok c => g = Actor (at_procs (c :: lf_procs l) l) ∧ c ∉ lf_procs l | Err _ => g = Actor l end).
  assert (∀ c e, c ∉ lf_procs l → hp (atomic (kill c);; (throw e : P Host nat)) Q (Actor (at_procs (c :: lf_procs l) l))) as Hkill.
  { intros c e Hc. eapply hp_then; [apply hp_kill|]. simpl. f_equal. rewrite without_cons, without_fresh by done. by destruct l. }
  unfold realLaunch. apply hp_calm; [apply same_gets|apply unfailing_gets|intros n].
  assert (life_ok (at_procs (0 :: lf_procs l) l)) as Hok0.
  { destruct Hok. split; try done; try (simpl; lia). }
  destruct (lo_fault _) as [[]|]; [done|..].
  all: eapply hp_bind; [apply hp_start; [done|exact Hok0]|intros c g (c' & [= <-] & -> & Hc)|by intros e g (c & ? & _)]; cbn beta iota.
  - by apply Hkill.
  - by apply Hkill.
  - destruct pidfileDir; [by apply Hkill|done].
  - destruct pidfileDir; [|done]. apply hp_calm; [|apply unfailing_modify|done].
    apply same_modify. intros h. by apply life_same_fields.
Qed.

Lemma then_trans (P : life → Prop) l l1 g : same_plugin l l1 → then_ P l1 g → then_ P l g.
Proof. intros [E1 E2] (l2 & -> & [E3 E4] & HP). exists l2. split; [done|]. split; [split; congruence|done]. Qed.
Lemma hp_then_life {A} (p : P Host A) (P : A → life → Prop) l l1 : same_plugin l l1 →
  hp p (λ r g, ∃ a, r = Ok a ∧ then_ (P a) l1 g) (Actor l1) → hp p (λ r g, ∃ a, r = Ok a ∧ then_ (P a) l g) (Actor l1).
Proof. intros Hs Hp. eapply holds_mono; [exact Hp|]. intros r g (a & -> & Ht). exists a. split; [done|]. by eapply then_trans. Qed.

(** Three outcomes: what each function returns, and what the supervisor is then. *)
Definition or_stop {A} (P : A → life → Prop) (l : life) (r : res A) (g : ghost) : Prop := ∃ a, r = Ok a ∧ then_ (P a) l g.
Lemma or_stop_mono {A} (p : P Host A) (P : A → life → Prop) l l1 : same_plugin l l1 →
  hp p (or_stop P l1) (Actor l1) → hp p (or_stop P l) (Actor l1).
Proof. apply hp_then_life. Qed.

Lemma launching l : launchable l → life_ok (at_st StateLaunching l) ∧ sound (at_st StateLaunching l).
Proof.
  intros [[[[] Hset] Hp Hc _] Hst _ _].
  assert (life_ok (at_st StateLaunching l)) by (split; simpl; [rewrite Hc; closed|intros _; closed|done|done|done]).
  done.
Qed.
Lemma life_ok_one c l : life_ok l → lf_procs l = [] → lf_st l ∉ [StateFailed; StateStopped] → life_ok (at_procs [c] l).
Proof. intros [] Hp Hst. split; try done. simpl. lia. Qed.
Lemma hp_attempts l name : lf_name l = name →
  hp (atomic (gets (sup_get su_attempts 0%Z name))) (λ r g, r = Ok (lf_att l) ∧ g = Actor l) (Actor l).
Proof.
  intros <-. apply hp_own. intros h Hk. exists l. split; [by apply own_refl|]. split; [|done].
  destruct (known_sup l h Hk) as (s & Es & <- & _). unfold sup_get. simpl. by rewrite Es.
Qed.
Lemma hp_launchWithRetry n name l : lf_name l = name → launchable l →
  hp (launchWithRetry cfg pidfileDir n name) (or_stop (λ a, match a with None => idle_life | Some c => launched c end) l) (Actor l).
Proof.
  intros <-. revert l. induction n as [|n IH]; intros l Hl; [apply hp_stuck|].
  pose proof Hl as [[Hs Hpr Hc _] Hst Hatt Hpk]. destruct (launching l Hl) as [Hok1 Hs1]. cbn [launchWithRetry].
  eapply hp_then; [apply hp_transition; [done| |done]|].
  { rewrite !elem_of_cons, elem_of_nil in Hst. destruct Hst as [->|[->|[->|[]]]]; closed. }
  set (l1 := at_st StateLaunching l). apply holds_bind, holds_try. eapply holds_mono.
  { apply (hp_launch l1); [done|done|simpl; rewrite Hpr; simpl; lia|simpl; closed|done|done]. }
  assert (idle_life l1) as Hi1 by (split; [done|done|done|closed]).
  intros [c|e] g; [intros [-> Hnew]|intros ->]; (apply hp_calm; [apply same_gets|apply unfailing_gets|intros []]); cbn beta iota.
  - eapply hp_then; [apply hp_kill|]. exists None. split; [done|]. eexists. split; [done|]. split; [done|].
    simpl. rewrite without_cons, Hpr. split; [|done|done|closed].
    assert (at_procs (without c []) (at_procs [c] l1) = at_procs [] l1) as -> by done. rewrite <- Hpr. by destruct l.
  - exists (Some c). split; [done|]. eexists. split; [done|]. split; [done|]. simpl. rewrite Hpr.
    split; [|done|done|done|done|done]. split; [|apply Hs1]. apply (life_ok_one _ l1); [done|done|simpl; closed].
  - eapply hp_then; [done|]. exists None. split; [done|]. by exists l1.
  - eapply hp_bind; [by apply hp_attempts|intros a g [[= ->] ->]|by intros e' g []].
    eapply hp_bind; [apply hp_backoffOrQuarantine; [done|done|done|done|simpl; closed| |done]| |by intros e' g (b & ? & _)].
    { intros E%Z.leb_gt. simpl in *. lia. }
    intros b g (b' & [= <-] & l2 & -> & Hp2 & H2). destruct b.
    + exists None. split; [done|]. by exists l2.
    + apply (or_stop_mono _ _ l l2); [done|]. rewrite <- (proj1 Hp2 : lf_name l2 = lf_name l). by apply IH.
Qed.

Lemma hp_verifyIdentity l name c : lf_name l = name →
  hp (verifyIdentity name c) (λ r g, is_ok r = true ∧ g = Actor l) (Actor l).
Proof.
  intros <-. apply hp_quiet.
  - unfold verifyIdentity. apply all_respect_bind; [apply same_gets|]. intros t. case_decide; [done|].
    apply all_respect_bind; [apply same_gets|]. intros []; [|done]. cbn [negb].
    apply all_respect_bind; [apply same_with_timeout|]. intros d. apply all_respect_bind; [|done].
    apply all_respect_try, outside_same, out_Info.
  - unfold verifyIdentity. apply unfailing_bind; [apply unfailing_gets|]. intros t. case_decide; [done|].
    apply unfailing_bind; [apply unfailing_gets|]. intros []; [|done]. cbn [negb].
    apply unfailing_bind; [|intros d; apply unfailing_bind; [apply unfailing_try|done]].
    apply unfailing_bind; [apply unfailing_gets|done].
Qed.
Lemma hp_quarantineIdentity l name reason : lf_name l = name → idle_life l → lf_st l = StateLaunching →
  hp (quarantineIdentity name reason) (or_stop (λ stop, if stop : bool then idle_life else launchable) l) (Actor l).
Proof.
  intros <- [Hs Hpr Hc _] Hst. eapply hp_then; [by apply hp_reason|]. eapply hp_then; [by apply hp_revert|].
  eapply hp_then; [apply hp_quarantine; [done|simpl; rewrite Hst; closed|done|done|done]|].
  eapply or_stop_mono; [done|]. apply hp_parkUntilReload; [done| |done].
  destruct (sound_reverted _ Hs) as [[] Hset]. split; [|done|done|closed]. split; [|done].
  split; simpl; [closed|by intros [?|?]|done|by rewrite Hpr; simpl; lia|done].
Qed.

(** A kill of the only process. *)
Lemma hp_kill_one l c : lf_procs l = [c] → hp (atomic (kill c)) (λ r g, r = Ok tt ∧ g = Actor (at_procs [] l)) (Actor l).
Proof. intros E. eapply holds_mono; [apply hp_kill|]. intros r g [-> ->]. by rewrite E, without_cons. Qed.
Lemma sound_procs ps l : sound l → length ps ≤ 2 → (lf_st l ∈ [StateFailed; StateStopped] → ps = []) → sound (at_procs ps l).
Proof. intros [[] Hset] Hl He. by split; [split|]. Qed.

Lemma unfailing_drain c : unfailing (drain cfg c).
Proof.
  unfold drain. apply unfailing_bind; [apply unfailing_modify|]. intros _. apply unfailing_bind; [apply unfailing_gets|].
  intros now. generalize (drain_fuel cfg) as n. intros n. induction n as [|n IH]; [done|]. cbn [drain_polls].
  apply unfailing_bind; [apply unfailing_gets|]. intros []; [|done]. cbn [negb]. apply unfailing_bind; [apply unfailing_gets|].
  intros t. destruct (negb _); [done|]. apply unfailing_bind; [apply unfailing_try|]. by intros [].
Qed.
Lemma hp_teardown l name c : lf_name l = name → sound l → lf_st l = StateReady → lf_procs l = [c] →
  hp (teardown cfg pidfileDir name c) (λ r g, r = Ok tt ∧ then_ idle_life l g) (Actor l).
Proof.
  intros <- Hs Hst Hpr. eapply hp_then; [by apply hp_revert|]. set (l1 := at_reg false (at_pub false l)).
  destruct (sound_reverted _ Hs) as [[] _]. 
  eapply hp_then; [apply (hp_transition l1); [done|simpl; rewrite Hst; closed|]|].
  { split; simpl in *; [|by intros [?|?]|done|done|by intros [?|[?|?%elem_of_nil]%elem_of_cons]%elem_of_cons].
    rewrite Hst in lk_cur0. destruct (lf_cur l); [closed|]. exfalso. apply lk_cur0. closed. }
  apply hp_calm; [apply same_drain| |intros _].
  { apply unfailing_drain. }
  eapply hp_then; [by apply hp_kill_one|]. eapply hp_then; [apply hp_move_cur; [done|closed|done|]|].
  { split; simpl; [closed|by intros [?|?]|done|lia|done]. }
  apply hp_calm; [apply same_curPID|apply unfailing_modify|intros _].
  assert (idle_life (at_cur None (at_st StateStopped (at_procs [] (at_st StateDraining l1))))) as Hi.
  { split; [|done|done|closed]. split; [|done]. split; simpl; [closed|by intros [?|?]|done|lia|done]. }
  assert (then_ idle_life l (Actor (at_cur None (at_st StateStopped (at_procs [] (at_st StateDraining l1)))))) as Ht by (by eexists).
  destruct pidfileDir; [|done]. eapply holds_mono; [apply hp_quiet; [|apply unfailing_modify]|].
  - apply same_modify. intros h. by apply life_same_fields.
  - by intros [[]|e] g [E ->].
Qed.

Lemma unfailing_watch c : unfailing (watch c).
Proof. unfold watch. apply unfailing_bind; [by intros h r h' [= <- _]|]. intros w. by apply unfailing_bind; [apply unfailing_go|]. Qed.
(** Publishing a connection, and the start of its clock. *)
Lemma hp_published l l' name c (m : M Host unit) : lf_name l' = name →
  hp (atomic m) (λ r g, r = Ok tt ∧ g = Actor l') (Actor l) →
  hp (atomic m;; note_ready name c) (λ r g, r = Ok tt ∧ ∃ t, g = Actor (at_since (Some t) l')) (Actor l).
Proof.
  intros <- Hm. eapply hp_then; [exact Hm|]. unfold note_ready.
  eapply hp_bind; [by apply hp_clock|intros [] g (_ & t & ->)|by intros e g []].
  eapply holds_mono; [apply hp_quiet; [apply same_modify; intros h; by apply life_same_sup|apply unfailing_modify]|].
  intros [[]|e] g [E ->]; [|done]. split; [done|]. by exists t.
Qed.
Lemma hp_becomeReady l name c : lf_name l = name → launched c l →
  hp (becomeReady name c) (λ r g, r = Ok tt ∧ ∃ t, g = Actor (at_since (Some t) (at_cur (Some c) (at_st StateReady l)))) (Actor l).
Proof.
  intros <- [[[] _] Hst Hc Hpr _ _]. apply hp_published, hp_move_cur; [done|done|rewrite Hst; closed| |].
  - intros c' [= <-]. left. rewrite Hpr. left.
  - split; simpl; [closed|intros _; closed|done|done|by intros [?|[?|?%elem_of_nil]%elem_of_cons]%elem_of_cons].
Qed.
Lemma hp_swapTo l name c : lf_name l = name → c ∈ lf_procs l → sound l → lf_st l = StateReady →
  hp (swapTo name c) (λ r g, r = Ok tt ∧ ∃ t, g = Actor (at_since (Some t) (at_cur (Some c) l))) (Actor l).
Proof.
  intros <- Hc [[] _] Hst. apply hp_published, hp_swap; [done|done|done|]. split; simpl; [rewrite Hst; closed|done|done|done|done].
Qed.

Lemma hp_afterCrash l name c : lf_name l = name → up c l →
  hp (afterCrash cfg name c) (or_stop (λ stop, if stop : bool then idle_life else launchable) l) (Actor l).
Proof.
  intros <- [Hs Hst Hc Hpr Hatt Hpk Hsi]. pose proof Hs as [[] Hset].
  eapply hp_then; [by apply hp_kill_one|].
  eapply hp_then; [apply hp_move_cur; [done|simpl; rewrite Hst; closed|done|]|].
  { split; simpl; [closed|intros _; closed|done|lia|done]. }
  set (l1 := at_cur None (at_st StateUnhealthy (at_procs [] l))).
  assert (∀ a, sound (at_since None (at_att a l1))) as Hs1.
  { intros a. split; [|done]. split; simpl; [closed|intros _; closed|done|lia|done]. }
  apply hp_calm; [apply same_gets|apply unfailing_gets|intros now].
  eapply hp_bind; [by apply (hp_forgive l1)|intros [] g (_ & a & -> & Ha)|by intros e g []].
  apply hp_calm; [apply same_curPID|apply unfailing_modify|intros _].
  eapply hp_bind; [by apply hp_attempts|intros b g [[= ->] ->]|by intros e g []].
  apply (or_stop_mono _ _ l (at_since None (at_att a l1))); [done|].
  apply hp_backoffOrQuarantine; [done|done|done|done|simpl; closed| |done].
  intros E%Z.leb_gt. simpl in *. lia.
Qed.

Lemma ready_not_ended : StateReady ∉ [StateFailed; StateStopped].
Proof. closed. Qed.
Definition after_serve (o : serveOutcome) : life → Prop := match o with outcomeStopped => idle_life | outcomeCrashed => launchable end.
Lemma hp_serve_stop l l1 w c : same_plugin l l1 → sound l1 → lf_st l1 = StateReady → lf_procs l1 = [c] →
  hp (atomic (cancelWatch w);; teardown cfg pidfileDir (lf_name l) c;; mret outcomeStopped) (or_stop after_serve l) (Actor l1).
Proof.
  intros Hp Hs Hst Hpr. apply hp_calm; [apply same_cancelWatch|apply unfailing_modify|intros _].
  eapply hp_bind; [by apply (hp_teardown l1); [apply Hp|..]|intros [] g [_ Ht]|by intros e g []].
  exists outcomeStopped. split; [done|]. by eapply then_trans.
Qed.
Lemma hp_serve_loop n name l c w : lf_name l = name → up c l →
  hp (serve_loop cfg pidfileDir n name c w) (or_stop after_serve l) (Actor l).
Proof.
  intros <-. revert l c w. induction n as [|n IH]; intros l c w Hup; [apply hp_stuck|]. cbn [serve_loop].
  pose proof Hup as [Hs Hst Hc Hpr Hatt Hpk Hsi].
  apply hp_calm; [|apply unfailing_blocking|intros [| |req]].
  { apply (same_select _ (λ ev h, (ev, match ev with Reload_ r => take_reload (lf_name l) r h | _ => h end))).
    intros [] ns h; [by apply life_same_fields..|]. eapply life_same_trans; [|apply life_same_take]. by apply life_same_fields. }
  - by apply hp_serve_stop.
  - apply hp_calm; [apply same_cancelWatch|apply unfailing_modify|intros _].
    eapply hp_bind; [by apply hp_afterCrash| |by intros e g (b & ? & _)].
    intros b g (b' & [= <-] & Ht). exists (if b then outcomeStopped else outcomeCrashed). split; [done|]. by destruct b.
  - apply holds_bind, holds_try. eapply holds_mono.
    { apply (hp_launch l); [done|apply Hs|rewrite Hpr; simpl; lia|rewrite Hst; closed|done|done]. }
    intros [c'|e] g; [intros [-> Hnew]|intros ->]; (apply hp_calm; [apply same_gets|apply unfailing_gets|intros []]); cbn beta iota.
    + eapply hp_then; [apply hp_kill|]. apply hp_calm; [apply same_answer|apply unfailing_modify|intros _].
      assert (at_procs (without c' (lf_procs (at_procs (c' :: lf_procs l) l))) (at_procs (c' :: lf_procs l) l) = l) as ->.
      { simpl. rewrite without_cons, without_fresh by done. by destruct l. }
      by apply hp_serve_stop.
    + apply hp_calm; [apply same_cancelWatch|apply unfailing_modify|intros _].
      apply hp_calm; [apply same_attachDrain|apply unfailing_modify|intros _].
      rewrite Hpr in Hnew |- *. assert (c' ≠ c) as Hne by (intros ->; apply Hnew; left).
      assert (sound (at_procs [c'; c] l)) as Hs2 by (apply sound_procs; [done|simpl; lia|rewrite Hst; by intros ?%ready_not_ended]).
      eapply hp_bind; [apply (hp_swapTo (at_procs [c'; c] l)); [done|left|done|done]|intros [] g (_ & t & ->)|by intros e g []].
      apply holds_bind, holds_bind. eapply holds_mono; [apply hp_quiet; [apply same_drain|apply unfailing_drain]|].
      intros [[]|e] g [E ->]; [|done]. eapply holds_mono; [apply hp_kill|]. intros r g [-> ->].
      apply hp_calm; [apply same_watch|apply unfailing_watch|intros w'].
      apply hp_calm; [apply same_answer|apply unfailing_modify|intros _].
      simpl. unfold without. rewrite filter_cons_True, filter_cons_False by (auto; intros ?; done).
      apply (or_stop_mono _ _ l (at_procs [c'] (at_since (Some t) (at_cur (Some c') (at_procs [c'; c] l))))); [done|].
      apply (IH (at_procs [c'] (at_since (Some t) (at_cur (Some c') (at_procs [c'; c] l))))).
      split; try done. destruct Hs as [[] Hset]. split; [|done]. split; simpl; [rewrite Hst; closed|done|done|lia|].
      rewrite Hst. by intros ?%ready_not_ended.
    + eapply hp_then; [done|]. apply hp_calm; [apply same_answer|apply unfailing_modify|intros _]. by apply hp_serve_stop.
    + apply hp_calm; [apply same_answer|apply unfailing_modify|intros _]. by apply IH.
Qed.
Lemma hp_serve n name l c : lf_name l = name → launched c l →
  hp (serve cfg pidfileDir n name c) (or_stop after_serve l) (Actor l).
Proof.
  intros <- Hl. pose proof Hl as [[Hok Hset] Hst Hc Hpr Hatt Hpk].
  eapply hp_bind; [by apply hp_becomeReady|intros [] g (_ & t & ->)|by intros e g []].
  set (l1 := at_since (Some t) (at_cur (Some c) (at_st StateReady l))).
  assert (sound l1) as Hs1.
  { destruct Hok. split; [|done]. split; simpl; [closed|intros _; closed|done|done|]. by intros ?%ready_not_ended. }
  eapply hp_bind; [by apply (hp_registerReady l1)|intros [] g (_ & a & b & -> & Hs2)|by intros e g [? _]].
  apply hp_calm; [apply same_watch|apply unfailing_watch|intros w].
  apply (or_stop_mono _ _ l (at_reg a (at_pub b l1))); [done|]. by apply hp_serve_loop.
Qed.

Lemma hp_run_loop n name l : lf_name l = name → launchable l →
  hp (run_loop cfg pidfileDir n name) (λ r g, r = Ok tt ∧ then_ idle_life l g) (Actor l).
Proof.
  intros <-. revert l. induction n as [|n IH]; intros l Hl; [apply hp_stuck|].
  change (run_loop cfg pidfileDir (S n) (lf_name l)) with
    (launched ← launchWithRetry cfg pidfileDir (S n) (lf_name l);
     match launched with
     | None => mret tt
     | Some c =>
         reason ← verifyIdentity (lf_name l) c;
         match reason with
         | Some reason => atomic (kill c);; stop ← quarantineIdentity (lf_name l) reason; if stop : bool then mret tt else run_loop cfg pidfileDir n (lf_name l)
         | None => atomic (attachDrain c);; outcome ← serve cfg pidfileDir (S n) (lf_name l) c;
                   match outcome with outcomeStopped => mret tt | outcomeCrashed => run_loop cfg pidfileDir n (lf_name l) end
         end
     end).
  assert (∀ l1, same_plugin l l1 → launchable l1 →
    hp (run_loop cfg pidfileDir n (lf_name l)) (λ r g, r = Ok tt ∧ then_ idle_life l g) (Actor l1)) as Hagain.
  { intros l1 [E1 E2] H1. rewrite <- E1. eapply holds_mono; [by apply IH|]. intros r g [-> Ht]. split; [done|]. by eapply then_trans. }
  eapply hp_bind; [by apply hp_launchWithRetry| |by intros e g (? & ? & _)].
  intros [c|] g (a & [= <-] & l1 & -> & Hp1 & H1); [|by split; [|exists l1]]. cbn beta iota in H1 |- *.
  pose proof H1 as [Hs1 Hst1 Hc1 Hpr1 Hatt1 Hpk1]. rewrite <- (proj1 Hp1) in Hagain |- *.
  eapply hp_bind; [by apply hp_verifyIdentity|intros reason g [_ ->]|by intros e g [? _]].
  destruct reason as [reason|].
  - eapply hp_then; [by apply hp_kill_one|].
    eapply hp_bind; [apply (hp_quarantineIdentity (at_procs [] l1)); [done| |done]| |by intros e g (? & ? & _)].
    { split; [|done|done|simpl; rewrite Hst1; closed]. by apply sound_procs; [|simpl; lia|]. }
    intros stop g (a & [= <-] & l2 & -> & Hp2 & H2). assert (same_plugin l l2) as Hp3 by (destruct Hp1, Hp2; split; simpl in *; congruence).
    destruct stop; [by split; [|exists l2]|]. by apply Hagain.
  - apply hp_calm; [apply same_attachDrain|apply unfailing_modify|intros _].
    eapply hp_bind; [by apply hp_serve| |by intros e g (? & ? & _)].
    intros o g (a & [= <-] & l2 & -> & Hp2 & H2). assert (same_plugin l l2) as Hp3 by (destruct Hp1, Hp2; split; simpl in *; congruence).
    destruct o; [by split; [|exists l2]|]. by apply Hagain.
Qed.

Lemma idle_states st :
  st ∈ [StateDiscovered; StateLaunching; StateRestarting; StateUnhealthy; StateFailed; StateStopped] → st ∉ [StateReady; StateDraining].
Proof. destruct st; closed. Qed.
(** The end of a supervisor: nothing of its plugin is left. *)
Lemma hp_retire (f : Host → Host) l : (∀ h, life_same h (f h)) → idle_life l → lf_reg l = false → lf_pub l = false →
  hp (atomic (modify f)) (λ r g, r = Ok tt ∧ g = Idle) (Actor l).
Proof.
  intros Hf [Hs Hpr Hc Hst] Hr Hp. apply holds_atomic. intros gs h HI. exists Idle. split_and!; [|done..].
  apply (inv_same (Idle :: gs) h); [apply Hf|]. pose proof (inv_known (Actor l) l _ _ eq_refl HI) as [[(p & Hn & Et & Es & Ec & Er) Hpub _ _ _ _] Hal _].
  destruct HI as [HN HLv HB HR HP HG HRG]. split; [|intros m Hm; apply HLv; by right|done| | |done|done].
  - unfold names in HN |- *. simpl in HN. by apply NoDup_cons in HN as [_ HN].
  - intros name q Hq Hnot. destruct (decide (name = lf_name l)) as [->|Hne].
    + rewrite Hn in Hq. injection Hq as <-. split; [congruence|congruence|rewrite Et|rewrite Es].
      * destruct (published _ _ _); [|done]. by rewrite Hp in Hpub; specialize (Hpub eq_refl).
      * by apply idle_states.
    + apply HR; [done|]. simpl. by rewrite not_elem_of_cons.
  - intros c x Hx Hd. destruct (HP c x Hx Hd) as (m & [->|Hm]%elem_of_cons & Em & Hin); [|by exists m]. rewrite Hpr in Hin. by apply elem_of_nil in Hin.
Qed.
Lemma hp_run n name l : lf_name l = name → launchable l →
  hp (forget (run cfg pidfileDir n name)) (λ _ g, lives_of g = []) (Actor l).
Proof.
  intros <- Hl. apply holds_forget, holds_defer, holds_defer. eapply holds_mono; [by apply hp_run_loop|].
  intros r g (-> & l1 & -> & Hp1 & H1). rewrite <- (proj1 Hp1). eapply holds_mono; [apply hp_revert; [done|apply H1]|].
  intros r g [-> ->]. eapply holds_mono; [apply hp_retire; [intros h; by apply life_same_sup| |done|done]|by intros r g [-> ->]].
  destruct H1 as [Hs ? ? ?]. split; [by apply sound_reverted|done..].
Qed.


(** ** Boot *)

(** A step about the next plugin to launch: it is launched no more, tracked, or has a supervisor. *)
Lemma inv_book n x bs g' ls new gs h h' ns :
  lives_of g' = ls → booked_of g' = new ++ bs → (lf_name <$> ls) ++ new.*1 = [] ∨ (lf_name <$> ls) ++ new.*1 = [n] →
  (∀ m, m ≠ n → p_plugins h' !! m = p_plugins h !! m) → (∀ m, m ≠ n → attempts_of m h' = attempts_of m h) →
  p_reg h' = p_reg h → p_conns h' = p_conns h → p_log h' = p_log h ++ ns → Forall idle_note ns →
  (∀ l, l ∈ ls → owns l h') → (∀ b, b ∈ new → fresh b.1 b.2 h') →
  (∀ p, p_plugins h' !! n = Some p → n ∉ (lf_name <$> ls) → at_rest n p (p_reg h')) →
  plugins_inv (Booting None ((n, x) :: bs) :: gs) h → plugins_inv (g' :: gs) h'.
Proof.
  intros El Eb Hnew Ep Ea Er Ec Elog Hns Hls Hb Hrest [HN HLv HB HR HP HG HRG].
  assert (lives (g' :: gs) = ls ++ lives gs) as EL by (unfold lives; by rewrite bind_cons, El).
  assert (booked (g' :: gs) = new ++ (bs ++ booked gs)) as EB by (unfold booked; by rewrite bind_cons, Eb, app_assoc).
  assert (lives (Booting None ((n, x) :: bs) :: gs) = lives gs) as EL0 by done.
  assert (booked (Booting None ((n, x) :: bs) :: gs) = (n, x) :: (bs ++ booked gs)) as EB0 by done.
  unfold names in HN. rewrite EL0 in *. rewrite EB0 in *. rewrite fmap_cons in HN.
  assert ((n ∉ (lf_name <$> lives gs)) ∧ (n ∉ (bs ++ booked gs).*1)) as [Hn1 Hn2].
  { apply NoDup_app in HN as (_ & Hd & [Hn _]%NoDup_cons). split; [|done]. intros Hin. eapply Hd; [exact Hin|left]. }
  assert (∀ l, l ∈ lives gs → lf_name l ≠ n) as Hother by (intros l Hl <-; apply Hn1; by apply list_elem_of_fmap_2).
  split.
  - unfold names. rewrite EL, EB, !fmap_app, <- app_assoc. rewrite fmap_app in HN, Hn2.
    assert (NoDup ((lf_name <$> lives gs) ++ bs.*1 ++ (booked gs).*1)) as HN'.
    { apply NoDup_app in HN as (H1 & H2 & [_ H3]%NoDup_cons). apply NoDup_app. split_and!; [done| |done].
      intros m Hm Hm'. eapply H2; [exact Hm|by right]. }
    rewrite (Permutation_app_swap_app (lf_name <$> lives gs) new.*1), app_assoc.
    destruct Hnew as [-> | ->]; [done|]. simpl. apply NoDup_cons. split; [|done]. rewrite elem_of_app. tauto.
  - rewrite EL. intros l [Hl|Hl]%elem_of_app; [auto|]. destruct (HLv l Hl). pose proof (Hother l Hl).
    split; rewrite ?Er, ?Ec, ?Elog, ?status_idle by done; [by rewrite Ep|done|by rewrite Ea|done..].
  - rewrite EB. intros b [Hin|Hin]%elem_of_app; [auto|]. assert (b.1 ≠ n) as Hne by (intros <-; apply Hn2; by apply list_elem_of_fmap_2).
    destruct (HB b ltac:(by right)). split; rewrite ?Er, ?Elog, ?status_idle by done; [by rewrite Ep|done..].
  - rewrite EL, fmap_app. intros m p Hm Hnot. rewrite elem_of_app in Hnot. destruct (decide (m = n)) as [->|Hne]; [apply Hrest; tauto|].
    rewrite Er. rewrite Ep in Hm by done. apply HR; tauto.
  - rewrite Ec, EL. intros c y Hc Hd. destruct (HP c y Hc Hd) as (l & Hl & ?). exists l. split; [|done]. apply elem_of_app. by right.
  - rewrite Elog. by apply log_ok_idle.
  - by rewrite Er.
Qed.
Lemma booked_fresh n x bs gs h : plugins_inv (Booting None ((n, x) :: bs) :: gs) h → fresh n x h.
Proof. intros [_ _ HB _ _ _ _]. apply (HB (n, x)). left. Qed.
Lemma booked_rest n x bs gs h p : plugins_inv (Booting None ((n, x) :: bs) :: gs) h → p_plugins h !! n = Some p → at_rest n p (p_reg h).
Proof.
  intros [HN _ _ HR _ _ _] Hp. apply HR; [done|]. intros Hin. unfold names in HN. simpl in HN.
  apply NoDup_app in HN as (_ & Hd & _). eapply Hd; [exact Hin|left].
Qed.

Lemma hp_failLoad n ptype reason bs :
  hp (atomic (failLoad n ptype reason)) (λ r g, r = Ok tt ∧ g = Booting None bs) (Booting None ((n, None) :: bs)).
Proof.
  apply holds_atomic. intros gs h HI. exists (Booting None bs). destruct (booked_fresh _ _ _ _ _ HI) as [Hn Hpub _]. simpl in Hn.
  split_and!; [|done..]. unfold failLoad. rewrite Hn. simpl. rewrite lookup_alter_eq, lookup_insert_eq. simpl.
  eapply (inv_book n None bs _ [] [] gs h _ [_]); [done|done|by left| |done|done|done|reflexivity|by repeat constructor|by intros ? ?%elem_of_nil|by intros ? ?%elem_of_nil| |exact HI].
  - intros m Hne. simpl. by rewrite !lookup_alter_ne, lookup_insert_ne.
  - intros p Hp _. simpl in Hp. rewrite !lookup_alter_eq, lookup_insert_eq in Hp. injection Hp as <-.
    split; [done|done|apply Hpub|simpl; closed].
Qed.
Lemma hp_track n bs : hp (atomic (track n)) (λ r g, r = Ok tt ∧ g = Booting None ((n, Some "") :: bs)) (Booting None ((n, None) :: bs)).
Proof.
  apply holds_atomic. intros gs h HI. exists (Booting None ((n, Some "") :: bs)). destruct (booked_fresh _ _ _ _ _ HI) as [Hn Hpub Hst].
  split_and!; [|done..].
  eapply (inv_book n None bs _ [] [(n, Some "")] gs h _ []); [done|done|by right| |done|done|done|by rewrite app_nil_r|done|by intros ? ?%elem_of_nil| | |exact HI].
  - intros m Hne. simpl. by rewrite lookup_insert_ne.
  - intros b ->%list_elem_of_singleton. split; [|done|done]. simpl. rewrite lookup_insert_eq. by eexists.
  - intros p Hp _. simpl in Hp. rewrite lookup_insert_eq in Hp. injection Hp as <-. split; [done|done|apply Hpub|simpl; closed].
Qed.
Lemma hp_setType n t ptype bs : hp (atomic (setType n ptype)) (λ r g, r = Ok tt ∧ g = Booting None ((n, Some ptype) :: bs)) (Booting None ((n, Some t) :: bs)).
Proof.
  apply holds_atomic. intros gs h HI. exists (Booting None ((n, Some ptype) :: bs)). destruct (booked_fresh _ _ _ _ _ HI) as [(p & Hn & Es & _) Hpub Hst].
  pose proof (booked_rest _ _ _ _ _ _ HI Hn) as [Hc Hr _ Hs]. split_and!; [|done..].
  eapply (inv_book n (Some t) bs _ [] [(n, Some ptype)] gs h _ []); [done|done|by right| |done|done|done|by rewrite app_nil_r|done|by intros ? ?%elem_of_nil| | |exact HI].
  - intros m Hne. simpl. by rewrite lookup_alter_ne.
  - intros b ->%list_elem_of_singleton. split; [|done|done]. simpl. rewrite lookup_alter_eq, Hn. by eexists.
  - intros q Hq _. simpl in Hq. rewrite lookup_alter_eq, Hn in Hq. injection Hq as <-. split; [done|done|apply Hpub|done].
Qed.
(** The life of a supervisor that has not begun. *)
Definition new_life (name ptype : string) : life :=
  {| lf_name := name; lf_type := ptype; lf_st := StateDiscovered; lf_cur := None; lf_reg := false; lf_pub := false;
     lf_procs := []; lf_att := 0; lf_parked := false; lf_since := None |}.
Lemma new_life_launchable name ptype : launchable (new_life name ptype).
Proof. split; [|simpl; closed|done|done]. split; [|done|done|simpl; closed]. split; [|done]. split; simpl; [closed|by intros [?|?]|done|lia|done]. Qed.
Lemma hp_newSupervisor n ptype bs :
  hp (atomic (newSupervisor n ptype)) (λ r g, r = Ok tt ∧ g = Booting (Some (new_life n ptype)) bs) (Booting None ((n, Some ptype) :: bs)).
Proof.
  apply holds_atomic. intros gs h HI. exists (Booting (Some (new_life n ptype)) bs). destruct (booked_fresh _ _ _ _ _ HI) as [(p & Hn & Es & Et) Hpub Hst].
  pose proof (booked_rest _ _ _ _ _ _ HI Hn) as [Hc Hr _ Hs]. split_and!; [|done..].
  eapply (inv_book n (Some ptype) bs _ [new_life n ptype] [] gs h _ []); [done|done|by right|done| |done|done|by rewrite app_nil_r|done| |by intros ? ?%elem_of_nil| |exact HI].
  - intros m Hne. unfold attempts_of. simpl. by rewrite lookup_insert_ne.
  - intros l ->%list_elem_of_singleton. split; simpl; [by exists p|by rewrite Hpub| |by simpl in Hst; rewrite Hst|by intros c [?%elem_of_nil|?]|apply new_life_launchable].
    exists 0%Z. split; [|done]. unfold attempts_of. simpl. by rewrite lookup_insert_eq.
  - intros q _ []. simpl. left.
Qed.
Lemma hp_go n name ptype bs :
  hp (go (run cfg pidfileDir n name)) (λ r g, r = Ok tt ∧ g = Booting None bs) (Booting (Some (new_life name ptype)) bs).
Proof.
  intros gs h HI. exists (Booting None bs), (Actor (new_life name ptype)). split_and!; [|done|].
  - destruct HI. by split.
  - apply (hp_run n name (new_life name ptype)); [done|apply new_life_launchable].
Qed.

Context (config_of : Manifest → res (gmap string string)).
(** A plugin that is not launched after all. *)
Lemma inv_unbook b bs gs h : plugins_inv (Booting None (b :: bs) :: gs) h → plugins_inv (Booting None bs :: gs) h.
Proof.
  intros [HN HLv HB HR HP HG HRG]. split; try done.
  - unfold names in *. simpl in HN. apply NoDup_app in HN as (H1 & H2 & [_ H3]%NoDup_cons). apply NoDup_app. split_and!; [done| |done].
    intros m Hm Hm'. eapply H2; [exact Hm|by right].
  - intros x Hx. apply HB. by right.
Qed.
Lemma hp_launch_all n tokens found :
  hp (launch_all cfg pidfileDir config_of n tokens found) (λ r g, lives_of g = []) (Booting None ((λ d, (d_name d, None)) <$> found)).
Proof.
  revert tokens. induction found as [|d found IH]; intros tokens; [done|]. cbn [launch_all].
  rewrite fmap_cons. unfold launchDiscovered. destruct (default true (head tokens)); cbn [negb].
  - destruct (config_of (d_manifest d)) as [|e].
    + apply holds_bind. eapply hp_then; [apply hp_track|]. eapply hp_then; [apply hp_setType|]. eapply hp_then; [apply hp_newSupervisor|].
      eapply holds_mono; [apply hp_go|]. intros r g [-> ->]. apply IH.
    + eapply hp_then; [apply hp_failLoad|]. apply IH.
  - change (hp (launch_all cfg pidfileDir config_of n (tail tokens) found) (λ r g, lives_of g = []) (Booting None ((d_name d, None) :: ((λ d, (d_name d, None)) <$> found)))).
    eapply holds_weaken; [apply IH|done|]. intros gs h. apply inv_unbook.
Qed.
Lemma hp_Boot n Enabled tokens found (bs : list discovered) : found = Ok bs →
  hp (forget (Boot cfg pidfileDir config_of n Enabled tokens found)) (λ _ g, lives_of g = []) (Booting None ((λ d, (d_name d, None)) <$> bs)).
Proof.
  intros ->. apply holds_forget. unfold Boot. destruct Enabled; [|done]. cbn [negb]. destruct bs as [|d bs]; [done|].
  apply hp_seq; [apply same_modify; intros h; by apply life_same_fields| |done]. intros _. apply (hp_launch_all n tokens (d :: bs)).
Qed.

(** ** Everybody else *)

(** What runs beside the boot: calls, reloads, the stop; and a process dies, time passes, a caller gives up. *)
Inductive host_program : prog Host unit → Prop :=
  | hp_call {A} c name method (call : ctx → nat → P Host A) : (∀ c n, outside (call c n)) → host_program (forget (dispatch c name method call))
  | hp_score fallback c mode params solves : host_program (forget (Score fallback c mode params solves))
  | hp_reload c name : host_program (forget (Reload c name))
  | hp_stop c : host_program (forget (Stop c))
  | hp_crash c : host_program (forget (atomic (modify (conn_alter (with_exited true) c))))
  | hp_time (d : duration) : (0 ≤ d)%Z → host_program (forget (atomic (modify (λ h, set_now (p_now h + d)%Z h))))
  | hp_cancel i : host_program (forget (atomic (modify (λ h, set_ctx ({[i]} ∪ p_ctx h) h)))).

Lemma same_reload c name : same (reload c name).
Proof.
  unfold reload. apply all_respect_bind.
  { apply all_respect_atomic. intros h _. split; [done|]. eapply (life_same_trans _ (set_asked (S (p_asked h)) h)); [by apply life_same_fields|].
    by apply (life_same_sup (λ s, with_reloadCh ({[p_asked h]} ∪ su_reloadCh s) s)). }
  intros r. apply all_respect_bind.
  { apply all_respect_blocking. intros h a h' _ E. split; [done|]. destruct (negb _); [by injection E as _ <-|].
    destruct (select_ready _ h) as [[e h1]|] eqn:Es; [|done]. apply select_choice in Es as [_ [ns ->]]. injection E as _ <-.
    eapply life_same_trans; [|apply life_same_take]. by apply life_same_fields. }
  intros [[]|e]; [|done]. apply all_respect_bind; [apply same_choice|]. by intros [[]|e].
Qed.
Lemma same_program p : host_program p → same p.
Proof.
  intros [A c name method call Hc|fallback c mode params solves|c name|c|c|d _|i]; apply all_respect_forget.
  - by apply same_dispatch.
  - unfold Score. apply all_respect_bind; [apply same_gets|]. intros []; [|done]. cbn [negb].
    apply all_respect_bind; [apply all_respect_try, same_dispatch, out_Value|done].
  - unfold Reload. apply all_respect_bind; [apply same_gets|]. intros [[] []]; try done; apply same_reload.
  - unfold Stop. apply all_respect_bind; [apply same_gets|]. intros [running names].
    apply all_respect_bind; [destruct running; [apply same_modify; intros h; by apply life_same_fields|done]|]. intros _. cbn [snd].
    induction names as [|name names IH]; [done|]. cbn [wait_done]. apply all_respect_bind; [apply same_choice|]. by intros [].
  - apply same_modify. intros h. by apply life_same_conn.
  - apply same_modify. intros h. by apply life_same_fields.
  - apply same_modify. intros h. by apply life_same_fields.
Qed.

(** The process starts with no plugin; the registries hold the built-ins. *)
Definition nothing_yet (h : Host) : Prop :=
  p_plugins h = ∅ ∧ p_sups h = ∅ ∧ p_conns h = [] ∧ p_log h = [] ∧ reg_ok (p_reg h) ∧ ∀ t name, published t name (p_reg h) = false.
Lemma idle_bind {A} (f : ghost → list A) k : f Idle = [] → replicate k Idle ≫= f = [].
Proof. intros E. induction k as [|k IH]; [done|]. cbn [replicate]. by rewrite bind_cons, E. Qed.
Lemma inv_start (bs : list discovered) k h : NoDup (d_name <$> bs) → nothing_yet h →
  plugins_inv (Booting None ((λ d, (d_name d, None)) <$> bs) :: replicate k Idle) h.
Proof.
  intros Hbs (Ep & _ & Ec & El & Hr & Hpub).
  assert (lives (Booting None ((λ d, (d_name d, None)) <$> bs) :: replicate k Idle) = []) as EL by (unfold lives; rewrite bind_cons; by apply (idle_bind lives_of)).
  assert (booked (Booting None ((λ d, (d_name d, None)) <$> bs) :: replicate k Idle) = (λ d, (d_name d, None)) <$> bs) as EB.
  { unfold booked. rewrite bind_cons. assert (replicate k Idle ≫= booked_of = []) as -> by (by apply idle_bind). apply app_nil_r. }
  split.
  - unfold names. rewrite EL, EB, <- list_fmap_compose. done.
  - rewrite EL. by intros l ?%elem_of_nil.
  - rewrite EB. intros b (d & -> & _)%list_elem_of_fmap. split; [by rewrite Ep|done|by rewrite El].
  - rewrite Ep. done.
  - rewrite Ec. done.
  - rewrite El. intros before n after E. by destruct before.
  - done.
Qed.
Lemma host_run n Enabled tokens (bs : list discovered) clients h ps' h' :
  NoDup (d_name <$> bs) → nothing_yet h → Forall host_program clients →
  rtc pool_step (forget (Boot cfg pidfileDir config_of n Enabled tokens (Ok bs)) :: clients, h) (ps', h') →
  ∃ gs, Forall2 (λ p g, hp p (λ _ g, lives_of g = []) g) ps' gs ∧ plugins_inv gs h'.
Proof.
  intros Hbs Hh Hc Hr.
  destruct (holds_pool (λ g, lives_of g = []) plugins_inv (λ _ _, True) plugins_inv_perm
    (forget (Boot cfg pidfileDir config_of n Enabled tokens (Ok bs)) :: clients)
    (Booting None ((λ d, (d_name d, None)) <$> bs) :: replicate (length clients) Idle) h ps' h') as (gs & Hgs & HI & _); [|by apply inv_start|exact Hr|by exists gs].
  constructor; [by apply hp_Boot|]. clear Hr. induction Hc as [|p ps Hp _ IH]; simpl; [constructor|]. constructor; [|done].
  eapply holds_mono; [apply hp_same, same_program, Hp|]. by intros r g ->.
Qed.

(** ** The guarantees *)

(** The live processes of a plugin. *)
Definition is_alive (name : string) (h : Host) (c : nat) : bool :=
  match p_conns h !! c with Some x => bool_decide (cn_owner x = name) && negb (cn_exited x) | None => false end.
Definition alive (name : string) (h : Host) : list nat := filter (λ c, is_alive name h c = true) (seq 0 (length (p_conns h))).
Record plugin_ok (name : string) (p : managed) (h : Host) : Prop := {
  po_cur : is_Some (mg_cur p) ↔ mg_m p ∈ [StateReady; StateDraining];
  po_pub : published (mg_ptype p) name (p_reg h) = true → serving (mg_m p);
  po_alive : length (alive name h) ≤ 2;
  po_ended : mg_m p ∈ [StateFailed; StateStopped] → alive name h = []
}.
Lemma alive_of name c h : c ∈ alive name h ↔ ∃ x, p_conns h !! c = Some x ∧ cn_owner x = name ∧ cn_exited x = false.
Proof.
  unfold alive, is_alive. rewrite list_elem_of_filter, elem_of_seq. split.
  - intros [Hc _]. destruct (p_conns h !! c) as [x|]; [|done]. apply andb_prop in Hc as [?%bool_decide_eq_true ?%negb_true_iff]. by exists x.
  - intros (x & Hx & Ho & Hd). rewrite Hx, Ho, Hd. split; [by rewrite bool_decide_true|]. apply lookup_lt_Some in Hx. lia.
Qed.
Lemma alive_nil name h : (∀ c, c ∉ alive name h) → alive name h = [].
Proof. destruct (alive name h) as [|c l]; [done|]. intros Hc. destruct (Hc c). left. Qed.
Lemma inv_plugin gs h name p : plugins_inv gs h → p_plugins h !! name = Some p → plugin_ok name p h.
Proof.
  intros [HN HLv HB HR HP HG HRG] Hp. destruct (decide (name ∈ (lf_name <$> lives gs))) as [(l & -> & Hl)%list_elem_of_fmap|Hn].
  - destruct (HLv l Hl) as [(q & Hq & Et & Es & Ec & Er) Hpub _ _ _ [K1 K2 _ K4 K5]]. rewrite Hp in Hq. injection Hq as <-.
    assert (∀ c, c ∈ alive (lf_name l) h → c ∈ lf_procs l) as Hal.
    { intros c (x & Hx & Ho & Hd)%alive_of. destruct (HP c x Hx Hd) as (l' & Hl' & En & Hin). rewrite Ho in En.
      assert (l' = l) as ->; [|done]. unfold names in HN. apply NoDup_app in HN as [HN _].
      apply list_elem_of_lookup in Hl as [i Hi], Hl' as [j Hj].
      assert (i = j) as ->; [|congruence]. eapply (NoDup_lookup _ i j (lf_name l) HN); rewrite list_lookup_fmap; [by rewrite Hi|by rewrite Hj, <- En]. }
    split.
    + rewrite Ec, Es. destruct (lf_cur l); split; [done|eauto|by intros []|done].
    + rewrite Et, Es. intros E. apply K2. right. auto.
    + etrans; [|exact K4]. apply submseteq_length, NoDup_submseteq; [|exact Hal]. apply NoDup_filter, NoDup_seq.
    + rewrite Es. intros E. apply alive_nil. intros c Hc%Hal. rewrite K5 in Hc by done. by apply elem_of_nil in Hc.
  - destruct (HR name p Hp Hn) as [Ec Er Hpub Es].
    assert (alive name h = []) as Hal.
    { apply alive_nil. intros c (x & Hx & Ho & Hd)%alive_of. destruct (HP c x Hx Hd) as (l & Hl & En & _). apply Hn. rewrite <- Ho, <- En.
      by apply list_elem_of_fmap_2. }
    split; [rewrite Ec; split; [by intros []|done]|by rewrite Hpub|rewrite Hal; simpl; lia|done].
Qed.
Lemma inv_ended gs h name : plugins_inv gs h → Forall (λ g, lives_of g = []) gs → alive name h = [].
Proof.
  intros [HN HLv HB HR HP HG HRG] Hg. apply alive_nil. intros c (x & Hx & Ho & Hd)%alive_of. destruct (HP c x Hx Hd) as (l & Hl & _).
  assert (lives gs = []) as E. { unfold lives. clear -Hg. induction Hg as [|g gs E _ IH]; [done|]. by rewrite bind_cons, E, IH. }
  rewrite E in Hl. by apply elem_of_nil in Hl.
Qed.
End Rules.
