(* ===== verification/PluginLife.v ===== *)
(** * The life of plugins: the theorems

    The guarantees of [PluginRules] for a host that boots what discovery found, with
    concrete runs; and where the host falls short of what its comments promise. *)

From S2P Require Import Prelude Interleave Env Scoring Challenges AuthApi PluginFiles PluginFileRules Plugins PluginRules.

(** What the supervisors of the process are given: the configuration with its defaults, and
    whether there is a directory for pidfiles. *)
Section Guarantees.
Context `{PluginProcesses} {HL : PluginLaws} (c : superConfig) (pidfileDir : bool) (config_of : Manifest → res (gmap string string)).
Context (parse : string → res Manifest) (range : gmap string ConfigKey → list (string * ConfigKey)).

Lemma default_attempts : (0 < maxAttempts (with_defaults c))%Z.
Proof. unfold with_defaults. simpl. destruct (Z.leb_spec (maxAttempts c) 0); lia. Qed.
(** The host and what runs beside it. *)
Definition booted (n : nat) (Enabled : bool) (tokens : list bool) (root : res (option (list dir_entry))) : prog Host unit :=
  forget (Boot (with_defaults c) pidfileDir config_of n Enabled tokens (discoverPlugins parse range root)).
Lemma booted_run n Enabled tokens root clients h ps' h' :
  nothing_yet h → Forall host_program clients →
  rtc pool_step (booted n Enabled tokens root :: clients, h) (ps', h') →
  ∃ gs, Forall2 (λ p g, holds (λ g, lives_of g = []) (plugins_inv (with_defaults c)) (λ _ _, True) p (λ _ g, lives_of g = []) g) ps' gs ∧
    plugins_inv (with_defaults c) gs h'.
Proof.
  intros Hh Hc Hr. unfold booted in Hr. destruct (discoverPlugins parse range root) as [found|e] eqn:E.
  - eapply (host_run (with_defaults c)); [exact HL|apply default_attempts|by eapply discoverPlugins_NoDup|exact Hh|exact Hc|exact Hr].
  - assert (forget (Boot (with_defaults c) pidfileDir config_of n Enabled tokens (Err e)) =
      forget (Boot (with_defaults c) pidfileDir config_of n false tokens (Ok []))) as Eb by (by destruct Enabled).
    rewrite Eb in Hr. eapply (host_run (with_defaults c)); [exact HL|apply default_attempts| |exact Hh|exact Hc|exact Hr]. constructor.
Qed.

(** C31: Under every interleaving of the boot, supervisors, calls, reloads, crashes and the stop: no
    illegal transition is ever attempted; a connection is published exactly while its
    plugin is ready or draining; what a plugin provides can be reached only while it is
    launching, ready, unhealthy or restarting; a plugin has at most two live processes, none once
    it has failed or stopped; and when everything has ended no process is left. *)
Theorem plugin_lifecycle n Enabled tokens root clients h ps' h' :
  nothing_yet h → Forall host_program clients →
  rtc pool_step (booted n Enabled tokens root :: clients, h) (ps', h') →
  (∀ name from next, IllegalTransition name from next ∉ p_log h') ∧
  (∀ name p, p_plugins h' !! name = Some p → plugin_ok name p h') ∧
  (Forall (λ p, p = Ret tt) ps' → ∀ name, alive name h' = []).
Proof.
  intros Hh Hc Hr. destruct (booted_run _ _ _ _ _ _ _ _ Hh Hc Hr) as (gs & Hgs & HI). split_and!.
  - intros name from next (before & after & E)%list_elem_of_split. exact (pi_log _ _ _ HI _ _ _ E).
  - intros name p. by apply (inv_plugin (with_defaults c) gs).
  - intros Hend name. apply (inv_ended (with_defaults c) gs); [done|]. by eapply holds_ended.
Qed.

(** C33: Under the same interleavings, a plugin is only ever launched while its failed attempts in a row,
    crashes included, are fewer than the cap, and never while it is quarantined: only an operator's
    reload lifts a quarantine; and a crash forgives earlier failures only when the plugin has been
    ready for the configured time, by the clock: since it was last put in service, with no
    failed attempt in between. *)
Theorem crash_loops_end n Enabled tokens root clients h ps' h' before e after :
  nothing_yet h → Forall host_program clients →
  rtc pool_step (booted n Enabled tokens root :: clients, h) (ps', h') → p_log h' = before ++ e :: after →
  match e with
  | Launching name => ((status name before).1.1 < maxAttempts (with_defaults c))%Z ∧ (status name before).1.2 = false
  | Forgiven name now => ∃ since, (status name before).2 = Some since ∧ (healthStable (with_defaults c) ≤ now - since)%Z
  | _ => True
  end.
Proof.
  intros Hh Hc Hr E. destruct (booted_run _ _ _ _ _ _ _ _ Hh Hc Hr) as (gs & Hgs & HI).
  pose proof (pi_log _ _ _ HI _ _ _ E) as Hn. by destruct e.
Qed.
End Guarantees.

(** ** A host to run *)

(** Every launch succeeds but those of [crashy].  The host's second process reports another type if it is
    [turncoat], its first if it is [late]. *)
Definition owner_of (h : Host) (c : nat) : string := match p_conns h !! c with Some x => cn_owner x | None => "" end.
#[export] Instance demo_processes : PluginProcesses := {|
  spawned name n := {| lo_pid := 100 + Z.of_nat n; lo_infoClient := true;
                       lo_fault := if decide (name = "crashy") then Some HandshakeFails else None |};
  rpc_Info _ c := atomic (gets (λ h, {| in_Type := if existsb (λ l, bool_decide (l = (owner_of h c, c))) [("turncoat", 1); ("late", 0)] then "auth" else "scoring"; in_Name := owner_of h c;
                                        in_Abi := "1.1"; in_Capabilities := [] |}));
  rpc_Subscriptions _ _ := mret []; rpc_Notify _ _ _ := mret true;
  rpc_Value i _ _ _ _ _ := mret i; rpc_CheckFlag _ _ _ _ _ := mret true;
  rpc_ValidateConfig f _ _ := mret {| cv_OK := true; cv_FieldErrors := ∅; cv_Normalized := f |};
  challengeTypeAdapter _ := builtinType |}.
#[export] Instance demo_laws : PluginLaws.
Proof. split; try done. intros c n. by apply all_respect_atomic. Qed.

Definition demo_manifest (name : string) : Manifest :=
  {| m_Name := name; m_Type := "scoring"; m_ABI := "1.1"; m_Version := "1"; m_Executable := "run"; m_Description := "";
     m_Override := false; m_Config := ∅ |}.
Definition demo_entry (name : string) : dir_entry :=
  {| de_Name := name; de_IsDir := true; de_manifest := Contents name; de_stat := λ _, Some {| fi_IsRegular := true; fi_OwnerExec := true |} |}.
Definition demo_parse (data : string) : res Manifest := Ok (demo_manifest data).
Definition demo_cfg : superConfig := {| maxAttempts := 2; baseBackoff := 0; maxBackoff := 0; healthStable := 0; drainTimeout := 0 |}.
Definition demo_boot (names : list string) : prog Host unit :=
  booted demo_cfg false (λ _, Ok ∅) demo_parse map_to_list 8 true [] (Ok (Some (demo_entry <$> names))).
(** Two calls per plugin, three in all. *)
Definition demo_host (choices : list nat) : Host := New 2 3 0 0 [] choices.
Lemma demo_nothing choices : nothing_yet (demo_host choices).
Proof.
  split_and!; try done.
  - intros k e. unfold demo_host. simpl. intros [[<- <-]|[Hk [[<- <-]|[_ ?]]%lookup_insert_Some]]%lookup_insert_Some; done.
  - intros t name. unfold published, demo_host. repeat case_decide; try done.
    + unfold types_published. simpl. destruct (_ !! name) as [e|] eqn:E; [|done].
      apply lookup_insert_Some in E as [[<- <-]|[_ [[<- <-]|[_ ?]]%lookup_insert_Some]]; done.
    + unfold auth_published. simpl. destruct (_ !! name) as [e|] eqn:E; [|done]. by apply lookup_singleton_Some in E as [<- <-].
Qed.
Definition look (name : string) (h : Host) : option (State * option nat * bool * string) :=
  (λ p, (mg_m p, mg_cur p, mg_registered p, mg_reason p)) <$> p_plugins h !! name.
Definition ask_score : prog Host unit := forget (Score true Background "scorer" {| sc_Initial := 100; sc_Min := 1; sc_Decay := 1 |} 3).
Definition crash (c : nat) : prog Host unit := forget (atomic (modify (conn_alter (with_exited true) c))).

(** Called, crashed, relaunched, and stopped in the end; and a plugin that never starts. *)
Definition life_turns : list (nat * nat) :=
  [(0, 100); (4, 100); (1, 100); (2, 100); (5, 100); (4, 100); (3, 2); (4, 100); (6, 100); (3, 100)].
Definition a_life : list (prog Host unit) * Host :=
  advances life_turns [demo_boot ["scorer"]; ask_score; crash 0; forget (Stop Background)] (demo_host []).
Definition a_loop : list (prog Host unit) * Host := advances [(0, 100); (1, 100)] [demo_boot ["crashy"]] (demo_host []).

Lemma a_life_runs : rtc pool_step (demo_boot ["scorer"] :: [ask_score; crash 0; forget (Stop Background)], demo_host []) (a_life.1, a_life.2).
Proof. rewrite <- surjective_pairing. apply advances_sound. Qed.
Lemma a_loop_runs : rtc pool_step (demo_boot ["crashy"] :: [], demo_host []) (a_loop.1, a_loop.2).
Proof. rewrite <- surjective_pairing. apply advances_sound. Qed.

Lemma plugin_lifecycle_witness :
  look "scorer" a_life.2 = Some (StateStopped, None, false, "") ∧ length (p_conns a_life.2) = 2 ∧
  (∀ name, alive name a_life.2 = []) ∧ (∀ name p, p_plugins a_life.2 !! name = Some p → plugin_ok name p a_life.2).
Proof.
  pose proof (plugin_lifecycle demo_cfg false (λ _, Ok ∅) demo_parse map_to_list 8 true [] (Ok (Some (demo_entry <$> ["scorer"])))
    [ask_score; crash 0; forget (Stop Background)] (demo_host []) a_life.1 a_life.2 (demo_nothing [])) as H.
  destruct H as (_ & Hok & Hend); [repeat constructor|apply a_life_runs|].
  split; [vm_compute; reflexivity|]. split; [vm_compute; reflexivity|]. split; [|exact Hok]. apply Hend.
  replace a_life.1 with (replicate 7 (Ret tt : prog Host unit)) by (vm_compute; reflexivity). repeat constructor.
Defined.
(** A crash after ninety seconds of service, which forgives what failed before. *)
Definition a_minute : prog Host unit := forget (atomic (modify (λ h, set_now (p_now h + 90 * Second)%Z h))).
Definition a_streak : list (prog Host unit) * Host :=
  advances [(0, 100); (3, 100); (1, 100); (2, 100); (4, 100); (3, 100)] [demo_boot ["scorer"]; a_minute; crash 0] (demo_host []).
Lemma a_streak_runs : rtc pool_step (demo_boot ["scorer"] :: [a_minute; crash 0], demo_host []) (a_streak.1, a_streak.2).
Proof. rewrite <- surjective_pairing. apply advances_sound. Qed.

(** Two attempts, the configured cap; the second failure quarantines, and nothing is launched after it.
    And a streak: the plugin had served since the moment it was ready. *)
Lemma crash_loops_end_witness :
  p_log a_loop.2 = [Moved "crashy" StateDiscovered StateLaunching; Launching "crashy"; Killed 0; FailedAttempt "crashy";
    Moved "crashy" StateLaunching StateRestarting; Moved "crashy" StateRestarting StateLaunching; Launching "crashy"; Killed 1;
    FailedAttempt "crashy"; Moved "crashy" StateLaunching StateFailed; Quarantined "crashy"] ∧
  ((status "crashy" (take 6 (p_log a_loop.2))).1.1 < 2)%Z ∧
  (∃ since, (status "scorer" (take 6 (p_log a_streak.2))).2 = Some since ∧
    (healthStable (with_defaults demo_cfg) ≤ 90 * Second - since)%Z).
Proof.
  assert (p_log a_loop.2 = take 6 (p_log a_loop.2) ++ Launching "crashy" :: drop 7 (p_log a_loop.2)) as E by (vm_compute; reflexivity).
  assert (p_log a_streak.2 = take 6 (p_log a_streak.2) ++ Forgiven "scorer" (90 * Second) :: drop 7 (p_log a_streak.2)) as F
    by (vm_compute; reflexivity).
  split; [vm_compute; reflexivity|]. split.
  - exact (proj1 (crash_loops_end demo_cfg false (λ _, Ok ∅) demo_parse map_to_list 8 true [] (Ok (Some (demo_entry <$> ["crashy"])))
      [] (demo_host []) a_loop.1 a_loop.2 _ (Launching "crashy") _ (demo_nothing []) (Forall_nil_2 _) a_loop_runs E)).
  - refine (crash_loops_end demo_cfg false (λ _, Ok ∅) demo_parse map_to_list 8 true [] (Ok (Some (demo_entry <$> ["scorer"])))
      [a_minute; crash 0] (demo_host []) a_streak.1 a_streak.2 _ (Forgiven "scorer" (90 * Second)) _ (demo_nothing []) _ a_streak_runs F).
    constructor; [by apply hp_time|]. constructor; [apply hp_crash|constructor].
Defined.

(** ** Where the comments promise more *)

(** A reload of a ready plugin swaps in a binary that reports another type: what a launch checks, and
    would quarantine, a reload does not. *)
Definition a_swap : list (prog Host unit) * Host :=
  advances [(0, 100); (2, 100); (1, 100); (2, 100); (1, 100)] [demo_boot ["turncoat"]; forget (Reload Background "turncoat")] (demo_host []).
Lemma reload_skips_identity :
  look "turncoat" a_swap.2 = Some (StateReady, Some 1, true, "") ∧
  fst <$> Prelude.run (verifyIdentity "turncoat" 1) a_swap.2 = Some (Ok (Some "the binary reports another type"%string)).
Proof. vm_compute. done. Qed.

(** The reason of a quarantine is shown for good: also of the plugin that serves after the reload. *)
Definition a_return : list (prog Host unit) * Host :=
  advances [(0, 100); (2, 100); (1, 100); (2, 100); (1, 100)] [demo_boot ["late"]; forget (Reload Background "late")] (demo_host []).
Lemma reason_outlives_quarantine :
  Snapshot a_return.2 = [{| st_Name := "late"; st_Type := "scoring"; st_State := StateReady; st_Reason := "the binary reports another type" |}].
Proof. vm_compute. done. Qed.

(** A stop taken for a crash: the watcher closes its channel on a stop too, and [select] may
    take that case.  The process is killed with no drain, while its provider can still be reached, and another is launched
    before the supervisor ends; the plugin is never stopped. *)
Definition a_stop : list (prog Host unit) * Host :=
  advances [(0, 100); (2, 100); (1, 2); (3, 100); (2, 3)] [demo_boot ["scorer"]; forget (Stop Background)] (demo_host [1]).
Lemma stop_taken_for_crash :
  (p_stop a_stop.2 = true ∧ last (p_log a_stop.2) = Some (Killed 0) ∧ published "scoring" "scorer" (p_reg a_stop.2) = true ∧
   cn_drained <$> p_conns a_stop.2 !! 0 = Some false) ∧
  (let '(ps, h) := advances [(2, 100); (1, 100)] a_stop.1 a_stop.2 in
   length (p_conns h) = 2 ∧ look "scorer" h = Some (StateLaunching, None, false, "")).
Proof. vm_compute. done. Qed.

(** A call admitted while the plugin was ready starts when its process has been killed and the plugin stopped. *)
Definition a_late_call : list (prog Host unit) * Host :=
  advances [(0, 100); (3, 100); (1, 5); (2, 2); (4, 100); (3, 100); (1, 100)] [demo_boot ["scorer"]; ask_score; forget (Stop Background)] (demo_host [0; 0]).
Lemma call_after_kill :
  drop 5 (p_log a_late_call.2) = [Killed 0; Moved "scorer" StateDraining StateStopped; Called "scorer" "Value" 0].
Proof. vm_compute. done. Qed.

(** While a crashed plugin waits to be relaunched its provider stays in its registry. *)
Definition a_restart : list (prog Host unit) * Host :=
  advances [(0, 100); (2, 100); (1, 100); (3, 100); (2, 10)] [demo_boot ["scorer"]; crash 0] (demo_host []).
Lemma restarting_stays_registered :
  look "scorer" a_restart.2 = Some (StateRestarting, None, true, "") ∧ published "scoring" "scorer" (p_reg a_restart.2) = true.
Proof. vm_compute. done. Qed.

(** A stop before the boot has got to launching finds nothing to stop, and returns; the plugins are launched after
    it, and run on. *)
Definition an_early_stop : list (prog Host unit) * Host :=
  advances [(1, 100); (0, 100); (2, 100)] [demo_boot ["scorer"]; forget (Stop Background)] (demo_host []).
Lemma stop_before_boot :
  ended <$> an_early_stop.1 !! 1 = Some true ∧ p_stop an_early_stop.2 = false ∧ look "scorer" an_early_stop.2 = Some (StateReady, Some 0, true, "").
Proof. vm_compute. done. Qed.
