(* ===== verification/PluginBudget.v ===== *)
(** * The budget of plugin calls

    Under every interleaving the semaphores count exactly the slots that calls hold, so a
    plugin has no more calls in flight than its cap and all of them together no more than the
    global one; and nothing is left over once all have returned. *)

From S2P Require Import Prelude Interleave Env Scoring Challenges AuthApi PluginFiles PluginFileRules Plugins PluginRules PluginLife.

(** ** Who holds what *)

(** How often [x] occurs. *)
Definition occ `{EqDecision A} (x : A) (l : list A) : nat := length (filter (λ y, y = x) l).
Lemma occ_app `{EqDecision A} (x : A) l k : occ x (l ++ k) = occ x l + occ x k.
Proof. unfold occ. by rewrite filter_app, length_app. Qed.
Lemma occ_nil `{EqDecision A} (x : A) : occ x [] = 0.
Proof. done. Qed.
Lemma occ_cons `{EqDecision A} (x y : A) l : occ x (y :: l) = (if decide (y = x) then 1 else 0) + occ x l.
Proof. unfold occ. rewrite filter_cons. by destruct (decide _). Qed.
Lemma occ_one `{EqDecision A} (x y : A) : occ x [y] = if decide (y = x) then 1 else 0.
Proof. rewrite occ_cons, occ_nil. lia. Qed.
Lemma occ_le_length `{EqDecision A} (x : A) l : occ x l ≤ length l.
Proof. apply length_filter. Qed.
Lemma occ_none `{EqDecision A} (x : A) l : (∀ y, y ∈ l → y ≠ x) → occ x l = 0.
Proof.
  induction l as [|y l IH]; intros H; [done|]. rewrite occ_cons, decide_False by (apply H; left). apply IH. intros z Hz. apply H. by right.
Qed.
Lemma occ_elem `{EqDecision A} (x : A) l : x ∈ l → 1 ≤ occ x l.
Proof. intros (a & b & ->)%list_elem_of_split. rewrite occ_app, occ_cons, decide_True by done. lia. Qed.
Lemma occ_perm `{EqDecision A} (x : A) l k : l ≡ₚ k → occ x l = occ x k.
Proof. unfold occ. by intros ->. Qed.
(** Distinct values occur no more often than there are occurrences. *)
Lemma occ_sum `{EqDecision A} (l xs : list A) : NoDup xs → sum_list_with (λ x, occ x l) xs ≤ length l.
Proof.
  intros Hn. induction l as [|y l IH].
  - simpl. induction xs as [|x xs IHx]; [done|]. simpl. apply NoDup_cons in Hn as [_ Hn]. by apply IHx.
  - assert (∀ zs, y ∉ zs → sum_list_with (λ x, occ x (y :: l)) zs = sum_list_with (λ x, occ x l) zs) as Hne.
    { induction zs as [|z zs IHz]; intros Hy; [done|]. simpl. rewrite occ_cons, decide_False, IHz by set_solver. done. }
    simpl. destruct (decide (y ∈ xs)) as [(a & b & ->)%list_elem_of_split|Hy]; [|rewrite Hne by done; lia].
    apply NoDup_app in Hn as (_ & Ha & [Hb _]%NoDup_cons). rewrite sum_list_with_app in *. simpl in *.
    rewrite !Hne, occ_cons, decide_True by set_solver. lia.
Qed.

(** The part of a thread: how many connections it has seen, the plugins it is still to track, the plugin
    it calls with the semaphore, the slots it holds, the connection it is counted at, and
    whether the gauge counts it. *)
Record part := Part {
  pa_seen : nat; pa_booked : list string; pa_call : option (string * nat); pa_slots : list nat;
  pa_conn : option nat; pa_gauge : bool
}.
Definition conns_of (g : part) : list nat := option_list (pa_conn g).
Definition gauges_of (g : part) : list string :=
  if pa_gauge g then match pa_call g with Some c => [c.1] | None => [] end else [].

Section Budget.
Context `{PluginProcesses} {HL : PluginLaws} (cfg : superConfig) (pidfileDir : bool) (config_of : Manifest → res (gmap string string)).
(** The budget, which never changes. *)
Context (b : budget) (gcap : nat).

Definition plugin_cap : nat := Z.to_nat (if (bu_perPluginCap b <=? 0)%Z then 64%Z else bu_perPluginCap b).

Record part_ok (h : Host) (g : part) : Prop := {
  pk_seen : pa_seen g ≤ length (p_conns h);
  pk_call : ∀ name s, pa_call g = Some (name, s) → ∃ p, p_plugins h !! name = Some p ∧ mg_sem p = s;
  pk_conn : ∀ c, pa_conn g = Some c → c < pa_seen g;
  pk_slots : ∀ i, i ∈ pa_slots g → i < length (p_sems h);
  pk_gauge : pa_gauge g = true → ∃ name s, pa_call g = Some (name, s) ∧ s ∈ pa_slots g ∧ ∀ i, bu_global b = Some i → i ∈ pa_slots g
}.
Record plugin_fits (h : Host) (p : managed) : Prop := {
  pf_sem : ∃ s, p_sems h !! mg_sem p = Some s ∧ sm_cap s = plugin_cap;
  pf_cur : ∀ c, mg_cur p = Some c → c < length (p_conns h)
}.
Record budget_inv (gs : list part) (h : Host) : Prop := {
  bi_budget : p_budget h = b;
  bi_sems : ∀ i s, p_sems h !! i = Some s → sm_taken s = occ i (gs ≫= pa_slots) ∧ sm_taken s ≤ sm_cap s;
  bi_conns : ∀ c x, p_conns h !! c = Some x → cn_inflight x = Z.of_nat (occ c (gs ≫= conns_of));
  bi_gauge : ∀ name, gauge_of name h = Z.of_nat (occ name (gs ≫= gauges_of));
  bi_parts : ∀ g, g ∈ gs → part_ok h g;
  bi_plugins : ∀ name p, p_plugins h !! name = Some p → plugin_fits h p;
  bi_global : ∀ i, bu_global b = Some i → ∃ s, p_sems h !! i = Some s ∧ sm_cap s = gcap;
  bi_booked : NoDup (gs ≫= pa_booked);
  bi_fresh : ∀ name, name ∈ gs ≫= pa_booked → p_plugins h !! name = None
}.
Lemma budget_inv_perm gs gs' h : gs ≡ₚ gs' → budget_inv gs h → budget_inv gs' h.
Proof.
  intros Hp []. split; [done| | | |intros g; rewrite <- Hp; auto|done|done| |].
  - intros i s Hi. rewrite <- (occ_perm i (gs ≫= pa_slots)) by (by rewrite Hp). auto.
  - intros c x Hc. rewrite <- (occ_perm c (gs ≫= conns_of)) by (by rewrite Hp). auto.
  - intros name. rewrite <- (occ_perm name (gs ≫= gauges_of)) by (by rewrite Hp). auto.
  - by rewrite <- Hp.
  - intros name. rewrite <- Hp. auto.
Qed.
Abbreviation hb := (holds (λ g, pa_slots g = [] ∧ pa_conn g = None ∧ pa_gauge g = false) budget_inv (λ _ _, True)).

(** Everything known of the host stays known. *)
Record grows (h h' : Host) : Prop := {
  gr_conns : length (p_conns h) ≤ length (p_conns h');
  gr_sems : ∀ i s, p_sems h !! i = Some s → ∃ s', p_sems h' !! i = Some s' ∧ sm_cap s' = sm_cap s;
  gr_plugins : ∀ name p, p_plugins h !! name = Some p → ∃ p', p_plugins h' !! name = Some p' ∧ mg_sem p' = mg_sem p
}.
Lemma grows_sems_length h h' : grows h h' → length (p_sems h) ≤ length (p_sems h').
Proof.
  intros [_ Hs _]. destruct (decide (length (p_sems h) = 0)) as [->|Hn]; [lia|].
  destruct (lookup_lt_is_Some_2 (p_sems h) (pred (length (p_sems h))) ltac:(lia)) as [s E].
  destruct (Hs _ _ E) as (s' & E' & _). apply lookup_lt_Some in E'. lia.
Qed.
Lemma part_ok_grows h h' g : grows h h' → part_ok h g → part_ok h' g.
Proof.
  intros Hg []. pose proof (grows_sems_length _ _ Hg). destruct Hg as [Hc Hs Hp].
  split; [lia| |done| |done].
  - intros name s E. destruct (pk_call0 _ _ E) as (p & Hq & <-). eauto.
  - intros i Hi. specialize (pk_slots0 i Hi). lia.
Qed.
Lemma plugin_fits_grows h h' p : grows h h' → plugin_fits h p → plugin_fits h' p.
Proof.
  intros [Hc Hs Hp] [(s & E & Ec) Hcur]. split; [|intros c E'; specialize (Hcur c E'); lia].
  destruct (Hs _ _ E) as (s' & ? & ?). exists s'. split; [done|congruence].
Qed.

(** A step that changes the thread's own part by what it does to the host. *)
Record own_change (g g' : part) (h h' : Host) : Prop := {
  oc_grows : grows h h';
  oc_budget : p_budget h' = p_budget h;
  oc_sems : ∀ i s', p_sems h' !! i = Some s' →
    (∃ s, p_sems h !! i = Some s ∧ sm_taken s' + occ i (pa_slots g) = sm_taken s + occ i (pa_slots g') ∧ (sm_taken s ≤ sm_cap s → sm_taken s' ≤ sm_cap s')) ∨
    (length (p_sems h) ≤ i ∧ sm_taken s' = 0 ∧ pa_slots g' = pa_slots g);
  oc_conns : ∀ c x', p_conns h' !! c = Some x' →
    (∃ x, p_conns h !! c = Some x ∧ (cn_inflight x' + Z.of_nat (occ c (conns_of g)) = cn_inflight x + Z.of_nat (occ c (conns_of g')))%Z) ∨
    (length (p_conns h) ≤ c ∧ cn_inflight x' = 0%Z ∧ conns_of g' = conns_of g);
  oc_gauge : ∀ name, (gauge_of name h' + Z.of_nat (occ name (gauges_of g)) = gauge_of name h + Z.of_nat (occ name (gauges_of g')))%Z;
  oc_part : part_ok h' g';
  oc_plugins : ∀ name p', p_plugins h' !! name = Some p' → plugin_fits h' p' ∨
    ∃ p, p_plugins h !! name = Some p ∧ mg_sem p' = mg_sem p ∧ (mg_cur p' = mg_cur p ∨ mg_cur p' = None);
  oc_booked : (pa_booked g' = pa_booked g ∧ ∀ name, p_plugins h !! name = None → p_plugins h' !! name = None) ∨
    ∃ n, pa_booked g = n :: pa_booked g' ∧ ∀ name, name ≠ n → p_plugins h !! name = None → p_plugins h' !! name = None
}.
Lemma part_occ_slots g h i : part_ok h g → length (p_sems h) ≤ i → occ i (pa_slots g) = 0.
Proof. intros [] Hi. apply occ_none. intros j Hj ->. specialize (pk_slots0 _ Hj). lia. Qed.
Lemma part_occ_conns g h c : part_ok h g → length (p_conns h) ≤ c → occ c (conns_of g) = 0.
Proof.
  intros [] Hc. apply occ_none. unfold conns_of. destruct (pa_conn g) as [k|]; intros j Hj; [|by apply elem_of_nil in Hj].
  apply list_elem_of_singleton in Hj as ->. intros ->. specialize (pk_conn0 _ eq_refl). lia.
Qed.
Lemma occ_bind_none `{EqDecision A} (f : part → list A) x gs : (∀ g, g ∈ gs → occ x (f g) = 0) → occ x (gs ≫= f) = 0.
Proof.
  induction gs as [|g gs IH]; intros Hz; [done|]. rewrite bind_cons, occ_app, (Hz g) by left. apply IH. intros k Hk. apply Hz. by right.
Qed.
Lemma inv_change g g' gs h h' : own_change g g' h h' → budget_inv (g :: gs) h → budget_inv (g' :: gs) h'.
Proof.
  intros [Hgr Hb Hs Hc Hg Hpt Hpl Hbk] [Ib Is Ic Ig Ip Il Io In If].
  split.
  - congruence.
  - intros i s' Hi. rewrite bind_cons, occ_app. destruct (Hs i s' Hi) as [(s & Ei & Et & Hle)|(Hi' & Et & Esl)].
    + destruct (Is i s Ei) as [E1 E2]. rewrite bind_cons, occ_app in E1. split; [lia|auto].
    + rewrite Et, Esl, (part_occ_slots g h) by (done || apply Ip; left). rewrite occ_bind_none; [lia|].
      intros k Hk. apply (part_occ_slots k h); [apply Ip; by right|done].
  - intros c x' Hx. rewrite bind_cons, occ_app. destruct (Hc c x' Hx) as [(x & Ex & Et)|(Hx' & Et & Ecn)].
    + specialize (Ic c x Ex). rewrite bind_cons, occ_app in Ic. lia.
    + rewrite Et, Ecn, (part_occ_conns g h) by (done || apply Ip; left). rewrite occ_bind_none; [done|].
      intros k Hk. apply (part_occ_conns k h); [apply Ip; by right|done].
  - intros name. rewrite bind_cons, occ_app. specialize (Ig name). specialize (Hg name). rewrite bind_cons, occ_app in Ig. lia.
  - intros k [->|Hk]%elem_of_cons; [done|]. eapply part_ok_grows; [exact Hgr|]. apply Ip. by right.
  - intros name p' Hp'. destruct (Hpl name p' Hp') as [?|(p & Hp & Es & Ecur)]; [done|].
    destruct (plugin_fits_grows _ _ _ Hgr (Il name p Hp)) as [F1 F2]. split; [by rewrite Es|].
    intros c E. destruct Ecur as [E'|E']; [apply F2; congruence|congruence].
  - intros i Hi. destruct (Io i Hi) as (s & E & Ecap). destruct (gr_sems _ _ Hgr i s E) as (s' & E' & Ecap'). exists s'. split; [done|congruence].
  - rewrite bind_cons in In |- *. destruct Hbk as [[-> _]|(n & E & _)]; [done|]. rewrite E in In. by apply NoDup_cons in In as [_ ?].
  - rewrite bind_cons in In, If |- *. intros name Hn. destruct Hbk as [[E Hb']|(n & E & Hb')]; rewrite E in *; [by apply Hb', If|].
    apply Hb'; [|apply If; by right]. intros ->. by apply NoDup_cons in In as [[] _].
Qed.
Lemma hb_atomic {A} (m : M Host A) (Q : res A → part → Prop) g :
  (∀ gs h, budget_inv (g :: gs) h → ∃ g', own_change g g' h (m h).2 ∧ Q (m h).1 g') → hb (atomic m) Q g.
Proof.
  intros Hm. apply holds_atomic. intros gs h HI. destruct (Hm gs h HI) as (g' & Hc & HQ). exists g'. split_and!; [by eapply inv_change|done|done].
Qed.
Lemma hb_blocking {A} (f : Host → option (A * Host)) (Q : res A → part → Prop) g :
  (∀ gs h a h', budget_inv (g :: gs) h → f h = Some (a, h') → ∃ g', own_change g g' h h' ∧ Q (Ok a) g') → hb (blocking f) Q g.
Proof.
  intros Hf. apply holds_blocking. intros gs h a h' HI E. destruct (Hf gs h a h' HI E) as (g' & Hc & HQ). exists g'. split_and!; [by eapply inv_change|done|done].
Qed.

(** What moves no slot, counts no call and publishes no connection. *)
Record steady (h h' : Host) : Prop := {
  sy_budget : p_budget h' = p_budget h; sy_sems : p_sems h' = p_sems h; sy_gauge : p_gauge h' = p_gauge h;
  sy_conns : cn_inflight <$> p_conns h' = cn_inflight <$> p_conns h;
  sy_plugins : ∀ name, mg_sem <$> p_plugins h' !! name = mg_sem <$> p_plugins h !! name;
  sy_cur : ∀ name p' c, p_plugins h' !! name = Some p' → mg_cur p' = Some c → mg_cur <$> p_plugins h !! name = Some (Some c)
}.
Lemma steady_grows h h' : steady h h' → grows h h'.
Proof.
  intros [_ Es _ Ec Ep _]. split.
  - apply (f_equal length) in Ec. rewrite !length_fmap in Ec. lia.
  - rewrite Es. eauto.
  - intros name p Hp. specialize (Ep name). rewrite Hp in Ep. destruct (p_plugins h' !! name) as [p'|]; [|done]. simplify_eq/=. eauto.
Qed.
Lemma change_grown g gs h h' : budget_inv (g :: gs) h → grows h h' → part_ok h' g.
Proof. intros HI Hg. eapply part_ok_grows; [exact Hg|]. apply (bi_parts _ _ HI). left. Qed.
Lemma steady_change g gs h h' : budget_inv (g :: gs) h → steady h h' → own_change g g h h'.
Proof.
  intros HI Hs. pose proof (steady_grows _ _ Hs) as Hgr. destruct Hs as [Eb Es Eg Ec Ep Ecur]. split; try done.
  - intros i s'. rewrite Es. intros Hi. left. exists s'. split_and!; [done|lia|done].
  - intros c x' Hx. left. pose proof (f_equal (.!! c) Ec) as E. simpl in E. rewrite !list_lookup_fmap, Hx in E.
    destruct (p_conns h !! c) as [x|]; [|done]. simplify_eq/=. exists x. split; [done|lia].
  - intros name. unfold gauge_of. rewrite Eg. lia.
  - by eapply change_grown.
  - intros name p' Hp. right. specialize (Ep name). rewrite Hp in Ep. destruct (p_plugins h !! name) as [p|] eqn:E; [|done]. simplify_eq/=.
    exists p. split_and!; [done|done|]. destruct (mg_cur p') as [c|] eqn:Ecu; [|by right]. left. specialize (Ecur _ _ _ Hp Ecu). rewrite E in Ecur. by simplify_eq/=.
  - left. split; [done|]. intros name Hn. specialize (Ep name). rewrite Hn in Ep. by destruct (p_plugins h' !! name).
Qed.
(** A thread with no part of its own. *)
Definition apart : part := Part 0 [] None [] None false.
Lemma part_ok_apart h : part_ok h apart.
Proof. split; simpl; [lia|done|done|by intros i ?%elem_of_nil|done]. Qed.
Lemma inv_apart gs h : budget_inv gs h ↔ budget_inv (apart :: gs) h.
Proof.
  split; intros [Ib Is Ic Ig Ip Il Io In If]; split; try done.
  - intros g [->|Hg]%elem_of_cons; [apply part_ok_apart|auto].
  - intros g Hg. apply Ip. by right.
Qed.
Lemma steady_inv gs h h' : budget_inv gs h → steady h h' → budget_inv gs h'.
Proof. intros HI%inv_apart Hs. apply inv_apart. eapply inv_change, HI. by eapply steady_change. Qed.
Lemma hb_steady {A} (p : prog Host A) g : all_respect (λ _, True) steady p → hb p (λ _ g', g' = g) g.
Proof.
  intros Hp. eapply (holds_frame _ _ _ steady apart); [exact Hp| | |done].
  - intros gs h h' HI Hs. split; [by eapply steady_inv|done].
  - intros gs h g1 HI. eapply budget_inv_perm; [apply Permutation_swap|]. exact (proj1 (inv_apart _ _) HI).
Qed.

(** ** Slots and counters *)

Definition with_slots v g := Part (pa_seen g) (pa_booked g) (pa_call g) v (pa_conn g) (pa_gauge g).
Lemma grows_sems f i h : (∀ s, sm_cap (f s) = sm_cap s) → grows h (set_sems (alter f i (p_sems h)) h).
Proof.
  intros Hf. split; simpl; [done| |eauto]. intros j s Hj. destruct (decide (i = j)) as [<-|Hne].
  - rewrite list_lookup_alter_eq, Hj. exists (f s). by rewrite Hf.
  - rewrite list_lookup_alter_ne by done. eauto.
Qed.
(** One slot more, or one less. *)
Lemma change_slot f i l g gs h :
  budget_inv (g :: gs) h → (∀ s, sm_cap (f s) = sm_cap s) →
  (∀ j s, p_sems h !! j = Some s → (sm_taken (if decide (i = j) then f s else s) + occ j (pa_slots g) = sm_taken s + occ j l) ∧
    (i = j → sm_taken (f s) ≤ sm_cap s)) →
  (∀ j, j ∈ l → j < length (p_sems h)) → (pa_gauge g = true → pa_slots g ⊆ l) →
  own_change g (with_slots l g) h (set_sems (alter f i (p_sems h)) h).
Proof.
  intros HI Hcap Hf Hl Hgg. pose proof (grows_sems f i h Hcap) as Hgr. split; try done.
  - intros j s'. simpl. intros Hj. left. destruct (decide (i = j)) as [<-|Hne].
    + rewrite list_lookup_alter_eq in Hj. destruct (p_sems h !! i) as [s|] eqn:E; [|done]. simplify_eq/=. exists s.
      destruct (Hf i s E) as [E1 E2]. rewrite decide_True in E1 by done. rewrite Hcap. split_and!; [done|done|auto].
    + rewrite list_lookup_alter_ne in Hj by done. exists s'. destruct (Hf j s' Hj) as [E1 _]. rewrite decide_False in E1 by done. by split_and!.
  - intros c x'. simpl. intros Hc. left. exists x'. split; [done|unfold conns_of; simpl; lia].
  - destruct (change_grown _ _ _ _ HI Hgr). split; simpl; [done|done|done| |].
    + intros j Hj. rewrite length_alter. auto.
    + intros E. destruct (pk_gauge0 E) as (n & s & ? & Hs & Hg). exists n, s. pose proof (Hgg E). split_and!; [done|set_solver|set_solver].
  - intros name p' Hp. right. exists p'. split_and!; [done|done|by left].
  - by left.
Qed.
Lemma hb_send i c g : (∀ gs h, budget_inv (g :: gs) h → i < length (p_sems h)) →
  hb (sem_send i c) (λ r g', ∃ sent, r = Ok sent ∧ g' = if sent then with_slots (i :: pa_slots g) g else g) g.
Proof.
  intros Hi. apply holds_blocking. intros gs h sent h' HI E.
  destruct (select_ready _ h) as [[sent' h1]|] eqn:Es; [|done]. apply select_choice in Es as [Hin [ns ->]]. simpl in E. injection E as -> <-.
  assert (budget_inv (g :: gs) (set_choices ns h)) as HI'.
  { eapply steady_inv; [exact HI|]. split; try done. intros name p' c' Hp Hc. simpl in Hp. by rewrite Hp; simpl; rewrite Hc. }
  destruct sent; [|by exists g; eauto].
  exists (with_slots (i :: pa_slots g) g). split_and!; [|done|eauto]. eapply inv_change; [|exact HI'].
  assert (sem_free i h = true) as Hfree.
  { apply elem_of_app in Hin as [Hin|Hin]; [by destruct (sem_free i h); [|apply elem_of_nil in Hin]|].
    destruct (c h); [by apply list_elem_of_singleton in Hin|by apply elem_of_nil in Hin]. }
  unfold sem_free in Hfree. destruct (p_sems h !! i) as [s0|] eqn:E0; [|done]. apply Nat.ltb_lt in Hfree.
  apply (change_slot _ i _ g gs); [done|done| | |by intros _ ? ?; right].
  - intros j s Hj. rewrite occ_cons. split; [destruct (decide (i = j)); simpl; lia|]. intros ->. simpl in *. simplify_eq. lia.
  - simpl. intros j [->|Hj]%elem_of_cons; [by apply Hi with gs|]. by apply (pk_slots _ _ (bi_parts _ _ HI g ltac:(left))).
Qed.
Lemma hb_receive i l g : pa_slots g ≡ₚ i :: l → pa_gauge g = false →
  hb (sem_receive i) (λ r g', r = Ok tt ∧ g' = with_slots l g) g.
Proof.
  intros El Eg. apply hb_blocking. intros gs h a h' HI E. destruct (p_sems h !! i) as [s0|] eqn:E0; [|done]. simpl in E.
  destruct (Nat.ltb_spec 0 (sm_taken s0)); [|done]. injection E as <- <-. exists (with_slots l g). split; [|done].
  pose proof (bi_parts _ _ HI g ltac:(left)) as [_ _ _ Hsl _]. apply (change_slot _ i _ g gs); [done|done| | |by rewrite Eg].
  - intros j s Hj. destruct (bi_sems _ _ HI j s Hj) as [Et Hle].
    rewrite (occ_perm j _ _ El), occ_cons. split; [|intros ->; simpl; lia]. destruct (decide (i = j)) as [<-|]; simpl; simplify_eq; lia.
  - intros j Hj. apply Hsl. rewrite El. by right.
Qed.
Definition with_conn v g := Part (pa_seen g) (pa_booked g) (pa_call g) (pa_slots g) v (pa_gauge g).
Definition with_gauge v g := Part (pa_seen g) (pa_booked g) (pa_call g) (pa_slots g) (pa_conn g) v.
Lemma change_conn d c v g gs h :
  budget_inv (g :: gs) h → (∀ k, v = Some k → k < pa_seen g) →
  (∀ k, Z.of_nat (occ k (option_list v)) = Z.of_nat (occ k (conns_of g)) + (if decide (c = k) then d else 0))%Z →
  own_change g (with_conn v g) h (count_inflight d c h).2.
Proof.
  intros HI Hv Hd. assert (grows h (count_inflight d c h).2) as Hgr by (split; simpl; [by rewrite length_alter|eauto|eauto]).
  split; try done.
  - intros i s'. simpl. intros Hi. left. exists s'. split_and!; [done|lia|done].
  - intros k x'. simpl. intros Hk. left. specialize (Hd k). unfold conns_of at 2. simpl. destruct (decide (c = k)) as [<-|Hne].
    + rewrite list_lookup_alter_eq in Hk. destruct (p_conns h !! c) as [x|]; [|done]. simplify_eq/=. exists x. split; [done|lia].
    + rewrite list_lookup_alter_ne in Hk by done. exists x'. split; [done|lia].
  - destruct (change_grown _ _ _ _ HI Hgr). split; simpl; done.
  - intros name p' Hp. right. exists p'. split_and!; [done|done|by left].
  - by left.
Qed.
Lemma hb_inflight d c v g : (∀ k, v = Some k → k < pa_seen g) →
  (∀ k, Z.of_nat (occ k (option_list v)) = Z.of_nat (occ k (conns_of g)) + (if decide (c = k) then d else 0))%Z →
  hb (atomic (count_inflight d c)) (λ r g', r = Ok tt ∧ g' = with_conn v g) g.
Proof. intros Hv Hd. apply hb_atomic. intros gs h HI. exists (with_conn v g). split; [by eapply change_conn|done]. Qed.
Lemma hb_gauge d name s v g : pa_call g = Some (name, s) →
  (d = Z.b2z v - Z.b2z (pa_gauge g))%Z →
  (v = true → s ∈ pa_slots g ∧ ∀ i, bu_global b = Some i → i ∈ pa_slots g) →
  hb (atomic (gauge d name)) (λ r g', r = Ok tt ∧ g' = with_gauge v g) g.
Proof.
  intros Ecall -> Hv. apply hb_atomic. intros gs h HI. exists (with_gauge v g). split; [|done].
  assert (grows h (gauge (Z.b2z v - Z.b2z (pa_gauge g)) name h).2) as Hgr by (split; simpl; eauto).
  split; try done.
  - intros i s'. simpl. intros Hi. left. exists s'. split_and!; [done|lia|done].
  - intros k x'. simpl. intros Hk. left. exists x'. split; [done|unfold conns_of; simpl; lia].
  - intros m. unfold gauge_of, gauges_of. simpl. rewrite Ecall. destruct (decide (name = m)) as [<-|Hne].
    + rewrite lookup_insert_eq. simpl. destruct v, (pa_gauge g); rewrite ?occ_one, ?occ_nil; simpl; rewrite ?decide_True by done; unfold gauge_of; lia.
    + rewrite lookup_insert_ne by done. destruct v, (pa_gauge g); rewrite ?occ_one, ?occ_nil; simpl; rewrite ?decide_False by done; lia.
  - destruct (change_grown _ _ _ _ HI Hgr). split; simpl; try done. intros E. exists name, s. by destruct (Hv E).
  - intros m p' Hp. right. exists p'. split_and!; [done|done|by left].
  - by left.
Qed.

(** ** Calls *)

(** Between calls: nothing is held, and [n] connections at least were seen. *)
Definition idle (n : nat) (g : part) : Prop := n ≤ pa_seen g ∧ g = Part (pa_seen g) [] (pa_call g) [] None false.
Definition held (s : nat) : list nat := match bu_global b with Some i => [i; s] | None => [s] end.
Lemma hb_bind {A B} (p : P Host A) (k : A → P Host B) (Q : res B → part → Prop) g (Q0 : res A → part → Prop) :
  hb p Q0 g → (∀ a g', Q0 (Ok a) g' → hb (k a) Q g') → (∀ e g', Q0 (Err e) g' → Q (Err e) g') → hb (p ≫= k) Q g.
Proof. intros Hp Hk He. apply holds_bind. eapply holds_mono; [exact Hp|]. intros [a|e] g'; auto. Qed.
Lemma hb_seq {A B} (p : P Host A) (k : A → P Host B) (Q : res B → part → Prop) g :
  all_respect (λ _, True) steady p → (∀ a, hb (k a) Q g) → (∀ e, Q (Err e) g) → hb (p ≫= k) Q g.
Proof. intros Hp Hk He. eapply hb_bind; [by apply hb_steady|by intros a g' ->|by intros e g' ->]. Qed.
Lemma hb_then {B} (p : P Host unit) (k : unit → P Host B) (Q : res B → part → Prop) g g' :
  hb p (λ r x, r = Ok tt ∧ x = g') g → hb (k tt) Q g' → hb (p ≫= k) Q g.
Proof. intros Hp Hk. eapply hb_bind; [exact Hp| |by intros e x [? _]]. by intros [] x [_ ->]. Qed.

Lemma steady_fields h h' :
  p_budget h' = p_budget h → p_sems h' = p_sems h → p_gauge h' = p_gauge h → p_conns h' = p_conns h → p_plugins h' = p_plugins h → steady h h'.
Proof.
  intros E1 E2 E3 E4 E5. split; [done..|by rewrite E4|intros name; by rewrite E5|].
  intros name p c. rewrite E5. intros Hp Hc. rewrite Hp. simpl. by rewrite Hc.
Qed.
Lemma steady_modify f : (∀ h, steady h (f h)) → all_respect (λ _ : Host, True) steady (atomic (modify f)).
Proof. intros Hf. apply all_respect_atomic. by split. Qed.
#[local] Instance steady_refl : Reflexive steady.
Proof. intros h. by apply steady_fields. Qed.
Lemma steady_gets {A} (f : Host → A) : all_respect (λ _ : Host, True) steady (atomic (gets f)).
Proof. by apply all_respect_atomic. Qed.
Lemma steady_outside {A} (p : P Host A) : outside p → all_respect (λ _ : Host, True) steady p.
Proof. apply all_respect_weaken. by intros h h' _ ->. Qed.
Lemma steady_jot n : all_respect (λ _ : Host, True) steady (atomic (modify (jot n))).
Proof. apply steady_modify. intros h. by apply steady_fields. Qed.
Hint Resolve steady_gets steady_jot : resp.
Lemma steady_shed c name level : all_respect (λ _, True) steady (shed_or_cancelled c name level).
Proof. unfold shed_or_cancelled. respect. Qed.

Lemma shed_throws c name level : ends (λ r : res unit, is_ok r = false) (shed_or_cancelled c name level).
Proof.
  unfold shed_or_cancelled. apply ends_prog_bind. intros h x h' [= <- <-]. cbn [ends]. destruct (c h); [done|].
  apply ends_prog_bind. intros h1 x h2 [= <- <-]. apply ends_prog_bind. by intros h3 x h4 [= <- <-].
Qed.

Lemma call_sem n name s l k u gs h : budget_inv (Part n [] (Some (name, s)) l k u :: gs) h → s < length (p_sems h).
Proof.
  intros HI. destruct (pk_call _ _ (bi_parts _ _ HI _ ltac:(left)) name s eq_refl) as (p & Hp & <-).
  destruct (pf_sem _ _ (bi_plugins _ _ HI _ _ Hp)) as (x & E & _). by eapply lookup_lt_Some.
Qed.
Lemma hb_acquire c name n s : hb (acquire c name s)
  (λ r g', match r with Ok _ => g' = Part n [] (Some (name, s)) (held s) None false | Err _ => g' = Part n [] (Some (name, s)) [] None false end)
  (Part n [] (Some (name, s)) [] None false).
Proof.
  unfold acquire, held. eapply hb_bind with (Q0 := λ r g, r = Ok b ∧ g = Part n [] (Some (name, s)) [] None false); [| |by intros e g [? _]].
  { apply hb_atomic. intros gs h HI. exists (Part n [] (Some (name, s)) [] None false). split; [by apply (steady_change _ gs)|].
    by rewrite <- (bi_budget _ _ HI). }
  intros b' g [[= ->] ->]. apply hb_seq; [apply steady_gets| |done]. intros now.
  eapply hb_bind; [apply hb_send; intros gs h; apply call_sem| |by intros e g' (? & ? & _)].
  intros sent g' (sent' & [= <-] & ->). destruct sent; cbn [negb].
  2:{ eapply holds_mono; [apply holds_ends; [apply hb_steady, steady_shed|apply shed_throws]|]. intros [|] g' [-> E]; [done|done]. }
  destruct (bu_global b) as [i|] eqn:Eg; [|done].
  eapply hb_bind; [apply hb_send| |by intros e g' (? & ? & _)].
  { intros gs h HI. destruct (bi_global _ _ HI i Eg) as (x & E & _). by eapply lookup_lt_Some. }
  intros sent g' (sent' & [= <-] & ->). destruct sent; [done|].
  eapply hb_then; [by apply (hb_receive s []); [done|]|].
  eapply holds_mono; [apply holds_ends; [apply hb_steady, steady_shed|apply shed_throws]|]. by intros [|] g' [-> E].
Qed.
Lemma hb_release name n s : hb (release s) (λ r g', r = Ok tt ∧ g' = Part n [] (Some (name, s)) [] None false) (Part n [] (Some (name, s)) (held s) None false).
Proof.
  unfold release, held. eapply hb_bind with (Q0 := λ r g, r = Ok b ∧ g = Part n [] (Some (name, s)) (held s) None false); [| |by intros e g [? _]].
  { apply hb_atomic. intros gs h HI. exists (Part n [] (Some (name, s)) (held s) None false). split; [by apply (steady_change _ gs)|].
    by rewrite <- (bi_budget _ _ HI). }
  intros b' g [[= ->] ->]. unfold held. destruct (bu_global b) as [i|].
  - eapply hb_then; [by apply (hb_receive i [s])|]. by apply (hb_receive s []).
  - by apply (hb_receive s []).
Qed.
Hint Resolve steady_outside : resp.
(** A call ends with nothing held, however it goes. *)
Lemma hb_dispatch {A} n c name method (call : ctx → nat → P Host A) g : (∀ c k, outside (call c k)) → idle n g →
  hb (dispatch c name method call) (λ _, idle n) g.
Proof.
  intros Hc [Hn Eg]. unfold dispatch.
  eapply hb_bind with (Q0 := λ r g', match r with
    | Ok (Some (cn, s)) => ∃ k, n ≤ k ∧ cn < k ∧ g' = Part k [] (Some (name, s)) [] None false
    | _ => g' = g end); [| |by intros e g' ->].
  { apply hb_atomic. intros gs h HI. unfold ready_conn, gets. simpl. destruct (p_plugins h !! name) as [p|] eqn:Ep; [|exists g; split; [by apply (steady_change _ gs)|done]].
    simpl. destruct (servesNew (mg_m p)); [|exists g; split; [by apply (steady_change _ gs)|done]].
    destruct (mg_cur p) as [cn|] eqn:Ecur; [|exists g; split; [by apply (steady_change _ gs)|done]]. simpl.
    exists (Part (max (pa_seen g) (S cn)) [] (Some (name, mg_sem p)) [] None false). split; [|exists (max (pa_seen g) (S cn)); split_and!; [lia|lia|done]].
    destruct (steady_change g gs h h HI (steady_refl h)) as [Hgr Hb Hs Hcn Hg [] Hpl Hbk].
    pose proof (pf_cur _ _ (bi_plugins _ _ HI _ _ Ep) cn Ecur). rewrite Eg in *. split; try done.
    split; simpl in *; [lia| |done|by intros i ?%elem_of_nil|done]. intros m s [= <- <-]. eauto. }
  intros [[cn s]|] g'; [|intros ->; by split]. intros (k & Hk & Hcn & ->).
  eapply hb_bind; [apply hb_acquire| |by intros e g' ->]. intros [] g' ->.
  apply holds_defer. eapply holds_mono with (Q := λ _ g', g' = Part k [] (Some (name, s)) (held s) None false).
  2:{ intros r g' ->. eapply holds_mono; [apply hb_release|]. by intros rd g' [-> ->]. }
  assert (∀ j, Z.of_nat (occ j [cn]) = if decide (cn = j) then 1%Z else 0%Z) as Hocc by (intros j; rewrite occ_one; by destruct (decide _)).
  eapply hb_then; [apply (hb_inflight _ cn (Some cn)); [by intros ? [= <-]|intros j; exact (Hocc j)]|].
  eapply hb_then; [apply (hb_gauge _ name s true); [done|done|intros _; unfold held; simpl; destruct (bu_global b); split; set_solver]|].
  apply holds_defer. eapply holds_mono; [apply hb_steady|].
  { apply all_respect_bind; [apply steady_jot|]. intros _. by apply steady_outside. }
  intros r g' ->. eapply hb_then.
  { apply (hb_inflight _ cn None); [done|]. intros j. change (conns_of _) with [cn]. rewrite (Hocc j). simpl. rewrite occ_nil. by destruct (decide _). }
  eapply holds_mono; [by apply (hb_gauge _ name s false)|]. by intros rd g' [-> ->].
Qed.

(** ** The supervisors *)

Lemma steady_trans h1 h2 h3 : steady h1 h2 → steady h2 h3 → steady h1 h3.
Proof.
  intros [] []. split; try congruence. intros name p c Hp Hc. pose proof (sy_cur1 _ _ _ Hp Hc) as E.
  destruct (p_plugins h2 !! name) as [q|] eqn:Eq; [|done]. simplify_eq/=. eauto.
Qed.
Lemma steady_plugin f name h : (∀ p, mg_sem (f p) = mg_sem p ∧ (mg_cur (f p) = mg_cur p ∨ mg_cur (f p) = None)) → steady h (plugin_alter f name h).
Proof.
  intros Hf. split; try done; simpl.
  - intros m. destruct (decide (name = m)) as [<-|Hne]; [|by rewrite lookup_alter_ne]. rewrite lookup_alter_eq.
    destruct (p_plugins h !! name) as [p|]; [|done]. simpl. by destruct (Hf p) as [-> _].
  - intros m p' c. destruct (decide (name = m)) as [<-|Hne]; [|rewrite lookup_alter_ne by done; by intros -> <-].
    rewrite lookup_alter_eq. destruct (p_plugins h !! name) as [p|]; [|done]. simpl. intros [= <-] Hc. destruct (Hf p) as [_ [E|E]]; congruence.
Qed.
Lemma steady_conn f c h : (∀ x, cn_inflight (f x) = cn_inflight x) → steady h (conn_alter f c h).
Proof.
  intros Hf. split; try done; simpl; [|by intros m p' k -> <-].
  apply list_eq. intros i. rewrite !list_lookup_fmap. destruct (decide (c = i)) as [<-|Hne]; [|by rewrite list_lookup_alter_ne].
  rewrite list_lookup_alter_eq. destruct (p_conns h !! c); [|done]. simpl. by rewrite Hf.
Qed.
Lemma steady_move name next h : steady h (move name next h).
Proof.
  unfold move. destruct (p_plugins h !! name) as [p|]; [|done]. destruct (to next (mg_m p)) as [m|]; [|by apply steady_fields].
  eapply steady_trans; [apply (steady_plugin (with_m m) name); by split; [|left]|]. by apply steady_fields.
Qed.
Ltac steadily := intros; try (split; [done|]); solve
  [ by apply steady_fields
  | by apply steady_conn
  | apply steady_move
  | apply steady_plugin; intros; simpl; by auto ].
Lemma steady_choice {A} (l : Host → list A) : all_respect (λ _ : Host, True) steady (blocking (λ h, select_ready (l h) h)).
Proof. apply all_respect_blocking. intros h a h' _ [_ [ns ->]]%select_choice. split; [done|]. steadily. Qed.
Lemma steady_transition name next : all_respect (λ _ : Host, True) steady (atomic (transition name next)).
Proof. apply steady_modify. steadily. Qed.
Lemma steady_on_reg f : all_respect (λ _ : Host, True) steady (atomic (on_reg f)).
Proof. apply steady_modify. steadily. Qed.
Lemma steady_kill c : all_respect (λ _ : Host, True) steady (atomic (kill c)).
Proof. apply steady_modify. intros h. eapply steady_trans; [by apply (steady_conn (with_exited true) c)|]. steadily. Qed.
Lemma steady_sup f name : all_respect (λ _ : Host, True) steady (atomic (modify (sup_alter f name))).
Proof. apply steady_modify. steadily. Qed.
Hint Resolve steady_choice steady_transition steady_on_reg steady_kill steady_sup : resp.
Lemma steady_quarantine name : all_respect (λ _ : Host, True) steady (atomic (quarantine name)).
Proof.
  apply steady_modify. intros h. destruct (p_plugins h !! name) as [p|]; [|done].
  set (h1 := if decide (mg_m p = StateUnhealthy) then move name StateRestarting h else h).
  assert (steady h h1) as H1 by (unfold h1; destruct (decide _); [apply steady_move|done]).
  eapply steady_trans; [exact H1|]. eapply steady_trans; [apply (steady_move name StateFailed)|].
  eapply steady_trans; [apply (steady_plugin (with_cur None) name); by split; [|right]|]. steadily.
Qed.
Lemma steady_setLoadReason name r : all_respect (λ _ : Host, True) steady (atomic (setLoadReason name r)).
Proof. apply steady_modify. steadily. Qed.
Lemma steady_answer r v : all_respect (λ _ : Host, True) steady (atomic (answer r v)).
Proof. apply steady_modify. steadily. Qed.
Lemma steady_cancelWatch w : all_respect (λ _ : Host, True) steady (atomic (cancelWatch w)).
Proof. apply steady_modify. steadily. Qed.
Lemma steady_attachDrain c : all_respect (λ _ : Host, True) steady (atomic (attachDrain c)).
Proof. apply steady_modify. steadily. Qed.
Hint Resolve steady_quarantine steady_setLoadReason steady_answer steady_cancelWatch steady_attachDrain : resp.
Lemma steady_Deregister name ptype : all_respect (λ _ : Host, True) steady (Deregister name ptype).
Proof. unfold Deregister. respect. Qed.
Hint Resolve steady_Deregister : resp.
Lemma steady_revert name : all_respect (λ _ : Host, True) steady (revert name).
Proof.
  unfold revert. apply all_respect_bind; [|intros []; auto with resp].
  apply all_respect_atomic. intros h _. split; [done|]. destruct (p_plugins h !! name) as [p|]; [|done]. destruct (mg_registered p); [|done]. steadily.
Qed.
Lemma steady_park name : all_respect (λ _ : Host, True) steady (parkUntilReload name).
Proof.
  unfold parkUntilReload. apply all_respect_bind.
  - apply all_respect_blocking. intros h a h' _ E. split; [done|]. destruct (select_ready _ h) as [[ev h1]|] eqn:Es; [|done].
    apply select_choice in Es as [_ [ns ->]]. simpl in E. injection E as <- <-. destruct ev; steadily.
  - intros [r|]; [|done]. respect; steadily.
Qed.
Hint Resolve steady_revert steady_park : resp.
Lemma steady_realSleep c d : all_respect (λ _ : Host, True) steady (realSleep c d).
Proof. unfold realSleep. respect. Qed.
Lemma steady_backoffDelay x y a : all_respect (λ _ : Host, True) steady (atomic (backoffDelay x y a)).
Proof.
  apply all_respect_atomic. intros h _. split; [done|]. unfold backoffDelay. destruct (_ <=? 0)%Z; [done|]. destruct (p_rand h); [done|]. steadily.
Qed.
Hint Resolve steady_realSleep steady_backoffDelay : resp.
Lemma steady_backoffOrQuarantine name atCap : all_respect (λ _ : Host, True) steady (backoffOrQuarantine cfg name atCap).
Proof. unfold backoffOrQuarantine. respect; steadily. Qed.
Lemma steady_verifyIdentity name c : all_respect (λ _ : Host, True) steady (verifyIdentity name c).
Proof.
  unfold verifyIdentity, with_timeout. respect. apply steady_outside, out_Info.
Qed.
Lemma steady_quarantineIdentity name r : all_respect (λ _ : Host, True) steady (quarantineIdentity name r).
Proof. unfold quarantineIdentity. respect. Qed.
Hint Resolve steady_backoffOrQuarantine steady_verifyIdentity steady_quarantineIdentity : resp.

Lemma steady_note_ready name c : all_respect (λ _ : Host, True) steady (note_ready name c).
Proof. unfold note_ready. respect; steadily. Qed.
Lemma steady_drain c : all_respect (λ _ : Host, True) steady (drain cfg c).
Proof.
  unfold drain. apply all_respect_bind; [apply steady_modify; steadily|]. intros _. apply all_respect_bind; [apply steady_gets|]. intros now.
  generalize (drain_fuel cfg) as k. induction k as [|k IH]; [done|]. cbn [drain_polls]. respect.
Qed.
Hint Resolve steady_note_ready steady_drain : resp.
Lemma steady_watch c : all_respect (λ _ : Host, True) steady (watch c).
Proof.
  unfold watch. apply all_respect_bind; [apply all_respect_atomic; steadily|]. intros w.
  apply all_respect_bind; [|done]. intros gs h _. exists tt, tt. split_and!; [done|done|]. apply all_respect_forget.
  apply all_respect_bind; [|intros _; apply steady_modify; steadily].
  apply all_respect_blocking. intros h1 a h2 _ E. split; [done|]. destruct (_ || _); [|done]. injection E as _ <-. steadily.
Qed.
Lemma steady_teardown name c : all_respect (λ _ : Host, True) steady (teardown cfg pidfileDir name c).
Proof.
  unfold teardown. respect; [|steadily..]. split; [done|]. eapply steady_trans; [apply (steady_move name StateStopped)|]. steadily.
Qed.
Lemma steady_afterCrash name c : all_respect (λ _ : Host, True) steady (afterCrash cfg name c).
Proof.
  unfold afterCrash. respect.
  - split; [done|]. eapply steady_trans; [apply (steady_move name StateUnhealthy)|]. steadily.
  - split; [done|]. simpl. destruct (_ <=? _)%Z; steadily.
Qed.
Lemma steady_serve_select name w : all_respect (λ _ : Host, True) steady (serve_select name w).
Proof.
  apply all_respect_blocking. intros h ev h' _ E. split; [done|]. destruct (select_ready _ h) as [[ev' h1]|] eqn:Es; [|done].
  apply select_choice in Es as [_ [ns ->]]. simpl in E. injection E as <- <-. destruct ev'; steadily.
Qed.
Hint Resolve steady_watch steady_teardown steady_afterCrash steady_serve_select : resp.

Lemma hb_keep {A} (p : prog Host A) n g : all_respect (λ _, True) steady p → idle n g → hb p (λ _, idle n) g.
Proof. intros Hp Hg. eapply holds_mono; [by apply hb_steady|]. by intros r g' ->. Qed.
Lemma idle_le n m g : idle n g → m ≤ n → idle m g.
Proof. intros [Hn Eg] Hm. split; [lia|done]. Qed.
Lemma hb_start name o n g : idle n g → hb (atomic (start_process name o)) (λ r g', ∃ c, r = Ok c ∧ idle (max n (S c)) g') g.
Proof.
  intros [Hn Eg]. apply hb_atomic. intros gs h HI.
  exists (Part (S (length (p_conns h))) [] (pa_call g) [] None false).
  pose proof (bi_parts _ _ HI g ltac:(left)) as [Hseen Hcall _ _ _].
  split; [|exists (length (p_conns h)); split; [done|split; simpl; [lia|done]]].
  assert (grows h (start_process name o h).2) as Hgr.
  { split; simpl; [rewrite length_app; simpl; lia|eauto|eauto]. }
  rewrite Eg in *. simpl in *. split; try done.
  - intros i s'. simpl. intros Hi. left. exists s'. split_and!; [done|lia|done].
  - intros c x'. simpl. rewrite lookup_app. destruct (p_conns h !! c) as [x|] eqn:Ex.
    + intros [= <-]. left. exists x. split; [done|unfold conns_of; simpl; lia].
    + intros Hx. right. apply list_lookup_singleton_Some in Hx as [Hc <-]. apply lookup_ge_None in Ex. done.
  - split; simpl; [rewrite length_app; simpl; lia|exact Hcall|done|by intros i ?%elem_of_nil|done].
  - intros m p' Hp. right. exists p'. split_and!; [done|done|by left].
  - by left.
Qed.
(** A connection is published only when it is known to be there. *)
Lemma inv_publish name c n g gs h : idle n g → c < n → budget_inv (g :: gs) h → budget_inv (g :: gs) (plugin_alter (with_cur (Some c)) name h).
Proof.
  intros [Hn Eg] Hc HI. eapply inv_change, HI.
  assert (grows h (plugin_alter (with_cur (Some c)) name h)) as Hgr.
  { split; simpl; [done|eauto|]. intros m p Hm. destruct (decide (name = m)) as [<-|Hne]; [|rewrite lookup_alter_ne by done; eauto].
    rewrite lookup_alter_eq, Hm. simpl. eauto. }
  split; try done.
  - intros i s'. simpl. intros Hi. left. exists s'. split_and!; [done|lia|done].
  - intros k x'. simpl. intros Hk. left. exists x'. split; [done|lia].
  - by eapply change_grown.
  - intros m p'. simpl. destruct (decide (name = m)) as [<-|Hne].
    + rewrite lookup_alter_eq. destruct (p_plugins h !! name) as [p|] eqn:Ep; [|done]. simpl. intros [= <-]. left.
      pose proof (plugin_fits_grows _ _ _ Hgr (bi_plugins _ _ HI _ _ Ep)) as [F1 F2]. split; [done|]. simpl. intros k [= <-].
      pose proof (pk_seen _ _ (bi_parts _ _ HI g ltac:(left))). lia.
    + rewrite lookup_alter_ne by done. intros Hm. right. exists p'. split_and!; [done|done|by left].
  - left. split; [done|]. intros m Hm. simpl. destruct (decide (name = m)) as [<-|Hne]; [by rewrite lookup_alter_eq, Hm|by rewrite lookup_alter_ne].
Qed.
Lemma hb_becomeReady name c n g : idle n g → c < n → hb (becomeReady name c) (λ _, idle n) g.
Proof.
  intros Hg Hc. unfold becomeReady. eapply hb_bind with (Q0 := λ _ g', g' = g); [|intros _ g' ->; apply hb_keep; auto with resp|by intros e g' ->].
  apply holds_atomic. intros gs h HI. exists g. split_and!; [|done|done]. simpl. eapply inv_publish; [done|done|]. eapply steady_inv; [exact HI|apply steady_move].
Qed.
Lemma hb_swapTo name c n g : idle n g → c < n → hb (swapTo name c) (λ _, idle n) g.
Proof.
  intros Hg Hc. unfold swapTo. eapply hb_bind with (Q0 := λ _ g', g' = g); [|intros _ g' ->; apply hb_keep; auto with resp|by intros e g' ->].
  apply holds_atomic. intros gs h HI. exists g. split_and!; [|done|done]. by eapply inv_publish.
Qed.
(** A launch: the connection it returns is there. *)
Definition launched_ (n : nat) (r : res nat) (g : part) : Prop := ∃ k, n ≤ k ∧ idle k g ∧ ∀ c, r = Ok c → c < k.
Lemma launched_err n e g : idle n g → launched_ n (Err e) g.
Proof. intros Hg. by exists n. Qed.
Lemma hb_launch name n g : idle n g → hb (launch pidfileDir name) (launched_ n) g.
Proof.
  intros Hg. unfold launch. apply hb_seq; [apply steady_modify; steadily| |by intros e; apply launched_err]. intros _.
  unfold realLaunch. apply hb_seq; [apply steady_gets| |by intros e; apply launched_err]. intros k.
  set (o := spawned name k). clearbody o.
  assert (hb (atomic (start_process name o)) (λ r g', ∃ c, r = Ok c ∧ idle (max n (S c)) g') g) as Hs by (by apply hb_start).
  assert (∀ (q : nat → P Host nat), (∀ c g', idle (max n (S c)) g' → hb (q c) (λ r g'', idle (max n (S c)) g'' ∧ ∀ c', r = Ok c' → c' = c) g') →
    hb (atomic (start_process name o) ≫= q) (launched_ n) g) as Hk.
  { intros q Hq. eapply hb_bind; [exact Hs| |by intros e g' (? & ? & _)]. intros c g' (c' & [= <-] & Hg').
    eapply holds_mono; [by apply Hq|]. intros r g'' [Hg'' Hr]. exists (max n (S c)). split_and!; [lia|done|]. intros c' E. rewrite (Hr c' E). lia. }
  assert (∀ c m e g', idle m g' → hb (atomic (kill c) ≫= λ _, throw e : P Host nat) (λ r g'', idle m g'' ∧ ∀ c', r = Ok c' → c' = c) g') as Hkill.
  { intros c m e g' Hg'. apply hb_seq; [apply steady_kill|by intros []|by intros e']. }
  destruct (lo_fault o) as [[]|]; try by apply launched_err.
  - apply Hk. intros c g' Hg'. by apply Hkill.
  - apply Hk. intros c g' Hg'. by apply Hkill.
  - apply Hk. intros c g' Hg'. destruct pidfileDir; cbn [negb]; [by apply Hkill|]. split; [done|]. by intros c' [= <-].
  - apply Hk. intros c g' Hg'. destruct pidfileDir; cbn [negb]; [|split; [done|by intros c' [= <-]]].
    apply hb_seq; [apply steady_modify; steadily| |by intros e]. intros _. split; [done|by intros c' [= <-]].
Qed.
Lemma hb_try_launch {B} name n g (k : res nat → P Host B) Q : idle n g →
  (∀ r g', launched_ n r g' → hb (k r) Q g') → hb (try (launch pidfileDir name) ≫= k) Q g.
Proof. intros Hg Hk. apply holds_bind, holds_try. eapply holds_mono; [by apply hb_launch|]. auto. Qed.
Lemma hb_stuck {A} (Q : res A → part → Prop) g : hb (stuck : P Host A) Q g.
Proof. by apply holds_blocking. Qed.
Lemma hb_launchWithRetry k name n g : idle n g →
  hb (launchWithRetry cfg pidfileDir k name) (λ r g', ∃ m, n ≤ m ∧ idle m g' ∧ ∀ c, r = Ok (Some c) → c < m) g.
Proof.
  revert n g. induction k as [|k IH]; intros n g Hg; [apply hb_stuck|]. cbn [launchWithRetry].
  apply hb_seq; [apply steady_transition| |by intros e; exists n]. intros _.
  apply (hb_try_launch name n); [done|]. intros r g1 (m & Hm & Hg1 & Hr).
  assert (∀ e : error, ∃ m0, n ≤ m0 ∧ idle m0 g1 ∧ ∀ c, Err e = Ok (Some c) → c < m0) as He by (intros e; by exists m).
  assert (∃ m0, n ≤ m0 ∧ idle m0 g1 ∧ ∀ c, (Ok None : res (option nat)) = Ok (Some c) → c < m0) as Hnone by (by exists m).
  apply hb_seq; [apply steady_gets| |done]. intros [].
  - apply hb_seq; [destruct r; respect| |done]. by intros _.
  - destruct r as [c|e]; [exists m; split_and!; [done|done|]; intros c' [= <-]; by apply Hr|].
    apply hb_seq; [apply steady_gets| |done]. intros a. apply hb_seq; [apply steady_backoffOrQuarantine| |done]. intros []; [done|].
    eapply holds_mono; [by apply (IH m)|]. intros r g' (m' & Hm' & Hg' & Hc). exists m'. split_and!; [lia|done|done].
Qed.
Lemma hb_Register name ptype n g : idle n g → hb (Register name ptype) (λ _, idle n) g.
Proof.
  intros Hg. unfold Register. destruct (decide _); [|destruct (decide _); [|destruct (decide _); [|destruct (decide _); [|done]]]].
  - apply hb_keep; [|done]. apply all_respect_atomic. intros h _. split; [done|]. destruct (type_Register _ _ _ _). steadily.
  - apply hb_keep; [|done]. apply all_respect_bind; [|intros []; apply steady_on_reg].
    apply all_respect_atomic. intros h _. split; [done|]. destruct (Scoring.Register _ _ _ _). steadily.
  - unfold notifyWants. eapply hb_bind with (Q0 := λ _, idle n); [|intros l g' Hg'; apply hb_keep; [apply steady_on_reg|done]|done].
    apply hb_seq; [apply all_respect_bind; [apply steady_gets|done]| |done]. intros c.
    apply holds_bind, holds_try. eapply holds_mono; [apply hb_dispatch; [apply out_Subscriptions|exact Hg]|]. by intros r g' Hg'.
  - unfold registerAuth, pluginAuthCapabilities.
    eapply hb_bind with (Q0 := λ _, idle n); [|intros l g' Hg'; apply hb_keep; [|done]|done].
    + apply hb_seq; [apply all_respect_bind; [apply steady_gets|done]| |done]. intros c.
      apply holds_bind, holds_try. eapply holds_mono; [apply hb_dispatch; [apply out_Info|exact Hg]|]. by intros r g' Hg'.
    + destruct (_ && _); [done|]. apply all_respect_atomic. intros h _. split; [done|]. destruct (auth_Register _ _ _ _). steadily.
Qed.
Lemma hb_registerReady name n g : idle n g → hb (registerReady name) (λ _, idle n) g.
Proof.
  intros Hg. unfold registerReady. apply hb_seq; [| |done].
  - apply all_respect_atomic. intros h _. split; [done|]. destruct (p_plugins h !! name) as [p|]; [|done]. destruct (mg_registered p); [done|]. steadily.
  - intros [ptype|]; [|done]. apply holds_bind, holds_try. eapply holds_mono; [by apply hb_Register|].
    intros [[]|e] g' Hg'; [done|]. apply hb_keep; [apply steady_modify; steadily|done].
Qed.
Lemma hb_serve_loop k name cur w n g : idle n g → hb (serve_loop cfg pidfileDir k name cur w) (λ _, idle n) g.
Proof.
  revert cur w n g. induction k as [|k IH]; intros cur w n g Hg; [apply hb_stuck|]. cbn [serve_loop].
  apply hb_seq; [apply steady_serve_select| |done]. intros [| |req].
  - apply hb_keep; [respect|done].
  - apply hb_keep; [respect|done].
  - apply (hb_try_launch name n); [done|]. intros r g1 (m & Hm & Hg1 & Hr).
    assert (idle n g1) as Hn by (by eapply idle_le).
    apply hb_seq; [apply steady_gets| |done]. intros []; [apply hb_keep; [destruct r; respect|done]|].
    destruct r as [c|e]; [|apply hb_seq; [apply steady_answer|intros _; by apply IH|done]].
    apply hb_seq; [apply steady_cancelWatch| |done]. intros _. apply hb_seq; [apply steady_attachDrain| |done]. intros _.
    eapply hb_bind with (Q0 := λ _, idle m); [apply hb_swapTo; [done|by apply Hr]| |intros e g' Hg'; by eapply idle_le].
    intros _ g2 Hg2. assert (idle n g2) as Hn2 by (by eapply idle_le). apply hb_seq; [unfold drainAndKill; respect| |done]. intros _.
    apply hb_seq; [apply steady_watch| |done]. intros w'. apply hb_seq; [apply steady_answer| |done]. intros _. by apply IH.
Qed.
Lemma hb_serve k name c n g : idle n g → c < n → hb (serve cfg pidfileDir k name c) (λ _, idle n) g.
Proof.
  intros Hg Hc. unfold serve. eapply hb_bind with (Q0 := λ _, idle n); [by apply hb_becomeReady| |done]. intros _ g1 Hg1.
  eapply hb_bind with (Q0 := λ _, idle n); [by apply hb_registerReady| |done]. intros _ g2 Hg2.
  apply hb_seq; [apply steady_watch| |done]. intros w. by apply hb_serve_loop.
Qed.
Lemma hb_run_loop k name n g : idle n g → hb (run_loop cfg pidfileDir k name) (λ _, idle n) g.
Proof.
  revert g. induction k as [|k IH]; intros g Hg; [apply hb_stuck|]. cbn [run_loop].
  eapply hb_bind; [apply hb_launchWithRetry, Hg| |intros e g' (m & Hm & Hg' & _); by eapply idle_le].
  intros [c|] g1 (m & Hm & Hg1 & Hc); [|by eapply idle_le]. assert (idle n g1) as Hn by (by eapply idle_le). specialize (Hc c eq_refl).
  apply hb_seq; [apply steady_verifyIdentity| |done]. intros [reason|].
  - apply hb_seq; [apply steady_kill| |done]. intros _. apply hb_seq; [apply steady_quarantineIdentity| |done]. intros []; [done|]. by apply IH.
  - apply hb_seq; [apply steady_attachDrain| |done]. intros _.
    eapply hb_bind with (Q0 := λ _, idle m); [by apply hb_serve| |intros e g2 Hg2; by eapply idle_le].
    intros [] g2 Hg2; [by eapply idle_le|]. apply IH. by eapply idle_le.
Qed.
Lemma hb_run k name n g : idle n g → hb (run cfg pidfileDir k name) (λ _, idle n) g.
Proof.
  intros Hg. unfold run. apply holds_defer, holds_defer. eapply holds_mono; [by apply hb_run_loop|]. intros r g1 Hg1.
  eapply holds_mono; [apply hb_keep; [apply steady_revert|exact Hg1]|]. intros r2 g2 Hg2.
  destruct r2 as [[]|e]; (eapply holds_mono; [apply hb_keep; [apply steady_sup|exact Hg2]|]); by intros [[]|?] g3.
Qed.

(** ** The boot, and what runs beside it *)

Lemma hb_run_child k name gs h g : budget_inv (g :: gs) h → ∃ g' gc, budget_inv (g' :: gc :: gs) h ∧ g' = g ∧
  hb (run cfg pidfileDir k name) (λ _ g, pa_slots g = [] ∧ pa_conn g = None ∧ pa_gauge g = false) gc.
Proof.
  intros HI. exists g, apart. split_and!; [|done|].
  - eapply budget_inv_perm; [apply Permutation_swap|]. exact (proj1 (inv_apart _ _) HI).
  - eapply holds_mono; [by apply (hb_run k name 0)|]. by intros _ g' [_ ->].
Qed.
Definition booking (names : list string) : part := Part 0 names None [] None false.
Lemma track_change name names gs h : budget_inv (booking (name :: names) :: gs) h →
  own_change (booking (name :: names)) (booking names) h (track name h).2.
Proof.
  intros HI. pose proof (bi_fresh _ _ HI name ltac:(rewrite bind_cons; left)) as Hn. simpl.
  assert (grows h (track name h).2) as Hgr.
  { split; simpl; [done|intros i s Hi; exists s; split; [by apply lookup_app_l_Some|done]|].
    intros m p Hm. exists p. rewrite lookup_insert_ne by congruence. done. }
  split; try done.
  - intros i s'. simpl. rewrite lookup_app. destruct (p_sems h !! i) as [s|] eqn:Es.
    + intros [= <-]. left. exists s. split_and!; [done|lia|done].
    + intros Hi. right. apply list_lookup_singleton_Some in Hi as [_ <-]. apply lookup_ge_None in Es. done.
  - intros c x'. simpl. intros Hc. left. exists x'. split; [done|unfold conns_of; simpl; lia].
  - split; simpl; [lia|done|done|by intros i ?%elem_of_nil|done].
  - intros m p'. simpl. destruct (decide (name = m)) as [<-|Hne].
    + rewrite lookup_insert_eq. intros [= <-]. left. split; [|done]. simpl. eexists. split; [apply list_lookup_middle; done|].
      simpl. unfold plugin_cap. by rewrite (bi_budget _ _ HI).
    + rewrite lookup_insert_ne by done. intros Hm. right. exists p'. split_and!; [done|done|by left].
  - right. exists name. split; [done|]. intros m Hne Hm. simpl. by rewrite lookup_insert_ne.
Qed.
Lemma hb_failLoad name ptype reason names : hb (atomic (failLoad name ptype reason)) (λ r g, r = Ok tt ∧ g = booking names) (booking (name :: names)).
Proof.
  apply holds_atomic. intros gs h HI. exists (booking names). split_and!; [|done..].
  pose proof (bi_fresh _ _ HI name ltac:(rewrite bind_cons; left)) as Hn. unfold failLoad. rewrite Hn. cbn [snd].
  eapply steady_inv; [exact (inv_change _ _ _ _ _ (track_change _ _ _ _ HI) HI)|]. set (h1 := (track name h).2). clearbody h1.
  assert (steady h1 (plugin_alter (λ p, with_reason reason (with_ptype ptype p)) name h1)) as H1 by steadily.
  destruct (p_plugins (plugin_alter _ name h1) !! name) as [p|]; [|exact H1]. destruct (to StateFailed (mg_m p)) as [m|]; [|exact H1].
  eapply steady_trans; [exact H1|]. eapply steady_trans; [apply (steady_plugin (with_m m) name); by split; [|left]|]. by apply steady_fields.
Qed.
Lemma hb_launch_all k tokens found : hb (launch_all cfg pidfileDir config_of k tokens found)
  (λ r g, pa_slots g = [] ∧ pa_conn g = None ∧ pa_gauge g = false) (booking (d_name <$> found)).
Proof.
  revert tokens. induction found as [|d found IH]; intros tokens; [done|]. cbn [launch_all].
  rewrite fmap_cons. unfold launchDiscovered. destruct (default true (head tokens)); cbn [negb].
  - destruct (config_of (d_manifest d)) as [|e].
    + apply holds_bind. eapply hb_bind with (Q0 := λ r g, r = Ok tt ∧ g = booking (d_name <$> found)); [| |by intros e g [? _]].
      { apply hb_atomic. intros gs h HI. exists (booking (d_name <$> found)). split; [by apply (track_change _ _ gs)|done]. }
      intros [] g [_ ->]. apply hb_seq; [apply steady_modify; steadily| |done]. intros [].
      apply hb_seq; [apply steady_modify; steadily| |done]. intros [].
      intros gs h HI. destruct (hb_run_child k (d_name d) gs h _ HI) as (g' & gc & HI' & -> & Hr).
      exists (booking (d_name <$> found)), gc. split_and!; [done|apply IH|]. by apply holds_forget.
    + eapply hb_then; [apply hb_failLoad|]. apply IH.
  - eapply (holds_weaken _ _ _ _ _ (booking (d_name <$> found))); [apply IH|done|]. intros gs h [Ib Is Ic Ig Ip Il Io In If]. split; try done.
    + intros g [->|Hg]%elem_of_cons; [|apply Ip; by right]. destruct (Ip (booking (d_name d :: (d_name <$> found))) ltac:(left)). by split.
    + by apply NoDup_cons in In as [_ ?].
    + intros name Hn. apply If. rewrite bind_cons in *. by right.
Qed.
Lemma steady_reload c name : all_respect (λ _ : Host, True) steady (reload c name).
Proof.
  unfold reload. apply all_respect_bind; [apply all_respect_atomic; steadily|].
  intros r. apply all_respect_bind; [|intros [[]|e]; respect; apply steady_choice].
  apply all_respect_blocking. intros h a h' _ E. split; [done|]. destruct (negb _); [by injection E as _ <-|].
  destruct (select_ready _ h) as [[e h1]|] eqn:Es; [|done]. apply select_choice in Es as [_ [ns ->]]. injection E as _ <-. steadily.
Qed.
Lemma hb_program p : host_program p → hb p (λ _ g, pa_slots g = [] ∧ pa_conn g = None ∧ pa_gauge g = false) apart.
Proof.
  assert (∀ A (q : prog Host A), all_respect (λ _, True) steady q → hb q (λ _ g, pa_slots g = [] ∧ pa_conn g = None ∧ pa_gauge g = false) apart) as Hs.
  { intros A q Hq. eapply holds_mono; [by apply hb_steady|]. by intros _ g ->. }
  assert (idle 0 apart) as H0 by done.
  intros [A c name method call Hc|fallback c mode params solves|c name|c|c|d _|i]; apply holds_forget.
  - eapply holds_mono; [by apply hb_dispatch|]. by intros _ g [_ ->].
  - unfold Score. apply hb_seq; [apply steady_gets| |done]. intros []; cbn [negb]; [|done].
    apply holds_bind, holds_try. eapply holds_mono; [apply hb_dispatch; [apply out_Value|done]|]. by intros r g [_ ->].
  - apply Hs. unfold Reload. apply all_respect_bind; [apply steady_gets|]. intros [[] []]; try done; apply steady_reload.
  - apply Hs. unfold Stop. apply all_respect_bind; [apply steady_gets|]. intros [running names].
    apply all_respect_bind; [destruct running; [apply steady_modify; steadily|done]|]. intros _. cbn [snd].
    induction names as [|name names IH]; [done|]. cbn [wait_done]. apply all_respect_bind; [apply steady_choice|]. by intros [].
  - apply Hs, steady_modify. steadily.
  - apply Hs, steady_modify. steadily.
  - apply Hs, steady_modify. steadily.
Qed.
End Budget.

(** ** The bounds *)

(** The calls in flight to some plugins, by the gauge. *)
Definition in_flight (names : list string) (h : Host) : Z := foldr (λ name n, gauge_of name h + n)%Z 0%Z names.
Lemma in_flight_sum names h gs : (∀ name, gauge_of name h = Z.of_nat (occ name gs)) →
  in_flight names h = Z.of_nat (sum_list_with (λ name, occ name gs) names).
Proof. intros Hg. induction names as [|name names IH]; [done|]. unfold in_flight in *. simpl. rewrite Hg, IH. lia. Qed.
Lemma length_bind_le {A B C} (f : A → list B) (g : A → list C) l : (∀ x, x ∈ l → length (f x) ≤ length (g x)) → length (l ≫= f) ≤ length (l ≫= g).
Proof.
  induction l as [|x l IH]; intros Hle; [done|]. rewrite !bind_cons, !length_app. pose proof (Hle x ltac:(left)).
  specialize (IH (λ y Hy, Hle y ltac:(by right))). lia.
Qed.
Lemma occ_bind_le `{EqDecision B, EqDecision C} {A} (f : A → list B) (g : A → list C) x y l :
  (∀ z, z ∈ l → occ x (f z) ≤ occ y (g z)) → occ x (l ≫= f) ≤ occ y (l ≫= g).
Proof.
  induction l as [|z l IH]; intros Hle; [done|]. rewrite !bind_cons, !occ_app. pose proof (Hle z ltac:(left)).
  specialize (IH (λ w Hw, Hle w ltac:(by right))). lia.
Qed.
Lemma bind_filter {A B} (P : B → Prop) `{∀ x, Decision (P x)} (f : A → list B) l : l ≫= (λ x, filter P (f x)) = filter P (l ≫= f).
Proof. induction l as [|x l IH]; [done|]. by rewrite !bind_cons, filter_app, IH. Qed.
(** The calls that the gauge counts hold a slot of their plugin, and one of all plugins. *)
Lemma gauge_slot b h g name s : part_ok b h g → (∀ p, p_plugins h !! name = Some p → mg_sem p = s) → occ name (gauges_of g) ≤ occ s (pa_slots g).
Proof.
  intros [_ Hcall _ _ Hg] Hs. unfold gauges_of. destruct (pa_gauge g); [|rewrite occ_nil; lia].
  destruct (Hg eq_refl) as (m & s' & E & Hin & _). rewrite E, occ_one. simpl. destruct (decide (m = name)) as [->|]; [|lia].
  destruct (Hcall _ _ E) as (p & Hp & <-). rewrite (Hs p Hp) in Hin. by apply occ_elem.
Qed.
Lemma gauge_global b h g i : part_ok b h g → bu_global b = Some i → length (gauges_of g) ≤ length (filter (λ j, j = i) (pa_slots g)).
Proof.
  intros [_ Hcall _ _ Hg] Hi. unfold gauges_of. destruct (pa_gauge g); [|simpl; lia].
  destruct (Hg eq_refl) as (m & s & E & _ & Hin). rewrite E. simpl. by apply (occ_elem i), Hin.
Qed.

Section Bounds.
Context `{PluginProcesses} {HL : PluginLaws} (c : superConfig) (pidfileDir : bool) (config_of : Manifest → res (gmap string string)).
Context (parse : string → res Manifest) (range : gmap string ConfigKey → list (string * ConfigKey)).

Lemma budget_run b gcap n Enabled tokens root clients h ps' h' :
  p_plugins h = ∅ → p_conns h = [] → p_gauge h = ∅ → p_budget h = b →
  (∀ i s, p_sems h !! i = Some s → sm_taken s = 0) → (∀ i, bu_global b = Some i → ∃ s, p_sems h !! i = Some s ∧ sm_cap s = gcap) →
  Forall host_program clients →
  rtc pool_step (booted c pidfileDir config_of parse range n Enabled tokens root :: clients, h) (ps', h') →
  ∃ gs, Forall2 (λ p g, holds (λ g, pa_slots g = [] ∧ pa_conn g = None ∧ pa_gauge g = false) (budget_inv b gcap) (λ _ _, True) p
          (λ _ g, pa_slots g = [] ∧ pa_conn g = None ∧ pa_gauge g = false) g) ps' gs ∧ budget_inv b gcap gs h'.
Proof.
  intros Ep Ec Eg Eb Es Ei Hc Hr.
  set (names := match discoverPlugins parse range root with Ok found => d_name <$> found | Err _ => [] end).
  assert (NoDup names) as Hn.
  { unfold names. destruct (discoverPlugins parse range root) as [found|] eqn:E; [by eapply discoverPlugins_NoDup|constructor]. }
  destruct (holds_pool (λ g, pa_slots g = [] ∧ pa_conn g = None ∧ pa_gauge g = false) (budget_inv b gcap) (λ _ _, True) (budget_inv_perm b gcap)
    (booted c pidfileDir config_of parse range n Enabled tokens root :: clients) (booking names :: replicate (length clients) apart) h ps' h')
    as (gs & Hgs & HI & _); [| |exact Hr|by exists gs].
  - constructor.
    + unfold booted. apply holds_forget. unfold Boot. destruct Enabled; cbn [negb]; [|done].
      unfold names. destruct (discoverPlugins parse range root) as [[|d found]|]; [done| |done].
      eapply hb_seq; [apply steady_modify; intros h0; by apply steady_fields| |done]. intros _. apply (hb_launch_all _ _ _ _ _ n tokens (d :: found)).
    + clear Hr. induction Hc as [|p ps Hp _ IH]; simpl; [constructor|]. constructor; [by apply hb_program|done].
  - clear Hr. assert (budget_inv b gcap [booking names] h) as HI.
    { split.
      - done.
      - intros i s Hi. simpl. rewrite (Es i s Hi), occ_nil. lia.
      - rewrite Ec. done.
      - intros name. unfold gauge_of. by rewrite Eg.
      - intros g ->%list_elem_of_singleton. split; simpl; [lia|done|done|by intros i ?%elem_of_nil|done].
      - rewrite Ep. done.
      - done.
      - simpl. by rewrite app_nil_r.
      - rewrite Ep. done. }
    induction Hc as [|p ps _ _ IH]; [done|]. simpl. eapply budget_inv_perm; [apply Permutation_swap|]. exact (proj1 (inv_apart _ _ _ _) IH).
Qed.

(** C32: Under every interleaving of the boot, supervisors, calls, reloads, crashes and the stop: the calls in
    flight to a plugin, as the gauge counts them, never exceed its cap (64 when none is configured),
    those to any set of plugins together never exceed the global one, and the count
    that a drain waits for is never negative; and once everything has ended all of them are zero, with every slot
    returned. *)
Theorem plugin_calls_bounded PerPluginCap GlobalCap QueueWait now rand choices n Enabled tokens root clients ps' h' :
  Forall host_program clients →
  rtc pool_step (booted c pidfileDir config_of parse range n Enabled tokens root :: clients, New PerPluginCap GlobalCap QueueWait now rand choices) (ps', h') →
  (∀ name, 0 ≤ gauge_of name h' ≤ if PerPluginCap <=? 0 then 64 else PerPluginCap)%Z ∧
  ((0 < GlobalCap)%Z → ∀ names, NoDup names → (in_flight names h' ≤ GlobalCap)%Z) ∧
  (∀ k x, p_conns h' !! k = Some x → (0 ≤ cn_inflight x)%Z) ∧
  (Forall (λ p, p = Ret tt) ps' →
    (∀ name, gauge_of name h' = 0%Z) ∧ (∀ k x, p_conns h' !! k = Some x → cn_inflight x = 0%Z) ∧ ∀ i s, p_sems h' !! i = Some s → sm_taken s = 0).
Proof.
  set (h := New PerPluginCap GlobalCap QueueWait now rand choices). intros Hc Hr.
  destruct (budget_run (p_budget h) (Z.to_nat GlobalCap) n Enabled tokens root clients h ps' h') as (gs & Hgs & [Ib Is Ic Ig Ip Il Io In If]); try done.
  - by unfold h, New, newBudget; destruct (0 <? GlobalCap)%Z.
  - by unfold h, New, newBudget; destruct (0 <? GlobalCap)%Z.
  - by unfold h, New, newBudget; destruct (0 <? GlobalCap)%Z.
  - unfold h, New, newBudget. destruct (0 <? GlobalCap)%Z; simpl; [|done]. intros i s Hi. by apply list_lookup_singleton_Some in Hi as [_ <-].
  - unfold h, New, newBudget. destruct (0 <? GlobalCap)%Z; simpl; [|done]. intros i [= <-]. simpl. eauto.
  - split_and!.
    + intros name. rewrite Ig. split; [lia|].
      assert (Z.of_nat (plugin_cap (p_budget h)) = if PerPluginCap <=? 0 then 64 else PerPluginCap)%Z as <-.
      { unfold plugin_cap, h, New, newBudget. destruct (0 <? GlobalCap)%Z, (Z.leb_spec PerPluginCap 0); simpl; [done| |done|];
          (destruct (Z.leb_spec PerPluginCap 0); lia). }
      destruct (p_plugins h' !! name) as [p|] eqn:Ep.
      * destruct (pf_sem _ _ _ (Il _ _ Ep)) as (s & Es & <-). destruct (Is _ _ Es) as [Et Hle].
        pose proof (occ_bind_le gauges_of pa_slots name (mg_sem p) gs) as Hocc. rewrite <- Et in Hocc.
        assert (occ name (gs ≫= gauges_of) ≤ sm_taken s); [|lia]. apply Hocc. intros g Hg. eapply gauge_slot; [by apply Ip|]. rewrite Ep. by intros q [= <-].
      * rewrite (occ_bind_none gauges_of); [lia|]. intros g Hg.
        apply occ_none. intros m Hm ->. unfold gauges_of in Hm. destruct (pa_gauge g) eqn:Eg; [|by apply elem_of_nil in Hm].
        destruct (pk_gauge _ _ _ (Ip g Hg) Eg) as (k & s & E & _). rewrite E in Hm. apply list_elem_of_singleton in Hm as ->.
        destruct (pk_call _ _ _ (Ip g Hg) _ _ E) as (q & Hq & _). simpl in *. congruence.
    + intros HG names Hn. rewrite (in_flight_sum names h' _ Ig). destruct (bu_global (p_budget h)) as [i|] eqn:Ei.
      2:{ exfalso. revert Ei. unfold h, New, newBudget. by destruct (Z.ltb_spec 0 GlobalCap); [|lia]. }
      destruct (Io i eq_refl) as (s & Es & Ecap). destruct (Is _ _ Es) as [Et Hle].
      pose proof (occ_sum (gs ≫= gauges_of) names Hn) as H1.
      pose proof (length_bind_le gauges_of (λ g, filter (λ j, j = i) (pa_slots g)) gs) as H2.
      rewrite (bind_filter _ pa_slots) in H2. fold (occ i (gs ≫= pa_slots)) in H2.
      specialize (H2 (λ g Hg, gauge_global _ _ _ _ (Ip g Hg) Ei)). lia.
    + intros k x Hk. rewrite (Ic k x Hk). lia.
    + intros Hend. pose proof (holds_ended _ _ _ _ _ Hgs Hend) as Hfin. rewrite Forall_forall in Hfin.
      assert (∀ `{EqDecision A} (f : part → list A) x, (∀ g, g ∈ gs → f g = []) → occ x (gs ≫= f) = 0) as Hz.
      { intros A Hdec f x Hf. apply occ_bind_none. intros g Hg. by rewrite Hf. }
      split_and!.
      * intros name. rewrite Ig, Hz; [done|]. intros g Hg. unfold gauges_of. by destruct (Hfin g Hg) as (_ & _ & ->).
      * intros k x Hk. rewrite (Ic k x Hk), Hz; [done|]. intros g Hg. unfold conns_of. by destruct (Hfin g Hg) as (_ & -> & _).
      * intros i s Hi. destruct (Is i s Hi) as [-> _]. apply Hz. intros g Hg. by destruct (Hfin g Hg) as (-> & _).
Qed.
End Bounds.

(** Two of three calls are in flight; the third waits for a slot of the plugin. *)
Definition three_calls : list (prog Host unit) * Host :=
  advances [(0, 100); (4, 100); (1, 9); (2, 9); (3, 100)] [demo_boot ["scorer"]; ask_score; ask_score; ask_score] (demo_host []).
Lemma three_calls_run : rtc pool_step (demo_boot ["scorer"] :: [ask_score; ask_score; ask_score], demo_host []) (three_calls.1, three_calls.2).
Proof. rewrite <- surjective_pairing. apply advances_sound. Qed.
Lemma plugin_calls_bounded_witness :
  gauge_of "scorer" three_calls.2 = 2%Z ∧ sm_taken <$> p_sems three_calls.2 = [2; 2] ∧ (in_flight ["scorer"] three_calls.2 ≤ 3)%Z.
Proof.
  split; [vm_compute; reflexivity|]. split; [vm_compute; reflexivity|].
  assert (Forall host_program [ask_score; ask_score; ask_score]) as Hc by repeat constructor.
  apply (plugin_calls_bounded demo_cfg false (λ _, Ok ∅) demo_parse map_to_list 2 3 0 0 [] [] 8 true []
    (Ok (Some (demo_entry <$> ["scorer"]))) _ three_calls.1 three_calls.2 Hc three_calls_run); [done|apply NoDup_singleton].
Defined.
