(* ===== verification/FdBudget.v ===== *)
(** * The file-descriptor budget ([internal/fdbudget/budget.go], [cmd/platform/budget.go])

    One accountant splits what the process may open: a reserve first, then the plugins'
    calls, then the websocket connections.  What [main.go] makes of the shares: the global
    cap of the plugin host and the connection cap of the hub. *)

From S2P Require Import Prelude Env Scoring Challenges AuthApi Events Scoreboard Hub PluginFiles Plugins.

(** ** The accountant ([budget.go]) *)

Definition unlimited : Z := 2 ^ 31.
Record Claim := { cl_Name : string; cl_Want : Z; cl_Granted : Z; cl_Clamped : bool }.
Record Budget := { fb_soft : Z; fb_reserved : Z; fb_remaining : Z; fb_unbounded : bool; fb_claims : list Claim }.

Definition fd_New (fdSoftLimit : Z) : Budget :=
  if (fdSoftLimit =? 0)%Z || (unlimited <=? fdSoftLimit)%Z
  then {| fb_soft := 0; fb_reserved := 0; fb_remaining := 0; fb_unbounded := true; fb_claims := [] |}
  else
    let reserve := (fdSoftLimit / 4)%Z in
    let reserve := if (reserve <? 256)%Z then 256%Z else reserve in
    let remaining := if (reserve <? fdSoftLimit)%Z then (fdSoftLimit - reserve)%Z else 0%Z in
    {| fb_soft := fdSoftLimit; fb_reserved := reserve; fb_remaining := remaining; fb_unbounded := false; fb_claims := [] |}.
(** [Budget.Claim]: what is granted, and whether the limit was what bound it. *)
Definition claim (name : string) (want : Z) (b : Budget) : (Z * bool) * Budget :=
  let booked granted clamped remaining :=
    ((granted, clamped),
     {| fb_soft := fb_soft b; fb_reserved := fb_reserved b; fb_remaining := remaining; fb_unbounded := fb_unbounded b;
        fb_claims := fb_claims b ++ [{| cl_Name := name; cl_Want := want; cl_Granted := granted; cl_Clamped := clamped |}] |}) in
  if fb_unbounded b then booked want false (fb_remaining b) else
  let rem := fb_remaining b in
  let '(granted, clamped) := if (want <=? 0)%Z || (rem <? want)%Z then (rem, true) else (want, false) in
  booked granted clamped (rem - granted)%Z.
Definition Split (b : Budget) : Z * Z * Z * list Claim := (fb_soft b, fb_reserved b, fb_remaining b, fb_claims b).

(** ** The composition root *)

Record resourceBudget := { rb_acct : Budget; rb_wsMaxConns : Z; rb_pluginGlobal : Z }.
Definition deriveResourceBudget (fdSoft PluginMaxInflightTotal WSMaxConns : Z) : resourceBudget :=
  let '((pluginGlobal, _), acct) := claim "plugin-inflight" PluginMaxInflightTotal (fd_New fdSoft) in
  let '((wsMaxConns, _), acct) := claim "websocket-conns" WSMaxConns acct in
  {| rb_acct := acct; rb_wsMaxConns := wsMaxConns; rb_pluginGlobal := pluginGlobal |}.
(** The soft limit, or none when it cannot be read. *)
Definition fd_soft (rlimit : res Z) : Z := match rlimit with Ok cur => cur | Err _ => 0%Z end.

(** ** What the shares add up to *)

Definition granted (b : Budget) : Z := foldr (λ c n, cl_Granted c + n)%Z 0%Z (fb_claims b).
Lemma granted_snoc b cs c : fb_claims b = cs ++ [c] → granted b = (foldr (λ c n, cl_Granted c + n)%Z 0%Z cs + cl_Granted c)%Z.
Proof. unfold granted. intros ->. induction cs as [|d cs IH]; simpl in *; lia. Qed.
(** Nothing is given out twice. *)
Record budget_ok (b : Budget) : Prop := {
  bk_closed : fb_unbounded b = false → (granted b + fb_remaining b + fb_reserved b = Z.max (fb_soft b) (fb_reserved b))%Z;
  bk_rest : (0 ≤ fb_remaining b)%Z;
  bk_grants : fb_unbounded b = false → ∀ c, c ∈ fb_claims b → (0 ≤ cl_Granted c)%Z ∧ ((0 < cl_Want c)%Z → (cl_Granted c ≤ cl_Want c)%Z) ∧
    (cl_Clamped c = false → cl_Granted c = cl_Want c)
}.
Lemma fd_New_ok soft : (0 ≤ soft)%Z → budget_ok (fd_New soft).
Proof.
  intros Hs. unfold fd_New. destruct (_ || _); [by split; [|done|intros ? c ?%elem_of_nil]|].
  destruct (Z.ltb_spec (soft / 4) 256); [destruct (Z.ltb_spec 256 soft)|destruct (Z.ltb_spec (soft / 4) soft)];
    (split; simpl; [unfold granted; simpl; lia|lia|by intros _ c ?%elem_of_nil]).
Qed.
Lemma claim_ok name want b : budget_ok b → budget_ok (claim name want b).2.
Proof.
  intros [Hc Hr Hg]. unfold claim. destruct (fb_unbounded b) eqn:Eu; [split; simpl; [congruence|done|congruence]|].
  specialize (Hc eq_refl). specialize (Hg eq_refl).
  assert (∀ c : Claim, (0 ≤ cl_Granted c)%Z → ((0 < cl_Want c)%Z → (cl_Granted c ≤ cl_Want c)%Z) → (cl_Clamped c = false → cl_Granted c = cl_Want c) →
    (cl_Granted c ≤ fb_remaining b)%Z → budget_ok {| fb_soft := fb_soft b; fb_reserved := fb_reserved b; fb_remaining := (fb_remaining b - cl_Granted c)%Z;
       fb_unbounded := false; fb_claims := fb_claims b ++ [c] |}) as Hk.
  { intros c H1 H2 H3 H4. split.
    - intros _. rewrite (granted_snoc _ (fb_claims b) c) by done. simpl. unfold granted in Hc. lia.
    - simpl. lia.
    - intros _ d. simpl. intros [Hd| ->%list_elem_of_singleton]%elem_of_app; [by apply Hg|done]. }
  destruct (Z.leb_spec want 0); [|destruct (Z.ltb_spec (fb_remaining b) want)]; cbn [orb snd];
    (match goal with |- context [fb_claims b ++ [?c]] => apply (Hk c) end; simpl; [lia|lia|done|lia]).
Qed.

(** The shares that start the hub and the plugin host, and the reserve, never add up to more than the soft
    limit when it covers the reserve; each is at most what was asked for, the plugins'
    share being cut only when it is all there is; a share that is cut is all that was left.  Without a
    limit both are what was asked for. *)
Theorem deriveResourceBudget_exact fdSoft PluginMaxInflightTotal WSMaxConns :
  (0 ≤ fdSoft)%Z → (0 < PluginMaxInflightTotal)%Z →
  let rb := deriveResourceBudget fdSoft PluginMaxInflightTotal WSMaxConns in
  let '(soft, reserved, remaining, claims) := Split (rb_acct rb) in
  if fb_unbounded (rb_acct rb)
  then (fdSoft = 0 ∨ 2 ^ 31 ≤ fdSoft)%Z ∧ rb_pluginGlobal rb = PluginMaxInflightTotal ∧ rb_wsMaxConns rb = WSMaxConns
  else soft = fdSoft ∧ reserved = Z.max 256 (fdSoft / 4) ∧
    (rb_pluginGlobal rb + rb_wsMaxConns rb + remaining + reserved = Z.max soft reserved)%Z ∧ (0 ≤ remaining)%Z ∧
    rb_pluginGlobal rb = Z.min PluginMaxInflightTotal (Z.max 0 (fdSoft - reserved)) ∧
    rb_wsMaxConns rb = (if WSMaxConns <=? 0 then Z.max 0 (fdSoft - reserved) - rb_pluginGlobal rb
      else Z.min WSMaxConns (Z.max 0 (fdSoft - reserved) - rb_pluginGlobal rb))%Z.
Proof.
  intros Hs Hp. unfold deriveResourceBudget, claim, Split, fd_New, unlimited.
  destruct (Z.eqb_spec fdSoft 0) as [->|H0]; cbn [orb fb_unbounded]; [simpl; split_and!; [by left|done|done]|].
  destruct (Z.leb_spec (2 ^ 31) fdSoft) as [H1|H1]; cbn [orb fb_unbounded]; [simpl; split_and!; [by right|done|done]|].
  repeat (match goal with
  | |- context [(?x <? ?y)%Z] => destruct (Z.ltb_spec x y)
  | |- context [(?x <=? ?y)%Z] => destruct (Z.leb_spec x y)
  end; cbn [orb fb_remaining fb_unbounded fb_soft fb_reserved fb_claims rb_acct rb_wsMaxConns rb_pluginGlobal]); cbn [fb_remaining] in *; split_and!; lia.
Qed.
Lemma deriveResourceBudget_exact_witness :
  (let rb := deriveResourceBudget 1024 256 20000 in rb_pluginGlobal rb = 256%Z ∧ rb_wsMaxConns rb = 512%Z) ∧
  (256 + 512 + 0 + 256 = Z.max 1024 256)%Z.
Proof.
  split; [vm_compute; done|]. pose proof (deriveResourceBudget_exact 1024 256 20000 ltac:(lia) ltac:(lia)) as H. vm_compute in H. apply H.
Defined.

(** ** A share of nothing *)

(** What the shares start: the plugin host and the hub's limits. *)
Definition started (rb : resourceBudget) (perPlugin : Z) (wait : duration) : Host * Limits :=
  (New perPlugin (rb_pluginGlobal rb) wait 0 [] [],
   {| MaxConns := rb_wsMaxConns rb; MaxConnsPerKey := 256; HandshakeBurst := 600; HandshakeWindow := Minute |}).
(** With 512 descriptors the plugins' calls take all that the reserve leaves, and the connections' share is zero: which
    the hub takes for no limit.  With 256 the plugins' calls have no share either, nor a global limit. *)
Lemma no_share_is_no_limit :
  (let rb := deriveResourceBudget 512 256 20000 in
   rb_wsMaxConns rb = 0%Z ∧
   ∀ now key n, ad_limits (newAdmissions (started rb 64 Second).2) = (started rb 64 Second).2 ∧
     (admissions_admit now key (with_counts n ∅ (newAdmissions (started rb 64 Second).2))).1 = None) ∧
  (let rb := deriveResourceBudget 256 256 20000 in rb_pluginGlobal rb = 0%Z ∧ bu_global (p_budget (started rb 64 Second).1) = None).
Proof.
  split; [|vm_compute; done]. split; [vm_compute; done|]. intros now key n. split; [done|].
  reflexivity.
Qed.
