(* ===== verification/Http.v ===== *)
(** * Problems and exit codes ([internal/httpx/httpx.go], [ip.go], [cmd/osctf/exit.go],
      [cmd/osctf/root.go])

    The two ends of an error: what the server answers when a handler fails, and the exit
    code of the command that sent the request. *)

From Stdlib Require Import Ascii.
From S2P Require Import Prelude Text Env.

(** ** The server's end ([httpx.go]) *)

Record classified := { cf_typ : string; cf_title : string; cf_status : Z; cf_detail : string; cf_retryAfter : duration }.
(** [errors.As] and [errors.Is] look along the whole chain; only its innermost error is a domain error. *)
Definition as_ (typ title : string) (status : Z) (detail : string) : classified :=
  {| cf_typ := typ; cf_title := title; cf_status := status; cf_detail := detail; cf_retryAfter := 0 |}.
Definition classify_cause (innermost : error) : classified :=
  match innermost with
  | Validation _ => as_ "validation" "" 422 ""
  | RateLimited _ _ => as_ "rate-limited" "" 429 "Slow down and retry shortly."
  | NotFound detail => as_ "not-found" "Not found" 404 detail
  | ErrNotFound => as_ "not-found" "Not found" 404 "Resource not found."
  | Forbidden detail => as_ "forbidden" "Forbidden" 403 detail
  | ErrForbidden => as_ "forbidden" "Forbidden" 403 "You are not allowed to do that."
  | Conflict detail => as_ "conflict" "Conflict" 409 detail
  | ErrConflict => as_ "conflict" "Conflict" 409 "Conflicting request."
  | ErrUnauthenticated => as_ "unauthenticated" "Authentication required" 401 "You must be signed in."
  | ErrBadRequest => as_ "bad-request" "Bad request" 400 "The request could not be understood."
  | Unavailable detail after =>
      {| cf_typ := "unavailable"; cf_title := "Service unavailable"; cf_status := 503; cf_detail := detail; cf_retryAfter := after |}
  | ErrUnavailable => as_ "unavailable" "Service unavailable" 503 "A dependency is temporarily unavailable."
  | NotImplemented detail => as_ "not-implemented" "Not implemented" 501 detail
  | ErrNotImplemented => as_ "not-implemented" "Not implemented" 501 "This endpoint is not implemented yet."
  | _ => as_ "internal" "Internal server error" 500 "Something broke. Reference the request id when reporting this."
  end%Z.
Definition classify (err : error) : classified := classify_cause (cause err).

Definition problemBase : string := "https://osctf.dev/errors/".
Record Problem := {
  pb_Type : string; pb_Title : string; pb_Status : Z; pb_Detail : string;
  pb_Errors : gmap string (list string); pb_RequestID : string
}.
(** [secs := int(d.Seconds()); if secs < 1 { secs = 1 }]. *)
Definition retry_seconds (d : duration) : Z := Z.max 1 (Z.quot d Second).
(** What [RenderError] writes: the [Retry-After] header, the problem, and whether the error is logged. *)
Record Rendered := { rd_RetryAfter : option Z; rd_Problem : Problem; rd_Logged : bool }.
Definition WriteProblem (requestID : string) (retry : option Z) (logged : bool) (typ title : string) (status : Z)
    (detail : string) (errors : gmap string (list string)) : Rendered :=
  {| rd_RetryAfter := retry; rd_Logged := logged;
     rd_Problem := {| pb_Type := problemBase +:+ typ; pb_Title := title; pb_Status := status; pb_Detail := detail;
                      pb_Errors := errors; pb_RequestID := requestID |} |}.
Definition render (requestID : string) (innermost : error) : Rendered :=
  let e := classify_cause innermost in
  match innermost with
  | Validation fields =>
      WriteProblem requestID None false "validation" "Validation failed" 422 "One or more fields are invalid." fields
  | RateLimited after _ =>
      WriteProblem requestID (Some (retry_seconds after)) false "rate-limited" "Too many requests" 429 (cf_detail e) ∅
  | _ =>
      WriteProblem requestID (if (0 <? cf_retryAfter e)%Z then Some (retry_seconds (cf_retryAfter e)) else None)
        (cf_status e =? 500)%Z (cf_typ e) (cf_title e) (cf_status e) (cf_detail e) ∅
  end.
Definition RenderError (requestID : string) (err : error) : Rendered := render requestID (cause err).

Section ClientIP.
(** [net.ParseIP] with [String], and [net.SplitHostPort]'s host. *)
Context (ParseIP SplitHostPort : string → option string).
Definition ClientIP (RemoteAddr XForwardedFor : string) (trustProxy : bool) : string :=
  let peer := default RemoteAddr (SplitHostPort RemoteAddr) in
  if trustProxy && negb (bool_decide (XForwardedFor = ""))
  then default peer (ParseIP (TrimSpace (default "" (head (Split XForwardedFor ","))))) else peer.
(** Without a trusted proxy the header is not looked at. *)
Lemma untrusted_header_ignored addr xff xff' : ClientIP addr xff false = ClientIP addr xff' false.
Proof. done. Qed.
End ClientIP.

(** ** The client's end ([exit.go]) *)

Definition exitOK : Z := 0.
Definition exitError : Z := 1.
Definition exitUsage : Z := 2.
Definition exitAuth : Z := 3.
Definition exitNotFound : Z := 4.
Definition exitConflict : Z := 5.
Definition exitValidation : Z := 6.
Definition exitUnavailable : Z := 7.

Definition exitForStatus (status : Z) : Z :=
  (if (200 <=? status) && (status <? 300) then exitOK
   else if (status =? 401) || (status =? 403) then exitAuth
   else if status =? 404 then exitNotFound
   else if status =? 409 then exitConflict
   else if status =? 422 then exitValidation
   else if 500 <=? status then exitUnavailable
   else exitError)%Z.

(** [cliError], and any other error. *)
Inductive cli_err :=
  | cliError (code : Z) (msg detail : string) (fields : gmap string (list string)) (reported : bool)
  | plainError (msg : string).
Definition errf (code : Z) (msg : string) : cli_err := cliError code msg "" ∅ false.
Definition Error_text (e : cli_err) : string :=
  match e with
  | cliError _ msg detail _ _ => if bool_decide (detail = "") then msg else msg +:+ ": " +:+ detail
  | plainError msg => msg
  end.
Definition codeOf (err : option cli_err) : Z :=
  match err with
  | None => exitOK
  | Some (cliError code _ _ _ _) => code
  | Some (plainError _) => exitError
  end.
(** [root.go]: [body] is the problem when the server sent one. *)
Definition apiErr (what : string) (status : Z) (body : option Problem) : cli_err :=
  let msg := what +:+ " failed (HTTP " +:+ of_bytes (decimal (Z.to_N status)) +:+ ")" in
  match body with
  | None => cliError (exitForStatus status) msg "" ∅ false
  | Some p => cliError (exitForStatus status) (if bool_decide (pb_Title p = "") then msg else what +:+ ": " +:+ pb_Title p)
                (pb_Detail p) (pb_Errors p) false
  end.

(** ** Both ends together *)

(** The documented exit codes, by what the handler reported. *)
Definition exit_of (err : error) : Z :=
  match cause err with
  | ErrUnauthenticated | ErrForbidden | Forbidden _ => exitAuth
  | ErrNotFound | NotFound _ => exitNotFound
  | ErrConflict | Conflict _ => exitConflict
  | Validation _ => exitValidation
  | ErrBadRequest | RateLimited _ _ => exitError
  | _ => exitUnavailable
  end.
(** The errors a caller is told about; the text of any other stays in the server's log. *)
Definition told (err : error) : bool := negb (cf_status (classify err) =? 500)%Z.
Definition error_fields (err : error) : gmap string (list string) :=
  match cause err with Validation v => v | _ => ∅ end.
Definition cli_fields (e : cli_err) : gmap string (list string) := match e with cliError _ _ _ f _ => f | _ => ∅ end.

(** Everything else is answered alike. *)
Definition internal_error (id : string) : Rendered :=
  WriteProblem id None true "internal" "Internal server error" 500
    "Something broke. Reference the request id when reporting this." ∅.
Lemma untold_alike id err : told err = false → RenderError id err = internal_error id.
Proof. unfold told, RenderError, classify. by destruct (cause err). Qed.
Lemma exit_code what id err :
  codeOf (Some (apiErr what (pb_Status (rd_Problem (RenderError id err))) (Some (rd_Problem (RenderError id err))))) = exit_of err.
Proof. unfold RenderError, exit_of. by destruct (cause err). Qed.
Lemma problem_status id err : let s := pb_Status (rd_Problem (RenderError id err)) in (400 ≤ s < 600)%Z ∧ rd_Logged (RenderError id err) = negb (told err).
Proof. unfold RenderError, told, classify. destruct (cause err); (split; [split; [by apply Z.leb_le|by apply Z.ltb_lt]|done]). Qed.
Lemma problem_fields id err : pb_Errors (rd_Problem (RenderError id err)) = error_fields err.
Proof. unfold RenderError, error_fields. by destruct (cause err). Qed.
Lemma retry_a_second id err n : rd_RetryAfter (RenderError id err) = Some n → (1 ≤ n)%Z.
Proof.
  unfold RenderError. destruct (cause err); intros H; try discriminate H.
  all: cbn [render WriteProblem rd_RetryAfter] in H; unfold retry_seconds in H; repeat case_match; simplify_eq/=; lia.
Qed.

(** A failure never looks like a success, keeps its meaning and its fields on the way to the shell, and tells no
    more than its kind: the client's exit code is the documented one of what the handler reported, the fields it
    prints are the validation's, an error the server does not know is answered with the same words whatever its
    text and is the only kind that is logged, and a response that says when to come back says at least a second. *)
Theorem failures_reach_the_shell what id err :
  let r := RenderError id err in let p := rd_Problem r in let e := apiErr what (pb_Status p) (Some p) in
  codeOf (Some e) = exit_of err ∧ exit_of err ≠ exitOK ∧ (400 ≤ pb_Status p < 600)%Z ∧
  cli_fields e = error_fields err ∧ rd_Logged r = negb (told err) ∧
  (told err = false → ∀ err', told err' = false → RenderError id err' = r) ∧
  (told err = false → pb_Detail p = "Something broke. Reference the request id when reporting this.") ∧
  (∀ n, rd_RetryAfter r = Some n → (1 ≤ n)%Z).
Proof.
  cbv zeta. split_and!; [apply exit_code|unfold exit_of; by destruct (cause err)|apply problem_status..|apply problem_fields|apply problem_status| | |apply retry_a_second].
  - intros H err' H'. by rewrite !untold_alike.
  - intros H. by rewrite untold_alike.
Qed.
