(* ===== verification/Authoring.v ===== *)
(** * Challenge directories ([internal/challengespec/spec.go], [internal/seed/examples.go],
      [cmd/osctf/authoring.go])

    A challenge as an author writes it: the file's rules, the bundle the client builds of a
    directory, the request it makes of it, and the seeding of the examples on first boot. *)

From Stdlib Require Import Ascii.
From S2P Require Import Prelude Text Env Store Accounts Challenges Http.

(** ** [path/filepath], on slash-separated paths *)

Abbreviation segment := (list ascii) (only parsing).
Definition dot : list ascii := ["."%char].
Definition dotdot : list ascii := ["."; "."]%char.
(** The cleaned segments so far, last first. *)
Definition clean_step (rooted : bool) (acc : list segment) (s : segment) : list segment :=
  if bool_decide (s = []) || bool_decide (s = dot) then acc
  else if bool_decide (s = dotdot) then
    match acc with
    | x :: acc' => if bool_decide (x = dotdot) then dotdot :: acc else acc'
    | [] => if rooted then [] else [dotdot]
    end
  else s :: acc.
Definition clean_segments (rooted : bool) (l : list segment) : list segment := rev (foldl (clean_step rooted) [] l).
Fixpoint join_segments (l : list segment) : list ascii :=
  match l with
  | [] => []
  | [s] => s
  | s :: l => s ++ "/"%char :: join_segments l
  end.
Definition IsAbs (p : string) : bool := HasPrefix p "/".
Definition segments (p : string) : list segment := split_on "/" (to_bytes p).
Definition Clean (p : string) : string :=
  let l := clean_segments (IsAbs p) (segments p) in
  if IsAbs p then String "/" (of_bytes (join_segments l))
  else match l with [] => "." | _ => of_bytes (join_segments l) end.
(** [filepath.Join] of two elements; empty ones are left out. *)
Definition Join2 (a b : string) : string :=
  if bool_decide (a = "") then (if bool_decide (b = "") then "" else Clean b)
  else if bool_decide (b = "") then Clean a else Clean (a +:+ "/" +:+ b).
(** [filepath.Base]: trailing slashes are not looked at. *)
Definition Base (p : string) : string :=
  if bool_decide (p = "") then "." else
  match List.filter (λ s, negb (bool_decide (s = []))) (segments p) with
  | [] => "/"
  | l => of_bytes (List.last l [])
  end.

(** ** [challengespec/spec.go] *)

Inductive spec_error :=
  | ValidationError (Fields : list string) (Message : string)
  | OtherError (msg : string)
  | Wrapped (prefix : string) (e : spec_error).
Definition FieldErrors (Fields : list string) (Message : string) : gmap string (list string) :=
  foldl (λ out f, Add f Message out) ∅ Fields.

Record Spec := {
  sp_Slug : string; sp_Title : string; sp_Category : string; sp_Difficulty : string; sp_Description : string;
  sp_Flag : string; sp_FlagCaseInsensitive : bool; sp_Scoring : string; sp_PointsInitial : Z;
  sp_PointsMin : option Z; sp_Decay : option Z; sp_MaxAttempts : option Z; sp_Visible : bool;
  sp_Kind : string; sp_Image : string; sp_InternalPort : option Z; sp_MemLimitMB : option Z; sp_CPUMillis : option Z;
  sp_ConnectionTemplate : string; sp_InjectFlag : option bool; sp_ContainerEnv : gmap string string;
  sp_Files : list string; sp_Instancing : string; sp_FlagMode : string; sp_InstanceTTLSeconds : option Z;
  sp_Egress : option bool; sp_WritablePaths : list string
}.
Definition quoted (s : string) : string := String "034" (s +:+ String "034" "").
Definition spec_defaults (c : Spec) : Spec :=
  {| sp_Slug := sp_Slug c; sp_Title := sp_Title c; sp_Category := sp_Category c; sp_Difficulty := sp_Difficulty c;
     sp_Description := sp_Description c; sp_Flag := sp_Flag c; sp_FlagCaseInsensitive := sp_FlagCaseInsensitive c;
     sp_Scoring := or_default (sp_Scoring c) "dynamic"; sp_PointsInitial := sp_PointsInitial c;
     sp_PointsMin := sp_PointsMin c; sp_Decay := sp_Decay c; sp_MaxAttempts := sp_MaxAttempts c;
     sp_Visible := sp_Visible c; sp_Kind := or_default (sp_Kind c) "standard"; sp_Image := sp_Image c;
     sp_InternalPort := sp_InternalPort c; sp_MemLimitMB := sp_MemLimitMB c; sp_CPUMillis := sp_CPUMillis c;
     sp_ConnectionTemplate := sp_ConnectionTemplate c; sp_InjectFlag := sp_InjectFlag c;
     sp_ContainerEnv := sp_ContainerEnv c; sp_Files := sp_Files c; sp_Instancing := sp_Instancing c;
     sp_FlagMode := sp_FlagMode c; sp_InstanceTTLSeconds := sp_InstanceTTLSeconds c; sp_Egress := sp_Egress c;
     sp_WritablePaths := sp_WritablePaths c |}.

Definition check_kind (c : Spec) : option spec_error :=
  if bool_decide (sp_Kind c = "standard") then
    if negb (bool_decide (sp_Image c = "")) || is_Some_b (sp_InternalPort c)
    then Some (ValidationError ["image"; "internal_port"] "standard challenges must not set image/internal_port") else None
  else if bool_decide (sp_Kind c = "container") then
    if bool_decide (sp_Image c = "") || negb (is_Some_b (sp_InternalPort c))
    then Some (ValidationError ["image"; "internal_port"] "container challenges require image and internal_port") else None
  else Some (ValidationError ["kind"] ("kind " +:+ quoted (sp_Kind c) +:+ " must be standard or container")).
(** The rules in the order they are tried: the first that is broken is the error. *)
Definition rules (dirName : string) (c : Spec) : list (option spec_error) :=
  let broken (b : bool) e := if b then Some e else None in
  [ broken (negb (slugRe (sp_Slug c))) (ValidationError ["slug"] ("slug " +:+ quoted (sp_Slug c) +:+ " is not url-safe"));
    broken (negb (bool_decide (sp_Slug c = dirName)))
      (ValidationError ["slug"] ("slug " +:+ quoted (sp_Slug c) +:+ " must equal the directory name " +:+ quoted dirName));
    broken (bool_decide (sp_Title c = "") || bool_decide (sp_Flag c = ""))
      (ValidationError ["title"; "flag"] "title and flag are required");
    check_kind c;
    broken (not_one_of (sp_Instancing c) "shared" "per_team")
      (ValidationError ["instancing"] ("instancing " +:+ quoted (sp_Instancing c) +:+ " must be shared or per_team"));
    broken (not_one_of (sp_FlagMode c) "static" "per_instance")
      (ValidationError ["flag_mode"] ("flag_mode " +:+ quoted (sp_FlagMode c) +:+ " must be static or per_instance"));
    broken (negb (bool_decide (sp_Kind c = "container")) &&
            (bool_decide (sp_Instancing c = "per_team") || bool_decide (sp_FlagMode c = "per_instance") ||
             is_Some_b (sp_InstanceTTLSeconds c) || bool_decide (sp_Egress c = Some false) ||
             negb (bool_decide (sp_WritablePaths c = []))))
      (ValidationError ["kind"] "per-team instancing / flag_mode / ttl / egress / writable_paths require kind: container");
    broken (bool_decide (sp_Scoring c = "dynamic") && (negb (is_Some_b (sp_PointsMin c)) || negb (is_Some_b (sp_Decay c))))
      (ValidationError ["points_min"; "decay"] "dynamic scoring requires points_min and decay");
    broken (sp_PointsInitial c <=? 0)%Z (ValidationError ["points_initial"] "points_initial must be positive") ].
Definition Validate (dirName : string) (c : Spec) : option spec_error := head (omap id (rules dirName c)).

(** Files are read at paths; the file's text is decoded by the YAML library. *)
Class AuthorLibs := { yaml_Spec : string → Spec + string }.

Section Parse.
Context `{AuthorLibs}.

Definition Parse (raw dirName : string) : Spec + spec_error :=
  match yaml_Spec raw with
  | inr msg => inr (Wrapped "parsing: " (OtherError msg))
  | inl c => let c := spec_defaults c in
             match Validate dirName c with Some e => inr e | None => inl c end
  end.
Definition ParseFile (ReadFile : string → string + string) (path dirName : string) : Spec + spec_error :=
  match ReadFile path with
  | inr msg => inr (Wrapped ("reading " +:+ path +:+ ": ") (OtherError msg))
  | inl raw => match Parse raw dirName with inr e => inr (Wrapped (path +:+ ": ") e) | inl c => inl c end
  end.
End Parse.
Fixpoint spec_Error (e : spec_error) : string :=
  match e with ValidationError _ m => m | OtherError m => m | Wrapped p e => p +:+ spec_Error e end.
(** [asValidation]. *)
Fixpoint asValidation (e : spec_error) : option (list string * string) :=
  match e with ValidationError f m => Some (f, m) | OtherError _ => None | Wrapped _ e => asValidation e end.

(** ** [cmd/osctf/authoring.go]: the bundle *)

(** The kinds of failure of a command, with the exit code. *)
Definition loadSpec `{AuthorLibs} (ReadFile : string → string + string) (dir : string) : Spec + cli_err :=
  match ParseFile ReadFile (Join2 dir "challenge.yaml") (Base dir) with
  | inl c => inl c
  | inr e =>
      match asValidation e with
      | Some (f, m) => inr (cliError exitValidation m "" (FieldErrors f m) false)
      | None => inr (errf exitValidation (spec_Error e))
      end
  end.

(** A member of the archive: the fields of its header that are set. *)
Record TarEntry := { te_Name : string; te_Mode : Z; te_Size : Z; te_Body : string }.
Section Bundle.
(** What the archive writer refuses, and the bytes of the finished archive. *)
Context (tar_Write : TarEntry → option string) (tar_Bytes : list TarEntry → string).
Context (ReadFile : string → string + string).

Definition sort_Strings : list string → list string := merge_sort String.le.
Definition escapes (clean : string) : bool := HasPrefix clean ".." || IsAbs clean.
Definition bundle_entry (dir name : string) : TarEntry + cli_err :=
  let clean := Clean name in
  if escapes clean then inr (errf exitValidation ("file " +:+ quoted name +:+ " escapes the challenge directory")) else
  match ReadFile (Join2 dir clean) with
  | inr msg => inr (errf exitValidation ("reading " +:+ clean +:+ ": " +:+ msg))
  | inl body =>
      let e := {| te_Name := clean; te_Mode := 420; te_Size := Z.of_nat (String.length body); te_Body := body |} in
      match tar_Write e with
      | Some msg => inr (errf exitError ("writing tar header for " +:+ clean +:+ ": " +:+ msg))
      | None => inl e
      end
  end.
Fixpoint bundle_entries (dir : string) (members : list string) : list TarEntry + cli_err :=
  match members with
  | [] => inl []
  | name :: l =>
      match bundle_entry dir name with
      | inr e => inr e
      | inl t => match bundle_entries dir l with inr e => inr e | inl ts => inl (t :: ts) end
      end
  end.
Definition buildBundle (dir : string) (spec : Spec) : string + cli_err :=
  match bundle_entries dir (sort_Strings ("challenge.yaml" :: sp_Files spec)) with
  | inr e => inr e
  | inl ts => inl (tar_Bytes ts)
  end.
End Bundle.

(** ** [cmd/osctf/authoring.go]: the request *)

(** [apiclient.ChallengeAdminCreate]: what is [None] is not sent. *)
Record ChallengeAdminCreate := {
  cb_Title : string; cb_Flag : string; cb_PointsInitial : Z; cb_Category : string; cb_Slug : option string;
  cb_Visible : option bool; cb_Description : option string; cb_Difficulty : option string; cb_Scoring : option string;
  cb_Kind : option string; cb_Type : option string; cb_TypeConfig : option (gmap string string);
  cb_Instancing : option string; cb_FlagMode : option string; cb_Image : option string;
  cb_ConnectionTemplate : option string; cb_FlagCaseInsensitive : option bool; cb_ContainerEnv : option (gmap string string);
  cb_WritablePaths : option (list string); cb_PointsMin : option Z; cb_Decay : option Z; cb_MaxAttempts : option Z;
  cb_InternalPort : option Z; cb_MemLimitMb : option Z; cb_CpuMillis : option Z; cb_InstanceTtlSeconds : option Z;
  cb_Egress : option bool
}.
Definition set_text (s : string) : option string := if bool_decide (s = "") then None else Some s.
Definition specToCreate (s : Spec) (visible : bool) : ChallengeAdminCreate :=
  {| cb_Title := sp_Title s; cb_Flag := sp_Flag s; cb_PointsInitial := sp_PointsInitial s; cb_Category := sp_Category s;
     cb_Slug := Some (sp_Slug s); cb_Visible := Some (visible || sp_Visible s);
     cb_Description := set_text (sp_Description s); cb_Difficulty := set_text (sp_Difficulty s);
     cb_Scoring := set_text (sp_Scoring s); cb_Kind := set_text (sp_Kind s); cb_Type := None; cb_TypeConfig := None;
     cb_Instancing := set_text (sp_Instancing s); cb_FlagMode := set_text (sp_FlagMode s); cb_Image := set_text (sp_Image s);
     cb_ConnectionTemplate := set_text (sp_ConnectionTemplate s);
     cb_FlagCaseInsensitive := if sp_FlagCaseInsensitive s then Some true else None;
     cb_ContainerEnv := if decide (sp_ContainerEnv s = ∅) then None else Some (sp_ContainerEnv s);
     cb_WritablePaths := if decide (sp_WritablePaths s = []) then None else Some (sp_WritablePaths s);
     cb_PointsMin := sp_PointsMin s; cb_Decay := sp_Decay s; cb_MaxAttempts := sp_MaxAttempts s;
     cb_InternalPort := sp_InternalPort s; cb_MemLimitMb := sp_MemLimitMB s; cb_CpuMillis := sp_CPUMillis s;
     cb_InstanceTtlSeconds := sp_InstanceTTLSeconds s; cb_Egress := sp_Egress s |}.
(** What the handler makes of it ([handlers/admin_challenges.go]). *)
Definition create_input (b : ChallengeAdminCreate) : CreateInput :=
  {| ci_Slug := cb_Slug b; ci_Title := cb_Title b; ci_Category := cb_Category b; ci_Description := default "" (cb_Description b);
     ci_Difficulty := cb_Difficulty b; ci_Kind := default "" (cb_Kind b); ci_Type := default "" (cb_Type b);
     ci_TypeConfig := default ∅ (cb_TypeConfig b); ci_Flag := cb_Flag b;
     ci_FlagCaseInsensitive := default false (cb_FlagCaseInsensitive b); ci_Scoring := default "" (cb_Scoring b);
     ci_PointsInitial := cb_PointsInitial b; ci_PointsMin := cb_PointsMin b; ci_Decay := cb_Decay b;
     ci_MaxAttempts := cb_MaxAttempts b; ci_Visible := default false (cb_Visible b); ci_Image := cb_Image b;
     ci_InternalPort := cb_InternalPort b; ci_MemLimitMB := cb_MemLimitMb b; ci_CPUMillis := cb_CpuMillis b;
     ci_ContainerEnv := default ∅ (cb_ContainerEnv b); ci_ConnectionTemplate := cb_ConnectionTemplate b;
     ci_Instancing := default "" (cb_Instancing b); ci_FlagMode := default "" (cb_FlagMode b);
     ci_InstanceTTLSeconds := cb_InstanceTtlSeconds b; ci_Egress := cb_Egress b;
     ci_WritablePaths := default [] (cb_WritablePaths b) |}.

(** ** [internal/seed/examples.go] *)

(** An entry of a directory: its name, and whether it is a directory. *)
Record DirEntry := { dn_Name : string; dn_IsDir : bool }.
(** The server's disk: what is in a directory ([None] when there is none), what can be opened. *)
Record Disk := { dk_ReadDir : string → option (list DirEntry) + string; dk_Exists : string → bool; dk_Read : string → list N + string;
                 dk_Text : string → string + string }.

(** The fields of a container go with its kind. *)
Definition seed_input (c : Spec) : CreateInput :=
  let k := bool_decide (sp_Kind c = "container") in
  {| ci_Slug := Some (sp_Slug c); ci_Title := sp_Title c; ci_Category := sp_Category c; ci_Description := sp_Description c;
     ci_Difficulty := set_text (sp_Difficulty c); ci_Kind := sp_Kind c; ci_Type := ""; ci_TypeConfig := ∅; ci_Flag := sp_Flag c;
     ci_FlagCaseInsensitive := sp_FlagCaseInsensitive c; ci_Scoring := sp_Scoring c; ci_PointsInitial := sp_PointsInitial c;
     ci_PointsMin := sp_PointsMin c; ci_Decay := sp_Decay c; ci_MaxAttempts := sp_MaxAttempts c; ci_Visible := sp_Visible c;
     ci_Image := if k then Some (sp_Image c) else None; ci_InternalPort := if k then sp_InternalPort c else None;
     ci_MemLimitMB := sp_MemLimitMB c; ci_CPUMillis := sp_CPUMillis c; ci_ContainerEnv := sp_ContainerEnv c;
     ci_ConnectionTemplate := if k then set_text (sp_ConnectionTemplate c) else None;
     ci_Instancing := if k then sp_Instancing c else ""; ci_FlagMode := if k then sp_FlagMode c else "";
     ci_InstanceTTLSeconds := if k then sp_InstanceTTLSeconds c else None; ci_Egress := if k then sp_Egress c else None;
     ci_WritablePaths := if k then sp_WritablePaths c else [] |}.

(** [db/gen/challenges.sql.go]. *)
Definition CountChallenges : M World nat := select (λ d, Ok (size (challenges d))).

Section Seed.
Context {L : Libs} `{AuthorLibs}.
Context (types types' : TypeRegistry) (IsRegisteredMode : string → bool).
Context (Put : string → list N → string → P World unit) (Delete : string → P World unit).
Context (disk : Disk).

Definition seed_uploadFile (challenge : uuid) (chalDir rel : string) : P World unit :=
  let clean := Clean rel in
  let full := Join2 chalDir clean in
  match dk_Read disk full with
  | inr msg => throw (Wrap ("seed: opening attachment " +:+ full) (ErrOther msg))
  | inl body =>
      map_err (Wrap ("seed: uploading " +:+ full))
        (UploadAttachment Put Delete challenge (Base clean) "application/octet-stream" body;; mret tt)
  end.
Definition seedOne (chalDir dirName yamlPath : string) : P World unit :=
  match ParseFile (dk_Text disk) yamlPath dirName with
  | inr e => throw (ErrOther (spec_Error e))
  | inl c =>
      created ← map_err (Wrap ("seed: creating " +:+ quoted (sp_Slug c)))
                  (chal_Create types types' IsRegisteredMode (seed_input c));
      for_each (seed_uploadFile (c_ID created) chalDir) (sp_Files c)
  end.
(** A directory without a [challenge.yaml] is passed over. *)
Fixpoint seed_entries (root : string) (l : list DirEntry) : P World nat :=
  match l with
  | [] => mret 0
  | e :: l =>
      let chalDir := Join2 root (dn_Name e) in
      let yamlPath := Join2 chalDir "challenge.yaml" in
      if negb (dn_IsDir e) || negb (dk_Exists disk yamlPath) then seed_entries root l else
      seedOne chalDir (dn_Name e) yamlPath;;
      n ← seed_entries root l;
      mret (S n)
  end.
(** [ExampleSeeder.Seed]. *)
Definition Seed (dir : string) : P World unit :=
  count ← map_err (Wrap "seed: counting challenges") (atomic CountChallenges);
  if (0 <? count)%nat then mret tt else
  let root := Join2 dir "challenges" in
  match dk_ReadDir disk root with
  | inl None => atomic (emit (Log "WARN" "no examples directory found; skipping example seeding"))
  | inr msg => throw (Wrap "seed: reading examples" (ErrOther msg))
  | inl (Some entries) =>
      _ ← seed_entries root entries;
      atomic (emit (Log "INFO" "seeded example challenges"))
  end.
End Seed.
