(* ===== verification/AuthorRules.v ===== *)
(** * Challenge directories: what is proved

    A bundle depends on the declared files of the directory and on nothing outside it, nor on
    the order they are declared in; how the author's verdict and the server's differ. *)

From Stdlib Require Import Ascii.
From S2P Require Import Prelude Text Env Store Accounts Challenges ChallengeRules Http Authoring.

(** ** Paths *)

Definition slash_free (s : segment) : Prop := Forall (λ c, c ≠ "/"%char) s.
(** A segment that names something below. *)
Definition normal (s : segment) : Prop := s ≠ [] ∧ s ≠ dot ∧ s ≠ dotdot ∧ slash_free s.

Lemma split_on_app sep a b : split_on sep (a ++ sep :: b) = split_on sep a ++ split_on sep b.
Proof.
  induction a as [|c a IH]; cbn [app split_on]; [by rewrite Ascii.eqb_refl|].
  rewrite IH. destruct (Ascii.eqb c sep); [done|]. by destruct (split_on sep a) as [|w ws] eqn:E; [destruct a; simpl in E; repeat case_match|].
Qed.
Lemma split_on_nonempty sep l : split_on sep l ≠ [].
Proof. destruct l; simpl; [done|]. by repeat case_match. Qed.
Lemma split_on_free l : Forall slash_free (split_on "/" l).
Proof.
  induction l as [|c l IH]; simpl; [by repeat constructor|].
  destruct (Ascii.eqb c "/") eqn:E; [by constructor; [constructor|]|].
  destruct (split_on "/" l) as [|w ws]; [by repeat constructor; intros ->; discriminate E|].
  inversion IH; subst. constructor; [|done]. constructor; [intros ->; discriminate E|done].
Qed.
Lemma split_join l : l ≠ [] → Forall slash_free l → split_on "/" (join_segments l) = l.
Proof.
  induction l as [|s l IH]; [done|]. intros _ Hf. inversion Hf; subst. destruct l as [|s' l]; [by apply split_on_last|].
  change (join_segments (s :: s' :: l)) with (s ++ "/"%char :: join_segments (s' :: l)).
  rewrite split_on_app, IH by done. by rewrite split_on_last.
Qed.

(** What has been cleaned: some steps up, none when rooted, and then names. *)
Definition cleaned (rooted : bool) (l : list segment) : Prop :=
  ∃ n names, l = replicate n dotdot ++ names ∧ Forall normal names ∧ (rooted = true → n = 0).
Lemma clean_step_ok rooted acc s : slash_free s → cleaned rooted (rev acc) → cleaned rooted (rev (clean_step rooted acc s)).
Proof.
  intros Hf (n & names & E & Hn & Hr). unfold clean_step.
  destruct (bool_decide (s = [])) eqn:E1; [by exists n, names|]. destruct (bool_decide (s = dot)) eqn:E2; [by exists n, names|]. cbn [orb].
  apply bool_decide_eq_false in E1, E2.
  destruct (bool_decide (s = dotdot)) eqn:E3.
  - destruct acc as [|x acc].
    + destruct rooted; [by exists 0, []|]. by exists 1, [].
    + simpl in E. destruct (bool_decide (x = dotdot)) eqn:Ex; [apply bool_decide_eq_true in Ex as ->|apply bool_decide_eq_false in Ex].
      * destruct names as [|y names] using rev_ind.
        -- exists (S n), []. rewrite app_nil_r in *. split_and!; [|done|].
           { cbn [rev]. rewrite E. by rewrite <- replicate_cons_app. }
           { intros Hrt. specialize (Hr Hrt) as ->. by destruct (rev acc). }
        -- rewrite app_assoc in E. apply app_inj_tail in E as [_ <-]. apply Forall_app in Hn as [_ Hd]. inversion Hd as [|? ? Hd']; subst. by destruct Hd' as (_ & _ & ? & _).
      * destruct names as [|y names] using rev_ind.
        -- rewrite app_nil_r in E. destruct n; [by destruct (rev acc)|]. rewrite replicate_S_end in E. by apply app_inj_tail in E as [_ ?].
        -- rewrite app_assoc in E. apply app_inj_tail in E as [E _]. apply Forall_app in Hn as [Hn _]. by exists n, names.
  - apply bool_decide_eq_false in E3. exists n, (names ++ [s]). cbn [rev]. rewrite E. split_and!; [by rewrite app_assoc| |done].
    apply Forall_app. split; [done|]. by repeat constructor.
Qed.
Lemma clean_foldl_ok rooted l acc : Forall slash_free l → cleaned rooted (rev acc) → cleaned rooted (rev (foldl (clean_step rooted) acc l)).
Proof. intros Hl. revert acc. induction Hl as [|s l Hs _ IH]; intros acc H; simpl; [done|]. apply IH. by apply clean_step_ok. Qed.
Lemma clean_segments_ok rooted l : Forall slash_free l → cleaned rooted (clean_segments rooted l).
Proof. intros Hl. apply clean_foldl_ok; [done|]. by exists 0, []. Qed.
Lemma clean_names rooted names acc : Forall normal names → foldl (clean_step rooted) acc names = rev names ++ acc.
Proof.
  intros Hn. revert acc. induction Hn as [|s l (H1 & H2 & H3 & _) _ IH]; intros acc; simpl; [done|].
  rewrite IH. unfold clean_step. rewrite !bool_decide_eq_false_2 by done. by rewrite <- app_assoc.
Qed.

(** ** A path below a directory *)

(** The path is the directory's, with names after it. *)
Definition path_of (p : string) : bool * list segment := (IsAbs p, clean_segments (IsAbs p) (segments p)).
Definition inside (dir p : string) : Prop :=
  ∃ names, Forall normal names ∧ path_of p = ((path_of dir).1, (path_of dir).2 ++ names).

Lemma IsAbs_bytes p : IsAbs p = match to_bytes p with c :: _ => bool_decide ("/"%char = c) | [] => false end.
Proof. unfold IsAbs, HasPrefix, CutPrefix. destruct p as [|c p]; [done|]. cbn -[bool_decide]. by case_decide; [rewrite bool_decide_eq_true_2|rewrite bool_decide_eq_false_2]. Qed.
Lemma normal_dotdot_free rooted l : cleaned rooted l → Forall (λ s, s ≠ [] ∧ slash_free s) l.
Proof.
  intros (n & names & -> & Hn & _). apply Forall_app. split.
  - apply Forall_replicate. split; [done|]. by repeat constructor.
  - eapply Forall_impl; [exact Hn|]. by intros s (? & _ & _ & ?).
Qed.
Lemma clean_fixed rooted l : cleaned rooted l → clean_segments rooted l = l.
Proof.
  intros (n & names & -> & Hn & Hr). unfold clean_segments. rewrite foldl_app, clean_names, rev_app_distr, rev_involutive by done.
  f_equal. destruct rooted; [by rewrite Hr|]. clear. rewrite <- (rev_involutive (replicate n dotdot)) at 2. f_equal.
  assert (∀ m, foldl (clean_step false) (replicate m dotdot) (replicate n dotdot) = replicate (n + m) dotdot) as H.
  { induction n as [|n IH]; intros m; [done|]. simpl. replace (clean_step false (replicate m dotdot) dotdot) with (replicate (S m) dotdot) by by destruct m.
    by rewrite IH, Nat.add_succ_r. }
  specialize (H 0). simpl in H. rewrite H, Nat.add_0_r. clear H. induction n as [|n IH]; [done|]. simpl. by rewrite <- IH, <- replicate_cons_app.
Qed.
Lemma path_of_Clean p : path_of (Clean p) = path_of p.
Proof.
  unfold path_of at 2. pose proof (clean_segments_ok (IsAbs p) (segments p) (split_on_free _)) as Hc.
  unfold Clean. set (l := clean_segments _ _) in *. clearbody l. pose proof (normal_dotdot_free _ _ Hc) as Hf. pose proof (clean_fixed _ _ Hc) as Hx.
  assert (Forall slash_free l) as Hs by (eapply Forall_impl; [exact Hf|]; by intros ? []).
  destruct (IsAbs p); unfold path_of, segments.
  - rewrite IsAbs_bytes. cbn [to_bytes String.list_ascii_of_string]. rewrite bool_decide_eq_true_2 by done. f_equal.
    fold (to_bytes (of_bytes (join_segments l))). rewrite to_of_bytes. cbn -[clean_segments join_segments].
    destruct l as [|s l]; [done|]. rewrite split_join by done. by rewrite <- Hx at 2.
  - destruct l as [|s l]; [done|]. rewrite IsAbs_bytes, to_of_bytes.
    assert (∃ c t, join_segments (s :: l) = c :: t ∧ c ≠ "/"%char) as (c & t & E & Hne).
    { apply Forall_inv in Hf as [Hne Hsf]. destruct s as [|c s]; [done|]. apply Forall_inv in Hsf. destruct l; [by exists c, s|by exists c; eexists]. }
    rewrite E at 1 2. rewrite !bool_decide_eq_false_2 by done. f_equal. by rewrite split_join.
Qed.
Lemma path_of_Join2 dir c : c ≠ "" → path_of (Join2 dir c) =
  if bool_decide (dir = "") then path_of c else (IsAbs dir, clean_segments (IsAbs dir) (segments dir ++ segments c)).
Proof.
  intros Hc. unfold Join2. rewrite (bool_decide_eq_false_2 (c = "")) by done. case_bool_decide as Hd; rewrite path_of_Clean; [done|].
  unfold path_of, segments. assert (IsAbs (dir +:+ "/" +:+ c) = IsAbs dir) as ->.
  { rewrite !IsAbs_bytes, to_bytes_app. by destruct dir. }
  rewrite !to_bytes_app. change (to_bytes "/" ++ to_bytes c) with ("/"%char :: to_bytes c). by rewrite split_on_app.
Qed.
Lemma Clean_nonempty p : Clean p ≠ "".
Proof.
  unfold Clean. pose proof (clean_segments_ok (IsAbs p) (segments p) (split_on_free _)) as Hc. destruct (IsAbs p); [done|].
  destruct (clean_segments _ _) as [|s l]; [done|]. apply normal_dotdot_free, Forall_inv in Hc as [Hne _]. destruct s as [|c s]; [done|]. by destruct l.
Qed.
(** What is cleaned and does not escape is a path of names. *)
Lemma confined_names name : escapes (Clean name) = false →
  ∃ names, Forall normal names ∧ segments (Clean name) = match names with [] => [dot] | _ => names end.
Proof.
  unfold escapes. intros [Hp Ha]%orb_false_iff. pose proof (clean_segments_ok (IsAbs name) (segments name) (split_on_free _)) as Hc.
  assert (IsAbs name = false) as Hn.
  { pose proof (path_of_Clean name) as E. unfold path_of in E. injection E as E _. congruence. }
  unfold Clean in *. rewrite Hn in *. destruct Hc as ([|n] & names & E & Hnm & _); rewrite E in *.
  - exists names. split; [done|]. destruct names as [|s l]; [done|]. unfold segments. cbn [replicate app] in *. rewrite to_of_bytes.
    apply split_join; [done|]. eapply Forall_impl; [exact Hnm|]. by intros ? (_ & _ & _ & ?).
  - exfalso. cbn [replicate app] in Hp. unfold HasPrefix, CutPrefix in Hp. rewrite to_of_bytes in Hp.
    by destruct (replicate n dotdot ++ names).
Qed.
Lemma confined dir name : escapes (Clean name) = false → inside dir (Join2 dir (Clean name)).
Proof.
  intros Hs. destruct (confined_names _ Hs) as (names & Hn & E). exists names. split; [done|].
  assert (∀ r acc, foldl (clean_step r) acc (segments (Clean name)) = rev names ++ acc) as Hf.
  { intros r acc. rewrite E. destruct names as [|x l]; [done|]. by rewrite clean_names. }
  rewrite path_of_Join2 by apply Clean_nonempty. unfold escapes in Hs. apply orb_false_iff in Hs as [_ Ha].
  case_bool_decide as Hd; unfold path_of, clean_segments.
  - subst dir. rewrite Ha, Hf. cbn [fst snd]. by rewrite app_nil_r, rev_involutive.
  - cbn [fst snd]. by rewrite foldl_app, Hf, rev_app_distr, rev_involutive.
Qed.

(** ** The bundle *)

Section BundleRules.
Context (tar_Write : TarEntry → option string) (tar_Bytes : list TarEntry → string).

Lemma bundle_entry_confined R R' dir name : (∀ p, inside dir p → R p = R' p) →
  bundle_entry tar_Write R dir name = bundle_entry tar_Write R' dir name.
Proof. intros HR. unfold bundle_entry. destruct (escapes (Clean name)) eqn:Es; [done|]. by rewrite HR by by apply confined. Qed.
Lemma bundle_entries_confined R R' dir l : (∀ p, inside dir p → R p = R' p) →
  bundle_entries tar_Write R dir l = bundle_entries tar_Write R' dir l.
Proof. intros HR. induction l as [|name l IH]; simpl; [done|]. by rewrite (bundle_entry_confined R R'), IH. Qed.
Lemma sort_Strings_Permutation l l' : l ≡ₚ l' → sort_Strings l = sort_Strings l'.
Proof.
  intros Hp. apply (StronglySorted_unique String.le); [by apply StronglySorted_merge_sort; apply _..|].
  unfold sort_Strings. by rewrite !merge_sort_Permutation.
Qed.

(** An entry as it is written: the member's cleaned name, its content, and metadata that is the same everywhere. *)
Definition entry_of (R : string → string + string) (dir name : string) (t : TarEntry) : Prop :=
  te_Name t = Clean name ∧ escapes (te_Name t) = false ∧ te_Mode t = 420%Z ∧
  te_Size t = Z.of_nat (String.length (te_Body t)) ∧ R (Join2 dir (te_Name t)) = inl (te_Body t).
Lemma bundle_entries_ok R dir l ts : bundle_entries tar_Write R dir l = inl ts → Forall2 (entry_of R dir) l ts.
Proof.
  revert ts. induction l as [|name l IH]; intros ts; simpl; [by intros [= <-]|].
  unfold bundle_entry. destruct (escapes (Clean name)) eqn:Es; [done|]. destruct (R _) as [body|] eqn:Er; [|done].
  destruct (tar_Write _); [done|]. destruct (bundle_entries _ _ _ _) as [ts'|]; [|done]. intros [= <-]. constructor; [done|by apply IH].
Qed.

(** A bundle is determined by the declared files of the directory: it does not depend on the order in which they are
    declared, nor on any file outside the directory; and one that is built holds [challenge.yaml] and
    every declared file, each once per declaration, with its content and fixed metadata, under
    a name that does not leave the directory. *)
Theorem bundle_canonical R R' dir s s' :
  (∀ p, inside dir p → R p = R' p) → sp_Files s ≡ₚ sp_Files s' →
  buildBundle tar_Write tar_Bytes R dir s = buildBundle tar_Write tar_Bytes R' dir s' ∧
  (∀ out, buildBundle tar_Write tar_Bytes R dir s = inl out →
    ∃ members ts, members ≡ₚ "challenge.yaml" :: sp_Files s ∧ out = tar_Bytes ts ∧ Forall2 (entry_of R dir) members ts).
Proof.
  intros HR Hp. split.
  - unfold buildBundle. rewrite (sort_Strings_Permutation ("challenge.yaml" :: sp_Files s) ("challenge.yaml" :: sp_Files s')) by by rewrite Hp.
    by rewrite (bundle_entries_confined R R').
  - intros out. unfold buildBundle. destruct (bundle_entries _ _ _ _) as [ts|] eqn:E; [|done]. intros [= <-].
    exists (sort_Strings ("challenge.yaml" :: sp_Files s)), ts. split_and!; [apply merge_sort_Permutation|done|by apply bundle_entries_ok].
Qed.
End BundleRules.

Definition demo_spec (files : list string) : Spec :=
  {| sp_Slug := "web-login"; sp_Title := "Login"; sp_Category := "web"; sp_Difficulty := "easy"; sp_Description := "";
     sp_Flag := "osctf{x}"; sp_FlagCaseInsensitive := false; sp_Scoring := "dynamic"; sp_PointsInitial := 500;
     sp_PointsMin := Some 100%Z; sp_Decay := Some 25%Z; sp_MaxAttempts := None; sp_Visible := false; sp_Kind := "standard";
     sp_Image := ""; sp_InternalPort := None; sp_MemLimitMB := None; sp_CPUMillis := None; sp_ConnectionTemplate := "";
     sp_InjectFlag := None; sp_ContainerEnv := ∅; sp_Files := files; sp_Instancing := ""; sp_FlagMode := "";
     sp_InstanceTTLSeconds := None; sp_Egress := None; sp_WritablePaths := [] |}.
(** A disk with a secret beside the challenges. *)
Definition demo_files (secret p : string) : string + string :=
  if bool_decide (p = "chal/challenge.yaml") then inl "slug: web-login"
  else if bool_decide (p = "chal/src/app.py") then inl "print()"
  else if bool_decide (p = "chal/notes.txt") then inl "hint"
  else if bool_decide (p = "secret") then inl secret else inr "no such file".
Definition demo_archive (ts : list TarEntry) : string := foldr (λ t s, te_Name t +:+ "=" +:+ te_Body t +:+ ";" +:+ s) "" ts.
Lemma bundle_canonical_witness :
  buildBundle (λ _, None) demo_archive (demo_files "a") "chal" (demo_spec ["src/app.py"; "notes.txt"]) =
  buildBundle (λ _, None) demo_archive (demo_files "b") "chal" (demo_spec ["notes.txt"; "src/app.py"]) ∧
  buildBundle (λ _, None) demo_archive (demo_files "a") "chal" (demo_spec ["src/app.py"; "notes.txt"]) =
    inl "challenge.yaml=slug: web-login;notes.txt=hint;src/app.py=print();".
Proof.
  split; [|by vm_compute]. refine (proj1 (bundle_canonical _ _ _ _ _ _ _ _ _)).
  - intros p (names & Hn & E). unfold demo_files. repeat (case_bool_decide; [done|]).
    case_bool_decide as Hp; [|done]. subst p. vm_compute in E. by injection E.
  - apply Permutation_swap.
Defined.

(** Members are ordered by their names as they are declared, so the entries of an archive may be out of order. *)
Lemma entries_out_of_order :
  buildBundle (λ _, None) demo_archive (λ _, inl "x") "chal" (demo_spec ["b.txt"; "./c.txt"]) =
  inl "c.txt=x;b.txt=x;challenge.yaml=x;".
Proof. by vm_compute. Qed.

(** ** The author's verdict and the server's *)

Lemma check_dynamic_iff sc mn dc ini v :
  check_dynamic sc mn dc ini v = ∅ ↔
  v = ∅ ∧ (sc = "dynamic" → ∃ m d, mn = Some m ∧ dc = Some d ∧ (1 ≤ m ≤ ini)%Z ∧ (1 ≤ d)%Z).
Proof.
  split; [apply check_dynamic_empty|]. intros [-> H]. unfold check_dynamic. case_bool_decide as Hs; [|done].
  destruct (H Hs) as (m & d & -> & -> & ? & ?). unfold add_if. simpl.
  by rewrite (proj2 (Z.ltb_ge _ _)), (proj2 (Z.ltb_ge _ _)), (proj2 (Z.ltb_ge _ _)) by lia.
Qed.
Lemma check_container_iff i v :
  check_container i v = ∅ ↔
  v = ∅ ∧ (ci_Kind i = "container" → no_text (ci_Image i) = false ∧ ∃ p, ci_InternalPort i = Some p ∧ (1 ≤ p ≤ 65535)%Z).
Proof.
  unfold check_container. case_bool_decide as Hk; [|tauto]. rewrite !add_if_empty, missing_or_false. split.
  - intros ((p & Hp & Hb) & Himg & ->). split; [done|]. intros _. split; [done|]. exists p. split; [done|lia].
  - intros [-> H]. destruct (H Hk) as (Hi & p & Hp & Hb). split_and!; [|done..]. exists p. split; [done|lia].
Qed.
Lemma instancing_iff kind ins fm ttl eg hw v :
  validateInstancing kind ins fm ttl eg hw v = ∅ ↔
  v = ∅ ∧ not_one_of ins "shared" "per_team" = false ∧ not_one_of fm "static" "per_instance" = false ∧
  (∀ t, ttl = Some t → 0 ≤ t)%Z ∧
  (kind ≠ "container" → ins ≠ "per_team" ∧ fm ≠ "per_instance" ∧ ttl = None ∧ eg ≠ Some false ∧ hw = false).
Proof.
  assert (match ttl with Some t => t <? 0 | None => false end = false ↔ ∀ t, ttl = Some t → 0 ≤ t)%Z as Ht.
  { rewrite opt_false. split; intros H t E; specialize (H t E); lia. }
  unfold validateInstancing. case_bool_decide as Hk; rewrite !add_if_empty, Ht.
  - split; [|tauto]. intros (? & ? & ? & ->). by split_and!.
  - rewrite is_Some_b_false, !bool_decide_eq_false. tauto.
Qed.
Lemma validateCreate_iff T M i slug : validateCreate T M i slug = ∅ ↔
  (slugRe slug = true ∧ bad_length 1 200 (ci_Title i) = false ∧ ci_Category i ∈ validCats ∧
   (∀ d, ci_Difficulty i = Some d → d ∈ validDiffs) ∧ (ci_Kind i = "standard" ∨ ci_Kind i = "container") ∧ T (ci_Type i) = true ∧
   ci_Flag i ≠ "" ∧ M (ci_Scoring i) = true ∧ (1 ≤ ci_PointsInitial i)%Z) ∧
  (ci_Scoring i = "dynamic" → ∃ m d, ci_PointsMin i = Some m ∧ ci_Decay i = Some d ∧ (1 ≤ m ≤ ci_PointsInitial i)%Z ∧ (1 ≤ d)%Z) ∧
  (ci_Kind i = "container" → no_text (ci_Image i) = false ∧ ∃ p, ci_InternalPort i = Some p ∧ (1 ≤ p ≤ 65535)%Z) ∧
  (outside 16 8192 (ci_MemLimitMB i) = false ∧ outside 100 8000 (ci_CPUMillis i) = false) ∧
  (∀ n, ci_MaxAttempts i = Some n → 1 ≤ n)%Z ∧
  not_one_of (ci_Instancing i) "shared" "per_team" = false ∧ not_one_of (ci_FlagMode i) "static" "per_instance" = false ∧
  (∀ t, ci_InstanceTTLSeconds i = Some t → 0 ≤ t)%Z ∧
  (ci_Kind i ≠ "container" → ci_Instancing i ≠ "per_team" ∧ ci_FlagMode i ≠ "per_instance" ∧ ci_InstanceTTLSeconds i = None ∧
     ci_Egress i ≠ Some false ∧ ci_WritablePaths i = []).
Proof.
  unfold validateCreate, validateContainerLimits. cbv zeta.
  rewrite instancing_iff, !add_if_empty, check_container_iff, check_dynamic_iff, !add_if_empty.
  rewrite !negb_false_iff, !opt_false, !bool_decide_eq_true, Nat.ltb_ge, !Z.ltb_ge, andb_false_iff, !negb_false_iff, !bool_decide_eq_true.
  assert (1 ≤ String.length (ci_Flag i) ↔ ci_Flag i ≠ "") as -> by (destruct (ci_Flag i); simpl; split; [lia|done|done|lia]).
  assert ((∀ x, ci_Difficulty i = Some x → negb (bool_decide (x ∈ validDiffs)) = false) ↔ ∀ d, ci_Difficulty i = Some d → d ∈ validDiffs) as ->.
  { split; intros H d Hd; specialize (H d Hd); [by apply negb_false_iff, bool_decide_eq_true in H|by apply negb_false_iff, bool_decide_eq_true]. }
  assert ((∀ x, ci_MaxAttempts i = Some x → (x <? 1)%Z = false) ↔ ∀ n, ci_MaxAttempts i = Some n → (1 ≤ n)%Z) as ->.
  { split; intros H d Hd; specialize (H d Hd); lia. }
  unfold NewValidation. tauto.
Qed.

Lemma head_omap_none (l : list (option spec_error)) : head (omap id l) = None ↔ Forall (λ o, o = None) l.
Proof.
  induction l as [|[e|] l IH]; simpl; [by split|split; [done|by intros [? _]%Forall_cons]|].
  rewrite IH. split; [by constructor|by intros [_ ?]%Forall_cons].
Qed.
Lemma rule_none (b : bool) (e : spec_error) : (if b then Some e else None) = None ↔ b = false.
Proof. by destruct b. Qed.
Lemma check_kind_none c : check_kind c = None ↔
  (sp_Kind c = "standard" ∧ sp_Image c = "" ∧ sp_InternalPort c = None) ∨
  (sp_Kind c = "container" ∧ sp_Image c ≠ "" ∧ is_Some (sp_InternalPort c)).
Proof.
  unfold check_kind. case_bool_decide as H1; [|case_bool_decide as H2].
  - rewrite rule_none, orb_false_iff, negb_false_iff, bool_decide_eq_true, is_Some_b_false. rewrite H1. naive_solver.
  - rewrite rule_none, orb_false_iff, negb_false_iff, bool_decide_eq_false, is_Some_b_true. rewrite H2. naive_solver.
  - naive_solver.
Qed.
(** What the offline rules ask for. *)
Lemma Validate_iff dirName c : Validate dirName c = None ↔
  slugRe (sp_Slug c) = true ∧ sp_Slug c = dirName ∧ sp_Title c ≠ "" ∧ sp_Flag c ≠ "" ∧ check_kind c = None ∧
  not_one_of (sp_Instancing c) "shared" "per_team" = false ∧ not_one_of (sp_FlagMode c) "static" "per_instance" = false ∧
  (sp_Kind c ≠ "container" → sp_Instancing c ≠ "per_team" ∧ sp_FlagMode c ≠ "per_instance" ∧ sp_InstanceTTLSeconds c = None ∧
     sp_Egress c ≠ Some false ∧ sp_WritablePaths c = []) ∧
  (sp_Scoring c = "dynamic" → is_Some (sp_PointsMin c) ∧ is_Some (sp_Decay c)) ∧ (0 < sp_PointsInitial c)%Z.
Proof.
  unfold Validate. rewrite head_omap_none. unfold rules. rewrite !Forall_cons, !rule_none, Forall_nil.
  rewrite !andb_false_iff, !orb_false_iff, !negb_false_iff, !bool_decide_eq_true, !bool_decide_eq_false, !is_Some_b_true, is_Some_b_false, Z.leb_gt.
  destruct (decide (sp_Kind c = "container")), (decide (sp_Scoring c = "dynamic")); tauto.
Qed.

(** What only the server looks at. *)
Record server_only (M : string → bool) (c : Spec) : Prop := {
  so_title : String.length (sp_Title c) ≤ 200;
  so_category : sp_Category c ∈ validCats;
  so_difficulty : sp_Difficulty c = "" ∨ sp_Difficulty c ∈ validDiffs;
  so_scoring : M (sp_Scoring c) = true;
  so_points : sp_Scoring c = "dynamic" → ∀ m d, sp_PointsMin c = Some m → sp_Decay c = Some d → (1 ≤ m ≤ sp_PointsInitial c)%Z ∧ (1 ≤ d)%Z;
  so_port : sp_Kind c = "container" → ∀ p, sp_InternalPort c = Some p → (1 ≤ p ≤ 65535)%Z;
  so_memory : outside 16 8192 (sp_MemLimitMB c) = false;
  so_cpu : outside 100 8000 (sp_CPUMillis c) = false;
  so_attempts : ∀ n, sp_MaxAttempts c = Some n → (1 ≤ n)%Z;
  so_ttl : ∀ t, sp_InstanceTTLSeconds c = Some t → (0 ≤ t)%Z
}.

Lemma default_set_text s : default "" (set_text s) = s.
Proof. unfold set_text. by case_bool_decide. Qed.
Lemma or_default_set s d : s ≠ "" → or_default s d = s.
Proof. unfold or_default. by case_bool_decide. Qed.
Lemma set_text_some s d : set_text s = Some d ↔ d = s ∧ s ≠ "".
Proof. unfold set_text. case_bool_decide; naive_solver. Qed.
Lemma no_text_set s : no_text (set_text s) = bool_decide (s = "").
Proof. unfold set_text. case_bool_decide; simpl; [done|by rewrite bool_decide_eq_false_2]. Qed.
Lemma writable_default (l : list string) : default [] (if decide (l = []) then None else Some l) = l.
Proof. by case_decide. Qed.

Lemma not_one_of_default s a b : a ≠ "" → not_one_of (or_default s a) a b = not_one_of s a b.
Proof. intros Ha. unfold or_default, not_one_of. repeat case_bool_decide; subst; done. Qed.
Lemma or_default_not s d x : d ≠ x → s ≠ x → or_default s d ≠ x.
Proof. unfold or_default. by case_bool_decide. Qed.

(** The server's rules on the fields of a description, however it was sent. *)
Lemma server_verdict T M c i :
  sp_Scoring c ≠ "" → Validate (sp_Slug c) c = None → T "standard" = true →
  ci_Title i = sp_Title c → ci_Category i = sp_Category c → ci_Difficulty i = set_text (sp_Difficulty c) →
  ci_Kind i = sp_Kind c → ci_Type i = "" → ci_Flag i = sp_Flag c → ci_Scoring i = sp_Scoring c →
  ci_PointsInitial i = sp_PointsInitial c → ci_PointsMin i = sp_PointsMin c → ci_Decay i = sp_Decay c →
  ci_MemLimitMB i = sp_MemLimitMB c → ci_CPUMillis i = sp_CPUMillis c → ci_MaxAttempts i = sp_MaxAttempts c →
  (sp_Kind c = "container" → ci_Image i = Some (sp_Image c) ∧ ci_InternalPort i = sp_InternalPort c) →
  (ci_Instancing i = sp_Instancing c ∨ ci_Instancing i = "" ∧ sp_Kind c ≠ "container") →
  (ci_FlagMode i = sp_FlagMode c ∨ ci_FlagMode i = "" ∧ sp_Kind c ≠ "container") →
  ci_InstanceTTLSeconds i = sp_InstanceTTLSeconds c → (ci_Egress i = sp_Egress c ∨ ci_Egress i = None) →
  ci_WritablePaths i = sp_WritablePaths c →
  validateCreate T M (with_defaults i) (sp_Slug c) = ∅ ↔ server_only M c.
Proof.
  intros Hs (Hslug & _ & Htitle & Hflag & Hkind & Hins & Hfm & Hplain & Hdyn & Hpts)%Validate_iff HT
    Et Ec Ed Ek Ety Ef Esc Epi Epm Edc Em Ecpu Ema Econt Ein Efm Ettl Eeg Ewp.
  rewrite validateCreate_iff.
  cbn [with_defaults ci_Title ci_Category ci_Difficulty ci_Kind ci_Type ci_Flag ci_Scoring ci_PointsInitial ci_PointsMin ci_Decay
       ci_MaxAttempts ci_Image ci_InternalPort ci_MemLimitMB ci_CPUMillis ci_Instancing ci_FlagMode ci_InstanceTTLSeconds ci_Egress ci_WritablePaths].
  rewrite Et, Ec, Ed, Ek, Ety, Ef, Esc, Epi, Epm, Edc, Em, Ecpu, Ema, Ettl, Ewp.
  rewrite !not_one_of_default by done. rewrite (or_default_set (sp_Scoring c)) by done.
  assert (or_default (sp_Kind c) "standard" = sp_Kind c) as -> by (apply or_default_set; apply check_kind_none in Hkind as [(-> & _)|(-> & _)]; done).
  change (or_default "" "standard") with "standard".
  assert (not_one_of (ci_Instancing i) "shared" "per_team" = false) as Hi1 by by destruct Ein as [->|[-> _]].
  assert (not_one_of (ci_FlagMode i) "static" "per_instance" = false) as Hf1 by by destruct Efm as [->|[-> _]].
  assert (sp_Kind c ≠ "container" → or_default (ci_Instancing i) "shared" ≠ "per_team" ∧ or_default (ci_FlagMode i) "static" ≠ "per_instance" ∧
    sp_InstanceTTLSeconds c = None ∧ ci_Egress i ≠ Some false ∧ sp_WritablePaths c = []) as Hp1.
  { intros Hk. destruct (Hplain Hk) as (H1 & H2 & H3 & H4 & H5). split_and!; [| |done| |done].
    - apply or_default_not; [done|]. by destruct Ein as [->|[-> _]].
    - apply or_default_not; [done|]. by destruct Efm as [->|[-> _]].
    - by destruct Eeg as [->| ->]. }
  assert (bad_length 1 200 (sp_Title c) = false ↔ String.length (sp_Title c) ≤ 200) as ->.
  { unfold bad_length. rewrite orb_false_iff, !Nat.ltb_ge. destruct (sp_Title c); [done|]. simpl. lia. }
  assert (sp_Kind c = "standard" ∨ sp_Kind c = "container") as Hk by (apply check_kind_none in Hkind; naive_solver).
  split.
  - intros ((_ & Ht & Hc & Hd & _ & _ & _ & HM & _) & Hdy & Hco & [Hm Hcp] & Hma & _ & _ & Htt & _). split; try done.
    + destruct (decide (sp_Difficulty c = "")); [by left|]. right. apply Hd. by apply set_text_some.
    + intros Hsc m d Em' Ed'. destruct (Hdy Hsc) as (m' & d' & Em'' & Ed'' & ? & ?). by simplify_eq.
    + intros Hkc p Hp. destruct (Hco Hkc) as (_ & p' & Hp' & ?). destruct (Econt Hkc) as [_ Hpc].
      rewrite Hpc, Hp in Hp'. by injection Hp' as <-.
  - intros [Ht Hc Hd HM Hdy Hco Hm Hcp Hma Htt]. split_and!; try done; try lia.
    + intros d [-> ?]%set_text_some. by destruct Hd.
    + intros Hsc. destruct (Hdyn Hsc) as [[m Em'] [d Ed']]. destruct (Hdy Hsc m d Em' Ed'). by exists m, d.
    + intros Hkc. destruct (Econt Hkc) as [-> ->]. apply check_kind_none in Hkind as [(? & _)|(_ & Himg & [p Hp])]; [congruence|].
      split; [by apply bool_decide_eq_false_2|]. exists p. split; [done|by apply Hco].
Qed.

(** C37: What the offline verdict is worth: a description that passes it is accepted by the server's validation, whether the
    client or the seeder sends it, exactly when the rules that only the server has hold too: the length of
    the title, the category, the difficulty, the scoring mode, and the ranges of the points, the decay, the
    port, the limits, the attempts and the time to live. *)
Theorem offline_verdict T M dirName c visible :
  Validate dirName (spec_defaults c) = None → T "standard" = true →
  let d := spec_defaults c in
  (validateCreate T M (with_defaults (create_input (specToCreate d visible))) dirName = ∅ ↔ server_only M d) ∧
  (validateCreate T M (with_defaults (seed_input d)) dirName = ∅ ↔ server_only M d).
Proof.
  intros HV HT d. fold d in HV. assert (sp_Scoring d ≠ "") as Hs by by apply or_default_ne.
  pose proof HV as (_ & Hdir & _ & _ & Hkind & _ & _ & Hplain & _)%Validate_iff. rewrite <- Hdir in HV |- *.
  assert (sp_Kind d = "container" → set_text (sp_Image d) = Some (sp_Image d)) as Himg.
  { intros Hk. apply check_kind_none in Hkind as [(? & _)|(_ & ? & _)]; [congruence|]. by apply set_text_some. }
  split; apply server_verdict; try done; cbn [create_input seed_input specToCreate cb_Scoring cb_Kind cb_Instancing cb_FlagMode cb_Difficulty
    cb_Image cb_InternalPort cb_WritablePaths cb_Type ci_Scoring ci_Kind ci_Instancing ci_FlagMode ci_WritablePaths ci_Image ci_InternalPort
    ci_InstanceTTLSeconds ci_Egress cb_InstanceTtlSeconds cb_Egress];
    rewrite ?default_set_text, ?writable_default; try done; try (by left); try (by intros Hk; rewrite (Himg Hk)).
  all: destruct (decide (sp_Kind d = "container")) as [Hk|Hk];
    [rewrite ?bool_decide_eq_true_2 by done|rewrite ?bool_decide_eq_false_2 by done; destruct (Hplain Hk) as (? & ? & ? & ? & ?)];
    first [by intros ?%Hk|by auto].
Qed.
Lemma offline_verdict_witness :
  Validate "web-login" (spec_defaults (demo_spec [])) = None ∧
  validateCreate (λ _, true) (λ _, true) (with_defaults (create_input (specToCreate (spec_defaults (demo_spec [])) false))) "web-login" = ∅.
Proof.
  split; [by vm_compute|].
  apply (offline_verdict (λ _, true) (λ _, true) "web-login" (demo_spec []) false eq_refl eq_refl). split; try done.
  - by vm_compute; lia.
  - by apply (bool_decide_unpack _); vm_compute.
  - right. by apply (bool_decide_unpack _); vm_compute.
  - intros _ m d [= <-] [= <-]. simpl. lia.
Defined.

(** A category the server does not know passes the offline rules. *)
Lemma valid_offline_refused_online :
  let c := {| sp_Slug := "x"; sp_Title := "X"; sp_Category := ""; sp_Difficulty := ""; sp_Description := ""; sp_Flag := "f";
     sp_FlagCaseInsensitive := false; sp_Scoring := "static"; sp_PointsInitial := 100; sp_PointsMin := None; sp_Decay := None;
     sp_MaxAttempts := None; sp_Visible := false; sp_Kind := "standard"; sp_Image := ""; sp_InternalPort := None;
     sp_MemLimitMB := None; sp_CPUMillis := None; sp_ConnectionTemplate := ""; sp_InjectFlag := None; sp_ContainerEnv := ∅;
     sp_Files := []; sp_Instancing := ""; sp_FlagMode := ""; sp_InstanceTTLSeconds := None; sp_Egress := None; sp_WritablePaths := [] |} in
  Validate "x" c = None ∧
  validateCreate (λ _, true) (λ _, true) (with_defaults (create_input (specToCreate c false))) "x" =
    {[ "category" := ["must be one of web, pwn, crypto, rev, forensics, misc"] ]}.
Proof. by vm_compute. Qed.

(** ** The files of a description that are read *)

(** The path is cleaned, not confined: enough steps up leave the challenge's directory, for the seeder and
    for the upload of [challenge create] alike. *)
Lemma cleaned_not_confined : let rel := "../../../etc/passwd" in
  Join2 "examples/challenges/web" (Clean rel) = "etc/passwd" ∧ ¬ inside "examples/challenges/web" (Join2 "examples/challenges/web" (Clean rel)).
Proof. split; [by vm_compute|]. intros (names & _ & E). vm_compute in E. by injection E. Qed.
(** A first boot that finds a challenge there leaves everything as it is. *)
Lemma Seed_once `{Libs} `{AuthorLibs} types types' M Put Delete disk dir w :
  w_faults w = [] → challenges (w_db w) ≠ ∅ → run (Seed types types' M Put Delete disk dir) w = Some (Ok tt, w).
Proof.
  intros Hf Hc. unfold Seed. rewrite run_bind. unfold map_err. rewrite run_bind, run_try, run_atomic.
  unfold CountChallenges. rewrite select_nofault by done. cbn [run].
  assert ((0 <? size (challenges (w_db w)))%nat = true) as E.
  { apply Nat.ltb_lt. destruct (size (challenges (w_db w))) eqn:Es; [by apply map_size_empty_inv in Es|lia]. }
  cbv beta iota delta [run mret P_ret]. by rewrite E.
Qed.
