(* ===== verification/Cli.v ===== *)
(** * The command line client ([cmd/osctf])

    Its machine (environment, files, keychain, terminal, network), the credentials it
    resolves and stores, and its commands.  The generated client sends a request and decodes the
    answer; what answers is a parameter. *)

From Stdlib Require Import Ascii.
From S2P Require Import Prelude Text Env Store Accounts Challenges Http Authoring.

(** ** The machine *)

Inductive json :=
  | JNull | JBool (b : bool) | JNum (z : Z) | JStr (s : string) | JArr (l : list json) | JObj (l : list (string * json)).
(** What one write puts on a stream: an encoded value, or a line of text. *)
Inductive output := Value (j : json) | Line (s : string).

(** [~/.config/osctf/config.yaml]. *)
Record CliContext := { cx_URL : string; cx_Token : string; cx_KeychainRef : bool }.
Record CliConfig := { cg_CurrentContext : string; cg_Contexts : gmap string CliContext }.

(** The operations of the API the client uses. *)
Inductive ApiOp :=
  | OpLogin (email password : string) | OpLogout | OpGetMe
  | OpCreateToken (name : string) (scopes : list string) (days : option Z) | OpListTokens | OpRevokeToken (id : uuid)
  | OpListChallenges | OpGetChallenge (slug : string) | OpAdminCreateChallenge (b : ChallengeAdminCreate)
  | OpAdminUploadAttachment (challenge filename content : string)
  | OpGetEvent | OpAdminUpdateEvent (starts ends freeze : option time) | OpGetScoreboard
  | OpSubmitFlag (slug flag : string) | OpStartInstance (slug : string) | OpStopInstance (slug : string)
  | OpAdminListPlugins | OpAdminReloadPlugin (name : string) | OpListTeams | OpCreateTeam (name : string) | OpAdminListUsers.
(** A request: where to, the [Authorization] header, the [Origin] header and the cookie of a session. *)
Record ApiRequest := { rq_Base : string; rq_Authorization : string; rq_Origin : string; rq_Cookie : option string; rq_Op : ApiOp }.
Record Response := { rs_Status : Z; rs_JSON : option json; rs_Problem : option Problem; rs_SetCookie : option string }.
Definition JSON200 (r : Response) : option json := if (rs_Status r =? 200)%Z then rs_JSON r else None.
Definition JSON201 (r : Response) : option json := if (rs_Status r =? 201)%Z then rs_JSON r else None.
(** The fields of a decoded object; one that is missing has its zero value. *)
Definition field (k : string) (j : json) : json :=
  match j with JObj l => default JNull (snd <$> List.find (λ p, bool_decide (p.1 = k)) l) | _ => JNull end.
Definition str_field (k : string) (j : json) : string := match field k j with JStr s => s | _ => "" end.
Definition num_field (k : string) (j : json) : Z := match field k j with JNum z => z | _ => 0%Z end.
Definition bool_field (k : string) (j : json) : bool := match field k j with JBool b => b | _ => false end.
Definition items (j : json) : list json := match j with JArr l => l | _ => [] end.
Definition or_null (o : option json) : json := default JNull o.

Record Machine (Net : Type) := {
  mc_environ : gmap string string;
  mc_UserConfigDir : string + string;
  mc_files : gmap string (string * Z);        (* content and permissions *)
  mc_dirs : gset string;
  mc_denied : gset string;                     (* where every operation fails *)
  mc_keyring : option (gmap string string);    (* [None]: there is no keychain *)
  mc_stdin : list string;
  mc_tty : bool;
  mc_hostname : option string;
  mc_stdout : list output;
  mc_stderr : list output;
  mc_net : Net;
  mc_sent : list (ApiRequest * (Response + string))
}.
Arguments mc_environ {Net}. Arguments mc_UserConfigDir {Net}. Arguments mc_files {Net}. Arguments mc_dirs {Net}.
Arguments mc_denied {Net}. Arguments mc_keyring {Net}. Arguments mc_stdin {Net}. Arguments mc_tty {Net}.
Arguments mc_hostname {Net}. Arguments mc_stdout {Net}. Arguments mc_stderr {Net}. Arguments mc_net {Net}. Arguments mc_sent {Net}.

Section Updates.
Context {Net : Type}.
Definition with_files_dirs (f : gmap string (string * Z)) (d : gset string) (m : Machine Net) : Machine Net :=
  {| mc_environ := mc_environ m; mc_UserConfigDir := mc_UserConfigDir m; mc_files := f; mc_dirs := d; mc_denied := mc_denied m;
     mc_keyring := mc_keyring m; mc_stdin := mc_stdin m; mc_tty := mc_tty m; mc_hostname := mc_hostname m;
     mc_stdout := mc_stdout m; mc_stderr := mc_stderr m; mc_net := mc_net m; mc_sent := mc_sent m |}.
Definition with_keyring (k : option (gmap string string)) (m : Machine Net) : Machine Net :=
  {| mc_environ := mc_environ m; mc_UserConfigDir := mc_UserConfigDir m; mc_files := mc_files m; mc_dirs := mc_dirs m; mc_denied := mc_denied m;
     mc_keyring := k; mc_stdin := mc_stdin m; mc_tty := mc_tty m; mc_hostname := mc_hostname m;
     mc_stdout := mc_stdout m; mc_stderr := mc_stderr m; mc_net := mc_net m; mc_sent := mc_sent m |}.
Definition with_terminal (i : list string) (o e : list output) (m : Machine Net) : Machine Net :=
  {| mc_environ := mc_environ m; mc_UserConfigDir := mc_UserConfigDir m; mc_files := mc_files m; mc_dirs := mc_dirs m; mc_denied := mc_denied m;
     mc_keyring := mc_keyring m; mc_stdin := i; mc_tty := mc_tty m; mc_hostname := mc_hostname m;
     mc_stdout := o; mc_stderr := e; mc_net := mc_net m; mc_sent := mc_sent m |}.
Definition with_net (n : Net) (s : list (ApiRequest * (Response + string))) (m : Machine Net) : Machine Net :=
  {| mc_environ := mc_environ m; mc_UserConfigDir := mc_UserConfigDir m; mc_files := mc_files m; mc_dirs := mc_dirs m; mc_denied := mc_denied m;
     mc_keyring := mc_keyring m; mc_stdin := mc_stdin m; mc_tty := mc_tty m; mc_hostname := mc_hostname m;
     mc_stdout := mc_stdout m; mc_stderr := mc_stderr m; mc_net := n; mc_sent := s |}.
End Updates.

(** ** Commands as programs: an error stops the command and is what [main] reports. *)

Definition Cmd (Net A : Type) : Type := Machine Net → (A + cli_err) * Machine Net.
#[export] Instance Cmd_ret {Net} : MRet (Cmd Net) := λ A a m, (inl a, m).
#[export] Instance Cmd_bind {Net} : MBind (Cmd Net) := λ A B k c m,
  match c m with (inl a, m') => k a m' | (inr e, m') => (inr e, m') end.
Definition fail_with {Net A} (e : cli_err) : Cmd Net A := λ m, (inr e, m).
Definition look {Net A} (f : Machine Net → A) : Cmd Net A := λ m, (inl (f m), m).
Definition change_ {Net} (f : Machine Net → Machine Net) : Cmd Net unit := λ m, (inl tt, f m).
(** A Go [(value, error)] of a pure function. *)
Definition ok_or {Net A} (r : A + cli_err) : Cmd Net A := λ m, (r, m).
(** [defer d] before [body]: [d] runs on every path out. *)
Definition deferred {Net A} (d : Cmd Net unit) (body : Cmd Net A) : Cmd Net A := λ m,
  let '(r, m) := body m in let '(_, m) := d m in (r, m).

(** [globals]: the flags every command shares. *)
Record globals := { g_url : string; g_token : string; g_context : string; g_json : bool; g_yes : bool }.
(** [%q] without the escapes, [%d], [%-Ns] and [%Nd]. *)
Definition dec (z : Z) : string := if (z <? 0)%Z then "-" +:+ of_bytes (decimal (Z.to_N (- z))) else of_bytes (decimal (Z.to_N z)).
Definition runes (s : string) : nat :=
  length (List.filter (λ c, negb ((128 <=? nat_of_ascii c) && (nat_of_ascii c <? 192))%nat) (to_bytes s)).
Definition spaces_ (n : nat) : string := of_bytes (replicate n " "%char).
Definition padr (n : nat) (s : string) : string := s +:+ spaces_ (n - runes s).
Definition padl (n : nat) (s : string) : string := spaces_ (n - runes s) +:+ s.
Definition join_with (sep : string) (l : list string) : string :=
  match l with [] => "" | s :: l => foldl (λ acc x, acc +:+ sep +:+ x) s l end.
(** [strings.TrimRight(u, "/")]. *)
Fixpoint drop_slashes (l : list ascii) : list ascii :=
  match l with c :: l' => if Ascii.eqb c "/" then drop_slashes l' else l | [] => [] end.
Definition normalizeURL (u : string) : string := of_bytes (rev (drop_slashes (rev (to_bytes u)))).

Section Cli.
Context {Net : Type} (serve : ApiRequest → Net → (Response + string) * Net).
Context {L : Libs} `{AuthorLibs}.
Context (yaml_Marshal : CliConfig → string) (yaml_Unmarshal : string → CliConfig + string) (time_Parse : string → option time).
Context (tar_Write : TarEntry → option string) (tar_Bytes : list TarEntry → string).
Context (version revision : string).
Context (g : globals).
Abbreviation C := (Cmd Net).

(** ** [output.go] *)

Definition data (v : json) : C unit :=
  if g_json g then change_ (λ m, with_terminal (mc_stdin m) (mc_stdout m ++ [Value v]) (mc_stderr m) m) else mret tt.
Definition human (s : string) : C unit :=
  change_ (λ m, with_terminal (mc_stdin m) (mc_stdout m) (mc_stderr m ++ [Line s]) m).
Definition print_stdout (s : string) : C unit :=
  change_ (λ m, with_terminal (mc_stdin m) (mc_stdout m ++ [Line s]) (mc_stderr m) m).
Definition json_fields (f : gmap string (list string)) : json :=
  JObj ((λ p, (p.1, JArr (JStr <$> p.2))) <$> map_to_list f).
Definition omitempty (k v : string) : list (string * json) := if bool_decide (v = "") then [] else [(k, JStr v)].
Definition fail_lines (e : cli_err) : list output :=
  match e with
  | cliError _ _ _ fields _ =>
      Line ("error: " +:+ Error_text e) :: flat_map (λ p, (λ m, Line ("  " +:+ p.1 +:+ ": " +:+ m)) <$> p.2) (map_to_list fields)
  | plainError _ => [Line ("error: " +:+ Error_text e)]
  end.
Definition fail_json (e : cli_err) : output :=
  let '(title, detail, fields) := match e with cliError _ msg detail fields _ => (msg, detail, fields) | plainError msg => (msg, "", ∅) end in
  Value (JObj [("error", JObj ([("title", JStr title)] ++ omitempty "detail" detail ++
                               if decide (fields = ∅) then [] else [("field_errors", json_fields fields)]))]).
Definition fail (e : cli_err) (m : Machine Net) : Machine Net :=
  match e with
  | cliError _ _ _ _ true => m
  | _ => with_terminal (mc_stdin m) (mc_stdout m) (mc_stderr m ++ if g_json g then [fail_json e] else fail_lines e) m
  end.

(** ** [config.go] *)

Definition Getenv (k : string) : C string := look (λ m, default "" (mc_environ m !! k)).
Definition configDir : C string :=
  d ← Getenv "OSCTF_CONFIG_DIR";
  if negb (bool_decide (d = "")) then mret d else
  base ← look mc_UserConfigDir;
  match base with
  | inr msg => fail_with (plainError ("locating the config directory: " +:+ msg))
  | inl base => mret (Join2 base "osctf")
  end.
Definition configPath : C string := d ← configDir; mret (Join2 d "config.yaml").

Inductive read_result := Found (s : string) | NotExist | Failed (msg : string).
Definition os_ReadFile (p : string) (m : Machine Net) : read_result :=
  if bool_decide (p ∈ mc_denied m) then Failed ("open " +:+ p +:+ ": permission denied")
  else match mc_files m !! p with Some (s, _) => Found s | None => NotExist end.
Definition reads (m : Machine Net) (p : string) : string + string :=
  match os_ReadFile p m with Found s => inl s | NotExist => inr ("open " +:+ p +:+ ": no such file or directory") | Failed e => inr e end.
(** The permissions are those of the file when there is one: they are only asked for when it is created. *)
Definition os_WriteFile (p content : string) (mode : Z) : C (option string) := λ m,
  if bool_decide (p ∈ mc_denied m) then (inl (Some ("open " +:+ p +:+ ": permission denied")), m) else
  let mode := match mc_files m !! p with Some (_, old) => old | None => mode end in
  (inl None, with_files_dirs (<[p := (content, mode)]> (mc_files m)) (mc_dirs m) m).
(** A directory and the ones above it. *)
Fixpoint prefixes (acc : list segment) (l : list segment) : list (list segment) :=
  match l with [] => [] | s :: l => (acc ++ [s]) :: prefixes (acc ++ [s]) l end.
Definition dirs_to (p : string) : list string := (λ l, of_bytes (join_segments l)) <$> prefixes [] (segments p).
Definition os_MkdirAll (p : string) : C (option string) := λ m,
  if bool_decide (p ∈ mc_denied m) then (inl (Some ("mkdir " +:+ p +:+ ": permission denied")), m)
  else (inl None, with_files_dirs (mc_files m) (list_to_set (dirs_to p) ∪ mc_dirs m) m).
Definition os_Stat (p : string) : C bool := look (λ m, is_Some_b (mc_files m !! p) || bool_decide (p ∈ mc_dirs m)).

Definition loadConfig : C CliConfig :=
  p ← configPath;
  r ← look (os_ReadFile p);
  match r with
  | NotExist => mret {| cg_CurrentContext := ""; cg_Contexts := ∅ |}
  | Failed msg => fail_with (plainError ("reading " +:+ p +:+ ": " +:+ msg))
  | Found raw =>
      match yaml_Unmarshal raw with
      | inr msg => fail_with (plainError ("parsing " +:+ p +:+ ": " +:+ msg))
      | inl c => mret c
      end
  end.
Definition saveConfig (c : CliConfig) : C unit :=
  dir ← configDir;
  e ← os_MkdirAll dir;
  match e with
  | Some msg => fail_with (plainError ("creating " +:+ dir +:+ ": " +:+ msg))
  | None =>
      let p := Join2 dir "config.yaml" in
      e ← os_WriteFile p (yaml_Marshal c) 384;
      match e with
      | Some msg => fail_with (plainError ("writing " +:+ p +:+ ": " +:+ msg))
      | None => mret tt
      end
  end.

(** ** [tokenstore.go] *)

Definition storeToken (contextName token : string) : C bool := λ m,
  match mc_keyring m with
  | Some k => (inl true, with_keyring (Some (<[contextName := token]> k)) m)
  | None => (inl false, m)
  end.
Definition readToken (contextName : string) (ctx : CliContext) : C string :=
  if cx_KeychainRef ctx then
    k ← look mc_keyring;
    match k ≫= λ k, k !! contextName with
    | Some tok => mret tok
    | None => fail_with (errf exitAuth ("context " +:+ quoted contextName +:+ " keeps its token in the OS keychain, which is unreadable here (secret not found in keyring) — re-run `osctf login`, or pass --token/OSCTF_TOKEN"))
    end
  else if bool_decide (cx_Token ctx = "") then
    fail_with (errf exitAuth ("context " +:+ quoted contextName +:+ " has no token — run `osctf login --context " +:+ contextName +:+ "`"))
  else mret (cx_Token ctx).
Definition deleteToken (contextName : string) : C unit :=
  change_ (λ m, with_keyring (delete contextName <$> mc_keyring m) m).
Definition keychainNote (used : bool) : string :=
  if used then "Token stored in the OS keychain."
  else "The OS keychain was unavailable, so the token was written to the config file with 0600 permissions. Anyone who can read that file can act as you.".

(** ** [config.go]: the target *)

Record target := { t_url : string; t_token : string; t_from : string }.
Definition resolveTarget (flagURL flagToken flagContext : string) : C target :=
  let t := {| t_url := flagURL; t_token := flagToken; t_from := "flags" |} in
  v ← Getenv "OSCTF_URL";
  let t := if bool_decide (t_url t = "") && negb (bool_decide (v = ""))
           then {| t_url := v; t_token := t_token t; t_from := "environment" |} else t in
  v ← Getenv "OSCTF_TOKEN";
  let t := if bool_decide (t_token t = "") && negb (bool_decide (v = ""))
           then {| t_url := t_url t; t_token := v; t_from := "environment" |} else t in
  if negb (bool_decide (t_url t = "")) && negb (bool_decide (t_token t = "")) then mret t else
  cfg ← loadConfig;
  envContext ← Getenv "OSCTF_CONTEXT";
  let name := or_default (or_default flagContext envContext) (cg_CurrentContext cfg) in
  if bool_decide (name = "") then
    if bool_decide (t_url t = "") then fail_with (errf exitAuth "no target configured: pass --url, set OSCTF_URL, or run `osctf login`")
    else mret t
  else
    match cg_Contexts cfg !! name with
    | None => fail_with (errf exitUsage ("no such context " +:+ quoted name +:+ " (see `osctf context list`)"))
    | Some ctx =>
        let t := if bool_decide (t_url t = "")
                 then {| t_url := cx_URL ctx; t_token := t_token t; t_from := "context " +:+ name |} else t in
        if bool_decide (t_token t = "") then
          tok ← readToken name ctx;
          mret {| t_url := t_url t; t_token := tok; t_from := "context " +:+ name |}
        else mret t
    end.

(** ** [root.go], [commands.go]: requests *)

Definition send (rq : ApiRequest) : C (Response + string) := λ m,
  let '(r, n) := serve rq (mc_net m) in (inl r, with_net n (mc_sent m ++ [(rq, r)]) m).
(** The client of a target: its token, when there is one, goes with every request. *)
Definition newAPIClient (t : target) (op : ApiOp) : ApiRequest :=
  {| rq_Base := normalizeURL (t_url t) +:+ "/api/v1";
     rq_Authorization := if bool_decide (t_token t = "") then "" else "Bearer " +:+ t_token t;
     rq_Origin := ""; rq_Cookie := None; rq_Op := op |}.
Definition apiFor : C target :=
  t ← resolveTarget (g_url g) (g_token g) (g_context g);
  if bool_decide (t_token t = "")
  then fail_with (errf exitAuth "no API token: pass --token, set OSCTF_TOKEN, or run `osctf login`") else mret t.
Definition is_2xx (status : Z) : bool := ((200 <=? status) && (status <? 300))%Z.
Definition call (what : string) (op : ApiOp) : C Response :=
  t ← apiFor;
  r ← send (newAPIClient t op);
  match r with
  | inr msg => fail_with (errf exitUnavailable ("reaching " +:+ normalizeURL (t_url t) +:+ ": " +:+ msg))
  | inl r => if is_2xx (rs_Status r) then mret r else fail_with (apiErr what (rs_Status r) (rs_Problem r))
  end.

(** ** [auth.go] *)

(** The first line of the input. *)
Definition prompt (label : string) : C string :=
  change_ (λ m, with_terminal (mc_stdin m) (mc_stdout m) (mc_stderr m ++ [Line label]) m);;
  i ← look mc_stdin;
  match i with
  | [] => fail_with (errf exitUsage ("no input for " +:+ quoted (TrimSpace label) +:+ " (pass the flag in a non-interactive session)"))
  | s :: l => change_ (λ m, with_terminal l (mc_stdout m) (mc_stderr m) m);; mret (TrimSpace s)
  end.
Definition promptSecret (label : string) : C string :=
  tty ← look mc_tty;
  if negb tty then fail_with (errf exitUsage "cannot prompt for a password without a terminal — pass --password, or better, mint a token in the dashboard and use --token") else
  human label;;
  i ← look mc_stdin;
  match i with
  | [] => fail_with (errf exitError "reading the password: EOF")
  | s :: l => change_ (λ m, with_terminal l (mc_stdout m) (mc_stderr m) m);; mret s
  end.
Definition hostname : C string := look (λ m, default "unknown host" (mc_hostname m)).
(** Up to the first slash or colon, when it is not the first character. *)
Fixpoint until_any (stop : list ascii) (l : list ascii) : list ascii :=
  match l with c :: l' => if existsb (Ascii.eqb c) stop then [] else c :: until_any stop l' | [] => [] end.
Definition trim_prefix (p s : string) : string := default s (CutPrefix s p).
Definition contextNameFor (rawURL : string) : string :=
  let s := trim_prefix "http://" (trim_prefix "https://" (normalizeURL rawURL)) in
  let h := of_bytes (until_any ["/"; ":"]%char (to_bytes s)) in
  let s := if bool_decide (h = "") then s else h in
  or_default s "default".

(** A request of the session: it has an origin and the cookie, and no token. *)
Definition session_request (baseURL : string) (cookie : option string) (op : ApiOp) : ApiRequest :=
  {| rq_Base := baseURL +:+ "/api/v1"; rq_Authorization := ""; rq_Origin := baseURL; rq_Cookie := cookie; rq_Op := op |}.
Definition sso_only (baseURL : string) : cli_err :=
  errf exitAuth ("this deployment does not accept email/password login (it is likely SSO-only). Create a token in the dashboard and run: osctf login --url "
    +:+ baseURL +:+ " --token …").
Definition bootstrapToken (baseURL email password : string) (scopes : list string) : C string :=
  email ← (if bool_decide (email = "") then prompt "Email: " else mret email);
  password ← (if bool_decide (password = "") then promptSecret "Password: " else mret password);
  lr ← send (session_request baseURL None (OpLogin email password));
  match lr with
  | inr msg => fail_with (errf exitUnavailable ("reaching " +:+ baseURL +:+ ": " +:+ msg))
  | inl lr =>
      if negb (rs_Status lr =? 200)%Z then
        if (rs_Status lr =? 403)%Z then fail_with (sso_only baseURL)
        else fail_with (apiErr "login" (rs_Status lr) (rs_Problem lr))
      else
        let jar := rs_SetCookie lr in
        deferred (_ ← send (session_request baseURL jar OpLogout); mret tt)
          (host ← hostname;
           tr ← send (session_request baseURL jar (OpCreateToken ("osctf cli (" +:+ host +:+ ")") scopes None));
           match tr with
           | inr msg => fail_with (errf exitUnavailable ("creating a token: " +:+ msg))
           | inl tr =>
               if negb (rs_Status tr =? 201)%Z && negb (rs_Status tr =? 200)%Z
               then fail_with (apiErr "creating a token" (rs_Status tr) (rs_Problem tr)) else
               match JSON201 tr with
               | None => fail_with (errf exitError "the server accepted the token request but returned no token")
               | Some j => human "Minted an API token; the login session has been discarded.";; mret (str_field "token" j)
               end
           end)
  end.

Record identity := { idn_Username : string; idn_Email : string; idn_Role : string; idn_Scopes : list string; idn_URL : string }.
Definition identity_json (i : identity) : json :=
  JObj ([("username", JStr (idn_Username i)); ("email", JStr (idn_Email i)); ("role", JStr (idn_Role i))] ++
        (if decide (idn_Scopes i = []) then [] else [("scopes", JArr (JStr <$> idn_Scopes i))]) ++ [("url", JStr (idn_URL i))]).
Definition text_of (j : json) : string := match j with JStr s => s | _ => "" end.
Definition verifyToken (t : target) : C identity :=
  r ← send (newAPIClient t OpGetMe);
  match r with
  | inr msg => fail_with (errf exitUnavailable ("reaching " +:+ normalizeURL (t_url t) +:+ ": " +:+ msg))
  | inl r =>
      if negb (rs_Status r =? 200)%Z then fail_with (apiErr "verifying the credential" (rs_Status r) (rs_Problem r)) else
      match JSON200 r with
      | None => fail_with (errf exitError "the server returned no identity")
      | Some me =>
          mret {| idn_Username := str_field "username" me; idn_Email := str_field "email" me; idn_Role := str_field "role" me;
                  idn_Scopes := text_of <$> items (field "scopes" me); idn_URL := normalizeURL (t_url t) |}
      end
  end.

Record login_flags := { lf_url : string; lf_name : string; lf_email : string; lf_password : string; lf_token : string; lf_scopes : list string }.
Definition newLoginCmd (f : login_flags) : C unit :=
  let url := or_default (lf_url f) (g_url g) in
  if bool_decide (url = "") then fail_with (errf exitUsage "--url is required (the deployment to log in to)") else
  let name := or_default (lf_name f) (contextNameFor url) in
  tok ← (if bool_decide (lf_token f = "") then bootstrapToken (normalizeURL url) (lf_email f) (lf_password f) (lf_scopes f)
         else mret (lf_token f));
  who ← verifyToken {| t_url := url; t_token := tok; t_from := "" |};
  cfg ← loadConfig;
  usedKeychain ← storeToken name tok;
  let entry := {| cx_URL := normalizeURL url; cx_Token := if (usedKeychain : bool) then "" else tok; cx_KeychainRef := usedKeychain |} in
  saveConfig {| cg_CurrentContext := name; cg_Contexts := <[name := entry]> (cg_Contexts cfg) |};;
  human ("Logged in to " +:+ normalizeURL url +:+ " as " +:+ idn_Username who +:+ " (context " +:+ quoted name +:+ ").");;
  human (keychainNote usedKeychain);;
  data (JObj ([("context", JStr name); ("url", JStr (normalizeURL url)); ("username", JStr (idn_Username who))] ++
              (if decide (idn_Scopes who = []) then [] else [("scopes", JArr (JStr <$> idn_Scopes who))]) ++ [("keychain", JBool usedKeychain)])).

Definition newLogoutCmd : C unit :=
  cfg ← loadConfig;
  let name := or_default (g_context g) (cg_CurrentContext cfg) in
  if bool_decide (name = "") then fail_with (errf exitUsage "no context selected; pass --context") else
  match cg_Contexts cfg !! name with
  | None => fail_with (errf exitNotFound ("no such context " +:+ quoted name))
  | Some _ =>
      deleteToken name;;
      saveConfig {| cg_CurrentContext := if bool_decide (cg_CurrentContext cfg = name) then "" else cg_CurrentContext cfg;
                    cg_Contexts := delete name (cg_Contexts cfg) |};;
      human ("Context " +:+ quoted name +:+ " removed. The token still exists on the server — revoke it with `osctf token revoke` if it should stop working.");;
      data (JObj [("context", JStr name); ("removed", JBool true)])
  end.
Definition newWhoamiCmd : C unit :=
  t ← resolveTarget (g_url g) (g_token g) (g_context g);
  who ← verifyToken t;
  let scopes := if decide (idn_Scopes who = []) then "session (no scopes)" else "scopes: " +:+ join_with ", " (idn_Scopes who) in
  human (idn_Username who +:+ " (" +:+ idn_Role who +:+ ") at " +:+ normalizeURL (t_url t) +:+ " — " +:+ scopes +:+ ", credential from " +:+ t_from t);;
  data (identity_json who).
(** The contexts in the order [range] gives them, which the language leaves open. *)
Definition context_list : C unit :=
  cfg ← loadConfig;
  let rows := map_to_list (cg_Contexts cfg) in
  let current n := bool_decide (n = cg_CurrentContext cfg) in
  for_each (λ p, human ((if current p.1 then "*" else " ") +:+ " " +:+ padr 20 p.1 +:+ " " +:+ cx_URL p.2)) rows;;
  (if decide (rows = []) then human "No contexts configured. Run `osctf login --url …`." else mret tt);;
  data (JArr ((λ p, JObj [("name", JStr p.1); ("url", JStr (cx_URL p.2)); ("current", JBool (current p.1))]) <$> rows)).
Definition context_use (name : string) : C unit :=
  cfg ← loadConfig;
  if negb (is_Some_b (cg_Contexts cfg !! name)) then fail_with (errf exitNotFound ("no such context " +:+ quoted name)) else
  saveConfig {| cg_CurrentContext := name; cg_Contexts := cg_Contexts cfg |};;
  human ("Now using context " +:+ quoted name +:+ ".");;
  data (JObj [("current_context", JStr name)]).

(** ** [commands.go] *)

Definition rows_of (o : option json) : list json := items (or_null o).
Definition challenge_validate (arg : string) : C unit :=
  let dir := Clean arg in
  m ← look (λ m, m);
  match ParseFile (reads m) (Join2 dir "challenge.yaml") (Base dir) with
  | inl spec =>
      human (dir +:+ " is valid (" +:+ sp_Kind spec +:+ ", " +:+ sp_Scoring spec +:+ ").");;
      data (JObj [("ok", JBool true); ("slug", JStr (sp_Slug spec)); ("kind", JStr (sp_Kind spec))])
  | inr e =>
      match asValidation e with
      | Some (f, msg) =>
          human ("invalid: " +:+ msg);;
          data (JObj [("ok", JBool false); ("field_errors", json_fields (FieldErrors f msg))]);;
          fail_with (cliError exitValidation msg "" (FieldErrors f msg) true)
      | None => fail_with (errf exitValidation (spec_Error e))
      end
  end.
Definition challenge_list : C unit :=
  r ← call "listing challenges" OpListChallenges;
  for_each (λ c, human (padr 28 (str_field "slug" c) +:+ " " +:+ padr 12 (str_field "category" c) +:+ " " +:+ padl 4 (dec (num_field "points" c))))
    (rows_of (JSON200 r));;
  data (or_null (JSON200 r)).
Definition challenge_get (slug : string) : C unit :=
  r ← call "getting the challenge" (OpGetChallenge slug);
  match JSON200 r with
  | Some c => human (str_field "slug" c +:+ " — " +:+ str_field "title" c +:+ " (" +:+ dec (num_field "points" c) +:+ " points)")
  | None => mret tt
  end;;
  data (or_null (JSON200 r)).
Definition event_get : C unit :=
  r ← call "getting the event" OpGetEvent;
  match JSON200 r with
  | Some e => human (str_field "name" e +:+ " — phase " +:+ str_field "phase" e)
  | None => mret tt
  end;;
  data (or_null (JSON200 r)).
Definition parseTime (flag v : string) : C time :=
  match time_Parse v with
  | Some t => mret t
  | None => fail_with (errf exitUsage (flag +:+ " must be RFC 3339 (e.g. 2026-09-01T00:00:00Z), got " +:+ quoted v))
  end.
Definition time_flag (flag v : string) : C (option time) :=
  if bool_decide (v = "") then mret None else t ← parseTime flag v; mret (Some t).
Definition event_set (start fin freeze : string) : C unit :=
  s ← time_flag "--start" start;
  e ← time_flag "--end" fin;
  f ← time_flag "--freeze" freeze;
  if negb (is_Some_b s) && negb (is_Some_b e) && negb (is_Some_b f)
  then fail_with (errf exitUsage "nothing to set: pass --start, --end, or --freeze") else
  r ← call "updating the event" (OpAdminUpdateEvent s e f);
  human "Event updated.";;
  data (or_null (JSON200 r)).
Fixpoint board_lines (i : Z) (rows : list json) : C unit :=
  match rows with
  | [] => mret tt
  | s :: l => human (padl 3 (dec i) +:+ ". " +:+ padr 24 (str_field "name" s) +:+ " " +:+ padl 5 (dec (num_field "points" s)));;
              board_lines (i + 1) l
  end.
Definition scoreboard (top : Z) : C unit :=
  r ← call "reading the scoreboard" OpGetScoreboard;
  match JSON200 r with
  | None => data JNull
  | Some sb =>
      let rows := items (field "standings" sb) in
      let rows := if ((0 <? top) && (top <? Z.of_nat (length rows)))%Z then take (Z.to_nat top) rows else rows in
      (if bool_field "frozen" sb then human "(frozen)" else mret tt);;
      board_lines 1 rows;;
      data (JObj [("frozen", JBool (bool_field "frozen" sb)); ("standings", JArr rows)])
  end.
Definition submit (slug flag : string) : C unit :=
  r ← call "submitting the flag" (OpSubmitFlag slug flag);
  match JSON200 r with
  | Some j => human (if bool_field "correct" j then "correct" else "incorrect")
  | None => mret tt
  end;;
  data (or_null (JSON200 r)).
Definition instance_start (slug : string) : C unit :=
  r ← call "starting the instance" (OpStartInstance slug);
  data (or_null (JSON200 r)).
Definition instance_stop (slug : string) : C unit :=
  _ ← call "stopping the instance" (OpStopInstance slug);
  human "Instance stopped.";;
  data (JObj [("stopped", JBool true)]).
Definition token_list : C unit :=
  r ← call "listing tokens" OpListTokens;
  for_each (λ t, human (str_field "prefix" t +:+ "  " +:+ padr 20 (str_field "name" t) +:+ " [" +:+
                        join_with " " (text_of <$> items (field "scopes" t)) +:+ "]")) (rows_of (JSON200 r));;
  data (or_null (JSON200 r)).
Definition token_create (name : string) (scopes : list string) (days : Z) : C unit :=
  if bool_decide (name = "") then fail_with (errf exitUsage "--name is required (what the token is for)") else
  r ← call "creating the token" (OpCreateToken name scopes (if (0 <? days)%Z then Some days else None));
  match JSON201 r with
  | None => fail_with (errf exitError "the server accepted the request but returned no token")
  | Some j =>
      human "Copy this now — it is shown once and cannot be retrieved again:";;
      print_stdout (str_field "token" j);;
      data j
  end.
Definition confirm (question : string) : C bool := λ m,
  let m := with_terminal (mc_stdin m) (mc_stdout m) (mc_stderr m ++ [Line (question +:+ " [y/N] ")]) m in
  match prompt "" m with
  | (inl ans, m) => (inl (bool_decide (ans = "y") || bool_decide (ans = "Y") || bool_decide (ans = "yes")), m)
  | (inr _, m) => (inl false, m)
  end.
Definition parseUUID (s : string) : C uuid :=
  match uuid_Parse s with
  | Some id => mret id
  | None => fail_with (errf exitUsage ("invalid id " +:+ quoted s +:+ ": expected a UUID"))
  end.
Definition token_revoke (arg : string) : C unit :=
  id ← parseUUID arg;
  ok ← (if g_yes g then mret true
        else confirm ("Revoke token " +:+ arg +:+ "? Anything using it stops working immediately."));
  if negb ok then fail_with (errf exitUsage "aborted") else
  _ ← call "revoking the token" (OpRevokeToken id);
  human "Token revoked.";;
  data (JObj [("revoked", JStr arg)]).
Definition plugin_list : C unit :=
  r ← call "listing plugins" OpAdminListPlugins;
  for_each (λ pl,
              human (padr 20 (str_field "name" pl) +:+ " " +:+ padr 16 (str_field "type" pl) +:+ " " +:+ str_field "state" pl +:+
                     (match field "reason" pl with JStr r => "  " +:+ r | _ => "" end)))
    (items (field "plugins" (or_null (JSON200 r))));;
  data (or_null (JSON200 r)).
Definition plugin_reload (name : string) : C unit :=
  _ ← call "reloading the plugin" (OpAdminReloadPlugin name);
  human ("Reloaded " +:+ name +:+ "; the new instance is serving.");;
  data (JObj [("reloaded", JStr name)]).
Definition team_list : C unit := r ← call "listing teams" OpListTeams; data (or_null (JSON200 r)).
Definition team_create (name : string) : C unit :=
  if bool_decide (name = "") then fail_with (errf exitUsage "--name is required") else
  r ← call "creating the team" (OpCreateTeam name);
  human "Team created.";;
  data (or_null (JSON201 r)).
Definition user_list : C unit := r ← call "listing users" OpAdminListUsers; data (or_null (JSON200 r)).
Definition newVersionCmd : C unit :=
  human ("osctf " +:+ version +:+ " " +:+ revision);;
  data (JObj ([("version", JStr version)] ++ omitempty "revision" revision)).

(** ** [authoring.go] *)

Definition newPackageCmd (arg out : string) : C unit :=
  let dir := Clean arg in
  m ← look (λ m, m);
  spec ← ok_or (loadSpec (reads m) dir);
  let out := or_default out (sp_Slug spec +:+ ".tar") in
  bytes ← ok_or (buildBundle tar_Write tar_Bytes (reads m) dir spec);
  e ← os_WriteFile out bytes 384;
  match e with
  | Some msg => fail_with (errf exitError ("writing " +:+ out +:+ ": " +:+ msg))
  | None =>
      human ("Wrote " +:+ out +:+ " (" +:+ dec (Z.of_nat (String.length bytes)) +:+ " bytes, " +:+
             dec (Z.of_nat (S (length (sp_Files spec)))) +:+ " files).");;
      data (JObj [("bundle", JStr out); ("slug", JStr (sp_Slug spec)); ("files", JArr (JStr <$> sp_Files spec));
                  ("bytes", JNum (Z.of_nat (String.length bytes)))])
  end.
(** How many files went up before one failed, if one did. *)
Fixpoint uploadFiles (dir id : string) (files : list string) (n : Z) : C (Z * option cli_err) := λ m,
  match files with
  | [] => (inl (n, None), m)
  | f :: l =>
      let clean := Clean f in
      match reads m (Join2 dir clean) with
      | inr msg => (inl (n, Some (errf exitValidation ("reading " +:+ clean +:+ ": " +:+ msg))), m)
      | inl body =>
          match call ("uploading " +:+ clean) (OpAdminUploadAttachment id (Base clean) body) m with
          | (inr e, m) => (inl (n, Some e), m)
          | (inl _, m) => uploadFiles dir id l (n + 1) m
          end
      end
  end.
Definition newCreateCmd (arg : string) (visible : bool) : C unit :=
  let dir := Clean arg in
  m ← look (λ m, m);
  spec ← ok_or (loadSpec (reads m) dir);
  r ← call "creating the challenge" (OpAdminCreateChallenge (specToCreate spec visible));
  match JSON201 r with
  | None => fail_with (errf exitError "the server created the challenge but returned no body")
  | Some created =>
      '(uploaded, e) ← uploadFiles dir (str_field "id" created) (sp_Files spec) 0;
      match e with
      | Some e =>
          fail_with (errf (codeOf (Some e)) ("challenge " +:+ quoted (str_field "slug" created) +:+
            " was created, but uploading its files failed: " +:+ Error_text e))
      | None =>
          human ("Created " +:+ str_field "slug" created +:+ " (" +:+ dec uploaded +:+ " file(s) uploaded).");;
          data (JObj [("slug", JStr (str_field "slug" created)); ("id", JStr (str_field "id" created)); ("uploaded", JNum uploaded);
                      ("visible", JBool (bool_field "visible" created))])
      end
  end.
Definition nl : string := String "010" "".
Definition lines (l : list string) : string := foldr (λ s acc, s +:+ nl +:+ acc) "" l.
Definition scaffoldYAML (slug : string) : string :=
  lines ["slug: " +:+ slug; "title: " +:+ of_bytes ((λ c, if Ascii.eqb c "-" then " "%char else c) <$> to_bytes slug); "category: web";
         "difficulty: easy"; "description: |"; "  Describe the challenge here. Markdown works."; "flag: osctf{change_me}";
         "scoring: dynamic"; "points_initial: 500"; "points_min: 100"; "decay: 25"; "visible: false"].
Definition newInitCmd (slug : string) : C unit :=
  match Parse (scaffoldYAML slug) slug with
  | inr e => fail_with (errf exitValidation (quoted slug +:+ " is not a usable slug: " +:+ spec_Error e))
  | inl _ =>
      exists_ ← os_Stat slug;
      if (exists_ : bool) then fail_with (errf exitConflict (slug +:+ " already exists")) else
      e ← os_MkdirAll (Join2 slug "src");
      match e with
      | Some msg => fail_with (errf exitError ("creating " +:+ slug +:+ ": " +:+ msg))
      | None =>
          e ← os_WriteFile (Join2 slug "challenge.yaml") (scaffoldYAML slug) 384;
          match e with
          | Some msg => fail_with (errf exitError ("writing challenge.yaml: " +:+ msg))
          | None =>
              human ("Scaffolded " +:+ slug +:+ "/. Edit challenge.yaml, then `osctf challenge validate " +:+ slug +:+ "`.");;
              data (JObj [("slug", JStr slug); ("dir", JStr slug)])
          end
      end
  end.

(** ** [root.go], [main.go]: the command tree *)

Inductive Command :=
  | CVersion | CLogin (f : login_flags) | CLogout | CWhoami | CContextList | CContextUse (name : string) | CInit (slug : string)
  | CValidate (dir : string) | CList | CGet (slug : string) | CPackage (dir out : string) | CCreate (dir : string) (visible : bool)
  | CEventGet | CEventSet (start fin freeze : string) | CScoreboard (top : Z) | CSubmit (slug flag : string)
  | CInstanceStart (slug : string) | CInstanceStop (slug : string) | CTeamList | CTeamCreate (name : string) | CUserList
  | CTokenList | CTokenCreate (name : string) (scopes : list string) (days : Z) | CTokenRevoke (id : string)
  | CPluginList | CPluginReload (name : string).
Definition command (c : Command) : C unit :=
  match c with
  | CVersion => newVersionCmd | CLogin f => newLoginCmd f | CLogout => newLogoutCmd | CWhoami => newWhoamiCmd
  | CContextList => context_list | CContextUse n => context_use n | CInit s => newInitCmd s
  | CValidate d => challenge_validate d | CList => challenge_list | CGet s => challenge_get s
  | CPackage d o => newPackageCmd d o | CCreate d v => newCreateCmd d v
  | CEventGet => event_get | CEventSet s e f => event_set s e f | CScoreboard n => scoreboard n | CSubmit s f => submit s f
  | CInstanceStart s => instance_start s | CInstanceStop s => instance_stop s
  | CTeamList => team_list | CTeamCreate n => team_create n | CUserList => user_list
  | CTokenList => token_list | CTokenCreate n s d => token_create n s d | CTokenRevoke i => token_revoke i
  | CPluginList => plugin_list | CPluginReload n => plugin_reload n
  end.
(** The exit code, and what is left. *)
Definition main (c : Command) (m : Machine Net) : Z * Machine Net :=
  match command c m with
  | (inl _, m) => (codeOf None, m)
  | (inr e, m) => (codeOf (Some e), fail e m)
  end.
End Cli.
