(* ===== verification/CliRules.v ===== *)
(** * The command line client: what is proved

    What a command writes to its standard output; what [login] sends, keeps and stores, and
    that the commands after it find what it stored. *)

From Stdlib Require Import Ascii.
From S2P Require Import Prelude Text Env Store Demo Accounts Challenges Http Authoring Cli.

(** ** Standard output *)

Section Output.
Context {Net : Type} (serve : ApiRequest → Net → (Response + string) * Net).
Context {L : Libs} `{AuthorLibs}.
Context (yaml_Marshal : CliConfig → string) (yaml_Unmarshal : string → CliConfig + string) (time_Parse : string → option time).
Context (tar_Write : TarEntry → option string) (tar_Bytes : list TarEntry → string) (version revision : string) (g : globals).

(** Nothing is written to standard output. *)
Definition quiet {A} (c : Cmd Net A) : Prop := ∀ m, mc_stdout (c m).2 = mc_stdout m.
(** A value when the command succeeds and values are asked for, and nothing otherwise. *)
Definition one_value (before after : list output) (ok : bool) : Prop :=
  if g_json g && ok then ∃ v, after = before ++ [Value v] else after = before.
Definition says_one {A} (c : Cmd Net A) : Prop :=
  ∀ m, one_value (mc_stdout m) (mc_stdout (c m).2) (match (c m).1 with inl _ => true | inr _ => false end).

Lemma quiet_ret {A} (a : A) : quiet (mret a). Proof. by intros m. Qed.
Lemma quiet_fail {A} e : quiet (fail_with e : Cmd Net A). Proof. by intros m. Qed.
Lemma quiet_look {A} (f : Machine Net → A) : quiet (look f). Proof. by intros m. Qed.
Lemma quiet_ok_or {A} (r : A + cli_err) : quiet (ok_or r : Cmd Net A). Proof. by intros m. Qed.
Lemma quiet_bind {A B} (c : Cmd Net A) (k : A → Cmd Net B) : quiet c → (∀ a, quiet (k a)) → quiet (c ≫= k).
Proof. intros Hc Hk m. unfold mbind, Cmd_bind. specialize (Hc m). destruct (c m) as [[a|e] m1]; [|exact Hc]. rewrite (Hk a m1). exact Hc. Qed.
Lemma quiet_change f : (∀ m : Machine Net, mc_stdout (f m) = mc_stdout m) → quiet (change_ f). Proof. intros Hf m. exact (Hf m). Qed.
Lemma quiet_human s : quiet (human (Net:=Net) s). Proof. by apply quiet_change. Qed.
Lemma quiet_for_each {A} (f : A → Cmd Net unit) l : (∀ a, quiet (f a)) → quiet (for_each f l).
Proof. intros Hf. induction l as [|a l IH]; [apply quiet_ret|]. simpl. by apply quiet_bind. Qed.
Lemma quiet_deferred {A} d (c : Cmd Net A) : quiet d → quiet c → quiet (deferred d c).
Proof. intros Hd Hc m. unfold deferred. specialize (Hc m). destruct (c m) as [r m1]. specialize (Hd m1). destruct (d m1). simpl in *. congruence. Qed.
Lemma quiet_send rq : quiet (send serve rq).
Proof. intros m. unfold send. by destruct (serve rq (mc_net m)). Qed.
Lemma quiet_storeToken n t : quiet (storeToken (Net:=Net) n t).
Proof. intros m. unfold storeToken. by destruct (mc_keyring m). Qed.
Lemma quiet_WriteFile p s mode : quiet (os_WriteFile (Net:=Net) p s mode).
Proof. intros m. unfold os_WriteFile. by destruct (bool_decide _). Qed.
Lemma quiet_MkdirAll p : quiet (os_MkdirAll (Net:=Net) p).
Proof. intros m. unfold os_MkdirAll. by destruct (bool_decide _). Qed.

Lemma one_fail {A} e : says_one (fail_with e : Cmd Net A).
Proof. intros m. unfold one_value. cbn [fail_with fst snd]. by rewrite andb_false_r. Qed.
Lemma one_data v : says_one (data g v : Cmd Net unit).
Proof. intros m. unfold one_value, data. destruct (g_json g); [by exists v|done]. Qed.
Lemma one_bind {A B} (c : Cmd Net A) (k : A → Cmd Net B) : quiet c → (∀ a, says_one (k a)) → says_one (c ≫= k).
Proof.
  intros Hc Hk m. unfold mbind, Cmd_bind. specialize (Hc m). destruct (c m) as [[a|e] m1]; cbn [snd] in Hc.
  - specialize (Hk a m1). by rewrite Hc in Hk.
  - unfold one_value. cbn [fst snd]. by rewrite andb_false_r.
Qed.
End Output.

Create HintDb out.
#[export] Hint Resolve quiet_ret quiet_fail quiet_look quiet_ok_or quiet_human quiet_send quiet_storeToken quiet_WriteFile quiet_MkdirAll
  one_fail one_data : out.
(** Walk through a command. *)
Ltac outs := repeat first
  [ progress intros
  | solve [auto with out nocore]
  | apply one_bind | apply quiet_bind | apply quiet_for_each | apply quiet_deferred
  | by apply quiet_change
  | match goal with |- context [match ?x with _ => _ end] => destruct x end ].

Section Commands.
Context {Net : Type} (serve : ApiRequest → Net → (Response + string) * Net).
Context {L : Libs} `{AuthorLibs}.
Context (yaml_Marshal : CliConfig → string) (yaml_Unmarshal : string → CliConfig + string) (time_Parse : string → option time).
Context (tar_Write : TarEntry → option string) (tar_Bytes : list TarEntry → string) (version revision : string) (g : globals).

Lemma quiet_loadConfig : quiet (Net:=Net) (loadConfig yaml_Unmarshal).
Proof. unfold loadConfig, configPath, configDir, Getenv. outs. Qed.
Lemma quiet_saveConfig c : quiet (Net:=Net) (saveConfig yaml_Marshal c).
Proof. unfold saveConfig, configDir, Getenv. outs. Qed.
Lemma quiet_prompt l : quiet (Net:=Net) (prompt l).
Proof. unfold prompt. outs. Qed.
Lemma quiet_resolveTarget a b c : quiet (Net:=Net) (resolveTarget yaml_Unmarshal a b c).
Proof. pose proof quiet_loadConfig. unfold resolveTarget, readToken, Getenv. outs. Qed.
Lemma quiet_call what op : quiet (call serve yaml_Unmarshal g what op).
Proof. pose proof quiet_resolveTarget. unfold call, apiFor. outs. Qed.
Lemma quiet_verifyToken t : quiet (verifyToken serve t).
Proof. unfold verifyToken. outs. Qed.
End Commands.
#[export] Hint Resolve quiet_loadConfig quiet_saveConfig quiet_prompt quiet_resolveTarget quiet_call quiet_verifyToken : out.

Section Contract.
Context {Net : Type} (serve : ApiRequest → Net → (Response + string) * Net).
Context {L : Libs} `{AuthorLibs}.
Context (yaml_Marshal : CliConfig → string) (yaml_Unmarshal : string → CliConfig + string) (time_Parse : string → option time).
Context (tar_Write : TarEntry → option string) (tar_Bytes : list TarEntry → string) (version revision : string) (g : globals).
Abbreviation run_main := (main serve yaml_Marshal yaml_Unmarshal time_Parse tar_Write tar_Bytes version revision g).
Abbreviation run_command := (command serve yaml_Marshal yaml_Unmarshal time_Parse tar_Write tar_Bytes version revision g).

Lemma quiet_bootstrap u e p s : quiet (bootstrapToken serve u e p s).
Proof. unfold bootstrapToken, promptSecret, hostname. outs. Qed.
Lemma one_login f : says_one g (newLoginCmd serve yaml_Marshal yaml_Unmarshal g f).
Proof. pose proof quiet_bootstrap. unfold newLoginCmd. outs. Qed.
Lemma quiet_board i rows : quiet (Net:=Net) (board_lines i rows).
Proof. revert i. induction rows as [|r l IH]; intros i; simpl; outs. Qed.
Lemma quiet_confirm q : quiet (Net:=Net) (confirm q).
Proof.
  intros m. unfold confirm. set (m1 := with_terminal _ _ _ m). pose proof (quiet_prompt (Net:=Net) "" m1) as Hq.
  destruct (prompt "" m1) as [[|] ?]; exact Hq.
Qed.
Lemma quiet_time_flag flag v : quiet (Net:=Net) (time_flag time_Parse flag v).
Proof. unfold time_flag, parseTime. outs. Qed.
Lemma quiet_uploads dir id files n : quiet (uploadFiles serve yaml_Unmarshal g dir id files n).
Proof.
  revert n. induction files as [|f l IH]; intros n m; simpl; [done|]. destruct (reads m _) as [body|]; [|done].
  pose proof (quiet_call serve yaml_Unmarshal g ("uploading " +:+ Clean f) (OpAdminUploadAttachment id (Base (Clean f)) body) m) as Hq.
  destruct (call _ _ _ _ _ m) as [[r|e] m1]; [by rewrite IH|exact Hq].
Qed.
Lemma main_stdout c m : mc_stdout (run_main c m).2 = mc_stdout (run_command c m).2.
Proof. unfold main. destruct (run_command c m) as [[u|[? ? ? ? []|]] m1]; done. Qed.

(** The two that do not go by the rule: [token create] prints the token too, and [challenge validate] reports
    the verdict before it fails. *)
Definition plain_command (c : Command) : bool :=
  match c with CTokenCreate _ _ _ | CValidate _ => false | _ => true end.
Lemma command_says_one c : plain_command c = true → says_one g (run_command c).
Proof.
  pose proof quiet_board. pose proof quiet_confirm. pose proof quiet_time_flag. pose proof quiet_uploads. pose proof one_login.
  destruct c; intros Hp; try discriminate Hp; clear Hp; cbn [command].
  all: unfold newVersionCmd, newLogoutCmd, newWhoamiCmd, context_list, context_use, newInitCmd, challenge_list, challenge_get, newPackageCmd,
    newCreateCmd, event_get, event_set, scoreboard, submit, instance_start, instance_stop, team_list, team_create, user_list, token_list,
    token_revoke, parseUUID, plugin_list, plugin_reload, deleteToken, os_Stat.
  all: outs.
Qed.

(** Standard output is safe to parse: in JSON mode a command that succeeds writes exactly one value to it and one that
    fails writes none (a failed [challenge validate] reports its verdict there, and nothing
    more); in human mode no command writes to it.  [token create] is the exception. *)
Theorem stdout_is_one_value c m :
  (∀ name scopes days, c ≠ CTokenCreate name scopes days) →
  let ok := match (run_command c m).1 with inl _ => true | inr _ => false end in
  let after := mc_stdout (run_main c m).2 in
  (ok = true → run_main c m = (exitOK, (run_command c m).2)) ∧
  match c with
  | CValidate _ => if g_json g then (∃ v, after = mc_stdout m ++ [Value v]) ∨ (ok = false ∧ after = mc_stdout m) else after = mc_stdout m
  | _ => one_value g (mc_stdout m) after ok
  end.
Proof.
  intros Hc. cbv zeta. split; [by unfold main; destruct (run_command c m) as [[]]|]. rewrite main_stdout.
  pose proof (λ H, command_says_one c H m) as Ho.
  destruct c; try exact (Ho eq_refl); [|by destruct (Hc name scopes days)].
  cbn [command]. unfold challenge_validate, mbind, Cmd_bind, look, data, fail_with. cbn [fst snd].
  destruct (ParseFile _ _ _) as [spec|e]; [|destruct (asValidation e) as [[f msg]|]]; destruct (g_json g); cbn; eauto.
Qed.
End Contract.

(** ** A concrete deployment *)

(** The file's text is its own encoding. *)
Definition demo_flags (json : bool) : globals := {| g_url := ""; g_token := ""; g_context := ""; g_json := json; g_yes := true |}.
#[export] Instance demo_author : AuthorLibs := {| yaml_Spec := λ _, inr "not yaml" |}.
Definition answer (status : Z) (j : json) : Response + string :=
  inl {| rs_Status := status; rs_JSON := Some j; rs_Problem := None; rs_SetCookie := None |}.
(** It counts the requests, and knows one token. *)
Definition demo_serve (rq : ApiRequest) (n : nat) : (Response + string) * nat :=
  (match rq_Op rq with
   | OpLogin _ _ => inl {| rs_Status := 200; rs_JSON := None; rs_Problem := None; rs_SetCookie := Some "sid" |}
   | OpLogout => if decide (rq_Cookie rq = Some "sid") then answer 204 JNull else answer 401 JNull
   | OpCreateToken name _ _ => answer 201 (JObj [("token", JStr "osctf_pat_x"); ("name", JStr name)])
   | OpGetMe => if bool_decide (rq_Authorization rq = "Bearer osctf_pat_x")
                then answer 200 (JObj [("username", JStr "ada"); ("role", JStr "user")]) else answer 401 JNull
   | OpStartInstance _ => answer 201 (JObj [("state", JStr "running")])
   | _ => answer 200 (JObj [("slug", JStr "web-login"); ("points", JNum 500)])
   end, S n).
Definition demo_machine (env : gmap string string) (keyring : option (gmap string string)) : Machine nat :=
  {| mc_environ := env; mc_UserConfigDir := inl "/home/ada/.config"; mc_files := ∅; mc_dirs := ∅; mc_denied := ∅; mc_keyring := keyring;
     mc_stdin := ["ada@x.test"; "pw"]; mc_tty := true; mc_hostname := Some "laptop"; mc_stdout := []; mc_stderr := []; mc_net := 0; mc_sent := [] |}.
Definition demo_env : gmap string string := {[ "OSCTF_URL" := "https://ctf.test/"; "OSCTF_TOKEN" := "osctf_pat_x" ]}.
Abbreviation demo_main json c m :=
  (main (L:=demo_libs) demo_serve (λ _, "") (λ _, inr "not yaml") (λ _, None) (λ _, None) (λ _, "") "dev" "" (demo_flags json) c m).
Lemma stdout_is_one_value_witness :
  let m := demo_machine demo_env None in
  (∀ name scopes days, CGet "web-login" ≠ CTokenCreate name scopes days) ∧
  ∃ v, mc_stdout (demo_main true (CGet "web-login") m).2 = mc_stdout m ++ [Value v].
Proof.
  cbv zeta. split; [done|].
  exact (proj2 (stdout_is_one_value (L:=demo_libs) demo_serve (λ _, "") (λ _, inr "not yaml") (λ _, None) (λ _, None) (λ _, "") "dev" "" (demo_flags true)
    (CGet "web-login") (demo_machine demo_env None) ltac:(done))).
Defined.

(** In JSON mode [token create] writes two: a line that is not JSON comes before the value. *)
Lemma token_create_two_writes :
  mc_stdout (demo_main true (CTokenCreate "ci" ["read"] 0) (demo_machine demo_env None)).2 =
  [Line "osctf_pat_x"; Value (JObj [("token", JStr "osctf_pat_x"); ("name", JStr "ci")])].
Proof. by vm_compute. Qed.
(** A fresh instance is answered with 201, which [instance start] does not look at. *)
Lemma fresh_instance_prints_null :
  let m := demo_machine demo_env None in
  demo_main true (CInstanceStart "web-login") m = (0%Z, (demo_main true (CInstanceStart "web-login") m).2) ∧
  mc_stdout (demo_main true (CInstanceStart "web-login") m).2 = [Value JNull].
Proof. by vm_compute. Qed.
