(* ===== verification/CliLogin.v ===== *)
(** * The command line client: credentials

    [login] ends the session it opens, stores only a credential the server accepted, and stores it
    where the commands after it find it. *)

From Stdlib Require Import Ascii.
From S2P Require Import Prelude Text Env Store Demo Accounts Challenges Http Authoring Cli CliRules.

(** What a command does not touch: the disk, the keychain, and what the machine is. *)
Definition same_disk {Net} (m m' : Machine Net) : Prop :=
  mc_files m' = mc_files m ∧ mc_dirs m' = mc_dirs m ∧ mc_keyring m' = mc_keyring m.
Definition same_host {Net} (m m' : Machine Net) : Prop :=
  mc_environ m' = mc_environ m ∧ mc_UserConfigDir m' = mc_UserConfigDir m ∧ mc_denied m' = mc_denied m.
Definition is_inl {A B} (r : A + B) : bool := match r with inl _ => true | inr _ => false end.

(** Unfold a command into the machines it goes through. *)
Ltac step := cbv [mbind Cmd_bind change_ look fail_with mret Cmd_ret human ok_or].

Section Login.
Context {Net : Type} (serve : ApiRequest → Net → (Response + string) * Net).
Context (yaml_Marshal : CliConfig → string) (yaml_Unmarshal : string → CliConfig + string) (g : globals).
Abbreviation C := (Cmd Net).

(** Requests are sent, in order; nothing else of the machine changes but the terminal. *)
Definition sent_by (m m' : Machine Net) (l : list (ApiRequest * (Response + string))) : Prop :=
  same_disk m m' ∧ same_host m m' ∧ mc_sent m' = mc_sent m ++ l.
Lemma sent_none m : sent_by m m [].
Proof. split_and!; try done. by rewrite app_nil_r. Qed.
Lemma sent_trans m m1 m2 l l' : sent_by m m1 l → sent_by m1 m2 l' → sent_by m m2 (l ++ l').
Proof.
  intros ((? & ? & ?) & (? & ? & ?) & E) ((? & ? & ?) & (? & ? & ?) & E'). split_and!; [split_and!; congruence..|].
  by rewrite E', E, app_assoc.
Qed.
Lemma send_inv rq m r m' : send serve rq m = (r, m') → ∃ a, r = inl a ∧ sent_by m m' [(rq, a)].
Proof. unfold send. destruct (serve rq (mc_net m)) as [a n]. intros [= <- <-]. by exists a. Qed.
Lemma bind_inv {A B} (c : C A) (k : A → C B) m r m' : (c ≫= k) m = (r, m') →
  (∃ e, c m = (inr e, m') ∧ r = inr e) ∨ (∃ a m1, c m = (inl a, m1) ∧ k a m1 = (r, m')).
Proof. unfold mbind, Cmd_bind. destruct (c m) as [[a|e] m1]; [|intros [= <- <-]]; eauto 6. Qed.

Lemma sent_terminal m m' : (∃ i o e, m' = with_terminal i o e m) → sent_by m m' [].
Proof. intros (i & o & e & ->). split_and!; try done. cbn. by rewrite app_nil_r. Qed.
Lemma deferred_inv {A} d (c : C A) m r m' : deferred d c m = (r, m') → ∃ m1 r', c m = (r, m1) ∧ d m1 = (r', m').
Proof. unfold deferred. destruct (c m) as [r1 m1]. destruct (d m1) as [r2 m2] eqn:E. intros [= <- <-]. eauto. Qed.

(** The requests of a login with a password: the login alone when it is refused; else the token is asked
    for with the session's cookie, and the session is ended with it, whatever came of that. *)
Definition session_requests (base : string) (l : list (ApiRequest * (Response + string))) : Prop :=
  l = [] ∨
  (∃ email password a, l = [(session_request base None (OpLogin email password), a)] ∧
     ∀ lr, a = inl lr → rs_Status lr ≠ 200%Z) ∨
  (∃ email password lr name scopes tr out,
     l = [(session_request base None (OpLogin email password), inl lr);
          (session_request base (rs_SetCookie lr) (OpCreateToken name scopes None), tr);
          (session_request base (rs_SetCookie lr) OpLogout, out)] ∧ rs_Status lr = 200%Z).


Lemma prompt_silent label m r m' : prompt label m = (r, m') → sent_by m m' [].
Proof. unfold prompt. step. cbn [mc_stdin with_terminal]. destruct (mc_stdin m); intros [= <- <-]; apply sent_terminal; by repeat eexists. Qed.
Lemma promptSecret_silent label m r m' : promptSecret label m = (r, m') → sent_by m m' [].
Proof.
  unfold promptSecret. step. destruct (mc_tty m); cbn [negb mc_stdin with_terminal]; [|intros [= <- <-]; apply sent_none].
  destruct (mc_stdin m); intros [= <- <-]; apply sent_terminal; by repeat eexists.
Qed.

Lemma bootstrap_sends base email password scopes m r m' :
  bootstrapToken serve base email password scopes m = (r, m') → ∃ l, sent_by m m' l ∧ session_requests base l.
Proof.
  unfold bootstrapToken. intros [(e & H & _)|(em & m1 & H1 & H)]%bind_inv.
  { exists []. split; [|by left]. destruct (bool_decide _); [by eapply prompt_silent|]. by injection H. }
  assert (sent_by m m1 []) as S1.
  { destruct (bool_decide _); [by eapply prompt_silent|]. injection H1 as _ <-. apply sent_none. }
  clear H1. apply bind_inv in H as [(e & H & _)|(pw & m2 & H2 & H)].
  { exists []. split; [|by left]. eapply (sent_trans _ _ _ [] []); [done|]. destruct (bool_decide _); [by eapply promptSecret_silent|]. by injection H. }
  assert (sent_by m m2 []) as S2.
  { eapply (sent_trans _ _ _ [] []); [done|]. destruct (bool_decide _); [by eapply promptSecret_silent|]. injection H2 as _ <-. apply sent_none. }
  clear H2 S1. apply bind_inv in H as [(e & (a & He & _)%send_inv & _)|(lr & m3 & (a & Ha & S3)%send_inv & H)]; [discriminate He|injection Ha as <-].
  pose proof (sent_trans _ _ _ _ _ S2 S3) as S. clear S2 S3. cbn [app] in S.
  assert ((∀ x, lr = inl x → rs_Status x ≠ 200%Z) → m' = m3 → ∃ l, sent_by m m' l ∧ session_requests base l) as Hone.
  { intros Hx ->. eexists. split; [exact S|]. right. left. by exists em, pw, lr. }
  destruct lr as [lr|msg]; [|by apply Hone; [|by injection H]].
  destruct (Z.eqb_spec (rs_Status lr) 200) as [Hs|Hs]; cbn [negb] in H.
  2: { apply Hone; [by intros x [= <-]|]. by destruct (rs_Status lr =? 403)%Z; injection H. }
  clear Hone. apply deferred_inv in H as (m4 & r' & Hb & Hd).
  apply bind_inv in Hb as [(e & [=] & _)|(host & m3' & [= <- <-] & Hb)].
  apply bind_inv in Hb as [(e & (b & He & _)%send_inv & _)|(tr & m5 & (b & Hb' & S5)%send_inv & Hb)]; [discriminate He|injection Hb' as <-].
  assert (sent_by m5 m4 []) as S4.
  { clear - Hb. destruct tr as [tr|msg]; [|injection Hb as _ <-; apply sent_none].
    destruct (negb _ && negb _); [injection Hb as _ <-; apply sent_none|].
    destruct (JSON201 tr); [|injection Hb as _ <-; apply sent_none].
    revert Hb. step. intros [= _ <-]. apply sent_terminal. by repeat eexists. }
  apply bind_inv in Hd as [(e & (b & He & _)%send_inv & _)|(out & m6 & (b & _ & S6)%send_inv & [= _ <-])]; [discriminate He|].
  eexists. split.
  { eapply sent_trans; [exact S|]. eapply sent_trans; [exact S5|]. eapply sent_trans; [exact S4|exact S6]. }
  right. right. by exists em, pw, lr, ("osctf cli (" +:+ default "unknown host" (mc_hostname m3) +:+ ")"), scopes, tr, b.
Qed.
Lemma verify_sends t m r m' : verifyToken serve t m = (r, m') →
  ∃ a, sent_by m m' [(newAPIClient t OpGetMe, a)] ∧ (is_inl r = true → ∃ resp, a = inl resp ∧ rs_Status resp = 200%Z).
Proof.
  unfold verifyToken. intros [(e & (a & He & _)%send_inv & _)|(ans & m1 & (a & Ha & S)%send_inv & H)]%bind_inv; [discriminate He|injection Ha as <-].
  exists ans. destruct ans as [resp|msg]; [|injection H as <- <-; by split].
  destruct (Z.eqb_spec (rs_Status resp) 200) as [Hs|]; cbn [negb] in H; [|injection H as <- <-; by split].
  destruct (JSON200 resp); injection H as <- <-; (split; [done|]); [by exists resp|done].
Qed.
Lemma configPath_of (m : Machine Net) : ∃ r, configPath m = (r, m) ∧ ∀ m', same_host m m' → configPath m' = (r, m').
Proof.
  unfold configPath, configDir, Getenv. step.
  destruct (bool_decide (default "" (mc_environ m !! "OSCTF_CONFIG_DIR") = "")) eqn:Ed; cbn [negb].
  - destruct (mc_UserConfigDir m) as [base|msg] eqn:Eb; (eexists; split; [done|]); intros m' (-> & Eu & _); rewrite Ed; cbn [negb]; by rewrite Eu, Eb.
  - eexists. split; [done|]. intros m' (-> & _ & _). by rewrite Ed.
Qed.
Lemma loadConfig_same (m : Machine Net) r m' : loadConfig yaml_Unmarshal m = (r, m') → m' = m.
Proof.
  destruct (configPath_of m) as (p & Ep & _). unfold loadConfig, mbind, Cmd_bind. rewrite Ep. destruct p as [p|e]; [|by intros [= <- <-]].
  cbv [look]. destruct (os_ReadFile p m); [destruct (yaml_Unmarshal s)| |]; by intros [= _ <-].
Qed.

(** What is written is what is read, by the same machine. *)
Lemma save_then_load (c : CliConfig) (m m' : Machine Net) :
  (∀ c, yaml_Unmarshal (yaml_Marshal c) = inl c) → saveConfig yaml_Marshal c m = (inl tt, m') →
  same_host m m' ∧ mc_sent m' = mc_sent m ∧ mc_keyring m' = mc_keyring m ∧
  ∀ m2, same_host m' m2 → mc_files m2 = mc_files m' → loadConfig yaml_Unmarshal m2 = (inl c, m2).
Proof.
  intros Hy. unfold saveConfig. intros [(e & _ & [=])|(dir & m1 & Ed & H)]%bind_inv.
  assert (m1 = m ∧ ∀ m2, same_host m m2 → configDir m2 = (inl dir, m2)) as [-> Hdir].
  { revert Ed. unfold configDir, Getenv. step.
    destruct (bool_decide (default "" (mc_environ m !! "OSCTF_CONFIG_DIR") = "")) eqn:Eb; cbn [negb].
    - destruct (mc_UserConfigDir m) as [base|] eqn:Eu; [|done]. intros [= <- <-]. split; [done|]. intros m2 (-> & Eu2 & _). rewrite Eb. cbn [negb]. by rewrite Eu2, Eu.
    - intros [= <- <-]. split; [done|]. intros m2 (-> & _ & _). by rewrite Eb. }
  clear Ed. revert H. unfold os_MkdirAll. step. destruct (bool_decide (dir ∈ mc_denied m)); [done|].
  unfold os_WriteFile. cbn [mc_denied with_files_dirs]. destruct (bool_decide (Join2 dir "config.yaml" ∈ mc_denied m)) eqn:Edn; [done|].
  intros [= <-]. split_and!; [done..|]. intros m2 Hh Hf. unfold loadConfig, configPath, mbind, Cmd_bind. rewrite Hdir by done.
  cbv [mret Cmd_ret look]. unfold os_ReadFile. destruct Hh as (_ & _ & ->). cbn [mc_denied with_files_dirs]. rewrite Edn, Hf. cbn [mc_files with_files_dirs].
  rewrite lookup_insert_eq. by rewrite Hy.
Qed.
Lemma save_sent (c : CliConfig) (m m' : Machine Net) r : saveConfig yaml_Marshal c m = (r, m') → mc_sent m' = mc_sent m.
Proof.
  unfold saveConfig, configDir, Getenv, os_MkdirAll, os_WriteFile. step.
  repeat (case_match; simplify_eq/=; try done); intros [= <- <-]; done.
Qed.
End Login.

Section Contract.
Context {Net : Type} (serve : ApiRequest → Net → (Response + string) * Net).
Context (yaml_Marshal : CliConfig → string) (yaml_Unmarshal : string → CliConfig + string) (g : globals).
Hypothesis yaml_roundtrip : ∀ c, yaml_Unmarshal (yaml_Marshal c) = inl c.
Definition login_url (f : login_flags) : string := or_default (lf_url f) (g_url g).
Definition login_name (f : login_flags) : string := or_default (lf_name f) (contextNameFor (login_url f)).

(** The credential was tried, and the server took it. *)
Definition verified (url tok : string) (check : list (ApiRequest * (Response + string))) : Prop :=
  ∃ resp, check = [(newAPIClient {| t_url := url; t_token := tok; t_from := "" |} OpGetMe, inl resp)] ∧ rs_Status resp = 200%Z.
(** Later commands, with no flags and nothing in the environment, find the target that was stored. *)
Definition finds_target (m : Machine Net) (url tok name : string) : Prop :=
  ∀ m2, same_host m m2 → mc_files m2 = mc_files m → mc_keyring m2 = mc_keyring m →
    resolveTarget yaml_Unmarshal "" "" "" m2 = (inl {| t_url := url; t_token := tok; t_from := "context " +:+ name |}, m2).
Definition clean_environment (m : Machine Net) : Prop :=
  mc_environ m !! "OSCTF_URL" = None ∧ mc_environ m !! "OSCTF_TOKEN" = None ∧ mc_environ m !! "OSCTF_CONTEXT" = None.

Lemma stored_is_found m m1 m' url tok name cur usedKeychain cfg :
  clean_environment m → same_host m m1 → tok ≠ "" → name ≠ "" →
  storeToken (Net:=Net) name tok m1 = (inl usedKeychain, cur) →
  saveConfig yaml_Marshal {| cg_CurrentContext := name;
    cg_Contexts := <[name := {| cx_URL := url; cx_Token := if usedKeychain then "" else tok; cx_KeychainRef := usedKeychain |}]> cfg |} cur = (inl tt, m') →
  same_host m m' ∧ mc_sent m' = mc_sent m1 ∧ finds_target m' url tok name.
Proof.
  intros (He1 & He2 & He3) Hh Htok Hname Hst Hsave.
  apply save_then_load with (yaml_Unmarshal := yaml_Unmarshal) in Hsave as (Hh' & Hsent & Hkey & Hload); [|done].
  assert (same_host m1 cur ∧ mc_sent cur = mc_sent m1 ∧ if usedKeychain then mc_keyring cur ≫= (λ k, k !! name) = Some tok else True) as (Hc & Hs & Hk).
  { revert Hst. unfold storeToken. destruct (mc_keyring m1) as [k|]; intros [= <- <-]; split_and!; try done. cbn. by rewrite lookup_insert_eq. }
  assert (same_host m m') as Hm' by (destruct Hh as (? & ? & ?), Hc as (? & ? & ?), Hh' as (? & ? & ?); split_and!; congruence).
  split_and!; [done|congruence|]. intros m2 Hm2 Hf Hk2. pose proof (Hload m2 Hm2 Hf) as Hl.
  assert (mc_environ m2 = mc_environ m) as Hen by (destruct Hm' as (? & _), Hm2 as (? & _); congruence).
  unfold resolveTarget, mbind, Cmd_bind, Getenv, look. rewrite Hen, He1, He2. cbn [default t_url t_token].
  rewrite !(bool_decide_eq_true_2 ("" = "")) by done. cbn [negb andb t_url t_token].
  rewrite !(bool_decide_eq_true_2 ("" = "")) by done. cbn [negb andb t_url t_token]. rewrite Hl, Hen, He3. cbn [default cg_CurrentContext cg_Contexts].
  change (or_default (or_default "" "") name) with name. rewrite (bool_decide_eq_false_2 (name = "")), lookup_insert_eq by done.
  cbn [t_url t_token cx_URL]. unfold readToken. cbn [cx_KeychainRef cx_Token].
  destruct usedKeychain; unfold mbind, Cmd_bind, look.
  - assert (mc_keyring m2 = mc_keyring cur) as -> by congruence. unfold mbind in Hk. by rewrite Hk.
  - by rewrite (bool_decide_eq_false_2 (tok = "")).
Qed.

(** What follows the check of a credential. *)
Definition store_credential (f : login_flags) (tok : string) (who : identity) : Cmd Net unit :=
  cfg ← loadConfig yaml_Unmarshal;
  usedKeychain ← storeToken (login_name f) tok;
  saveConfig yaml_Marshal {| cg_CurrentContext := login_name f;
    cg_Contexts := <[login_name f := {| cx_URL := normalizeURL (login_url f); cx_Token := if (usedKeychain : bool) then "" else tok; cx_KeychainRef := usedKeychain |}]>
      (cg_Contexts cfg) |};;
  human ("Logged in to " +:+ normalizeURL (login_url f) +:+ " as " +:+ idn_Username who +:+ " (context " +:+ quoted (login_name f) +:+ ").");;
  human (keychainNote usedKeychain);;
  data g (JObj ([("context", JStr (login_name f)); ("url", JStr (normalizeURL (login_url f))); ("username", JStr (idn_Username who))] ++
              (if decide (idn_Scopes who = []) then [] else [("scopes", JArr (JStr <$> idn_Scopes who))]) ++ [("keychain", JBool usedKeychain)])).
Lemma store_tail f tok who m m2 r m' :
  clean_environment m → same_host m m2 → store_credential f tok who m2 = (r, m') →
  mc_sent m' = mc_sent m2 ∧ (r = inl tt → tok ≠ "" → finds_target m' (normalizeURL (login_url f)) tok (login_name f)).
Proof.
  intros Henv Hh. unfold store_credential. intros [(e & H%loadConfig_same & ->)|(cfg & m3 & H3%loadConfig_same & H)]%bind_inv; [by subst|subst m3].
  apply bind_inv in H as [(e & H & ->)|(used & cur & Hst & H)]; [unfold storeToken in H; by destruct (mc_keyring m2)|].
  assert (mc_sent cur = mc_sent m2) as Hs by (unfold storeToken in Hst; by destruct (mc_keyring m2); injection Hst as _ <-).
  apply bind_inv in H as [(e & H & ->)|([] & m4 & Hsave & H)]; [split; [|done]; by rewrite (save_sent _ _ _ _ _ H)|].
  assert (login_name f ≠ "") as Hn.
  { unfold login_name, contextNameFor, or_default. repeat case_bool_decide; done. }
  assert (mc_sent m' = mc_sent m4 ∧ (r = inl tt → same_host m4 m' ∧ mc_files m' = mc_files m4 ∧ mc_keyring m' = mc_keyring m4)) as [Hs' Hlast].
  { revert H. unfold data. step. by destruct (g_json g); intros [= <- <-]. }
  split; [rewrite Hs'; by rewrite (save_sent _ _ _ _ _ Hsave)|]. intros Hr Htok. destruct (Hlast Hr) as (Hhl & Hfl & Hkl).
  destruct (stored_is_found m m2 m4 (normalizeURL (login_url f)) tok (login_name f) cur used (cg_Contexts cfg)) as (_ & _ & Hfind); [done..|].
  intros m5 Hm5 Hf5 Hk5. apply Hfind; [|congruence..]. destruct Hhl as (? & ? & ?), Hm5 as (? & ? & ?). split_and!; congruence.
Qed.

(** C38: [login] keeps no session, stores nothing unverified, and what it stores is found: whatever the server answers, a password
    login that is accepted is followed by the request for the token and by the end of that session, and one with a given
    token opens none; unless the server has just accepted the credential, neither the disk nor the keychain
    changes; and after a login that succeeds the commands that follow use that deployment with that credential. *)
Theorem login_contract f m r m' :
  newLoginCmd serve yaml_Marshal yaml_Unmarshal g f m = (r, m') → clean_environment m →
  ∃ boot check tok, mc_sent m' = mc_sent m ++ boot ++ check ∧
    session_requests (normalizeURL (login_url f)) boot ∧ (lf_token f ≠ "" → boot = [] ∧ tok = lf_token f) ∧
    (same_disk m m' ∨ verified (login_url f) tok check) ∧
    (r = inl tt → verified (login_url f) tok check ∧ (tok ≠ "" → finds_target m' (normalizeURL (login_url f)) tok (login_name f))).
Proof.
  unfold newLoginCmd. fold (login_url f). fold (login_name f). intros H Henv.
  assert (∀ m : Machine Net, same_disk m m) as Hsd by by intros; split_and!.
  case_bool_decide as Hu.
  { injection H as <- <-. exists [], [], (lf_token f). rewrite !app_nil_r. split_and!; [done|by left|done|by left|done]. }
  assert (∃ boot tokr m1, (if bool_decide (lf_token f = "") then bootstrapToken serve (normalizeURL (login_url f)) (lf_email f) (lf_password f) (lf_scopes f)
      else mret (lf_token f)) m = (tokr, m1) ∧ sent_by m m1 boot ∧ session_requests (normalizeURL (login_url f)) boot ∧
      (lf_token f ≠ "" → boot = [] ∧ tokr = inl (lf_token f))) as (boot & tokr & m1 & Eb & Sb & Hb & Hgiven).
  { case_bool_decide as Ht; [|by exists [], (inl (lf_token f)), m; split_and!; [done|apply sent_none|left|]].
    destruct (bootstrapToken _ _ _ _ _ m) as [tokr m1] eqn:E. apply bootstrap_sends in E as (l & ? & ?). by exists l, tokr, m1. }
  unfold mbind at 1, Cmd_bind at 1 in H. rewrite Eb in H. clear Eb. destruct tokr as [tok|e].
  2: { injection H as <- <-. destruct Sb as (? & ? & ->). exists boot, [], (lf_token f). rewrite app_nil_r. split_and!; try done; [|by left]. by intros [? [=]]%Hgiven. }
  assert (lf_token f ≠ "" → boot = [] ∧ tok = lf_token f) as Hg by by intros [? [= ->]]%Hgiven.
  apply bind_inv in H as [(e & Ev & ->)|(who & m2 & Ev & H)]; apply verify_sends in Ev as (a & Sv & Hv);
    pose proof (sent_trans _ _ _ _ _ Sb Sv) as (Hd & Hh & Es); exists boot, [(newAPIClient {| t_url := login_url f; t_token := tok; t_from := "" |} OpGetMe, a)], tok.
  { split_and!; [done..|by left|done]. }
  assert (verified (login_url f) tok [(newAPIClient {| t_url := login_url f; t_token := tok; t_from := "" |} OpGetMe, a)]) as Hver.
  { destruct (Hv eq_refl) as (resp & -> & ?). by exists resp. }
  clear Hv. destruct (store_tail f tok who m m2 r m' Henv Hh H) as (Ht & Hfind).
  split_and!; [congruence|done|done|by right|by auto].
Qed.
End Contract.

(** ** A concrete login *)

Definition config_fields (c : CliConfig) : string * gmap string (string * string * bool) :=
  (cg_CurrentContext c, (λ x, (cx_URL x, cx_Token x, cx_KeychainRef x)) <$> cg_Contexts c).
Definition fields_config (p : string * gmap string (string * string * bool)) : CliConfig :=
  {| cg_CurrentContext := p.1; cg_Contexts := (λ x, {| cx_URL := x.1.1; cx_Token := x.1.2; cx_KeychainRef := x.2 |}) <$> p.2 |}.
Lemma fields_config_fields c : fields_config (config_fields c) = c.
Proof.
  destruct c as [cur ctxs]. unfold fields_config, config_fields. cbn [fst snd cg_CurrentContext cg_Contexts]. f_equal.
  rewrite <- map_fmap_compose. rewrite <- (map_fmap_id ctxs) at 2. apply map_fmap_ext. by intros i [] _.
Qed.
(** A codec: the bits of the encoding as a number. *)
Fixpoint pos_text (p : positive) : string :=
  match p with xH => "" | xO p => String "0" (pos_text p) | xI p => String "1" (pos_text p) end.
Fixpoint text_pos (s : string) : positive :=
  match s with EmptyString => xH | String c s => if Ascii.eqb c "0" then xO (text_pos s) else xI (text_pos s) end.
Lemma text_pos_text p : text_pos (pos_text p) = p.
Proof. induction p as [p IH|p IH|]; simpl; congruence. Qed.
Definition demo_Marshal (c : CliConfig) : string := pos_text (countable.encode (config_fields c)).
Definition demo_Unmarshal (s : string) : CliConfig + string :=
  match countable.decode (text_pos s) with Some p => inl (fields_config p) | None => inr "not a config" end.
Lemma demo_roundtrip c : demo_Unmarshal (demo_Marshal c) = inl c.
Proof. unfold demo_Unmarshal, demo_Marshal. by rewrite text_pos_text, countable.decode_encode, fields_config_fields. Qed.

Definition demo_login (token : string) : login_flags :=
  {| lf_url := "https://ctf.test/"; lf_name := ""; lf_email := ""; lf_password := ""; lf_token := token; lf_scopes := ["read"] |}.
Abbreviation login_of token m := (newLoginCmd demo_serve demo_Marshal demo_Unmarshal (demo_flags false) (demo_login token) m).
Lemma login_contract_witness :
  let m := demo_machine ∅ None in let m' := (login_of "" m).2 in
  (login_of "" m).1 = inl tt ∧ clean_environment m ∧
  (λ x, rq_Op x.1) <$> mc_sent m' = [OpLogin "ada@x.test" "pw"; OpCreateToken "osctf cli (laptop)" ["read"] None; OpLogout; OpGetMe] ∧
  finds_target demo_Unmarshal m' "https://ctf.test" "osctf_pat_x" "ctf.test".
Proof.
  set (m := demo_machine ∅ None). cbv zeta. assert ((login_of "" m).1 = inl tt) as Hr by by vm_compute.
  assert (clean_environment m) as Hm by by vm_compute. split_and!; [done|done|by vm_compute|].
  destruct (login_contract demo_serve demo_Marshal demo_Unmarshal (demo_flags false) demo_roundtrip (demo_login "") m
    (login_of "" m).1 (login_of "" m).2 (surjective_pairing _) Hm) as (boot & check & tok & Hs & _ & _ & _ & Hf).
  destruct (Hf Hr) as ((resp & -> & _) & Hfind).
  assert (tok = "osctf_pat_x") as ->.
  { apply (f_equal (λ l, (λ x, rq_Authorization x.1) <$> last l)) in Hs. change (mc_sent m) with (@nil (ApiRequest * (Response + string))) in Hs.
    rewrite app_nil_l, last_snoc in Hs. cbn [fmap option_fmap option_map fst newAPIClient rq_Authorization t_token] in Hs.
    assert ((λ x, rq_Authorization x.1) <$> last (mc_sent (login_of "" m).2) = Some "Bearer osctf_pat_x") as E by by vm_compute.
    rewrite E in Hs. injection Hs as Hs. revert Hs. case_bool_decide; [done|]. by intros [=]. }
  by apply Hfind.
Defined.

(** The permissions are those the file already has: a readable file stays readable, token and all. *)
Definition readable_before : Machine nat :=
  with_files_dirs {[ "/home/ada/.config/osctf/config.yaml" := (demo_Marshal {| cg_CurrentContext := ""; cg_Contexts := ∅ |}, 420%Z) ]} ∅
    (demo_machine ∅ None).
Lemma permissions_kept :
  let m' := (login_of "osctf_pat_x" readable_before).2 in
  (login_of "osctf_pat_x" readable_before).1 = inl tt ∧
  snd <$> mc_files m' !! "/home/ada/.config/osctf/config.yaml" = Some 420%Z ∧
  mc_stderr m' !! 1 = Some (Line (keychainNote false)).
Proof. by vm_compute. Qed.
(** The credential comes from the flags, the deployment from the context: [whoami] names the context as its source. *)
Lemma credential_source_misnamed :
  let m := (login_of "osctf_pat_x" (demo_machine ∅ None)).2 in
  (resolveTarget demo_Unmarshal "" "other_token" "" m).1 = inl {| t_url := "https://ctf.test"; t_token := "other_token"; t_from := "context ctf.test" |}.
Proof. by vm_compute. Qed.
(** An answer that is neither 200 nor a failure makes the check of a credential fail with the code of success. *)
Lemma unverified_exits_zero :
  let serve (rq : ApiRequest) (n : nat) := (answer 204 JNull, S n) in
  let r := main (L:=demo_libs) serve demo_Marshal demo_Unmarshal (λ _, None) (λ _, None) (λ _, "") "dev" "" (demo_flags false) CWhoami (demo_machine demo_env None) in
  r.1 = exitOK ∧ mc_stdout r.2 = [] ∧ mc_stderr r.2 = [Line "error: verifying the credential failed (HTTP 204)"].
Proof. by vm_compute. Qed.
