(* ===== verification/CliServer.v ===== *)
(** * The client against the server: tokens

    The token commands send a token, and the server's handlers of tokens ask for a session: what
    becomes of [osctf token create], [list] and [revoke]. *)

From Stdlib Require Import Ascii.
From S2P Require Import Prelude Interleave Text Env Store Demo Accounts Users Redis Sessions Passwords Tokens ExternalAuth AuthApi AuthDemo Challenges Http Authoring Cli CliRules.

(** ** The server, for the requests about tokens *)

Section Platform.
Context {L : Libs} (c : AuthConf) (requestID : string) (other : ApiRequest → World → (Response + string) * World).

Definition token_route (op : ApiOp) : option (string * string) :=
  match op with
  | OpCreateToken _ _ _ => Some ("POST", "/tokens")
  | OpListTokens => Some ("GET", "/tokens")
  | OpRevokeToken id => Some ("DELETE", "/tokens/" +:+ uuid_String id)
  | _ => None
  end.
Definition ok_response (status : Z) (j : json) : Response :=
  {| rs_Status := status; rs_JSON := Some j; rs_Problem := None; rs_SetCookie := None |}.
Definition problem_response (p : Http.Problem) : Response :=
  {| rs_Status := pb_Status p; rs_JSON := None; rs_Problem := Some p; rs_SetCookie := None |}.
Definition meta_json (t : TokenMeta) : json := JObj [("prefix", JStr (mt_Prefix t)); ("name", JStr (mt_Name t))].
Definition token_handler (caller : option Identity) (op : ApiOp) : P World Response :=
  match op with
  | OpCreateToken name scopes days =>
      r ← h_CreateToken c caller {| ct_Name := name; ct_Scopes := scopes; ct_ExpiresInDays := days |};
      mret (ok_response 201 (JObj [("token", JStr r.1); ("name", JStr (mt_Name r.2))]))
  | OpListTokens => l ← h_ListTokens c caller; mret (ok_response 200 (JArr (meta_json <$> l)))
  | OpRevokeToken id => h_RevokeToken c caller id;; mret (ok_response 204 JNull)
  | _ => throw ErrNotFound
  end.
(** The middleware, the handler, and the rendering of its error.  The request has no session's cookie. *)
Definition token_request (method path authorization : string) (op : ApiOp) : P World Response :=
  passed ← tokenMiddleware c None method path authorization;
  match passed with
  | AuthApi.Problem status detail _ =>
      mret (problem_response {| pb_Type := ""; pb_Title := ""; pb_Status := status; pb_Detail := detail; pb_Errors := ∅; pb_RequestID := requestID |})
  | Next caller =>
      r ← try (token_handler caller op);
      match r with
      | Ok resp => mret resp
      | Err e => mret (problem_response (rd_Problem (RenderError requestID e)))
      end
  end.
(** A blocked request is one the client gives up on. *)
Definition platform (rq : ApiRequest) (w : World) : (Response + string) * World :=
  match rq_Cookie rq, token_route (rq_Op rq) with
  | None, Some (method, path) =>
      match run (token_request method path (rq_Authorization rq) (rq_Op rq)) w with
      | Some (Ok r, w') => (inl r, w')
      | Some (Err _, w') => (inr "internal error", w')
      | None => (inr "timeout", w)
      end
  | _, _ => other rq w
  end.

(** ** What becomes of them *)

Definition token_ids (w : World) : gset uuid := dom (tokens (w_db w)).

Lemma authenticate_method raw now w i w' : run (token_Authenticate raw now) w = Some (Ok i, w') → id_Method i = AuthToken.
Proof.
  unfold token_Authenticate. destruct (parsePresented raw) as [[p h]|]; [|done].
  intros [(cands & w1 & _ & H)|(e & _ & [=])]%run_bind_inv. destruct (match_hash h cands) as [k|]; [|done].
  case_match; [done|]. destruct (is_Some_b _); [done|].
  apply run_bind_inv in H as [(u & w2 & _ & H)|(e & _ & [=])]. destruct (u_Banned u); [done|]. by injection H as <- _.
Qed.
Lemma run_try_inv {A} (p : P World A) w r w' : run (try p) w = Some (r, w') → ∃ a, r = Ok a ∧ run p w = Some (a, w').
Proof. rewrite run_try. destruct (run p w) as [[a w1]|]; [|done]. intros [= <- <-]. eauto. Qed.
Lemma middleware_method method path authorization w i w' :
  run (tokenMiddleware c None method path authorization) w = Some (Ok (Next (Some i)), w') → id_Method i = AuthToken.
Proof.
  unfold tokenMiddleware. destruct (ac_tokens c); [|done]. cbn [negb]. destruct (bearerFromHeader authorization) as [raw|]; [|done].
  intros [(now & w1 & _ & H)|(e & _ & [=])]%run_bind_inv.
  apply run_bind_inv in H as [(r & w2 & (r' & [= <-] & Ha)%run_try_inv & H)|(e & _ & [=])].
  destruct r as [i'|e]; [|unfold tokenAuthProblem in H; by case_bool_decide].
  apply authenticate_method in Ha.
  apply run_bind_inv in H as [(l & w3 & _ & H)|(e & _ & [=])]. destruct l as [[[] ra]|e]; [|done|].
  - destruct (scopeAllows _ _ _); [|done]. apply run_bind_inv in H as [(t & w4 & _ & H)|(e & _ & [=])]. by injection H as <- _.
  - apply run_bind_inv in H as [(? & ? & _ & H)|(? & _ & [=])]. apply run_bind_inv in H as [(? & ? & _ & H)|(? & _ & [=])]. done.
Qed.
(** Without a session the handlers refuse before they do anything. *)
Lemma handler_refuses op caller w : is_Some (token_route op) → (∀ i, caller = Some i → id_Method i = AuthToken) →
  ∃ e, run (token_handler caller op) w = Some (Err e, w).
Proof.
  intros Hop Hc. destruct op; try (by destruct Hop); cbn [token_handler]; rewrite run_bind;
    unfold h_CreateToken, h_ListTokens, h_RevokeToken, requireSession, requireUser; rewrite run_bind;
    (destruct caller as [i|]; [specialize (Hc i eq_refl)|]); rewrite run_bind; cbn [run mret P_ret throw P_err P_throw].
  all: try (by eexists). all: rewrite bool_decide_eq_false_2 by (by rewrite Hc); by eexists.
Qed.

(** The middleware only reads the tokens, and notes that one was used. *)
Section Reads.
Context (D : gset uuid).
Abbreviation kept := (λ w, token_ids w = D).
Lemma kept_fault : preserves kept next_fault.
Proof. intros w Hw. unfold next_fault. by destruct (w_faults w). Qed.
Lemma kept_query {A} (f : time → DB → res A * DB) : (∀ t d, dom (tokens (f t d).2) = dom (tokens d)) → preserves kept (query f).
Proof.
  intros Hf. apply preserves_bind; [apply kept_fault|]. intros [] w Hw; [done|]. specialize (Hf (w_dbnow w) (w_db w)).
  destruct (f (w_dbnow w) (w_db w)) as [[a|e] d]; [|done]. unfold token_ids in *. cbn in *. congruence.
Qed.
Lemma kept_select {A} (f : DB → res A) : preserves kept (select f).
Proof. by apply kept_query. Qed.
Lemma kept_touch id : preserves kept (TouchAPIToken id).
Proof. apply kept_query. intros t d. cbn. by rewrite dom_alter_L. Qed.
Lemma kept_redis {A} (f : time → RedisState → A * RedisState) : preserves kept (redis f).
Proof.
  unfold redis. apply preserves_bind; [apply kept_fault|]. intros []; [by intros w Hw|].
  apply preserves_bind; [|intros a; apply preserves_bind; [apply kept_fault|by intros [] w Hw]].
  intros w Hw. by destruct (f (w_wall w) (w_redis w)).
Qed.
Lemma kept_emit e : preserves kept (emit e). Proof. by intros w Hw. Qed.
#[local] Hint Resolve kept_select kept_touch kept_redis kept_emit : pres.
#[local] Hint Extern 2 (preserves _ (select _)) => (apply kept_select) : pres.
Lemma kept_middleware method path authorization : all_steps kept (tokenMiddleware c None method path authorization).
Proof.
  unfold tokenMiddleware, token_Authenticate, Allow, Touch, GetAPITokensByPrefix, GetUserByID, wall_now. steps; try (by apply kept_redis).
Qed.
End Reads.

(** The middleware's own refusals are failures. *)
Lemma middleware_status method path authorization w st d ra w' :
  run (tokenMiddleware c None method path authorization) w = Some (Ok (AuthApi.Problem st d ra), w') → (400 ≤ st < 600)%Z.
Proof.
  unfold tokenMiddleware. destruct (ac_tokens c); [|done]. cbn [negb]. destruct (bearerFromHeader authorization) as [raw|]; [|done].
  intros [(now & w1 & _ & H)|(e & _ & [=])]%run_bind_inv.
  apply run_bind_inv in H as [(r & w2 & _ & H)|(e & _ & [=])]. destruct r as [i'|e].
  2: { unfold tokenAuthProblem in H. case_bool_decide; injection H as <- _ _ _; lia. }
  apply run_bind_inv in H as [(l & w3 & _ & H)|(e & _ & [=])]. destruct l as [[[] ra']|e].
  - destruct (scopeAllows _ _ _); [|injection H as <- _ _ _; lia]. by apply run_bind_inv in H as [(t & w4 & _ & [=])|(e & _ & [=])].
  - injection H as <- _ _ _. lia.
  - apply run_bind_inv in H as [(? & ? & _ & H)|(? & _ & [=])]. apply run_bind_inv in H as [(? & ? & _ & H)|(? & _ & [=])]. injection H as <- _ _ _. lia.
Qed.
Lemma token_request_refused method path authorization op w r w' :
  token_route op = Some (method, path) → run (token_request method path authorization op) w = Some (Ok r, w') →
  (400 ≤ rs_Status r < 600)%Z.
Proof.
  intros Hop. unfold token_request. intros [(p & w1 & Hm & H)|(e & _ & [=])]%run_bind_inv.
  destruct p as [caller|st d ra]; [|injection H as <- _; by eapply middleware_status].
  destruct (handler_refuses op caller w1) as [e He]; [by rewrite Hop|by intros i ->; eapply middleware_method|].
  rewrite run_bind, run_try, He in H. cbn [run mret P_ret] in H. injection H as <- _. apply problem_status.
Qed.
Lemma token_request_keeps method path authorization op w r w' : is_Some (token_route op) →
  run (token_request method path authorization op) w = Some (r, w') → token_ids w' = token_ids w.
Proof.
  intros Hop. unfold token_request. intros [(p & w1 & Hm & H)|(e & Hm & _)]%run_bind_inv;
    pose proof (all_steps_run _ _ _ _ _ (kept_middleware (token_ids w) method path authorization) eq_refl Hm) as Hk; [|done].
  destruct p as [caller|st d ra]; [|by injection H as _ <-].
  destruct (handler_refuses op caller w1) as [e He]; [done|by intros i ->; eapply middleware_method|].
  rewrite run_bind, run_try, He in H. by injection H as _ <-.
Qed.
Lemma platform_refuses rq w : rq_Cookie rq = None → is_Some (token_route (rq_Op rq)) →
  token_ids (platform rq w).2 = token_ids w ∧ ∀ r, (platform rq w).1 = inl r → is_2xx (rs_Status r) = false.
Proof.
  intros Hc Hr. unfold platform. rewrite Hc. destruct (token_route (rq_Op rq)) as [[method path]|] eqn:Eo; [|by destruct Hr].
  destruct (run _ w) as [[[r|e] w']|] eqn:E; [| |done].
  - split; [eapply token_request_keeps; [by rewrite Eo|done]|]. intros ? [= <-]. eapply token_request_refused in E; [|done]. unfold is_2xx.
    destruct (Z.leb_spec 200 (rs_Status r)), (Z.ltb_spec (rs_Status r) 300); (done || lia).
  - split; [eapply token_request_keeps; [by rewrite Eo|done]|done].
Qed.
End Platform.

(** ** Through the client *)

Section Client.
Context {L : Libs} `{AuthorLibs} (c : AuthConf) (requestID : string) (other : ApiRequest → World → (Response + string) * World).
Context (yaml_Marshal : CliConfig → string) (yaml_Unmarshal : string → CliConfig + string) (time_Parse : string → option time).
Context (tar_Write : TarEntry → option string) (tar_Bytes : list TarEntry → string) (version revision : string) (g : globals).
Abbreviation serve := (platform c requestID other).
Abbreviation run_main := (main serve yaml_Marshal yaml_Unmarshal time_Parse tar_Write tar_Bytes version revision g).

(** A command only reads the machine, and fails with the code of a failure. *)
Definition reading {A} (p : Cmd World A) : Prop := ∀ m, (p m).2 = m ∧ ∀ e, (p m).1 = inr e → codeOf (Some e) ≠ exitOK.
Lemma reading_bind {A B} (p : Cmd World A) (k : A → Cmd World B) : reading p → (∀ a, reading (k a)) → reading (p ≫= k).
Proof.
  intros Hp Hk m. unfold mbind, Cmd_bind. specialize (Hp m). destruct (p m) as [[a|e] m1]; cbn [fst snd] in *; destruct Hp as [-> He]; [apply Hk|].
  split; [done|]. intros ? [= <-]. by apply He.
Qed.
Lemma reading_ret {A} (a : A) : reading (mret a). Proof. by intros m. Qed.
Lemma reading_look {A} (f : Machine World → A) : reading (look f). Proof. by intros m. Qed.
Lemma reading_fail {A} e : codeOf (Some e) ≠ exitOK → reading (fail_with e : Cmd World A).
Proof. intros He m. split; [done|]. by intros ? [= <-]. Qed.
Ltac readings := repeat first
  [ progress intros | apply reading_ret | apply reading_look | apply reading_fail; done | apply reading_bind
  | match goal with |- context [match ?x with _ => _ end] => destruct x end ].
Lemma reading_loadConfig : reading (loadConfig yaml_Unmarshal).
Proof. unfold loadConfig, configPath, configDir, Getenv. readings. Qed.
Lemma reading_apiFor : reading (apiFor yaml_Unmarshal g).
Proof. pose proof reading_loadConfig. unfold apiFor, resolveTarget, readToken, Getenv. repeat first [assumption|progress readings]. Qed.

Lemma failed_status what status p : is_2xx status = false → codeOf (Some (apiErr what status p)) ≠ exitOK.
Proof.
  unfold is_2xx, apiErr. intros Hs. assert (exitForStatus status ≠ exitOK) as He.
  { unfold exitForStatus. rewrite Hs. by repeat case_match. }
  by destruct p.
Qed.
(** A request about tokens fails, and leaves the server's tokens as they were. *)
Definition fails {A} (p : Cmd World A) : Prop := ∀ m r m', p m = (r, m') →
  ∃ e, r = inr e ∧ codeOf (Some e) ≠ exitOK ∧ token_ids (mc_net m') = token_ids (mc_net m) ∧ mc_stdout m' = mc_stdout m.
(** One that may go on, having touched neither. *)
Definition mute {A} (p : Cmd World A) : Prop := ∀ m r m', p m = (r, m') →
  mc_net m' = mc_net m ∧ mc_stdout m' = mc_stdout m ∧ ∀ e, r = inr e → codeOf (Some e) ≠ exitOK.
Lemma fails_bind {A B} (p : Cmd World A) (k : A → Cmd World B) : fails p → fails (p ≫= k).
Proof.
  intros Hp m r m'. unfold mbind, Cmd_bind. destruct (p m) as [r1 m1] eqn:E. destruct (Hp _ _ _ E) as (e & -> & He). intros [= <- <-]. by exists e.
Qed.
Lemma fails_after {A B} (p : Cmd World A) (k : A → Cmd World B) : mute p → (∀ a, fails (k a)) → fails (p ≫= k).
Proof.
  intros Hp Hk m r m'. unfold mbind, Cmd_bind. destruct (p m) as [[a|e] m1] eqn:E; destruct (Hp _ _ _ E) as (En & Eo & He).
  - rewrite <- En, <- Eo. apply Hk.
  - intros [= <- <-]. exists e. rewrite En. split_and!; [done|by apply He|done|done].
Qed.
Lemma fails_fail {A} e : codeOf (Some e) ≠ exitOK → fails (fail_with e : Cmd World A).
Proof. intros He m r m' [= <- <-]. by exists e. Qed.
Lemma token_call_fails what op : is_Some (token_route op) → fails (call serve yaml_Unmarshal g what op).
Proof.
  intros Hop m r m'. unfold call, mbind, Cmd_bind. destruct (reading_apiFor m) as [Em He]. destruct (apiFor yaml_Unmarshal g m) as [[t|e] m1]; cbn [fst snd] in *; subst m1.
  2: { intros [= <- <-]. exists e. split_and!; [done|by apply He|done|done]. }
  unfold send. pose proof (platform_refuses c requestID other (newAPIClient t op) (mc_net m) eq_refl Hop) as [Hk Hs].
  destruct (serve _ (mc_net m)) as [[resp|msg] n]; cbn [fst snd] in *.
  - rewrite (Hs resp eq_refl). intros [= <- <-]. eexists. split_and!; [done|by apply failed_status, Hs|done|done].
  - intros [= <- <-]. by eexists.
Qed.

Lemma mute_parse s : mute (parseUUID s).
Proof. unfold parseUUID. destruct (uuid_Parse s); intros m r m' [= <- <-]; split_and!; try done. by intros ? [= <-]. Qed.
Lemma mute_confirm q : mute (confirm q).
Proof.
  intros m r m'. unfold confirm, prompt, mbind, Cmd_bind, change_, look, mret, Cmd_ret, fail_with. cbn [mc_stdin with_terminal].
  destruct (mc_stdin m); intros [= <- <-]; by split_and!.
Qed.

(** A token cannot manage tokens, from the shell to the tables: whatever the configuration, the flags, the
    credentials and the state of the server, [osctf token create], [list] and [revoke] fail, with nothing on standard output,
    and the server has issued and revoked none. *)
Theorem token_commands_refused cmd m :
  match cmd with CTokenCreate _ _ _ | CTokenList | CTokenRevoke _ => True | _ => False end →
  let '(code, m') := run_main cmd m in
  code ≠ exitOK ∧ mc_stdout m' = mc_stdout m ∧ token_ids (mc_net m') = token_ids (mc_net m).
Proof.
  intros Hcmd. unfold main. destruct (command _ _ _ _ _ _ _ _ _ cmd m) as [r m'] eqn:E.
  assert (fails (command serve yaml_Marshal yaml_Unmarshal time_Parse tar_Write tar_Bytes version revision g cmd)) as Hf.
  { destruct cmd; try done; cbn [command]; unfold token_create, token_list, token_revoke.
    - by apply fails_bind, token_call_fails.
    - case_bool_decide; [by apply fails_fail|]. by apply fails_bind, token_call_fails.
    - apply fails_after; [apply mute_parse|]. intros u. apply fails_after; [destruct (g_yes g); [by intros ? ? ? [= <- <-]; split_and!|apply mute_confirm]|].
      intros []; [|by apply fails_fail]. by apply fails_bind, token_call_fails. }
  destruct (Hf _ _ _ E) as (e & -> & He & Hi & Ho). split_and!; [done| |]; by destruct e as [? ? ? ? []|].
Qed.
End Client.

(** ** A token that is valid *)

#[local] Existing Instance demo_libs.
Abbreviation issued := (run (h_CreateToken demo_conf (Some demo_admin) {| ct_Name := "ci"; ct_Scopes := ["read"; "submit"; "admin"]; ct_ExpiresInDays := None |}) demo_accounts).
(** The deployment, and a machine that has its administrator's token. *)
Definition admin_machine : Machine World :=
  let '(pt, w) := match issued with Some (Ok (pt, _), w) => (pt, w) | _ => ("", demo_accounts) end in
  {| mc_environ := {[ "OSCTF_URL" := "https://ctf.test"; "OSCTF_TOKEN" := pt ]}; mc_UserConfigDir := inl "/home/ada/.config"; mc_files := ∅; mc_dirs := ∅;
     mc_denied := ∅; mc_keyring := None; mc_stdin := []; mc_tty := false; mc_hostname := None; mc_stdout := []; mc_stderr := [];
     mc_net := w; mc_sent := [] |}.
Abbreviation demo_platform := (platform demo_conf "rid" (λ _ w, (inr "not modelled", w))).
Abbreviation admin_run cmd := (main demo_platform (λ _, "") (λ _, inr "not yaml") (λ _, None) (λ _, None) (λ _, "") "dev" "" (demo_flags false) cmd admin_machine).
Lemma token_commands_refused_witness :
  (∃ pt meta w, issued = Some (Ok (pt, meta), w)) ∧
  (admin_run (CTokenCreate "ci-2" ["read"] 0)).1 ≠ exitOK ∧
  token_ids (mc_net (admin_run (CTokenCreate "ci-2" ["read"] 0)).2) = token_ids (mc_net admin_machine).
Proof.
  split.
  { assert (match issued with Some (Ok _, _) => true | _ => false end = true) as E by by vm_compute.
    destruct issued as [[[[pt meta]|] w]|]; [eauto|discriminate E..]. }
  pose proof (token_commands_refused demo_conf "rid" (λ _ w, (inr "not modelled", w)) (λ _, "") (λ _, inr "not yaml") (λ _, None) (λ _, None) (λ _, "") "dev" ""
    (demo_flags false) (CTokenCreate "ci-2" ["read"] 0) admin_machine I) as H.
  destruct (admin_run _) as [code m']. by destruct H as (? & _ & ?).
Defined.
(** The credential itself is good: it is the use of it that is refused. *)
Lemma admin_token_refused :
  let r := admin_run (CTokenCreate "ci-2" ["read"] 0) in
  r.1 = exitAuth ∧
  mc_stderr r.2 = [Line "error: creating the token: Forbidden: token management requires a session; an API token cannot manage tokens"].
Proof. by vm_compute. Qed.
