(* ===== verification/Oidc.v ===== *)
(** * The OpenID Connect plugin ([plugins/oidc-plugin/main.go])

    The reference implementation of the redirect capability: it builds the authorize URL, and
    turns the provider's callback into an identity.  The OpenID Connect and OAuth2 libraries, the JSON
    codec and the provider itself are parameters. *)

From Stdlib Require Import Ascii.
From S2P Require Import Prelude Text Env.

(** A call returns, fails, or ends the process: an unrecoverable fault of the runtime is not an error. *)
Inductive outcome (A : Type) := Returned (a : A) | Failed (e : error) | Fatal (msg : string).
Arguments Returned {A}. Arguments Failed {A}. Arguments Fatal {A}.

(** [roundTrip]: what the callback needs and cannot recompute. *)
Record roundTrip := { rt_Verifier : string; rt_Nonce : string; rt_RedirectURI : string }.
(** [oauth2.Config], less what the provider supplies, and the claims that are read. *)
Record OauthConfig (OProvider : Type) := {
  oc_ClientID : string; oc_ClientSecret : string; oc_Endpoint : OProvider; oc_RedirectURL : string; oc_Scopes : list string
}.
Arguments oc_ClientID {OProvider}. Arguments oc_ClientSecret {OProvider}. Arguments oc_Endpoint {OProvider}.
Arguments oc_RedirectURL {OProvider}. Arguments oc_Scopes {OProvider}.
Record oidc_claims := {
  cl_Subject : string; cl_Email : string; cl_EmailVerified : option bool; cl_Preferred : string; cl_Name : string
}.
(** [Nonce] of a verified token, and its claims when they can be read. *)
Record IDToken := { it_Nonce : string; it_Claims : res oidc_claims }.

(** What the plugin links and talks to: [Net] is the outside world, the random source included. *)
Class OidcLibs (Net OProvider : Type) := {
  ol_NewProvider : string → Net → res OProvider * Net;
  ol_AuthCodeURL : OauthConfig OProvider → string → list (string * string) → string;
  ol_Exchange : OauthConfig OProvider → string → list (string * string) → Net → res (option string) * Net;
  ol_Verify : OProvider → string → string → Net → res IDToken * Net;
  ol_rand_Read : nat → Net → res (list N) * Net;
  ol_Sum256 : list N → list N;
  ol_Marshal : roundTrip → list N;
  ol_Unmarshal : list N → res roundTrip
}.

(** [sync.Once]. *)
Record Once := { on_done : bool; on_locked : bool }.
Definition once_zero : Once := {| on_done := false; on_locked := false |}.
(** The fields of [provider], and what it talks to. *)
Record Plugin (Net OProvider : Type) := { pl_once : Once; pl_discovered : option OProvider; pl_discErr : option error; pl_net : Net }.
Arguments pl_once {Net OProvider}. Arguments pl_discovered {Net OProvider}. Arguments pl_discErr {Net OProvider}. Arguments pl_net {Net OProvider}.

Section Oidc.
Context {Net OProvider : Type} `{OidcLibs Net OProvider}.
(** The configuration the host gave the plugin. *)
Context (config : gmap string string).

Definition Call (A : Type) : Type := Plugin Net OProvider → outcome A * Plugin Net OProvider.
#[export] Instance Call_ret : MRet Call := λ A a p, (Returned a, p).
#[export] Instance Call_bind : MBind Call := λ A B k c p,
  match c p with
  | (Returned a, p) => k a p
  | (Failed e, p) => (Failed e, p)
  | (Fatal msg, p) => (Fatal msg, p)
  end.
Definition fails {A} (e : error) : Call A := λ p, (Failed e, p).
Definition set_once (o : Once) (p : Plugin Net OProvider) : Plugin Net OProvider :=
  {| pl_once := o; pl_discovered := pl_discovered p; pl_discErr := pl_discErr p; pl_net := pl_net p |}.
Definition set_discovered (d : option OProvider) (e : option error) (p : Plugin Net OProvider) : Plugin Net OProvider :=
  {| pl_once := pl_once p; pl_discovered := d; pl_discErr := e; pl_net := pl_net p |}.
(** An answer of the outside world. *)
Definition ask_net {A} (f : Net → A * Net) : Call A := λ p,
  let '(a, n) := f (pl_net p) in
  (Returned a, {| pl_once := pl_once p; pl_discovered := pl_discovered p; pl_discErr := pl_discErr p; pl_net := n |}).
Definition or_fail {A} (wrap : error → error) (r : res A) : Call A :=
  match r with Ok a => mret a | Err e => fails (wrap e) end.

Definition upd (f : Plugin Net OProvider → Plugin Net OProvider) : Call unit := λ p, (Returned tt, f p).
Definition wrap_failure {A} (prefix : string) (c : Call A) : Call A := λ p,
  match c p with (Failed e, p) => (Failed (Wrap prefix e), p) | x => x end.

(** [sync.Once.Do]: [f] runs under the lock; when it is over the call is done, and the lock is released.  To
    release a lock that is not held ends the process. *)
Definition once_Do (f : Call unit) : Call unit := λ p,
  if on_done (pl_once p) then (Returned tt, p) else
  match f (set_once {| on_done := false; on_locked := true |} p) with
  | (Returned _, p) | (Failed _, p) =>
      if on_locked (pl_once p) then (Returned tt, set_once {| on_done := true; on_locked := false |} p)
      else (Fatal "sync: unlock of unlocked mutex", set_once {| on_done := true; on_locked := false |} p)
  | (Fatal msg, p) => (Fatal msg, p)
  end.

Definition config_String (key : string) : string := default "" (config !! key).
Definition issuer : string := TrimSpace (config_String "issuer").
Definition clientID : string := TrimSpace (config_String "client_id").
Definition secret : string := config_String "client_secret".
Definition contains (hay : list string) (needle : string) : bool := existsb (λ h, bool_decide (h = needle)) hay.
Definition scopes : list string :=
  let want := ["openid"; "email"; "profile"] in
  let extra := TrimSpace (config_String "scopes") in
  if bool_decide (extra = "") then want else
  foldl (λ want s, let s := TrimSpace s in if negb (bool_decide (s = "")) && negb (contains want s) then want ++ [s] else want)
    want (Split extra ",").

(** One discovery.  A provider that is down is meant to be asked again by a later login. *)
Definition discover : Call unit :=
  if bool_decide (issuer = "") then
    upd (λ p, set_discovered (pl_discovered p) (Some (ErrOther "oidc: no issuer configured")) p)
  else
    r ← ask_net (ol_NewProvider issuer);
    match r with
    | Ok prov => upd (set_discovered (Some prov) None)
    | Err e => upd (λ p, set_once once_zero (set_discovered None (Some e) p))
    end.
Definition discovered : Call OProvider := λ p,
  match pl_discErr p, pl_discovered p with
  | Some e, _ => (Failed e, p)
  | None, Some prov => (Returned prov, p)
  | None, None => (Fatal "invalid memory address or nil pointer dereference", p)
  end.
Definition resolve : Call OProvider := once_Do discover;; discovered.

Definition oauthConfig (prov : OProvider) (redirectURI : string) : OauthConfig OProvider :=
  {| oc_ClientID := clientID; oc_ClientSecret := secret; oc_Endpoint := prov; oc_RedirectURL := redirectURI; oc_Scopes := scopes |}.
Definition randomURLSafe (n : nat) : Call string :=
  r ← ask_net (ol_rand_Read n);
  b ← or_fail (Wrap "oidc: generating random value") r;
  mret (RawURL_EncodeToString b).
Definition string_bytes (s : string) : list N := N_of_ascii <$> to_bytes s.
Definition code_challenge (verifier : string) : string := RawURL_EncodeToString (ol_Sum256 (string_bytes verifier)).

Record BeginRedirect := { br_AuthorizeURL : string; br_State : string }.
Definition begin_options (verifier nonce : string) : list (string * string) :=
  [("nonce", nonce); ("code_challenge", code_challenge verifier); ("code_challenge_method", "S256")].
Definition Begin (state redirectURI : string) : Call BeginRedirect :=
  prov ← wrap_failure "oidc: provider discovery" resolve;
  if bool_decide (clientID = "") then fails (ErrOther "oidc: no client_id configured") else
  verifier ← randomURLSafe 32;
  nonce ← randomURLSafe 32;
  mret {| br_AuthorizeURL := ol_AuthCodeURL (oauthConfig prov redirectURI) state (begin_options verifier nonce);
          br_State := RawURL_EncodeToString (ol_Marshal {| rt_Verifier := verifier; rt_Nonce := nonce; rt_RedirectURI := redirectURI |}) |}.

(** The assertion: no claims go with it. *)
Record Identity := { id_Subject : string; id_Email : string; id_Username : string; id_EmailVerified : bool }.
Definition param (params : gmap string string) (k : string) : string := default "" (params !! k).
Definition identity_of (c : oidc_claims) : Identity :=
  {| id_Subject := cl_Subject c; id_Email := TrimSpace (cl_Email c);
     id_Username := if bool_decide (cl_Preferred c = "") then cl_Name c else cl_Preferred c;
     id_EmailVerified := match cl_EmailVerified c with Some b => b | None => false end |}.
Definition Complete (state : string) (params : gmap string string) : Call Identity :=
  let e := param params "error" in
  if negb (bool_decide (e = "")) then
    fails (ErrOther ("oidc: provider returned error " +:+ e +:+ ": " +:+ param params "error_description"))
  else
  let code := param params "code" in
  if bool_decide (code = "") then fails (ErrOther "oidc: callback carried no authorization code") else
  match RawURL_DecodeString state with
  | None => fails (ErrOther "oidc: round-trip state is not decodable")
  | Some blob =>
  match ol_Unmarshal blob with
  | Err _ => fails (ErrOther "oidc: round-trip state is not readable")
  | Ok rt =>
      prov ← wrap_failure "oidc: provider discovery" resolve;
      r ← ask_net (ol_Exchange (oauthConfig prov (rt_RedirectURI rt)) code [("code_verifier", rt_Verifier rt)]);
      tok ← or_fail (Wrap "oidc: exchanging the authorization code") r;
      match tok with
      | None | Some "" => fails (ErrOther "oidc: token response carried no id_token")
      | Some rawID =>
          r ← ask_net (ol_Verify prov clientID rawID);
          idTok ← or_fail (Wrap "oidc: verifying the id_token") r;
          if negb (bool_decide (it_Nonce idTok = rt_Nonce rt))
          then fails (ErrOther "oidc: id_token nonce does not match the login it answers") else
          claims ← or_fail (Wrap "oidc: reading id_token claims") (it_Claims idTok);
          if bool_decide (cl_Subject claims = "") then fails (ErrOther "oidc: id_token carries no subject") else
          mret (identity_of claims)
      end
  end end.
End Oidc.

(** ** What an identity rests on *)

Section Rules.
Context {Net OProvider : Type} `{OidcLibs Net OProvider} (config : gmap string string).

Lemma call_bind_inv {A B} (c : Call A) (k : A → Call B) (p p' : Plugin Net OProvider) b : (c ≫= k) p = (Returned b, p') →
  ∃ a p1, c p = (Returned a, p1) ∧ k a p1 = (Returned b, p').
Proof. unfold mbind, Call_bind. destruct (c p) as [[a|e|m] p1]; [eauto|done..]. Qed.
Lemma wrap_failure_inv {A} s (c : Call A) (p p' : Plugin Net OProvider) a : wrap_failure s c p = (Returned a, p') → c p = (Returned a, p').
Proof. unfold wrap_failure. destruct (c p) as [[]]; by intros [=]; subst. Qed.
Lemma ask_inv {A} (f : Net → A * Net) (p p' : Plugin Net OProvider) a : ask_net f p = (Returned a, p') → f (pl_net p) = (a, pl_net p').
Proof. unfold ask_net. destruct (f (pl_net p)) as [a' n]. by intros [= <- <-]. Qed.
Lemma or_fail_inv {A} w (r : res A) (p p' : Plugin Net OProvider) a : or_fail w r p = (Returned a, p') → r = Ok a ∧ p' = p.
Proof. by destruct r; intros [= <- <-]. Qed.

(** What both ends of a login say of the client: the identifier and the secret it was given, where the provider sends the
    user back to, and a request for an id_token. *)
Definition of_client (prov : OProvider) (uri : string) (cfg : OauthConfig OProvider) : Prop :=
  oc_ClientID cfg = TrimSpace (default "" (config !! "client_id")) ∧ oc_ClientSecret cfg = default "" (config !! "client_secret") ∧
  oc_Endpoint cfg = prov ∧ oc_RedirectURL cfg = uri ∧ "openid" ∈ oc_Scopes cfg.
(** The URL asks for the login with this state, this nonce, and the S256 challenge of this verifier (RFC 7636), and nothing else;
    verifier and nonce are two readings of 32 random bytes. *)
Definition asks_login (state uri verifier nonce url : string) : Prop :=
  ∃ prov cfg, of_client prov uri cfg ∧
    url = ol_AuthCodeURL cfg state
      [("nonce", nonce); ("code_challenge", RawURL_EncodeToString (ol_Sum256 (N_of_ascii <$> to_bytes verifier))); ("code_challenge_method", "S256")] ∧
    ∃ bv bn n1 n2 n3, ol_rand_Read 32 n1 = (Ok bv, n2) ∧ ol_rand_Read 32 n2 = (Ok bn, n3) ∧
      verifier = RawURL_EncodeToString bv ∧ nonce = RawURL_EncodeToString bn.
(** The provider proved who authenticated: it exchanged the code, with the verifier, for a token which it verifies as issued to this
    client, and which carries the nonce; and the identity is what that token claims. *)
Definition proved (uri verifier nonce code : string) (id : Identity) : Prop :=
  ∃ prov cfg rawID tok claims n1 n2 n3, of_client prov uri cfg ∧
    ol_Exchange cfg code [("code_verifier", verifier)] n1 = (Ok (Some rawID), n2) ∧ rawID ≠ "" ∧
    ol_Verify prov (TrimSpace (default "" (config !! "client_id"))) rawID n2 = (Ok tok, n3) ∧ it_Nonce tok = nonce ∧
    it_Claims tok = Ok claims ∧ id_Subject id = cl_Subject claims ∧ id_Subject id ≠ "" ∧ id_Email id = TrimSpace (cl_Email claims) ∧
    (id_EmailVerified id = true ↔ cl_EmailVerified claims = Some true).

Lemma scopes_openid : "openid" ∈ scopes config.
Proof.
  unfold scopes. case_bool_decide; [set_solver|]. generalize (Split (TrimSpace (config_String config "scopes")) ",") as l.
  assert ("openid" ∈ ["openid"; "email"; "profile"]) as Ho by set_solver. revert Ho. generalize ["openid"; "email"; "profile"] as want.
  intros want Ho l. revert want Ho. induction l as [|s l IH]; intros want Ho; [done|]. apply IH. case_match; [set_solver|done].
Qed.
Lemma oauthConfig_client prov uri : of_client prov uri (oauthConfig config prov uri).
Proof. split_and!; [done..|apply scopes_openid]. Qed.

Lemma Complete_inv state params p id p' : Complete config state params p = (Returned id, p') →
  ∃ blob rt, RawURL_DecodeString state = Some blob ∧ ol_Unmarshal blob = Ok rt ∧ param params "error" = "" ∧ param params "code" ≠ "" ∧
    proved (rt_RedirectURI rt) (rt_Verifier rt) (rt_Nonce rt) (param params "code") id.
Proof.
  unfold Complete. case_bool_decide as He; cbn [negb]; [|done]. case_bool_decide as Hc; [done|].
  destruct (RawURL_DecodeString state) as [blob|]; [|done]. destruct (ol_Unmarshal blob) as [rt|] eqn:Eu; [|done].
  intros (prov & p1 & _ & H1)%call_bind_inv. apply call_bind_inv in H1 as (r & p2 & Hx%ask_inv & H2).
  apply call_bind_inv in H2 as (tok & p3 & (-> & ->)%or_fail_inv & H3). destruct tok as [[|a s]|]; [done| |done].
  apply call_bind_inv in H3 as (r & p4 & Hv%ask_inv & H4). apply call_bind_inv in H4 as (idTok & p5 & (-> & ->)%or_fail_inv & H5).
  case_bool_decide as Hn; cbn [negb] in H5; [|done]. apply call_bind_inv in H5 as (claims & p6 & (Hcl & ->)%or_fail_inv & H6).
  case_bool_decide as Hs; [done|]. injection H6 as <- _. exists blob, rt. split_and!; [done..|].
  exists prov, (oauthConfig config prov (rt_RedirectURI rt)), (String a s), idTok, claims, (pl_net p1), (pl_net p2), (pl_net p4).
  split; [apply oauthConfig_client|]. split_and!; try done. unfold identity_of. cbn [id_EmailVerified]. destruct (cl_EmailVerified claims) as [[]|]; split; (done || by intros [=]).
Qed.

Lemma string_forall_bytes (f : ascii → bool) s : Forall (λ c, f c = true) (to_bytes s) → string_forall f s = true.
Proof. induction s as [|c s IH]; [done|]. intros Hf. apply Forall_cons in Hf as [Hc Hf]. simpl. rewrite Hc. by apply IH. Qed.
Lemma random_ascii n p s p' : randomURLSafe n p = (Returned s, p') → is_ascii s = true.
Proof.
  unfold randomURLSafe. intros (r & p1 & _ & H1)%call_bind_inv. apply call_bind_inv in H1 as (b & p2 & _ & H2). injection H2 as <- _.
  unfold is_ascii. apply string_forall_bytes. apply encode_letters. intros m Hm. apply bool_decide_eq_true, Nat.ltb_lt.
  apply (below_check (λ m, (nat_of_ascii (letter base64url_alphabet m) <? 128)%nat) 64); [vm_compute; reflexivity|exact Hm].
Qed.
Lemma random_inv n p s p' : randomURLSafe n p = (Returned s, p') →
  ∃ b, ol_rand_Read n (pl_net p) = (Ok b, pl_net p') ∧ s = RawURL_EncodeToString b.
Proof.
  unfold randomURLSafe. intros (r & p1 & Hr%ask_inv & H1)%call_bind_inv.
  apply call_bind_inv in H1 as (b & p2 & (-> & ->)%or_fail_inv & H2). injection H2 as <- <-. eauto.
Qed.
Lemma Begin_inv state uri p b p' : Begin config state uri p = (Returned b, p') →
  ∃ verifier nonce, asks_login state uri verifier nonce (br_AuthorizeURL b) ∧
    br_State b = RawURL_EncodeToString (ol_Marshal {| rt_Verifier := verifier; rt_Nonce := nonce; rt_RedirectURI := uri |}) ∧
    is_ascii verifier = true ∧ is_ascii nonce = true.
Proof.
  unfold Begin. intros (prov & p1 & _ & H1)%call_bind_inv. case_bool_decide; [done|].
  apply call_bind_inv in H1 as (v & p2 & Hv & H2). apply call_bind_inv in H2 as (n & p3 & Hn & H3). injection H3 as <- _.
  exists v, n. split_and!; [|done|by eapply random_ascii..]. apply random_inv in Hv as (bv & Hv & ->). apply random_inv in Hn as (bn & Hn & ->).
  exists prov, (oauthConfig config prov uri). split; [apply oauthConfig_client|]. split; [done|]. by exists bv, bn, (pl_net p1), (pl_net p2), (pl_net p3).
Qed.

(** C40: Who the plugin says has authenticated is who the provider proved for the login it began: when [Complete] asserts an
    identity for the state that [Begin] gave, the authorize URL carries the host's state, a nonce, and the S256 challenge of
    a verifier, both fresh from 32 random bytes; the code was exchanged with that very verifier and the same redirect URI; and the
    verified token carries that nonce and names the subject, which is not empty; the address is verified only if the provider
    says so.  The JSON codec reads back what it wrote. *)
Theorem identity_answers_login state uri p b p1 params p2 id p3 :
  (∀ rt, is_ascii (rt_Verifier rt) = true → is_ascii (rt_Nonce rt) = true → is_ascii (rt_RedirectURI rt) = true →
     ol_Unmarshal (ol_Marshal rt) = Ok rt ∧ Forall (λ x, x < 256)%N (ol_Marshal rt)) →
  is_ascii uri = true → Begin config state uri p = (Returned b, p1) → Complete config (br_State b) params p2 = (Returned id, p3) →
  ∃ verifier nonce, asks_login state uri verifier nonce (br_AuthorizeURL b) ∧
    param params "error" = "" ∧ param params "code" ≠ "" ∧ proved uri verifier nonce (param params "code") id.
Proof.
  intros Hjson Huri (verifier & nonce & Hurl & Hst & Hv & Hn)%Begin_inv (blob & rt & Hd & Hu & He & Hc & Hp)%Complete_inv.
  set (rt0 := {| rt_Verifier := verifier; rt_Nonce := nonce; rt_RedirectURI := uri |}) in *.
  destruct (Hjson rt0) as [Hr Hb]; [done..|]. rewrite Hst, RawURL_roundtrip in Hd by done. injection Hd as <-.
  rewrite Hr in Hu. injection Hu as <-. by exists verifier, nonce.
Qed.

(** ** A provider that is down *)

(** The reset is made while the lock is held: the first login that finds the provider down does not fail, it
    ends the plugin's process, so that nothing is retried. *)
Lemma failed_discovery_is_fatal p e n state uri :
  on_done (pl_once p) = false → issuer config ≠ "" → ol_NewProvider (issuer config) (pl_net p) = (Err e, n) →
  ∃ p', Begin config state uri p = (Fatal "sync: unlock of unlocked mutex", p').
Proof.
  intros Ho Hi Hn. unfold Begin. eexists. unfold mbind at 1, Call_bind at 1, wrap_failure, resolve. unfold mbind at 1, Call_bind at 1, once_Do. rewrite Ho.
  unfold discover. rewrite bool_decide_eq_false_2 by done. unfold mbind, Call_bind, ask_net. cbn [pl_net set_once]. rewrite Hn. reflexivity.
Qed.
End Rules.

(** ** A concrete provider *)

Definition enc_text (s : string) : list N := flat_map (λ c, [1%N; N_of_ascii c]) (to_bytes s) ++ [0%N].
Fixpoint dec_text (l : list N) : option (list ascii * list N) :=
  match l with
  | 0%N :: l => Some ([], l)
  | 1%N :: c :: l => r ← dec_text l; Some (ascii_of_N c :: r.1, r.2)
  | _ => None
  end.
Lemma dec_enc s l : dec_text (enc_text s ++ l) = Some (to_bytes s, l).
Proof. unfold enc_text. induction s as [|c s IH]; [done|]. cbn. cbn in IH. rewrite IH. cbn. by rewrite ascii_N_embedding. Qed.
Lemma enc_bytes s : Forall (λ x, x < 256)%N (enc_text s).
Proof.
  unfold enc_text. apply Forall_app. split; [|by repeat constructor]. induction (to_bytes s) as [|c l IH]; [constructor|].
  simpl. constructor; [lia|]. constructor; [apply N_ascii_bounded|done].
Qed.
Definition demo_nonce : list N := replicate 32 7%N.
#[local] Instance demo_oidc : OidcLibs nat unit := {|
  ol_NewProvider := λ iss n, ((if bool_decide (iss = "https://idp.test") then Ok tt else Err (ErrOther "no such host")), S n);
  ol_AuthCodeURL := λ c state opts, "https://idp.test/authorize?state=" +:+ state;
  ol_Exchange := λ c code opts n, (Ok (Some "signed"), S n);
  ol_Verify := λ _ _ raw n, (Ok {| it_Nonce := RawURL_EncodeToString demo_nonce;
    it_Claims := Ok {| cl_Subject := "u-1"; cl_Email := "ada@x.test"; cl_EmailVerified := None; cl_Preferred := ""; cl_Name := "Ada" |} |}, S n);
  ol_rand_Read := λ k n, (Ok (replicate k 7%N), S n);
  ol_Sum256 := λ l, l;
  ol_Marshal := λ rt, enc_text (rt_Verifier rt) ++ enc_text (rt_Nonce rt) ++ enc_text (rt_RedirectURI rt);
  ol_Unmarshal := λ l,
    match dec_text l with
    | Some (v, l) => match dec_text l with
                     | Some (n, l) => match dec_text l with
                                      | Some (r, _) => Ok {| rt_Verifier := of_bytes v; rt_Nonce := of_bytes n; rt_RedirectURI := of_bytes r |}
                                      | None => Err (ErrOther "bad") end
                     | None => Err (ErrOther "bad") end
    | None => Err (ErrOther "bad") end |}.
Definition demo_config : gmap string string := {[ "issuer" := "https://idp.test"; "client_id" := "osctf" ]}.
Definition demo_plugin : Plugin nat unit := {| pl_once := once_zero; pl_discovered := None; pl_discErr := None; pl_net := 0 |}.
Definition demo_params : gmap string string := {[ "code" := "abc" ]}.
Abbreviation begun := (Begin demo_config "csrf" "https://ctf.test/cb" demo_plugin).
Definition demo_begin : BeginRedirect := {| br_AuthorizeURL := "https://idp.test/authorize?state=csrf"; br_State :=
  RawURL_EncodeToString (ol_Marshal {| rt_Verifier := RawURL_EncodeToString demo_nonce; rt_Nonce := RawURL_EncodeToString demo_nonce; rt_RedirectURI := "https://ctf.test/cb" |}) |}.
Definition demo_identity : Identity := {| id_Subject := "u-1"; id_Email := "ada@x.test"; id_Username := "Ada"; id_EmailVerified := false |}.
Abbreviation completed := (Complete demo_config (br_State demo_begin) demo_params begun.2).
Lemma identity_answers_login_witness :
  begun.1 = Returned demo_begin ∧ completed.1 = Returned demo_identity ∧
  ∃ verifier nonce, proved demo_config "https://ctf.test/cb" verifier nonce "abc" demo_identity.
Proof.
  assert (begun = (Returned demo_begin, begun.2)) as Eb by by vm_compute.
  assert (completed = (Returned demo_identity, completed.2)) as Ec by by vm_compute.
  split_and!; [by rewrite Eb|by rewrite Ec|].
  destruct (identity_answers_login demo_config "csrf" "https://ctf.test/cb" demo_plugin demo_begin begun.2 demo_params begun.2 demo_identity completed.2)
    as (v & n & _ & _ & _ & Hp); [|done|done|done|by exists v, n].
  intros [v n r] _ _ _. split.
  - cbn -[dec_text enc_text]. rewrite dec_enc, dec_enc. rewrite <- (app_nil_r (enc_text r)), dec_enc. by rewrite !of_to_bytes.
  - cbn -[enc_text]. apply Forall_app; split; [apply enc_bytes|]. apply Forall_app; split; apply enc_bytes.
Defined.
(** The first login while the provider is down ends the process. *)
Lemma provider_down_ends_plugin :
  (Begin (<["issuer" := "https://down.test"]> demo_config) "csrf" "https://ctf.test/cb" demo_plugin).1 = Fatal "sync: unlock of unlocked mutex".
Proof. by vm_compute. Qed.
