(* ===== verification/Settings.v ===== *)
(** * Settings and boot ([internal/config/config.go], [internal/seed/admin.go],
      [cmd/platform/main.go])

    What the environment configures and what is refused, how the settings reach the parts of
    the server, and what a first boot leaves in the database. *)

From Stdlib Require Import Ascii.
From S2P Require Import Prelude Text Env Store Demo AuthDemo Events Scheduler Users Redis Sessions Teams Passwords PasswordRules Accounts ExternalAuth AuthApi Challenges Hub PluginFiles Plugins FdBudget Http Authoring.

(** ** [config.go] *)

(** [url.URL], as far as it is read. *)
Record URL := { ul_Scheme : string; ul_Host : string; ul_Hostname : string }.
Record Config := {
  sc_BaseURL : string; sc_PublicHost : string; sc_HTTPAddr : string;
  sc_DatabaseURL : string; sc_RedisURL : string;
  sc_S3Endpoint : string; sc_S3AccessKey : string; sc_S3SecretKey : string; sc_S3Bucket : string; sc_S3UseSSL : bool;
  sc_AdminEmail : string; sc_AdminPassword : string;
  sc_SessionTTL : duration; sc_RegistrationOpen : bool; sc_APIV0Sunset : time; sc_AuthEmailLogin : bool; sc_AuthProvision : string;
  sc_RegisterIPBurst : Z; sc_RegisterIPWindow : duration; sc_LoginIPBurst : Z; sc_LoginIPWindow : duration;
  sc_PasswordHashConcurrency : Z; sc_PasswordHashMaxWait : duration; sc_TeamMaxSize : Z; sc_MaxAttachmentMB : Z;
  sc_PortRangeStart : Z; sc_PortRangeEnd : Z;
  sc_InstanceTTL : duration; sc_InstanceExtend : duration; sc_InstanceMaxTTL : duration; sc_TeamInstanceQuota : Z;
  sc_InstanceReapAfter : duration; sc_FlagPrefix : string;
  sc_DockerHost : string; sc_SeedExamples : bool; sc_ExamplesDir : string; sc_TrustProxy : bool; sc_AllowUnisolatedInstances : bool;
  sc_WSMaxConns : Z; sc_WSMaxConnsPerConn : Z; sc_WSHandshakeBurst : Z; sc_WSHandshakeWindow : duration;
  sc_PluginMaxInflight : Z; sc_PluginMaxInflightTotal : Z; sc_PluginQueueWait : duration; sc_PluginDrainTimeout : duration;
  sc_PluginsEnabled : bool; sc_PluginsDir : string; sc_RuntimeDir : string; sc_PluginHealthStable : duration; sc_PluginRestartCap : Z;
  sc_PluginStartTimeout : duration; sc_PluginScoringFallback : bool;
  sc_TokenRateBurst : Z; sc_TokenRateWindow : duration; sc_TokenDefaultTTL : duration; sc_TokenMaxTTL : duration;
  sc_CORSDevOrigin : string; sc_LogFormat : string; sc_LogLevel : string
}.
Definition V0SunsetPassed (c : Config) (now : time) : bool := (sc_APIV0Sunset c <? now)%Z.

Section Finalize.
(** [net/url.Parse]. *)
Context (url_Parse : string → option URL).

Definition parse_base (c : Config) : option URL :=
  match url_Parse (sc_BaseURL c) with
  | Some u => if bool_decide (ul_Scheme u = "") || bool_decide (ul_Host u = "") then None else Some u
  | None => None
  end.
(** The checks in their order: what is wrong, and what is said of it. *)
Definition checks (c : Config) : list (bool * string) := [
  (negb (is_Some_b (parse_base c)), "OSCTF_BASE_URL must be an absolute URL like http://localhost:8080");
  ((sc_PortRangeStart c <? 1) || (65535 <? sc_PortRangeEnd c) || (sc_PortRangeEnd c <? sc_PortRangeStart c),
   "OSCTF_PORT_RANGE_START/END must satisfy 1 <= start <= end <= 65535");
  (sc_InstanceTTL c <? 0, "OSCTF_INSTANCE_TTL must be >= 0");
  (sc_InstanceExtend c <=? 0, "OSCTF_INSTANCE_EXTEND must be > 0");
  ((sc_InstanceMaxTTL c <? sc_InstanceTTL c) || (sc_InstanceMaxTTL c <? sc_InstanceExtend c),
   "OSCTF_INSTANCE_MAX_TTL must be >= OSCTF_INSTANCE_TTL and >= OSCTF_INSTANCE_EXTEND");
  (sc_TeamInstanceQuota c <? 1, "OSCTF_TEAM_INSTANCE_QUOTA must be >= 1");
  (negb (sc_InstanceReapAfter c =? 0) && (sc_InstanceReapAfter c <? 2 * Minute),
   "OSCTF_INSTANCE_REAP_AFTER must be 0 (disabled) or >= 120s (it must exceed the deploy timeout)");
  (sc_TeamMaxSize c <? 1, "OSCTF_TEAM_MAX_SIZE must be >= 1");
  (sc_MaxAttachmentMB c <? 1, "OSCTF_MAX_ATTACHMENT_MB must be >= 1");
  ((sc_PluginMaxInflight c <? 1) || (sc_PluginMaxInflightTotal c <? 1),
   "OSCTF_PLUGIN_MAX_INFLIGHT / OSCTF_PLUGIN_MAX_INFLIGHT_TOTAL must be >= 1 (a plugin needs at least one in-flight slot)");
  ((sc_WSMaxConns c <? 0) || (sc_WSMaxConnsPerConn c <? 0) || (sc_WSHandshakeBurst c <? 0),
   "OSCTF_WS_MAX_CONNS / OSCTF_WS_MAX_CONNS_PER_CLIENT / OSCTF_WS_HANDSHAKE_BURST must be >= 0 (0 disables that limit)");
  ((0 <? sc_WSHandshakeBurst c) && (sc_WSHandshakeWindow c <=? 0),
   "OSCTF_WS_HANDSHAKE_WINDOW must be > 0 when OSCTF_WS_HANDSHAKE_BURST is set");
  (sc_RegisterIPBurst c <? 0, "OSCTF_REGISTER_IP_BURST must be >= 0 (0 disables the limit)");
  ((0 <? sc_RegisterIPBurst c) && (sc_RegisterIPWindow c <=? 0),
   "OSCTF_REGISTER_IP_WINDOW must be > 0 when OSCTF_REGISTER_IP_BURST is set");
  (sc_LoginIPBurst c <? 0, "OSCTF_LOGIN_IP_BURST must be >= 0 (0 disables the limit)");
  ((0 <? sc_LoginIPBurst c) && (sc_LoginIPWindow c <=? 0),
   "OSCTF_LOGIN_IP_WINDOW must be > 0 when OSCTF_LOGIN_IP_BURST is set");
  (sc_PasswordHashConcurrency c <? 0, "OSCTF_PASSWORD_HASH_CONCURRENCY must be >= 0 (0 derives from the host memory limit)");
  (sc_PasswordHashMaxWait c <=? 0, "OSCTF_PASSWORD_HASH_MAX_WAIT must be > 0");
  (negb (bool_decide (sc_LogFormat c ∈ ["json"; "text"])), "OSCTF_LOG_FORMAT must be 'json' or 'text'");
  (negb (bool_decide (sc_LogLevel c ∈ ["debug"; "info"; "warn"; "error"])), "OSCTF_LOG_LEVEL must be one of debug|info|warn|error")
]%Z.
Definition problems (c : Config) : list string := snd <$> List.filter fst (checks c).
(** The public host is derived when it is not set. *)
Definition derived_host (c : Config) : string :=
  match parse_base c with
  | Some u => if bool_decide (sc_PublicHost c = "") then ul_Hostname u else sc_PublicHost c
  | None => sc_PublicHost c
  end.
Definition nl_dash : string := String "010" "  - ".
Definition joined (l : list string) : string := foldr (λ s acc, nl_dash +:+ s +:+ acc) "" l.
(** The base URL and the public host, or every problem at once. *)
Definition finalize (c : Config) : res (option URL * string) :=
  if bool_decide (problems c = []) then Ok (parse_base c, derived_host c)
  else Err (ErrOther ("config: invalid configuration:" +:+ joined (problems c))).
Definition IsHTTPS (baseURL : option URL) : bool := match baseURL with Some u => bool_decide (ul_Scheme u = "https") | None => false end.
Definition BaseOrigin (baseURL : option URL) : string :=
  match baseURL with Some u => ul_Scheme u +:+ "://" +:+ ul_Host u | None => "" end.
End Finalize.

(** ** [main.go]: how the settings reach the parts *)

Section Wiring.
Context (ReadFile : string → option string) (GOMAXPROCS : Z).
Definition hash_concurrency (c : Config) : Z :=
  if (sc_PasswordHashConcurrency c <=? 0)%Z then DefaultHashConcurrency ReadFile GOMAXPROCS else sc_PasswordHashConcurrency c.
Definition scheduler_config (c : Config) : Scheduler.Config :=
  {| cfg_TTL := sc_InstanceTTL c; cfg_Extend := sc_InstanceExtend c; cfg_MaxTTL := sc_InstanceMaxTTL c;
     cfg_Quota := sc_TeamInstanceQuota c; cfg_ReapAfter := sc_InstanceReapAfter c |}.
Definition hub_limits (fdSoft : Z) (c : Config) : Limits :=
  {| MaxConns := rb_wsMaxConns (deriveResourceBudget fdSoft (sc_PluginMaxInflightTotal c) (sc_WSMaxConns c));
     MaxConnsPerKey := sc_WSMaxConnsPerConn c; HandshakeBurst := sc_WSHandshakeBurst c; HandshakeWindow := sc_WSHandshakeWindow c |}.
(** The handlers' and the server's dependencies that are settings. *)
Definition auth_conf (IDKey : list N → list N → N → N → N → N → list N) (dummyHash : string) (ttl_reply : duration → duration)
    (c : Config) : AuthConf :=
  {| ac_IDKey := IDKey; ac_hashSem := Some (Z.to_nat (hash_concurrency c)); ac_hashWait := sc_PasswordHashMaxWait c; ac_dummyHash := dummyHash;
     ac_ttl := sc_SessionTTL c; ac_ttl_reply := ttl_reply; ac_registrationOpen := sc_RegistrationOpen c;
     ac_EmailLoginDisabled := negb (sc_AuthEmailLogin c); ac_limiter := true;
     ac_RegisterIPBurst := sc_RegisterIPBurst c; ac_RegisterIPWindow := sc_RegisterIPWindow c;
     ac_LoginIPBurst := sc_LoginIPBurst c; ac_LoginIPWindow := sc_LoginIPWindow c;
     ac_tokens := true; ac_TokenDefaultTTL := sc_TokenDefaultTTL c; ac_TokenMaxTTL := sc_TokenMaxTTL c;
     ac_TokenBurst := sc_TokenRateBurst c; ac_TokenWindow := sc_TokenRateWindow c |}.
End Wiring.

(** A server nobody could log in to does not start: plugins register later, so what counts is what is on disk. *)
Definition login_gate {P} (c : Config) (r : AuthRegistry P) (auth_plugins_on_disk : nat) : res unit :=
  if HasUsableLogin (sc_AuthEmailLogin c) r then Ok tt else
  let configured := if sc_PluginsEnabled c then auth_plugins_on_disk else 0 in
  if decide (configured = 0)
  then Err (ErrOther ("no login method available: OSCTF_AUTH_EMAIL_LOGIN=false, and no auth plugin is installed in " +:+ sc_PluginsDir c +:+
                      " — enable email login or install an auth plugin"))
  else Ok tt.

(** ** [seed/admin.go], and the data of a boot *)

Definition insecureDefaultPasswords : list string := ["change-me-now"; "changeme"].

Section Boot.
Context {L : Libs} `{AuthorLibs}.
Context (IDKey : list N → list N → N → N → N → N → list N) (hashSem : option nat) (hashWait : duration).
Context (types types' : TypeRegistry) (IsRegisteredMode : string → bool).
Context (Put : string → list N → string → P World unit) (Delete : string → P World unit) (disk : Disk).

Definition EnsureAdmin (c : Config) : P World unit :=
  if bool_decide (sc_AdminEmail c = "") || bool_decide (sc_AdminPassword c = "")
  then throw (ErrOther "seed: OSCTF_ADMIN_EMAIL and OSCTF_ADMIN_PASSWORD are required on first boot") else
  (if bool_decide (sc_AdminPassword c ∈ insecureDefaultPasswords)
   then atomic (emit (Log "WARN" "SECURITY: the admin password is the compose-file default — change OSCTF_ADMIN_PASSWORD before the event"))
   else mret tt);;
  r ← try (atomic (GetUserByEmail (sc_AdminEmail c)));
  match r with
  | Ok _ => mret tt
  | Err e =>
      if negb (is_no_rows e) then throw (Wrap "seed: checking admin" e) else
      hash ← map_err (Wrap "seed: hashing admin password") (HashPassword IDKey hashSem hashWait (sc_AdminPassword c));
      id ← map_err (Wrap "seed: generating id") (atomic NewV7);
      map_err (Wrap "seed: creating admin") (atomic (CreateUser id "admin" (sc_AdminEmail c) hash "admin" true));;
      atomic (emit (Log "INFO" "seeded admin account"))
  end.
(** [cmdSeed], once connected. *)
Definition seed_all (c : Config) : P World unit :=
  EnsureAdmin c;;
  EnsureDefault;;
  (if sc_SeedExamples c then Seed types types' IsRegisteredMode Put Delete disk (sc_ExamplesDir c) else mret tt);;
  atomic (emit (Log "INFO" "seed complete")).
(** [cmdServe], from the connections to the examples: the captains are repaired before anything is served. *)
Definition boot_data (c : Config) : P World unit :=
  EnsureAdmin c;;
  EnsureDefault;;
  repaired ← RepairStrandedCaptains;
  (if decide (repaired = []) then mret tt
   else
     for_each (λ _, atomic (emit (Log "WARN" "reassigned captaincy for a team whose captain was not a member (data repaired)"))) repaired;;
     atomic (emit (Log "WARN" "repaired stranded team captaincies on startup")));;
  (if sc_SeedExamples c then Seed types types' IsRegisteredMode Put Delete disk (sc_ExamplesDir c) else mret tt).
End Boot.

(** ** What is accepted *)

Record settings_ok (url_Parse : string → option URL) (c : Config) : Prop := {
  ok_base : is_Some (parse_base url_Parse c);
  ok_ports : (1 ≤ sc_PortRangeStart c ≤ sc_PortRangeEnd c ∧ sc_PortRangeEnd c ≤ 65535)%Z;
  ok_ttl : (0 ≤ sc_InstanceTTL c ≤ sc_InstanceMaxTTL c)%Z;
  ok_extend : (0 < sc_InstanceExtend c ≤ sc_InstanceMaxTTL c)%Z;
  ok_quota : (1 ≤ sc_TeamInstanceQuota c)%Z;
  ok_reap : sc_InstanceReapAfter c = 0%Z ∨ (2 * Minute ≤ sc_InstanceReapAfter c)%Z;
  ok_team : (1 ≤ sc_TeamMaxSize c)%Z;
  ok_attachment : (1 ≤ sc_MaxAttachmentMB c)%Z;
  ok_plugins : (1 ≤ sc_PluginMaxInflight c)%Z ∧ (1 ≤ sc_PluginMaxInflightTotal c)%Z;
  ok_conns : (0 ≤ sc_WSMaxConns c)%Z ∧ (0 ≤ sc_WSMaxConnsPerConn c)%Z;
  ok_handshakes : (0 ≤ sc_WSHandshakeBurst c)%Z ∧ ((0 < sc_WSHandshakeBurst c)%Z → (0 < sc_WSHandshakeWindow c)%Z);
  ok_register : (0 ≤ sc_RegisterIPBurst c)%Z ∧ ((0 < sc_RegisterIPBurst c)%Z → (0 < sc_RegisterIPWindow c)%Z);
  ok_login : (0 ≤ sc_LoginIPBurst c)%Z ∧ ((0 < sc_LoginIPBurst c)%Z → (0 < sc_LoginIPWindow c)%Z);
  ok_hashing : (0 ≤ sc_PasswordHashConcurrency c)%Z ∧ (0 < sc_PasswordHashMaxWait c)%Z;
  ok_log : sc_LogFormat c ∈ ["json"; "text"] ∧ sc_LogLevel c ∈ ["debug"; "info"; "warn"; "error"]
}.

Lemma filter_none {A} (f : A → bool) l : List.filter f l = [] ↔ Forall (λ a, f a = false) l.
Proof.
  induction l as [|a l IH]; simpl; [by split|]. destruct (f a) eqn:E; [split; [done|by intros [? _]%Forall_cons; congruence]|].
  rewrite IH, Forall_cons. tauto.
Qed.
Lemma problems_none url_Parse c : problems url_Parse c = [] ↔ settings_ok url_Parse c.
Proof.
  unfold problems. assert (∀ l : list (bool * string), snd <$> l = [] ↔ l = []) as -> by (intros []; naive_solver).
  rewrite filter_none. unfold checks. rewrite !Forall_cons, Forall_nil. cbn [fst].
  rewrite !orb_false_iff, !andb_false_iff, !negb_false_iff, is_Some_b_true, !bool_decide_eq_true, !Z.ltb_ge, !Z.leb_gt, Z.eqb_eq.
  split.
  - intros H. destruct_and! H. split; try done; lia.
  - intros []. split_and!; try done; try lia; tauto.
Qed.

Lemma plugin_share fdSoft total want : (1024 ≤ fdSoft)%Z → (1 ≤ total)%Z → (1 ≤ rb_pluginGlobal (deriveResourceBudget fdSoft total want))%Z.
Proof.
  intros Hf Ht. unfold deriveResourceBudget. assert (∃ b ok, claim "plugin-inflight" total (fd_New fdSoft) = ((b, ok), (claim "plugin-inflight" total (fd_New fdSoft)).2) ∧ (1 ≤ b)%Z) as (b & ok & E & Hb).
  { destruct (claim _ _ _) as [[b ok] acct] eqn:E. exists b, ok. split; [done|]. revert E. unfold claim, fd_New, unlimited.
    destruct ((fdSoft =? 0)%Z || (2 ^ 31 <=? fdSoft)%Z); cbn [fb_unbounded fb_remaining]; [by intros [= <- <-]|].
    assert (fdSoft / 4 < fdSoft)%Z by (apply Z.div_lt; lia). assert (256 ≤ fdSoft / 4)%Z by (apply Z.div_le_lower_bound; lia).
    rewrite (proj2 (Z.ltb_ge (fdSoft / 4) 256)) by lia. rewrite (proj2 (Z.ltb_lt (fdSoft / 4) fdSoft)) by lia.
    destruct (_ || _); intros [= <- _ _]; lia. }
  rewrite E. destruct (claim "websocket-conns" _ _) as [[b' ok'] acct']. exact Hb.
Qed.

(** The settings that are accepted are exactly those in range, and they fit the parts they go to: the server starts
    with settings if and only if they satisfy every stated bound; then it has an absolute base URL and a public host (the given one, or the
    base URL's), the scheduler's time to live and extension never exceed the maximum lifetime and stuck rows outlive a deployment of two
    minutes, the gate admits at least one derivation, and the plugins have a slot unless the descriptors leave none. *)
Theorem finalize_exact url_Parse ReadFile GOMAXPROCS c :
  (is_ok (finalize url_Parse c) = true ↔ settings_ok url_Parse c) ∧
  (∀ base host, finalize url_Parse c = Ok (base, host) →
    let s := scheduler_config c in
    (∃ u, base = Some u ∧ ul_Scheme u ≠ "" ∧ ul_Host u ≠ "" ∧ host = (if decide (sc_PublicHost c = "") then ul_Hostname u else sc_PublicHost c)) ∧
    (0 ≤ cfg_TTL s ≤ cfg_MaxTTL s ∧ 0 < cfg_Extend s ≤ cfg_MaxTTL s ∧ 1 ≤ cfg_Quota s)%Z ∧ (cfg_ReapAfter s = 0 ∨ 2 * Minute ≤ cfg_ReapAfter s)%Z ∧
    (1 ≤ hash_concurrency ReadFile GOMAXPROCS c)%Z ∧
    (∀ fdSoft, (1024 ≤ fdSoft)%Z → (1 ≤ rb_pluginGlobal (deriveResourceBudget fdSoft (sc_PluginMaxInflightTotal c) (sc_WSMaxConns c)))%Z)).
Proof.
  unfold finalize. split; [case_bool_decide as Hp; cbn; rewrite <- problems_none; naive_solver|].
  intros base host. case_bool_decide as Hp; [|done]. intros [= <- <-]. apply problems_none in Hp as [[u Hu] ? ? ? ? Hr ? ? [? ?] ? ? ? ? [? ?] ?].
  split_and!; try (cbn; lia); try done.
  - exists u. unfold derived_host. rewrite Hu. unfold parse_base in Hu. destruct (url_Parse _) as [v|]; [|done].
    destruct (bool_decide (ul_Scheme v = "")) eqn:E1; [done|]. destruct (bool_decide (ul_Host v = "")) eqn:E2; [done|]. injection Hu as ->.
    apply bool_decide_eq_false in E1, E2. split_and!; [done..|]. by case_bool_decide; case_decide.
  - unfold hash_concurrency. pose proof (DefaultHashConcurrency_bounds ReadFile GOMAXPROCS) as [? _].
    destruct (Z.leb_spec (sc_PasswordHashConcurrency c) 0); lia.
  - intros fdSoft Hfd. apply plugin_share; lia.
Qed.

(** ** The first administrator *)

Section Admin.
Context {L : Libs} (IDKey : list N → list N → N → N → N → N → list N) (hashSem : option nat) (hashWait : duration) (c : Config).
Abbreviation ensure := (EnsureAdmin IDKey hashSem hashWait c).
Hypothesis credentials : sc_AdminEmail c ≠ "" ∧ sc_AdminPassword c ≠ "".

(** An account with the address is left as it is, whatever its role, its name or its password. *)
Lemma EnsureAdmin_leaves w u :
  w_faults w = [] → user_by_email (w_db w) (sc_AdminEmail c) = Some u →
  ∃ w', Prelude.run ensure w = Some (Ok tt, w') ∧ w_db w' = w_db w.
Proof.
  intros Hf Hu. destruct credentials as [He Hp]. unfold EnsureAdmin. rewrite !bool_decide_eq_false_2 by done. cbn [orb].
  rewrite run_bind. destruct (bool_decide _).
  - rewrite run_atomic. unfold emit, modify. rewrite run_bind, run_try, run_atomic. unfold GetUserByEmail. rewrite select_nofault by done.
    cbn [w_db set_out]. rewrite Hu. eexists. by split.
  - cbv beta iota delta [Prelude.run mret P_ret]. rewrite run_bind, run_try, run_atomic. unfold GetUserByEmail. rewrite select_nofault by done.
    rewrite Hu. eexists. by split.
Qed.
End Admin.

Definition demo_settings (email : string) : Config :=
  {| sc_BaseURL := "https://ctf.test"; sc_PublicHost := ""; sc_HTTPAddr := ":8080"; sc_DatabaseURL := "db"; sc_RedisURL := "redis";
     sc_S3Endpoint := "s3"; sc_S3AccessKey := "k"; sc_S3SecretKey := "s"; sc_S3Bucket := "osctf"; sc_S3UseSSL := false;
     sc_AdminEmail := email; sc_AdminPassword := "correct horse"; sc_SessionTTL := (168 * Hour)%Z; sc_RegistrationOpen := true;
     sc_APIV0Sunset := 0; sc_AuthEmailLogin := true; sc_AuthProvision := "invite-only";
     sc_RegisterIPBurst := 500; sc_RegisterIPWindow := (600 * Second)%Z; sc_LoginIPBurst := 500; sc_LoginIPWindow := (600 * Second)%Z;
     sc_PasswordHashConcurrency := 0; sc_PasswordHashMaxWait := (5 * Second)%Z; sc_TeamMaxSize := 4; sc_MaxAttachmentMB := 100;
     sc_PortRangeStart := 30000; sc_PortRangeEnd := 32767; sc_InstanceTTL := Hour; sc_InstanceExtend := (1800 * Second)%Z;
     sc_InstanceMaxTTL := (4 * Hour)%Z; sc_TeamInstanceQuota := 3; sc_InstanceReapAfter := (120 * Second)%Z; sc_FlagPrefix := "osctf";
     sc_DockerHost := ""; sc_SeedExamples := true; sc_ExamplesDir := "examples"; sc_TrustProxy := false; sc_AllowUnisolatedInstances := false;
     sc_WSMaxConns := 20000; sc_WSMaxConnsPerConn := 256; sc_WSHandshakeBurst := 600; sc_WSHandshakeWindow := Minute;
     sc_PluginMaxInflight := 64; sc_PluginMaxInflightTotal := 256; sc_PluginQueueWait := Second; sc_PluginDrainTimeout := (30 * Second)%Z;
     sc_PluginsEnabled := true; sc_PluginsDir := "./plugins"; sc_RuntimeDir := ""; sc_PluginHealthStable := Minute; sc_PluginRestartCap := 5;
     sc_PluginStartTimeout := (30 * Second)%Z; sc_PluginScoringFallback := true; sc_TokenRateBurst := 6000; sc_TokenRateWindow := Minute;
     sc_TokenDefaultTTL := (9000 * Hour)%Z; sc_TokenMaxTTL := (8760 * Hour)%Z; sc_CORSDevOrigin := ""; sc_LogFormat := "json"; sc_LogLevel := "info" |}.
Definition demo_url (s : string) : option URL := Some {| ul_Scheme := "https"; ul_Host := "ctf.test"; ul_Hostname := "ctf.test" |}.
(** A reaping threshold of exactly the deployment's two minutes is accepted, and so is a default lifetime of tokens
    above their maximum. *)
Lemma boundaries_accepted : finalize demo_url (demo_settings "a@x.test") = Ok (demo_url "", "ctf.test").
Proof. by vm_compute. Qed.
(** Another address for the administrator finds the name taken: the boot that follows fails. *)
Lemma changed_address_stops_boot :
  let first := Prelude.run (EnsureAdmin (L:=demo_libs) demo_IDKey None Second (demo_settings "a@x.test")) demo_accounts in
  match first with
  | Some (Ok _, w) =>
      match Prelude.run (EnsureAdmin (L:=demo_libs) demo_IDKey None Second (demo_settings "b@x.test")) w with
      | Some (Err e, _) => cause e = PgError "23505" "uq_users_username"
      | _ => False
      end
  | _ => False
  end.
Proof. by vm_compute. Qed.
