(* ===== verification/HttpServer.v ===== *)
(** * The HTTP server ([internal/httpserver/server.go], [middleware.go], [middleware_proxy.go],
      [auth_middleware.go], [token_middleware.go], [api.go])

    The stack of handlers that [New] builds around the API, what a request has shown when it gets
    there, and what a panic leaves behind. *)

From Stdlib Require Import Ascii.
From S2P Require Import Prelude Interleave Text Env Demo Store Users Redis Sessions Passwords Tokens ExternalAuth Accounts AuthApi AuthDemo TokenRules Http Settings.

(** ** Requests, responses and handlers *)

(** [http.Request] and what its context carries.  Headers have canonical names. *)
Record Request := {
  rq_Method : string; rq_Path : string; rq_RawPath : string;
  rq_Header : gmap string string; rq_Cookie : option string; (* the session's cookie *)
  rq_RequestID : string; rq_Identity : option Identity
}.
Definition header (k : string) (rq : Request) : string := default "" (rq_Header rq !! k).
Definition WithRequestID (id : string) (rq : Request) : Request :=
  {| rq_Method := rq_Method rq; rq_Path := rq_Path rq; rq_RawPath := rq_RawPath rq; rq_Header := rq_Header rq;
     rq_Cookie := rq_Cookie rq; rq_RequestID := id; rq_Identity := rq_Identity rq |}.
Definition WithIdentity (i : option Identity) (rq : Request) : Request :=
  {| rq_Method := rq_Method rq; rq_Path := rq_Path rq; rq_RawPath := rq_RawPath rq; rq_Header := rq_Header rq;
     rq_Cookie := rq_Cookie rq; rq_RequestID := rq_RequestID rq; rq_Identity := i |}.
Definition with_path (p raw : string) (rq : Request) : Request :=
  {| rq_Method := rq_Method rq; rq_Path := p; rq_RawPath := raw; rq_Header := rq_Header rq;
     rq_Cookie := rq_Cookie rq; rq_RequestID := rq_RequestID rq; rq_Identity := rq_Identity rq |}.

(** [http.ResponseWriter]: the headers that will be sent, the status once it is, and what was written. *)
Inductive chunk := Raw (s : string) | ReadyJSON (failing : gmap string string) | ProblemJSON (p : Http.Problem).
Record Writer := { wr_Header : gmap string string; wr_Status : option Z; wr_Body : list chunk }.
Definition fresh_writer : Writer := {| wr_Header := ∅; wr_Status := None; wr_Body := [] |}.
Definition Set_ (k v : string) (wr : Writer) : Writer :=
  match wr_Status wr with
  | None => {| wr_Header := <[k := v]> (wr_Header wr); wr_Status := None; wr_Body := wr_Body wr |}
  | Some _ => wr
  end.
Definition WriteHeader (code : Z) (wr : Writer) : Writer :=
  match wr_Status wr with
  | None => {| wr_Header := wr_Header wr; wr_Status := Some code; wr_Body := wr_Body wr |}
  | Some _ => wr
  end.
Definition Write (b : chunk) (wr : Writer) : Writer :=
  let wr := WriteHeader 200 wr in {| wr_Header := wr_Header wr; wr_Status := wr_Status wr; wr_Body := wr_Body wr ++ [b] |}.
(** What [statusRecorder] has recorded. *)
Definition recorded (wr : Writer) : Z := default 200%Z (wr_Status wr).

(** A handler returns, or panics with what it has written so far. *)
Inductive ended := Served (wr : Writer) | Panicked (wr : Writer) (v : string).
Definition written (e : ended) : Writer := match e with Served wr | Panicked wr _ => wr end.
Definition Handler : Type := Request → Writer → P World ended.

(** The request is read for its id only. *)
Definition WriteProblem_ (id : string) (p : Http.Problem) (wr : Writer) : Writer :=
  Write (ProblemJSON {| pb_Type := pb_Type p; pb_Title := pb_Title p; pb_Status := pb_Status p; pb_Detail := pb_Detail p;
                        pb_Errors := pb_Errors p; pb_RequestID := id |})
    (WriteHeader (pb_Status p) (Set_ "Content-Type" "application/problem+json" wr)).
Definition problem (typ title : string) (status : Z) (detail : string) : Http.Problem :=
  {| pb_Type := problemBase +:+ typ; pb_Title := title; pb_Status := status; pb_Detail := detail; pb_Errors := ∅; pb_RequestID := "" |}.
Definition refuse (rq : Request) (p : Http.Problem) (wr : Writer) : P World ended := mret (Served (WriteProblem_ (rq_RequestID rq) p wr)).
Definition itoa (n : Z) : string := of_bytes (decimal (Z.to_N n)).
Definition retry_after (secs : option Z) (wr : Writer) : Writer :=
  match secs with Some s => Set_ "Retry-After" (itoa s) wr | None => wr end.

(** ** [middleware.go], [middleware_proxy.go] *)

(** The id is drawn for the request. *)
Definition requestID (id : string) (next : Handler) : Handler := λ rq wr,
  next (WithRequestID id rq) (Set_ "X-Request-Id" id wr).

Definition csp : string :=
  "default-src 'self'; img-src 'self' data:; style-src 'self' 'unsafe-inline'; script-src 'self'; connect-src 'self' ws: wss:".
Definition securityHeaders (next : Handler) : Handler := λ rq wr,
  next rq (Set_ "Content-Security-Policy" csp (Set_ "Referrer-Policy" "same-origin" (Set_ "X-Content-Type-Options" "nosniff" wr))).

Definition recoverer (next : Handler) : Handler := λ rq wr,
  e ← next rq wr;
  match e with
  | Served _ => mret e
  | Panicked wr _ =>
      atomic (emit (Log "ERROR" "panic recovered"));;
      refuse rq (problem "internal" "Internal server error" 500 "Something broke. Reference the request id when reporting this.") wr
  end.

(** The pattern is [chi]'s.  Nothing is deferred: a panic passes through. *)
Definition observability (RoutePattern : Request → string) (next : Handler) : Handler := λ rq wr,
  e ← next rq wr;
  match e with
  | Panicked _ _ => mret e
  | Served wr =>
      let route := if bool_decide (RoutePattern rq = "") then "unmatched" else RoutePattern rq in
      atomic (emit (Inc "http_requests" [route; rq_Method rq; itoa (recorded wr)]));;
      atomic (emit (Log "INFO" "request"));;
      mret e
  end.

Definition proxy_warning : string := "OSCTF_TRUST_PROXY is off but a forwarded header was received".
Definition is_proxy_warning (e : effect) : bool := match e with Log _ msg => bool_decide (msg = proxy_warning) | _ => false end.
(** The [sync.Once] is done when the warning has been logged. *)
Definition warn_once : M World unit := λ w,
  if existsb is_proxy_warning (w_out w) then (Ok tt, w) else emit (Log "WARN" proxy_warning) w.
Definition proxyMisconfigWarn (trustProxy : bool) (next : Handler) : Handler := λ rq wr,
  (if negb trustProxy && (negb (bool_decide (header "X-Forwarded-For" rq = "")) || negb (bool_decide (header "X-Real-IP" rq = "")))
   then atomic warn_once else mret tt);;
  next rq wr.

(** ** [auth_middleware.go] *)

Section Auth.
Context {L : Libs} (c : AuthConf).
(** Who the cookie speaks for is [Accounts.sessionMiddleware]; the request goes on in any case. *)
Definition sessions_ (next : Handler) : Handler := λ rq wr,
  caller ← sessionMiddleware c (rq_Cookie rq);
  next (match caller with Some i => WithIdentity (Some i) rq | None => rq end) wr.

Definition token_problem (status : Z) (detail : string) : Http.Problem :=
  (if status =? 401 then problem "unauthorized" "Unauthorized" 401 detail
   else if status =? 429 then problem "rate-limited" "Too many requests" 429 detail
   else if status =? 503 then problem "unavailable" "Service unavailable" 503 detail
   else problem "forbidden" "Forbidden" status detail)%Z.
(** What [AuthApi.tokenMiddleware] decides, on the response. *)
Definition tokens_ (next : Handler) : Handler := λ rq wr,
  passed ← tokenMiddleware c (rq_Identity rq) (rq_Method rq) (rq_Path rq) (header "Authorization" rq);
  match passed with
  | Next caller => next (WithIdentity caller rq) wr
  | AuthApi.Problem status detail retry => refuse rq (token_problem status detail) (retry_after retry wr)
  end.

(** The scheme and host of a referrer, by [url.Parse]. *)
Context (url_Parse : string → option URL).
Definition referer_origin (ref : string) : option string := u ← url_Parse ref; Some (ul_Scheme u +:+ "://" +:+ ul_Host u).
(** The rule is [Accounts.origin_allowed]. *)
Definition originCheckMiddleware (baseOrigin devOrigin : string) (next : Handler) : Handler := λ rq wr,
  if origin_allowed baseOrigin devOrigin (rq_Method rq) (header "Origin" rq) (header "Referer" rq) referer_origin (rq_Identity rq)
  then next rq wr
  else refuse rq (problem "forbidden" "Forbidden" 403 "origin check failed") wr.
End Auth.

Definition cors_headers (devOrigin : string) (wr : Writer) : Writer :=
  Set_ "Access-Control-Allow-Headers" "Content-Type"
    (Set_ "Access-Control-Allow-Methods" "GET, POST, PATCH, DELETE, OPTIONS"
      (Set_ "Access-Control-Allow-Credentials" "true" (Set_ "Access-Control-Allow-Origin" devOrigin wr))).
Definition corsDevMiddleware (devOrigin : string) (next : Handler) : Handler := λ rq wr,
  if bool_decide (devOrigin = "") then next rq wr else
  if bool_decide (header "Origin" rq = devOrigin) then
    let wr := cors_headers devOrigin wr in
    if bool_decide (rq_Method rq = "OPTIONS") then mret (Served (WriteHeader 204 wr)) else next rq wr
  else next rq wr.

(** ** [api.go] *)

(** What the generated server makes of a request: the response is written, the request cannot be
    read, the handler reports an error, or it panics. *)
Inductive outcome := Visited | BadRequest (msg : string) | Failed (err : error) | Panics (v : string).
Definition Dispatch : Type := Request → Writer → P World (Writer * outcome).

Definition RenderError_ (rq : Request) (err : error) (wr : Writer) : P World ended :=
  let d := RenderError (rq_RequestID rq) err in
  (if rd_Logged d then atomic (emit (Log "ERROR" "unhandled error")) else mret tt);;
  refuse rq (rd_Problem d) (retry_after (rd_RetryAfter d) wr).
Definition not_implemented : Http.Problem := problem "internal" "Not implemented" 501 "This endpoint is not implemented yet.".
Definition newAPIHandler (srv : Dispatch) : Handler := λ rq wr,
  r ← srv rq wr;
  let '(wr, o) := r in
  match o with
  | Visited => mret (Served wr)
  | Panics v => mret (Panicked wr v)
  | BadRequest msg => refuse rq (problem "bad-request" "Bad request" 400 msg) wr
  | Failed err => if bool_decide (cause err = ErrNotImplemented) then refuse rq not_implemented wr else RenderError_ rq err wr
  end.

(** ** [server.go] *)

(** [http.StripPrefix]. *)
Definition StripPrefix (prefix : string) (next : Handler) : Handler := λ rq wr,
  match CutPrefix (rq_Path rq) prefix with
  | Some p =>
      if bool_decide (rq_RawPath rq = "") then next (with_path p "" rq) wr else
      match CutPrefix (rq_RawPath rq) prefix with
      | Some raw => next (with_path p raw rq) wr
      | None => mret (Served (Write (Raw "404 page not found") (WriteHeader 404 wr)))
      end
  | None => mret (Served (Write (Raw "404 page not found") (WriteHeader 404 wr)))
  end.

(** The date of a day since the epoch, and the weekday. *)
Definition civil (days : Z) : Z * Z * Z :=
  (let z := days + 719468 in
   let doe := z mod 146097 in
   let yoe := (doe - doe / 1460 + doe / 36524 - doe / 146096) / 365 in
   let doy := doe - (365 * yoe + yoe / 4 - yoe / 100) in
   let mp := (5 * doy + 2) / 153 in
   let m := if mp <? 10 then mp + 3 else mp - 9 in
   (yoe + 400 * (z / 146097) + (if m <=? 2 then 1 else 0), m, doy - (153 * mp + 2) / 5 + 1))%Z.
Definition two (n : Z) : string := (if (n <? 10)%Z then "0" else "") +:+ itoa n.
Definition nth_name (l : list string) (n : Z) : string := default "" (l !! Z.to_nat n).
(** [t.UTC().Format(http.TimeFormat)], of a year with four digits. *)
Definition http_date (t : time) : string :=
  let secs := (t / Second)%Z in let days := (secs / 86400)%Z in let s := (secs mod 86400)%Z in
  let '(y, m, d) := civil days in
  nth_name ["Thu"; "Fri"; "Sat"; "Sun"; "Mon"; "Tue"; "Wed"] (days mod 7) +:+ ", " +:+ two d +:+ " " +:+
  nth_name ["Jan"; "Feb"; "Mar"; "Apr"; "May"; "Jun"; "Jul"; "Aug"; "Sep"; "Oct"; "Nov"; "Dec"] (m - 1) +:+ " " +:+ itoa y +:+ " " +:+
  two (s / 3600) +:+ ":" +:+ two (s / 60 mod 60) +:+ ":" +:+ two (s mod 60) +:+ " GMT".
Definition deprecatedAlias (sunset : time) (next : Handler) : Handler := λ rq wr,
  next rq (Set_ "Sunset" (http_date sunset) (Set_ "Deprecation" "true" wr)).

Definition notImplemented : Handler := λ rq wr, refuse rq not_implemented wr.
Definition no_endpoint : Handler := λ rq wr, refuse rq (problem "not-found" "Not found" 404 "No such API endpoint.") wr.
Definition healthz : Handler := λ _ wr, mret (Served (Write (Raw "ok") (Set_ "Content-Type" "text/plain" wr))).
Definition readyz (ready : option (P World (gmap string string))) : Handler := λ _ wr,
  failing ← default (mret ∅) ready;
  mret (Served (Write (ReadyJSON failing) (WriteHeader (if bool_decide (failing = ∅) then 200 else 503)
    (Set_ "Content-Type" "application/json" wr)))).

(** The handlers in the order they are registered; [chi] chooses one by the method and the path. *)
Inductive Route := R_healthz | R_readyz | R_metrics | R_v1 | R_v0 | R_api | R_spa.
Record Deps := {
  d_Handlers : option Dispatch; d_Ready : option (P World (gmap string string));
  d_Sessions : bool; d_BaseOrigin : string; d_CORSDevOrigin : string; d_WSHandler : option Handler;
  d_V0Sunset : time; d_TrustProxy : bool
}.

Section Server.
Context {L : Libs} (c : AuthConf) (url_Parse : string → option URL) (chi : Request → Route) (RoutePattern : Request → string)
        (metrics_Handler webdist_Handler : Handler) (d : Deps).

(** The API behind the middleware: the socket, and the generated routes. *)
Definition endpoints : Handler := λ rq wr,
  let generated := match d_Handlers d with Some srv => newAPIHandler srv | None => notImplemented end in
  match d_WSHandler d with
  | Some ws => if bool_decide (rq_Path rq = "/ws") then ws rq wr else generated rq wr
  | None => generated rq wr
  end.
(** Without a token service [AuthApi.tokenMiddleware] passes every request on. *)
Definition api : Handler :=
  let api := corsDevMiddleware (d_CORSDevOrigin d) endpoints in
  let api := if bool_decide (d_BaseOrigin d = "") then api
             else originCheckMiddleware url_Parse (d_BaseOrigin d) (d_CORSDevOrigin d) api in
  let api := tokens_ c api in
  if d_Sessions d then sessions_ c api else api.
Definition routes : Handler := λ rq wr,
  match chi rq with
  | R_healthz => healthz rq wr
  | R_readyz => readyz (d_Ready d) rq wr
  | R_metrics => metrics_Handler rq wr
  | R_v1 => StripPrefix "/api/v1" api rq wr
  | R_v0 => StripPrefix "/api/v0" (deprecatedAlias (d_V0Sunset d) api) rq wr
  | R_api => no_endpoint rq wr
  | R_spa => webdist_Handler rq wr
  end.
Definition server_New (id : string) : Handler :=
  requestID id (recoverer (observability RoutePattern (securityHeaders (proxyMisconfigWarn (d_TrustProxy d) routes)))).
End Server.

(** ** What a request has shown when it reaches the API *)

Section Rules.
Context {L : Libs} (c : AuthConf) (url_Parse : string → option URL) (chi : Request → Route) (RoutePattern : Request → string)
        (metrics_Handler webdist_Handler : Handler) (d : Deps) (E : World → World → Prop).

Lemma redis_keeps_db {A} J (f : time → RedisState → A * RedisState) : preserves (dbi J) (redis f).
Proof. intros w Hw. destruct (redis f w) as [r w'] eqn:H. by apply redis_spec in H as (fs & [(-> & _)|(-> & _)]). Qed.
Lemma amid_own {A} (p : prog World A) w a w' :
  (∀ J, all_steps (dbi J) p) → amid E p w a w' → rtc (meanwhile E) w w'.
Proof.
  intros Hp. induction 1 as [|? ? ? ? ? He _ IH|X f k w x w1 a w' Hf _ IH|? ? ? ? ? _ IH].
  - done.
  - eapply rtc_l; [by left|by apply IH].
  - eapply rtc_l; [right|apply IH; intros J; apply (proj2 (Hp J))]. symmetry. by eapply (proj1 (Hp (λ d', d' = w_db w))).
  - apply IH. intros J. exact (proj2 (Hp J)).
Qed.
Lemma session_Get_own ttl reply t J : all_steps (dbi J) (session_Get ttl reply t).
Proof. unfold session_Get, redis_get, redis_set. steps; try (by apply redis_keeps_db). Qed.
Lemma sessionMiddleware_own cookie J : all_steps (dbi J) (sessionMiddleware c cookie).
Proof. unfold sessionMiddleware. destruct cookie as [v|]; [|done]. steps. apply session_Get_own. Qed.

(** The session that a cookie names is stored at some moment of the request, and gives the caller. *)
Definition by_session (cookie : option string) (w : World) (i : Identity) : Prop :=
  ∃ t h user w0, cookie = Some t ∧ t ≠ "" ∧ rtc (meanwhile E) w w0 ∧ fetch (w_wall w0) (rd_sess (w_redis w0)) t = Some h ∧
    uuid_Parse (sh_UserID h) = Some user ∧
    i = {| id_UserID := user; id_Role := sh_Role h; id_SessionToken := t; id_Method := AuthSession; id_Scopes := []; id_TokenID := uuid_Nil |}.
(** Or a bearer token that permits the request, as [TokenRules] has it. *)
Definition by_token (authorization method path : string) (w : World) (i : Identity) : Prop :=
  ∃ raw w0, bearerFromHeader authorization = Some raw ∧ rtc (meanwhile E) w w0 ∧
    admitted_on E raw (w_wall w0) w0 i ∧ scopeAllows (id_Scopes i) method path = true.

Lemma session_Get_stored ttl reply t w s w' : amid E (session_Get ttl reply t) w (Ok s) w' →
  t ≠ "" ∧ ∃ h user w0, rtc (meanwhile E) w w0 ∧ fetch (w_wall w0) (rd_sess (w_redis w0)) t = Some h ∧ uuid_Parse (sh_UserID h) = Some user ∧
    s_UserID s = user ∧ s_Role s = sh_Role h ∧ s_Token s = t.
Proof.
  unfold session_Get. case_decide as Ht; [by intros [? _]%amid_inv|]. intros ([vals|e] & w1 & H1 & Hk)%amid_bind; [|by destruct Hk].
  apply amid_map_err in H1 as ([v|] & w2 & (w0 & w3 & He & Hr & _)%amid_atomic & [= <-] & _).
  unfold redis_get in Hr. apply redis_spec in Hr as (fs & [[_ [=]]|[_ [[= ->]|[=]]]]). cbn [fst] in Hk.
  destruct (fetch _ _ t) as [h|] eqn:Ef; [|by apply amid_inv in Hk as [? _]].
  destruct (uuid_Parse (sh_UserID h)) as [user|] eqn:Eu; [|by apply amid_inv in Hk as [? _]].
  apply amid_bind in Hk as (left & w4 & _ & Hk). destruct left as [left|]; [|by destruct Hk].
  apply amid_bind in Hk as ([[]|] & w5 & _ & Hk); [|by destruct Hk]. apply amid_inv in Hk as [[= ->] _].
  split; [done|]. exists h, user, w0. split_and!; [by apply meanwhile_rtc|done..].
Qed.
Lemma sessionMiddleware_stored cookie w r w' : amid E (sessionMiddleware c cookie) w r w' →
  rtc (meanwhile E) w w' ∧ ∃ caller, r = Ok caller ∧ ∀ i, caller = Some i → by_session cookie w i.
Proof.
  intros H. split; [by eapply amid_own; [apply sessionMiddleware_own|]|]. revert H. unfold sessionMiddleware, by_session.
  destruct cookie as [v|]; [|by intros [-> _]%amid_inv; exists None].
  case_bool_decide; [by intros [-> _]%amid_inv; exists None|].
  intros (x & w1 & (s & w2 & H1 & -> & _)%amid_try & Hk)%amid_bind. destruct s as [s|e]; apply amid_inv in Hk as [-> _]; [|by exists None].
  eexists. split; [done|]. intros i [= <-]. apply session_Get_stored in H1 as (Ht & h & user & w0 & He & Hf & Hu & H2 & H3 & H4).
  exists v, h, user, w0. split_and!; [done..|by rewrite H2, H3, H4].
Qed.

Definition token_refusals : list Z := [401; 403; 429; 503]%Z.
Lemma tokenMiddleware_answers caller method path authorization w r w' : amid E (tokenMiddleware c caller method path authorization) w r w' →
  ∃ x, r = Ok x ∧ match x with
                  | AuthApi.Problem st _ _ => st ∈ token_refusals
                  | Next who => ∀ i, who = Some i → caller = Some i ∨ by_token authorization method path w i
                  end.
Proof.
  intros H. assert (∀ i, r = Ok (Next (Some i)) → caller = Some i ∨ by_token authorization method path w i) as Hi.
  { intros i ->. destruct caller as [i'|]; [left|right; by apply bearer_requests_gated in H].
    unfold tokenMiddleware in H. destruct (negb (ac_tokens c)); apply amid_inv in H as [[= ->] _]; done. }
  assert (∃ x, r = Ok x ∧ match x with AuthApi.Problem st _ _ => st ∈ token_refusals | Next _ => True end) as (x & -> & Hx).
  { clear Hi. revert H. unfold tokenMiddleware. destruct (negb (ac_tokens c)); [by intros [-> _]%amid_inv; eexists|].
    destruct caller as [i'|]; [by intros [-> _]%amid_inv; eexists|].
    destruct (bearerFromHeader authorization) as [raw|]; [|by intros [-> _]%amid_inv; eexists].
    intros ([now|e] & w1 & H1 & Hk)%amid_bind; [|by apply amid_atomic in H1 as (? & ? & _ & [=] & _)].
    apply amid_bind in Hk as (r1 & w2 & (r2 & w3 & _ & -> & _)%amid_try & Hk). destruct r2 as [i|e].
    2: { apply amid_inv in Hk as [-> _]. unfold tokenAuthProblem. case_bool_decide; eexists; (split; [done|set_solver]). }
    apply amid_bind in Hk as (l & w4 & Hl & Hk).
    assert (∃ l', l = Ok l') as [l' ->].
    { destruct (ac_limiter c && _); [by apply amid_try in Hl as (? & ? & _ & -> & _); eexists|by apply amid_inv in Hl as [-> _]; eexists]. }
    destruct l' as [[[] ra]|e].
    - destruct (negb _); [apply amid_inv in Hk as [-> _]; eexists; (split; [done|set_solver])|].
      apply amid_bind in Hk as (t & w5 & (t' & w6 & _ & -> & _)%amid_try & Hk). apply amid_inv in Hk as [-> _]. by eexists.
    - apply amid_inv in Hk as [-> _]. eexists. split; [done|set_solver].
    - apply amid_bind in Hk as (t & w5 & Ht & Hk). apply amid_atomic in Ht as (? & ? & _ & [= <- _] & _).
      apply amid_bind in Hk as (t & w6 & Ht & Hk). apply amid_atomic in Ht as (? & ? & _ & [= <- _] & _).
      apply amid_inv in Hk as [-> _]. eexists. split; [done|set_solver]. }
  exists x. split; [done|]. destruct x as [who|st dt ra]; [|done]. intros i ->. by apply Hi.
Qed.

(** ** The layers, one by one *)

Definition unsent (wr : Writer) : Prop := wr_Status wr = None ∧ wr_Body wr = [].
(** The headers that every response has. *)
Definition marked (id : string) (wr : Writer) : Prop :=
  wr_Header wr !! "X-Request-Id" = Some id ∧ wr_Header wr !! "X-Content-Type-Options" = Some "nosniff" ∧
  wr_Header wr !! "Referrer-Policy" = Some "same-origin" ∧ wr_Header wr !! "Content-Security-Policy" = Some csp.
Definition other_header (k : string) : Prop :=
  k ∉ ["X-Request-Id"; "X-Content-Type-Options"; "Referrer-Policy"; "Content-Security-Policy"].
Lemma unsent_Set k v wr : unsent wr → unsent (Set_ k v wr).
Proof. unfold unsent, Set_. by intros [-> ->]. Qed.
Lemma marked_Set id k v wr : other_header k → marked id wr → marked id (Set_ k v wr).
Proof.
  unfold marked, other_header, Set_. intros Hk Hm. destruct (wr_Status wr); [done|]. cbn [wr_Header].
  rewrite !lookup_insert_ne; [done|intros ->; apply Hk; set_solver..].
Qed.
#[local] Hint Resolve unsent_Set marked_Set : core.
#[local] Hint Extern 1 (other_header _) => (unfold other_header; set_solver) : core.

(** An answer of the middleware: the preflight's, or one problem (or the page of [StripPrefix]). *)
Definition own_answer (id method : string) (r : res ended) : Prop :=
  ∃ wr, r = Ok (Served wr) ∧ marked id wr ∧
    ((method = "OPTIONS" ∧ wr_Status wr = Some 204%Z ∧ wr_Body wr = []) ∨
     ∃ st b, st ∈ (404 :: token_refusals)%Z ∧ wr_Status wr = Some st ∧ wr_Body wr = [b]).
Lemma refuse_own id method rq p wr w r w' : pb_Status p ∈ token_refusals → unsent wr → marked id wr →
  amid E (refuse rq p wr) w r w' → own_answer id method r.
Proof.
  intros Hst Hu Hm [-> _]%amid_inv. eexists. split; [done|]. unfold WriteProblem_.
  assert (unsent (Set_ "Content-Type" "application/problem+json" wr)) as [Hs Hb] by auto.
  assert (marked id (Set_ "Content-Type" "application/problem+json" wr)) as Hh by auto.
  unfold Write, WriteHeader. rewrite Hs. cbn [wr_Status wr_Body wr_Header]. rewrite Hb. split; [exact Hh|].
  right. eexists _, _. split_and!; [by apply list_elem_of_further|done..].
Qed.
Lemma not_found_own id method wr w r w' : unsent wr → marked id wr →
  amid E (mret (M:=P World) (Served (Write (Raw "404 page not found") (WriteHeader 404 wr)))) w r w' → own_answer id method r.
Proof.
  intros [Hs Hb] Hm [-> _]%amid_inv. eexists. split; [done|]. unfold Write, WriteHeader. rewrite Hs. cbn [wr_Status wr_Body wr_Header]. rewrite Hb.
  split; [exact Hm|]. right. eexists _, _. split_and!; [apply list_elem_of_here|done..].
Qed.

(** What the origin of a request is, and which are allowed. *)
Definition request_origin (rq : Request) : string :=
  if bool_decide (header "Origin" rq = "")
  then (if bool_decide (header "Referer" rq = "") then "" else default "" (referer_origin url_Parse (header "Referer" rq)))
  else header "Origin" rq.
Definition same_origin (rq : Request) : Prop :=
  TrimSlash (request_origin rq) = d_BaseOrigin d ∨ (d_CORSDevOrigin d ≠ "" ∧ TrimSlash (request_origin rq) = d_CORSDevOrigin d).

(** What is known of a request that the API is asked to serve: it is the one that was sent, at a path of the API; its caller
    is nobody, or whom a stored session or a good token gives; and if it may change something, it comes from
    an allowed origin, or with a token. *)
Definition vouched (rq rq' : Request) (w : World) : Prop :=
  rq_Method rq' = rq_Method rq ∧ rq_Header rq' = rq_Header rq ∧
  (∀ i, rq_Identity rq' = Some i →
     by_session (rq_Cookie rq) w i ∨ by_token (header "Authorization" rq) (rq_Method rq) (rq_Path rq') w i) ∧
  (rq_Method rq ∈ ["GET"; "HEAD"; "OPTIONS"] ∨ same_origin rq ∨
   ∃ i, rq_Identity rq' = Some i ∧ by_token (header "Authorization" rq) (rq_Method rq) (rq_Path rq') w i).
(** [r] is what the API's handlers returned for such a request, or the middleware's own answer. *)
Definition reached (h : Handler) (id : string) (rq : Request) (path : string) (w : World) (r : res ended) : Prop :=
  ∃ rq' wr w1 w2, amid E (h rq' wr) w1 r w2 ∧ rq_Path rq' = path ∧ rq_RequestID rq' = rq_RequestID rq ∧
    unsent wr ∧ marked id wr ∧ vouched rq rq' w.
Definition served_by (h : Handler) (id : string) (rq : Request) (path : string) (w : World) (r : res ended) : Prop :=
  reached h id rq path w r ∨ own_answer id (rq_Method rq) r.

Lemma cors_inv h rq wr w r w' id rq0 w0 : unsent wr → marked id wr → rq_Method rq = rq_Method rq0 → rq_RequestID rq = rq_RequestID rq0 →
  vouched rq0 rq w0 → amid E (corsDevMiddleware (d_CORSDevOrigin d) h rq wr) w r w' → served_by h id rq0 (rq_Path rq) w0 r.
Proof.
  intros Hu Hm Hmeth Hid Hv. unfold corsDevMiddleware, served_by, reached.
  assert (unsent (cors_headers (d_CORSDevOrigin d) wr)) as Hu' by (unfold cors_headers; auto 6).
  assert (marked id (cors_headers (d_CORSDevOrigin d) wr)) as Hm' by (unfold cors_headers; auto 8).
  repeat case_bool_decide; intros Ha; try (left; eexists rq, _, _, _; split_and!; [exact Ha|done..]).
  right. apply amid_inv in Ha as [-> _]. eexists. split; [done|]. destruct Hu' as [Hs Hb]. unfold WriteHeader. rewrite Hs. cbn [wr_Status wr_Body].
  split; [exact Hm'|]. left. split_and!; [congruence|done..].
Qed.
Lemma token_callers authorization method path w i : by_token authorization method path w i → id_Method i = AuthToken.
Proof. by intros (raw & w0 & _ & _ & (k & u & w1 & w2 & _ & _ & _ & _ & _ & _ & _ & ->) & _). Qed.
Lemma session_callers cookie w i : by_session cookie w i → id_Method i = AuthSession.
Proof. by intros (t & h & u & w0 & _ & _ & _ & _ & _ & ->). Qed.
Lemma by_token_earlier authorization method path w w1 i : rtc (meanwhile E) w w1 → by_token authorization method path w1 i →
  by_token authorization method path w i.
Proof. intros H (raw & w0 & ? & ? & ?). exists raw, w0. split_and!; [done|by etrans|naive_solver..]. Qed.
Lemma origin_inv rq : origin_allowed (d_BaseOrigin d) (d_CORSDevOrigin d) (rq_Method rq) (header "Origin" rq) (header "Referer" rq)
    (referer_origin url_Parse) (rq_Identity rq) = true →
  rq_Method rq ∈ ["GET"; "HEAD"; "OPTIONS"] ∨ same_origin rq ∨ ∃ i, rq_Identity rq = Some i ∧ id_Method i = AuthToken.
Proof.
  unfold origin_allowed, same_origin. fold (request_origin rq).
  rewrite !orb_true_iff, andb_true_iff, negb_true_iff, bool_decide_eq_false, !bool_decide_eq_true.
  intros [[?|Hi]|Ho]; [by left| |right; left; exact Ho].
  right; right. destruct (rq_Identity rq) as [i|]; [|done]. apply bool_decide_eq_true in Hi. eauto.
Qed.

(** The API behind its middleware, for a request that nobody has vouched for yet. *)
Lemma api_inv id rq wr w r w' : d_Sessions d = true → d_BaseOrigin d ≠ "" → rq_Identity rq = None → unsent wr → marked id wr →
  amid E (api c url_Parse d rq wr) w r w' → served_by (endpoints d) id rq (rq_Path rq) w r.
Proof.
  intros Hs Hb Hid Hu Hm. unfold api. rewrite Hs, bool_decide_eq_false_2 by done. unfold sessions_.
  intros (who & w1 & (Hown & who' & -> & Hwho)%sessionMiddleware_stored & Hk)%amid_bind.
  set (rq1 := match who' with Some i => WithIdentity (Some i) rq | None => rq end) in Hk.
  assert (rq_Identity rq1 = who') as Hid1 by by unfold rq1; destruct who'.
  assert (rq_Method rq1 = rq_Method rq ∧ rq_Path rq1 = rq_Path rq ∧ rq_Header rq1 = rq_Header rq ∧ rq_RequestID rq1 = rq_RequestID rq)
    as (H1 & H2 & H3 & H4) by by unfold rq1; destruct who'.
  unfold tokens_ in Hk. apply amid_bind in Hk as (x & w2 & Hx & Hk). apply tokenMiddleware_answers in Hx as (p & -> & Hp).
  assert (header "Authorization" rq1 = header "Authorization" rq) as H5 by by unfold header; rewrite H3.
  rewrite H5, H1, H2, Hid1 in Hp. destruct p as [caller|st dt ra].
  2: { right. revert Hk. apply refuse_own; [|by destruct ra; cbn [retry_after]; auto..].
       unfold token_problem. set_unfold in Hp. destruct Hp as [->|[->|[->|[->|[]]]]]; cbn; set_solver. }
  set (rq2 := WithIdentity caller rq1) in Hk. unfold originCheckMiddleware in Hk.
  assert (∀ i, caller = Some i → by_session (rq_Cookie rq) w i ∨ by_token (header "Authorization" rq) (rq_Method rq) (rq_Path rq) w i) as Hcaller.
  { intros i Hi. destruct (Hp i Hi) as [->|Ht]; [left; by apply Hwho|right; by eapply by_token_earlier]. }
  destruct (origin_allowed _ _ _ _ _ _ _) eqn:Eo; [|right; revert Hk; apply refuse_own; [set_solver|done..]].
  rewrite <- H2. change (rq_Path rq1) with (rq_Path rq2). eapply cors_inv; [exact Hu|exact Hm|done|done| |exact Hk].
  unfold vouched. change (rq_Path rq2) with (rq_Path rq1). change (rq_Identity rq2) with caller. rewrite H2. split_and!; [done..|].
  apply (origin_inv rq2) in Eo as [Hsafe|[Ho|(i & Hi & Ht)]]; [left; by rewrite <- H1|right; left|right; right].
  - revert Ho. unfold same_origin, request_origin, header, rq2. cbn [rq_Header WithIdentity]. by rewrite H3.
  - exists i. split; [exact Hi|]. destruct (Hcaller i Hi) as [Hsess|]; [|done]. apply session_callers in Hsess. congruence.
Qed.

(** The layers around the routes: a panic becomes a problem, and nothing else changes an answer. *)
Definition recovered (id : string) (r : res ended) : res ended :=
  match r with
  | Ok (Panicked wr _) =>
      Ok (Served (WriteProblem_ id
        (problem "internal" "Internal server error" 500 "Something broke. Reference the request id when reporting this.") wr))
  | _ => r
  end.
Lemma emit_inv {A} e (k : unit → P World A) w r w' : amid E (atomic (emit e) ≫= k) w r w' → ∃ w1, amid E (k tt) w1 r w'.
Proof. intros (x & w1 & (? & ? & _ & [= <- _] & _)%amid_atomic & Hk)%amid_bind. eauto. Qed.
Lemma observability_inv next rq wr w r w' : amid E (observability RoutePattern next rq wr) w r w' → ∃ w1, amid E (next rq wr) w r w1.
Proof.
  intros (x & w1 & Hx & Hk)%amid_bind. destruct x as [[wr'|wr' v]|e]; [|by apply amid_inv in Hk as [-> _]; eauto|by destruct Hk as [-> _]; eauto].
  apply emit_inv in Hk as [w2 Hk]. apply emit_inv in Hk as [w3 Hk]. apply amid_inv in Hk as [-> _]. eauto.
Qed.
Lemma recoverer_inv next rq wr w r w' : amid E (recoverer next rq wr) w r w' →
  ∃ r1 w1, amid E (next rq wr) w r1 w1 ∧ r = recovered (rq_RequestID rq) r1.
Proof.
  intros (x & w1 & Hx & Hk)%amid_bind. exists x, w1. split; [done|]. destruct x as [[wr'|wr' v]|e]; [by apply amid_inv in Hk as [-> _]| |by destruct Hk as [-> _]].
  apply emit_inv in Hk as [w2 Hk]. by apply amid_inv in Hk as [-> _].
Qed.
Lemma proxy_inv trust next rq wr w r w' : amid E (proxyMisconfigWarn trust next rq wr) w r w' →
  ∃ w1, rtc (meanwhile E) w w1 ∧ amid E (next rq wr) w1 r w'.
Proof.
  intros (x & w1 & Hx & Hk)%amid_bind. exists w1.
  assert (rtc (meanwhile E) w w1) as Hr.
  { eapply amid_own; [|exact Hx]. intros J. destruct (negb trust && _); [|apply all_steps_ret].
    apply all_steps_atomic. intros w0 Hw0. unfold warn_once. by destruct (existsb _ _). }
  split; [done|]. destruct x as [[]|e]; [done|]. destruct (negb trust && _); [|by apply amid_inv in Hx as [? _]].
  apply amid_atomic in Hx as (w2 & w3 & _ & Hx & _). unfold warn_once in Hx. by destruct (existsb _ _).
Qed.
Lemma vouched_earlier rq rq' w w1 : rtc (meanwhile E) w w1 → vouched rq rq' w1 → vouched rq rq' w.
Proof.
  intros H (H1 & H2 & H3 & H4). split_and!; [done..| |].
  - intros i [(t & h & u & w0 & Hc & Ht & Hw & Hs)|Ht]%H3; [left|right; by eapply by_token_earlier].
    exists t, h, u, w0. split; [done|split; [done|split; [by etrans|done]]].
  - destruct H4 as [?|[?|(i & ? & Ht)]]; [by left|by right; left|]. right; right. exists i. split; [done|]. by eapply by_token_earlier.
Qed.
Definition api_path (path rest : string) : Prop := path = "/api/v1" +:+ rest ∨ path = "/api/v0" +:+ rest.
Lemma StripPrefix_inv h prefix id rq wr w r w' : unsent wr → marked id wr → amid E (StripPrefix prefix h rq wr) w r w' →
  (∃ rest raw, rq_Path rq = prefix +:+ rest ∧ amid E (h (with_path rest raw rq) wr) w r w') ∨ own_answer id (rq_Method rq) r.
Proof.
  intros Hu Hm. unfold StripPrefix. destruct (CutPrefix (rq_Path rq) prefix) as [p|] eqn:Ep; [|right; by eapply not_found_own].
  apply CutPrefix_some in Ep. case_bool_decide; [left; eauto|].
  destruct (CutPrefix (rq_RawPath rq) prefix); [left; eauto|right; by eapply not_found_own].
Qed.

(** C19: Nothing of the API runs for a request that has not shown what it must, whatever else happens meanwhile: the handlers see
    the method, the headers and the path below [/api/v1] or [/api/v0] that were sent; a caller is one that a session stored
    during the request names, or whose bearer token was good and permits the request; and a request that may change
    something comes from an allowed origin or carries such a token.  Any other answer is the middleware's own: a
    preflight, or one problem.  A panic of the handlers becomes a problem, and all responses start with the same headers. *)
Theorem api_requests_vouched id rq w e w' :
  d_Sessions d = true → d_BaseOrigin d ≠ "" → rq_Identity rq = None → chi (WithRequestID id rq) ∈ [R_v1; R_v0] →
  amid E (server_New c url_Parse chi RoutePattern metrics_Handler webdist_Handler d id rq fresh_writer) w e w' →
  ∃ r, e = recovered id r ∧
    ((∃ path, api_path (rq_Path rq) path ∧ reached (endpoints d) id (WithRequestID id rq) path w r) ∨ own_answer id (rq_Method rq) r).
Proof.
  intros Hs Hb Hid Hroute (r & w1 & Hr & ->)%recoverer_inv. exists r. split; [done|].
  apply observability_inv in Hr as [w2 Hr]. apply proxy_inv in Hr as (w3 & Hown & Hr).
  unfold routes in Hr. set (wr := Set_ _ csp _) in Hr. set (rq1 := WithRequestID id rq) in *.
  assert (unsent wr) as Hu by by unfold wr. assert (marked id wr) as Hm by by unfold wr, marked; vm_compute.
  assert (∀ rest raw wr w4, unsent wr → marked id wr → api_path (rq_Path rq) rest →
    amid E (api c url_Parse d (with_path rest raw rq1) wr) w3 r w4 →
    (∃ path, api_path (rq_Path rq) path ∧ reached (endpoints d) id rq1 path w r) ∨ own_answer id (rq_Method rq) r) as Hgo.
  { intros rest raw wr' w4 Hu' Hm' Hp Ha. apply (api_inv id) in Ha as [(rq' & wr2 & w5 & w6 & H1 & H2 & H3 & H4 & H5 & H6)|Ho]; [left|by right|done..].
    exists rest. split; [done|]. exists rq', wr2, w5, w6. split_and!; [done..|by eapply vouched_earlier]. }
  set_unfold in Hroute. destruct Hroute as [Hc|[Hc|[]]]; rewrite Hc in Hr; apply (StripPrefix_inv _ _ id) in Hr as [(rest & raw & Hp & Hr)|Ho]; try done; try (by right).
  - eapply Hgo; [exact Hu|exact Hm|by left|exact Hr].
  - eapply Hgo; [| |by right|exact Hr]; auto.
Qed.
End Rules.

(** ** On concrete requests *)

#[local] Existing Instance demo_libs.

Definition demo_chi (rq : Request) : Route :=
  if HasPrefix (rq_Path rq) "/api/v1/" then R_v1 else if HasPrefix (rq_Path rq) "/api/v0/" then R_v0
  else if HasPrefix (rq_Path rq) "/api/" then R_api else R_spa.
(** The API greets, and panics when it is asked to. *)
Definition demo_dispatch : Dispatch := λ rq wr,
  mret (if bool_decide (rq_Path rq = "/panic") then (wr, Panics "nil dereference") else (Write (Raw "hello") wr, Visited)).
Definition demo_deps (base : string) : Deps :=
  {| d_Handlers := Some demo_dispatch; d_Ready := None; d_Sessions := true; d_BaseOrigin := base; d_CORSDevOrigin := "";
     d_WSHandler := None; d_V0Sunset := (1801440000 * Second)%Z; d_TrustProxy := true |}.
Definition demo_post (path origin : string) : Request :=
  {| rq_Method := "POST"; rq_Path := path; rq_RawPath := ""; rq_Header := {[ "Origin" := origin ]}; rq_Cookie := Some "s1";
     rq_RequestID := ""; rq_Identity := None |}.
(** The player is logged in. *)
Definition logged_in : World :=
  set_redis (store_session (ac_ttl demo_conf) (w_wall demo_accounts)
    {| s_Token := "s1"; s_UserID := 11%N; s_Role := "user"; s_CreatedAt := w_wall demo_accounts; s_IP := ""; s_UA := "" |}
    (w_redis demo_accounts)) demo_accounts.
Definition demo_spa : Handler := λ _ wr, mret (Served wr).
Definition demo_server (base : string) (rq : Request) : P World ended :=
  server_New (L:=demo_libs) demo_conf (λ _, None) demo_chi rq_Path demo_spa demo_spa (demo_deps base) "rid" rq fresh_writer.
Definition status_of (r : option (res ended * World)) : option Z :=
  match r with Some (Ok (Served wr), _) => wr_Status wr | _ => None end.

Lemma api_requests_vouched_witness :
  let rq := demo_post "/api/v1/submissions" "https://ctf.test" in
  ∃ e w' r, solo (demo_server "https://ctf.test" rq) logged_in = Some (e, w') ∧ status_of (Some (e, w')) = Some 200%Z ∧ e = recovered "rid" r.
Proof.
  intros rq. destruct (solo (demo_server "https://ctf.test" rq) logged_in) as [[e w']|] eqn:E; [|by vm_compute in E].
  assert (status_of (solo (demo_server "https://ctf.test" rq) logged_in) = Some 200%Z) as H by by vm_compute. rewrite E in H.
  destruct (api_requests_vouched (L:=demo_libs) demo_conf (λ _, None) demo_chi rq_Path demo_spa demo_spa (demo_deps "https://ctf.test") (λ _ _, False)
    "rid" rq logged_in e w') as (r & -> & _); [done|done|done|set_solver|by apply solo_amid|].
  exists (recovered "rid" r), w', r. done.
Defined.
(** From another site, or with no origin, the session is of no use; [/api/v0] is the same API, marked as deprecated. *)
Example other_site_refused :
  status_of (solo (demo_server "https://ctf.test" (demo_post "/api/v1/submissions" "https://evil.test")) logged_in) = Some 403%Z ∧
  status_of (solo (demo_server "https://ctf.test" (demo_post "/api/v1/submissions" "")) logged_in) = Some 403%Z.
Proof. by vm_compute. Qed.
Example alias_sunset :
  match solo (demo_server "https://ctf.test" (demo_post "/api/v0/submissions" "https://ctf.test")) logged_in with
  | Some (Ok (Served wr), _) => wr_Status wr = Some 200%Z ∧ wr_Header wr !! "Sunset" = Some "Mon, 01 Feb 2027 00:00:00 GMT"
  | _ => False
  end.
Proof. by vm_compute. Qed.
(** A request whose handler panics is answered with a problem, and is neither counted nor logged as a request. *)
Lemma panics_uncounted :
  match solo (demo_server "https://ctf.test" (demo_post "/api/v1/panic" "https://ctf.test")) logged_in with
  | Some (Ok (Served wr), w') => wr_Status wr = Some 500%Z ∧ w_out w' = w_out logged_in ++ [Log "ERROR" "panic recovered"]
  | _ => False
  end.
Proof. by vm_compute. Qed.
(** Browsers send origins in lower case: with a capital in the configured address no browser's request passes. *)
Lemma capital_origin_refused :
  status_of (solo (demo_server (BaseOrigin (Some {| ul_Scheme := "https"; ul_Host := "CTF.test"; ul_Hostname := "CTF.test" |}))
    (demo_post "/api/v1/submissions" "https://ctf.test")) logged_in) = Some 403%Z.
Proof. by vm_compute. Qed.
